(* ===== verification/_CoqProject ===== *)
-Q . S2P
Prelude.v
Ring.v
CosList.v
Kern.v
Caps.v
PageMem.v
Vas.v
Mpd.v
MpdInv.v
MpdLife.v
Thread.v
ThreadInv.v
Ipc.v
IpcInv.v
Sched.v
SchedInv.v
MpdOps.v
MpdOpsInv.v
MpdCntlInv.v
Syscall.v
SyscallInv.v
Heap.v
HeapInv.v
Bitmap.v
BitmapInv.v
USched.v
Fprr.v
FprrInv.v
SchedBase.v
SchedBaseInv.v
Vect.v
VectInv.v
Evt.v
EvtInv.v
Lock.v
LockInv.v
TimedEvt.v
TimedEvtInv.v
MemMan.v
MemManInv.v
MemManKern.v
Cobj.v
CobjInv.v
Fs.v
FsInv.v
Ramfs.v
RamfsInv.v
