(* ===== verification/Prelude.v ===== *)
(** * Composite: the kernel and its scheduler, a verification library

    Composite is a component-based operating system.  Components (a
    [struct spd] each) live in protection domains, one component to a domain or
    several to a composite domain, and invoke each other through capabilities;
    a thread walks through components and keeps a stack of its invocations.
    The kernel (src/kernel, hosted by a Linux module, src/platform/linux/module)
    has the mechanisms only: domains can be merged and split at run time, and
    the scheduling policy is itself a component.  This library models the
    kernel's C code and, at user level, the scheduler, lock, timer, event, memory
    and file system components, the format of component objects and the data
    structures of the component library, as Rocq functions that can be run.

    ** How code is modelled

    A C function is a function in a state and error monad ([M] below): it ends
    in [Done] with a result and a state, or in [Fault] with what went wrong: a
    failed assertion or BUG_ON, a NULL dereference, an access outside of an
    array, the wrong side of a tagged pointer, or a loop that did not end within
    its fuel.  The kernel's state is the record [kstate] of all file-scope
    variables (Kern.v), that of a scheduler is [ustate] (USched.v); a structure
    is a record with the fields of the source, an array a list of fixed length,
    a pointer into an array the index, [NULL] is [None].  Machine integers are
    [Z] with the wrap-around written where C has it ([u8], [u16], [u32], [s16],
    [s32], [u64], [s64]).  A function with several C functions' worth of branches is split
    into definitions for its parts, in the order of the code.

    Loops that C bounds by a constant recur on the number of rounds left; other
    loops have fuel.  The fuel is the length of the structure that is walked
    (the number of components for the members of a domain, of nodes for the
    lists of a scheduler, of groups or links for the lists of events, of levels
    for the heap, of objects for the children of a directory, the length of a
    path, [cycles / QUANTUM] rounds for the ticks, the ticks that the events are
    late for the expiration, the aliases of a page for the search of its
    ancestors), and the theorems about these loops prove that they end: a
    result [Done] is always part of the statement.  Loops around a system call
    that gives up the processor are followed for a number of rounds that is a
    parameter.

    ** Files

    - Prelude.v: machine integers, flags, the monad with its rules and the
      tactics [minv] and [keeps], arrays.  Ring.v: circular lists.  CosList.v
      (components/include/cos_list.h): the list macros over any store of links,
      and families of lists that share no node.
    - Kern.v: the data of the kernel.
    - Caps.v (spd.c): ranges of invocation capabilities, their set-up and
      isolation levels.  Theorems: first fit of the range allocator, ranges of
      components stay disjoint, a static capability is installed as asked.
    - PageMem.v (page_pool.c, mmap.c, hijack.c): the page pool, memory
      capabilities, two-level page tables.  Mapping, translating and unmapping;
      a memory capability names one page for good.
    - Vas.v (spd.c): the 4MB slots of address spaces.
    - Mpd.v, MpdInv.v, MpdLife.v (spd.c, spd.h): composite domains.  The
      invariant is that the members of each domain form a ring and that two
      components call each other directly exactly when they share a domain;
      joining and leaving keep it; allocation and release of descriptors
      balance.
    - Thread.v, ThreadInv.v (thread.c, thread.h): invocation stacks, allocation
      of threads and their data pages.
    - Ipc.v, IpcInv.v (inv.c): invocation, return, faults, upcalls, thread
      contexts.  An invocation is admitted exactly when the thread executes in
      the domain of the capability's owner; a return restores the caller; a
      switch makes the other thread the running one in every respect.
    - Sched.v, SchedInv.v (inv.c): the kernel's support of schedulers: who may
      switch to which thread, the queue of events, preemption chains.
    - MpdOps.v, MpdOpsInv.v, MpdCntlInv.v (inv.c): merge and split of domains,
      which keep the invariant of MpdInv.v and move the members and their
      mappings as they should; the page table loaded afterwards is the one of
      the thread's domain.
    - Syscall.v, SyscallInv.v (inv.c, ring_buff.c): the other system calls and
      the ring buffers of the network.
    - Heap.v, HeapInv.v (components/lib/heap.c): the binary heap refines a
      bounded priority queue for any client that satisfies the laws of the
      class [HeapClientLaws].
    - Bitmap.v, BitmapInv.v (components/include/bitmap.h): branch-free bit
      counts and logarithms against their definitions; searches of bit maps.
    - USched.v (components/include/cos_list.h, sched/cos_scheduler.c and .h):
      the threads, lists, events and critical sections of a scheduler.
    - Fprr.v, FprrInv.v (sched/fprr/fp_rr.c): the fixed-priority policy.  The
      lists and the mask of priorities represent one queue per priority; the
      thread chosen is the first of the highest priority; threads of one
      priority take turns.
    - SchedBase.v, SchedBaseInv.v (sched/cos_sched_base.c): the scheduler
      component.  It refines an abstract scheduler in which each thread is on
      one list, without failing assertions; no wakeup is lost; the switch goes
      to the highest priority.
    - Vect.v, VectInv.v (components/include/cos_vect.h, cos_map.h): the vector
      of two levels refines a finite map; the map of identifiers hands out
      unused ones.
    - Evt.v, EvtInv.v (evt/edge/evt.c, evt/evt_impl.h): the events a thread can
      wait for, above CosList.v and Vect.v.  The component refines queues of
      triggered events by thread and priority; no wakeup is lost; several
      events are taken in the order of the queues.
    - Lock.v, LockInv.v (lock/two_phase/lock.c, cos_synchronization.c): the
      lock of components as a system of threads that interleave between any two
      accesses of shared memory.  Mutual exclusion for any number of threads; no
      wakeup is lost with two threads, and one can be with three.
    - TimedEvt.v, TimedEvtInv.v (timed_blk/timed_evt/timed_event.c): sleeping
      and periodic threads.  The lists stay well formed; a round of the timer
      thread wakes exactly the threads that are due and asks for the right
      timeout; a sleep lasts as long as it should.
    - MemMan.v, MemManInv.v, MemManKern.v (mem_mgr/naive/mem_man.c): the
      component that hands out pages.  What it needs of the system call is the
      class [MmapKernel]; against it the manager refines a forest of places.
      MemManKern.v proves the class of the kernel's system call, so that the
      forest is what the page tables show: pages are shared by aliases only,
      and a release takes them away from everything derived.
    - Cobj.v, CobjInv.v (components/lib/cobj_format.c, cobj_format.h): the
      format in which components are loaded.  Descriptors read back as they were
      written; the contents of sections stay inside of the object and apart.
    - Fs.v, FsInv.v (components/include/fs.h): the tree of files and directories
      above CosList.v.  The lookup of a path equals a walk in the tree.
    - Ramfs.v, RamfsInv.v (torrent/torlib.c, torlib.h, torrent/ramfs/ramfs.c):
      the file system in memory, above Fs.v and Vect.v.  It refines files with
      descriptors; what is written is read back.

    ** Parameters

    What the code calls outside of these sources is a parameter of the
    definitions that use it: the functions of the network driver, the answers
    of system calls to a scheduler, the switch of threads as a scheduler sees
    it (any change of the state, since other threads run), the comparison and
    update functions of a heap's client, the page allocator of a vector, whether
    there is memory and what new memory holds, the buffers shared with clients,
    and the clocks.

    ** Not modelled

    The assembly around the kernel's entry points, the rest of the Linux module
    and the network driver act on the host; the loader is a host program;
    statistics and printed text have no effect on the modelled state.  The
    scheduler's lock is a restartable assembly sequence; the model of a
    scheduler is what runs while it is held.  The freeing of whole trees in the
    file system library is modelled, but the file system never reaches it, and
    no theorem is about it.  Other components, the policy for protection domains, and the libraries of other projects are left out.
    Physical memory is modelled as words at the addresses the kernel uses, not
    as bytes, and concurrency only as the interleaving the kernel allows: one
    processor, no preemption inside of the kernel. *)

From stdpp Require Import base list numbers option gmap.

(** ** Machine integers

    The kernel is 32-bit x86 code: [unsigned int], [unsigned long] and
    pointers are 32 bits wide, [short int] 16 bits.  A C integer is a [Z]
    that is brought back into its type's range by one of these functions at
    every place where the C conversion can change it. *)

Definition u8 (z : Z) : Z := (z mod 2 ^ 8)%Z.
Definition u16 (z : Z) : Z := (z mod 2 ^ 16)%Z.
Definition u32 (z : Z) : Z := (z mod 2 ^ 32)%Z.
Definition u64 (z : Z) : Z := (z mod 2 ^ 64)%Z.
Definition s16 (z : Z) : Z := ((z + 2 ^ 15) mod 2 ^ 16 - 2 ^ 15)%Z.
Definition s32 (z : Z) : Z := ((z + 2 ^ 31) mod 2 ^ 32 - 2 ^ 31)%Z.

Definition s64 (z : Z) : Z := ((z + 2 ^ 63) mod 2 ^ 64 - 2 ^ 63)%Z.

(** Bit tests and updates on flag words. *)
Definition has (w m : Z) : bool := negb (Z.land w m =? 0)%Z.
Definition bset (w m : Z) : Z := Z.lor w m.
Definition bclr (w m : Z) : Z := Z.ldiff w m.

Lemma u32_id (z : Z) : (0 ≤ z < 2 ^ 32)%Z → u32 z = z.
Proof. intros H. unfold u32. by apply Z.mod_small. Qed.

Lemma u16_id (z : Z) : (0 ≤ z < 2 ^ 16)%Z → u16 z = z.
Proof. intros H. unfold u16. by apply Z.mod_small. Qed.

Lemma u64_id (z : Z) : (0 ≤ z < 2 ^ 64)%Z → u64 z = z.
Proof. intros H. unfold u64. by apply Z.mod_small. Qed.

Lemma s16_id (z : Z) : (- 2 ^ 15 ≤ z < 2 ^ 15)%Z → s16 z = z.
Proof. intros H. unfold s16. rewrite Z.mod_small; lia. Qed.

Lemma s32_id (z : Z) : (- 2 ^ 31 ≤ z < 2 ^ 31)%Z → s32 z = z.
Proof. intros H. unfold s32. rewrite Z.mod_small; lia. Qed.

Lemma u32_range (z : Z) : (0 ≤ u32 z < 2 ^ 32)%Z.
Proof. unfold u32. apply Z.mod_pos_bound. lia. Qed.

(** [has w m] for a one-bit mask is a bit test. *)
Lemma has_testbit (w n : Z) : (0 ≤ n)%Z → has w (2 ^ n) = Z.testbit w n.
Proof.
  intros Hn. unfold has. destruct (Z.testbit w n) eqn:Hb.
  - apply negb_true_iff, Z.eqb_neq. intros H0.
    assert (Z.testbit (Z.land w (2 ^ n)) n = false) as Hc
      by (rewrite H0; apply Z.bits_0).
    rewrite Z.land_spec, Hb, Z.pow2_bits_true in Hc by lia. discriminate.
  - apply negb_false_iff, Z.eqb_eq. apply Z.bits_inj'. intros k Hk.
    rewrite Z.bits_0, Z.land_spec.
    destruct (decide (k = n)) as [->|Hne]; [by rewrite Hb|].
    rewrite Z.pow2_bits_false by done. apply andb_false_r.
Qed.

Lemma has_bset (w m k : Z) : has (bset w m) k = has w k || has m k.
Proof.
  unfold has, bset. rewrite Z.land_lor_distr_l, <-negb_andb. f_equal.
  destruct (Z.eqb_spec (Z.lor (Z.land w k) (Z.land m k)) 0%Z) as [H|H].
  - apply Z.lor_eq_0_iff in H as [-> ->]. done.
  - symmetry. apply andb_false_iff. rewrite !Z.eqb_neq. destruct (decide (Z.land w k = 0%Z)); [|by left].
    right. intros E. apply H. apply Z.lor_eq_0_iff. done.
Qed.

Lemma has_bclr_other (w m k : Z) : Z.land m k = 0%Z → has (bclr w m) k = has w k.
Proof.
  intros Hm. unfold has, bclr. do 2 f_equal. apply Z.bits_inj'. intros i Hi.
  rewrite !Z.land_spec, Z.ldiff_spec. pose proof (f_equal (λ z, Z.testbit z i) Hm) as Hb.
  cbn in Hb. rewrite Z.land_spec, Z.bits_0 in Hb.
  destruct (Z.testbit w i), (Z.testbit m i), (Z.testbit k i); done.
Qed.

Lemma has_bclr_same (w m : Z) : has (bclr w m) m = false.
Proof.
  unfold has, bclr. apply negb_false_iff, Z.eqb_eq, Z.bits_inj'. intros i Hi.
  rewrite Z.land_spec, Z.ldiff_spec, Z.bits_0. by destruct (Z.testbit w i), (Z.testbit m i).
Qed.

(** ** Faults and the kernel monad

    A C function of the kernel is a state transformer that may also stop:
    [assert] and [BUG_ON] halt the kernel, and a dereference of [NULL], an
    index outside of an array or a pointer used at the wrong type is undefined
    behaviour.  Each of these is a [Fault], so that a theorem that a function
    returns also says that it runs into none of them. *)

Inductive fault : Set :=
| AssertFail
| NullDeref
| OutOfBounds
| BadCast
| NoFuel.

#[export] Instance fault_eq_dec : EqDecision fault.
Proof. solve_decision. Defined.

Inductive outcome (S A : Type) : Type :=
| Done (a : A) (s : S)
| Fault (f : fault).
Arguments Done {S A} a s.
Arguments Fault {S A} f.

Definition M (S A : Type) : Type := S → outcome S A.

#[export] Instance M_ret S : MRet (M S) := λ A a s, Done a s.
#[export] Instance M_bind S : MBind (M S) := λ A B k m s,
  match m s with
  | Done a s' => k a s'
  | Fault f => Fault f
  end.

Section Ops.
Context {S : Type}.

Definition gets {A} (f : S → A) : M S A := λ s, Done (f s) s.
Definition modify (f : S → S) : M S unit := λ s, Done tt (f s).
Definition fail {A} (f : fault) : M S A := λ _, Fault f.

(** C [assert] and [BUG_ON]. *)
Definition assert (b : bool) : M S unit :=
  if b then mret tt else fail AssertFail.

(** A pointer that is about to be dereferenced. *)
Definition deref {A} (p : option A) : M S A :=
  match p with Some a => mret a | None => fail NullDeref end.

(** An array element that is about to be accessed. *)
Definition bound {A} (p : option A) : M S A :=
  match p with Some a => mret a | None => fail OutOfBounds end.

Definition when (b : bool) (m : M S unit) : M S unit :=
  if b then m else mret tt.

(** [for (i = lo ; i < lo + n ; i++) body(i)]. *)
Fixpoint for_loop (n : nat) (lo : Z) (body : Z → M S unit) : M S unit :=
  match n with
  | O => mret tt
  | Datatypes.S n' => body lo;; for_loop n' (lo + 1)%Z body
  end.
End Ops.

(** [for (i = lo ; i < hi ; i++) body(i)]. *)
Definition for_range {S} (lo hi : Z) (body : Z → M S unit) : M S unit :=
  for_loop (Z.to_nat (hi - lo)) lo body.

(** *** Executions and weakest preconditions *)

Section Exec.
Context {S : Type}.

Lemma bind_Done {A B} (m : M S A) (k : A → M S B) s b s2 :
  (m ≫= k) s = Done b s2 ↔ ∃ a s1, m s = Done a s1 ∧ k a s1 = Done b s2.
Proof.
  unfold mbind, M_bind. split.
  - destruct (m s) as [a s1|f] eqn:E; [|done]. eauto.
  - intros (a & s1 & -> & ?). done.
Qed.

Lemma bind_run {A B} (m : M S A) (k : A → M S B) s a s1 :
  m s = Done a s1 → (m ≫= k) s = k a s1.
Proof. unfold mbind, M_bind. by intros ->. Qed.

Lemma bind_Fault {A B} (m : M S A) (k : A → M S B) s f :
  m s = Fault f → (m ≫= k) s = Fault f.
Proof. unfold mbind, M_bind. by intros ->. Qed.

(** One step of a run. *)
Lemma bind_gets {A B} (f : S → A) (k : A → M S B) s : (gets f ≫= k) s = k (f s) s.
Proof. done. Qed.
Lemma bind_modify {B} (f : S → S) (k : unit → M S B) s : (modify f ≫= k) s = k tt (f s).
Proof. done. Qed.
Lemma bind_mret {A B} (a : A) (k : A → M S B) s : (mret a ≫= k) s = k a s.
Proof. done. Qed.
Lemma bind_assert {B} (k : unit → M S B) s : (assert true ≫= k) s = k tt s.
Proof. done. Qed.
Lemma bind_deref {A B} (a : A) (k : A → M S B) s : (deref (Some a) ≫= k) s = k a s.
Proof. done. Qed.
Lemma bind_bound {A B} (a : A) (k : A → M S B) s : (bound (Some a) ≫= k) s = k a s.
Proof. done. Qed.
Lemma bind_bind {A B C} (m : M S A) (k : A → M S B) (k' : B → M S C) s :
  ((m ≫= k) ≫= k') s = (m ≫= λ a, k a ≫= k') s.
Proof. unfold mbind, M_bind. by destruct (m s). Qed.

Lemma assert_Done b s x s1 :
  @assert S b s = Done x s1 ↔ b = true ∧ s1 = s ∧ x = tt.
Proof.
  destruct b, x; unfold assert, fail, mret, M_ret; split;
    intros H; destruct_and?; simplify_eq; done.
Qed.

Lemma deref_Done {A} (p : option A) s a s1 :
  @deref S A p s = Done a s1 ↔ p = Some a ∧ s1 = s.
Proof. destruct p; unfold deref, bound, fail, mret, M_ret; naive_solver. Qed.

Lemma bound_Done {A} (p : option A) s a s1 :
  @bound S A p s = Done a s1 ↔ p = Some a ∧ s1 = s.
Proof. destruct p; unfold deref, bound, fail, mret, M_ret; naive_solver. Qed.

Lemma gets_Done {A} (f : S → A) s a s1 :
  gets f s = Done a s1 ↔ a = f s ∧ s1 = s.
Proof. unfold gets. naive_solver. Qed.

Lemma modify_Done (f : S → S) s x s1 :
  modify f s = Done x s1 ↔ s1 = f s ∧ x = tt.
Proof. destruct x. unfold modify. naive_solver. Qed.

Lemma ret_Done {A} (a b : A) (s s1 : S) :
  mret (M:=M S) a s = Done b s1 ↔ b = a ∧ s1 = s.
Proof. unfold mret, M_ret. naive_solver. Qed.

(** Total weakest precondition: the run returns, and its result and final
    state satisfy [Q]. *)
Definition wp {A} (m : M S A) (Q : A → S → Prop) (s : S) : Prop :=
  match m s with Done a s' => Q a s' | Fault _ => False end.

Lemma wp_bind {A B} (m : M S A) (k : A → M S B) Q s :
  wp (m ≫= k) Q s ↔ wp m (λ a, wp (k a) Q) s.
Proof. unfold wp, mbind, M_bind. by destruct (m s). Qed.

Lemma wp_mono {A} (m : M S A) (P Q : A → S → Prop) s :
  wp m P s → (∀ a s', P a s' → Q a s') → wp m Q s.
Proof. unfold wp. destruct (m s); naive_solver. Qed.

Lemma wp_Done {A} (m : M S A) (Q : A → S → Prop) s :
  wp m Q s ↔ ∃ a s', m s = Done a s' ∧ Q a s'.
Proof. unfold wp. destruct (m s); naive_solver. Qed.

(** A counted loop keeps an invariant that every iteration keeps. *)
Lemma for_loop_wp (I : Z → S → Prop) n lo body s :
  I lo s →
  (∀ i s', (lo ≤ i < lo + Z.of_nat n)%Z → I i s' →
           wp (body i) (λ _, I (i + 1)%Z) s') →
  wp (for_loop n lo body) (λ _, I (lo + Z.of_nat n)%Z) s.
Proof.
  revert lo s. induction n as [|n IH]; intros lo s HI Hb.
  - unfold wp; cbn. by rewrite Z.add_0_r.
  - cbn [for_loop]. apply wp_bind.
    eapply wp_mono; [apply Hb; [lia|done]|]. intros ? s' HI'; cbn in HI'.
    replace (lo + Z.of_nat (Datatypes.S n))%Z
      with ((lo + 1) + Z.of_nat n)%Z by lia.
    apply IH; [done|]. intros i s'' Hi. apply Hb. lia.
Qed.

(** The same for an execution known to return. *)
Lemma for_loop_inv (I : Z → S → Prop) n lo body s x s2 :
  for_loop n lo body s = Done x s2 →
  I lo s →
  (∀ i s' y s'', (lo ≤ i < lo + Z.of_nat n)%Z → I i s' →
                 body i s' = Done y s'' → I (i + 1)%Z s'') →
  I (lo + Z.of_nat n)%Z s2.
Proof.
  revert lo s. induction n as [|n IH]; intros lo s Hr HI Hb.
  - cbn in Hr. apply ret_Done in Hr as [_ ->]. by rewrite Z.add_0_r.
  - cbn [for_loop] in Hr. apply bind_Done in Hr as (y & s1 & H1 & H2).
    replace (lo + Z.of_nat (Datatypes.S n))%Z
      with ((lo + 1) + Z.of_nat n)%Z by lia.
    eapply IH; [done| |].
    + eapply Hb; [lia|done|done].
    + intros i s' y' s'' Hi. apply Hb. lia.
Qed.

Lemma for_range_wp (I : Z → S → Prop) lo hi body s :
  (lo ≤ hi)%Z → I lo s →
  (∀ i s', (lo ≤ i < hi)%Z → I i s' → wp (body i) (λ _, I (i + 1)%Z) s') →
  wp (for_range lo hi body) (λ _, I hi) s.
Proof.
  intros Hle HI Hb. eapply wp_mono.
  - apply (for_loop_wp I); [done|]. intros i s' Hi. apply Hb. lia.
  - intros ? s'. cbn. by replace (lo + Z.of_nat (Z.to_nat (hi - lo)))%Z with hi by lia.
Qed.

Lemma for_range_inv (I : Z → S → Prop) lo hi body s x s2 :
  for_range lo hi body s = Done x s2 →
  (lo ≤ hi)%Z → I lo s →
  (∀ i s' y s'', (lo ≤ i < hi)%Z → I i s' →
                 body i s' = Done y s'' → I (i + 1)%Z s'') →
  I hi s2.
Proof.
  intros Hr Hle HI Hb.
  replace hi with (lo + Z.of_nat (Z.to_nat (hi - lo)))%Z by lia.
  eapply (for_loop_inv I); [done|done|]. intros i s' y s'' Hi. apply Hb. lia.
Qed.
End Exec.

(** *** Frames

    [keeps π m]: [m] never changes the part [π] of the state. *)

Definition keeps {S A B} (π : S → B) (m : M S A) : Prop :=
  ∀ s a s', m s = Done a s' → π s' = π s.

Create HintDb keeps.

Section Keeps.
Context {S B : Type} (π : S → B).

Lemma keeps_bind {A C} (m : M S A) (k : A → M S C) :
  keeps π m → (∀ a, keeps π (k a)) → keeps π (m ≫= k).
Proof.
  intros Hm Hk s c s' (a & s1 & H1 & H2)%bind_Done.
  rewrite (Hk a _ _ _ H2). exact (Hm _ _ _ H1).
Qed.
Lemma keeps_ret {A} (a : A) : keeps π (mret a).
Proof. by intros s b s' [_ ->]%ret_Done. Qed.
Lemma keeps_fail {A} f : keeps π (fail (A:=A) f).
Proof. by intros s b s' H. Qed.
Lemma keeps_gets {A} (f : S → A) : keeps π (gets f).
Proof. by intros s b s' [_ ->]%gets_Done. Qed.
Lemma keeps_assert b : keeps π (assert b).
Proof. by intros s x s' (_ & -> & _)%assert_Done. Qed.
Lemma keeps_deref {A} (p : option A) : keeps π (deref p).
Proof. by intros s x s' [_ ->]%deref_Done. Qed.
Lemma keeps_bound {A} (p : option A) : keeps π (bound p).
Proof. by intros s x s' [_ ->]%bound_Done. Qed.
Lemma keeps_modify f : (∀ s, π (f s) = π s) → keeps π (modify f).
Proof. by intros Hf s x s' [-> _]%modify_Done. Qed.
Lemma keeps_when b m : keeps π m → keeps π (when b m).
Proof. intros Hm. destruct b; [done|apply keeps_ret]. Qed.
Lemma keeps_for_range lo hi body : (∀ i, keeps π (body i)) → keeps π (for_range lo hi body).
Proof.
  intros Hb. unfold for_range. generalize (Z.to_nat (hi - lo)). intros n.
  revert lo. induction n as [|n IH]; intros lo; cbn [for_loop].
  - apply keeps_ret.
  - apply keeps_bind; [done|]. intros _. apply IH.
Qed.
End Keeps.

#[export] Hint Resolve keeps_ret keeps_fail keeps_gets keeps_assert keeps_deref
  keeps_bound : keeps.

(** Proves [keeps π m] by the structure of [m] and the lemmas of [keeps]. *)
Ltac keeps_step :=
  match goal with
  | |- keeps _ (_ ≫= _) => apply keeps_bind; [|intros ?]
  | |- keeps _ (when _ _) => apply keeps_when
  | |- keeps _ (for_range _ _ _) => apply keeps_for_range; intros ?
  | |- keeps _ (modify _) => apply keeps_modify; intros; reflexivity
  | |- keeps _ (match ?x with _ => _ end) => destruct x
  | |- keeps _ _ => solve [auto with keeps]
  end.
Ltac keeps := repeat keeps_step.

Create Rewrite HintDb mrun.
#[export] Hint Rewrite @bind_gets @bind_modify @bind_mret @bind_assert @bind_deref @bind_bound
  @bind_bind : mrun.

(** Runs the steps at the head of a program. *)
Ltac mrun := autorewrite with mrun; cbv beta iota.

(** Inversion of a run known to return. *)
Ltac minv1 :=
  match goal with
  | H : (_ ≫= _) _ = Done _ _ |- _ =>
      let a := fresh "a" in let s := fresh "s" in
      let H1 := fresh "Hm" in
      apply bind_Done in H as (a & s & H1 & H)
  | H : mret _ _ = Done _ _ |- _ => apply ret_Done in H as [? ?]
  | H : assert _ _ = Done _ _ |- _ => apply assert_Done in H as (? & ? & ?)
  | H : deref _ _ = Done _ _ |- _ => apply deref_Done in H as [? ?]
  | H : bound _ _ = Done _ _ |- _ => apply bound_Done in H as [? ?]
  | H : gets _ _ = Done _ _ |- _ => apply gets_Done in H as [? ?]
  | H : modify _ _ = Done _ _ |- _ => apply modify_Done in H as [? ?]
  | H : fail _ _ = Done _ _ |- _ => discriminate H
  end.
Ltac minv := repeat (minv1; simplify_eq).

(** ** Arrays

    C arrays are lists of fixed length.  [l .[ z ]] is the element at the
    C index [z], and there is none when [z] is outside of the array. *)

Declare Scope array_scope.
Delimit Scope array_scope with array.
Open Scope array_scope.

Definition zlookup {A} (l : list A) (z : Z) : option A :=
  if (z <? 0)%Z then None else l !! Z.to_nat z.
Definition zinsert {A} (l : list A) (z : Z) (a : A) : list A :=
  if (z <? 0)%Z then l else <[Z.to_nat z := a]> l.

#[global] Arguments zlookup : simpl never.
#[global] Arguments zinsert : simpl never.

Notation "l .[ z ]" := (zlookup l z) (at level 1, z at level 200) : array_scope.
Notation "l .[ z := a ]" := (zinsert l z a)
  (at level 1, z at level 200, a at level 200) : array_scope.

Lemma alter_at {A} (f : A → A) k x (l : list A) :
  l !! k = Some x → alter f k l = <[k := f x]> l.
Proof.
  intros Hx. apply list_eq. intros i. destruct (decide (i = k)) as [->|].
  - rewrite list_lookup_alter_eq, Hx, list_lookup_insert_eq by (by eapply lookup_lt_Some). done.
  - by rewrite list_lookup_alter_ne, list_lookup_insert_ne.
Qed.

Section Arrays.
Context {A : Type}.
Implicit Types (l : list A) (z : Z) (a : A).

Lemma zlookup_Some l z a :
  l.[z] = Some a ↔ (0 ≤ z)%Z ∧ l !! Z.to_nat z = Some a.
Proof. unfold zlookup. destruct (Z.ltb_spec z 0); naive_solver lia. Qed.

Lemma zlookup_lt l z a :
  l.[z] = Some a → (0 ≤ z < Z.of_nat (length l))%Z.
Proof. rewrite zlookup_Some. intros [? ?%lookup_lt_Some]. lia. Qed.

Lemma zlookup_is_Some l z :
  (0 ≤ z < Z.of_nat (length l))%Z → ∃ a, l.[z] = Some a.
Proof.
  intros Hz. destruct (lookup_lt_is_Some_2 l (Z.to_nat z)) as [a Ha]; [lia|].
  exists a. apply zlookup_Some. split; [lia|done].
Qed.

Lemma zlookup_None l z :
  l.[z] = None ↔ (z < 0 ∨ Z.of_nat (length l) ≤ z)%Z.
Proof.
  unfold zlookup. destruct (Z.ltb_spec z 0); [naive_solver|].
  rewrite lookup_ge_None. lia.
Qed.

Lemma length_zinsert l z a : length (l.[z := a]) = length l.
Proof. unfold zinsert. destruct (z <? 0)%Z; [done|]. apply length_insert. Qed.

Lemma zlookup_zinsert_eq l z a b :
  l.[z] = Some b → (l.[z := a]).[z] = Some a.
Proof.
  rewrite !zlookup_Some. unfold zinsert. intros [Hz Hl].
  destruct (Z.ltb_spec z 0); [lia|]. split; [lia|].
  apply list_lookup_insert_eq. by eapply lookup_lt_Some.
Qed.

Lemma zlookup_zinsert_ne l z z' a :
  z ≠ z' → (l.[z := a]).[z'] = l.[z'].
Proof.
  intros Hne. unfold zlookup, zinsert.
  destruct (Z.ltb_spec z' 0), (Z.ltb_spec z 0); try done.
  apply list_lookup_insert_ne. lia.
Qed.

(** Lookup after a write whose index is in range. *)
Lemma zlookup_zinsert l z z' a b :
  l.[z] = Some b →
  (l.[z := a]).[z'] = if decide (z = z') then Some a else l.[z'].
Proof.
  intros Hl. case_decide; subst.
  - by eapply zlookup_zinsert_eq.
  - by apply zlookup_zinsert_ne.
Qed.

Lemma zinsert_zinsert l z a b : (l.[z := a]).[z := b] = l.[z := b].
Proof.
  unfold zinsert. destruct (z <? 0)%Z; [done|]. apply list_insert_insert_eq.
Qed.

Lemma zinsert_id l z a : l.[z] = Some a → l.[z := a] = l.
Proof.
  intros [Hz Hl]%zlookup_Some. unfold zinsert.
  destruct (Z.ltb_spec z 0); [done|]. by apply list_insert_id.
Qed.
End Arrays.

Create Rewrite HintDb arr.
#[export] Hint Rewrite @length_zinsert @length_insert : arr.

Create HintDb kern.
