(* ===== verification/Ring.v ===== *)
(** * Rings

    Circular doubly linked lists, which the kernel keeps the members of a
    composite in and the schedulers their run queues.  [nx] and [pv] are the
    successor and predecessor links of the nodes. *)

From stdpp Require Import base numbers option sets list.

Section Ring.
Context {A : Type} (nx pv : A → option A).

Definition link (a b : A) : Prop := nx a = Some b ∧ pv b = Some a.

Fixpoint chain (l : list A) : Prop :=
  match l with
  | a :: l' => (∀ b, head l' = Some b → link a b) ∧ chain l'
  | [] => True
  end.

Definition ring (l : list A) : Prop :=
  chain l ∧ ∀ y a, last l = Some y → head l = Some a → link y a.
End Ring.

Lemma last_cons_app {A} (l1 l2 : list A) b : last (l1 ++ b :: l2) = last (b :: l2).
Proof. rewrite last_app. by destruct (last (b :: l2)) eqn:E; [|apply last_None in E]. Qed.

Lemma chain_app {A} (nx pv : A → option A) l1 l2 :
  chain nx pv (l1 ++ l2) ↔
  chain nx pv l1 ∧ chain nx pv l2 ∧
  ∀ y b, last l1 = Some y → head l2 = Some b → link nx pv y b.
Proof.
  induction l1 as [|a l1 IH]; cbn; [naive_solver|]. rewrite IH.
  destruct l1 as [|a' l1]; cbn; naive_solver.
Qed.

Lemma ring_rotate {A} (nx pv : A → option A) l1 l2 : ring nx pv (l1 ++ l2) → ring nx pv (l2 ++ l1).
Proof.
  unfold ring. rewrite !chain_app.
  destruct l1 as [|a1 l1]; [rewrite app_nil_r; naive_solver|].
  destruct l2 as [|a2 l2]; [rewrite app_nil_r; naive_solver|].
  rewrite !last_cons_app. naive_solver.
Qed.

(** The links of an element of a ring. *)
Lemma ring_links {A} (nx pv : A → option A) l1 l2 a :
  ring nx pv (l1 ++ a :: l2) →
  nx a = head (l2 ++ l1 ++ [a]) ∧ pv a = last (a :: l2 ++ l1).
Proof.
  intros Hr%ring_rotate. cbn in Hr. rewrite (assoc_L _ l2).
  destruct Hr as [[Hh Hc] Hl]. set (r := l2 ++ l1) in *. clearbody r.
  destruct (last (a :: r)) as [y|] eqn:Hy; [|by apply last_None in Hy].
  destruct (Hl y a eq_refl eq_refl) as [H1 H2]. split; [|done].
  destruct r as [|b r]; cbn in *; [by simplify_eq|]. by apply Hh.
Qed.

(** Rewriting the links outside of a chain. *)
Lemma chain_ext {A} (nx pv nx' pv' : A → option A) l :
  NoDup l → chain nx pv l →
  (∀ k, k ∈ l → last l ≠ Some k → nx' k = nx k) →
  (∀ k, k ∈ l → head l ≠ Some k → pv' k = pv k) →
  chain nx' pv' l.
Proof.
  induction l as [|a l IH]; [done|]. intros [Ha Hl]%NoDup_cons [Hc Hch] Hn Hp.
  split.
  - intros b Hb. destruct l as [|b' l]; [done|]. cbn in Hb. simplify_eq.
    destruct (Hc b eq_refl) as [H1 H2]. split.
    + rewrite Hn; [done|by constructor|]. intros Hlast.
      apply Ha. by apply last_Some_elem_of.
    + rewrite Hp; [done|set_solver|]. cbn. intros [=->]. set_solver.
  - apply IH; [done|done| |].
    + intros k Hk Hlast. apply Hn; [by constructor|]. destruct l; [set_solver|done].
    + intros k Hk _. apply Hp; [by constructor|]. cbn. intros [=->]. done.
Qed.

Lemma ring_singleton {A} (nx pv : A → option A) z : nx z = Some z → pv z = Some z → ring nx pv [z].
Proof. intros Hn Hp. split; [by split|]. cbn. intros y a [=<-] [=<-]. by split. Qed.

(** Insertion in front of the head [a], after the last element [y]. *)
Lemma ring_push {A} (nx pv nx' pv' : A → option A) l z a y :
  ring nx pv l → NoDup l → z ∉ l → head l = Some a → last l = Some y →
  nx' z = Some a → pv' z = Some y → nx' y = Some z → pv' a = Some z →
  (∀ k, k ∈ l → k ≠ y → nx' k = nx k) → (∀ k, k ∈ l → k ≠ a → pv' k = pv k) →
  ring nx' pv' (z :: l).
Proof.
  intros [Hc _] Hnd Hz Ha Hy Hnz Hpz Hny Hpa Hn Hp.
  destruct l as [|a' l]; [done|]. cbn in Ha. simplify_eq. split.
  - split; [cbn; intros b [=<-]; by split|].
    apply (chain_ext nx pv _ _ (a :: l)); [done|done| |].
    + intros k Hk Hlast. apply Hn; [done|]. intros ->. done.
    + intros k Hk Hhead. apply Hp; [done|]. intros ->. done.
  - intros y' a' Hy' Ha'. cbn in Ha'. simplify_eq.
    cbn [last] in Hy'. rewrite Hy in Hy'. simplify_eq. by split.
Qed.

(** Removal of an element, which is linked past. *)
Lemma ring_remove {A} (nx pv nx' pv' : A → option A) l1 l2 z n p :
  ring nx pv (l1 ++ z :: l2) → NoDup (l1 ++ z :: l2) →
  nx z = Some n → pv z = Some p → (l1 ++ l2 ≠ [] → nx' p = Some n ∧ pv' n = Some p) →
  (∀ k, k ≠ z → k ≠ p → nx' k = nx k) → (∀ k, k ≠ z → k ≠ n → pv' k = pv k) →
  ring nx' pv' (l1 ++ l2).
Proof.
  intros Hr Hnd Hn Hp Hnp Hnx Hpv. apply (ring_rotate nx' pv' l2 l1).
  apply ring_rotate in Hr. cbn in Hr.
  assert (NoDup (z :: (l2 ++ l1))) as [Hz Hnd']%NoDup_cons.
  { by rewrite (Permutation_app_comm l2 l1), Permutation_middle. }
  assert (l2 ++ l1 ≠ [] → nx' p = Some n ∧ pv' n = Some p) as Hnp'.
  { intros Hne. apply Hnp. intros ?. apply Hne.
    by rewrite <-(app_nil_r l2); destruct l1, l2. }
  set (r := l2 ++ l1) in *. clearbody r. destruct Hr as [[Hh Hc] Hl].
  destruct r as [|b r]; [by split|].
  destruct (last (b :: r)) as [y|] eqn:Hy; [|by apply last_None in Hy].
  destruct (Hh b eq_refl) as [H1 H2]. destruct (Hl y z) as [H3 H4]; [done|done|].
  simplify_eq. destruct Hnp' as [H5 H6]; [done|]. split.
  - apply (chain_ext nx pv); [done|done| |].
    + intros k Hk Hlast. apply Hnx; [by intros ->|]. intros ->. done.
    + intros k Hk Hhead. apply Hpv; [by intros ->|]. intros ->. done.
  - intros y' a Hy' [=<-]. simplify_eq. by split.
Qed.

(** A ring depends on the links of its nodes only. *)
Lemma ring_ext {A} (nx pv nx' pv' : A → option A) l :
  ring nx pv l → (∀ k, k ∈ l → nx' k = nx k ∧ pv' k = pv k) → ring nx' pv' l.
Proof.
  intros [Hc Hl] Heq. split.
  - clear Hl. induction l as [|a l IH]; [done|]. destruct Hc as [Hh Hc]. split.
    + intros b Hb. destruct (Hh b Hb) as [H1 H2].
      destruct (Heq a) as [Ha _]; [set_solver|]. destruct (Heq b) as [_ Hb'].
      { apply elem_of_cons. right. by apply head_Some_elem_of. }
      split; congruence.
    + apply IH; [done|]. intros k Hk. apply Heq. set_solver.
  - intros y a Hy Ha. destruct (Hl y a Hy Ha) as [H1 H2].
    destruct (Heq y) as [Hy' _]; [by apply last_Some_elem_of|].
    destruct (Heq a) as [_ Ha']; [by apply head_Some_elem_of|]. split; congruence.
Qed.

(** The neighbours of a node are the same only in rings of at most two. *)
Lemma ring_neighbours {A} (nx pv : A → option A) l1 l2 z :
  ring nx pv (l1 ++ z :: l2) → NoDup (l1 ++ z :: l2) → l1 ++ l2 ≠ [] →
  nx z = pv z ↔ length (l1 ++ l2) = 1%nat.
Proof.
  intros Hr Hnd Hne. destruct (ring_links _ _ _ _ _ Hr) as [-> ->].
  assert (NoDup (l2 ++ l1)) as Hnd'.
  { rewrite <-Permutation_middle in Hnd. apply NoDup_cons in Hnd as [_ Hnd].
    by rewrite (Permutation_app_comm l2 l1). }
  rewrite (assoc_L (++)), length_app, Nat.add_comm, <-length_app.
  destruct (l2 ++ l1) as [|b r] eqn:E.
  { by apply app_eq_nil in E as [-> ->]. }
  change (last (z :: b :: r)) with (last (b :: r)). clear -Hnd'.
  destruct r as [|c r]; [done|]. change (last (b :: c :: r)) with (last (c :: r)). split; [|done].
  intros [=Hb]. symmetry in Hb. apply last_Some_elem_of in Hb.
  by apply NoDup_cons in Hnd' as [? _].
Qed.

(** Rings of given links are decidable. *)
#[export] Instance link_dec `{EqDecision A} (nx pv : A → option A) a b : Decision (link nx pv a b).
Proof. unfold link. apply _. Defined.
#[local] Instance head_dec {A} (P : A → Prop) `{!∀ b, Decision (P b)} (l : list A) :
  Decision (∀ b, head l = Some b → P b).
Proof.
  refine (match l with [] => left _ | b :: _ => cast_if (decide (P b)) end); naive_solver.
Defined.
#[export] Instance chain_dec `{EqDecision A} (nx pv : A → option A) : ∀ l, Decision (chain nx pv l).
Proof. fix IH 1. intros [|a l]; cbn; [left; done|apply and_dec; [apply _|apply IH]]. Defined.
#[export] Instance ring_dec `{EqDecision A} (nx pv : A → option A) l : Decision (ring nx pv l).
Proof.
  unfold ring. apply and_dec; [apply _|].
  destruct (last l) as [y|]; [|left; done]. destruct (head l) as [a|]; [|left; done].
  destruct (decide (link nx pv y a)) as [H|H]; [left; naive_solver|right; naive_solver].
Defined.
