(* ===== verification/CosList.v ===== *)
(** * Lists of components

    The macros of [components/include/cos_list.h] for structures that are
    linked by one pair of fields, over any state that holds the links of its
    structures ([LinkStore]).  What is linked at a time is a family of disjoint
    rings ([rings]); each macro is proved once to take such a family to
    another. *)

From stdpp Require Import base list numbers option gmap.
From S2P Require Import Prelude Ring.

(** ** Links *)

Class LinkStore (S A : Type) `{Countable A} := {
  ls_get : S → gmap A (A * A);
  ls_set : gmap A (A * A) → S → S;
  ls_get_set m s : ls_get (ls_set m s) = m;
  ls_set_set m m' s : ls_set m (ls_set m' s) = ls_set m s;
  ls_set_get s : ls_set (ls_get s) s = s
}.

Section Macros.
Context {S A : Type} `{LinkStore S A}.
Implicit Types (s : S) (m : gmap A (A * A)) (F : gmap A (list A)) (a b x : A).

(** [obj->next] and [obj->prev]. *)
Definition get_link (obj : A) : M S (A * A) := m ← gets ls_get; bound (m !! obj).
Definition put_next (obj v : A) : M S unit :=
  l ← get_link obj; modify (λ s, ls_set (<[obj := (v, l.2)]> (ls_get s)) s).
Definition put_prev (obj v : A) : M S unit :=
  l ← get_link obj; modify (λ s, ls_set (<[obj := (l.1, v)]> (ls_get s)) s).

Definition FIRST_LIST (obj : A) : M S A := l ← get_link obj; mret l.1.
Definition LAST_LIST (obj : A) : M S A := l ← get_link obj; mret l.2.
Definition EMPTY_LIST (obj : A) : M S bool := l ← get_link obj; mret (bool_decide (l.1 = obj)).

Definition INIT_LIST (obj : A) : M S unit := put_prev obj obj;; put_next obj obj.

(** The macro evaluates its argument [head] anew in every statement. *)
Definition ADD_LIST (head : M S A) (new : A) : M S unit :=
  h ← head; n ← FIRST_LIST h; put_next new n;;
  h ← head; put_prev new h;;
  h ← head; put_next h new;;
  n ← FIRST_LIST new; put_prev n new.

Definition ADD_END_LIST (head new : A) : M S unit := ADD_LIST (LAST_LIST head) new.

Definition REM_LIST (obj : A) : M S unit :=
  n ← FIRST_LIST obj; p ← LAST_LIST obj; put_prev n p;;
  p ← LAST_LIST obj; n ← FIRST_LIST obj; put_next p n;;
  put_prev obj obj;; put_next obj obj.

(** ** Families of rings *)

Definition next m a : option A := fst <$> m !! a.
Definition prev m a : option A := snd <$> m !! a.

Definition rings m (R : list (list A)) : Prop :=
  NoDup (concat R) ∧ Forall (ring (next m) (prev m)) R.

Lemma rings_perm m R R' : R ≡ₚ R' → rings m R → rings m R'.
Proof. intros Hp [Hnd Hr]. split; [by rewrite <- Hp|by rewrite <- Hp]. Qed.

Lemma rings_rotate m l1 l2 R : rings m ((l1 ++ l2) :: R) → rings m ((l2 ++ l1) :: R).
Proof.
  intros [Hnd [Hr HR]%Forall_cons]. split; [|constructor; [by apply ring_rotate|done]].
  cbn in *. by rewrite (Permutation_app_comm l2 l1).
Qed.

Lemma rings_nil m R : rings m ([] :: R) ↔ rings m R.
Proof.
  unfold rings. rewrite Forall_cons. split; [by intros [? [_ ?]]|].
  intros [? ?]. by split_and!.
Qed.

Lemma ring_in_dom m l x : ring (next m) (prev m) l → x ∈ l → ∃ n p, m !! x = Some (n, p).
Proof.
  intros Hr (l1 & l2 & ->)%list_elem_of_split. destruct (ring_links _ _ _ _ _ Hr) as [Hn _].
  unfold next in Hn. destruct (m !! x) as [[n p]|]; [by eexists _, _|].
  by destruct l2, l1.
Qed.

(** Two maps with the same links of the nodes of a family. *)
Lemma rings_ext m m' R : (∀ k, k ∈ concat R → m' !! k = m !! k) → rings m R → rings m' R.
Proof.
  intros He [Hnd HR]. split; [done|]. rewrite Forall_forall in *. intros l Hl.
  apply (ring_ext (next m) (prev m)); [by apply HR|]. intros k Hk. unfold next, prev.
  rewrite He; [done|]. apply list_elem_of_In, in_concat. exists l. by rewrite <- !list_elem_of_In.
Qed.

Lemma next_insert m a p k : next (<[a := p]> m) k = if decide (a = k) then Some p.1 else next m k.
Proof. unfold next. rewrite lookup_insert. by case_decide. Qed.
Lemma prev_insert m a p k : prev (<[a := p]> m) k = if decide (a = k) then Some p.2 else prev m k.
Proof. unfold prev. rewrite lookup_insert. by case_decide. Qed.

(** ** Running the macros *)

Lemma get_link_run s a n p : ls_get s !! a = Some (n, p) → get_link a s = Done (n, p) s.
Proof. intros Ha. unfold get_link. mrun. by rewrite Ha. Qed.

Lemma put_next_run s a n p v : ls_get s !! a = Some (n, p) →
  put_next a v s = Done tt (ls_set (<[a := (v, p)]> (ls_get s)) s).
Proof. intros Ha. unfold put_next. by rewrite (bind_run _ _ _ _ _ (get_link_run _ _ _ _ Ha)). Qed.

Lemma put_prev_run s a n p v : ls_get s !! a = Some (n, p) →
  put_prev a v s = Done tt (ls_set (<[a := (n, v)]> (ls_get s)) s).
Proof. intros Ha. unfold put_prev. by rewrite (bind_run _ _ _ _ _ (get_link_run _ _ _ _ Ha)). Qed.

Lemma FIRST_run s a n p : ls_get s !! a = Some (n, p) → FIRST_LIST a s = Done n s.
Proof. intros Ha. unfold FIRST_LIST. by rewrite (bind_run _ _ _ _ _ (get_link_run _ _ _ _ Ha)). Qed.

Lemma LAST_run s a n p : ls_get s !! a = Some (n, p) → LAST_LIST a s = Done p s.
Proof. intros Ha. unfold LAST_LIST. by rewrite (bind_run _ _ _ _ _ (get_link_run _ _ _ _ Ha)). Qed.

Lemma INIT_run s x n p : ls_get s !! x = Some (n, p) →
  INIT_LIST x s = Done tt (ls_set (<[x := (x, x)]> (ls_get s)) s).
Proof.
  intros Hx. unfold INIT_LIST. rewrite (bind_run _ _ _ _ _ (put_prev_run _ _ _ _ _ Hx)).
  erewrite put_next_run; [|rewrite ls_get_set; by apply lookup_insert_eq].
  by rewrite ls_get_set, ls_set_set, insert_insert_eq.
Qed.

Lemma INIT_rings m R x : rings m R → x ∉ concat R → rings (<[x := (x, x)]> m) ([x] :: R).
Proof.
  intros Hr Hx. destruct (rings_ext m (<[x := (x, x)]> m) R) as [Hnd HR]; [|done|].
  { intros k Hk. rewrite lookup_insert_ne; [done|]. by intros <-. }
  split; [cbn; by constructor|]. constructor; [|done].
  apply ring_singleton; unfold next, prev; by rewrite lookup_insert_eq.
Qed.

(** The links after an insertion of [x] between [h] and [n], after a removal. *)
Definition linked m h x n m' : Prop :=
  (∀ k, next m' k = if decide (k = h) then Some x else if decide (k = x) then Some n else next m k) ∧
  (∀ k, prev m' k = if decide (k = n) then Some x else if decide (k = x) then Some h else prev m k).
Definition unlinked m p x n m' : Prop :=
  (∀ k, next m' k = if decide (k = x) then Some x else if decide (k = p) then Some n else next m k) ∧
  (∀ k, prev m' k = if decide (k = x) then Some x else if decide (k = n) then Some p else prev m k).

Lemma link_eq m m' k : next m' k = next m k → prev m' k = prev m k → m' !! k = m !! k.
Proof.
  unfold next, prev. destruct (m !! k) as [[]|], (m' !! k) as [[]|]; cbn; try done. by intros [= ->] [= ->].
Qed.

(** [head] yields [h] as long as the links of [k0] are not written. *)
Lemma ADD_run (hd : M S A) s h n ph x jx kx nn np :
  (∀ m, (∀ k, k ≠ x → k ≠ h → m !! k = ls_get s !! k) → prev m h = prev (ls_get s) h →
     hd (ls_set m s) = Done h (ls_set m s)) →
  ls_get s !! h = Some (n, ph) → ls_get s !! x = Some (jx, kx) → ls_get s !! n = Some (nn, np) →
  x ≠ h → x ≠ n →
  ∃ m', ADD_LIST hd x s = Done tt (ls_set m' s) ∧ linked (ls_get s) h x n m'.
Proof.
  intros Hhd Hh Hx Hn Hxh Hxn. set (m := ls_get s) in *.
  assert (Hs0 : hd s = Done h s).
  { rewrite <- (ls_set_get s) at 1 2. by apply Hhd. }
  assert (Hhx : ∀ p, hd (ls_set (<[x := p]> m) s) = Done h (ls_set (<[x := p]> m) s)).
  { intros p. apply Hhd.
    - intros k Hk _. by rewrite lookup_insert_ne.
    - rewrite prev_insert. by rewrite decide_False. }
  unfold ADD_LIST. rewrite (bind_run _ _ _ _ _ Hs0), (bind_run _ _ _ _ _ (FIRST_run _ _ _ _ Hh)).
  rewrite (bind_run _ _ _ _ _ (put_next_run _ _ _ _ _ Hx)), (bind_run _ _ _ _ _ (Hhx _)).
  erewrite bind_run; [|eapply put_prev_run; rewrite ls_get_set; by apply lookup_insert_eq].
  rewrite ls_get_set, ls_set_set, insert_insert_eq, (bind_run _ _ _ _ _ (Hhx _)).
  erewrite bind_run; [|eapply put_next_run; rewrite ls_get_set; by rewrite lookup_insert_ne].
  rewrite ls_get_set, ls_set_set.
  erewrite bind_run; [|eapply FIRST_run; rewrite ls_get_set, lookup_insert_ne, lookup_insert_eq by done; done].
  destruct (decide (n = h)) as [->|Hnh].
  - erewrite put_prev_run; [|rewrite ls_get_set; by apply lookup_insert_eq].
    rewrite ls_get_set, ls_set_set, insert_insert_eq. eexists. split; [done|].
    split; intros k; rewrite ?next_insert, ?prev_insert; repeat case_decide; cbn; congruence.
  - erewrite put_prev_run; [|rewrite ls_get_set, !lookup_insert_ne by done; exact Hn].
    rewrite ls_get_set, ls_set_set. eexists. split; [done|].
    split; intros k; rewrite !next_insert || rewrite !prev_insert; repeat case_decide; cbn; try congruence.
    all: subst; unfold next, prev; by rewrite ?Hn, ?Hh.
Qed.

Lemma REM_run s x n p nn np pn pp :
  ls_get s !! x = Some (n, p) → ls_get s !! n = Some (nn, np) → ls_get s !! p = Some (pn, pp) →
  ∃ m', REM_LIST x s = Done tt (ls_set m' s) ∧ unlinked (ls_get s) p x n m'.
Proof.
  intros Hx Hn Hp. set (m := ls_get s) in *. unfold REM_LIST.
  rewrite (bind_run _ _ _ _ _ (FIRST_run _ _ _ _ Hx)), (bind_run _ _ _ _ _ (LAST_run _ _ _ _ Hx)).
  rewrite (bind_run _ _ _ _ _ (put_prev_run _ _ _ _ _ Hn)). fold m. set (m1 := <[n := (nn, p)]> m).
  assert (Hx1 : m1 !! x = Some (n, p)).
  { unfold m1. rewrite lookup_insert. case_decide; [|done]. subst. congruence. }
  assert (Hp1 : ∃ q, m1 !! p = Some (pn, q)).
  { unfold m1. rewrite lookup_insert. case_decide; [subst; eexists; f_equal; f_equal; congruence|by eexists]. }
  destruct Hp1 as [q Hp1].
  erewrite bind_run; [|eapply LAST_run; rewrite ls_get_set; exact Hx1].
  erewrite bind_run; [|eapply FIRST_run; rewrite ls_get_set; exact Hx1].
  erewrite bind_run; [|eapply put_next_run; rewrite ls_get_set; exact Hp1].
  rewrite ls_get_set, ls_set_set. set (m2 := <[p := (n, q)]> m1).
  assert (Hx2 : ∃ a b, m2 !! x = Some (a, b)).
  { unfold m2. rewrite lookup_insert. case_decide; eauto. }
  destruct Hx2 as (a & b & Hx2).
  erewrite bind_run; [|eapply put_prev_run; rewrite ls_get_set; exact Hx2].
  erewrite put_next_run; [|rewrite ls_get_set; by apply lookup_insert_eq].
  rewrite !ls_get_set, !ls_set_set, insert_insert_eq. eexists. split; [done|]. unfold m2, m1 in *.
  split; intros k; rewrite !next_insert || rewrite !prev_insert; repeat case_decide; cbn; try congruence.
  all: subst; unfold next, prev in *; rewrite ?lookup_insert_eq, ?lookup_insert_ne in * by done; simplify_eq; try done.
  all: by rewrite ?Hn, ?Hp, ?Hx in *; simplify_eq.
Qed.

(** ** The macros on families of rings *)

Lemma rings_head m x l R : rings m ((x :: l) :: R) →
  ∃ p, m !! x = Some (default x (head l), p) ∧ last (x :: l) = Some p.
Proof.
  intros [_ [Hr _]%Forall_cons]. destruct (ring_links _ _ [] l x Hr) as [Hn Hp].
  rewrite app_nil_r in Hp. destruct (ring_in_dom _ _ x Hr ltac:(left)) as (n & p & Hx).
  unfold next, prev in *. rewrite Hx in *. cbn in Hn, Hp. exists p. split; [|done].
  do 2 f_equal. destruct l; cbn in *; congruence.
Qed.

Lemma rings_mem m R x : rings m R → x ∈ concat R → ∃ n p, m !! x = Some (n, p).
Proof.
  intros [_ HR] Hx. apply list_elem_of_In, in_concat in Hx as (l & Hl & Hx).
  rewrite <- !list_elem_of_In in *. rewrite Forall_forall in HR. by eapply ring_in_dom; [apply HR|].
Qed.

Lemma linked_dom m h x n m' : is_Some (m !! h) → is_Some (m !! x) → linked m h x n m' → dom m' = dom m.
Proof.
  intros Hh Hx [Hn _]. apply set_eq. intros k. rewrite !elem_of_dom. specialize (Hn k). unfold next in Hn.
  rewrite <- (fmap_is_Some fst (m' !! k)), Hn.
  case_decide; [subst; naive_solver|]. case_decide; [subst; naive_solver|]. apply fmap_is_Some.
Qed.

Lemma unlinked_dom m p x n m' : is_Some (m !! p) → is_Some (m !! x) → unlinked m p x n m' → dom m' = dom m.
Proof.
  intros Hh Hx [Hn _]. apply set_eq. intros k. rewrite !elem_of_dom. specialize (Hn k). unfold next in Hn.
  rewrite <- (fmap_is_Some fst (m' !! k)), Hn.
  case_decide; [subst; naive_solver|]. case_decide; [subst; naive_solver|]. apply fmap_is_Some.
Qed.

Lemma linked_rings m h l R x m' :
  rings m ((h :: l) :: R) → x ∉ concat ((h :: l) :: R) → linked m h x (default h (head l)) m' →
  rings m' ((h :: x :: l) :: R) ∧ ∀ k, k ∉ h :: x :: l → m' !! k = m !! k.
Proof.
  intros Hr Hx [Hn Hp]. set (n := default h (head l)) in *.
  cbn in Hx. rewrite not_elem_of_cons, not_elem_of_app in Hx. destruct Hx as (Hxh & Hxl & HxR).
  assert (Hnl : n ∈ h :: l) by (unfold n; destruct l; cbn; set_solver).
  assert (Hfr : ∀ k, k ∉ h :: x :: l → m' !! k = m !! k).
  { intros k Hk. apply link_eq; [rewrite Hn|rewrite Hp]; repeat case_decide; subst; set_solver. }
  split; [|done]. apply (rings_rotate m' (x :: l) [h]). pose proof (rings_rotate m [h] l R Hr) as Hr'.
  destruct Hr as [Hnd [Hri HR]%Forall_cons], Hr' as [Hnd' [Hri' _]%Forall_cons]. cbn in Hnd, Hnd'.
  split.
  - cbn. constructor; [rewrite !elem_of_app; set_solver|done].
  - constructor.
    + apply NoDup_app in Hnd' as (Hndl & _).
      apply (ring_push (next m) (prev m) _ _ (l ++ [h]) x n h); try done.
      * rewrite elem_of_app. set_solver.
      * unfold n. by destruct l.
      * apply last_snoc.
      * rewrite Hn. rewrite decide_False, decide_True; [done..|]. intros ->. set_solver.
      * rewrite Hp. rewrite decide_False, decide_True; [done..|]. intros ->. set_solver.
      * rewrite Hn. by rewrite decide_True.
      * rewrite Hp. by rewrite decide_True.
      * intros k Hk Hkh. rewrite Hn, !decide_False; [done|set_solver..].
      * intros k Hk Hkn. rewrite Hp, !decide_False; [done|set_solver..].
    + cut (rings m' R); [by intros [_ ?]|]. apply (rings_ext m); [|split; [|done]].
      * intros k Hk. apply Hfr. cbn in Hnd. apply NoDup_cons in Hnd as [Hh Hnd].
        apply NoDup_app in Hnd as (_ & Hdis & _). rewrite !not_elem_of_cons. rewrite not_elem_of_app in Hh.
        split_and!; [intros ->; naive_solver..|]. intros Hkl. by apply (Hdis k).
      * cbn in Hnd. apply NoDup_cons in Hnd as [_ Hnd]. by apply NoDup_app in Hnd as (_ & _ & ?).
Qed.

Lemma unlinked_rings m l1 x l2 R n p m' :
  rings m ((l1 ++ x :: l2) :: R) → m !! x = Some (n, p) → unlinked m p x n m' →
  rings m' ((l1 ++ l2) :: [x] :: R) ∧ ∀ k, k ∉ l1 ++ x :: l2 → m' !! k = m !! k.
Proof.
  intros [Hnd [Hri HR]%Forall_cons] Hx [Hn Hp].
  destruct (ring_links _ _ _ _ _ Hri) as [Hnx Hpx]. unfold next, prev in Hnx, Hpx. rewrite Hx in Hnx, Hpx. cbn in Hnx, Hpx.
  assert (Hnl : n ∈ l1 ++ x :: l2).
  { symmetry in Hnx. apply head_Some_elem_of in Hnx. rewrite !elem_of_app in *. set_solver. }
  assert (Hpl : p ∈ l1 ++ x :: l2).
  { symmetry in Hpx. apply last_Some_elem_of in Hpx. rewrite elem_of_cons, !elem_of_app in *. set_solver. }
  assert (Hfr : ∀ k, k ∉ l1 ++ x :: l2 → m' !! k = m !! k).
  { intros k Hk. apply link_eq; [rewrite Hn|rewrite Hp]; repeat case_decide; subst; set_solver. }
  split; [|done]. cbn in Hnd. apply NoDup_app in Hnd as (Hndl & Hdis & HndR).
  assert (Hxn : l1 ++ l2 ≠ [] → x ≠ n ∧ x ≠ p).
  { intros Hne. pose proof (ring_rotate _ _ _ _ Hri) as Hrot. cbn in Hrot.
    assert (Hnd2 : NoDup (x :: l2 ++ l1)) by (by rewrite (Permutation_app_comm l2 l1), Permutation_middle).
    apply NoDup_cons in Hnd2 as [Hxr _].
    destruct (l2 ++ l1) as [|b r] eqn:E.
    { apply app_eq_nil in E as [-> ->]. done. }
    assert (Hnb : n = b) by (rewrite app_assoc, E in Hnx; by injection Hnx as ->).
    assert (Hpb : Some p = last (b :: r)) by exact Hpx. split; [set_solver|].
    intros ->. symmetry in Hpb. by apply last_Some_elem_of in Hpb. }
  split; [cbn; rewrite <- (Permutation_middle (l1 ++ l2)); cbn|].
  - assert (Hp2 : l1 ++ x :: l2 ≡ₚ x :: l1 ++ l2) by (by rewrite Permutation_middle).
    rewrite Hp2 in Hndl. apply NoDup_cons in Hndl as [Hxl Hndl]. constructor.
    + rewrite not_elem_of_app. split; [done|]. intros HxR. by apply (Hdis x); [rewrite Hp2; left|].
    + apply NoDup_app. split_and!; try done. intros k Hk. apply Hdis. rewrite Hp2. by right.
  - constructor; [|constructor].
    + apply (ring_remove (next m) (prev m) _ _ l1 l2 x n p); try done.
      * unfold next. by rewrite Hx.
      * unfold prev. by rewrite Hx.
      * intros [H1 H2]%Hxn. rewrite Hn, Hp. split; (rewrite decide_False; [by rewrite decide_True|congruence]).
      * intros k Hk1 Hk2. rewrite Hn. by rewrite !decide_False.
      * intros k Hk1 Hk2. rewrite Hp. by rewrite !decide_False.
    + apply ring_singleton; [rewrite Hn|rewrite Hp]; by rewrite decide_True.
    + cut (rings m' R); [by intros [_ ?]|]. apply (rings_ext m); [|by split].
      intros k Hk. apply Hfr. intros Hkl. by apply (Hdis k).
Qed.

Lemma ADD_step s h l R x :
  rings (ls_get s) ((h :: l) :: R) → x ∉ concat ((h :: l) :: R) → is_Some (ls_get s !! x) →
  ∃ m', ADD_LIST (mret h) x s = Done tt (ls_set m' s) ∧ rings m' ((h :: x :: l) :: R) ∧
    dom m' = dom (ls_get s) ∧ ∀ k, k ∉ h :: x :: l → m' !! k = ls_get s !! k.
Proof.
  intros Hr Hx [[jx kx] Hmx]. destruct (rings_head _ _ _ _ Hr) as (ph & Hh & _).
  set (n := default h (head l)) in *.
  assert (Hnl : n ∈ h :: l) by (unfold n; destruct l; cbn; set_solver).
  destruct (rings_mem _ _ n Hr) as (nn & np & Hn). { cbn. rewrite app_comm_cons, elem_of_app. by left. }
  pose proof Hx as Hx'. cbn in Hx. rewrite not_elem_of_cons, not_elem_of_app in Hx. destruct Hx as (Hxh & Hxl & HxR).
  destruct (ADD_run (mret h) s h n ph x jx kx nn np) as (m' & Hrun & Hl); try done; [set_solver|].
  exists m'. split; [done|]. destruct (linked_rings _ _ _ _ _ _ Hr Hx' Hl) as [Hr' Hf].
  split_and!; try done. eapply linked_dom; [| |exact Hl]; by eexists.
Qed.

Lemma ADD_END_step s h l R x :
  rings (ls_get s) ((h :: l) :: R) → x ∉ concat ((h :: l) :: R) → is_Some (ls_get s !! x) →
  ∃ m', ADD_END_LIST h x s = Done tt (ls_set m' s) ∧ rings m' ((h :: l ++ [x]) :: R) ∧
    dom m' = dom (ls_get s) ∧ ∀ k, k ∉ h :: x :: l → m' !! k = ls_get s !! k.
Proof.
  intros Hr Hx [[jx kx] Hmx]. destruct (rings_head _ _ _ _ Hr) as (y & Hh & Hy).
  apply last_Some in Hy as [l' Hl'].
  assert (Hry : rings (ls_get s) ((y :: l') :: R)) by (rewrite Hl' in Hr; by apply rings_rotate in Hr).
  assert (Hperm : ∀ k, k ∈ h :: l ↔ k ∈ y :: l').
  { intros k. rewrite Hl', elem_of_app. set_solver. }
  destruct (rings_head _ _ _ _ Hry) as (py & Hhy & _).
  assert (Hhd : default y (head l') = h) by (destruct l'; cbn in Hl'; by injection Hl' as ->).
  rewrite Hhd in Hhy.
  cbn in Hx. rewrite not_elem_of_cons, not_elem_of_app in Hx. destruct Hx as (Hxh & Hxl & HxR).
  destruct (ADD_run (LAST_LIST h) s y h py x jx kx (default h (head l)) y) as (m' & Hrun & Hl); try done.
  { intros m Hm Hpv. assert (Hmh : ∃ a, m !! h = Some (a, y)).
    { destruct (decide (h = y)) as [<-|Hne]; [|rewrite Hm by done; by eexists].
      unfold prev in Hpv. rewrite Hh in Hpv. destruct (m !! h) as [[a b]|]; [|done]. cbn in Hpv.
      injection Hpv as ->. by exists a. }
    destruct Hmh as [a Hmh]. eapply LAST_run. by rewrite ls_get_set. }
  { set_solver. }
  exists m'. split; [done|]. rewrite <- Hhd in Hl.
  destruct (linked_rings _ _ _ _ x m' Hry) as [Hr' Hf].
  { cbn. rewrite not_elem_of_cons, not_elem_of_app. set_solver. }
  { exact Hl. }
  split_and!.
  - apply (rings_rotate m' [y] (x :: l')) in Hr'. cbn in Hr'. rewrite <- Hl' in Hr'.
    by apply (rings_rotate m' [x] (h :: l)) in Hr'.
  - eapply linked_dom; [| |exact Hl]; by eexists.
  - intros k Hk. apply Hf. set_solver.
Qed.

Lemma REM_step s l1 x l2 R : rings (ls_get s) ((l1 ++ x :: l2) :: R) →
  ∃ m', REM_LIST x s = Done tt (ls_set m' s) ∧ rings m' ((l1 ++ l2) :: [x] :: R) ∧
    dom m' = dom (ls_get s) ∧ ∀ k, k ∉ l1 ++ x :: l2 → m' !! k = ls_get s !! k.
Proof.
  intros Hr. assert (Hin : ∀ k, k ∈ l1 ++ x :: l2 → ∃ a b, ls_get s !! k = Some (a, b)).
  { intros k Hk. apply (rings_mem _ _ k Hr). cbn. rewrite elem_of_app. by left. }
  destruct (Hin x) as (n & p & Hx); [set_solver|].
  pose proof Hr as [_ [Hri _]%Forall_cons]. destruct (ring_links _ _ _ _ _ Hri) as [Hnx Hpx].
  unfold next, prev in Hnx, Hpx. rewrite Hx in Hnx, Hpx. cbn in Hnx, Hpx. symmetry in Hnx, Hpx.
  apply head_Some_elem_of in Hnx. apply last_Some_elem_of in Hpx.
  destruct (Hin n) as (nn & np & Hn). { rewrite !elem_of_app in *. set_solver. }
  destruct (Hin p) as (pn & pp & Hp). { rewrite elem_of_cons, !elem_of_app in *. set_solver. }
  destruct (REM_run _ _ _ _ _ _ _ _ Hx Hn Hp) as (m' & Hrun & Hu). exists m'. split; [done|].
  destruct (unlinked_rings _ _ _ _ _ _ _ _ Hr Hx Hu) as [Hr' Hf]. split_and!; try done. eapply unlinked_dom; [| |exact Hu]; by eexists.
Qed.

Lemma FIRST_step s x l R : rings (ls_get s) ((x :: l) :: R) → FIRST_LIST x s = Done (default x (head l)) s.
Proof. intros Hr. destruct (rings_head _ _ _ _ Hr) as (p & Hx & _). by eapply FIRST_run. Qed.

Lemma EMPTY_step s x l R : rings (ls_get s) ((x :: l) :: R) → EMPTY_LIST x s = Done (bool_decide (l = [])) s.
Proof.
  intros Hr. destruct (rings_head _ _ _ _ Hr) as (p & Hx & _). unfold EMPTY_LIST.
  rewrite (bind_run _ _ _ _ _ (get_link_run _ _ _ _ Hx)). unfold mret, M_ret. do 2 f_equal. cbn.
  apply bool_decide_ext. destruct l as [|y l]; [done|]. cbn. split; [|done]. intros ->.
  destruct Hr as [Hnd _]. cbn in Hnd. apply NoDup_cons in Hnd as [Hn _]. set_solver.
Qed.

(** ** Families by their heads

    [F] gives the members of the list at each head. *)
Definition fam m (F : gmap A (list A)) : Prop := rings m ((λ p, p.1 :: p.2) <$> map_to_list F).

Definition outside (F : gmap A (list A)) x : Prop := ∀ h l, F !! h = Some l → x ∉ h :: l.

Lemma fam_split F h l : F !! h = Some l →
  (λ p, p.1 :: p.2) <$> map_to_list F ≡ₚ (h :: l) :: ((λ p, p.1 :: p.2) <$> map_to_list (delete h F)).
Proof. intros Hh. by rewrite <- (map_to_list_delete F h l Hh). Qed.

Lemma fam_at m F h l : F !! h = Some l →
  fam m F ↔ rings m ((h :: l) :: ((λ p, p.1 :: p.2) <$> map_to_list (delete h F))).
Proof. intros Hh. unfold fam. split; apply rings_perm; by rewrite (fam_split F h l Hh). Qed.

Lemma fam_insert m F h l : F !! h = None →
  fam m (<[h := l]> F) ↔ rings m ((h :: l) :: ((λ p, p.1 :: p.2) <$> map_to_list F)).
Proof.
  intros Hh. rewrite (fam_at m (<[h := l]> F) h l) by (by apply lookup_insert_eq).
  by rewrite delete_insert_id.
Qed.

Lemma fam_update m F h l l' : F !! h = Some l →
  fam m (<[h := l']> F) ↔ rings m ((h :: l') :: ((λ p, p.1 :: p.2) <$> map_to_list (delete h F))).
Proof.
  intros Hh. rewrite (fam_at m (<[h := l']> F) h l') by (by apply lookup_insert_eq).
  by rewrite delete_insert_eq.
Qed.

Lemma elem_of_fam F x : x ∈ concat ((λ p, p.1 :: p.2) <$> map_to_list F) ↔ ∃ h l, F !! h = Some l ∧ x ∈ h :: l.
Proof.
  rewrite list_elem_of_In, in_concat. setoid_rewrite <- list_elem_of_In. split.
  - intros (l & ([h l'] & -> & Hp)%list_elem_of_fmap & Hx). apply elem_of_map_to_list in Hp. by exists h, l'.
  - intros (h & l & Hh & Hx). exists (h :: l). split; [|done]. apply list_elem_of_fmap.
    exists (h, l). split; [done|]. by apply elem_of_map_to_list.
Qed.

Lemma outside_split F h l x : F !! h = Some l →
  outside F x ↔ x ∉ concat ((h :: l) :: ((λ p, p.1 :: p.2) <$> map_to_list (delete h F))).
Proof.
  intros Hh. assert (Hc : x ∉ concat ((λ p, p.1 :: p.2) <$> map_to_list F) ↔ outside F x).
  { rewrite elem_of_fam. unfold outside. naive_solver. }
  rewrite <- Hc. by rewrite (fam_split F h l Hh).
Qed.

(** A node is on one list, at one place. *)
Lemma fam_disjoint m F h l h' l' x :
  fam m F → F !! h = Some l → F !! h' = Some l' → x ∈ h :: l → x ∈ h' :: l' → h = h'.
Proof.
  intros Hf Hh Hh' Hx Hx'. destruct (decide (h = h')) as [|Hne]; [done|]. exfalso.
  apply (fam_at m F h l Hh) in Hf as [Hnd _]. cbn [concat] in Hnd. apply NoDup_app in Hnd as (_ & Hd & _).
  apply (Hd x Hx), elem_of_fam. exists h', l'. split; [|done]. by rewrite lookup_delete_ne.
Qed.

Lemma fam_nodup m F h l : fam m F → F !! h = Some l → NoDup (h :: l).
Proof. intros Hf Hh. apply (fam_at m F h l Hh) in Hf as [Hnd _]. by apply NoDup_app in Hnd as [? _]. Qed.

Lemma fam_node m F h l x : fam m F → F !! h = Some l → x ∈ h :: l → is_Some (m !! x).
Proof.
  intros Hf Hh Hx. apply (fam_at m F h l Hh) in Hf.
  destruct (rings_mem m _ x Hf) as (n & p & Hn); [|by eexists]. cbn [concat]. rewrite elem_of_app. by left.
Qed.

(** Memory outside of the lists does not matter. *)
Lemma fam_ext m m' F : (∀ h l x, F !! h = Some l → x ∈ h :: l → m' !! x = m !! x) → fam m F → fam m' F.
Proof. intros He. apply rings_ext. intros k (h & l & Hh & Hk)%elem_of_fam. by eapply He. Qed.

Lemma fam_alloc m F x p : outside F x → fam m F → fam (<[x := p]> m) F.
Proof. intros Hx. apply fam_ext. intros h l k Hh Hk. rewrite lookup_insert_ne; [done|]. intros <-. by eapply Hx. Qed.

Lemma fam_free m F x : outside F x → fam m F → fam (delete x m) F.
Proof. intros Hx. apply fam_ext. intros h l k Hh Hk. rewrite lookup_delete_ne; [done|]. intros <-. by eapply Hx. Qed.

Lemma fam_drop m F h : fam m F → fam m (delete h F).
Proof.
  intros Hf. destruct (F !! h) as [l|] eqn:Hh; [|by rewrite delete_id].
  apply (fam_at m F h l Hh) in Hf. destruct Hf as [Hnd HR]. apply Forall_cons in HR as [_ HR].
  cbn [concat] in Hnd. apply NoDup_app in Hnd as (_ & _ & Hnd). by split.
Qed.

Lemma fam_INIT s F x : fam (ls_get s) F → outside F x → is_Some (ls_get s !! x) →
  ∃ m', INIT_LIST x s = Done tt (ls_set m' s) ∧ fam m' (<[x := []]> F) ∧ dom m' = dom (ls_get s).
Proof.
  intros Hf Hx [[n p] Hs]. eexists. split; [by eapply INIT_run|].
  assert (Hn : F !! x = None). { destruct (F !! x) eqn:E; [|done]. exfalso. by eapply (Hx x); [done|left]. }
  split; [|rewrite dom_insert_L; apply elem_of_dom_2 in Hs; set_solver].
  rewrite fam_insert by done. apply INIT_rings; [done|]. rewrite elem_of_fam. unfold outside in Hx. naive_solver.
Qed.

Lemma fam_ADD s F h l x : fam (ls_get s) F → F !! h = Some l → outside F x → is_Some (ls_get s !! x) →
  ∃ m', ADD_LIST (mret h) x s = Done tt (ls_set m' s) ∧ fam m' (<[h := x :: l]> F) ∧ dom m' = dom (ls_get s).
Proof.
  intros Hf Hh Hx Hs. apply (fam_at _ _ _ _ Hh) in Hf. rewrite (outside_split _ _ _ _ Hh) in Hx.
  destruct (ADD_step s h l _ x Hf Hx Hs) as (m' & Hrun & Hr & Hd & _). exists m'. split_and!; try done.
  by apply (fam_update _ _ _ l).
Qed.

Lemma fam_ADD_END s F h l x : fam (ls_get s) F → F !! h = Some l → outside F x → is_Some (ls_get s !! x) →
  ∃ m', ADD_END_LIST h x s = Done tt (ls_set m' s) ∧ fam m' (<[h := l ++ [x]]> F) ∧ dom m' = dom (ls_get s).
Proof.
  intros Hf Hh Hx Hs. apply (fam_at _ _ _ _ Hh) in Hf. rewrite (outside_split _ _ _ _ Hh) in Hx.
  destruct (ADD_END_step s h l _ x Hf Hx Hs) as (m' & Hrun & Hr & Hd & _). exists m'. split_and!; try done.
  by apply (fam_update _ _ _ l).
Qed.

Lemma fam_REM s F h l1 x l2 : fam (ls_get s) F → F !! h = Some (l1 ++ x :: l2) →
  ∃ m', REM_LIST x s = Done tt (ls_set m' s) ∧ fam m' (<[h := l1 ++ l2]> F) ∧ dom m' = dom (ls_get s) ∧
    outside (<[h := l1 ++ l2]> F) x.
Proof.
  intros Hf Hh. pose proof Hf as Hf0. apply (fam_at _ _ _ _ Hh) in Hf.
  destruct (REM_step s (h :: l1) x l2 _ Hf) as (m' & Hrun & Hr & Hd & _). exists m'.
  assert (Hr2 : rings m' ([x] :: ((h :: l1 ++ l2) :: ((λ p, p.1 :: p.2) <$> map_to_list (delete h F))))).
  { eapply rings_perm; [|exact Hr]. constructor. }
  split_and!; try done.
  - apply (fam_update _ _ _ (l1 ++ x :: l2) _ Hh). destruct Hr2 as [Hnd [_ HR]%Forall_cons].
    split; [|done]. by apply NoDup_app in Hnd as (_ & _ & ?).
  - destruct Hr2 as [Hnd _]. cbn [concat app] in Hnd. apply NoDup_cons in Hnd as [Hx _].
    apply (outside_split (<[h := l1 ++ l2]> F) h (l1 ++ l2)); [by apply lookup_insert_eq|].
    by rewrite delete_insert_eq.
Qed.

Lemma fam_FIRST s F h l : fam (ls_get s) F → F !! h = Some l → FIRST_LIST h s = Done (default h (head l)) s.
Proof. intros Hf Hh. apply (fam_at _ _ _ _ Hh) in Hf. by eapply FIRST_step. Qed.

Lemma fam_EMPTY s F h l : fam (ls_get s) F → F !! h = Some l → EMPTY_LIST h s = Done (bool_decide (l = [])) s.
Proof. intros Hf Hh. apply (fam_at _ _ _ _ Hh) in Hf. by eapply EMPTY_step. Qed.

(** The successor of a member. *)
Lemma fam_next s F h l1 x l2 : fam (ls_get s) F → F !! h = Some (l1 ++ x :: l2) →
  FIRST_LIST x s = Done (default h (head l2)) s.
Proof.
  intros Hf Hh. apply (fam_at _ _ _ _ Hh) in Hf.
  apply (rings_rotate _ (h :: l1) (x :: l2)) in Hf. cbn in Hf.
  rewrite (FIRST_step _ _ _ _ Hf). by destruct l2.
Qed.
End Macros.
