(* ===== verification/Kern.v ===== *)
(** * The kernel's data

    The constants, structures and global variables of the Composite kernel
    (src/kernel/include and the file-scope variables of src/kernel), the record
    of all of them ([kstate]), and the accesses to them in the kernel monad.

    Pointers: a [struct spd *], [struct composite_spd *] and [struct thread *]
    always points into the array [spds], [mpd_descriptors] or [threads], and is
    the index of its element ([option nat] where it may be [NULL]).  A
    [struct spd_poly *] points to the first field of a [struct spd] or of a
    [struct composite_spd], which is what [polyp] says.  Addresses that are
    only stored or computed with are machine words. *)

From stdpp Require Import base list numbers option gmap.
From S2P Require Import Prelude.

(** ** Constants (consts.h, spd.h, thread.h, cos_types.h) *)

Definition PAGE_SIZE : Z := 4096.
Definition MAX_SERVICE_DEPTH : nat := 31.
Definition MAX_NUM_THREADS : nat := 30.
Definition MAX_SPD_VAS_LOCATIONS : nat := 8.
Definition COS_NUM_FAULTS : nat := 1.
Definition MAX_SCHED_HIER_DEPTH : nat := 4.
Definition MAX_NUM_SPDS : nat := 64.
Definition MAX_STATIC_CAP : nat := 1024.
Definition PGD_PER_PTBL : nat := 1024.
Definition HPAGE_SHIFT : Z := 22.
Definition HPAGE_SIZE : Z := 2 ^ 22.
Definition SERVICE_SIZE : Z := 2 ^ 22.
Definition COS_INFO_REGION_ADDR : Z := 2 ^ 30.
Definition COS_NUM_ATOMIC_SECTIONS : nat := 10.
Definition COS_MAX_MEMORY : nat := 2048.
Definition KERN_BASE_ADDR : Z := 3221225472.
Definition MAX_MPD_DESC : nat := 1024.
Definition MAX_VAS_NUM : nat := 2.
Definition NUM_SCHED_EVTS : nat := 128.
Definition RB_SIZE : nat := 512.
Definition NUM_NET_BRANDS : nat := 2.

Definition SPD_COMPOSITE : Z := 1.
Definition SPD_FREE : Z := 2.
Definition SPD_DEPRICATED : Z := 4.
Definition SPD_SUBORDINATE : Z := 8.
Definition SPD_ACTIVE : Z := 16.

Definition THD_STATE_PREEMPTED : Z := 1.
Definition THD_STATE_UPCALL : Z := 2.
Definition THD_STATE_ACTIVE_UPCALL : Z := 4.
Definition THD_STATE_READY_UPCALL : Z := 8.
Definition THD_STATE_BRAND : Z := 16.
Definition THD_STATE_SCHED_RETURN : Z := 32.
Definition THD_STATE_FAULT : Z := 64.
Definition THD_STATE_HW_BRAND : Z := 128.
Definition THD_STATE_CYC_CNT : Z := 256.

(** Isolation levels of a capability. *)
Definition IL_ST : Z := 0.
Definition IL_AST : Z := 2.
Definition IL_SDT : Z := 3.
Definition IL_INV : Z := 4294967295.
Definition MAX_ISOLATION_LVL_VAL : Z := 3.
Definition CAP_SAVE_REGS : Z := 1.

(** ** Structures *)

(** [struct spd_poly]: what [struct spd] and [struct composite_spd] share. *)
Record spd_poly : Type := MkPoly {
  p_flags : Z;
  p_ref_cnt : Z;
  p_pg_tbl : Z
}.

Definition set_p_flags (v : Z) (r : spd_poly) : spd_poly :=
  MkPoly v (p_ref_cnt r) (p_pg_tbl r).
Definition set_p_ref_cnt (v : Z) (r : spd_poly) : spd_poly :=
  MkPoly (p_flags r) v (p_pg_tbl r).
Definition set_p_pg_tbl (v : Z) (r : spd_poly) : spd_poly :=
  MkPoly (p_flags r) (p_ref_cnt r) v.

(** [struct spd_poly *]. *)
Inductive polyp : Set :=
| PolySpd (i : nat)
| PolyMpd (j : nat).

#[export] Instance polyp_eq_dec : EqDecision polyp.
Proof. solve_decision. Defined.

(** [struct spd_location]: one contiguous range of virtual addresses. *)
Record spd_location : Type := MkLoc {
  l_lowest_addr : Z;
  l_size : Z
}.

Definition set_l_lowest_addr (v : Z) (r : spd_location) : spd_location :=
  MkLoc v (l_size r).
Definition set_l_size (v : Z) (r : spd_location) : spd_location :=
  MkLoc (l_lowest_addr r) v.

(** [struct spd]: a component.  The Linux compatibility handle [local_mmaps],
    which no kernel function reads, is left out. *)
Record spd : Type := MkSpd {
  s_info : spd_poly;
  s_location : list spd_location;
  s_composite_spd : polyp;
  s_cap_base : Z;
  s_cap_range : Z;
  s_fault_handler : list Z;
  s_user_cap_tbl : Z;
  s_user_vaddr_cap_tbl : Z;
  s_sched_depth : Z;
  s_parent_sched : option nat;
  s_sched_shared_page : Z;
  s_kern_sched_shared_page : Z;
  s_prev_notification : Z;
  s_cos_net_xmit_headers : Z;
  s_upcall_entry : Z;
  s_atomic_sections : list Z;
  s_freelist_next : option nat;
  s_member_next : option nat; (* composite_member_next *)
  s_member_prev : option nat; (* composite_member_prev *)
  s_composite_vas : option Z (* index into vas_list *)
}.

Definition set_s_info (v : spd_poly) (r : spd) : spd :=
  MkSpd v (s_location r) (s_composite_spd r) (s_cap_base r) (s_cap_range r)
    (s_fault_handler r) (s_user_cap_tbl r) (s_user_vaddr_cap_tbl r)
    (s_sched_depth r) (s_parent_sched r) (s_sched_shared_page r)
    (s_kern_sched_shared_page r) (s_prev_notification r)
    (s_cos_net_xmit_headers r) (s_upcall_entry r) (s_atomic_sections r)
    (s_freelist_next r) (s_member_next r) (s_member_prev r)
    (s_composite_vas r).
Definition set_s_location (v : list spd_location) (r : spd) : spd :=
  MkSpd (s_info r) v (s_composite_spd r) (s_cap_base r) (s_cap_range r)
    (s_fault_handler r) (s_user_cap_tbl r) (s_user_vaddr_cap_tbl r)
    (s_sched_depth r) (s_parent_sched r) (s_sched_shared_page r)
    (s_kern_sched_shared_page r) (s_prev_notification r)
    (s_cos_net_xmit_headers r) (s_upcall_entry r) (s_atomic_sections r)
    (s_freelist_next r) (s_member_next r) (s_member_prev r)
    (s_composite_vas r).
Definition set_s_composite_spd (v : polyp) (r : spd) : spd :=
  MkSpd (s_info r) (s_location r) v (s_cap_base r) (s_cap_range r)
    (s_fault_handler r) (s_user_cap_tbl r) (s_user_vaddr_cap_tbl r)
    (s_sched_depth r) (s_parent_sched r) (s_sched_shared_page r)
    (s_kern_sched_shared_page r) (s_prev_notification r)
    (s_cos_net_xmit_headers r) (s_upcall_entry r) (s_atomic_sections r)
    (s_freelist_next r) (s_member_next r) (s_member_prev r)
    (s_composite_vas r).
Definition set_s_cap_base (v : Z) (r : spd) : spd :=
  MkSpd (s_info r) (s_location r) (s_composite_spd r) v (s_cap_range r)
    (s_fault_handler r) (s_user_cap_tbl r) (s_user_vaddr_cap_tbl r)
    (s_sched_depth r) (s_parent_sched r) (s_sched_shared_page r)
    (s_kern_sched_shared_page r) (s_prev_notification r)
    (s_cos_net_xmit_headers r) (s_upcall_entry r) (s_atomic_sections r)
    (s_freelist_next r) (s_member_next r) (s_member_prev r)
    (s_composite_vas r).
Definition set_s_cap_range (v : Z) (r : spd) : spd :=
  MkSpd (s_info r) (s_location r) (s_composite_spd r) (s_cap_base r) v
    (s_fault_handler r) (s_user_cap_tbl r) (s_user_vaddr_cap_tbl r)
    (s_sched_depth r) (s_parent_sched r) (s_sched_shared_page r)
    (s_kern_sched_shared_page r) (s_prev_notification r)
    (s_cos_net_xmit_headers r) (s_upcall_entry r) (s_atomic_sections r)
    (s_freelist_next r) (s_member_next r) (s_member_prev r)
    (s_composite_vas r).
Definition set_s_fault_handler (v : list Z) (r : spd) : spd :=
  MkSpd (s_info r) (s_location r) (s_composite_spd r) (s_cap_base r)
    (s_cap_range r) v (s_user_cap_tbl r) (s_user_vaddr_cap_tbl r)
    (s_sched_depth r) (s_parent_sched r) (s_sched_shared_page r)
    (s_kern_sched_shared_page r) (s_prev_notification r)
    (s_cos_net_xmit_headers r) (s_upcall_entry r) (s_atomic_sections r)
    (s_freelist_next r) (s_member_next r) (s_member_prev r)
    (s_composite_vas r).
Definition set_s_user_cap_tbl (v : Z) (r : spd) : spd :=
  MkSpd (s_info r) (s_location r) (s_composite_spd r) (s_cap_base r)
    (s_cap_range r) (s_fault_handler r) v (s_user_vaddr_cap_tbl r)
    (s_sched_depth r) (s_parent_sched r) (s_sched_shared_page r)
    (s_kern_sched_shared_page r) (s_prev_notification r)
    (s_cos_net_xmit_headers r) (s_upcall_entry r) (s_atomic_sections r)
    (s_freelist_next r) (s_member_next r) (s_member_prev r)
    (s_composite_vas r).
Definition set_s_user_vaddr_cap_tbl (v : Z) (r : spd) : spd :=
  MkSpd (s_info r) (s_location r) (s_composite_spd r) (s_cap_base r)
    (s_cap_range r) (s_fault_handler r) (s_user_cap_tbl r) v (s_sched_depth r)
    (s_parent_sched r) (s_sched_shared_page r) (s_kern_sched_shared_page r)
    (s_prev_notification r) (s_cos_net_xmit_headers r) (s_upcall_entry r)
    (s_atomic_sections r) (s_freelist_next r) (s_member_next r)
    (s_member_prev r) (s_composite_vas r).
Definition set_s_sched_depth (v : Z) (r : spd) : spd :=
  MkSpd (s_info r) (s_location r) (s_composite_spd r) (s_cap_base r)
    (s_cap_range r) (s_fault_handler r) (s_user_cap_tbl r)
    (s_user_vaddr_cap_tbl r) v (s_parent_sched r) (s_sched_shared_page r)
    (s_kern_sched_shared_page r) (s_prev_notification r)
    (s_cos_net_xmit_headers r) (s_upcall_entry r) (s_atomic_sections r)
    (s_freelist_next r) (s_member_next r) (s_member_prev r)
    (s_composite_vas r).
Definition set_s_parent_sched (v : option nat) (r : spd) : spd :=
  MkSpd (s_info r) (s_location r) (s_composite_spd r) (s_cap_base r)
    (s_cap_range r) (s_fault_handler r) (s_user_cap_tbl r)
    (s_user_vaddr_cap_tbl r) (s_sched_depth r) v (s_sched_shared_page r)
    (s_kern_sched_shared_page r) (s_prev_notification r)
    (s_cos_net_xmit_headers r) (s_upcall_entry r) (s_atomic_sections r)
    (s_freelist_next r) (s_member_next r) (s_member_prev r)
    (s_composite_vas r).
Definition set_s_sched_shared_page (v : Z) (r : spd) : spd :=
  MkSpd (s_info r) (s_location r) (s_composite_spd r) (s_cap_base r)
    (s_cap_range r) (s_fault_handler r) (s_user_cap_tbl r)
    (s_user_vaddr_cap_tbl r) (s_sched_depth r) (s_parent_sched r) v
    (s_kern_sched_shared_page r) (s_prev_notification r)
    (s_cos_net_xmit_headers r) (s_upcall_entry r) (s_atomic_sections r)
    (s_freelist_next r) (s_member_next r) (s_member_prev r)
    (s_composite_vas r).
Definition set_s_kern_sched_shared_page (v : Z) (r : spd) : spd :=
  MkSpd (s_info r) (s_location r) (s_composite_spd r) (s_cap_base r)
    (s_cap_range r) (s_fault_handler r) (s_user_cap_tbl r)
    (s_user_vaddr_cap_tbl r) (s_sched_depth r) (s_parent_sched r)
    (s_sched_shared_page r) v (s_prev_notification r)
    (s_cos_net_xmit_headers r) (s_upcall_entry r) (s_atomic_sections r)
    (s_freelist_next r) (s_member_next r) (s_member_prev r)
    (s_composite_vas r).
Definition set_s_prev_notification (v : Z) (r : spd) : spd :=
  MkSpd (s_info r) (s_location r) (s_composite_spd r) (s_cap_base r)
    (s_cap_range r) (s_fault_handler r) (s_user_cap_tbl r)
    (s_user_vaddr_cap_tbl r) (s_sched_depth r) (s_parent_sched r)
    (s_sched_shared_page r) (s_kern_sched_shared_page r) v
    (s_cos_net_xmit_headers r) (s_upcall_entry r) (s_atomic_sections r)
    (s_freelist_next r) (s_member_next r) (s_member_prev r)
    (s_composite_vas r).
Definition set_s_cos_net_xmit_headers (v : Z) (r : spd) : spd :=
  MkSpd (s_info r) (s_location r) (s_composite_spd r) (s_cap_base r)
    (s_cap_range r) (s_fault_handler r) (s_user_cap_tbl r)
    (s_user_vaddr_cap_tbl r) (s_sched_depth r) (s_parent_sched r)
    (s_sched_shared_page r) (s_kern_sched_shared_page r)
    (s_prev_notification r) v (s_upcall_entry r) (s_atomic_sections r)
    (s_freelist_next r) (s_member_next r) (s_member_prev r)
    (s_composite_vas r).
Definition set_s_upcall_entry (v : Z) (r : spd) : spd :=
  MkSpd (s_info r) (s_location r) (s_composite_spd r) (s_cap_base r)
    (s_cap_range r) (s_fault_handler r) (s_user_cap_tbl r)
    (s_user_vaddr_cap_tbl r) (s_sched_depth r) (s_parent_sched r)
    (s_sched_shared_page r) (s_kern_sched_shared_page r)
    (s_prev_notification r) (s_cos_net_xmit_headers r) v (s_atomic_sections r)
    (s_freelist_next r) (s_member_next r) (s_member_prev r)
    (s_composite_vas r).
Definition set_s_atomic_sections (v : list Z) (r : spd) : spd :=
  MkSpd (s_info r) (s_location r) (s_composite_spd r) (s_cap_base r)
    (s_cap_range r) (s_fault_handler r) (s_user_cap_tbl r)
    (s_user_vaddr_cap_tbl r) (s_sched_depth r) (s_parent_sched r)
    (s_sched_shared_page r) (s_kern_sched_shared_page r)
    (s_prev_notification r) (s_cos_net_xmit_headers r) (s_upcall_entry r) v
    (s_freelist_next r) (s_member_next r) (s_member_prev r)
    (s_composite_vas r).
Definition set_s_freelist_next (v : option nat) (r : spd) : spd :=
  MkSpd (s_info r) (s_location r) (s_composite_spd r) (s_cap_base r)
    (s_cap_range r) (s_fault_handler r) (s_user_cap_tbl r)
    (s_user_vaddr_cap_tbl r) (s_sched_depth r) (s_parent_sched r)
    (s_sched_shared_page r) (s_kern_sched_shared_page r)
    (s_prev_notification r) (s_cos_net_xmit_headers r) (s_upcall_entry r)
    (s_atomic_sections r) v (s_member_next r) (s_member_prev r)
    (s_composite_vas r).
Definition set_s_member_next (v : option nat) (r : spd) : spd :=
  MkSpd (s_info r) (s_location r) (s_composite_spd r) (s_cap_base r)
    (s_cap_range r) (s_fault_handler r) (s_user_cap_tbl r)
    (s_user_vaddr_cap_tbl r) (s_sched_depth r) (s_parent_sched r)
    (s_sched_shared_page r) (s_kern_sched_shared_page r)
    (s_prev_notification r) (s_cos_net_xmit_headers r) (s_upcall_entry r)
    (s_atomic_sections r) (s_freelist_next r) v (s_member_prev r)
    (s_composite_vas r).
Definition set_s_member_prev (v : option nat) (r : spd) : spd :=
  MkSpd (s_info r) (s_location r) (s_composite_spd r) (s_cap_base r)
    (s_cap_range r) (s_fault_handler r) (s_user_cap_tbl r)
    (s_user_vaddr_cap_tbl r) (s_sched_depth r) (s_parent_sched r)
    (s_sched_shared_page r) (s_kern_sched_shared_page r)
    (s_prev_notification r) (s_cos_net_xmit_headers r) (s_upcall_entry r)
    (s_atomic_sections r) (s_freelist_next r) (s_member_next r) v
    (s_composite_vas r).
Definition set_s_composite_vas (v : option Z) (r : spd) : spd :=
  MkSpd (s_info r) (s_location r) (s_composite_spd r) (s_cap_base r)
    (s_cap_range r) (s_fault_handler r) (s_user_cap_tbl r)
    (s_user_vaddr_cap_tbl r) (s_sched_depth r) (s_parent_sched r)
    (s_sched_shared_page r) (s_kern_sched_shared_page r)
    (s_prev_notification r) (s_cos_net_xmit_headers r) (s_upcall_entry r)
    (s_atomic_sections r) (s_freelist_next r) (s_member_next r)
    (s_member_prev r) v.

(** [struct composite_spd]: a protection domain shared by several components. *)
Record composite_spd : Type := MkMpd {
  m_info : spd_poly;
  m_members : option nat;
  m_master_spd : option nat;
  m_next : option nat;
  m_prev : option nat
}.

Definition set_m_info (v : spd_poly) (r : composite_spd) : composite_spd :=
  MkMpd v (m_members r) (m_master_spd r) (m_next r) (m_prev r).
Definition set_m_members (v : option nat) (r : composite_spd) : composite_spd :=
  MkMpd (m_info r) v (m_master_spd r) (m_next r) (m_prev r).
Definition set_m_master_spd (v : option nat) (r : composite_spd) : composite_spd :=
  MkMpd (m_info r) (m_members r) v (m_next r) (m_prev r).
Definition set_m_next (v : option nat) (r : composite_spd) : composite_spd :=
  MkMpd (m_info r) (m_members r) (m_master_spd r) v (m_prev r).
Definition set_m_prev (v : option nat) (r : composite_spd) : composite_spd :=
  MkMpd (m_info r) (m_members r) (m_master_spd r) (m_next r) v.

(** [struct vas]: a virtual address space, 4MB slots to components. *)
Record vas : Type := MkVas {
  v_layout : list (option nat); (* virtual_spd_layout *)
  v_start_addr : Z;
  v_vas_id : Z
}.

Definition set_v_layout (v : list (option nat)) (r : vas) : vas :=
  MkVas v (v_start_addr r) (v_vas_id r).
Definition set_v_start_addr (v : Z) (r : vas) : vas :=
  MkVas (v_layout r) v (v_vas_id r).
Definition set_v_vas_id (v : Z) (r : vas) : vas :=
  MkVas (v_layout r) (v_start_addr r) v.

(** [struct usr_cap_stubs]. *)
Record usr_cap_stubs : Type := MkStubs {
  ST_serv_entry : Z;
  SD_cli_stub : Z;
  SD_serv_stub : Z;
  AT_cli_stub : Z;
  AT_serv_stub : Z
}.

Definition set_ST_serv_entry (v : Z) (r : usr_cap_stubs) : usr_cap_stubs :=
  MkStubs v (SD_cli_stub r) (SD_serv_stub r) (AT_cli_stub r) (AT_serv_stub r).
Definition set_SD_cli_stub (v : Z) (r : usr_cap_stubs) : usr_cap_stubs :=
  MkStubs (ST_serv_entry r) v (SD_serv_stub r) (AT_cli_stub r)
    (AT_serv_stub r).
Definition set_SD_serv_stub (v : Z) (r : usr_cap_stubs) : usr_cap_stubs :=
  MkStubs (ST_serv_entry r) (SD_cli_stub r) v (AT_cli_stub r) (AT_serv_stub r).
Definition set_AT_cli_stub (v : Z) (r : usr_cap_stubs) : usr_cap_stubs :=
  MkStubs (ST_serv_entry r) (SD_cli_stub r) (SD_serv_stub r) v
    (AT_serv_stub r).
Definition set_AT_serv_stub (v : Z) (r : usr_cap_stubs) : usr_cap_stubs :=
  MkStubs (ST_serv_entry r) (SD_cli_stub r) (SD_serv_stub r) (AT_cli_stub r) v.

(** The owner field of a capability: [CAP_FREE] ([NULL]),
    [CAP_ALLOCATED_UNUSED] ([(void* )1]) or a component. *)
Inductive cap_owner : Set :=
| CAP_FREE
| CAP_ALLOCATED_UNUSED
| OwnerSpd (i : nat).

#[export] Instance cap_owner_eq_dec : EqDecision cap_owner.
Proof. solve_decision. Defined.

(** [struct invocation_cap]: the right of [c_owner] to invoke [c_destination]. *)
Record invocation_cap : Type := MkCap {
  c_owner : cap_owner;
  c_destination : option nat;
  c_invocation_cnt : Z; (* 30 bits *)
  c_il : Z; (* 2 bits *)
  c_dest_entry : Z; (* dest_entry_instruction *)
  c_stubs : usr_cap_stubs
}.

Definition set_c_owner (v : cap_owner) (r : invocation_cap) : invocation_cap :=
  MkCap v (c_destination r) (c_invocation_cnt r) (c_il r) (c_dest_entry r)
    (c_stubs r).
Definition set_c_destination (v : option nat) (r : invocation_cap) : invocation_cap :=
  MkCap (c_owner r) v (c_invocation_cnt r) (c_il r) (c_dest_entry r)
    (c_stubs r).
Definition set_c_invocation_cnt (v : Z) (r : invocation_cap) : invocation_cap :=
  MkCap (c_owner r) (c_destination r) v (c_il r) (c_dest_entry r) (c_stubs r).
Definition set_c_il (v : Z) (r : invocation_cap) : invocation_cap :=
  MkCap (c_owner r) (c_destination r) (c_invocation_cnt r) v (c_dest_entry r)
    (c_stubs r).
Definition set_c_dest_entry (v : Z) (r : invocation_cap) : invocation_cap :=
  MkCap (c_owner r) (c_destination r) (c_invocation_cnt r) (c_il r) v
    (c_stubs r).
Definition set_c_stubs (v : usr_cap_stubs) (r : invocation_cap) : invocation_cap :=
  MkCap (c_owner r) (c_destination r) (c_invocation_cnt r) (c_il r)
    (c_dest_entry r) v.

(** [struct usr_inv_cap]: the user-level half of a capability. *)
Record usr_inv_cap : Type := MkUcap {
  u_invocation_fn : Z;
  u_service_entry_inst : Z;
  u_invocation_count : Z;
  u_cap_no : Z
}.

Definition set_u_invocation_fn (v : Z) (r : usr_inv_cap) : usr_inv_cap :=
  MkUcap v (u_service_entry_inst r) (u_invocation_count r) (u_cap_no r).
Definition set_u_service_entry_inst (v : Z) (r : usr_inv_cap) : usr_inv_cap :=
  MkUcap (u_invocation_fn r) v (u_invocation_count r) (u_cap_no r).
Definition set_u_invocation_count (v : Z) (r : usr_inv_cap) : usr_inv_cap :=
  MkUcap (u_invocation_fn r) (u_service_entry_inst r) v (u_cap_no r).
Definition set_u_cap_no (v : Z) (r : usr_inv_cap) : usr_inv_cap :=
  MkUcap (u_invocation_fn r) (u_service_entry_inst r) (u_invocation_count r) v.

(** [struct thd_invocation_frame]. *)
Record thd_invocation_frame : Type := MkFrame {
  f_cspd : option polyp; (* current_composite_spd *)
  f_spd : option nat;
  f_sp : Z;
  f_ip : Z
}.

Definition set_f_cspd (v : option polyp) (r : thd_invocation_frame) : thd_invocation_frame :=
  MkFrame v (f_spd r) (f_sp r) (f_ip r).
Definition set_f_spd (v : option nat) (r : thd_invocation_frame) : thd_invocation_frame :=
  MkFrame (f_cspd r) v (f_sp r) (f_ip r).
Definition set_f_sp (v : Z) (r : thd_invocation_frame) : thd_invocation_frame :=
  MkFrame (f_cspd r) (f_spd r) v (f_ip r).
Definition set_f_ip (v : Z) (r : thd_invocation_frame) : thd_invocation_frame :=
  MkFrame (f_cspd r) (f_spd r) (f_sp r) v.

(** [struct pt_regs]. *)
Record pt_regs : Type := MkRegs {
  r_bx : Z;
  r_cx : Z;
  r_dx : Z;
  r_si : Z;
  r_di : Z;
  r_bp : Z;
  r_ax : Z;
  r_ds : Z;
  r_es : Z;
  r_fs : Z;
  r_gs : Z;
  r_orig_ax : Z;
  r_ip : Z;
  r_cs : Z;
  r_flags : Z;
  r_sp : Z;
  r_ss : Z
}.

Definition set_r_bx (v : Z) (r : pt_regs) : pt_regs :=
  MkRegs v (r_cx r) (r_dx r) (r_si r) (r_di r) (r_bp r) (r_ax r) (r_ds r)
    (r_es r) (r_fs r) (r_gs r) (r_orig_ax r) (r_ip r) (r_cs r) (r_flags r)
    (r_sp r) (r_ss r).
Definition set_r_cx (v : Z) (r : pt_regs) : pt_regs :=
  MkRegs (r_bx r) v (r_dx r) (r_si r) (r_di r) (r_bp r) (r_ax r) (r_ds r)
    (r_es r) (r_fs r) (r_gs r) (r_orig_ax r) (r_ip r) (r_cs r) (r_flags r)
    (r_sp r) (r_ss r).
Definition set_r_dx (v : Z) (r : pt_regs) : pt_regs :=
  MkRegs (r_bx r) (r_cx r) v (r_si r) (r_di r) (r_bp r) (r_ax r) (r_ds r)
    (r_es r) (r_fs r) (r_gs r) (r_orig_ax r) (r_ip r) (r_cs r) (r_flags r)
    (r_sp r) (r_ss r).
Definition set_r_si (v : Z) (r : pt_regs) : pt_regs :=
  MkRegs (r_bx r) (r_cx r) (r_dx r) v (r_di r) (r_bp r) (r_ax r) (r_ds r)
    (r_es r) (r_fs r) (r_gs r) (r_orig_ax r) (r_ip r) (r_cs r) (r_flags r)
    (r_sp r) (r_ss r).
Definition set_r_di (v : Z) (r : pt_regs) : pt_regs :=
  MkRegs (r_bx r) (r_cx r) (r_dx r) (r_si r) v (r_bp r) (r_ax r) (r_ds r)
    (r_es r) (r_fs r) (r_gs r) (r_orig_ax r) (r_ip r) (r_cs r) (r_flags r)
    (r_sp r) (r_ss r).
Definition set_r_bp (v : Z) (r : pt_regs) : pt_regs :=
  MkRegs (r_bx r) (r_cx r) (r_dx r) (r_si r) (r_di r) v (r_ax r) (r_ds r)
    (r_es r) (r_fs r) (r_gs r) (r_orig_ax r) (r_ip r) (r_cs r) (r_flags r)
    (r_sp r) (r_ss r).
Definition set_r_ax (v : Z) (r : pt_regs) : pt_regs :=
  MkRegs (r_bx r) (r_cx r) (r_dx r) (r_si r) (r_di r) (r_bp r) v (r_ds r)
    (r_es r) (r_fs r) (r_gs r) (r_orig_ax r) (r_ip r) (r_cs r) (r_flags r)
    (r_sp r) (r_ss r).
Definition set_r_ds (v : Z) (r : pt_regs) : pt_regs :=
  MkRegs (r_bx r) (r_cx r) (r_dx r) (r_si r) (r_di r) (r_bp r) (r_ax r) v
    (r_es r) (r_fs r) (r_gs r) (r_orig_ax r) (r_ip r) (r_cs r) (r_flags r)
    (r_sp r) (r_ss r).
Definition set_r_es (v : Z) (r : pt_regs) : pt_regs :=
  MkRegs (r_bx r) (r_cx r) (r_dx r) (r_si r) (r_di r) (r_bp r) (r_ax r)
    (r_ds r) v (r_fs r) (r_gs r) (r_orig_ax r) (r_ip r) (r_cs r) (r_flags r)
    (r_sp r) (r_ss r).
Definition set_r_fs (v : Z) (r : pt_regs) : pt_regs :=
  MkRegs (r_bx r) (r_cx r) (r_dx r) (r_si r) (r_di r) (r_bp r) (r_ax r)
    (r_ds r) (r_es r) v (r_gs r) (r_orig_ax r) (r_ip r) (r_cs r) (r_flags r)
    (r_sp r) (r_ss r).
Definition set_r_gs (v : Z) (r : pt_regs) : pt_regs :=
  MkRegs (r_bx r) (r_cx r) (r_dx r) (r_si r) (r_di r) (r_bp r) (r_ax r)
    (r_ds r) (r_es r) (r_fs r) v (r_orig_ax r) (r_ip r) (r_cs r) (r_flags r)
    (r_sp r) (r_ss r).
Definition set_r_orig_ax (v : Z) (r : pt_regs) : pt_regs :=
  MkRegs (r_bx r) (r_cx r) (r_dx r) (r_si r) (r_di r) (r_bp r) (r_ax r)
    (r_ds r) (r_es r) (r_fs r) (r_gs r) v (r_ip r) (r_cs r) (r_flags r)
    (r_sp r) (r_ss r).
Definition set_r_ip (v : Z) (r : pt_regs) : pt_regs :=
  MkRegs (r_bx r) (r_cx r) (r_dx r) (r_si r) (r_di r) (r_bp r) (r_ax r)
    (r_ds r) (r_es r) (r_fs r) (r_gs r) (r_orig_ax r) v (r_cs r) (r_flags r)
    (r_sp r) (r_ss r).
Definition set_r_cs (v : Z) (r : pt_regs) : pt_regs :=
  MkRegs (r_bx r) (r_cx r) (r_dx r) (r_si r) (r_di r) (r_bp r) (r_ax r)
    (r_ds r) (r_es r) (r_fs r) (r_gs r) (r_orig_ax r) (r_ip r) v (r_flags r)
    (r_sp r) (r_ss r).
Definition set_r_flags (v : Z) (r : pt_regs) : pt_regs :=
  MkRegs (r_bx r) (r_cx r) (r_dx r) (r_si r) (r_di r) (r_bp r) (r_ax r)
    (r_ds r) (r_es r) (r_fs r) (r_gs r) (r_orig_ax r) (r_ip r) (r_cs r) v
    (r_sp r) (r_ss r).
Definition set_r_sp (v : Z) (r : pt_regs) : pt_regs :=
  MkRegs (r_bx r) (r_cx r) (r_dx r) (r_si r) (r_di r) (r_bp r) (r_ax r)
    (r_ds r) (r_es r) (r_fs r) (r_gs r) (r_orig_ax r) (r_ip r) (r_cs r)
    (r_flags r) v (r_ss r).
Definition set_r_ss (v : Z) (r : pt_regs) : pt_regs :=
  MkRegs (r_bx r) (r_cx r) (r_dx r) (r_si r) (r_di r) (r_bp r) (r_ax r)
    (r_ds r) (r_es r) (r_fs r) (r_gs r) (r_orig_ax r) (r_ip r) (r_cs r)
    (r_flags r) (r_sp r) v.

(** [struct cos_sched_events]: what the kernel tells a scheduler about a thread. *)
Record cos_sched_events : Type := MkEvt {
  ev_next : Z; (* 8 bits *)
  ev_flags : Z; (* 8 bits *)
  ev_urgency : Z; (* 16 bits *)
  ev_cpu : Z (* cpu_consumption *)
}.

Definition set_ev_next (v : Z) (r : cos_sched_events) : cos_sched_events :=
  MkEvt v (ev_flags r) (ev_urgency r) (ev_cpu r).
Definition set_ev_flags (v : Z) (r : cos_sched_events) : cos_sched_events :=
  MkEvt (ev_next r) v (ev_urgency r) (ev_cpu r).
Definition set_ev_urgency (v : Z) (r : cos_sched_events) : cos_sched_events :=
  MkEvt (ev_next r) (ev_flags r) v (ev_cpu r).
Definition set_ev_cpu (v : Z) (r : cos_sched_events) : cos_sched_events :=
  MkEvt (ev_next r) (ev_flags r) (ev_urgency r) v.

(** [struct cos_sched_data_area]: the page a scheduler shares with the kernel. *)
Record cos_sched_data_area : Type := MkSda {
  sd_next_thd_id : Z;
  sd_next_thd_flags : Z;
  sd_owner_thd : Z;
  sd_queued_thd : Z;
  sd_pending_event : Z;
  sd_pending_cevt : Z;
  sd_timer : Z;
  sd_events : list cos_sched_events
}.

Definition set_sd_next_thd_id (v : Z) (r : cos_sched_data_area) : cos_sched_data_area :=
  MkSda v (sd_next_thd_flags r) (sd_owner_thd r) (sd_queued_thd r)
    (sd_pending_event r) (sd_pending_cevt r) (sd_timer r) (sd_events r).
Definition set_sd_next_thd_flags (v : Z) (r : cos_sched_data_area) : cos_sched_data_area :=
  MkSda (sd_next_thd_id r) v (sd_owner_thd r) (sd_queued_thd r)
    (sd_pending_event r) (sd_pending_cevt r) (sd_timer r) (sd_events r).
Definition set_sd_owner_thd (v : Z) (r : cos_sched_data_area) : cos_sched_data_area :=
  MkSda (sd_next_thd_id r) (sd_next_thd_flags r) v (sd_queued_thd r)
    (sd_pending_event r) (sd_pending_cevt r) (sd_timer r) (sd_events r).
Definition set_sd_queued_thd (v : Z) (r : cos_sched_data_area) : cos_sched_data_area :=
  MkSda (sd_next_thd_id r) (sd_next_thd_flags r) (sd_owner_thd r) v
    (sd_pending_event r) (sd_pending_cevt r) (sd_timer r) (sd_events r).
Definition set_sd_pending_event (v : Z) (r : cos_sched_data_area) : cos_sched_data_area :=
  MkSda (sd_next_thd_id r) (sd_next_thd_flags r) (sd_owner_thd r)
    (sd_queued_thd r) v (sd_pending_cevt r) (sd_timer r) (sd_events r).
Definition set_sd_pending_cevt (v : Z) (r : cos_sched_data_area) : cos_sched_data_area :=
  MkSda (sd_next_thd_id r) (sd_next_thd_flags r) (sd_owner_thd r)
    (sd_queued_thd r) (sd_pending_event r) v (sd_timer r) (sd_events r).
Definition set_sd_timer (v : Z) (r : cos_sched_data_area) : cos_sched_data_area :=
  MkSda (sd_next_thd_id r) (sd_next_thd_flags r) (sd_owner_thd r)
    (sd_queued_thd r) (sd_pending_event r) (sd_pending_cevt r) v (sd_events r).
Definition set_sd_events (v : list cos_sched_events) (r : cos_sched_data_area) : cos_sched_data_area :=
  MkSda (sd_next_thd_id r) (sd_next_thd_flags r) (sd_owner_thd r)
    (sd_queued_thd r) (sd_pending_event r) (sd_pending_cevt r) (sd_timer r) v.

(** [struct thd_sched_info].  [thread_notifications] points to an entry of the
    event array of a shared page: the page's kernel address and the index. *)
Record thd_sched_info : Type := MkTsi {
  ti_scheduler : option nat;
  ti_notifications : option (Z * Z); (* thread_notifications *)
  ti_offset : Z (* notification_offset *)
}.

Definition set_ti_scheduler (v : option nat) (r : thd_sched_info) : thd_sched_info :=
  MkTsi v (ti_notifications r) (ti_offset r).
Definition set_ti_notifications (v : option (Z * Z)) (r : thd_sched_info) : thd_sched_info :=
  MkTsi (ti_scheduler r) v (ti_offset r).
Definition set_ti_offset (v : Z) (r : thd_sched_info) : thd_sched_info :=
  MkTsi (ti_scheduler r) (ti_notifications r) v.

(** [struct thread]. *)
Record thread : Type := MkThd {
  t_stack_ptr : Z;
  t_thread_id : Z;
  t_cpu_id : Z;
  t_flags : Z;
  t_regs : pt_regs;
  t_stack : list thd_invocation_frame; (* stack_base *)
  t_fault_regs : pt_regs;
  t_data_region : Z;
  t_ul_data_page : Z;
  t_sched_info : list thd_sched_info;
  t_thread_brand : option nat;
  t_interrupted : option nat; (* interrupted_thread *)
  t_preempter : option nat; (* preempter_thread *)
  t_upcall_threads : option nat;
  t_pending : Z; (* pending_upcall_requests *)
  t_u_rb : Z;
  t_k_rb : Z;
  t_rb_next : Z;
  t_freelist_next : option nat
}.

Definition set_t_stack_ptr (v : Z) (r : thread) : thread :=
  MkThd v (t_thread_id r) (t_cpu_id r) (t_flags r) (t_regs r) (t_stack r)
    (t_fault_regs r) (t_data_region r) (t_ul_data_page r) (t_sched_info r)
    (t_thread_brand r) (t_interrupted r) (t_preempter r) (t_upcall_threads r)
    (t_pending r) (t_u_rb r) (t_k_rb r) (t_rb_next r) (t_freelist_next r).
Definition set_t_thread_id (v : Z) (r : thread) : thread :=
  MkThd (t_stack_ptr r) v (t_cpu_id r) (t_flags r) (t_regs r) (t_stack r)
    (t_fault_regs r) (t_data_region r) (t_ul_data_page r) (t_sched_info r)
    (t_thread_brand r) (t_interrupted r) (t_preempter r) (t_upcall_threads r)
    (t_pending r) (t_u_rb r) (t_k_rb r) (t_rb_next r) (t_freelist_next r).
Definition set_t_cpu_id (v : Z) (r : thread) : thread :=
  MkThd (t_stack_ptr r) (t_thread_id r) v (t_flags r) (t_regs r) (t_stack r)
    (t_fault_regs r) (t_data_region r) (t_ul_data_page r) (t_sched_info r)
    (t_thread_brand r) (t_interrupted r) (t_preempter r) (t_upcall_threads r)
    (t_pending r) (t_u_rb r) (t_k_rb r) (t_rb_next r) (t_freelist_next r).
Definition set_t_flags (v : Z) (r : thread) : thread :=
  MkThd (t_stack_ptr r) (t_thread_id r) (t_cpu_id r) v (t_regs r) (t_stack r)
    (t_fault_regs r) (t_data_region r) (t_ul_data_page r) (t_sched_info r)
    (t_thread_brand r) (t_interrupted r) (t_preempter r) (t_upcall_threads r)
    (t_pending r) (t_u_rb r) (t_k_rb r) (t_rb_next r) (t_freelist_next r).
Definition set_t_regs (v : pt_regs) (r : thread) : thread :=
  MkThd (t_stack_ptr r) (t_thread_id r) (t_cpu_id r) (t_flags r) v (t_stack r)
    (t_fault_regs r) (t_data_region r) (t_ul_data_page r) (t_sched_info r)
    (t_thread_brand r) (t_interrupted r) (t_preempter r) (t_upcall_threads r)
    (t_pending r) (t_u_rb r) (t_k_rb r) (t_rb_next r) (t_freelist_next r).
Definition set_t_stack (v : list thd_invocation_frame) (r : thread) : thread :=
  MkThd (t_stack_ptr r) (t_thread_id r) (t_cpu_id r) (t_flags r) (t_regs r) v
    (t_fault_regs r) (t_data_region r) (t_ul_data_page r) (t_sched_info r)
    (t_thread_brand r) (t_interrupted r) (t_preempter r) (t_upcall_threads r)
    (t_pending r) (t_u_rb r) (t_k_rb r) (t_rb_next r) (t_freelist_next r).
Definition set_t_fault_regs (v : pt_regs) (r : thread) : thread :=
  MkThd (t_stack_ptr r) (t_thread_id r) (t_cpu_id r) (t_flags r) (t_regs r)
    (t_stack r) v (t_data_region r) (t_ul_data_page r) (t_sched_info r)
    (t_thread_brand r) (t_interrupted r) (t_preempter r) (t_upcall_threads r)
    (t_pending r) (t_u_rb r) (t_k_rb r) (t_rb_next r) (t_freelist_next r).
Definition set_t_data_region (v : Z) (r : thread) : thread :=
  MkThd (t_stack_ptr r) (t_thread_id r) (t_cpu_id r) (t_flags r) (t_regs r)
    (t_stack r) (t_fault_regs r) v (t_ul_data_page r) (t_sched_info r)
    (t_thread_brand r) (t_interrupted r) (t_preempter r) (t_upcall_threads r)
    (t_pending r) (t_u_rb r) (t_k_rb r) (t_rb_next r) (t_freelist_next r).
Definition set_t_ul_data_page (v : Z) (r : thread) : thread :=
  MkThd (t_stack_ptr r) (t_thread_id r) (t_cpu_id r) (t_flags r) (t_regs r)
    (t_stack r) (t_fault_regs r) (t_data_region r) v (t_sched_info r)
    (t_thread_brand r) (t_interrupted r) (t_preempter r) (t_upcall_threads r)
    (t_pending r) (t_u_rb r) (t_k_rb r) (t_rb_next r) (t_freelist_next r).
Definition set_t_sched_info (v : list thd_sched_info) (r : thread) : thread :=
  MkThd (t_stack_ptr r) (t_thread_id r) (t_cpu_id r) (t_flags r) (t_regs r)
    (t_stack r) (t_fault_regs r) (t_data_region r) (t_ul_data_page r) v
    (t_thread_brand r) (t_interrupted r) (t_preempter r) (t_upcall_threads r)
    (t_pending r) (t_u_rb r) (t_k_rb r) (t_rb_next r) (t_freelist_next r).
Definition set_t_thread_brand (v : option nat) (r : thread) : thread :=
  MkThd (t_stack_ptr r) (t_thread_id r) (t_cpu_id r) (t_flags r) (t_regs r)
    (t_stack r) (t_fault_regs r) (t_data_region r) (t_ul_data_page r)
    (t_sched_info r) v (t_interrupted r) (t_preempter r) (t_upcall_threads r)
    (t_pending r) (t_u_rb r) (t_k_rb r) (t_rb_next r) (t_freelist_next r).
Definition set_t_interrupted (v : option nat) (r : thread) : thread :=
  MkThd (t_stack_ptr r) (t_thread_id r) (t_cpu_id r) (t_flags r) (t_regs r)
    (t_stack r) (t_fault_regs r) (t_data_region r) (t_ul_data_page r)
    (t_sched_info r) (t_thread_brand r) v (t_preempter r) (t_upcall_threads r)
    (t_pending r) (t_u_rb r) (t_k_rb r) (t_rb_next r) (t_freelist_next r).
Definition set_t_preempter (v : option nat) (r : thread) : thread :=
  MkThd (t_stack_ptr r) (t_thread_id r) (t_cpu_id r) (t_flags r) (t_regs r)
    (t_stack r) (t_fault_regs r) (t_data_region r) (t_ul_data_page r)
    (t_sched_info r) (t_thread_brand r) (t_interrupted r) v
    (t_upcall_threads r) (t_pending r) (t_u_rb r) (t_k_rb r) (t_rb_next r)
    (t_freelist_next r).
Definition set_t_upcall_threads (v : option nat) (r : thread) : thread :=
  MkThd (t_stack_ptr r) (t_thread_id r) (t_cpu_id r) (t_flags r) (t_regs r)
    (t_stack r) (t_fault_regs r) (t_data_region r) (t_ul_data_page r)
    (t_sched_info r) (t_thread_brand r) (t_interrupted r) (t_preempter r) v
    (t_pending r) (t_u_rb r) (t_k_rb r) (t_rb_next r) (t_freelist_next r).
Definition set_t_pending (v : Z) (r : thread) : thread :=
  MkThd (t_stack_ptr r) (t_thread_id r) (t_cpu_id r) (t_flags r) (t_regs r)
    (t_stack r) (t_fault_regs r) (t_data_region r) (t_ul_data_page r)
    (t_sched_info r) (t_thread_brand r) (t_interrupted r) (t_preempter r)
    (t_upcall_threads r) v (t_u_rb r) (t_k_rb r) (t_rb_next r)
    (t_freelist_next r).
Definition set_t_u_rb (v : Z) (r : thread) : thread :=
  MkThd (t_stack_ptr r) (t_thread_id r) (t_cpu_id r) (t_flags r) (t_regs r)
    (t_stack r) (t_fault_regs r) (t_data_region r) (t_ul_data_page r)
    (t_sched_info r) (t_thread_brand r) (t_interrupted r) (t_preempter r)
    (t_upcall_threads r) (t_pending r) v (t_k_rb r) (t_rb_next r)
    (t_freelist_next r).
Definition set_t_k_rb (v : Z) (r : thread) : thread :=
  MkThd (t_stack_ptr r) (t_thread_id r) (t_cpu_id r) (t_flags r) (t_regs r)
    (t_stack r) (t_fault_regs r) (t_data_region r) (t_ul_data_page r)
    (t_sched_info r) (t_thread_brand r) (t_interrupted r) (t_preempter r)
    (t_upcall_threads r) (t_pending r) (t_u_rb r) v (t_rb_next r)
    (t_freelist_next r).
Definition set_t_rb_next (v : Z) (r : thread) : thread :=
  MkThd (t_stack_ptr r) (t_thread_id r) (t_cpu_id r) (t_flags r) (t_regs r)
    (t_stack r) (t_fault_regs r) (t_data_region r) (t_ul_data_page r)
    (t_sched_info r) (t_thread_brand r) (t_interrupted r) (t_preempter r)
    (t_upcall_threads r) (t_pending r) (t_u_rb r) (t_k_rb r) v
    (t_freelist_next r).
Definition set_t_freelist_next (v : option nat) (r : thread) : thread :=
  MkThd (t_stack_ptr r) (t_thread_id r) (t_cpu_id r) (t_flags r) (t_regs r)
    (t_stack r) (t_fault_regs r) (t_data_region r) (t_ul_data_page r)
    (t_sched_info r) (t_thread_brand r) (t_interrupted r) (t_preempter r)
    (t_upcall_threads r) (t_pending r) (t_u_rb r) (t_k_rb r) (t_rb_next r) v.

(** [struct rb_buff_t]: an entry of a receive ring. *)
Record rb_buff : Type := MkRb {
  b_ptr : Z;
  b_len : Z; (* 16 bits *)
  b_status : Z (* 16 bits *)
}.

Definition set_b_ptr (v : Z) (r : rb_buff) : rb_buff :=
  MkRb v (b_len r) (b_status r).
Definition set_b_len (v : Z) (r : rb_buff) : rb_buff :=
  MkRb (b_ptr r) v (b_status r).
Definition set_b_status (v : Z) (r : rb_buff) : rb_buff :=
  MkRb (b_ptr r) (b_len r) v.

(** [struct cos_brand_info]: a network port and the brand of its packets. *)
Record cos_brand_info : Type := MkBrand {
  bi_port : Z; (* brand_port *)
  bi_brand : option nat
}.

Definition set_bi_port (v : Z) (r : cos_brand_info) : cos_brand_info :=
  MkBrand v (bi_brand r).
Definition set_bi_brand (v : option nat) (r : cos_brand_info) : cos_brand_info :=
  MkBrand (bi_port r) v.

(** ** The state of the kernel

    The file-scope variables of spd.c, thread.c, page_pool.c and mmap.c, and
    the memory those files write: [k_mem] holds, by physical page address, the
    1024 words of the pages used as page tables and of the pages in the page
    pool, [k_ucaps], by address, the entries of the user-level capability
    tables, [k_sdas], by kernel address, the pages schedulers share with the
    kernel, [k_cr3] is the page-table register and [k_host_pgd] the page table
    the host (Linux) has on record for the thread that runs Composite.
    [k_host_free] are the pages the host hands out next, [k_tsc] the next
    readings of the time-stamp counter, and [k_rbs], by kernel address, the
    receive rings components share with the kernel. *)

(** All state of the kernel. *)
Record kstate : Type := MkK {
  k_spds : list spd;
  k_spd_free : option nat; (* spd_freelist_head *)
  k_caps : list invocation_cap; (* invocation_capabilities *)
  k_ucaps : gmap Z usr_inv_cap;
  k_mpds : list composite_spd; (* mpd_descriptors *)
  k_mpd_free : option nat; (* mpd_freelist *)
  k_vas_list : list vas;
  k_num_vases : Z; (* cur_num_vases *)
  k_thds : list thread; (* threads *)
  k_thd_free : option nat; (* thread_freelist_head *)
  k_current : option nat; (* current_thread *)
  k_pool_head : Z; (* page_list_head.next *)
  k_pool_len : Z; (* page_list_len *)
  k_pages : list Z; (* cos_pages *)
  k_mem : gmap Z (list Z);
  k_host_free : list Z;
  k_kern_pgtbl : Z; (* kern_pgtbl_mapping, as a physical address *)
  k_cr3 : Z;
  k_host_pgd : Z; (* composite_thread->mm->pgd, as a physical address *)
  k_shared_region : list Z; (* shared_region_page *)
  k_ud_thread : Z; (* get_shared_data()->current_thread *)
  k_ud_arg : Z; (* get_shared_data()->argument_region *)
  k_sdas : gmap Z cos_sched_data_area;
  k_cycle_cnt : Z; (* cycle_cnt *)
  k_tsc : list Z;
  k_rbs : gmap Z (list rb_buff);
  k_timer_brand : option nat; (* cos_timer_brand_thd *)
  k_notif_brand : option nat; (* cos_upcall_notif_thd *)
  k_active_net : Z; (* active_net_brands *)
  k_net_brand : list cos_brand_info (* cos_net_brand *)
}.

Definition set_k_spds (v : list spd) (r : kstate) : kstate :=
  MkK v (k_spd_free r) (k_caps r) (k_ucaps r) (k_mpds r) (k_mpd_free r)
    (k_vas_list r) (k_num_vases r) (k_thds r) (k_thd_free r) (k_current r)
    (k_pool_head r) (k_pool_len r) (k_pages r) (k_mem r) (k_host_free r)
    (k_kern_pgtbl r) (k_cr3 r) (k_host_pgd r) (k_shared_region r)
    (k_ud_thread r) (k_ud_arg r) (k_sdas r) (k_cycle_cnt r) (k_tsc r)
    (k_rbs r) (k_timer_brand r) (k_notif_brand r) (k_active_net r)
    (k_net_brand r).
Definition set_k_spd_free (v : option nat) (r : kstate) : kstate :=
  MkK (k_spds r) v (k_caps r) (k_ucaps r) (k_mpds r) (k_mpd_free r)
    (k_vas_list r) (k_num_vases r) (k_thds r) (k_thd_free r) (k_current r)
    (k_pool_head r) (k_pool_len r) (k_pages r) (k_mem r) (k_host_free r)
    (k_kern_pgtbl r) (k_cr3 r) (k_host_pgd r) (k_shared_region r)
    (k_ud_thread r) (k_ud_arg r) (k_sdas r) (k_cycle_cnt r) (k_tsc r)
    (k_rbs r) (k_timer_brand r) (k_notif_brand r) (k_active_net r)
    (k_net_brand r).
Definition set_k_caps (v : list invocation_cap) (r : kstate) : kstate :=
  MkK (k_spds r) (k_spd_free r) v (k_ucaps r) (k_mpds r) (k_mpd_free r)
    (k_vas_list r) (k_num_vases r) (k_thds r) (k_thd_free r) (k_current r)
    (k_pool_head r) (k_pool_len r) (k_pages r) (k_mem r) (k_host_free r)
    (k_kern_pgtbl r) (k_cr3 r) (k_host_pgd r) (k_shared_region r)
    (k_ud_thread r) (k_ud_arg r) (k_sdas r) (k_cycle_cnt r) (k_tsc r)
    (k_rbs r) (k_timer_brand r) (k_notif_brand r) (k_active_net r)
    (k_net_brand r).
Definition set_k_ucaps (v : gmap Z usr_inv_cap) (r : kstate) : kstate :=
  MkK (k_spds r) (k_spd_free r) (k_caps r) v (k_mpds r) (k_mpd_free r)
    (k_vas_list r) (k_num_vases r) (k_thds r) (k_thd_free r) (k_current r)
    (k_pool_head r) (k_pool_len r) (k_pages r) (k_mem r) (k_host_free r)
    (k_kern_pgtbl r) (k_cr3 r) (k_host_pgd r) (k_shared_region r)
    (k_ud_thread r) (k_ud_arg r) (k_sdas r) (k_cycle_cnt r) (k_tsc r)
    (k_rbs r) (k_timer_brand r) (k_notif_brand r) (k_active_net r)
    (k_net_brand r).
Definition set_k_mpds (v : list composite_spd) (r : kstate) : kstate :=
  MkK (k_spds r) (k_spd_free r) (k_caps r) (k_ucaps r) v (k_mpd_free r)
    (k_vas_list r) (k_num_vases r) (k_thds r) (k_thd_free r) (k_current r)
    (k_pool_head r) (k_pool_len r) (k_pages r) (k_mem r) (k_host_free r)
    (k_kern_pgtbl r) (k_cr3 r) (k_host_pgd r) (k_shared_region r)
    (k_ud_thread r) (k_ud_arg r) (k_sdas r) (k_cycle_cnt r) (k_tsc r)
    (k_rbs r) (k_timer_brand r) (k_notif_brand r) (k_active_net r)
    (k_net_brand r).
Definition set_k_mpd_free (v : option nat) (r : kstate) : kstate :=
  MkK (k_spds r) (k_spd_free r) (k_caps r) (k_ucaps r) (k_mpds r) v
    (k_vas_list r) (k_num_vases r) (k_thds r) (k_thd_free r) (k_current r)
    (k_pool_head r) (k_pool_len r) (k_pages r) (k_mem r) (k_host_free r)
    (k_kern_pgtbl r) (k_cr3 r) (k_host_pgd r) (k_shared_region r)
    (k_ud_thread r) (k_ud_arg r) (k_sdas r) (k_cycle_cnt r) (k_tsc r)
    (k_rbs r) (k_timer_brand r) (k_notif_brand r) (k_active_net r)
    (k_net_brand r).
Definition set_k_vas_list (v : list vas) (r : kstate) : kstate :=
  MkK (k_spds r) (k_spd_free r) (k_caps r) (k_ucaps r) (k_mpds r)
    (k_mpd_free r) v (k_num_vases r) (k_thds r) (k_thd_free r) (k_current r)
    (k_pool_head r) (k_pool_len r) (k_pages r) (k_mem r) (k_host_free r)
    (k_kern_pgtbl r) (k_cr3 r) (k_host_pgd r) (k_shared_region r)
    (k_ud_thread r) (k_ud_arg r) (k_sdas r) (k_cycle_cnt r) (k_tsc r)
    (k_rbs r) (k_timer_brand r) (k_notif_brand r) (k_active_net r)
    (k_net_brand r).
Definition set_k_num_vases (v : Z) (r : kstate) : kstate :=
  MkK (k_spds r) (k_spd_free r) (k_caps r) (k_ucaps r) (k_mpds r)
    (k_mpd_free r) (k_vas_list r) v (k_thds r) (k_thd_free r) (k_current r)
    (k_pool_head r) (k_pool_len r) (k_pages r) (k_mem r) (k_host_free r)
    (k_kern_pgtbl r) (k_cr3 r) (k_host_pgd r) (k_shared_region r)
    (k_ud_thread r) (k_ud_arg r) (k_sdas r) (k_cycle_cnt r) (k_tsc r)
    (k_rbs r) (k_timer_brand r) (k_notif_brand r) (k_active_net r)
    (k_net_brand r).
Definition set_k_thds (v : list thread) (r : kstate) : kstate :=
  MkK (k_spds r) (k_spd_free r) (k_caps r) (k_ucaps r) (k_mpds r)
    (k_mpd_free r) (k_vas_list r) (k_num_vases r) v (k_thd_free r)
    (k_current r) (k_pool_head r) (k_pool_len r) (k_pages r) (k_mem r)
    (k_host_free r) (k_kern_pgtbl r) (k_cr3 r) (k_host_pgd r)
    (k_shared_region r) (k_ud_thread r) (k_ud_arg r) (k_sdas r)
    (k_cycle_cnt r) (k_tsc r) (k_rbs r) (k_timer_brand r) (k_notif_brand r)
    (k_active_net r) (k_net_brand r).
Definition set_k_thd_free (v : option nat) (r : kstate) : kstate :=
  MkK (k_spds r) (k_spd_free r) (k_caps r) (k_ucaps r) (k_mpds r)
    (k_mpd_free r) (k_vas_list r) (k_num_vases r) (k_thds r) v (k_current r)
    (k_pool_head r) (k_pool_len r) (k_pages r) (k_mem r) (k_host_free r)
    (k_kern_pgtbl r) (k_cr3 r) (k_host_pgd r) (k_shared_region r)
    (k_ud_thread r) (k_ud_arg r) (k_sdas r) (k_cycle_cnt r) (k_tsc r)
    (k_rbs r) (k_timer_brand r) (k_notif_brand r) (k_active_net r)
    (k_net_brand r).
Definition set_k_current (v : option nat) (r : kstate) : kstate :=
  MkK (k_spds r) (k_spd_free r) (k_caps r) (k_ucaps r) (k_mpds r)
    (k_mpd_free r) (k_vas_list r) (k_num_vases r) (k_thds r) (k_thd_free r) v
    (k_pool_head r) (k_pool_len r) (k_pages r) (k_mem r) (k_host_free r)
    (k_kern_pgtbl r) (k_cr3 r) (k_host_pgd r) (k_shared_region r)
    (k_ud_thread r) (k_ud_arg r) (k_sdas r) (k_cycle_cnt r) (k_tsc r)
    (k_rbs r) (k_timer_brand r) (k_notif_brand r) (k_active_net r)
    (k_net_brand r).
Definition set_k_pool_head (v : Z) (r : kstate) : kstate :=
  MkK (k_spds r) (k_spd_free r) (k_caps r) (k_ucaps r) (k_mpds r)
    (k_mpd_free r) (k_vas_list r) (k_num_vases r) (k_thds r) (k_thd_free r)
    (k_current r) v (k_pool_len r) (k_pages r) (k_mem r) (k_host_free r)
    (k_kern_pgtbl r) (k_cr3 r) (k_host_pgd r) (k_shared_region r)
    (k_ud_thread r) (k_ud_arg r) (k_sdas r) (k_cycle_cnt r) (k_tsc r)
    (k_rbs r) (k_timer_brand r) (k_notif_brand r) (k_active_net r)
    (k_net_brand r).
Definition set_k_pool_len (v : Z) (r : kstate) : kstate :=
  MkK (k_spds r) (k_spd_free r) (k_caps r) (k_ucaps r) (k_mpds r)
    (k_mpd_free r) (k_vas_list r) (k_num_vases r) (k_thds r) (k_thd_free r)
    (k_current r) (k_pool_head r) v (k_pages r) (k_mem r) (k_host_free r)
    (k_kern_pgtbl r) (k_cr3 r) (k_host_pgd r) (k_shared_region r)
    (k_ud_thread r) (k_ud_arg r) (k_sdas r) (k_cycle_cnt r) (k_tsc r)
    (k_rbs r) (k_timer_brand r) (k_notif_brand r) (k_active_net r)
    (k_net_brand r).
Definition set_k_pages (v : list Z) (r : kstate) : kstate :=
  MkK (k_spds r) (k_spd_free r) (k_caps r) (k_ucaps r) (k_mpds r)
    (k_mpd_free r) (k_vas_list r) (k_num_vases r) (k_thds r) (k_thd_free r)
    (k_current r) (k_pool_head r) (k_pool_len r) v (k_mem r) (k_host_free r)
    (k_kern_pgtbl r) (k_cr3 r) (k_host_pgd r) (k_shared_region r)
    (k_ud_thread r) (k_ud_arg r) (k_sdas r) (k_cycle_cnt r) (k_tsc r)
    (k_rbs r) (k_timer_brand r) (k_notif_brand r) (k_active_net r)
    (k_net_brand r).
Definition set_k_mem (v : gmap Z (list Z)) (r : kstate) : kstate :=
  MkK (k_spds r) (k_spd_free r) (k_caps r) (k_ucaps r) (k_mpds r)
    (k_mpd_free r) (k_vas_list r) (k_num_vases r) (k_thds r) (k_thd_free r)
    (k_current r) (k_pool_head r) (k_pool_len r) (k_pages r) v (k_host_free r)
    (k_kern_pgtbl r) (k_cr3 r) (k_host_pgd r) (k_shared_region r)
    (k_ud_thread r) (k_ud_arg r) (k_sdas r) (k_cycle_cnt r) (k_tsc r)
    (k_rbs r) (k_timer_brand r) (k_notif_brand r) (k_active_net r)
    (k_net_brand r).
Definition set_k_host_free (v : list Z) (r : kstate) : kstate :=
  MkK (k_spds r) (k_spd_free r) (k_caps r) (k_ucaps r) (k_mpds r)
    (k_mpd_free r) (k_vas_list r) (k_num_vases r) (k_thds r) (k_thd_free r)
    (k_current r) (k_pool_head r) (k_pool_len r) (k_pages r) (k_mem r) v
    (k_kern_pgtbl r) (k_cr3 r) (k_host_pgd r) (k_shared_region r)
    (k_ud_thread r) (k_ud_arg r) (k_sdas r) (k_cycle_cnt r) (k_tsc r)
    (k_rbs r) (k_timer_brand r) (k_notif_brand r) (k_active_net r)
    (k_net_brand r).
Definition set_k_kern_pgtbl (v : Z) (r : kstate) : kstate :=
  MkK (k_spds r) (k_spd_free r) (k_caps r) (k_ucaps r) (k_mpds r)
    (k_mpd_free r) (k_vas_list r) (k_num_vases r) (k_thds r) (k_thd_free r)
    (k_current r) (k_pool_head r) (k_pool_len r) (k_pages r) (k_mem r)
    (k_host_free r) v (k_cr3 r) (k_host_pgd r) (k_shared_region r)
    (k_ud_thread r) (k_ud_arg r) (k_sdas r) (k_cycle_cnt r) (k_tsc r)
    (k_rbs r) (k_timer_brand r) (k_notif_brand r) (k_active_net r)
    (k_net_brand r).
Definition set_k_cr3 (v : Z) (r : kstate) : kstate :=
  MkK (k_spds r) (k_spd_free r) (k_caps r) (k_ucaps r) (k_mpds r)
    (k_mpd_free r) (k_vas_list r) (k_num_vases r) (k_thds r) (k_thd_free r)
    (k_current r) (k_pool_head r) (k_pool_len r) (k_pages r) (k_mem r)
    (k_host_free r) (k_kern_pgtbl r) v (k_host_pgd r) (k_shared_region r)
    (k_ud_thread r) (k_ud_arg r) (k_sdas r) (k_cycle_cnt r) (k_tsc r)
    (k_rbs r) (k_timer_brand r) (k_notif_brand r) (k_active_net r)
    (k_net_brand r).
Definition set_k_host_pgd (v : Z) (r : kstate) : kstate :=
  MkK (k_spds r) (k_spd_free r) (k_caps r) (k_ucaps r) (k_mpds r)
    (k_mpd_free r) (k_vas_list r) (k_num_vases r) (k_thds r) (k_thd_free r)
    (k_current r) (k_pool_head r) (k_pool_len r) (k_pages r) (k_mem r)
    (k_host_free r) (k_kern_pgtbl r) (k_cr3 r) v (k_shared_region r)
    (k_ud_thread r) (k_ud_arg r) (k_sdas r) (k_cycle_cnt r) (k_tsc r)
    (k_rbs r) (k_timer_brand r) (k_notif_brand r) (k_active_net r)
    (k_net_brand r).
Definition set_k_shared_region (v : list Z) (r : kstate) : kstate :=
  MkK (k_spds r) (k_spd_free r) (k_caps r) (k_ucaps r) (k_mpds r)
    (k_mpd_free r) (k_vas_list r) (k_num_vases r) (k_thds r) (k_thd_free r)
    (k_current r) (k_pool_head r) (k_pool_len r) (k_pages r) (k_mem r)
    (k_host_free r) (k_kern_pgtbl r) (k_cr3 r) (k_host_pgd r) v
    (k_ud_thread r) (k_ud_arg r) (k_sdas r) (k_cycle_cnt r) (k_tsc r)
    (k_rbs r) (k_timer_brand r) (k_notif_brand r) (k_active_net r)
    (k_net_brand r).
Definition set_k_ud_thread (v : Z) (r : kstate) : kstate :=
  MkK (k_spds r) (k_spd_free r) (k_caps r) (k_ucaps r) (k_mpds r)
    (k_mpd_free r) (k_vas_list r) (k_num_vases r) (k_thds r) (k_thd_free r)
    (k_current r) (k_pool_head r) (k_pool_len r) (k_pages r) (k_mem r)
    (k_host_free r) (k_kern_pgtbl r) (k_cr3 r) (k_host_pgd r)
    (k_shared_region r) v (k_ud_arg r) (k_sdas r) (k_cycle_cnt r) (k_tsc r)
    (k_rbs r) (k_timer_brand r) (k_notif_brand r) (k_active_net r)
    (k_net_brand r).
Definition set_k_ud_arg (v : Z) (r : kstate) : kstate :=
  MkK (k_spds r) (k_spd_free r) (k_caps r) (k_ucaps r) (k_mpds r)
    (k_mpd_free r) (k_vas_list r) (k_num_vases r) (k_thds r) (k_thd_free r)
    (k_current r) (k_pool_head r) (k_pool_len r) (k_pages r) (k_mem r)
    (k_host_free r) (k_kern_pgtbl r) (k_cr3 r) (k_host_pgd r)
    (k_shared_region r) (k_ud_thread r) v (k_sdas r) (k_cycle_cnt r) (k_tsc r)
    (k_rbs r) (k_timer_brand r) (k_notif_brand r) (k_active_net r)
    (k_net_brand r).
Definition set_k_sdas (v : gmap Z cos_sched_data_area) (r : kstate) : kstate :=
  MkK (k_spds r) (k_spd_free r) (k_caps r) (k_ucaps r) (k_mpds r)
    (k_mpd_free r) (k_vas_list r) (k_num_vases r) (k_thds r) (k_thd_free r)
    (k_current r) (k_pool_head r) (k_pool_len r) (k_pages r) (k_mem r)
    (k_host_free r) (k_kern_pgtbl r) (k_cr3 r) (k_host_pgd r)
    (k_shared_region r) (k_ud_thread r) (k_ud_arg r) v (k_cycle_cnt r)
    (k_tsc r) (k_rbs r) (k_timer_brand r) (k_notif_brand r) (k_active_net r)
    (k_net_brand r).
Definition set_k_cycle_cnt (v : Z) (r : kstate) : kstate :=
  MkK (k_spds r) (k_spd_free r) (k_caps r) (k_ucaps r) (k_mpds r)
    (k_mpd_free r) (k_vas_list r) (k_num_vases r) (k_thds r) (k_thd_free r)
    (k_current r) (k_pool_head r) (k_pool_len r) (k_pages r) (k_mem r)
    (k_host_free r) (k_kern_pgtbl r) (k_cr3 r) (k_host_pgd r)
    (k_shared_region r) (k_ud_thread r) (k_ud_arg r) (k_sdas r) v (k_tsc r)
    (k_rbs r) (k_timer_brand r) (k_notif_brand r) (k_active_net r)
    (k_net_brand r).
Definition set_k_tsc (v : list Z) (r : kstate) : kstate :=
  MkK (k_spds r) (k_spd_free r) (k_caps r) (k_ucaps r) (k_mpds r)
    (k_mpd_free r) (k_vas_list r) (k_num_vases r) (k_thds r) (k_thd_free r)
    (k_current r) (k_pool_head r) (k_pool_len r) (k_pages r) (k_mem r)
    (k_host_free r) (k_kern_pgtbl r) (k_cr3 r) (k_host_pgd r)
    (k_shared_region r) (k_ud_thread r) (k_ud_arg r) (k_sdas r)
    (k_cycle_cnt r) v (k_rbs r) (k_timer_brand r) (k_notif_brand r)
    (k_active_net r) (k_net_brand r).
Definition set_k_rbs (v : gmap Z (list rb_buff)) (r : kstate) : kstate :=
  MkK (k_spds r) (k_spd_free r) (k_caps r) (k_ucaps r) (k_mpds r)
    (k_mpd_free r) (k_vas_list r) (k_num_vases r) (k_thds r) (k_thd_free r)
    (k_current r) (k_pool_head r) (k_pool_len r) (k_pages r) (k_mem r)
    (k_host_free r) (k_kern_pgtbl r) (k_cr3 r) (k_host_pgd r)
    (k_shared_region r) (k_ud_thread r) (k_ud_arg r) (k_sdas r)
    (k_cycle_cnt r) (k_tsc r) v (k_timer_brand r) (k_notif_brand r)
    (k_active_net r) (k_net_brand r).
Definition set_k_timer_brand (v : option nat) (r : kstate) : kstate :=
  MkK (k_spds r) (k_spd_free r) (k_caps r) (k_ucaps r) (k_mpds r)
    (k_mpd_free r) (k_vas_list r) (k_num_vases r) (k_thds r) (k_thd_free r)
    (k_current r) (k_pool_head r) (k_pool_len r) (k_pages r) (k_mem r)
    (k_host_free r) (k_kern_pgtbl r) (k_cr3 r) (k_host_pgd r)
    (k_shared_region r) (k_ud_thread r) (k_ud_arg r) (k_sdas r)
    (k_cycle_cnt r) (k_tsc r) (k_rbs r) v (k_notif_brand r) (k_active_net r)
    (k_net_brand r).
Definition set_k_notif_brand (v : option nat) (r : kstate) : kstate :=
  MkK (k_spds r) (k_spd_free r) (k_caps r) (k_ucaps r) (k_mpds r)
    (k_mpd_free r) (k_vas_list r) (k_num_vases r) (k_thds r) (k_thd_free r)
    (k_current r) (k_pool_head r) (k_pool_len r) (k_pages r) (k_mem r)
    (k_host_free r) (k_kern_pgtbl r) (k_cr3 r) (k_host_pgd r)
    (k_shared_region r) (k_ud_thread r) (k_ud_arg r) (k_sdas r)
    (k_cycle_cnt r) (k_tsc r) (k_rbs r) (k_timer_brand r) v (k_active_net r)
    (k_net_brand r).
Definition set_k_active_net (v : Z) (r : kstate) : kstate :=
  MkK (k_spds r) (k_spd_free r) (k_caps r) (k_ucaps r) (k_mpds r)
    (k_mpd_free r) (k_vas_list r) (k_num_vases r) (k_thds r) (k_thd_free r)
    (k_current r) (k_pool_head r) (k_pool_len r) (k_pages r) (k_mem r)
    (k_host_free r) (k_kern_pgtbl r) (k_cr3 r) (k_host_pgd r)
    (k_shared_region r) (k_ud_thread r) (k_ud_arg r) (k_sdas r)
    (k_cycle_cnt r) (k_tsc r) (k_rbs r) (k_timer_brand r) (k_notif_brand r) v
    (k_net_brand r).
Definition set_k_net_brand (v : list cos_brand_info) (r : kstate) : kstate :=
  MkK (k_spds r) (k_spd_free r) (k_caps r) (k_ucaps r) (k_mpds r)
    (k_mpd_free r) (k_vas_list r) (k_num_vases r) (k_thds r) (k_thd_free r)
    (k_current r) (k_pool_head r) (k_pool_len r) (k_pages r) (k_mem r)
    (k_host_free r) (k_kern_pgtbl r) (k_cr3 r) (k_host_pgd r)
    (k_shared_region r) (k_ud_thread r) (k_ud_arg r) (k_sdas r)
    (k_cycle_cnt r) (k_tsc r) (k_rbs r) (k_timer_brand r) (k_notif_brand r)
    (k_active_net r) v.

(** The kernel's functions. *)
Abbreviation K := (M kstate).

(** ** Access to the arrays *)

Definition get_spd (i : nat) : K spd :=
  l ← gets k_spds; bound (l !! i).
Definition put_spd (i : nat) (x : spd) : K unit :=
  modify (λ s, set_k_spds (<[i := x]> (k_spds s)) s).
Definition upd_spd (i : nat) (f : spd → spd) : K unit :=
  x ← get_spd i; put_spd i (f x).

Definition get_mpd (j : nat) : K composite_spd :=
  l ← gets k_mpds; bound (l !! j).
Definition put_mpd (j : nat) (x : composite_spd) : K unit :=
  modify (λ s, set_k_mpds (<[j := x]> (k_mpds s)) s).
Definition upd_mpd (j : nat) (f : composite_spd → composite_spd) : K unit :=
  x ← get_mpd j; put_mpd j (f x).

Definition get_thd (t : nat) : K thread :=
  l ← gets k_thds; bound (l !! t).
Definition put_thd (t : nat) (x : thread) : K unit :=
  modify (λ s, set_k_thds (<[t := x]> (k_thds s)) s).
Definition upd_thd (t : nat) (f : thread → thread) : K unit :=
  x ← get_thd t; put_thd t (f x).

(** Capabilities are indexed by [int]s that the caller may get wrong. *)
Definition get_cap (c : Z) : K invocation_cap :=
  l ← gets k_caps; bound (l.[c]).
Definition put_cap (c : Z) (x : invocation_cap) : K unit :=
  modify (λ s, set_k_caps ((k_caps s).[c := x]) s).
Definition upd_cap (c : Z) (f : invocation_cap → invocation_cap) : K unit :=
  x ← get_cap c; put_cap c (f x).

(** Through a [struct spd_poly *]. *)
Definition get_poly (p : polyp) : K spd_poly :=
  match p with
  | PolySpd i => x ← get_spd i; mret (s_info x)
  | PolyMpd j => x ← get_mpd j; mret (m_info x)
  end.
Definition upd_poly (p : polyp) (f : spd_poly → spd_poly) : K unit :=
  match p with
  | PolySpd i => upd_spd i (λ x, set_s_info (f (s_info x)) x)
  | PolyMpd j => upd_mpd j (λ x, set_m_info (f (m_info x)) x)
  end.

(** [(struct composite_spd * )p]: the kernel casts a [struct spd_poly *] to a
    composite without a test; the cast is right only for [PolyMpd]. *)
Definition as_mpd (p : polyp) : K nat :=
  match p with PolyMpd j => mret j | PolySpd _ => fail BadCast end.

(** ** The state at load time

    C objects with static storage start as zeros. *)

Definition poly0 : spd_poly := MkPoly 0 0 0.
Definition spd0 : spd :=
  MkSpd poly0 (replicate MAX_SPD_VAS_LOCATIONS (MkLoc 0 0)) (PolySpd 0) 0 0
    (replicate COS_NUM_FAULTS 0%Z) 0 0 0 None 0 0 0 0 0
    (replicate COS_NUM_ATOMIC_SECTIONS 0%Z) None None None None.
Definition mpd0 : composite_spd := MkMpd poly0 None None None None.
Definition stubs0 : usr_cap_stubs := MkStubs 0 0 0 0 0.
Definition cap0 : invocation_cap := MkCap CAP_FREE None 0 0 0 stubs0.
Definition vas0 : vas := MkVas (replicate PGD_PER_PTBL None) 0 0.
Definition frame0 : thd_invocation_frame := MkFrame None None 0 0.
Definition regs0 : pt_regs := MkRegs 0 0 0 0 0 0 0 0 0 0 0 0 0 0 0 0 0.
Definition tsi0 : thd_sched_info := MkTsi None None 0.
Definition thd0 : thread :=
  MkThd 0 0 0 0 regs0 (replicate MAX_SERVICE_DEPTH frame0) regs0 0 0
    (replicate MAX_SCHED_HIER_DEPTH tsi0) None None None None 0 0 0 0 None.
Definition k_zero : kstate :=
  MkK (replicate MAX_NUM_SPDS spd0) None (replicate MAX_STATIC_CAP cap0) ∅
    (replicate MAX_MPD_DESC mpd0) None (replicate MAX_VAS_NUM vas0) 0
    (replicate MAX_NUM_THREADS thd0) None None 0 0
    (replicate COS_MAX_MEMORY 0%Z) ∅ [] 0 0 0 (replicate PGD_PER_PTBL 0%Z) 0 0 ∅ 0 []
    ∅ None None 0 (replicate NUM_NET_BRANDS (MkBrand 0 None)).

(** ** Well-formed array sizes *)

Record sizes_ok (s : kstate) : Prop := {
  sz_spds : length (k_spds s) = MAX_NUM_SPDS;
  sz_caps : length (k_caps s) = MAX_STATIC_CAP;
  sz_mpds : length (k_mpds s) = MAX_MPD_DESC;
  sz_vas : length (k_vas_list s) = MAX_VAS_NUM;
  sz_thds : length (k_thds s) = MAX_NUM_THREADS;
  sz_pages : length (k_pages s) = COS_MAX_MEMORY
}.

(** ** Executions of the accesses *)

Section Access.
Implicit Types (s : kstate).

Lemma get_spd_Done i s x s1 :
  get_spd i s = Done x s1 ↔ k_spds s !! i = Some x ∧ s1 = s.
Proof. unfold get_spd, mbind, M_bind, gets. apply bound_Done. Qed.

Lemma get_mpd_Done j s x s1 :
  get_mpd j s = Done x s1 ↔ k_mpds s !! j = Some x ∧ s1 = s.
Proof. unfold get_mpd, mbind, M_bind, gets. apply bound_Done. Qed.

Lemma get_thd_Done t s x s1 :
  get_thd t s = Done x s1 ↔ k_thds s !! t = Some x ∧ s1 = s.
Proof. unfold get_thd, mbind, M_bind, gets. apply bound_Done. Qed.

Lemma get_cap_Done c s x s1 :
  get_cap c s = Done x s1 ↔ (k_caps s).[c] = Some x ∧ s1 = s.
Proof. unfold get_cap, mbind, M_bind, gets. apply bound_Done. Qed.

Lemma upd_spd_Done i f s u s1 :
  upd_spd i f s = Done u s1 ↔
  ∃ x, k_spds s !! i = Some x ∧ s1 = set_k_spds (<[i := f x]> (k_spds s)) s.
Proof.
  unfold upd_spd. rewrite bind_Done. setoid_rewrite get_spd_Done.
  destruct u. unfold put_spd, modify. naive_solver.
Qed.

Lemma upd_mpd_Done j f s u s1 :
  upd_mpd j f s = Done u s1 ↔
  ∃ x, k_mpds s !! j = Some x ∧ s1 = set_k_mpds (<[j := f x]> (k_mpds s)) s.
Proof.
  unfold upd_mpd. rewrite bind_Done. setoid_rewrite get_mpd_Done.
  destruct u. unfold put_mpd, modify. naive_solver.
Qed.

Lemma upd_thd_Done t f s u s1 :
  upd_thd t f s = Done u s1 ↔
  ∃ x, k_thds s !! t = Some x ∧ s1 = set_k_thds (<[t := f x]> (k_thds s)) s.
Proof.
  unfold upd_thd. rewrite bind_Done. setoid_rewrite get_thd_Done.
  destruct u. unfold put_thd, modify. naive_solver.
Qed.

Lemma upd_cap_Done c f s u s1 :
  upd_cap c f s = Done u s1 ↔
  ∃ x, (k_caps s).[c] = Some x ∧ s1 = set_k_caps ((k_caps s).[c := f x]) s.
Proof.
  unfold upd_cap. rewrite bind_Done. setoid_rewrite get_cap_Done.
  destruct u. unfold put_cap, modify. naive_solver.
Qed.

Lemma get_spd_run i s x : k_spds s !! i = Some x → get_spd i s = Done x s.
Proof. intros H. by apply get_spd_Done. Qed.
Lemma upd_spd_run i f s x :
  k_spds s !! i = Some x → upd_spd i f s = Done tt (set_k_spds (<[i := f x]> (k_spds s)) s).
Proof. intros H. apply upd_spd_Done. eauto. Qed.

Lemma get_mpd_run j s x : k_mpds s !! j = Some x → get_mpd j s = Done x s.
Proof. intros H. by apply get_mpd_Done. Qed.
Lemma upd_mpd_run j f s x :
  k_mpds s !! j = Some x → upd_mpd j f s = Done tt (set_k_mpds (<[j := f x]> (k_mpds s)) s).
Proof. intros H. apply upd_mpd_Done. eauto. Qed.

Lemma get_thd_run t s x : k_thds s !! t = Some x → get_thd t s = Done x s.
Proof. intros H. by apply get_thd_Done. Qed.
Lemma upd_thd_run t f s x :
  k_thds s !! t = Some x → upd_thd t f s = Done tt (set_k_thds (<[t := f x]> (k_thds s)) s).
Proof. intros H. apply upd_thd_Done. eauto. Qed.

Lemma get_cap_run c s x : (k_caps s).[c] = Some x → get_cap c s = Done x s.
Proof. intros H. by apply get_cap_Done. Qed.
Lemma upd_cap_run c f s x :
  (k_caps s).[c] = Some x → upd_cap c f s = Done tt (set_k_caps ((k_caps s).[c := f x]) s).
Proof. intros H. apply upd_cap_Done. eauto. Qed.
End Access.

(** Inversion of kernel runs: [minv] extended with the array accesses. *)
Ltac kinv1 :=
  first
  [ minv1
  | match goal with
    | H : get_spd _ _ = Done _ _ |- _ => apply get_spd_Done in H as [? ?]
    | H : get_mpd _ _ = Done _ _ |- _ => apply get_mpd_Done in H as [? ?]
    | H : get_thd _ _ = Done _ _ |- _ => apply get_thd_Done in H as [? ?]
    | H : get_cap _ _ = Done _ _ |- _ => apply get_cap_Done in H as [? ?]
    | H : upd_spd _ _ _ = Done _ _ |- _ => apply upd_spd_Done in H as (? & ? & ?)
    | H : upd_mpd _ _ _ = Done _ _ |- _ => apply upd_mpd_Done in H as (? & ? & ?)
    | H : upd_thd _ _ _ = Done _ _ |- _ => apply upd_thd_Done in H as (? & ? & ?)
    | H : upd_cap _ _ _ = Done _ _ |- _ => apply upd_cap_Done in H as (? & ? & ?)
    end ].
Ltac kinv := repeat (kinv1; simplify_eq).
