(* ===== verification/Caps.v ===== *)
(** * Invocation capabilities (src/kernel/spd.c)

    The table [invocation_capabilities]: the allocation of ranges of
    capabilities to components, the setters of a capability's stubs and
    destination, its activation, and the change of its isolation level, which
    also writes the user-level half of the capability.  The theorems are the
    first-fit correctness of the range allocator, the disjointness of the
    ranges components hold, and the behaviour of the operations on a
    capability on each of their branches. *)

From stdpp Require Import base list numbers option gmap.
From S2P Require Import Prelude Kern.

(** ** Operations *)

(** [invocation_capabilities[cap_num].owner == CAP_FREE], below the bound. *)
Definition cap_is_free (cap_num : Z) : K bool :=
  if (cap_num <? Z.of_nat MAX_STATIC_CAP)%Z
  then c ← get_cap cap_num; mret (bool_decide (c_owner c = CAP_FREE))
  else mret false.

Definition inv_cap_get (c_num : Z) : K (option Z) :=
  assert (c_num <? Z.of_nat MAX_STATIC_CAP)%Z;;
  c ← get_cap c_num;
  mret (if bool_decide (c_owner c = CAP_FREE) then None else Some c_num).

Definition cap_set_free (cap_num : Z) : K unit :=
  upd_cap cap_num (set_c_owner CAP_FREE).

Definition spd_init_capabilities : K unit :=
  for_range 0 (Z.of_nat MAX_STATIC_CAP) (λ i,
    upd_cap i (set_c_owner CAP_FREE);;
    upd_cap i (set_c_destination None)).

(** The scan of [spd_alloc_capability_range]: [n] entries are left from [i]
    on, and the [range_free] entries before [i] are free. *)
Fixpoint alloc_cap_scan (n : nat) (i range_free range : Z) : K Z :=
  match n with
  | O => mret (-1)%Z
  | S n' =>
      f ← cap_is_free i;
      if (f : bool) then
        let range_free := (range_free + 1)%Z in
        if (range <=? range_free)%Z then
          let start := (i - range_free + 1)%Z in
          for_range start (i + 1) (λ j,
            upd_cap j (set_c_owner CAP_ALLOCATED_UNUSED));;
          mret (i - range_free + 1)%Z
        else alloc_cap_scan n' (i + 1) range_free range
      else alloc_cap_scan n' (i + 1) 0 range
  end.

Definition spd_alloc_capability_range (range : Z) : K Z :=
  alloc_cap_scan MAX_STATIC_CAP 0 0 range.

(** The address of entry [idx] of a user-level capability table: an entry is
    four words. *)
Definition ucap_addr (tbl idx : Z) : Z := u32 (tbl + 16 * idx).

Definition cap_set_usr_cap (uptr inv_fn inv_cnt cap_no : Z) : K unit :=
  modify (λ s,
    set_k_ucaps (<[uptr := MkUcap inv_fn inv_fn inv_cnt cap_no]> (k_ucaps s)) s).

(** The component that owns a capability, dereferenced. *)
Definition owner_spd (o : cap_owner) : K nat :=
  match o with
  | OwnerSpd i => mret i
  | CAP_FREE => fail NullDeref
  | CAP_ALLOCATED_UNUSED => fail BadCast
  end.

Definition cap_get_usr_cap (cap_num : Z) : K (option Z) :=
  f ← cap_is_free cap_num;
  if (f : bool) then mret None else
  c ← get_cap cap_num;
  o ← owner_spd (c_owner c);
  owner ← get_spd o;
  let ucap := (cap_num - s_cap_base owner)%Z in
  assert (ucap <? s_cap_range owner)%Z;;
  mret (Some (ucap_addr (s_user_cap_tbl owner) ucap)).

(** Returns the error code and the value left in [*inv_cnt]. *)
Definition cap_reset_cap_inv_cnt (cap_num inv_cnt : Z) : K (Z * Z) :=
  ucap ← cap_get_usr_cap cap_num;
  match ucap with
  | None => mret (-1, inv_cnt)%Z
  | Some a =>
      cap ← get_cap cap_num;
      m ← gets k_ucaps;
      u ← bound (m !! a);
      let reset : K unit :=
        upd_cap cap_num (set_c_invocation_cnt 0);;
        modify (λ s, set_k_ucaps
          (<[a := set_u_invocation_count 0 u]> (k_ucaps s)) s) in
      if (c_il cap =? IL_SDT)%Z then reset;; mret (0, c_invocation_cnt cap)%Z
      else if (c_il cap =? IL_ST)%Z then reset;; mret (0, u_invocation_count u)%Z
      else if (c_il cap =? IL_AST)%Z then reset;; mret (-1, inv_cnt)%Z
      else reset;; mret (0, inv_cnt)%Z
  end.

Definition cap_change_isolation (cap_num il flags : Z) : K Z :=
  if (Z.of_nat MAX_STATIC_CAP <=? cap_num)%Z then mret IL_INV else
  cap ← get_cap cap_num;
  let prev := c_il cap in
  upd_cap cap_num (set_c_il (il mod 4)%Z);;
  o ← owner_spd (c_owner cap);
  owner ← get_spd o;
  let tbl := if (s_user_cap_tbl owner =? 0)%Z
             then s_user_vaddr_cap_tbl owner else s_user_cap_tbl owner in
  let ucap := ucap_addr tbl (cap_num - s_cap_base owner) in
  let no := if has flags CAP_SAVE_REGS
            then u32 (Z.lor (Z.shiftl cap_num 20) 2147483648)
            else u32 (Z.shiftl cap_num 20) in
  let st := c_stubs cap in
  if (il =? IL_SDT)%Z then
    upd_cap cap_num (set_c_dest_entry (SD_serv_stub st));;
    cap_set_usr_cap ucap (SD_cli_stub st) 0 no;;
    mret prev
  else if (il =? IL_AST)%Z then
    upd_cap cap_num (set_c_dest_entry (AT_serv_stub st));;
    cap_set_usr_cap ucap (AT_cli_stub st) 0 no;;
    mret prev
  else if (il =? IL_ST)%Z then
    upd_cap cap_num (set_c_dest_entry (ST_serv_entry st));;
    cap_set_usr_cap ucap (ST_serv_entry st) 0 no;;
    mret prev
  else mret IL_INV.

Definition spd_release_cap_range (spd : nat) : K Z :=
  x ← get_spd spd;
  for_range (s_cap_base x) (s_cap_base x + s_cap_range x) cap_set_free;;
  mret 0%Z.

Definition spd_reserve_cap_range (spd : nat) (amnt : Z) : K Z :=
  x ← get_spd spd;
  if negb (s_cap_range x =? 0)%Z then mret (-1)%Z else
  ret ← spd_alloc_capability_range (amnt + 1);
  if (ret =? -1)%Z then mret (-1)%Z else
  upd_spd spd (set_s_cap_base (u16 ret));;
  upd_spd spd (set_s_cap_range (u16 (amnt + 1)));;
  mret ret.

Definition spd_get_cap_off (spd : nat) (cap : Z) : K Z :=
  x ← get_spd spd;
  let cap := (cap + 1)%Z in
  if (s_cap_range x <=? cap)%Z then mret (-1)%Z
  else mret (s_cap_base x + cap)%Z.

Definition spd_get_cap (spd : nat) (cap : Z) : K (option Z) :=
  abs_cap ← spd_get_cap_off spd cap;
  mret (if (abs_cap =? -1)%Z then None else Some abs_cap).

(** The body the setters of one field of a capability share. *)
Definition spd_cap_set (spd : nat) (cap : Z)
    (f : invocation_cap → invocation_cap) : K Z :=
  c ← spd_get_cap spd cap;
  match c with
  | None => mret (-1)%Z
  | Some c => upd_cap c f;; mret 0%Z
  end.

Definition spd_cap_set_dest (spd : nat) (cap : Z) (dspd : option nat) : K Z :=
  spd_cap_set spd cap (set_c_destination dspd).
Definition spd_cap_set_cstub (spd : nat) (cap fn : Z) : K Z :=
  spd_cap_set spd cap (λ c, set_c_stubs (set_SD_cli_stub fn (c_stubs c)) c).
Definition spd_cap_set_sstub (spd : nat) (cap fn : Z) : K Z :=
  spd_cap_set spd cap (λ c, set_c_stubs (set_SD_serv_stub fn (c_stubs c)) c).
Definition spd_cap_set_sfn (spd : nat) (cap fn : Z) : K Z :=
  spd_cap_set spd cap (λ c, set_c_stubs (set_ST_serv_entry fn (c_stubs c)) c).

Definition spd_cap_set_fault_handler (spd : nat) (cap handler_num : Z) : K Z :=
  if (Z.of_nat COS_NUM_FAULTS <=? handler_num)%Z then mret (-1)%Z else
  abs ← spd_get_cap_off spd cap;
  if (abs =? -1)%Z then mret (-1)%Z else
  x ← get_spd spd;
  _ ← bound ((s_fault_handler x).[handler_num]);
  upd_spd spd (λ x,
    set_s_fault_handler ((s_fault_handler x).[handler_num := u16 abs]) x);;
  mret 0%Z.

Definition spd_cap_activate (spd : nat) (cap : Z) : K Z :=
  c ← spd_get_cap spd cap;
  match c with
  | None => mret (-1)%Z
  | Some c =>
      upd_cap c (set_c_owner (OwnerSpd spd));;
      upd_cap c (set_c_invocation_cnt 0);;
      x ← get_spd spd;
      r ← cap_change_isolation (s_cap_base x + cap + 1) IL_SDT 0;
      assert (negb (r =? IL_INV)%Z);;
      mret 0%Z
  end.

Definition spd_add_static_cap_extended (owner_spd trusted_spd : option nat)
    (cap_offset ST_serv_entry AT_cli_stub AT_serv_stub SD_cli_stub SD_serv_stub
     isolation_level flags : Z) : K Z :=
  match owner_spd, trusted_spd with
  | Some o, Some d =>
      x ← get_spd o;
      if (s_user_vaddr_cap_tbl x =? 0)%Z then mret 0%Z else
      let cap_offset := (cap_offset + 1)%Z in
      if (s_cap_range x <=? cap_offset)%Z || (MAX_ISOLATION_LVL_VAL <? isolation_level)%Z
      then mret 0%Z else
      let cap_num := (s_cap_base x + cap_offset)%Z in
      new_cap ← get_cap cap_num;
      if negb (bool_decide (c_owner new_cap = CAP_ALLOCATED_UNUSED))
      then mret 0%Z else
      put_cap cap_num
        (MkCap (OwnerSpd o) (Some d) 0 (isolation_level mod 4) ST_serv_entry
           (MkStubs ST_serv_entry SD_cli_stub SD_serv_stub AT_cli_stub AT_serv_stub));;
      r ← cap_change_isolation cap_num isolation_level flags;
      if (r =? IL_INV)%Z then mret 0%Z else mret cap_num
  | None, _ => fail NullDeref (* the error message dereferences owner_spd *)
  | Some _, None => mret 0%Z
  end.

Definition spd_add_static_cap (owner_spd : option nat) (ST_serv_entry : Z)
    (trusted_spd : option nat) (isolation_level : Z) : K Z :=
  spd_add_static_cap_extended owner_spd trusted_spd (-1) ST_serv_entry
    0 0 0 0 isolation_level 0.

(** The loop of [spd_read_reset_invocation_cnt] from capability [i] on, with
    the running total and the last count read. *)
Fixpoint read_reset_scan (n : nat) (i tot cnt : Z) (cspd sspd : nat) : K Z :=
  match n with
  | O => mret tot
  | S n' =>
      cap ← get_cap i;
      assert (bool_decide (c_owner cap = OwnerSpd cspd));;
      if negb (bool_decide (c_destination cap = Some sspd))
      then read_reset_scan n' (i + 1) tot cnt cspd sspd else
      '(err, cnt) ← cap_reset_cap_inv_cnt i cnt;
      if negb (err =? 0)%Z then read_reset_scan n' (i + 1) tot cnt cspd sspd else
      let sum := u32 (tot + cnt) in
      let tot := if (sum <? tot)%Z then u32 (-1) else sum in
      read_reset_scan n' (i + 1) tot cnt cspd sspd
  end.

Definition spd_read_reset_invocation_cnt (cspd sspd : nat) : K Z :=
  x ← get_spd cspd;
  assert (0 <? s_cap_range x)%Z;;
  read_reset_scan (Z.to_nat (s_cap_range x - 1)) (s_cap_base x + 1) 0 0 cspd sspd.

(** ** Reasoning about the table *)

(** Entry [c] exists and is free; all of [b, b + n) are. *)
Definition cap_free_at (s : kstate) (c : Z) : Prop :=
  ∃ x, (k_caps s).[c] = Some x ∧ c_owner x = CAP_FREE.
Definition free_range (s : kstate) (b n : Z) : Prop :=
  ∀ c, (b ≤ c < b + n)%Z → cap_free_at s c.

(** [s'] is [s] with [f] applied to the capabilities [lo, hi). *)
Definition caps_mapped (lo hi : Z) (f : invocation_cap → invocation_cap)
    (s s' : kstate) : Prop :=
  ∃ l, s' = set_k_caps l s ∧ length l = length (k_caps s) ∧
    ∀ c, l.[c] = if decide (lo ≤ c < hi)%Z then f <$> (k_caps s).[c]
                 else (k_caps s).[c].

Lemma set_k_caps_id s : set_k_caps (k_caps s) s = s.
Proof. by destruct s. Qed.

Lemma caps_mapped_nil lo f s : caps_mapped lo lo f s s.
Proof.
  exists (k_caps s). split_and!; [by rewrite set_k_caps_id|done|].
  intros c. rewrite decide_False by lia. done.
Qed.

Lemma caps_mapped_wp lo hi f s :
  (lo ≤ hi)%Z → (0 ≤ lo)%Z → (hi ≤ Z.of_nat (length (k_caps s)))%Z →
  wp (for_range lo hi (λ j, upd_cap j f)) (λ _, caps_mapped lo hi f s) s.
Proof.
  intros Hle H0 Hhi.
  apply (for_range_wp (λ i, caps_mapped lo i f s)); [done|apply caps_mapped_nil|].
  intros i s' Hi (l & -> & Hlen & Hl).
  destruct (zlookup_is_Some l i) as [x Hx]; [lia|].
  unfold wp. rewrite (upd_cap_run i f (set_k_caps l s) x Hx).
  exists (l.[i := f x]). split_and!; [done|by rewrite length_zinsert|].
  intros c. rewrite (zlookup_zinsert _ _ _ _ _ Hx). case_decide as Hc.
  - subst c. rewrite decide_True by lia.
    rewrite Hl, decide_False in Hx by lia. by rewrite Hx.
  - rewrite Hl. by repeat case_decide; try lia.
Qed.

Lemma cap_is_free_run s c x :
  length (k_caps s) = MAX_STATIC_CAP → (k_caps s).[c] = Some x →
  cap_is_free c s = Done (bool_decide (c_owner x = CAP_FREE)) s.
Proof.
  intros Hlen Hx. pose proof (zlookup_lt _ _ _ Hx) as Hb.
  unfold cap_is_free. destruct (Z.ltb_spec c (Z.of_nat MAX_STATIC_CAP)); [|lia].
  by erewrite bind_run by by apply get_cap_run.
Qed.

(** The scan finds the first free range of the wanted size. *)
Definition alloc_post (s : kstate) (range : Z) (r : Z) (s' : kstate) : Prop :=
  (r = -1 ∧ s' = s ∧ ∀ b, ¬ free_range s b range)%Z ∨
  (0 ≤ r ∧ r + range ≤ Z.of_nat MAX_STATIC_CAP ∧ free_range s r range ∧
   (∀ b, free_range s b range → r ≤ b) ∧
   caps_mapped r (r + range) (set_c_owner CAP_ALLOCATED_UNUSED) s s')%Z.

Lemma alloc_cap_scan_wp n i rf range s :
  length (k_caps s) = MAX_STATIC_CAP →
  (i + Z.of_nat n = Z.of_nat MAX_STATIC_CAP)%Z →
  (0 ≤ rf < range)%Z → (rf ≤ i)%Z →
  free_range s (i - rf) rf →
  (∀ b, free_range s b range → i - rf ≤ b)%Z →
  wp (alloc_cap_scan n i rf range) (alloc_post s range) s.
Proof.
  intros Hlen. revert i rf. induction n as [|n IH]; intros i rf Hi Hrf Hri Hfr Hmin.
  - left. split_and!; [done|done|]. intros b Hb.
    pose proof (Hmin b Hb). destruct (Hb (b + range - 1)%Z) as (x & Hx & _); [lia|].
    apply zlookup_lt in Hx. lia.
  - destruct (zlookup_is_Some (k_caps s) i) as [x Hx]; [lia|].
    cbn [alloc_cap_scan]. apply wp_bind. unfold wp at 1.
    rewrite (cap_is_free_run _ _ _ Hlen Hx).
    case_bool_decide as Hfree; cbv zeta.
    + assert (free_range s (i - rf) (rf + 1)) as Hfr'.
      { intros c Hc. destruct (decide (c = i)) as [->|]; [by exists x|].
        apply Hfr. lia. }
      destruct (Z.leb_spec range (rf + 1)) as [Hge|Hlt].
      * assert (rf + 1 = range)%Z as Heq by lia.
        apply wp_bind. eapply wp_mono; [apply caps_mapped_wp; lia|].
        intros ? s' Hm. right.
        replace (i - (rf + 1) + 1)%Z with (i - rf)%Z in * by lia.
        replace (i + 1)%Z with (i - rf + range)%Z in Hm by lia.
        split_and!; [lia|lia|by rewrite <- Heq|done|done].
      * apply IH; [lia|lia|lia| |].
        -- by replace (i + 1 - (rf + 1))%Z with (i - rf)%Z by lia.
        -- intros b Hb. specialize (Hmin b Hb). lia.
    + apply IH; [lia|lia|lia| |].
      * intros c Hc. lia.
      * intros b Hb. pose proof (Hmin b Hb).
        destruct (decide (i + 1 ≤ b)%Z); [lia|exfalso].
        destruct (Hb i) as (y & Hy & Hyf); [lia|]. naive_solver.
Qed.

Lemma spd_alloc_capability_range_wp range s :
  length (k_caps s) = MAX_STATIC_CAP → (1 ≤ range)%Z →
  wp (spd_alloc_capability_range range) (alloc_post s range) s.
Proof.
  intros Hlen Hr. apply alloc_cap_scan_wp; [done|lia|lia|lia| |].
  - intros c Hc. lia.
  - intros b Hb. destruct (Hb b) as (x & Hx & _); [lia|].
    apply zlookup_lt in Hx. lia.
Qed.

(** ** The ranges components hold *)

Definition in_range (x : spd) (c : Z) : Prop :=
  (s_cap_base x ≤ c < s_cap_base x + s_cap_range x)%Z.

(** Every capability in a component's range is taken, and no capability is in
    the ranges of two components. *)
Record cap_ranges_ok (s : kstate) : Prop := {
  cr_taken : ∀ i x c, k_spds s !! i = Some x → in_range x c →
    ∃ y, (k_caps s).[c] = Some y ∧ c_owner y ≠ CAP_FREE;
  cr_disjoint : ∀ i j x y c, i ≠ j →
    k_spds s !! i = Some x → k_spds s !! j = Some y →
    in_range x c → ¬ in_range y c
}.

(** What [spd_reserve_cap_range] promises. *)
Definition reserve_post (s : kstate) (spd : nat) (amnt r : Z) (s' : kstate) : Prop :=
  (r = -1 ∧ s' = s)%Z ∨
  (0 ≤ r ∧ ∃ x, k_spds s !! spd = Some x ∧ s_cap_range x = 0 ∧
   k_spds s' = <[spd := set_s_cap_range (amnt + 1) (set_s_cap_base r x)]> (k_spds s) ∧
   free_range s r (amnt + 1) ∧
   caps_mapped r (r + (amnt + 1)) (set_c_owner CAP_ALLOCATED_UNUSED) s
     (set_k_spds (k_spds s) s'))%Z.

Lemma spd_reserve_cap_range_wp spd x amnt s :
  length (k_caps s) = MAX_STATIC_CAP → k_spds s !! spd = Some x → (0 ≤ amnt)%Z →
  wp (spd_reserve_cap_range spd amnt) (reserve_post s spd amnt) s.
Proof.
  intros Hlen Hx Ha. unfold spd_reserve_cap_range.
  apply wp_bind. unfold wp at 1. rewrite (get_spd_run _ _ _ Hx).
  destruct (Z.eqb_spec (s_cap_range x) 0) as [Hz|]; cbn [negb]; [|by left].
  apply wp_bind. eapply wp_mono; [apply spd_alloc_capability_range_wp; [done|lia]|].
  intros r s1 [(-> & -> & _)|(Hr & Hrm & Hfr & _ & (l & -> & Hll & Hl))].
  { by left. }
  destruct (Z.eqb_spec r (-1)); [lia|].
  assert (u16 r = r ∧ u16 (amnt + 1) = amnt + 1)%Z as [-> ->].
  { unfold MAX_STATIC_CAP in Hrm. split; apply u16_id; lia. }
  apply wp_Done. eexists r, _. split.
  { erewrite bind_run by (by apply upd_spd_run).
    erewrite bind_run; [reflexivity|]. apply upd_spd_run.
    apply list_lookup_insert_eq. by eapply lookup_lt_Some. }
  right. split; [done|]. exists x. split_and!; [done|done| |done|].
  - cbn. by rewrite list_insert_insert_eq.
  - exists l. by destruct s.
Qed.

Lemma reserve_ranges_ok s spd amnt r s' :
  cap_ranges_ok s → (0 ≤ amnt)%Z → reserve_post s spd amnt r s' → cap_ranges_ok s'.
Proof.
  intros [Ht Hd] Ha [(-> & ->)|(Hr & x & Hx & Hz & Hs & Hfr & (l & Heq & _ & Hl))];
    [by split|].
  pose proof (f_equal k_caps Heq) as Hc. cbn in Hc.
  assert (∀ i y c, k_spds s' !! i = Some y → in_range y c →
      (i = spd ∧ r ≤ c < r + (amnt + 1))%Z ∨
      (i ≠ spd ∧ k_spds s !! i = Some y ∧ ¬ (r ≤ c < r + (amnt + 1)))%Z) as Hcase.
  { intros i y c Hy Hin. rewrite Hs in Hy. destruct (decide (i = spd)) as [->|Hne].
    - left. rewrite list_lookup_insert_eq in Hy by (by eapply lookup_lt_Some).
      simplify_eq. unfold in_range in Hin. cbn in Hin. done.
    - right. rewrite list_lookup_insert_ne in Hy by done.
      split_and!; [done|done|]. intros Hc'.
      destruct (Hfr c Hc') as (z & Hz1 & Hz2).
      destruct (Ht _ _ _ Hy Hin) as (z' & Hz1' & Hz2'). naive_solver. }
  split.
  - intros i y c Hy Hin. rewrite Hc, Hl.
    destruct (Hcase i y c Hy Hin) as [[-> Hc']|(Hne & Hy' & Hnc)].
    + rewrite decide_True by done. destruct (Hfr c Hc') as (z & -> & _). by eexists.
    + rewrite decide_False by done. eauto.
  - intros i j y z c Hij Hy Hz' Hiy Hiz.
    destruct (Hcase i y c Hy Hiy), (Hcase j z c Hz' Hiz); naive_solver.
Qed.

(** C38. The allocator of capability ranges is first fit: it returns, with the
    index of the lowest range of [range] free capabilities, all of which it
    marks allocated leaving every other entry alone, or with -1 and the table
    unchanged exactly when the table has no such range. *)
Theorem alloc_range_first_fit range s :
  length (k_caps s) = MAX_STATIC_CAP → (1 ≤ range)%Z →
  ∃ r s', spd_alloc_capability_range range s = Done r s' ∧ alloc_post s range r s'.
Proof. intros Hl Hr. by apply wp_Done, spd_alloc_capability_range_wp. Qed.

Lemma alloc_range_first_fit_witness :
  ∃ r s', spd_alloc_capability_range 3 k_zero = Done r s' ∧ alloc_post k_zero 3 r s'.
Proof. apply (alloc_range_first_fit 3 k_zero); [reflexivity|lia]. Defined.

(** Reserving capabilities keeps the components' ranges disjoint and made
    of taken capabilities, whatever the outcome; on failure nothing changes,
    and on success the component holds exactly the range it asked for, plus
    the entry of the return capability. *)
Theorem reserve_keeps_ranges spd x amnt s :
  sizes_ok s → cap_ranges_ok s → k_spds s !! spd = Some x → (0 ≤ amnt)%Z →
  ∃ r s', spd_reserve_cap_range spd amnt s = Done r s' ∧ cap_ranges_ok s' ∧
    reserve_post s spd amnt r s'.
Proof.
  intros Hsz Hok Hx Ha.
  destruct (proj1 (wp_Done _ _ _)
    (spd_reserve_cap_range_wp spd x amnt s (sz_caps _ Hsz) Hx Ha)) as (r & s' & Hr & Hp).
  exists r, s'. split_and!; [done| |done]. by eapply reserve_ranges_ok.
Qed.

Lemma k_zero_sizes : sizes_ok k_zero.
Proof. by split. Qed.

Lemma k_zero_cap_ranges : cap_ranges_ok k_zero.
Proof.
  split.
  - intros i x c Hx Hin. apply lookup_replicate in Hx as [-> _].
    unfold in_range in Hin. cbn in Hin. lia.
  - intros i j x y c _ Hx _ Hin. apply lookup_replicate in Hx as [-> _].
    unfold in_range in Hin. cbn in Hin. lia.
Qed.

Lemma reserve_keeps_ranges_witness :
  ∃ r s', spd_reserve_cap_range 5 4 k_zero = Done r s' ∧ cap_ranges_ok s' ∧
    reserve_post k_zero 5 4 r s'.
Proof.
  apply (reserve_keeps_ranges 5 spd0 4 k_zero);
    [apply k_zero_sizes|apply k_zero_cap_ranges|reflexivity|lia].
Defined.

(** ** Change of isolation level *)

(** The entry instruction and the user-level entry point of each level. *)
Definition il_stubs (il : Z) (st : usr_cap_stubs) : option (Z * Z) :=
  if (il =? IL_SDT)%Z then Some (SD_serv_stub st, SD_cli_stub st)
  else if (il =? IL_AST)%Z then Some (AT_serv_stub st, AT_cli_stub st)
  else if (il =? IL_ST)%Z then Some (ST_serv_entry st, ST_serv_entry st)
  else None.

(** The address of the user-level half of capability [c] of component [x]. *)
Definition ucap_of (x : spd) (c : Z) : Z :=
  ucap_addr (if (s_user_cap_tbl x =? 0)%Z then s_user_vaddr_cap_tbl x
             else s_user_cap_tbl x) (c - s_cap_base x).

(** The effect of a change to a valid level. *)
Definition il_changed (c il : Z) (entry fn : Z) (cap : invocation_cap) (x : spd)
    (no : Z) (s : kstate) : kstate :=
  set_k_ucaps (<[ucap_of x c := MkUcap fn fn 0 no]> (k_ucaps s))
    (set_k_caps ((k_caps s).[c := set_c_dest_entry entry (set_c_il il cap)]) s).

Lemma cap_change_isolation_run c il flags s cap o x entry fn :
  (c < Z.of_nat MAX_STATIC_CAP)%Z → (k_caps s).[c] = Some cap →
  c_owner cap = OwnerSpd o → k_spds s !! o = Some x →
  il_stubs il (c_stubs cap) = Some (entry, fn) →
  cap_change_isolation c il flags s =
    Done (c_il cap)
      (il_changed c il entry fn cap x
         (if has flags CAP_SAVE_REGS
          then u32 (Z.lor (Z.shiftl c 20) 2147483648)
          else u32 (Z.shiftl c 20)) s).
Proof.
  intros Hc Hcap Ho Hx Hst. unfold cap_change_isolation.
  destruct (Z.leb_spec (Z.of_nat MAX_STATIC_CAP) c); [lia|].
  rewrite (bind_run _ _ _ _ _ (get_cap_run _ _ _ Hcap)).
  rewrite (bind_run _ _ _ _ _ (upd_cap_run _ _ _ _ Hcap)), Ho. cbn [owner_spd].
  erewrite bind_run by reflexivity.
  erewrite bind_run by (apply get_spd_run; cbn; exact Hx). cbv zeta.
  assert ((il mod 4)%Z = il) as ->.
  { unfold il_stubs in Hst. repeat case_match; simplify_eq;
      rewrite ?Z.eqb_eq in *; subst; reflexivity. }
  unfold il_stubs in Hst. unfold il_changed, ucap_of.
  repeat case_match; simplify_eq;
    (erewrite bind_run by (apply upd_cap_run; cbn; by eapply zlookup_zinsert_eq));
    cbn; unfold mret, M_ret, cap_set_usr_cap, modify, mbind, M_bind; cbn;
    by rewrite zinsert_zinsert.
Qed.

Lemma cap_change_isolation_frame c il flags s r s' :
  cap_change_isolation c il flags s = Done r s' →
  k_spds s' = k_spds s ∧ ∀ d, d ≠ c → (k_caps s').[d] = (k_caps s).[d].
Proof.
  unfold cap_change_isolation. case_match; [intros; by minv|].
  intros Hr. kinv. destruct (c_owner a) as [| |o]; cbn [owner_spd] in *; kinv.
  repeat case_match; unfold cap_set_usr_cap in *; kinv; cbn;
    (split; [done|]); intros d Hd; by rewrite ?zlookup_zinsert_ne by done.
Qed.

(** Adding a static capability never touches a capability that is free or
    already in use: whatever the arguments, and on the error paths too, only
    an entry that was reserved and unused can change, and no component does. *)
Theorem add_static_cap_no_overwrite o d off st ac asv sc ss il flags s r s' :
  spd_add_static_cap_extended o d off st ac asv sc ss il flags s = Done r s' →
  k_spds s' = k_spds s ∧
  ∀ c y, (k_caps s).[c] = Some y → c_owner y ≠ CAP_ALLOCATED_UNUSED →
         (k_caps s').[c] = Some y.
Proof.
  unfold spd_add_static_cap_extended. intros Hr.
  destruct o as [o|]; [|done]. destruct d as [d|]; [|by kinv].
  kinv. case_match; [by kinv|]. cbv zeta in Hr. case_match; [by kinv|].
  kinv. case_match eqn:Hun; [by kinv|]. unfold put_cap in Hr. kinv.
  apply negb_false_iff, bool_decide_eq_true in Hun.
  match goal with H : cap_change_isolation _ _ _ _ = Done _ ?s1 |- _ =>
    apply cap_change_isolation_frame in H as [Hs Hc]; cbn in Hs, Hc;
    assert (s' = s1) as -> by (case_match; by kinv) end.
  split; [done|]. intros c y Hy Hne.
  destruct (decide (c = s_cap_base a + (off + 1))%Z) as [->|Hd]; [congruence|].
  by rewrite Hc, zlookup_zinsert_ne by done.
Qed.

Lemma add_static_cap_run o d x y off st ac asv sc ss il flags entry fn s :
  k_spds s !! o = Some x → s_user_vaddr_cap_tbl x ≠ 0%Z →
  (off + 1 < s_cap_range x)%Z →
  let c := (s_cap_base x + (off + 1))%Z in
  (c < Z.of_nat MAX_STATIC_CAP)%Z → (k_caps s).[c] = Some y →
  c_owner y = CAP_ALLOCATED_UNUSED → has flags CAP_SAVE_REGS = false →
  let stubs := MkStubs st sc ss ac asv in
  il_stubs il stubs = Some (entry, fn) →
  spd_add_static_cap_extended (Some o) (Some d) off st ac asv sc ss il flags s =
    Done c (set_k_ucaps (<[ucap_of x c := MkUcap fn fn 0 (u32 (Z.shiftl c 20))]> (k_ucaps s))
      (set_k_caps ((k_caps s).[c := MkCap (OwnerSpd o) (Some d) 0 il entry stubs]) s)).
Proof.
  intros Hx Ht Hoff c Hc Hy Hyo Hfl stubs Hst.
  assert (il ≤ MAX_ISOLATION_LVL_VAL ∧ il mod 4 = il ∧ il ≠ IL_INV)%Z as (Hil & Hmod & Hinv).
  { unfold il_stubs in Hst. repeat case_match; simplify_eq;
      rewrite ?Z.eqb_eq in *; subst; split_and!; (reflexivity || done || lia). }
  unfold spd_add_static_cap_extended.
  rewrite (bind_run _ _ _ _ _ (get_spd_run _ _ _ Hx)).
  rewrite (proj2 (Z.eqb_neq _ _) Ht). cbv zeta. fold c.
  rewrite (proj2 (Z.leb_gt _ _) Hoff), (proj2 (Z.ltb_ge _ _) Hil). cbn [orb].
  rewrite (bind_run _ _ _ _ _ (get_cap_run _ _ _ Hy)).
  rewrite bool_decide_eq_true_2 by done. cbn [negb].
  erewrite bind_run by (unfold put_cap, modify; reflexivity).
  erewrite bind_run.
  2: { eapply cap_change_isolation_run;
       [done|cbn; by eapply zlookup_zinsert_eq|done|exact Hx|exact Hst]. }
  cbn [c_il]. rewrite Hmod, Hfl, (proj2 (Z.eqb_neq _ _) Hinv).
  unfold il_changed, mret, M_ret, ucap_of. cbn. by rewrite zinsert_zinsert.
Qed.

(** On its success path the same function installs exactly the requested
    capability: owner, destination, isolation level and stubs, the entry
    instruction of that level, and the user-level entry with the capability's
    number in its top twelve bits; the result is the capability's number. *)
Theorem add_static_cap_installs o d x y off st ac asv sc ss il flags entry fn s :
  k_spds s !! o = Some x → s_user_vaddr_cap_tbl x ≠ 0%Z →
  (off + 1 < s_cap_range x)%Z →
  let c := (s_cap_base x + (off + 1))%Z in
  (c < Z.of_nat MAX_STATIC_CAP)%Z → (k_caps s).[c] = Some y →
  c_owner y = CAP_ALLOCATED_UNUSED → has flags CAP_SAVE_REGS = false →
  let stubs := MkStubs st sc ss ac asv in
  il_stubs il stubs = Some (entry, fn) →
  spd_add_static_cap_extended (Some o) (Some d) off st ac asv sc ss il flags s =
    Done c (set_k_ucaps (<[ucap_of x c := MkUcap fn fn 0 (u32 (Z.shiftl c 20))]> (k_ucaps s))
      (set_k_caps ((k_caps s).[c := MkCap (OwnerSpd o) (Some d) 0 il entry stubs]) s)).
Proof. apply add_static_cap_run. Qed.

(** A component with three reserved capabilities. *)
Definition demo_spd : spd :=
  set_s_cap_range 3 (set_s_cap_base 4 (set_s_user_vaddr_cap_tbl 1073741824 spd0)).
Definition demo_state : kstate :=
  set_k_spds (<[2 := demo_spd]> (k_spds k_zero))
    (set_k_caps (replicate MAX_STATIC_CAP (set_c_owner CAP_ALLOCATED_UNUSED cap0)) k_zero).

Lemma add_static_cap_installs_witness :
  spd_add_static_cap_extended (Some 2) (Some 7) 1 100 200 300 400 500 IL_SDT 0 demo_state =
    Done 6%Z
      (set_k_ucaps (<[ucap_of demo_spd 6 := MkUcap 400 400 0 6291456]> (k_ucaps demo_state))
        (set_k_caps ((k_caps demo_state).[6 := MkCap (OwnerSpd 2) (Some 7) 0 IL_SDT 500
             (MkStubs 100 400 500 200 300)]) demo_state)).
Proof.
  apply (add_static_cap_installs 2 7 demo_spd (set_c_owner CAP_ALLOCATED_UNUSED cap0)
           1 100 200 300 400 500 IL_SDT 0 500 400 demo_state);
    first [reflexivity | vm_compute; done].
Defined.

Lemma demo_add_run :
  spd_add_static_cap_extended (Some 2) (Some 7) 1 100 200 300 400 500 IL_SDT 0 demo_state =
    Done 6%Z
      (set_k_ucaps (<[ucap_of demo_spd 6 := MkUcap 400 400 0 6291456]> (k_ucaps demo_state))
        (set_k_caps ((k_caps demo_state).[6 := MkCap (OwnerSpd 2) (Some 7) 0 IL_SDT 500
             (MkStubs 100 400 500 200 300)]) demo_state)).
Proof.
  apply (add_static_cap_run 2 7 demo_spd (set_c_owner CAP_ALLOCATED_UNUSED cap0)
           1 100 200 300 400 500 IL_SDT 0 500 400 demo_state);
    first [reflexivity | vm_compute; done].
Qed.

Lemma add_static_cap_no_overwrite_witness :
  ∃ r s', spd_add_static_cap_extended (Some 2) (Some 7) 1 100 200 300 400 500 IL_SDT 0
            demo_state = Done r s' ∧ k_spds s' = k_spds demo_state.
Proof.
  do 2 eexists. split; [apply demo_add_run|].
  eapply (add_static_cap_no_overwrite (Some 2) (Some 7) 1 100 200 300 400 500 IL_SDT 0
            demo_state).
  apply demo_add_run.
Defined.

(** ** Capability ranges across release and bad requests *)

(** [spd_release_cap_range] frees the capabilities but leaves [cap_base] and
    [cap_range] in the component. *)
Lemma spd_release_cap_range_wp i x s :
  k_spds s !! i = Some x → (0 ≤ s_cap_base x)%Z → (0 ≤ s_cap_range x)%Z →
  (s_cap_base x + s_cap_range x ≤ Z.of_nat (length (k_caps s)))%Z →
  wp (spd_release_cap_range i)
    (λ r s', r = 0%Z ∧ caps_mapped (s_cap_base x) (s_cap_base x + s_cap_range x)
                         (set_c_owner CAP_FREE) s s') s.
Proof.
  intros Hx Hb Hr Hle. unfold spd_release_cap_range.
  apply wp_bind. unfold wp at 1. rewrite (get_spd_run _ _ _ Hx).
  apply wp_bind. eapply wp_mono; [by apply caps_mapped_wp; [lia| |]|].
  intros ? s' Hm. unfold wp, mret, M_ret. done.
Qed.

(** A component that releases its capabilities keeps their range: the
    capabilities are free afterwards, the component's base and length are not
    reset, and so the invariant that ranges are made of taken capabilities,
    which [spd_reserve_cap_range] relies on to hand out disjoint ranges, is
    lost. *)
Theorem release_keeps_stale_range i x s :
  sizes_ok s → cap_ranges_ok s → k_spds s !! i = Some x →
  (0 ≤ s_cap_base x)%Z → (0 < s_cap_range x)%Z →
  ∃ s', spd_release_cap_range i s = Done 0%Z s' ∧ k_spds s' !! i = Some x ∧
    free_range s' (s_cap_base x) (s_cap_range x) ∧ ¬ cap_ranges_ok s'.
Proof.
  intros Hsz [Ht Hd] Hx Hb Hr.
  destruct (Ht i x (s_cap_base x + s_cap_range x - 1)%Z Hx) as (y & Hy & _).
  { unfold in_range. lia. }
  pose proof (zlookup_lt _ _ _ Hy) as Hlt.
  destruct (proj1 (wp_Done _ _ _) (spd_release_cap_range_wp i x s Hx Hb ltac:(lia) ltac:(lia)))
    as (r & s' & Hrun & -> & (l & -> & Hlen & Hl)).
  assert (free_range (set_k_caps l s) (s_cap_base x) (s_cap_range x)) as Hfree.
  { intros c Hc. destruct (Ht i x c Hx) as (z & Hz & _); [done|].
    exists (set_c_owner CAP_FREE z). cbn. by rewrite Hl, decide_True, Hz. }
  exists (set_k_caps l s). split_and!; [done|done|done|].
  intros [Ht' _]. destruct (Ht' i x (s_cap_base x) Hx) as (z & Hz & Hzo).
  { unfold in_range. lia. }
  destruct (Hfree (s_cap_base x)) as (z' & Hz' & Hzo'); [lia|]. naive_solver.
Qed.

(** Component 0 reserves and releases, component 1 reserves, and component 0
    redirects one of "its" capabilities, which is component 1's now. *)
Definition stale_range_run : K Z :=
  _ ← spd_reserve_cap_range 0 3;
  _ ← spd_release_cap_range 0;
  _ ← spd_reserve_cap_range 1 3;
  spd_cap_set_dest 0 0 (Some 9).

(** With the stale range, a component reaches into another component's
    capabilities: after reserve, release and a reserve by a second component,
    the first component's setter succeeds and changes the destination of a
    capability that is in the second one's range. *)
Theorem stale_range_aliases :
  ∃ s' x y, stale_range_run k_zero = Done 0%Z s' ∧
    k_spds s' !! 0 = Some x ∧ k_spds s' !! 1 = Some y ∧
    in_range x 1 ∧ in_range y 1 ∧
    c_destination <$> (k_caps s').[1] = Some (Some 9).
Proof.
  do 3 eexists. split; [vm_compute; reflexivity|]. vm_compute.
  split_and!; try reflexivity; done.
Qed.

(** A negative number of capabilities is accepted and gives the component
    a range of almost 2^16 capabilities, far larger than the table: a request
    for -5 succeeds, and the setters then index the table out of bounds. *)
Theorem reserve_negative_escapes :
  ∃ s' x, spd_reserve_cap_range 0 (-5) k_zero = Done 0%Z s' ∧
    k_spds s' !! 0 = Some x ∧ s_cap_range x = 65532%Z ∧
    spd_cap_set_dest 0 2000 (Some 9) s' = Fault OutOfBounds.
Proof.
  do 2 eexists. split; [vm_compute; reflexivity|]. vm_compute.
  split_and!; reflexivity.
Qed.

Lemma demo_sizes : sizes_ok demo_state.
Proof. by split. Qed.

Lemma demo_lookup i x :
  k_spds demo_state !! i = Some x → (i = 2 ∧ x = demo_spd) ∨ x = spd0.
Proof.
  intros Hx. apply list_lookup_insert_Some in Hx as [(-> & -> & _)|[_ Hx]];
    [by left|]. right. by apply lookup_replicate in Hx as [-> _].
Qed.

Lemma demo_cap_ranges : cap_ranges_ok demo_state.
Proof.
  assert (∀ c, ¬ in_range spd0 c) as H0 by (intros c; unfold in_range; cbn; lia).
  split.
  - intros i x c [(-> & ->)| ->]%demo_lookup Hin; [|by destruct (H0 c)].
    unfold in_range in Hin. cbn in Hin.
    exists (set_c_owner CAP_ALLOCATED_UNUSED cap0). split; [|done].
    apply zlookup_Some. split; [lia|]. apply lookup_replicate.
    split; [done|]. unfold MAX_STATIC_CAP. lia.
  - intros i j x y c Hij [(-> & ->)| ->]%demo_lookup [(-> & ->)| ->]%demo_lookup Hx Hy;
      (done || by eapply H0).
Qed.

Lemma release_keeps_stale_range_witness :
  ∃ s', spd_release_cap_range 2 demo_state = Done 0%Z s' ∧
    k_spds s' !! 2 = Some demo_spd ∧
    free_range s' 4 3 ∧ ¬ cap_ranges_ok s'.
Proof.
  apply (release_keeps_stale_range 2 demo_spd demo_state);
    [apply demo_sizes|apply demo_cap_ranges|reflexivity|done|done].
Defined.
