(* ===== verification/PageMem.v ===== *)
(** * Pages and page tables

    The pool of free pages (src/kernel/page_pool.c), the table of physical
    memory pages named by user-level memory capabilities (src/kernel/mmap.c)
    and the page-table operations of the Linux module
    (src/platform/linux/module/hijack.c) on the 32-bit two-level page tables.

    The pool is a linked list threaded through the first word of its pages, so
    a page that is put into the pool loses its first entry; the model keeps the
    words of every page in [k_mem].  Memory the host has taken back is not in
    [k_mem], and touching it is a fault.  The theorems: the pool is a stack of
    distinct pages whose length counter is right, a page table is copied and
    cleared entry by entry, a mapping that is added can be looked up and is
    handed back when it is removed. *)

From stdpp Require Import base list numbers option gmap.
From S2P Require Import Prelude Kern.

(** ** Words of pages *)

Definition va_to_pa (va : Z) : Z := u32 (va - KERN_BASE_ADDR).
Definition pa_to_va (pa : Z) : Z := u32 (pa + KERN_BASE_ADDR).

Definition get_page (pa : Z) : K (list Z) :=
  m ← gets k_mem; bound (m !! pa).
Definition put_page (pa : Z) (p : list Z) : K unit :=
  modify (λ s, set_k_mem (<[pa := p]> (k_mem s)) s).
Definition get_word (pa idx : Z) : K Z :=
  p ← get_page pa; bound (p.[idx]).
Definition put_word (pa idx w : Z) : K unit :=
  p ← get_page pa; _ ← bound (p.[idx]); put_page pa (p.[idx := w]).

(** [page->next] of a [struct page_list *]. *)
Definition page_next (page : Z) : K Z :=
  if (page =? 0)%Z then fail NullDeref else get_word (va_to_pa page) 0.
Definition set_page_next (page next : Z) : K unit :=
  if (page =? 0)%Z then fail NullDeref else put_word (va_to_pa page) 0 next.

(** ** Pages of the host

    [__get_free_pages] hands out the pages of [k_host_free] and fails ([NULL])
    when there are none; [cos_alloc_page] clears the page without a test. *)

Definition cos_alloc_page : K Z :=
  h ← gets k_host_free;
  match h with
  | [] => fail NullDeref (* memset(NULL, 0, PAGE_SIZE) *)
  | page :: rest =>
      modify (set_k_host_free rest);;
      put_page (va_to_pa page) (replicate PGD_PER_PTBL 0%Z);;
      mret page
  end.

Definition cos_free_page (page : Z) : K unit :=
  modify (λ s, set_k_mem (delete (va_to_pa page) (k_mem s)) s).

(** ** page_pool.c *)

Definition cos_get_pg_pool : K Z :=
  head ← gets k_pool_head;
  if (head =? 0)%Z then
    page ← cos_alloc_page;
    mret page
  else
    next ← page_next head;
    modify (set_k_pool_head next);;
    modify (λ s, set_k_pool_len (u32 (k_pool_len s - 1)) s);;
    set_page_next head 0;;
    mret head.

Definition cos_put_pg_pool (page : Z) : K unit :=
  head ← gets k_pool_head;
  set_page_next page head;;
  modify (set_k_pool_head page);;
  modify (λ s, set_k_pool_len (u32 (k_pool_len s + 1)) s);;
  len ← gets k_pool_len;
  assert (len <? 1024)%Z.

(** The [while] of [clear_pg_pool], with fuel. *)
Fixpoint clear_pool_loop (fuel : nat) (pg : Z) : K unit :=
  if (pg =? 0)%Z then mret tt else
  match fuel with
  | O => fail NoFuel
  | S fuel' =>
      next ← page_next pg;
      cos_free_page pg;;
      clear_pool_loop fuel' next
  end.

Definition clear_pg_pool : K unit :=
  pg ← gets k_pool_head; clear_pool_loop 1024 pg.

(** ** mmap.c *)

Definition cos_init_memory : K unit :=
  for_range 0 (Z.of_nat COS_MAX_MEMORY) (λ i,
    modify (λ s, set_k_pages ((k_pages s).[i := 0%Z]) s)).

Definition cos_shutdown_memory : K unit :=
  for_range 0 (Z.of_nat COS_MAX_MEMORY) (λ i,
    l ← gets k_pages;
    addr ← bound (l.[i]);
    when (negb (addr =? 0)%Z) (cos_free_page (pa_to_va addr))).

Fixpoint paddr_scan (l : list Z) (i pa : Z) : Z :=
  match l with
  | [] => 0
  | a :: l => if (a =? pa)%Z then i else paddr_scan l (i + 1) pa
  end.

Definition cos_paddr_to_cap (pa : Z) : K Z :=
  l ← gets k_pages; mret (paddr_scan l 0 pa).

Definition cos_access_page (cap_no : Z) : K Z :=
  if (Z.of_nat COS_MAX_MEMORY <? cap_no)%Z then mret 0%Z else
  l ← gets k_pages;
  addr ← bound (l.[cap_no]);
  if (addr =? 0)%Z then
    r ← cos_alloc_page;
    let pa := va_to_pa r in
    modify (λ s, set_k_pages ((k_pages s).[cap_no := pa]) s);;
    mret pa
  else mret addr.

(** ** Page tables (hijack.c) *)

Definition PTE_MASK (w : Z) : Z := Z.ldiff w 4095.
Definition PG_PRESENT : Z := 1.
Definition PG_PSE : Z := 128.
(** [_PAGE_PRESENT | _PAGE_RW | _PAGE_USER | _PAGE_ACCESSED] *)
Definition PG_USER_RW : Z := 39.

Definition pgd_index (addr : Z) : Z := Z.land (Z.shiftr addr 22) 1023.
Definition pte_index (addr : Z) : Z := Z.land (Z.shiftr addr 12) 1023.

(** A [pte_t *]: the page and the word in it. *)
Definition pgtbl_lookup_address (pgtbl addr : Z) : K (option (Z * Z)) :=
  w ← get_word pgtbl (pgd_index addr);
  if (w =? 0)%Z then mret None
  else if has w PG_PSE && has w PG_PRESENT
  then mret (Some (pgtbl, pgd_index addr))
  else mret (Some (PTE_MASK w, pte_index addr)).

Definition pgtbl_add_entry (pgtbl vaddr paddr : Z) : K Z :=
  p ← pgtbl_lookup_address pgtbl vaddr;
  match p with
  | None => mret (-1)%Z
  | Some (t, i) =>
      w ← get_word t i;
      if has w PG_PRESENT then mret (-1)%Z
      else put_word t i (Z.lor paddr PG_USER_RW);; mret 0%Z
  end.

Definition pgtbl_rem_ret (pgtbl va : Z) : K Z :=
  p ← pgtbl_lookup_address pgtbl va;
  match p with
  | None => mret 0%Z
  | Some (t, i) =>
      w ← get_word t i;
      if negb (has w PG_PRESENT) then mret 0%Z
      else put_word t i 0;; mret (PTE_MASK w)
  end.

Definition pgtbl_vaddr_to_kaddr (pgtbl addr : Z) : K Z :=
  p ← pgtbl_lookup_address pgtbl addr;
  match p with
  | None => mret 0%Z
  | Some (t, i) =>
      w ← get_word t i;
      if negb (has w PG_PRESENT) then mret 0%Z
      else mret (u32 (pa_to_va (PTE_MASK w) + Z.land addr 4095))
  end.

Definition pgtbl_add_middledir (pt vaddr : Z) : K Z :=
  page ← cos_alloc_page;
  put_word pt (pgd_index vaddr) (Z.lor (va_to_pa page) PG_USER_RW);;
  mret 0%Z.

Definition pgtbl_rem_middledir (pt vaddr : Z) : K Z :=
  w ← get_word pt (pgd_index vaddr);
  put_word pt (pgd_index vaddr) 0;;
  cos_free_page (pa_to_va (PTE_MASK w));;
  mret 0%Z.

(** [for (a = vaddr ; a < vaddr + size ; a += HPAGE_SIZE)] in 32-bit
    arithmetic; the fuel is one more than the number of 4MB slots. *)
Fixpoint middledir_loop (fuel : nat) (f : Z → K Z) (a hi : Z) : K unit :=
  if (hi <=? a)%Z then mret tt else
  match fuel with
  | O => fail NoFuel
  | S fuel' =>
      r ← f a;
      assert (r =? 0)%Z;;
      middledir_loop fuel' f (u32 (a + HPAGE_SIZE)) hi
  end.

Definition pgtbl_rem_middledir_range (pt vaddr size : Z) : K Z :=
  middledir_loop (S PGD_PER_PTBL) (pgtbl_rem_middledir pt) vaddr (u32 (vaddr + size));;
  mret 0%Z.

(** [pgtbl_add_middledir] never fails (an allocation that fails faults in
    [cos_alloc_page]), so the roll back of a partial range is not reached. *)
Definition pgtbl_add_middledir_range (pt vaddr size : Z) : K Z :=
  middledir_loop (S PGD_PER_PTBL) (pgtbl_add_middledir pt) vaddr (u32 (vaddr + size));;
  mret 0%Z.

Definition pgtbl_entry_absent (pt addr : Z) : K bool :=
  w ← get_word pt (pgd_index addr); mret (negb (has w PG_PRESENT)).

(** [memset] and [memcpy] of [span] entries from index [i] on: leaving the
    page is a fault. *)
Definition zero_entries (p : list Z) (i span : nat) : option (list Z) :=
  if decide (i + span ≤ length p)
  then Some (take i p ++ replicate span 0%Z ++ drop (i + span) p) else None.
Definition copy_entries (to from : list Z) (i span : nat) : option (list Z) :=
  if decide (i + span ≤ length to ∧ i + span ≤ length from)
  then Some (take i to ++ take span (drop i from) ++ drop (i + span) to) else None.

Definition span_of (size : Z) : nat := Z.to_nat (Z.shiftr size HPAGE_SHIFT).

Definition zero_pgtbl_range (pt lower_addr size : Z) : K unit :=
  p ← get_page pt;
  p' ← bound (zero_entries p (Z.to_nat (pgd_index lower_addr)) (span_of size));
  put_page pt p'.

Definition copy_pgtbl_range_nocheck (pt_to pt_from lower_addr size : Z) : K unit :=
  to ← get_page pt_to;
  from ← get_page pt_from;
  p' ← bound (copy_entries to from (Z.to_nat (pgd_index lower_addr)) (span_of size));
  put_page pt_to p'.

(** The check of this one only prints. *)
Definition copy_pgtbl_range (pt_to pt_from lower_addr size : Z) : K unit :=
  copy_pgtbl_range_nocheck pt_to pt_from lower_addr size.

Definition copy_pgtbl (pt_to pt_from : Z) : K unit :=
  copy_pgtbl_range_nocheck pt_to pt_from 0 4294967295.

(** ** Page tables of protection domains (spd.c) *)

Definition spd_alloc_pgtbl : K Z :=
  page ← cos_get_pg_pool;
  if (page =? 0)%Z then mret 0%Z else
  let pp := va_to_pa page in
  kpt ← gets k_kern_pgtbl;
  copy_pgtbl_range_nocheck pp kpt 0 4294967295;;
  absent ← pgtbl_entry_absent pp COS_INFO_REGION_ADDR;
  assert (negb absent);;
  mret pp.

Definition spd_free_pgtbl (pa : Z) : K unit := cos_put_pg_pool (pa_to_va pa).

(** ** Executions *)

Lemma get_page_run pa s p : k_mem s !! pa = Some p → get_page pa s = Done p s.
Proof. intros H. unfold get_page, mbind, M_bind, gets. by rewrite H. Qed.

Lemma get_word_run pa i s p w :
  k_mem s !! pa = Some p → p.[i] = Some w → get_word pa i s = Done w s.
Proof.
  intros Hp Hw. unfold get_word. rewrite (bind_run _ _ _ _ _ (get_page_run _ _ _ Hp)).
  by rewrite Hw.
Qed.

Lemma get_word_Done pa i s w s1 :
  get_word pa i s = Done w s1 ↔ s1 = s ∧ ∃ p, k_mem s !! pa = Some p ∧ p.[i] = Some w.
Proof.
  unfold get_word, get_page. split.
  - intros H. minv. eauto.
  - intros (-> & p & Hp & Hw). by apply (get_word_run _ _ _ _ _ Hp).
Qed.

Lemma put_word_run pa i v s p w :
  k_mem s !! pa = Some p → p.[i] = Some w →
  put_word pa i v s = Done tt (set_k_mem (<[pa := p.[i := v]]> (k_mem s)) s).
Proof.
  intros Hp Hw. unfold put_word. rewrite (bind_run _ _ _ _ _ (get_page_run _ _ _ Hp)).
  by rewrite Hw.
Qed.

Lemma put_word_Done pa i v s u s1 :
  put_word pa i v s = Done u s1 ↔
  ∃ p w, k_mem s !! pa = Some p ∧ p.[i] = Some w ∧
    s1 = set_k_mem (<[pa := p.[i := v]]> (k_mem s)) s.
Proof.
  destruct u. split.
  - unfold put_word, get_page, put_page. intros H. minv. eauto 6.
  - intros (p & w & Hp & Hw & ->). by eapply put_word_run.
Qed.

Lemma pa_va_id pa : (0 ≤ pa < 2 ^ 32)%Z → va_to_pa (pa_to_va pa) = pa.
Proof.
  intros H. unfold va_to_pa, pa_to_va, u32.
  rewrite Zminus_mod_idemp_l. rewrite Z.mod_small; lia.
Qed.

(** ** The page pool is a stack *)

(** [l] are the pages reached from [h] through the first words. *)
Fixpoint pool_list (m : gmap Z (list Z)) (h : Z) (l : list Z) : Prop :=
  match l with
  | [] => h = 0%Z
  | p :: l' =>
      h = p ∧ p ≠ 0%Z ∧
      ∃ pg next, m !! va_to_pa p = Some pg ∧ pg.[0] = Some next ∧ pool_list m next l'
  end.

Record pool_ok (s : kstate) (l : list Z) : Prop := {
  po_list : pool_list (k_mem s) (k_pool_head s) l;
  po_nodup : NoDup (va_to_pa <$> l);
  po_len : k_pool_len s = Z.of_nat (length l)
}.

(** Writing a page outside of the list leaves the list alone. *)
Lemma pool_list_insert m h l pa pg :
  pa ∉ (va_to_pa <$> l) → pool_list m h l → pool_list (<[pa := pg]> m) h l.
Proof.
  revert h. induction l as [|p l IH]; intros h Hni; [done|].
  cbn in Hni. apply not_elem_of_cons in Hni as [Hne Hni].
  intros (-> & Hp & pg' & nx & Hm & Hw & Hl). split_and!; [done|done|].
  exists pg', nx. rewrite lookup_insert_ne by done. auto.
Qed.

Lemma pool_list_delete m h l pa :
  pa ∉ (va_to_pa <$> l) → pool_list m h l → pool_list (delete pa m) h l.
Proof.
  revert h. induction l as [|p l IH]; intros h Hni; [done|].
  cbn in Hni. apply not_elem_of_cons in Hni as [Hne Hni].
  intros (-> & Hp & pg' & nx & Hm & Hw & Hl). split_and!; [done|done|].
  exists pg', nx. rewrite lookup_delete_ne by done. auto.
Qed.

Lemma cos_get_pg_pool_run s p l :
  pool_ok s (p :: l) → (Z.of_nat (length l) < 2 ^ 32 - 1)%Z →
  ∃ pg, k_mem s !! va_to_pa p = Some pg ∧
  ∃ s', cos_get_pg_pool s = Done p s' ∧ pool_ok s' l ∧
    k_mem s' = <[va_to_pa p := pg.[0 := 0%Z]]> (k_mem s) ∧
    k_spds s' = k_spds s ∧ k_mpds s' = k_mpds s ∧ k_caps s' = k_caps s.
Proof.
  intros [(Hh & Hp & pg & nx & Hm & Hw & Hl) Hnd Hlen] Hbig.
  exists pg. split; [done|]. unfold cos_get_pg_pool.
  erewrite bind_run by reflexivity. rewrite Hh, (proj2 (Z.eqb_neq _ _) Hp).
  erewrite bind_run.
  2: { unfold page_next. rewrite (proj2 (Z.eqb_neq _ _) Hp). by eapply get_word_run. }
  erewrite bind_run by reflexivity. erewrite bind_run by reflexivity.
  erewrite bind_run.
  2: { unfold set_page_next. rewrite (proj2 (Z.eqb_neq _ _) Hp).
       apply put_word_run with (w := nx); [exact Hm|done]. }
  eexists. split; [reflexivity|]. cbn in Hnd. apply NoDup_cons in Hnd as [Hni Hnd].
  split_and!; try done. split; cbn; [|done|].
  - by apply pool_list_insert.
  - rewrite Hlen. cbn [length]. rewrite u32_id; lia.
Qed.

Lemma cos_put_pg_pool_run s p l pg w :
  pool_ok s l → p ≠ 0%Z → va_to_pa p ∉ (va_to_pa <$> l) →
  k_mem s !! va_to_pa p = Some pg → pg.[0] = Some w → length l < 1023 →
  ∃ s', cos_put_pg_pool p s = Done tt s' ∧ pool_ok s' (p :: l) ∧
    k_mem s' = <[va_to_pa p := pg.[0 := k_pool_head s]]> (k_mem s) ∧
    k_spds s' = k_spds s ∧ k_mpds s' = k_mpds s ∧ k_caps s' = k_caps s.
Proof.
  intros [Hl Hnd Hlen] Hp Hni Hm Hw Hlt. unfold cos_put_pg_pool.
  erewrite bind_run by reflexivity. erewrite bind_run.
  2: { unfold set_page_next. rewrite (proj2 (Z.eqb_neq _ _) Hp). by eapply put_word_run. }
  erewrite bind_run by reflexivity. erewrite bind_run by reflexivity.
  erewrite bind_run by reflexivity. cbn.
  assert (u32 (k_pool_len s + 1) = Z.of_nat (length (p :: l))) as Hu.
  { rewrite Hlen. cbn [length]. rewrite u32_id; lia. }
  rewrite Hu. cbn [length].
  destruct (Z.ltb_spec (Z.of_nat (S (length l))) 1024); [|lia].
  eexists. split; [reflexivity|]. split_and!; try done. split; cbn.
  - split_and!; [done|done|]. eexists _, _. rewrite lookup_insert_eq.
    split_and!; [done|by eapply zlookup_zinsert_eq|]. by apply pool_list_insert.
  - by apply NoDup_cons.
  - done.
Qed.

(** The page pool is a stack: putting a page that is not in the pool and
    getting one gives back that very page, with the rest of the pool as it
    was; all of the page but its first word, which the pool's link used, keeps
    its contents, and no other page is written. *)
Theorem pool_put_get s p l pg w :
  pool_ok s l → p ≠ 0%Z → va_to_pa p ∉ (va_to_pa <$> l) →
  k_mem s !! va_to_pa p = Some pg → pg.[0] = Some w → length l < 1023 →
  ∃ s1 s2, cos_put_pg_pool p s = Done tt s1 ∧ pool_ok s1 (p :: l) ∧
    cos_get_pg_pool s1 = Done p s2 ∧ pool_ok s2 l ∧
    k_mem s2 = <[va_to_pa p := pg.[0 := 0%Z]]> (k_mem s).
Proof.
  intros Hok Hp Hni Hm Hw Hlt.
  destruct (cos_put_pg_pool_run s p l pg w) as (s1 & Hr1 & Hok1 & Hm1 & _); auto.
  destruct (cos_get_pg_pool_run s1 p l Hok1) as (pg1 & Hpg1 & s2 & Hr2 & Hok2 & Hm2 & _); [lia|].
  exists s1, s2. split_and!; try done.
  rewrite Hm1, lookup_insert_eq in Hpg1. simplify_eq.
  by rewrite Hm2, Hm1, insert_insert_eq, zinsert_zinsert.
Qed.

(** Three pages of memory, one of them in the pool. *)
Definition pool_demo : kstate :=
  set_k_pool_head (pa_to_va 8192) (set_k_pool_len 1 (set_k_mem
    (<[4096%Z := replicate PGD_PER_PTBL 7%Z]>
     (<[8192%Z := replicate PGD_PER_PTBL 0%Z]> ∅)) k_zero)).

Lemma pool_demo_ok : pool_ok pool_demo [pa_to_va 8192].
Proof.
  split; [|by apply NoDup_singleton|done].
  split_and!; [done|done|]. exists (replicate PGD_PER_PTBL 0%Z), 0%Z. done.
Qed.

Lemma pool_put_get_witness :
  ∃ s1 s2, cos_put_pg_pool (pa_to_va 4096) pool_demo = Done tt s1 ∧
    pool_ok s1 [pa_to_va 4096; pa_to_va 8192] ∧
    cos_get_pg_pool s1 = Done (pa_to_va 4096) s2 ∧ pool_ok s2 [pa_to_va 8192] ∧
    k_mem s2 = <[va_to_pa (pa_to_va 4096) := (replicate PGD_PER_PTBL 7%Z).[0 := 0%Z]]>
                 (k_mem pool_demo).
Proof.
  apply (pool_put_get pool_demo (pa_to_va 4096) [pa_to_va 8192]
           (replicate PGD_PER_PTBL 7%Z) 7);
    [apply pool_demo_ok|done|vm_compute|reflexivity|reflexivity|cbn; lia].
  intros H. apply list_elem_of_singleton in H. discriminate H.
Defined.

(** *** [clear_pg_pool] *)

Lemma clear_pool_loop_run fuel h l s :
  pool_list (k_mem s) h l → NoDup (va_to_pa <$> l) → length l ≤ fuel →
  ∃ s', clear_pool_loop fuel h s = Done tt s' ∧
    k_pool_head s' = k_pool_head s ∧
    (∀ pa, k_mem s' !! pa = if decide (pa ∈ (va_to_pa <$> l)) then None
                            else k_mem s !! pa).
Proof.
  revert fuel h s. induction l as [|p l IH]; intros fuel h s Hl Hnd Hf.
  - cbn in Hl. subst h. exists s. split_and!; [by destruct fuel|done|].
    intros pa. rewrite decide_False; [done|]. by apply not_elem_of_nil.
  - destruct Hl as (-> & Hp & pg & nx & Hm & Hw & Hl).
    cbn in Hnd. apply NoDup_cons in Hnd as [Hni Hnd].
    destruct fuel as [|fuel]; [cbn in Hf; lia|]. cbn [clear_pool_loop].
    rewrite (proj2 (Z.eqb_neq _ _) Hp).
    erewrite bind_run.
    2: { unfold page_next. rewrite (proj2 (Z.eqb_neq _ _) Hp). by eapply get_word_run. }
    erewrite bind_run by reflexivity.
    destruct (IH fuel nx (set_k_mem (delete (va_to_pa p) (k_mem s)) s))
      as (s' & Hr & Hh & Hm'); [by apply pool_list_delete|done|cbn in Hf; lia|].
    exists s'. split_and!; [done|done|]. intros pa. rewrite Hm'. cbn.
    destruct (decide (pa = va_to_pa p)) as [->|Hne].
    + rewrite decide_False by done. rewrite lookup_delete_eq.
      by rewrite decide_True by (by apply elem_of_cons; left).
    + rewrite lookup_delete_ne by done.
      destruct (decide (pa ∈ va_to_pa <$> l)) as [Hin|Hout].
      * by rewrite decide_True by (by apply elem_of_cons; right).
      * rewrite decide_False; [done|]. rewrite elem_of_cons. naive_solver.
Qed.

(** Clearing the page pool gives all of its pages back to the host but
    leaves the pool's head pointing at the first of them: the next request for
    a page of the pool reads a page that has been freed. *)
Theorem clear_pool_dangles s p l :
  pool_ok s (p :: l) → length l < 1023 →
  ∃ s', clear_pg_pool s = Done tt s' ∧
    (∀ q, q ∈ p :: l → k_mem s' !! va_to_pa q = None) ∧
    k_pool_head s' = p ∧ cos_get_pg_pool s' = Fault OutOfBounds.
Proof.
  intros [Hl Hnd _] Hlt. pose proof Hl as (Hh & Hp & _).
  destruct (clear_pool_loop_run 1024 (k_pool_head s) (p :: l) s Hl Hnd) as (s' & Hr & Hh' & Hm).
  { cbn [length]. lia. }
  assert (∀ q, q ∈ p :: l → k_mem s' !! va_to_pa q = None) as Hgone.
  { intros q Hq. rewrite Hm, decide_True; [done|]. by apply list_elem_of_fmap_2. }
  exists s'. split_and!; [exact Hr|done|congruence|].
  unfold cos_get_pg_pool. erewrite bind_run by reflexivity.
  rewrite Hh', Hh, (proj2 (Z.eqb_neq _ _) Hp).
  unfold page_next. rewrite (proj2 (Z.eqb_neq _ _) Hp).
  unfold get_word, get_page, mbind, M_bind, gets, bound, fail.
  by rewrite Hgone by (by apply elem_of_cons; left).
Qed.

Lemma clear_pool_dangles_witness :
  ∃ s', clear_pg_pool pool_demo = Done tt s' ∧
    (∀ q, q ∈ [pa_to_va 8192] → k_mem s' !! va_to_pa q = None) ∧
    k_pool_head s' = pa_to_va 8192 ∧ cos_get_pg_pool s' = Fault OutOfBounds.
Proof.
  apply (clear_pool_dangles pool_demo (pa_to_va 8192) []); [apply pool_demo_ok|cbn; lia].
Defined.

(** ** Ranges of page-table entries *)

Lemma zero_entries_lookup p i n p' k :
  zero_entries p i n = Some p' →
  length p' = length p ∧
  p' !! k = if decide (i ≤ k < i + n) then Some 0%Z else p !! k.
Proof.
  unfold zero_entries. case_decide as Hle; [|done]. intros [= <-]. split.
  - rewrite !length_app, length_take, length_replicate, length_drop. lia.
  - destruct (decide (k < i)).
    + rewrite lookup_app_l by (rewrite length_take; lia).
      rewrite lookup_take_lt by done. rewrite decide_False by lia. done.
    + rewrite lookup_app_r by (rewrite length_take; lia). rewrite length_take.
      rewrite (Nat.min_l i) by lia. destruct (decide (k < i + n)).
      * rewrite lookup_app_l by (rewrite length_replicate; lia).
        rewrite decide_True by lia. apply lookup_replicate. split; [done|lia].
      * rewrite lookup_app_r by (rewrite length_replicate; lia).
        rewrite length_replicate, lookup_drop, decide_False by lia. f_equal. lia.
Qed.

Lemma copy_entries_lookup to from i n p' k :
  copy_entries to from i n = Some p' →
  length p' = length to ∧
  p' !! k = if decide (i ≤ k < i + n) then from !! k else to !! k.
Proof.
  unfold copy_entries. case_decide as Hle; [|done]. intros [= <-]. split.
  - rewrite !length_app, !length_take, !length_drop. lia.
  - destruct (decide (k < i)).
    + rewrite lookup_app_l by (rewrite length_take; lia).
      rewrite lookup_take_lt by done. rewrite decide_False by lia. done.
    + rewrite lookup_app_r by (rewrite length_take; lia). rewrite length_take.
      rewrite (Nat.min_l i) by lia.
      assert (length (take n (drop i from)) = n) as Hl.
      { rewrite length_take, length_drop. lia. }
      destruct (decide (k < i + n)).
      * rewrite lookup_app_l by lia. rewrite decide_True by lia.
        rewrite lookup_take_lt by lia. rewrite lookup_drop. f_equal. lia.
      * rewrite lookup_app_r by lia. rewrite Hl, lookup_drop, decide_False by lia.
        f_equal. lia.
Qed.

(** Copying a whole page table copies all of its entries but the last: the
    length 0xFFFFFFFF spans 1023 entries, so entry 1023, the last 4MB of the
    kernel's mappings, keeps what the page held before. *)
Theorem copy_pgtbl_misses_last pt_to pt_from to from s :
  k_mem s !! pt_to = Some to → k_mem s !! pt_from = Some from →
  length to = PGD_PER_PTBL → length from = PGD_PER_PTBL →
  ∃ p', copy_pgtbl pt_to pt_from s = Done tt (set_k_mem (<[pt_to := p']> (k_mem s)) s) ∧
    (∀ k, k < 1023 → p' !! k = from !! k) ∧ p' !! 1023 = to !! 1023.
Proof.
  intros Ht Hf Hlt Hlf. unfold copy_pgtbl, copy_pgtbl_range_nocheck.
  rewrite (bind_run _ _ _ _ _ (get_page_run _ _ _ Ht)).
  rewrite (bind_run _ _ _ _ _ (get_page_run _ _ _ Hf)).
  change (Z.to_nat (pgd_index 0)) with 0. change (span_of 4294967295) with 1023.
  destruct (copy_entries to from 0 1023) as [p'|] eqn:He.
  - exists p'. split; [done|]. split.
    + intros k Hk. destruct (copy_entries_lookup _ _ _ _ _ k He) as [_ ->].
      by rewrite decide_True by lia.
    + destruct (copy_entries_lookup _ _ _ _ _ 1023 He) as [_ ->].
      by rewrite decide_False by lia.
  - unfold copy_entries in He. rewrite decide_True in He; [done|].
    unfold PGD_PER_PTBL in *. lia.
Qed.

(** ** Mappings *)

Lemma PTE_MASK_low pa f :
  (0 ≤ f < 4096)%Z → PTE_MASK pa = pa → PTE_MASK (Z.lor pa f) = pa.
Proof.
  unfold PTE_MASK. intros Hf Hpa.
  apply Z.bits_inj'. intros n Hn. rewrite Z.ldiff_spec, Z.lor_spec.
  change 4095%Z with (Z.ones 12).
  assert (Z.testbit pa n = Z.testbit pa n && negb (Z.testbit (Z.ones 12) n)) as Hb.
  { change 4095%Z with (Z.ones 12) in Hpa. rewrite <- Hpa at 1. by rewrite Z.ldiff_spec. }
  destruct (Z.testbit (Z.ones 12) n) eqn:Ho.
  - rewrite Hb. cbn. by rewrite !andb_false_r.
  - cbn. rewrite andb_true_r. destruct (Z.ltb_spec n 12).
    + rewrite Z.ones_spec_low in Ho by lia. discriminate.
    + assert (Z.testbit f n = false) as ->; [|by rewrite orb_false_r].
      destruct (decide (f = 0)%Z) as [->|]; [apply Z.bits_0|].
      apply Z.bits_above_log2; [lia|]. apply Z.log2_lt_pow2; [lia|].
      apply Z.lt_le_trans with (2 ^ 12)%Z; [lia|]. apply Z.pow_le_mono_r; lia.
Qed.

Lemma has_present_lor pa : has (Z.lor pa PG_USER_RW) PG_PRESENT = true.
Proof.
  change PG_PRESENT with (2 ^ 0)%Z. rewrite has_testbit by lia.
  rewrite Z.lor_spec. by rewrite orb_true_r.
Qed.

(** The state after [w] was written at [(t, i)]. *)
Definition word_set (t i w : Z) (p : list Z) (s : kstate) : kstate :=
  set_k_mem (<[t := p.[i := w]]> (k_mem s)) s.

(** A write to the entry an address resolves to does not change how the
    address resolves, unless the entry is the directory entry itself. *)
Lemma lookup_word_set pt va s t i w p :
  pgtbl_lookup_address pt va s = Done (Some (t, i)) s →
  (t ≠ pt ∨ i ≠ pgd_index va) → k_mem s !! t = Some p →
  pgtbl_lookup_address pt va (word_set t i w p s) = Done (Some (t, i)) (word_set t i w p s).
Proof.
  intros Hlk Hna Hp. unfold pgtbl_lookup_address in Hlk |- *.
  apply bind_Done in Hlk as (v & s0 & Hg & Hlk).
  apply get_word_Done in Hg as (-> & q & Hq & Hqw).
  assert (get_word pt (pgd_index va) (word_set t i w p s) = Done v (word_set t i w p s)) as Hg.
  { destruct (decide (t = pt)) as [->|Hne].
    - apply (get_word_run _ _ _ (p.[i := w])); [by apply lookup_insert_eq|].
      rewrite zlookup_zinsert_ne by naive_solver. congruence.
    - apply (get_word_run _ _ _ q); [|done]. cbn. by rewrite lookup_insert_ne. }
  rewrite (bind_run _ _ _ _ _ Hg). repeat case_match; minv; done.
Qed.

(** Translation depends on the memory only. *)
Lemma vaddr_mem pt a s s' r :
  k_mem s' = k_mem s → pgtbl_vaddr_to_kaddr pt a s = Done r s →
  pgtbl_vaddr_to_kaddr pt a s' = Done r s'.
Proof.
  intros Hm. unfold pgtbl_vaddr_to_kaddr, pgtbl_lookup_address, get_word, get_page, gets, bound,
    mbind, M_bind, mret, M_ret, fail. rewrite Hm.
  intros H. repeat (case_match; simplify_eq; try done).
  all: rewrite ?Hm in *; simplify_eq; congruence.
Qed.

Lemma get_word_set t i w p v s :
  p.[i] = Some v → get_word t i (word_set t i w p s) = Done w (word_set t i w p s).
Proof.
  intros Hv. eapply get_word_run; [by apply lookup_insert_eq|by eapply zlookup_zinsert_eq].
Qed.

(** C39. Mapping and unmapping are inverse: when a page is mapped at an address
    (whose entry does not alias the page directory), translating the address
    gives the page's kernel address plus the offset, a second mapping there is
    refused, and unmapping hands the page back and leaves the entry empty. *)
Theorem map_translate_unmap pt va pa s s1 t i :
  pgtbl_lookup_address pt va s = Done (Some (t, i)) s →
  (t ≠ pt ∨ i ≠ pgd_index va) → PTE_MASK pa = pa →
  pgtbl_add_entry pt va pa s = Done 0%Z s1 →
  pgtbl_vaddr_to_kaddr pt va s1 = Done (u32 (pa_to_va pa + Z.land va 4095)) s1 ∧
  (∀ pa', pgtbl_add_entry pt va pa' s1 = Done (-1)%Z s1) ∧
  ∃ s2, pgtbl_rem_ret pt va s1 = Done pa s2 ∧ get_word t i s2 = Done 0%Z s2.
Proof.
  intros Hlk Hna Hal Hadd. unfold pgtbl_add_entry in Hadd.
  rewrite (bind_run _ _ _ _ _ Hlk) in Hadd. minv.
  match goal with H : get_word _ _ _ = _ |- _ =>
    apply get_word_Done in H as (-> & p & Hp & Hw) end.
  case_match; minv.
  match goal with H : put_word _ _ _ _ = _ |- _ =>
    rewrite (put_word_run _ _ _ _ _ _ Hp Hw) in H; simplify_eq end.
  pose proof (lookup_word_set _ _ _ _ _ (Z.lor pa PG_USER_RW) _ Hlk Hna Hp) as Hlk1.
  pose proof (get_word_set t i (Z.lor pa PG_USER_RW) _ _ s Hw) as Hg1.
  fold (word_set t i (Z.lor pa PG_USER_RW) p s).
  assert (PTE_MASK (Z.lor pa PG_USER_RW) = pa) as Hmask.
  { apply PTE_MASK_low; [unfold PG_USER_RW; lia|done]. }
  split_and!.
  - unfold pgtbl_vaddr_to_kaddr.
    rewrite (bind_run _ _ _ _ _ Hlk1), (bind_run _ _ _ _ _ Hg1), has_present_lor.
    by rewrite Hmask.
  - intros pa'. unfold pgtbl_add_entry.
    by rewrite (bind_run _ _ _ _ _ Hlk1), (bind_run _ _ _ _ _ Hg1), has_present_lor.
  - eexists. unfold pgtbl_rem_ret.
    rewrite (bind_run _ _ _ _ _ Hlk1), (bind_run _ _ _ _ _ Hg1), has_present_lor, Hmask.
    cbn [negb]. erewrite bind_run.
    2: { eapply put_word_run; [by apply lookup_insert_eq|by eapply zlookup_zinsert_eq]. }
    split; [reflexivity|]. eapply get_word_run; [by apply lookup_insert_eq|].
    eapply zlookup_zinsert_eq. by eapply zlookup_zinsert_eq.
Qed.

(** One page table with one page of entries under its entry 5. *)
Definition map_demo : kstate :=
  set_k_mem (<[4096%Z := (replicate PGD_PER_PTBL 0%Z).[5 := Z.lor 8192 PG_USER_RW]]>
     (<[8192%Z := replicate PGD_PER_PTBL 0%Z]> ∅)) k_zero.

Lemma map_translate_unmap_witness :
  ∃ s1, pgtbl_add_entry 4096 20975616 65536 map_demo = Done 0%Z s1 ∧
    pgtbl_vaddr_to_kaddr 4096 20975616 s1 = Done 3221291008%Z s1.
Proof.
  destruct (pgtbl_add_entry 4096 20975616 65536 map_demo) as [r s1|f] eqn:Hr;
    [|vm_compute in Hr; discriminate Hr].
  assert (r = 0%Z) as -> by (vm_compute in Hr; by simplify_eq).
  exists s1. split; [done|].
  apply (map_translate_unmap 4096 20975616 65536 map_demo s1 8192 1);
    [vm_compute; reflexivity|left; done|reflexivity|exact Hr].
Defined.

Lemma copy_pgtbl_misses_last_witness :
  ∃ p', copy_pgtbl 4096 8192 pool_demo =
      Done tt (set_k_mem (<[4096%Z := p']> (k_mem pool_demo)) pool_demo) ∧
    (∀ k, k < 1023 → p' !! k = replicate PGD_PER_PTBL 0%Z !! k) ∧
    p' !! 1023 = replicate PGD_PER_PTBL 7%Z !! 1023.
Proof.
  apply (copy_pgtbl_misses_last 4096 8192 (replicate PGD_PER_PTBL 7%Z)
           (replicate PGD_PER_PTBL 0%Z) pool_demo); reflexivity.
Defined.

(** ** Memory capabilities *)

(** The pages named so far are distinct, and the host's next pages are new. *)
Record pages_ok (s : kstate) : Prop := {
  pg_size : length (k_pages s) = COS_MAX_MEMORY;
  pg_inj : ∀ c d pa, (k_pages s).[c] = Some pa → (k_pages s).[d] = Some pa →
    pa ≠ 0%Z → c = d;
  pg_fresh : ∀ c pa page, (k_pages s).[c] = Some pa → page ∈ k_host_free s →
    va_to_pa page ≠ 0%Z ∧ va_to_pa page ≠ pa;
  pg_host : NoDup (va_to_pa <$> k_host_free s)
}.

Lemma paddr_scan_spec l i pa c :
  l.[c] = Some pa → (∀ d, l.[d] = Some pa → d = c) → paddr_scan l i pa = (i + c)%Z.
Proof.
  revert i c. induction l as [|a l IH]; intros i c Hc Hu.
  - apply zlookup_lt in Hc. cbn in Hc. lia.
  - cbn. destruct (Z.eqb_spec a pa) as [->|Hne].
    + specialize (Hu 0%Z). rewrite <- Hu; [lia|done].
    + pose proof (zlookup_lt _ _ _ Hc) as Hlt. cbn in Hlt.
      assert (c ≠ 0)%Z as Hc0. { intros ->. cbv in Hc. congruence. }
      assert (∀ d, (1 ≤ d)%Z → (a :: l).[d] = l.[d - 1]) as Hsh.
      { intros d Hd. unfold zlookup.
        destruct (Z.ltb_spec d 0), (Z.ltb_spec (d - 1) 0); try lia.
        replace (Z.to_nat d) with (S (Z.to_nat (d - 1))) by lia. done. }
      rewrite (IH (i + 1)%Z (c - 1)%Z); [lia| |].
      * by rewrite <- Hsh by lia.
      * intros d Hd. pose proof (zlookup_lt _ _ _ Hd).
        specialize (Hu (d + 1)%Z). rewrite Hsh in Hu by lia.
        replace (d + 1 - 1)%Z with d in Hu by lia. specialize (Hu Hd). lia.
Qed.

(** A page is named by a capability: the table entry, and no other one. *)
Lemma paddr_to_cap_of s c pa :
  pages_ok s → (k_pages s).[c] = Some pa → pa ≠ 0%Z →
  cos_paddr_to_cap pa s = Done c s.
Proof.
  intros [_ Hinj _ _] Hc Hpa. unfold cos_paddr_to_cap.
  erewrite bind_run by reflexivity. unfold mret, M_ret.
  rewrite (paddr_scan_spec _ 0 _ c Hc); [by rewrite Z.add_0_l|].
  intros d Hd. by eapply Hinj.
Qed.

Lemma access_page_hit s c pa :
  (c < Z.of_nat COS_MAX_MEMORY)%Z → (k_pages s).[c] = Some pa → pa ≠ 0%Z →
  cos_access_page c s = Done pa s.
Proof.
  intros Hlt Hc Hpa. unfold cos_access_page.
  destruct (Z.ltb_spec (Z.of_nat COS_MAX_MEMORY) c); [lia|].
  erewrite bind_run by reflexivity. rewrite Hc.
  erewrite bind_run by reflexivity. by rewrite (proj2 (Z.eqb_neq _ _) Hpa).
Qed.

(** The first access to a capability names the host's next page. *)
Lemma access_page_miss s c page rest :
  (c < Z.of_nat COS_MAX_MEMORY)%Z → (k_pages s).[c] = Some 0%Z →
  k_host_free s = page :: rest →
  ∃ s', cos_access_page c s = Done (va_to_pa page) s' ∧
    k_pages s' = (k_pages s).[c := va_to_pa page] ∧ k_host_free s' = rest.
Proof.
  intros Hlt Hc Hh. unfold cos_access_page.
  destruct (Z.ltb_spec (Z.of_nat COS_MAX_MEMORY) c); [lia|].
  erewrite bind_run by reflexivity. rewrite Hc.
  erewrite bind_run by reflexivity. cbn [Z.eqb].
  erewrite bind_run.
  2: { unfold cos_alloc_page. erewrite bind_run by reflexivity. rewrite Hh. reflexivity. }
  eexists. split; [reflexivity|]. done.
Qed.

Lemma pages_ok_named s s' c page rest :
  pages_ok s → (k_pages s).[c] = Some 0%Z → k_host_free s = page :: rest →
  k_pages s' = (k_pages s).[c := va_to_pa page] → k_host_free s' = rest → pages_ok s'.
Proof.
  intros [Hsz Hinj Hfr Hnd] Hc Hh Hp Hr. rewrite Hh in Hfr, Hnd. cbn in Hnd.
  apply NoDup_cons in Hnd as [Hni Hnd].
  assert (page ∈ page :: rest) as Hhd by (apply elem_of_cons; by left).
  split; rewrite ?Hp, ?Hr; [by rewrite length_zinsert| | |done].
  - intros d e pa. rewrite !(zlookup_zinsert _ _ _ _ _ Hc).
    repeat case_decide; intros Hd He Hnz; subst; try done; simplify_eq;
      try (by eapply Hinj); exfalso.
    + by eapply (Hfr e _ page).
    + by eapply (Hfr d _ page).
  - intros d pa pg. rewrite (zlookup_zinsert _ _ _ _ _ Hc).
    case_decide; intros Hd Hin; simplify_eq.
    + split; [by eapply (Hfr _ _ pg Hc); apply elem_of_cons; right|].
      intros Heq. apply Hni. rewrite <- Heq. by apply list_elem_of_fmap_2.
    + eapply Hfr; [done|]. apply elem_of_cons. by right.
Qed.

(** Memory capabilities name physical pages one to one: accessing a
    capability in range returns a page, the same one at every later access,
    the reverse lookup of that page is that capability, and the names stay
    distinct and fresh.  (The host must have a page left if the capability has
    none yet.) *)
Theorem access_page_names s c pa0 :
  pages_ok s → (k_pages s).[c] = Some pa0 → (pa0 = 0%Z → k_host_free s ≠ []) →
  ∃ pa s', cos_access_page c s = Done pa s' ∧ pages_ok s' ∧
    cos_access_page c s' = Done pa s' ∧ cos_paddr_to_cap pa s' = Done c s' ∧
    ∀ d, d ≠ c → (k_pages s').[d] = (k_pages s).[d].
Proof.
  intros Hok Hc Hh. pose proof (zlookup_lt _ _ _ Hc) as Hlt.
  rewrite (pg_size _ Hok) in Hlt. destruct (decide (pa0 = 0%Z)) as [->|Hnz].
  - destruct (k_host_free s) as [|page rest] eqn:Hhf; [naive_solver|].
    destruct (access_page_miss s c page rest) as (s' & Hr & Hp & Hf); [lia|done|done|].
    assert (pages_ok s') as Hok' by (by eapply pages_ok_named).
    assert (va_to_pa page ≠ 0%Z) as Hnz.
    { eapply (pg_fresh _ Hok c _ page Hc). rewrite Hhf. apply elem_of_cons. by left. }
    assert ((k_pages s').[c] = Some (va_to_pa page)) as Hc'.
    { rewrite Hp. by eapply zlookup_zinsert_eq. }
    exists (va_to_pa page), s'. split_and!; [done|done| | |].
    + by apply access_page_hit; [lia| |].
    + by apply paddr_to_cap_of.
    + intros d Hd. rewrite Hp. by apply zlookup_zinsert_ne.
  - exists pa0, s. split_and!; [by apply access_page_hit; [lia| |]|done
      |by apply access_page_hit; [lia| |]|by apply paddr_to_cap_of|done].
Qed.

Definition pages_demo : kstate := set_k_host_free [pa_to_va 4096; pa_to_va 8192] k_zero.

Lemma pages_demo_ok : pages_ok pages_demo.
Proof.
  assert (∀ c pa, (k_pages pages_demo).[c] = Some pa → pa = 0%Z) as H0.
  { intros c pa [_ Hc]%zlookup_Some. by apply lookup_replicate in Hc as [-> _]. }
  split; [done| | |].
  - intros c d pa Hc%H0 _ Hnz. done.
  - intros c pa page ->%H0 Hin. cbn in Hin.
    rewrite !elem_of_cons, elem_of_nil in Hin. split; by destruct Hin as [->|[->|[]]].
  - change (NoDup [4096%Z; 8192%Z]). apply NoDup_cons. split; [|apply NoDup_singleton].
    by intros ?%list_elem_of_singleton.
Qed.

Lemma access_page_names_witness :
  ∃ pa s', cos_access_page 7 pages_demo = Done pa s' ∧ pages_ok s' ∧
    cos_access_page 7 s' = Done pa s' ∧ cos_paddr_to_cap pa s' = Done 7%Z s' ∧
    ∀ d, d ≠ 7%Z → (k_pages s').[d] = (k_pages pages_demo).[d].
Proof.
  apply (access_page_names pages_demo 7 0); [apply pages_demo_ok|reflexivity|done].
Defined.

(** The bound check of [cos_access_page] lets the capability number
    COS_MAX_MEMORY through, one past the end of the table. *)
Theorem access_page_off_by_one s :
  sizes_ok s → cos_access_page (Z.of_nat COS_MAX_MEMORY) s = Fault OutOfBounds.
Proof.
  intros Hsz. unfold cos_access_page. rewrite Z.ltb_irrefl.
  erewrite bind_run by reflexivity.
  destruct (k_pages s).[Z.of_nat COS_MAX_MEMORY] eqn:Hl; [|done].
  apply zlookup_lt in Hl. rewrite (sz_pages _ Hsz) in Hl. lia.
Qed.

Lemma access_page_off_by_one_witness : cos_access_page 2048 k_zero = Fault OutOfBounds.
Proof. apply (access_page_off_by_one k_zero). by split. Defined.
