(* ===== verification/Vas.v ===== *)
(** * Virtual address spaces (src/kernel/spd.c)

    An address space is an array of 4MB slots, each of which belongs to at most
    one component.  The operations allocate, look up and free ranges of slots
    for a component, add and remove the memory ranges a component uses, and
    create, delete and populate the address spaces themselves.

    [vas_spd_add] is not well-formed C at this commit (a stray comment
    terminator, and an index named [vaddr] where the declared variable is
    [adj]).  Whatever the index means, the loop writes to a local copy of the
    [struct vas], so that the function's only effect is the one modelled. *)

From stdpp Require Import base list numbers option gmap.
From S2P Require Import Prelude Kern PageMem.

(** ** Operations *)

(** [spd->composite_vas->...] and [vas_list[v]]. *)
Definition get_vas (v : Z) : K vas :=
  l ← gets k_vas_list; bound (l.[v]).
Definition put_vas (v : Z) (x : vas) : K unit :=
  modify (λ s, set_k_vas_list ((k_vas_list s).[v := x]) s).

Definition spd_slot (spd : nat) (i : Z) : K (option nat) :=
  x ← get_spd spd;
  v ← deref (s_composite_vas x);
  va ← get_vas v;
  bound ((v_layout va).[i]).
Definition spd_set_slot (spd : nat) (i : Z) (o : option nat) : K unit :=
  x ← get_spd spd;
  v ← deref (s_composite_vas x);
  va ← get_vas v;
  _ ← bound ((v_layout va).[i]);
  put_vas v (set_v_layout ((v_layout va).[i := o]) va).

(** Is one of [n] slots from [i] on taken? *)
Fixpoint slots_taken (n : nat) (spd : nat) (i : Z) : K bool :=
  match n with
  | O => mret false
  | S n' =>
      o ← spd_slot spd i;
      match o with
      | Some _ => mret true
      | None => slots_taken n' spd (i + 1)
      end
  end.

Definition virtual_namespace_alloc (spd : nat) (addr size : Z) : K Z :=
  let adj_addr := Z.shiftr addr HPAGE_SHIFT in
  let adj_to := u32 (adj_addr + Z.shiftr size HPAGE_SHIFT) in
  taken ← slots_taken (Z.to_nat (adj_to - adj_addr)) spd adj_addr;
  if (taken : bool) then mret 0%Z else
  for_range adj_addr adj_to (λ i, spd_set_slot spd i (Some spd));;
  mret 1%Z.

Definition virtual_namespace_query (addr : Z) (vasPtr : option Z) : K (option nat) :=
  v ← deref vasPtr;
  va ← get_vas v;
  bound ((v_layout va).[Z.shiftr addr HPAGE_SHIFT]).

(** [for (a = addr ; a < hi ; a += HPAGE_SIZE)] with a test that every query
    finds the component. *)
Fixpoint owned_loop (fuel : nat) (spd : nat) (a hi : Z) : K bool :=
  if (hi <=? a)%Z then mret true else
  match fuel with
  | O => fail NoFuel
  | S fuel' =>
      x ← get_spd spd;
      o ← virtual_namespace_query a (s_composite_vas x);
      if negb (bool_decide (o = Some spd)) then mret false
      else owned_loop fuel' spd (u32 (a + HPAGE_SIZE)) hi
  end.

Definition virtual_namespace_free (spd : nat) (addr size : Z) : K Z :=
  let from := Z.shiftr addr HPAGE_SHIFT in
  let to := u32 (from + Z.shiftr size HPAGE_SHIFT) in
  ok ← owned_loop (S PGD_PER_PTBL) spd addr (u32 (addr + Z.shiftr size HPAGE_SHIFT));
  if negb ok then mret 0%Z else
  for_range from to (λ i, spd_set_slot spd i None);;
  mret 1%Z.

(** Does [addr, addr + size) lie on one page? *)
Definition user_struct_fits_on_page (addr size : Z) : bool :=
  if (size =? 0)%Z then true
  else (PTE_MASK addr =? PTE_MASK (u32 (addr + size - 1)))%Z.

(** The first location for which [f] holds. *)
Fixpoint find_location (f : spd_location → bool) (l : list spd_location) (i : Z)
    : option Z :=
  match l with
  | [] => None
  | x :: l => if f x then Some i else find_location f l (i + 1)
  end.

Definition spd_add_location (spd : nat) (base size : Z) : K Z :=
  x ← get_spd spd;
  if (p_pg_tbl (s_info x) =? 0)%Z then mret (-1)%Z else
  if negb (Z.land base (SERVICE_SIZE - 1) =? 0)%Z then mret (-1)%Z else
  match find_location (λ l, (0 =? l_size l)%Z) (s_location x) 0 with
  | None => mret (-1)%Z
  | Some i =>
      r ← virtual_namespace_alloc spd (u32 base) (u32 size);
      if (r =? 0)%Z then mret (-1)%Z else
      upd_spd spd (λ x, set_s_location
        ((s_location x).[i := MkLoc (u32 base) (u32 size)]) x);;
      e ← pgtbl_add_middledir_range (p_pg_tbl (s_info x)) (u32 base) size;
      assert (e =? 0)%Z;;
      mret 0%Z
  end.

Definition spd_rem_location (spd : nat) (base size : Z) : K Z :=
  x ← get_spd spd;
  if (p_pg_tbl (s_info x) =? 0)%Z then mret (-1)%Z else
  match find_location (λ l, (l_size l =? u32 size)%Z && (l_lowest_addr l =? u32 base)%Z)
          (s_location x) 0 with
  | None => mret (-1)%Z
  | Some i =>
      r ← virtual_namespace_free spd (u32 base) (u32 size);
      if (r =? 0)%Z then mret (-1)%Z else
      upd_spd spd (λ x, set_s_location ((s_location x).[i := MkLoc 0 0]) x);;
      e ← pgtbl_rem_middledir_range (p_pg_tbl (s_info x)) (u32 base) size;
      assert (e =? 0)%Z;;
      mret 0%Z
  end.

(** The new address space is read before the bound is tested. *)
Definition vas_new : K Z :=
  n ← gets k_num_vases;
  new_vas ← get_vas n;
  if (Z.of_nat MAX_VAS_NUM <=? n)%Z then mret (-1)%Z else
  put_vas n (MkVas (replicate (length (v_layout new_vas)) None) 0 (u32 n));;
  modify (set_k_num_vases (n + 1));;
  assert (u32 n <? n + 1)%Z;;
  mret n.

(** [assert(vas_list[i].vas_id = i)] is an assignment: it fails for [i = 0]. *)
Fixpoint vas_delete_loop (n : nat) (i : Z) : K unit :=
  match n with
  | O => mret tt
  | S n' =>
      cur ← gets k_num_vases;
      if (i <? cur)%Z && (i + 1 <? Z.of_nat MAX_VAS_NUM)%Z then
        x ← get_vas (i + 1);
        _ ← get_vas i;
        put_vas i (set_v_vas_id (u32 i) x);;
        assert (negb (u32 i =? 0)%Z);;
        vas_delete_loop n' (i + 1)
      else mret tt
  end.

Definition vas_delete (vas_id : Z) : K Z :=
  vas_delete_loop (Z.to_nat (Z.of_nat MAX_VAS_NUM - vas_id)) vas_id;;
  modify (λ s, set_k_num_vases (k_num_vases s - 1) s);;
  mret 1%Z.

Definition vas_spd_add (vas_id : Z) (spd : nat) : K Z :=
  the_vas ← get_vas vas_id;
  assert (v_vas_id the_vas =? u32 vas_id)%Z;;
  upd_spd spd (set_s_composite_vas (Some vas_id));;
  mret 1%Z.

Definition vas_spd_remove (vas_id : Z) (spd : nat) : K Z :=
  _ ← get_vas vas_id;
  upd_spd spd (set_s_composite_vas None);;
  mret 1%Z.

Definition vas_expand (vas_id : Z) (spd : nat) : K Z := vas_spd_add vas_id spd.

Definition vas_retract (vas_id : Z) (spd : nat) : K Z :=
  r ← vas_spd_remove vas_id spd;
  a ← vas_spd_add vas_id spd;
  mret (if negb (a =? 0)%Z && negb (r =? 0)%Z then 1 else 0)%Z.

(** ** The slots of a component's address space *)

(** Component [spd] lives in address space [v], which is [va]. *)
Record in_vas (s : kstate) (spd : nat) (v : Z) (va : vas) : Prop := {
  iv_spd : ∃ x, k_spds s !! spd = Some x ∧ s_composite_vas x = Some v;
  iv_vas : (k_vas_list s).[v] = Some va;
  iv_len : length (v_layout va) = PGD_PER_PTBL
}.

(** [s'] is [s] with the slots [lo, hi) of address space [v] set to [o]. *)
Definition slots_set (v lo hi : Z) (o : option nat) (va : vas) (s s' : kstate) : Prop :=
  ∃ l, s' = set_k_vas_list ((k_vas_list s).[v := set_v_layout l va]) s ∧
    length l = length (v_layout va) ∧
    ∀ i, l.[i] = if decide (lo ≤ i < hi)%Z then Some o else (v_layout va).[i].

Lemma spd_slot_run s spd v va i o :
  in_vas s spd v va → (v_layout va).[i] = Some o → spd_slot spd i s = Done o s.
Proof.
  intros [(x & Hx & Hv) Hva _] Ho. unfold spd_slot.
  rewrite (bind_run _ _ _ _ _ (get_spd_run _ _ _ Hx)), Hv.
  erewrite bind_run by reflexivity. erewrite bind_run.
  2: { unfold get_vas. erewrite bind_run by reflexivity. by rewrite Hva. }
  by rewrite Ho.
Qed.

Lemma spd_set_slot_run s spd v va i o p :
  in_vas s spd v va → (v_layout va).[i] = Some o →
  spd_set_slot spd i p s =
    Done tt (set_k_vas_list
      ((k_vas_list s).[v := set_v_layout ((v_layout va).[i := p]) va]) s).
Proof.
  intros [(x & Hx & Hv) Hva _] Ho. unfold spd_set_slot.
  rewrite (bind_run _ _ _ _ _ (get_spd_run _ _ _ Hx)), Hv.
  erewrite bind_run by reflexivity. erewrite bind_run.
  2: { unfold get_vas. erewrite bind_run by reflexivity. by rewrite Hva. }
  by rewrite Ho.
Qed.

Lemma slots_set_wp s spd v va lo hi o :
  in_vas s spd v va → (0 ≤ lo ≤ hi)%Z → (hi ≤ Z.of_nat PGD_PER_PTBL)%Z →
  wp (for_range lo hi (λ i, spd_set_slot spd i o)) (λ _, slots_set v lo hi o va s) s.
Proof.
  intros Hin Hlo Hhi. destruct Hin as [Hx Hva Hlen] eqn:E.
  apply (for_range_wp (λ i, slots_set v lo i o va s)); [lia| |].
  - exists (v_layout va). split_and!; [|done|].
    + replace (set_v_layout (v_layout va) va) with va by by destruct va.
      rewrite (zinsert_id _ _ _ Hva). by destruct s.
    + intros i. by rewrite decide_False by lia.
  - intros i s' Hi (l & -> & Hl & Hli).
    destruct (zlookup_is_Some l i) as [p Hp]; [lia|].
    unfold wp. rewrite (spd_set_slot_run _ spd v (set_v_layout l va) i p).
    + exists (l.[i := o]). cbn. rewrite zinsert_zinsert. split_and!.
      * by destruct va.
      * by rewrite length_zinsert.
      * intros j. rewrite (zlookup_zinsert _ _ _ _ _ Hp), Hli.
        by repeat case_decide; try lia.
    + split; cbn; [done|by eapply zlookup_zinsert_eq|lia].
    + done.
Qed.

Lemma slots_taken_run s spd v va n i :
  in_vas s spd v va → (0 ≤ i)%Z → (i + Z.of_nat n ≤ Z.of_nat PGD_PER_PTBL)%Z →
  (slots_taken n spd i s = Done false s ∧
    ∀ j, (i ≤ j < i + Z.of_nat n)%Z → (v_layout va).[j] = Some None) ∨
  (slots_taken n spd i s = Done true s ∧
    ∃ j o, (i ≤ j < i + Z.of_nat n)%Z ∧ (v_layout va).[j] = Some (Some o)).
Proof.
  intros Hin. revert i. induction n as [|n IH]; intros i Hi Hn.
  { left. split; [done|]. intros j Hj. lia. }
  destruct (zlookup_is_Some (v_layout va) i) as [o Ho].
  { rewrite (iv_len _ _ _ _ Hin). lia. }
  cbn [slots_taken]. rewrite (bind_run _ _ _ _ _ (spd_slot_run _ _ _ _ _ _ Hin Ho)).
  destruct o as [o|].
  - right. split; [done|]. exists i, o. split; [lia|done].
  - destruct (IH (i + 1)%Z) as [[Hr Hall]|[Hr (j & o & Hj & Hjo)]]; [lia|lia| |].
    + left. split; [done|]. intros j Hj. destruct (decide (j = i)) as [->|]; [done|].
      apply Hall. lia.
    + right. split; [done|]. exists j, o. split; [lia|done].
Qed.

Lemma shiftr_bound a : (0 ≤ a < 2 ^ 32)%Z → (0 ≤ Z.shiftr a HPAGE_SHIFT < 1024)%Z.
Proof.
  intros Ha. unfold HPAGE_SHIFT. rewrite Z.shiftr_div_pow2 by lia.
  split; [apply Z.div_pos; lia|]. apply Z.div_lt_upper_bound; lia.
Qed.

Lemma namespace_alloc_run s spd v va addr size :
  in_vas s spd v va → (0 ≤ addr < 2 ^ 32)%Z → (0 ≤ size < 2 ^ 32)%Z →
  let lo := Z.shiftr addr HPAGE_SHIFT in
  let hi := (lo + Z.shiftr size HPAGE_SHIFT)%Z in
  (hi ≤ Z.of_nat PGD_PER_PTBL)%Z →
  (∃ s', virtual_namespace_alloc spd addr size s = Done 1%Z s' ∧
     slots_set v lo hi (Some spd) va s s' ∧
     ∀ i, (lo ≤ i < hi)%Z → (v_layout va).[i] = Some None) ∨
  (virtual_namespace_alloc spd addr size s = Done 0%Z s ∧
     ∃ i o, (lo ≤ i < hi)%Z ∧ (v_layout va).[i] = Some (Some o)).
Proof.
  intros Hin Ha Hs lo hi Hhi.
  pose proof (shiftr_bound _ Ha) as Hlo. pose proof (shiftr_bound _ Hs) as Hsz.
  unfold virtual_namespace_alloc. cbv zeta. fold lo. fold hi.
  rewrite u32_id by (unfold PGD_PER_PTBL in Hhi; lia).
  destruct (slots_taken_run s spd v va (Z.to_nat (hi - lo)) lo Hin)
    as [[Hr Hall]|[Hr (j & o & Hj & Ho)]]; [lia|lia| |].
  - left. rewrite (bind_run _ _ _ _ _ Hr).
    destruct (proj1 (wp_Done _ _ _) (slots_set_wp s spd v va lo hi (Some spd) Hin
      ltac:(lia) Hhi)) as (u & s' & Hrun & Hset).
    exists s'. rewrite (bind_run _ _ _ _ _ Hrun). split_and!; [done|done|].
    intros i Hi. apply Hall. lia.
  - right. rewrite (bind_run _ _ _ _ _ Hr). split; [done|].
    exists j, o. split; [lia|done].
Qed.

(** Allocating a range of an address space succeeds exactly when all of
    its 4MB slots are free, and then gives all of them, and nothing else, to
    the component; when a slot is taken the call reports it and changes
    nothing. *)
Theorem namespace_alloc_exclusive s spd v va addr size :
  in_vas s spd v va → (0 ≤ addr < 2 ^ 32)%Z → (0 ≤ size < 2 ^ 32)%Z →
  let lo := Z.shiftr addr HPAGE_SHIFT in
  let hi := (lo + Z.shiftr size HPAGE_SHIFT)%Z in
  (hi ≤ Z.of_nat PGD_PER_PTBL)%Z →
  (∃ s', virtual_namespace_alloc spd addr size s = Done 1%Z s' ∧
     slots_set v lo hi (Some spd) va s s' ∧
     ∀ i, (lo ≤ i < hi)%Z → (v_layout va).[i] = Some None) ∨
  (virtual_namespace_alloc spd addr size s = Done 0%Z s ∧
     ∃ i o, (lo ≤ i < hi)%Z ∧ (v_layout va).[i] = Some (Some o)).
Proof. apply namespace_alloc_run. Qed.

(** Component 3 in address space 0, whose slot 300 is component 5's. *)
Definition vas_demo_vas : vas :=
  set_v_layout ((v_layout vas0).[300 := Some 5]) vas0.
Definition vas_demo : kstate :=
  set_k_spds (<[3 := set_s_composite_vas (Some 0%Z) spd0]> (k_spds k_zero))
    (set_k_vas_list [vas_demo_vas; vas0] k_zero).

Lemma vas_demo_in : in_vas vas_demo 3 0 vas_demo_vas.
Proof. split; [by eexists|done|done]. Qed.

Lemma namespace_alloc_exclusive_witness :
  (∃ s', virtual_namespace_alloc 3 1254096896 8388608 vas_demo = Done 1%Z s' ∧
     slots_set 0 299 301 (Some 3) vas_demo_vas vas_demo s' ∧
     ∀ i, (299 ≤ i < 301)%Z → (v_layout vas_demo_vas).[i] = Some None) ∨
  (virtual_namespace_alloc 3 1254096896 8388608 vas_demo = Done 0%Z vas_demo ∧
     ∃ i o, (299 ≤ i < 301)%Z ∧ (v_layout vas_demo_vas).[i] = Some (Some o)).
Proof.
  apply (namespace_alloc_exclusive vas_demo 3 0 vas_demo_vas 1254096896 8388608);
    [apply vas_demo_in|lia|lia|vm_compute; done].
Defined.

(** *** Free after allocate *)

Lemma zlist_eq {A} (l l' : list A) :
  length l = length l' → (∀ i, l.[i] = l'.[i]) → l = l'.
Proof.
  intros Hlen H. apply list_eq. intros k. specialize (H (Z.of_nat k)).
  unfold zlookup in H. destruct (Z.ltb_spec (Z.of_nat k) 0); [lia|].
  by rewrite Nat2Z.id in H.
Qed.

Lemma namespace_query_run s spd v va addr o :
  in_vas s spd v va → (v_layout va).[Z.shiftr addr HPAGE_SHIFT] = Some o →
  virtual_namespace_query addr (Some v) s = Done o s.
Proof.
  intros [_ Hva _] Ho. unfold virtual_namespace_query, get_vas.
  erewrite bind_run by reflexivity. erewrite bind_run.
  2: { erewrite bind_run by reflexivity. by rewrite Hva. }
  by rewrite Ho.
Qed.

Lemma in_vas_slots_set s spd v va lo hi o s' :
  in_vas s spd v va → slots_set v lo hi o va s s' →
  ∃ l, in_vas s' spd v (set_v_layout l va) ∧ length l = length (v_layout va) ∧
    s' = set_k_vas_list ((k_vas_list s).[v := set_v_layout l va]) s ∧
    ∀ i, l.[i] = if decide (lo ≤ i < hi)%Z then Some o else (v_layout va).[i].
Proof.
  intros [Hx Hva Hlen] (l & -> & Hl & Hli). exists l. split_and!; try done.
  split; cbn; [done|by eapply zlookup_zinsert_eq|congruence].
Qed.

(** The ownership test of a range that starts on an owned slot. *)
Lemma owned_loop_first fuel s spd v va addr n :
  in_vas s spd v va → (0 ≤ addr)%Z → (addr + HPAGE_SIZE < 2 ^ 32)%Z → (0 < n < 1024)%Z →
  (v_layout va).[Z.shiftr addr HPAGE_SHIFT] = Some (Some spd) →
  owned_loop (S fuel) spd addr (u32 (addr + n)) s = Done true s.
Proof.
  intros Hin Ha Hlt Hn Ho. pose proof Hin as [(x & Hx & Hv) _ _].
  unfold HPAGE_SIZE in Hlt. rewrite u32_id by lia.
  cbn [owned_loop]. destruct (Z.leb_spec (addr + n) addr); [lia|].
  rewrite (bind_run _ _ _ _ _ (get_spd_run _ _ _ Hx)), Hv.
  rewrite (bind_run _ _ _ _ _ (namespace_query_run _ _ _ _ _ _ Hin Ho)).
  rewrite bool_decide_eq_true_2 by done. cbn [negb].
  unfold HPAGE_SIZE. rewrite u32_id by lia.
  destruct fuel; cbn [owned_loop]; by destruct (Z.leb_spec (addr + n) (addr + 2 ^ 22)); [|lia].
Qed.

(** Freeing a range right after allocating it restores the address space
    exactly, and in between every address of the range is found to belong to
    the component. *)
Theorem namespace_alloc_free s spd v va addr size s1 :
  in_vas s spd v va → (0 ≤ addr)%Z → (2 ^ 22 ≤ size < 2 ^ 32)%Z →
  let lo := Z.shiftr addr HPAGE_SHIFT in
  let hi := (lo + Z.shiftr size HPAGE_SHIFT)%Z in
  (hi < Z.of_nat PGD_PER_PTBL)%Z →
  virtual_namespace_alloc spd addr size s = Done 1%Z s1 →
  (∀ a, (lo ≤ Z.shiftr a HPAGE_SHIFT < hi)%Z →
        virtual_namespace_query a (Some v) s1 = Done (Some spd) s1) ∧
  virtual_namespace_free spd addr size s1 = Done 1%Z s.
Proof.
  intros Hin Ha Hs lo hi Hhi Hrun.
  assert (1 ≤ Z.shiftr size HPAGE_SHIFT)%Z as Hn.
  { unfold HPAGE_SHIFT. rewrite Z.shiftr_div_pow2 by lia. apply Z.div_le_lower_bound; lia. }
  assert (addr + HPAGE_SIZE < 2 ^ 32)%Z as Htop.
  { assert (lo < 1023)%Z as Hl by (unfold PGD_PER_PTBL in Hhi; lia).
    unfold lo, HPAGE_SHIFT in Hl. rewrite Z.shiftr_div_pow2 in Hl by lia.
    pose proof (Z.mul_succ_div_gt addr (2 ^ 22) ltac:(lia)). unfold HPAGE_SIZE. lia. }
  unfold HPAGE_SIZE in Htop.
  pose proof (shiftr_bound addr ltac:(lia)) as Hlo. fold lo in Hlo.
  pose proof (shiftr_bound size ltac:(lia)) as Hsz.
  destruct (namespace_alloc_run s spd v va addr size Hin ltac:(lia) ltac:(lia) ltac:(fold lo hi; lia))
    as [(s1' & Hr & Hset & Hfree)|[Hr _]]; rewrite Hr in Hrun; simplify_eq.
  destruct (in_vas_slots_set _ _ _ _ _ _ _ _ Hin Hset) as (l & Hin1 & Hlen & Heq & Hl).
  fold lo hi in Hl, Hfree. split.
  { intros a Hal. eapply namespace_query_run; [exact Hin1|]. cbn. by rewrite Hl, decide_True. }
  unfold virtual_namespace_free. cbv zeta. fold lo hi.
  rewrite (bind_run _ _ _ _ _ (owned_loop_first _ _ _ _ _ addr (Z.shiftr size HPAGE_SHIFT)
    Hin1 Ha ltac:(unfold HPAGE_SIZE; lia) ltac:(lia)
    ltac:(cbn; fold lo; by rewrite Hl, decide_True by lia))).
  cbn [negb]. rewrite u32_id by (unfold PGD_PER_PTBL in Hhi; lia).
  destruct (proj1 (wp_Done _ _ _) (slots_set_wp s1 spd v (set_v_layout l va) lo hi None Hin1
      ltac:(lia) ltac:(lia))) as (u & s2 & Hrun & (l2 & -> & Hlen2 & Hl2)).
  rewrite (bind_run _ _ _ _ _ Hrun). unfold mret, M_ret. f_equal.
  assert (l2 = v_layout va) as ->.
  { apply zlist_eq; [cbn in Hlen2; congruence|]. intros i. rewrite Hl2. cbn. rewrite Hl.
    case_decide; [symmetry; by apply Hfree|done]. }
  rewrite Heq. cbn. rewrite zinsert_zinsert.
  destruct Hin as [_ Hva _].
  replace (set_v_layout (v_layout va) (set_v_layout l va)) with va by by destruct va.
  rewrite (zinsert_id _ _ _ Hva). by destruct s.
Qed.

Lemma namespace_alloc_free_witness :
  ∃ s1, virtual_namespace_alloc 3 1258291200 8388608
          (set_k_vas_list [vas0; vas0] vas_demo) = Done 1%Z s1 ∧
    virtual_namespace_free 3 1258291200 8388608 s1 =
      Done 1%Z (set_k_vas_list [vas0; vas0] vas_demo).
Proof.
  destruct (virtual_namespace_alloc 3 1258291200 8388608
              (set_k_vas_list [vas0; vas0] vas_demo)) as [r s1|f] eqn:Hr;
    [|vm_compute in Hr; discriminate Hr].
  assert (r = 1%Z) as -> by (vm_compute in Hr; by simplify_eq).
  exists s1. split; [done|].
  eapply (namespace_alloc_free _ 3 0 vas0 1258291200 8388608 s1);
    [split; [by eexists|done|done]|lia|lia|vm_compute; done|exact Hr].
Defined.
