(* ===== verification/Mpd.v ===== *)
(** * Mutable protection domains (src/kernel/spd.c, include/spd.h)

    A component executes in a protection domain: its own ([&spd->spd_info]) or
    that of a [struct composite_spd], which several components share.  This
    file has the life of the composites (descriptor free list, reference
    counts, deprecation, subordination of one composite's page table to
    another's), the ring of the members of a composite, the change of the
    isolation level of the capabilities between members that goes with joining
    and leaving it, and the allocation and release of component descriptors.

    The reference count is an [int] that is read as an [unsigned int].  A
    [struct spd_poly *] that is cast to [struct composite_spd *] may in fact
    point into a component: its count is updated like a composite's, and
    only going on to treat it as a composite is the fault [BadCast]. *)

From stdpp Require Import base list numbers option gmap.
From S2P Require Import Prelude Kern Caps PageMem Vas.

(** ** Reference counts and flags *)

Definition cos_ref_take (i : spd_poly) : spd_poly :=
  set_p_ref_cnt (s32 (p_ref_cnt i + 1)) i.
Definition cos_ref_set (val : Z) (i : spd_poly) : spd_poly := set_p_ref_cnt (s32 val) i.
Definition cos_ref_val (i : spd_poly) : Z := u32 (p_ref_cnt i).
Definition cos_ref_release (i : spd_poly) : spd_poly :=
  set_p_ref_cnt (s32 (p_ref_cnt i - 1)) i.

Definition spd_is_composite (i : spd_poly) : bool := has (p_flags i) SPD_COMPOSITE.
(** [s->spd_info.flags | SPD_ACTIVE] *)
Definition spd_is_active (x : spd) : bool := negb (bset (p_flags (s_info x)) SPD_ACTIVE =? 0)%Z.
Definition spd_make_active (i : nat) : K unit :=
  upd_poly (PolySpd i) (λ p, set_p_flags (bset (p_flags p) SPD_ACTIVE) p).
Definition spd_is_scheduler (x : spd) : bool := (0 <=? s_sched_depth x)%Z.
Definition spd_is_root_sched (x : spd) : bool := (s_sched_depth x =? 0)%Z.
Definition spd_is_member (x : spd) (cspd : nat) : bool :=
  bool_decide (s_composite_spd x = PolyMpd cspd).
Definition spd_mpd_is_depricated (c : composite_spd) : bool :=
  has (p_flags (m_info c)) SPD_DEPRICATED.
Definition spd_mpd_is_subordinate (c : composite_spd) : bool :=
  has (p_flags (m_info c)) SPD_SUBORDINATE.

Definition spd_mpd_reset_flags (j : nat) : K unit :=
  upd_poly (PolyMpd j) (set_p_flags 0).
Definition spd_mpd_set_flags (j : nat) (flags : Z) : K unit :=
  upd_poly (PolyMpd j) (λ p, set_p_flags (bset (p_flags p) flags) p).
Definition spd_mpd_remove_flags (j : nat) (flags : Z) : K unit :=
  upd_poly (PolyMpd j) (λ p, set_p_flags (bclr (p_flags p) flags) p).

Definition spd_mpd_take (p : polyp) : K unit := upd_poly p cos_ref_take.
Definition spd_mpd_ipc_take (p : polyp) : K unit := spd_mpd_take p.

(** ** Descriptors *)

Definition spd_init_mpd_descriptors : K unit :=
  modify (set_k_mpd_free (Some 0));;
  for_range 0 (Z.of_nat MAX_MPD_DESC) (λ i,
    let j := Z.to_nat i in
    spd_mpd_reset_flags j;;
    spd_mpd_set_flags j (Z.lor SPD_COMPOSITE SPD_FREE);;
    upd_poly (PolyMpd j) (cos_ref_set 0);;
    upd_mpd j (set_m_next (Some (S j)));;
    upd_mpd j (set_m_members None);;
    upd_mpd j (λ c, set_m_master_spd None (set_m_prev None c)));;
  upd_mpd (MAX_MPD_DESC - 1) (set_m_next None).

(** A negative index is not tested: it is a pointer in front of the array. *)
Definition spd_mpd_by_idx (idx : Z) : K (option nat) :=
  if (Z.of_nat MAX_MPD_DESC <=? idx)%Z then mret None
  else if (idx <? 0)%Z then fail OutOfBounds
  else mret (Some (Z.to_nat idx)).

Definition spd_mpd_index (j : nat) : Z :=
  let idx := s16 (Z.of_nat j) in
  if (Z.of_nat MAX_MPD_DESC <=? idx)%Z || (idx <? 0)%Z then -1 else idx.

Definition spd_alloc_mpd_desc : K Z :=
  head ← gets k_mpd_free;
  match head with
  | None => mret (-1)%Z
  | Some new =>
      c ← get_mpd new;
      let fc := Z.lor SPD_FREE SPD_COMPOSITE in
      assert (Z.land (p_flags (m_info c)) fc =? fc)%Z;;
      assert (0 =? cos_ref_val (m_info c))%Z;;
      assert (bool_decide (m_members c = None));;
      modify (set_k_mpd_free (m_next c));;
      upd_mpd new (λ c, set_m_next (Some new) (set_m_prev (Some new) c));;
      upd_mpd new (λ c, set_m_members None (set_m_master_spd None c));;
      spd_mpd_remove_flags new SPD_FREE;;
      pgtbl ← spd_alloc_pgtbl;
      if (pgtbl =? 0)%Z then
        spd_mpd_set_flags new SPD_FREE;;
        h ← gets k_mpd_free;
        upd_mpd new (λ c, set_m_prev None (set_m_next h c));;
        modify (set_k_mpd_free (Some new));;
        mret (-1)%Z
      else
        spd_mpd_take (PolyMpd new);;
        upd_poly (PolyMpd new) (set_p_pg_tbl pgtbl);;
        mret (spd_mpd_index new)
  end.

Definition spd_alloc_mpd : K (option nat) :=
  d ← spd_alloc_mpd_desc; spd_mpd_by_idx d.

(** [spd_mpd_release], whose recursion goes to the master of a subordinate.
    The assertion [0 <= cos_ref_val(..)] compares an unsigned number. *)
Fixpoint mpd_release (fuel : nat) (cspd : polyp) : K unit :=
  match fuel with
  | O => fail NoFuel
  | S fuel' =>
      upd_poly cspd cos_ref_release;;
      i ← get_poly cspd;
      if negb (0 =? cos_ref_val i)%Z then mret tt else
      j ← as_mpd cspd;
      c ← get_mpd j;
      assert (bool_decide (m_members c = None));;
      assert (spd_mpd_is_depricated c || spd_mpd_is_subordinate c);;
      n ← deref (m_next c);
      upd_mpd n (set_m_prev (m_prev c));;
      c ← get_mpd j;
      p ← deref (m_prev c);
      upd_mpd p (set_m_next (m_next c));;
      head ← gets k_mpd_free;
      upd_mpd j (λ c, set_m_prev None (set_m_next head c));;
      modify (set_k_mpd_free (Some j));;
      c ← get_mpd j;
      match m_master_spd c with
      | Some m =>
          assert (spd_mpd_is_subordinate c);;
          mpd_release fuel' (PolyMpd m);;
          upd_mpd j (set_m_master_spd None)
      | None =>
          cos_put_pg_pool (pa_to_va (p_pg_tbl (m_info c)));;
          upd_poly (PolyMpd j) (set_p_pg_tbl 0)
      end;;
      spd_mpd_reset_flags j;;
      spd_mpd_set_flags j (Z.lor SPD_FREE SPD_COMPOSITE)
  end.

Definition spd_mpd_release (cspd : polyp) : K unit := mpd_release MAX_MPD_DESC cspd.
Definition spd_mpd_ipc_release (cspd : polyp) : K unit := spd_mpd_release cspd.

Definition spd_mpd_depricate (j : nat) : K unit :=
  spd_mpd_set_flags j SPD_DEPRICATED;;
  spd_mpd_release (PolyMpd j).

Definition spd_mpd_release_desc (desc : Z) : K unit :=
  assert (desc <? Z.of_nat MAX_MPD_DESC)%Z;;
  if (desc <? 0)%Z then fail OutOfBounds
  else spd_mpd_release (PolyMpd (Z.to_nat desc)).

(** ** Subordination *)

(** The [do]..[while] of [spd_mpd_subordinate], from [n] on. *)
Fixpoint subordinate_loop (fuel : nat) (s m : nat) (pt : Z) (n : nat) : K unit :=
  match fuel with
  | O => fail NoFuel
  | S fuel' =>
      c ← get_mpd n;
      assert (spd_mpd_is_subordinate c);;
      let old_m := m_master_spd c in
      assert (bool_decide (old_m ≠ Some m));;
      assert (bool_decide (old_m = None) || bool_decide (old_m = Some s));;
      upd_mpd n (set_m_master_spd (Some m));;
      upd_poly (PolyMpd n) (set_p_pg_tbl pt);;
      spd_mpd_take (PolyMpd m);;
      c ← get_mpd n;
      next ← deref (m_next c);
      match old_m with
      | Some o => spd_mpd_release (PolyMpd o)
      | None => mret tt
      end;;
      if decide (next = s) then mret tt
      else subordinate_loop fuel' s m pt next
  end.

Definition spd_mpd_subordinate (s m : nat) : K unit :=
  cs ← get_mpd s;
  cm ← get_mpd m;
  assert (negb (spd_mpd_is_subordinate cm));;
  assert (negb (spd_mpd_is_depricated cs) && negb (spd_mpd_is_depricated cm));;
  subordinate_loop MAX_MPD_DESC s m (p_pg_tbl (m_info cm)) s;;
  cs ← get_mpd s;
  assert (bool_decide (m_members cs = None));;
  cm ← get_mpd m;
  let p := m_prev cm in
  let e := m_prev cs in
  upd_mpd m (set_m_prev e);;
  e' ← deref e;
  upd_mpd e' (set_m_next (Some m));;
  upd_mpd s (set_m_prev p);;
  p' ← deref p;
  upd_mpd p' (set_m_next (Some s)).

(** The number of members, walking the ring from [iter] on. *)
Fixpoint num_members_loop (fuel : nat) (cspd iter : nat) (n : Z) : K Z :=
  match fuel with
  | O => fail NoFuel
  | S fuel' =>
      x ← get_spd iter;
      c ← get_mpd cspd;
      if decide (s_member_next x = m_members c) then mret (n + 1)%Z
      else
        next ← deref (s_member_next x);
        num_members_loop fuel' cspd next (n + 1)
  end.

Definition spd_composite_num_members (cspd : nat) : K Z :=
  c ← get_mpd cspd;
  match m_members c with
  | None => mret 0%Z
  | Some first => num_members_loop MAX_NUM_SPDS cspd first 0
  end.

Definition spd_mpd_make_subordinate (master slave : nat) : K unit :=
  cs ← get_mpd slave;
  cm ← get_mpd master;
  assert (negb (spd_mpd_is_subordinate cs) && negb (spd_mpd_is_subordinate cm));;
  n ← spd_composite_num_members slave;
  assert (0 =? n)%Z;;
  assert (negb (spd_mpd_is_depricated cm) && negb (spd_mpd_is_depricated cs));;
  assert (negb (cos_ref_val (m_info cs) =? 0)%Z);;
  spd_mpd_set_flags slave SPD_SUBORDINATE;;
  (if (1 <? cos_ref_val (m_info cs))%Z then
     cos_put_pg_pool (pa_to_va (p_pg_tbl (m_info cs)));;
     spd_mpd_subordinate slave master
   else assert (bool_decide (m_members cs = None)));;
  spd_mpd_release (PolyMpd slave).

Definition spd_mpd_free_all : K unit :=
  for_range 0 (Z.of_nat MAX_MPD_DESC) (λ i,
    let j := Z.to_nat i in
    c ← get_mpd j;
    when (negb (has (p_flags (m_info c)) SPD_FREE))
      (when (negb (spd_mpd_is_subordinate c))
         (cos_put_pg_pool (pa_to_va (p_pg_tbl (m_info c)));;
          upd_poly (PolyMpd j) (set_p_pg_tbl 0))));;
  spd_init_mpd_descriptors.

(** The [do]..[while] of [spd_mpd_terminate], from the member [i] on. *)
Fixpoint terminate_loop (fuel : nat) (cspd i : nat) : K unit :=
  match fuel with
  | O => fail NoFuel
  | S fuel' =>
      x ← get_spd i;
      let next := s_member_next x in
      upd_spd i (set_s_composite_spd (PolySpd i));;
      upd_spd i (λ x, set_s_member_next (Some i) (set_s_member_prev (Some i) x));;
      assert (bool_decide (next ≠ None));;
      c ← get_mpd cspd;
      if decide (next = m_members c) then mret tt
      else n ← deref next; terminate_loop fuel' cspd n
  end.

Definition spd_mpd_terminate (cspd : nat) : K unit :=
  c ← get_mpd cspd;
  match m_members c with
  | None => mret tt
  | Some i => terminate_loop MAX_NUM_SPDS cspd i
  end;;
  upd_mpd cspd (set_m_members None);;
  spd_mpd_depricate cspd.

(** ** Isolation levels between members *)

Definition spd_in_composite (d cspd : nat) : K bool :=
  x ← get_spd d; mret (spd_is_member x cspd).

(** [old = cap_change_isolation(i, il, 0); assert(old != il && old != IL_INV);] *)
Definition chg_il (i il : Z) : K unit :=
  old ← cap_change_isolation i il 0;
  assert (negb (old =? il)%Z && negb (old =? IL_INV)%Z).

Definition spd_chg_il_spd_to_all (spd cspd : nat) (il : Z) : K unit :=
  x ← get_spd spd;
  if (s_cap_range x =? 0)%Z then mret tt else
  let cap_lower := u16 (s_cap_base x + 1) in
  let cap_range := u16 (s_cap_range x - 1) in
  for_range cap_lower (cap_lower + cap_range) (λ i,
    cap ← get_cap i;
    match c_destination cap with
    | Some dest =>
        if decide (dest = spd) then mret tt else
        m ← spd_in_composite dest cspd;
        when m (chg_il i il)
    | None => mret tt
    end).

(** The capabilities of one member [x] to [spd]. *)
Definition chg_il_one_to_spd (x : spd) (spd : nat) (il : Z) : K unit :=
  let cap_lower := u16 (s_cap_base x + 1) in
  if (s_cap_range x <=? 0)%Z then mret tt else
  let cap_range := u16 (s_cap_range x - 1) in
  for_range cap_lower (cap_lower + cap_range) (λ i,
    cap ← get_cap i;
    when (bool_decide (c_owner cap ≠ OwnerSpd spd) &&
          bool_decide (c_destination cap = Some spd)) (chg_il i il)).

Fixpoint chg_il_all_loop (fuel : nat) (cspd spd : nat) (il : Z) (curr : nat) : K unit :=
  match fuel with
  | O => fail NoFuel
  | S fuel' =>
      x ← get_spd curr;
      chg_il_one_to_spd x spd il;;
      x ← get_spd curr;
      assert (bool_decide (s_member_next x ≠ None));;
      c ← get_mpd cspd;
      if decide (s_member_next x = m_members c) then mret tt
      else
        next ← deref (s_member_next x);
        chg_il_all_loop fuel' cspd spd il next
  end.

Definition spd_chg_il_all_to_spd (cspd spd : nat) (il : Z) : K unit :=
  c ← get_mpd cspd;
  assert (spd_is_composite (m_info c));;
  match m_members c with
  | None => mret tt
  | Some curr => chg_il_all_loop MAX_NUM_SPDS cspd spd il curr
  end.

Definition spd_add_caps (cspd new_spd : nat) : K unit :=
  spd_chg_il_all_to_spd cspd new_spd IL_ST;;
  spd_chg_il_spd_to_all new_spd cspd IL_ST.

Definition spd_remove_caps (cspd spd : nat) : K unit :=
  spd_chg_il_all_to_spd cspd spd IL_SDT;;
  spd_chg_il_spd_to_all spd cspd IL_SDT.

(** ** Members *)

(** The body of the loops over [spd->location]. *)
Definition each_location (spd : nat) (f : spd_location → K unit) : K unit :=
  for_range 0 (Z.of_nat MAX_SPD_VAS_LOCATIONS) (λ i,
    x ← get_spd spd;
    l ← bound ((s_location x).[i]);
    when (negb (l_size l =? 0)%Z) (f l)).

Definition spd_remove_mappings (cspd spd : nat) : K unit :=
  c ← get_mpd cspd;
  each_location spd (λ l,
    zero_pgtbl_range (p_pg_tbl (m_info c)) (l_lowest_addr l) (l_size l)).

Definition spd_add_mappings (cspd spd : nat) : K unit :=
  each_location spd (λ l,
    c ← get_mpd cspd;
    x ← get_spd spd;
    copy_pgtbl_range (p_pg_tbl (m_info c)) (p_pg_tbl (s_info x))
      (l_lowest_addr l) (l_size l)).

(** [spd->location[0].lowest_addr] *)
Definition lowest_addr (spd : nat) : K Z :=
  x ← get_spd spd;
  l ← bound ((s_location x).[0]);
  mret (l_lowest_addr l).

Definition composite_entry_absent (cspd spd : nat) : K bool :=
  c ← get_mpd cspd;
  a ← lowest_addr spd;
  pgtbl_entry_absent (p_pg_tbl (m_info c)) a.

(** The linked-list part of [spd_composite_add_member]. *)
Definition member_link (cspd spd : nat) : K unit :=
  c ← get_mpd cspd;
  match m_members c with
  | Some next =>
      n ← get_spd next;
      assert (bool_decide (s_member_prev n ≠ None));;
      prev ← deref (s_member_prev n);
      upd_spd spd (set_s_member_next (Some next));;
      upd_spd spd (set_s_member_prev (Some prev));;
      upd_spd prev (set_s_member_next (Some spd));;
      upd_spd next (set_s_member_prev (Some spd))
  | None =>
      upd_spd spd (set_s_member_next (Some spd));;
      upd_spd spd (set_s_member_prev (Some spd))
  end;;
  upd_mpd cspd (set_m_members (Some spd));;
  upd_spd spd (set_s_composite_spd (PolyMpd cspd)).

Definition spd_composite_add_member (cspd spd : nat) : K Z :=
  c ← get_mpd cspd;
  assert (negb (spd_mpd_is_depricated c));;
  assert (negb (spd_mpd_is_subordinate c));;
  x ← get_spd spd;
  assert (bool_decide (PolySpd spd = s_composite_spd x));;
  absent ← composite_entry_absent cspd spd;
  assert absent;;
  spd_add_caps cspd spd;;
  spd_add_mappings cspd spd;;
  absent ← composite_entry_absent cspd spd;
  if (absent : bool) then
    a ← lowest_addr spd;
    _ ← pgtbl_entry_absent (p_pg_tbl (s_info x)) a;
    mret (-1)%Z
  else
    member_link cspd spd;;
    mret 0%Z.

(** The linked-list part of [spd_composite_remove_member]. *)
Definition member_unlink (cspd spd : nat) : K unit :=
  x ← get_spd spd;
  let prev := s_member_prev x in
  let next := s_member_next x in
  assert (bool_decide (next ≠ None) && bool_decide (prev ≠ None));;
  n ← deref next;
  p ← deref prev;
  upd_spd n (set_s_member_prev prev);;
  upd_spd p (set_s_member_next next);;
  upd_spd spd (λ x, set_s_member_prev (Some spd) (set_s_member_next (Some spd) x));;
  upd_spd spd (set_s_composite_spd (PolySpd spd));;
  c ← get_mpd cspd;
  if decide (m_members c = Some spd) then
    if decide (spd = n) then upd_mpd cspd (set_m_members None)
    else upd_mpd cspd (set_m_members next)
  else mret tt.

Definition spd_composite_remove_member (spd : nat) (remove_mappings : bool) : K Z :=
  x ← get_spd spd;
  i ← get_poly (s_composite_spd x);
  assert (spd_is_composite i);;
  cspd ← as_mpd (s_composite_spd x);
  c ← get_mpd cspd;
  assert (negb (spd_mpd_is_depricated c) && negb (spd_mpd_is_subordinate c));;
  absent ← composite_entry_absent cspd spd;
  assert (negb absent);;
  member_unlink cspd spd;;
  spd_remove_caps cspd spd;;
  when remove_mappings
    (spd_remove_mappings cspd spd;;
     absent ← composite_entry_absent cspd spd;
     assert absent);;
  c ← get_mpd cspd;
  assert (0 <? cos_ref_val (m_info c))%Z;;
  mret 0%Z.

Definition spd_composite_move_member (cspd_new spd : nat) (remove_mappings : bool) : K Z :=
  r ← spd_composite_remove_member spd remove_mappings;
  if negb (r =? 0)%Z then mret (-1)%Z else
  a ← spd_composite_add_member cspd_new spd;
  if negb (a =? 0)%Z then mret (-1)%Z else mret 0%Z.

(** ** Component descriptors *)

Definition spd_is_free (idx : Z) : K bool :=
  l ← gets k_spds;
  x ← bound (l.[idx]);
  mret (has (p_flags (s_info x)) SPD_FREE).

Definition spd_get_by_index (idx : Z) : K (option nat) :=
  if (Z.of_nat MAX_NUM_SPDS <=? idx)%Z then mret None else
  f ← spd_is_free idx;
  mret (if (f : bool) then None else Some (Z.to_nat idx)).

Definition spd_init_all : K unit :=
  for_range 0 (Z.of_nat MAX_NUM_SPDS) (λ i,
    let j := Z.to_nat i in
    upd_poly (PolySpd j) (set_p_flags SPD_FREE);;
    upd_spd j (set_s_composite_spd (PolySpd j));;
    upd_spd j (set_s_freelist_next
      (if (i =? Z.of_nat MAX_NUM_SPDS - 1)%Z then None else Some (S j))));;
  modify (set_k_spd_free (Some 0)).

Definition spd_init : K unit :=
  spd_init_all;; spd_init_capabilities;; spd_init_mpd_descriptors.

Definition spd_free (spd : nat) : K unit :=
  upd_poly (PolySpd spd) (set_p_flags SPD_FREE);;
  head ← gets k_spd_free;
  upd_spd spd (set_s_freelist_next head);;
  modify (set_k_spd_free (Some spd));;
  x ← get_spd spd;
  if decide (s_composite_spd x = PolySpd spd) then mret tt
  else cspd ← as_mpd (s_composite_spd x); spd_mpd_terminate cspd.

Definition spd_free_all : K unit :=
  for_range 0 (Z.of_nat MAX_NUM_SPDS) (λ i,
    let j := Z.to_nat i in
    x ← get_spd j;
    when (negb (has (p_flags (s_info x)) SPD_FREE)) (spd_free j));;
  spd_mpd_free_all;;
  spd_init;;
  clear_pg_pool.

Definition spd_alloc (num_caps user_cap_tbl upcall_entry vas_id : Z) : K (option nat) :=
  head ← gets k_spd_free;
  match head with
  | None => mret None
  | Some spd =>
      x ← get_spd spd;
      modify (set_k_spd_free (s_freelist_next x));;
      upd_poly (PolySpd spd) (set_p_flags 0);;
      ok ← (if negb (num_caps =? 0)%Z then
              r ← spd_reserve_cap_range spd num_caps;
              mret (negb (r =? -1)%Z)
            else
              upd_spd spd (λ x, set_s_cap_base 0 (set_s_cap_range 0 x));;
              mret true);
      if negb ok then spd_free spd;; mret None else
      upd_spd spd (set_s_user_cap_tbl 0);;
      upd_spd spd (set_s_user_vaddr_cap_tbl user_cap_tbl);;
      upd_spd spd (set_s_upcall_entry upcall_entry);;
      upd_spd spd (set_s_sched_shared_page 0);;
      (if negb (num_caps =? 0)%Z && negb (user_cap_tbl =? 0)%Z then
         _ ← spd_add_static_cap (Some spd) 0 (Some spd) 0; mret tt
       else mret tt);;
      upd_spd spd (set_s_composite_spd (PolySpd spd));;
      upd_spd spd (set_s_sched_depth (-1));;
      upd_spd spd (set_s_parent_sched None);;
      upd_spd spd (λ x, set_s_member_next (Some spd) (set_s_member_prev (Some spd) x));;
      for_range 0 (Z.of_nat MAX_SPD_VAS_LOCATIONS) (λ i,
        x ← get_spd spd;
        l ← bound ((s_location x).[i]);
        upd_spd spd (set_s_location ((s_location x).[i := set_l_size 0 l])));;
      _ ← vas_spd_add vas_id spd;
      mret (Some spd)
  end.
