(* ===== verification/MpdInv.v ===== *)
(** * Membership in composites and isolation levels

    The invariant that makes mutable protection domains sound: the members of
    every composite form a well-linked ring, and two components invoke each
    other by direct calls (symmetric trust, [IL_ST]) exactly when they are
    members of the same composite, in the kernel's capability table and in the
    user-level tables that decide how a call is made.  Joining and leaving a
    composite keep it, without running into any of the assertions. *)

From stdpp Require Import base list numbers option gmap.
From S2P Require Import Prelude Ring Kern Caps PageMem Vas Mpd.

(** ** The invariant *)

Definition snx (s : kstate) (k : nat) : option nat := k_spds s !! k ≫= s_member_next.
Definition spv (s : kstate) (k : nat) : option nat := k_spds s !! k ≫= s_member_prev.

(** The members of composite [j] are [l], in the order of the ring. *)
Record members_of (s : kstate) (j : nat) (l : list nat) : Prop := {
  mo_head : ∃ c, k_mpds s !! j = Some c ∧ m_members c = head l;
  mo_nodup : NoDup l;
  mo_ring : ring (snx s) (spv s) l;
  mo_in : ∀ i, i ∈ l ↔ ∃ x, k_spds s !! i = Some x ∧ s_composite_spd x = PolyMpd j
}.

(** Capability [c] is one of [x]'s, the first ("return") one apart. *)
Definition is_cap_of (x : spd) (c : Z) : Prop :=
  (s_cap_base x < c < s_cap_base x + s_cap_range x)%Z.

(** The user-level entry [u] of a capability at level [il] with stubs [st]
    calls the function of that level. *)
Definition user_fn (il : Z) (st : usr_cap_stubs) (u : option usr_inv_cap) : Prop :=
  ∃ e fn v, il_stubs il st = Some (e, fn) ∧ u = Some v ∧ u_invocation_fn v = fn.

(** Capability [c] = [y] of component [i] = [x], to [d]: the capability is
    [i]'s, and its user-level half is that of its level. *)
Record cap_wf (s : kstate) (i : nat) (x : spd) (c : Z) (y : invocation_cap)
    (d : nat) : Prop := {
  cw_owner : c_owner y = OwnerSpd i;
  cw_dest : is_Some (k_spds s !! d);
  cw_user : user_fn (c_il y) (c_stubs y) (k_ucaps s !! ucap_of x c)
}.

Record caps_wf (s : kstate) : Prop := {
  cw_sizes : sizes_ok s;
  cw_ranges : cap_ranges_ok s;
  cw_range : ∀ i x, k_spds s !! i = Some x → (0 ≤ s_cap_range x)%Z;
  cw_ucaps : ∀ i x c i' x' c',
    k_spds s !! i = Some x → k_spds s !! i' = Some x' →
    is_cap_of x c → is_cap_of x' c' → ucap_of x c = ucap_of x' c' → c = c';
  cw_caps : ∀ i x c y d,
    k_spds s !! i = Some x → is_cap_of x c → (k_caps s).[c] = Some y →
    c_destination y = Some d → cap_wf s i x c y d
}.

(** A component calls another one directly exactly when both are in the same
    composite. *)
Definition levels_ok (s : kstate) : Prop :=
  ∀ i x c y d z,
    k_spds s !! i = Some x → is_cap_of x c → (k_caps s).[c] = Some y →
    c_destination y = Some d → k_spds s !! d = Some z → d ≠ i →
    (c_il y = IL_ST ↔ s_composite_spd x = s_composite_spd z).

(** Every component is in its own domain or in the ring of one composite. *)
Record members_ok (s : kstate) : Prop := {
  mk_self : ∀ i x k,
    k_spds s !! i = Some x → s_composite_spd x = PolySpd k → k = i;
  mk_rings : ∀ j, j < MAX_MPD_DESC → ∃ l, members_of s j l;
  mk_mpd : ∀ i x j,
    k_spds s !! i = Some x → s_composite_spd x = PolyMpd j → j < MAX_MPD_DESC
}.

Record mpd_ok (s : kstate) : Prop := {
  mk_caps : caps_wf s;
  mk_levels : levels_ok s;
  mk_members : members_ok s
}.

(** ** Changing the level of a set of capabilities *)

Lemma il_stubs_cases il st e fn :
  il_stubs il st = Some (e, fn) → il = IL_ST ∨ il = IL_AST ∨ il = IL_SDT.
Proof.
  unfold il_stubs. repeat case_match; intros; simplify_eq;
    rewrite ?Z.eqb_eq in *; subst; auto.
Qed.

(** Capability [y] moved to level [il]. *)
Definition cap_at (il : Z) (y : invocation_cap) : invocation_cap :=
  match il_stubs il (c_stubs y) with
  | Some (e, _) => set_c_dest_entry e (set_c_il il y)
  | None => y
  end.

(** [s'] is [s] with the capabilities in [P] moved to level [il]. *)
Record il_moved (s : kstate) (il : Z) (P : Z → Prop) (s' : kstate) : Prop := {
  im_state : ∃ l u, s' = set_k_ucaps u (set_k_caps l s);
  im_length : length (k_caps s') = length (k_caps s);
  im_out : ∀ c, ¬ P c → (k_caps s').[c] = (k_caps s).[c];
  im_in : ∀ c y, P c → (k_caps s).[c] = Some y → (k_caps s').[c] = Some (cap_at il y);
  im_user_in : ∀ i x c y, k_spds s !! i = Some x → is_cap_of x c →
    (k_caps s).[c] = Some y → P c → user_fn il (c_stubs y) (k_ucaps s' !! ucap_of x c);
  im_user_out : ∀ i x c, k_spds s !! i = Some x → is_cap_of x c → ¬ P c →
    k_ucaps s' !! ucap_of x c = k_ucaps s !! ucap_of x c
}.

Lemma il_moved_refl s il : il_moved s il (λ _, False) s.
Proof. split; try done. exists (k_caps s), (k_ucaps s). by destruct s. Qed.

Lemma il_moved_iff s il (P Q : Z → Prop) s' :
  (∀ c, P c ↔ Q c) → il_moved s il P s' → il_moved s il Q s'.
Proof.
  intros HPQ [H1 H2 H3 H4 H5 H6]. split; try done.
  - intros c Hc. apply H3. by rewrite HPQ.
  - intros c y Hc. apply H4. by rewrite HPQ.
  - intros i x c y Hx Hc Hy HQ. eapply H5; [done..|]. by rewrite HPQ.
  - intros i x c Hx Hc HQ. eapply H6; [done..|]. by rewrite HPQ.
Qed.

Lemma il_moved_spds s il P s' : il_moved s il P s' → k_spds s' = k_spds s.
Proof. by intros [(l & u & ->) _ _ _ _ _]. Qed.
Lemma il_moved_mpds s il P s' : il_moved s il P s' → k_mpds s' = k_mpds s.
Proof. by intros [(l & u & ->) _ _ _ _ _]. Qed.

Section Moving.
Context (s : kstate) (Hok : caps_wf s) (il : Z) (Hil : il = IL_ST ∨ il = IL_SDT).

Lemma il_valid st : ∃ e fn, il_stubs il st = Some (e, fn).
Proof. destruct Hil as [-> | ->]; by do 2 eexists. Qed.

Lemma cap_of_exists i x c :
  k_spds s !! i = Some x → is_cap_of x c →
  ∃ y, (k_caps s).[c] = Some y ∧ (0 ≤ c < Z.of_nat MAX_STATIC_CAP)%Z.
Proof.
  intros Hx Hc. destruct (cw_ranges s Hok) as [Ht _].
  destruct (Ht i x c Hx) as (y & Hy & _); [unfold in_range, is_cap_of in *; lia|].
  exists y. split; [done|]. rewrite <-(sz_caps s (cw_sizes s Hok)).
  by eapply zlookup_lt.
Qed.

(** One capability more. *)
Lemma chg_il_wp P s' i x c y :
  il_moved s il P s' → ¬ P c → k_spds s !! i = Some x → is_cap_of x c →
  (k_caps s).[c] = Some y → c_owner y = OwnerSpd i → c_il y ≠ il → c_il y ≠ IL_INV →
  wp (chg_il c il) (λ _, il_moved s il (λ c', P c' ∨ c' = c)) s'.
Proof.
  intros Hm HP Hx Hc Hy Ho Hne Hinv. destruct (il_valid (c_stubs y)) as (e & fn & Hst).
  destruct (cap_of_exists i x c Hx Hc) as (_ & _ & Hr).
  assert ((k_caps s').[c] = Some y) as Hy' by by rewrite (im_out _ _ _ _ Hm c HP).
  unfold chg_il, wp. erewrite bind_run.
  2: { eapply cap_change_isolation_run;
       [lia|exact Hy'|exact Ho|by rewrite (il_moved_spds _ _ _ _ Hm)|exact Hst]. }
  rewrite (proj2 (Z.eqb_neq _ _) Hne), (proj2 (Z.eqb_neq _ _) Hinv). cbn [negb andb].
  cbn [assert]. unfold il_changed, mret, M_ret.
  assert (cap_at il y = set_c_dest_entry e (set_c_il il y)) as Hat
    by (unfold cap_at; by rewrite Hst).
  destruct Hm as [(l & u & ->) H2 H3 H4 H5 H6]. cbn in *. split; cbn.
  - by eexists _, _.
  - by rewrite length_zinsert.
  - intros c' Hc'. rewrite zlookup_zinsert_ne by naive_solver. apply H3. naive_solver.
  - intros c' y' Hc' Hcy'. rewrite (zlookup_zinsert _ _ _ _ _ Hy'). case_decide; subst.
    + simplify_eq. by rewrite Hat.
    + apply H4; [naive_solver|done].
  - intros i' x' c' y' Hx' Hc' Hcy' HP'. destruct (decide (c' = c)) as [->|Hcc].
    + assert (ucap_of x' c = ucap_of x c) as ->.
      { destruct (cw_ranges s Hok) as [_ Hd].
        destruct (decide (i' = i)) as [->|Hi]; [congruence|].
        exfalso. eapply (Hd i' i x' x c); [done..| |]; unfold in_range, is_cap_of in *; lia. }
      simplify_eq. rewrite lookup_insert_eq. by exists e, fn, (MkUcap fn fn 0 (u32 (c ≪ 20))).
    + rewrite lookup_insert_ne; [eapply H5; naive_solver|].
      intros Heq. by eapply Hcc, (cw_ucaps s Hok i' x' c' i x c).
  - intros i' x' c' Hx' Hc' HP'. rewrite lookup_insert_ne; [eapply H6; naive_solver|].
    intros Heq. apply HP'. right. by eapply (cw_ucaps s Hok i' x' c' i x c).
Qed.

(** A loop over the capabilities of one component. *)
Lemma chg_loop_wp (P Q : Z → Prop) body s' i x :
  il_moved s il P s' → k_spds s !! i = Some x → (0 < s_cap_range x)%Z →
  (∀ c, P c → ¬ is_cap_of x c) → (∀ c, Q c → is_cap_of x c) →
  (∀ c P' s'', is_cap_of x c → il_moved s il P' s'' → ¬ P' c →
     wp (body c) (λ _, il_moved s il (λ c', P' c' ∨ (c' = c ∧ Q c))) s'') →
  let lo := u16 (s_cap_base x + 1) in
  wp (for_range lo (lo + u16 (s_cap_range x - 1)) body)
    (λ _, il_moved s il (λ c, P c ∨ Q c)) s'.
Proof.
  intros Hm Hx Hr HP HQ Hb. cbv zeta.
  destruct (cw_ranges s Hok) as [Ht _].
  destruct (Ht i x (s_cap_base x) Hx) as (y0 & Hy0 & _); [unfold in_range; lia|].
  destruct (Ht i x (s_cap_base x + s_cap_range x - 1)%Z Hx) as (y1 & Hy1 & _);
    [unfold in_range; lia|].
  apply zlookup_lt in Hy0, Hy1. rewrite (sz_caps s (cw_sizes s Hok)) in Hy0, Hy1.
  unfold MAX_STATIC_CAP in *. rewrite !u16_id by lia.
  eapply wp_mono.
  - apply (for_range_wp (λ k, il_moved s il (λ c, P c ∨ (Q c ∧ (c < k)%Z)))); [lia| |].
    + eapply il_moved_iff; [|exact Hm]. intros c. split; [by left|].
      intros [?|[Hq%HQ ?]]; [done|]. unfold is_cap_of in Hq. lia.
    + intros k s'' Hk Hm''.
      assert (is_cap_of x k) as Hik by (unfold is_cap_of; lia).
      eapply wp_mono; [apply Hb; [done|exact Hm''|]|].
      * intros [Hp|[_ ?]]; [by eapply HP|lia].
      * intros ? s3. apply il_moved_iff. intros c.
        destruct (decide (c = k)); [subst|]; intuition lia.
  - intros ? s''. apply il_moved_iff. intros c. split; [naive_solver|].
    intros [?|Hq]; [by left|right]. split; [done|]. apply HQ in Hq.
    unfold is_cap_of in Hq. lia.
Qed.

(** The capabilities of [spd] = [x] to other members of composite [j]. *)
Definition to_composite (spd : nat) (x : Kern.spd) (j : nat) (c : Z) : Prop :=
  is_cap_of x c ∧ ∃ y d z, (k_caps s).[c] = Some y ∧ c_destination y = Some d ∧
    d ≠ spd ∧ k_spds s !! d = Some z ∧ s_composite_spd z = PolyMpd j.

(** The capabilities of [x] to [spd]. *)
Definition to_spd (x : Kern.spd) (spd : nat) (c : Z) : Prop :=
  is_cap_of x c ∧ ∃ y, (k_caps s).[c] = Some y ∧ c_owner y ≠ OwnerSpd spd ∧
    c_destination y = Some spd.

Lemma cap_wf_inv i x c y d :
  k_spds s !! i = Some x → is_cap_of x c → (k_caps s).[c] = Some y →
  c_destination y = Some d → c_owner y = OwnerSpd i ∧ c_il y ≠ IL_INV.
Proof.
  intros Hx Hc Hy Hd. destruct (cw_caps s Hok i x c y d) as [Ho _ (e & fn & v & Hst & _)];
    [done..|]. split; [done|].
  destruct (il_stubs_cases _ _ _ _ Hst) as [-> | [-> | ->]]; done.
Qed.

Lemma chg_il_spd_to_all_wp P s' spd x j :
  il_moved s il P s' → k_spds s !! spd = Some x →
  (∀ c, P c → ¬ is_cap_of x c) →
  (∀ c y, to_composite spd x j c → (k_caps s).[c] = Some y → c_il y ≠ il) →
  wp (spd_chg_il_spd_to_all spd j il)
    (λ _, il_moved s il (λ c, P c ∨ to_composite spd x j c)) s'.
Proof.
  intros Hm Hx HP Hlev. pose proof (cw_range s Hok _ _ Hx) as Hr.
  unfold spd_chg_il_spd_to_all. apply wp_bind. unfold wp at 1.
  rewrite (get_spd_run _ _ x) by by rewrite (il_moved_spds _ _ _ _ Hm).
  destruct (Z.eqb_spec (s_cap_range x) 0) as [H0|H0].
  { unfold wp, mret, M_ret. eapply il_moved_iff; [|exact Hm]. intros c.
    split; [by left|]. intros [?|[Hc _]]; [done|]. unfold is_cap_of in Hc. lia. }
  apply (chg_loop_wp _ _ _ _ spd x); [done|done|lia|done|by intros c [? _]|].
  intros c P' s'' Hc Hm' HP'. destruct (cap_of_exists spd x c Hx Hc) as (y & Hy & _).
  apply wp_bind. unfold wp at 1.
  rewrite (get_cap_run _ _ y) by by rewrite (im_out _ _ _ _ Hm' c HP').
  assert (¬ to_composite spd x j c →
    il_moved s il (λ c', P' c' ∨ (c' = c ∧ to_composite spd x j c)) s'') as Hskip.
  { intros Hn. eapply il_moved_iff; [|exact Hm']. naive_solver. }
  destruct (c_destination y) as [d|] eqn:Hd;
    [|unfold wp, mret, M_ret; apply Hskip; intros (_ & ?); naive_solver].
  case_decide as Hds; [unfold wp, mret, M_ret; apply Hskip; intros (_ & ?); naive_solver|].
  destruct (cw_dest _ _ _ _ _ _ (cw_caps s Hok spd x c y d Hx Hc Hy Hd)) as [z Hz].
  destruct (cap_wf_inv spd x c y d Hx Hc Hy Hd) as [Ho Hinv].
  apply wp_bind. unfold wp at 1, spd_in_composite.
  erewrite bind_run by (apply get_spd_run; by rewrite (il_moved_spds _ _ _ _ Hm')).
  cbn. unfold spd_is_member. case_bool_decide as Hmem; cbn [when].
  2: { unfold wp, mret, M_ret. apply Hskip. intros (_ & ?); naive_solver. }
  assert (to_composite spd x j c) as Htc by (split; [done|naive_solver]).
  eapply wp_mono; [eapply (chg_il_wp P' s'' spd x c y); try done; by eapply Hlev|].
  intros ? s3. apply il_moved_iff. naive_solver.
Qed.

Lemma chg_il_one_wp P s' m x spd :
  il_moved s il P s' → k_spds s !! m = Some x →
  (∀ c, P c → ¬ is_cap_of x c) →
  (∀ c y, to_spd x spd c → (k_caps s).[c] = Some y → c_il y ≠ il) →
  wp (chg_il_one_to_spd x spd il)
    (λ _, il_moved s il (λ c, P c ∨ to_spd x spd c)) s'.
Proof.
  intros Hm Hx HP Hlev. unfold chg_il_one_to_spd. cbv zeta.
  destruct (Z.leb_spec (s_cap_range x) 0) as [H0|H0].
  { unfold wp, mret, M_ret. eapply il_moved_iff; [|exact Hm]. intros c.
    split; [by left|]. intros [?|[Hc _]]; [done|]. unfold is_cap_of in Hc. lia. }
  apply (chg_loop_wp _ _ _ _ m x); [done|done|lia|done|by intros c [? _]|].
  intros c P' s'' Hc Hm' HP'. destruct (cap_of_exists m x c Hx Hc) as (y & Hy & _).
  apply wp_bind. unfold wp at 1.
  rewrite (get_cap_run _ _ y) by by rewrite (im_out _ _ _ _ Hm' c HP').
  destruct (bool_decide (c_owner y ≠ OwnerSpd spd) &&
            bool_decide (c_destination y = Some spd)) eqn:Hcond; cbn [when].
  - apply andb_true_iff in Hcond as [Ho Hd].
    apply bool_decide_eq_true in Ho, Hd.
    assert (to_spd x spd c) as Hts by (split; [done|naive_solver]).
    destruct (cap_wf_inv m x c y spd Hx Hc Hy Hd) as [Hom Hinv].
    eapply wp_mono; [eapply (chg_il_wp P' s'' m x c y); try done; by eapply Hlev|].
    intros ? s3. apply il_moved_iff. naive_solver.
  - unfold wp, mret, M_ret. eapply il_moved_iff; [|exact Hm']. intros c'.
    split; [by left|]. intros [?|(-> & _ & y' & Hy' & Ho & Hd)]; [done|]. simplify_eq.
    rewrite !bool_decide_eq_true_2 in Hcond by done. done.
Qed.

(** The capabilities of the members [l] to [spd]. *)
Definition from_members (l : list nat) (spd : nat) (c : Z) : Prop :=
  ∃ m x, m ∈ l ∧ k_spds s !! m = Some x ∧ to_spd x spd c.

Lemma chg_il_all_loop_wp fuel s' j l l1 l2 curr spd :
  members_of s j l → l = l1 ++ curr :: l2 → length l2 < fuel →
  (∀ c y, from_members l spd c → (k_caps s).[c] = Some y → c_il y ≠ il) →
  il_moved s il (from_members l1 spd) s' →
  wp (chg_il_all_loop fuel j spd il curr) (λ _, il_moved s il (from_members l spd)) s'.
Proof.
  intros Hmo Hl. revert l1 l2 curr s' Hl.
  induction fuel as [|fuel IH]; intros l1 l2 curr s' Hl Hf Hlev Hm; [lia|].
  pose proof Hmo as [(cm & Hcm & Hhead) Hnd Hring Hin].
  assert (curr ∈ l) as (x & Hx & _)%Hin by (rewrite Hl; set_solver).
  cbn [chg_il_all_loop]. apply wp_bind. unfold wp at 1.
  rewrite (get_spd_run _ _ x) by by rewrite (il_moved_spds _ _ _ _ Hm).
  apply wp_bind. eapply wp_mono; [apply (chg_il_one_wp _ _ curr x spd Hm Hx)|].
  { intros c (m & x' & Hml & Hx' & Hc' & _) Hc.
    destruct (cw_ranges s Hok) as [_ Hd]. eapply (Hd m curr x' x c); [|done|done|..].
    - rewrite Hl in Hnd. apply NoDup_app in Hnd as (_ & Hdis & _). intros ->.
      eapply Hdis; [done|set_solver].
    - unfold in_range, is_cap_of in *. lia.
    - unfold in_range, is_cap_of in *. lia. }
  { intros c y Hts Hy. eapply Hlev; [|done]. exists curr, x.
    split_and!; [rewrite Hl; set_solver|done|done]. }
  intros ? s1 Hm1.
  assert (il_moved s il (from_members (l1 ++ [curr]) spd) s1) as Hm1'.
  { eapply il_moved_iff; [|exact Hm1]. intros c. unfold from_members.
    setoid_rewrite elem_of_app. setoid_rewrite list_elem_of_singleton. naive_solver. }
  clear Hm Hm1. apply wp_bind. unfold wp at 1.
  rewrite (get_spd_run _ _ x) by by rewrite (il_moved_spds _ _ _ _ Hm1').
  assert (s_member_next x = head (l2 ++ l1 ++ [curr])) as Hnx.
  { rewrite Hl in Hring. apply ring_links in Hring as [Hn _]. unfold snx in Hn.
    by rewrite Hx in Hn. }
  assert (s_member_next x ≠ None) as Hsome by (rewrite Hnx; by destruct l2, l1).
  apply wp_bind. unfold wp at 1. rewrite bool_decide_eq_true_2 by done.
  cbn [assert]. unfold mret at 1, M_ret at 1. apply wp_bind. unfold wp at 1.
  rewrite (get_mpd_run _ _ cm) by by rewrite (il_moved_mpds _ _ _ _ Hm1').
  rewrite Hhead, Hnx, Hl. destruct l2 as [|b l2]; cbn [app head].
  - rewrite decide_True by by destruct l1. unfold wp, mret, M_ret. done.
  - rewrite decide_False.
    2: { destruct l1 as [|a0 l1]; cbn; intros [= ->]; rewrite Hl in Hnd;
         cbn in Hnd; apply NoDup_cons in Hnd as [Hn _]; set_solver. }
    apply wp_bind. unfold wp at 1. cbn [deref]. unfold mret, M_ret.
    rewrite <-Hl. apply (IH (l1 ++ [curr]) l2); [by rewrite Hl, <-(assoc_L app)|cbn in Hf; lia|done|done].
Qed.
End Moving.

Lemma members_length s j l :
  sizes_ok s → members_of s j l → length l ≤ MAX_NUM_SPDS.
Proof.
  intros Hsz [_ Hnd _ Hin]. transitivity (length (seq 0 (length (k_spds s))));
    [|by rewrite length_seq, (sz_spds s Hsz)].
  apply submseteq_length, NoDup_submseteq; [done|]. intros i (x & Hx & _)%Hin.
  apply elem_of_seq. apply lookup_lt_Some in Hx. lia.
Qed.

(** Both directions, as [spd_add_caps] and [spd_remove_caps] do them. *)
Lemma chg_caps_wp s il j l c spd x :
  caps_wf s → il = IL_ST ∨ il = IL_SDT → members_of s j l →
  k_mpds s !! j = Some c → spd_is_composite (m_info c) = true →
  k_spds s !! spd = Some x →
  (∀ d y, from_members s l spd d ∨ to_composite s spd x j d →
     (k_caps s).[d] = Some y → c_il y ≠ il) →
  wp (spd_chg_il_all_to_spd j spd il;; spd_chg_il_spd_to_all spd j il)
    (λ _, il_moved s il (λ d, from_members s l spd d ∨ to_composite s spd x j d)) s.
Proof.
  intros Hok Hil Hmo Hc Hcomp Hx Hlev. apply wp_bind.
  eapply wp_mono with (P := λ _, il_moved s il (from_members s l spd)).
  - unfold spd_chg_il_all_to_spd. apply wp_bind. unfold wp at 1.
    rewrite (get_mpd_run _ _ _ Hc). apply wp_bind. unfold wp at 1. rewrite Hcomp.
    cbn [assert]. unfold mret, M_ret. pose proof Hmo as [(c' & Hc' & Hh) _ _ _].
    simplify_eq. rewrite Hh. destruct l as [|a l]; cbn [head].
    + unfold wp. eapply il_moved_iff; [|apply il_moved_refl].
      intros d. split; [done|]. intros (m & z & Hm & _). set_solver.
    + pose proof (members_length s j (a :: l) (cw_sizes s Hok) Hmo) as Hlen.
      apply (chg_il_all_loop_wp s Hok il Hil _ _ _ (a :: l) [] l a spd);
        [done|done|cbn in Hlen; lia|naive_solver|].
      eapply il_moved_iff; [|apply il_moved_refl].
      intros d. split; [done|]. intros (m & z & Hm & _). set_solver.
  - intros ? s1 Hm. apply (chg_il_spd_to_all_wp s Hok il Hil); [done|done| |naive_solver].
    intros d (m & z & Hml & Hz & Hzd & y & Hy & Ho & Hd) Hxd.
    destruct (cap_wf_inv s Hok m z d y spd Hz Hzd Hy Hd) as [Hom _].
    destruct (decide (m = spd)) as [->|Hne]; [done|].
    destruct (cw_ranges s Hok) as [_ Hdis].
    eapply (Hdis m spd z x d); [done..| |]; unfold in_range, is_cap_of in *; lia.
Qed.

(** ** Mappings *)

(** The page-directory entries of the memory ranges of a component. *)
Definition covers (l : spd_location) (k : nat) : Prop :=
  l_size l ≠ 0%Z ∧
  Z.to_nat (pgd_index (l_lowest_addr l)) ≤ k <
  Z.to_nat (pgd_index (l_lowest_addr l)) + span_of (l_size l).
Definition covered (x : spd) (k : nat) : Prop := ∃ l, l ∈ s_location x ∧ covers l k.

(** The memory ranges of [x] fit into a page directory. *)
Record locs_ok (x : spd) : Prop := {
  lo_len : length (s_location x) = MAX_SPD_VAS_LOCATIONS;
  lo_fit : ∀ l, l ∈ s_location x → l_size l ≠ 0%Z →
    Z.to_nat (pgd_index (l_lowest_addr l)) + span_of (l_size l) ≤ PGD_PER_PTBL
}.

(** Page directory [p'] is [p] with the entries of [x] taken from [f]. *)
Definition table_upd (x : spd) (p p' : list Z) (f : nat → option Z) : Prop :=
  length p' = length p ∧
  ∀ k, (covered x k → p' !! k = f k) ∧ (¬ covered x k → p' !! k = p !! k).

(** A page written again. *)
Lemma write_twice s tp q q' :
  put_page tp q' (set_k_mem (<[tp := q]> (k_mem s)) s) =
  Done tt (set_k_mem (<[tp := q']> (k_mem s)) s).
Proof. unfold put_page, modify. cbn. by rewrite insert_insert_eq. Qed.

(** A step that writes the entries of one location into the page [tp]. *)
Definition writes_entries (s : kstate) (tp : Z) (g : nat → option Z) (l : spd_location)
    (m : K unit) : Prop :=
  ∀ q, length q = PGD_PER_PTBL →
    wp m (λ _ s', ∃ q', s' = set_k_mem (<[tp := q']> (k_mem s)) s ∧
      length q' = PGD_PER_PTBL ∧
      ∀ k, (covers l k → q' !! k = g k) ∧ (¬ covers l k → q' !! k = q !! k))
      (set_k_mem (<[tp := q]> (k_mem s)) s).

#[export] Instance covers_dec l k : Decision (covers l k).
Proof. unfold covers. apply _. Defined.

Lemma each_location_wp s spd x f tp p g :
  k_spds s !! spd = Some x → locs_ok x →
  k_mem s !! tp = Some p → length p = PGD_PER_PTBL →
  (∀ l, l ∈ s_location x → l_size l ≠ 0%Z → writes_entries s tp g l (f l)) →
  wp (each_location spd f)
    (λ _ s', ∃ p', s' = set_k_mem (<[tp := p']> (k_mem s)) s ∧ table_upd x p p' g) s.
Proof.
  intros Hx [Hlen _] Hp Hlp Hf. unfold each_location.
  pose (done_to i k := ∃ n l, (n < i)%Z ∧ (s_location x).[n] = Some l ∧ covers l k).
  eapply wp_mono.
  - apply (for_range_wp (λ i s', ∃ q, s' = set_k_mem (<[tp := q]> (k_mem s)) s ∧
      length q = PGD_PER_PTBL ∧
      ∀ k, (done_to i k → q !! k = g k) ∧ (¬ done_to i k → q !! k = p !! k))); [lia| |].
    + exists p. rewrite insert_id by done. split_and!; [by destruct s|done|].
      intros k. split; [|done]. intros (n & l & Hn & Hl & _). apply zlookup_lt in Hl. lia.
    + intros i s' Hi (q & -> & Hq & Hk).
      destruct (zlookup_is_Some (s_location x) i) as [l Hl]; [lia|].
      assert (l ∈ s_location x) as Hin
        by (apply zlookup_Some in Hl as [_ Hl]; by eapply list_elem_of_lookup_2).
      assert (∀ k, done_to (i + 1)%Z k ↔ done_to i k ∨ covers l k) as Hstep.
      { intros k. split.
        - intros (n & l' & Hn & Hl' & Hc). destruct (decide (n = i)) as [->|].
          + right. by simplify_eq.
          + left. exists n, l'. split_and!; [lia|done|done].
        - intros [(n & l' & Hn & Hl' & Hc)|Hc]; [exists n, l'|exists i, l];
            (split_and!; [lia|done|done]). }
      apply wp_bind. unfold wp at 1. rewrite (get_spd_run _ _ x) by done.
      rewrite Hl. apply wp_bind. unfold wp at 1. cbn [bound]. unfold mret, M_ret.
      destruct (Z.eqb_spec (l_size l) 0) as [H0|H0]; cbn [negb when].
      * unfold wp, mret, M_ret. exists q. split_and!; [done|done|].
        intros k. rewrite Hstep. destruct (Hk k) as [H1 H2].
        assert (¬ covers l k) as Hnc by (intros [? _]; done).
        split; [intros [Hd|Hc]; [by apply H1|done]|intros Hn; apply H2; by auto].
      * eapply wp_mono; [by apply Hf|]. cbn. intros _ s' (q' & -> & Hq' & Hk').
        exists q'. split_and!; [done|done|].
        intros k. rewrite Hstep. destruct (Hk k) as [H1 H2], (Hk' k) as [H3 H4].
        destruct (decide (covers l k)) as [Hc|Hc].
        { split; [intros _; by apply H3|intros Hn; destruct Hn; by right]. }
        rewrite H4 by done.
        split; [intros [Hd|?]; [by apply H1|done]|intros Hn; apply H2; by auto].
  - cbn. intros _ s' (q & -> & Hq & Hk). exists q. split_and!; [done|].
    split; [congruence|]. intros k. destruct (Hk k) as [H1 H2].
    assert (done_to (Z.of_nat MAX_SPD_VAS_LOCATIONS) k ↔ covered x k) as Hiff.
    { split.
      - intros (n & l & _ & [_ Hl]%zlookup_Some & Hc). exists l.
        split; [by eapply list_elem_of_lookup_2|done].
      - intros (l & (n & Hn)%list_elem_of_lookup_1 & Hc). exists (Z.of_nat n), l.
        pose proof (lookup_lt_Some _ _ _ Hn). split_and!; [lia| |done].
        apply zlookup_Some. split; [lia|]. by rewrite Nat2Z.id. }
    by rewrite <-Hiff.
Qed.

Lemma add_mappings_wp s j c spd x pt pf :
  k_mpds s !! j = Some c → k_spds s !! spd = Some x → locs_ok x →
  k_mem s !! p_pg_tbl (m_info c) = Some pt → length pt = PGD_PER_PTBL →
  k_mem s !! p_pg_tbl (s_info x) = Some pf → length pf = PGD_PER_PTBL →
  p_pg_tbl (m_info c) ≠ p_pg_tbl (s_info x) →
  wp (spd_add_mappings j spd)
    (λ _ s', ∃ p', s' = set_k_mem (<[p_pg_tbl (m_info c) := p']> (k_mem s)) s ∧
       table_upd x pt p' (λ k, pf !! k)) s.
Proof.
  intros Hc Hx Hlo Hpt Hlt Hpf Hlf Hne. apply each_location_wp; [done..|].
  intros l Hl H0 q Hq. apply wp_bind. unfold wp at 1. rewrite (get_mpd_run _ _ c) by done.
  apply wp_bind. unfold wp at 1. rewrite (get_spd_run _ _ x) by done.
  unfold copy_pgtbl_range, copy_pgtbl_range_nocheck, wp.
  erewrite bind_run by (apply get_page_run; cbn; by rewrite lookup_insert_eq).
  erewrite bind_run by (apply get_page_run; cbn; by rewrite lookup_insert_ne by done).
  destruct (copy_entries q pf (Z.to_nat (pgd_index (l_lowest_addr l))) (span_of (l_size l)))
    as [q'|] eqn:He.
  - rewrite (bind_run (bound (Some q')) _ _ q' _ eq_refl), write_twice. exists q'. split; [done|].
    split; [by rewrite (proj1 (copy_entries_lookup _ _ _ _ _ 0 He))|].
    intros k. destruct (copy_entries_lookup _ _ _ _ _ k He) as [_ ->].
    split; intros Hk; case_decide as Hd; try done.
    + by destruct Hk as [_ Hk].
    + destruct Hk. by split.
  - unfold copy_entries in He. rewrite decide_True in He; [done|].
    pose proof (lo_fit x Hlo l Hl H0). lia.
Qed.

Lemma remove_mappings_wp s j c spd x pt :
  k_mpds s !! j = Some c → k_spds s !! spd = Some x → locs_ok x →
  k_mem s !! p_pg_tbl (m_info c) = Some pt → length pt = PGD_PER_PTBL →
  wp (spd_remove_mappings j spd)
    (λ _ s', ∃ p', s' = set_k_mem (<[p_pg_tbl (m_info c) := p']> (k_mem s)) s ∧
       table_upd x pt p' (λ _, Some 0%Z)) s.
Proof.
  intros Hc Hx Hlo Hpt Hlt. unfold spd_remove_mappings. apply wp_bind. unfold wp at 1.
  rewrite (get_mpd_run _ _ c) by done. apply each_location_wp; [done..|].
  intros l Hl H0 q Hq. unfold zero_pgtbl_range, wp.
  erewrite bind_run by (apply get_page_run; cbn; by rewrite lookup_insert_eq).
  destruct (zero_entries q (Z.to_nat (pgd_index (l_lowest_addr l))) (span_of (l_size l)))
    as [q'|] eqn:He.
  - rewrite (bind_run (bound (Some q')) _ _ q' _ eq_refl), write_twice. exists q'. split; [done|].
    split; [by rewrite (proj1 (zero_entries_lookup _ _ _ _ 0 He))|].
    intros k. destruct (zero_entries_lookup _ _ _ _ k He) as [_ ->].
    split; intros Hk; case_decide as Hd; try done.
    + by destruct Hk as [_ Hk].
    + destruct Hk. by split.
  - unfold zero_entries in He. rewrite decide_True in He; [done|].
    pose proof (lo_fit x Hlo l Hl H0). lia.
Qed.

(** Is the first memory range of [spd] in the page directory of [j]? *)
Lemma entry_absent_run s j c spd x l pt w :
  k_mpds s !! j = Some c → k_spds s !! spd = Some x → (s_location x).[0] = Some l →
  k_mem s !! p_pg_tbl (m_info c) = Some pt → pt.[pgd_index (l_lowest_addr l)] = Some w →
  composite_entry_absent j spd s = Done (negb (has w PG_PRESENT)) s.
Proof.
  intros Hc Hx Hl Hpt Hw. unfold composite_entry_absent, lowest_addr.
  rewrite (bind_run _ _ _ _ _ (get_mpd_run _ _ _ Hc)). erewrite bind_run.
  2: { rewrite (bind_run _ _ _ _ _ (get_spd_run _ _ _ Hx)), Hl. reflexivity. }
  unfold pgtbl_entry_absent.
  by rewrite (bind_run _ _ _ _ _ (get_word_run _ _ _ _ _ Hpt Hw)).
Qed.

(** ** What the operations leave alone *)

(** The capability range and tables of a component. *)
Definition same_caps (x x' : spd) : Prop :=
  s_cap_base x' = s_cap_base x ∧ s_cap_range x' = s_cap_range x ∧
  s_user_cap_tbl x' = s_user_cap_tbl x ∧ s_user_vaddr_cap_tbl x' = s_user_vaddr_cap_tbl x.

Lemma same_caps_of x x' c : same_caps x x' → is_cap_of x' c ↔ is_cap_of x c.
Proof. intros (H1 & H2 & _ & _). unfold is_cap_of. by rewrite H1, H2. Qed.
Lemma same_caps_ucap x x' c : same_caps x x' → ucap_of x' c = ucap_of x c.
Proof. intros (H1 & H2 & H3 & H4). unfold ucap_of. by rewrite H1, H3, H4. Qed.

(** [s'] has the components of [s] up to links and memberships. *)
Definition spds_frame (s s' : kstate) : Prop :=
  length (k_spds s') = length (k_spds s) ∧
  ∀ i x', k_spds s' !! i = Some x' → ∃ x, k_spds s !! i = Some x ∧ same_caps x x'.

Lemma caps_wf_frame s s' :
  caps_wf s → sizes_ok s' → spds_frame s s' →
  k_caps s' = k_caps s → k_ucaps s' = k_ucaps s → caps_wf s'.
Proof.
  intros [Hsz [Ht Hd] Hr Hu Hc] Hsz' [Hlen Hfr] Hcaps Hucaps. split; [done| | | |].
  - split.
    + intros i x' c Hx' Hin. destruct (Hfr i x' Hx') as (x & Hx & H1 & H2 & _).
      rewrite Hcaps. apply (Ht i x c Hx). unfold in_range in *. by rewrite H1, H2 in Hin.
    + intros i k x' z' c Hne Hx' Hz' Hxc Hzc.
      destruct (Hfr i x' Hx') as (x & Hx & H1 & H2 & _).
      destruct (Hfr k z' Hz') as (z & Hz & H3 & H4 & _).
      unfold in_range in *. rewrite H1, H2 in Hxc. rewrite H3, H4 in Hzc.
      by eapply (Hd i k x z c).
  - intros i x' Hx'. destruct (Hfr i x' Hx') as (x & Hx & _ & -> & _). by eapply Hr.
  - intros i x' c k z' c' Hx' Hz' Hxc Hzc.
    destruct (Hfr i x' Hx') as (x & Hx & Hxx). destruct (Hfr k z' Hz') as (z & Hz & Hzz).
    rewrite (same_caps_ucap _ _ _ Hxx), (same_caps_ucap _ _ _ Hzz).
    rewrite (same_caps_of _ _ _ Hxx) in Hxc. rewrite (same_caps_of _ _ _ Hzz) in Hzc.
    by eapply Hu.
  - intros i x' c y d Hx' Hxc Hy Hdst. destruct (Hfr i x' Hx') as (x & Hx & Hxx).
    rewrite Hcaps in Hy. rewrite (same_caps_of _ _ _ Hxx) in Hxc.
    destruct (Hc i x c y d Hx Hxc Hy Hdst) as [Ho [z Hz] Hus]. split; [done| |].
    + apply lookup_lt_is_Some. rewrite Hlen. by eapply lookup_lt_Some.
    + by rewrite Hucaps, (same_caps_ucap _ _ _ Hxx).
Qed.

Section Moved.
Context (s : kstate) (Hok : caps_wf s) (j : nat) (l : list nat) (Hmo : members_of s j l).
Context (spd : nat) (x : Kern.spd) (Hx : k_spds s !! spd = Some x).

Lemma cap_of_unique i x1 k x2 c :
  k_spds s !! i = Some x1 → in_range x1 c → k_spds s !! k = Some x2 → is_cap_of x2 c → i = k.
Proof.
  intros H1 Hc1 H2 Hc2. destruct (decide (i = k)) as [|Hne]; [done|]. exfalso.
  destruct (cw_ranges s Hok) as [_ Hd]. eapply (Hd i k x1 x2 c); [done..|].
  unfold in_range, is_cap_of in *. lia.
Qed.

Definition moved (c : Z) : Prop := from_members s l spd c ∨ to_composite s spd x j c.

(** Between [spd] and the members of [j], in either direction. *)
Definition between (i d : nat) : Prop := (d = spd ∧ i ∈ l) ∨ (i = spd ∧ d ∈ l).

Lemma moved_iff i xi c y :
  k_spds s !! i = Some xi → is_cap_of xi c → (k_caps s).[c] = Some y →
  moved c ↔ ∃ d, c_destination y = Some d ∧ d ≠ i ∧ between i d.
Proof.
  intros Hxi Hc Hy. assert (in_range xi c) as Hin by (unfold in_range, is_cap_of in *; lia).
  split.
  - intros [(m & z & Hm & Hz & Hzc & y' & Hy' & Ho & Hd)|(Hxc & y' & d & z & Hy' & Hd & Hne & Hz & Hcz)].
    + assert (i = m) as <- by by eapply cap_of_unique. simplify_eq.
      destruct (cap_wf_inv s Hok i _ c _ spd Hxi Hc Hy Hd) as [Hoi _].
      exists spd. split_and!; [done|congruence|by left].
    + assert (i = spd) as -> by by eapply cap_of_unique. simplify_eq.
      exists d. split_and!; [done|done|]. right. split; [done|].
      apply (mo_in _ _ _ Hmo). eauto.
  - intros (d & Hd & Hne & [(-> & Hi)|(-> & Hdl)]).
    + left. exists i, xi. split_and!; [done|done|]. split; [done|].
      destruct (cap_wf_inv s Hok i xi c y spd) as [Hoi _]; [done..|].
      exists y. split_and!; [done|rewrite Hoi; congruence|done].
    + right. simplify_eq. split; [done|].
      apply (mo_in _ _ _ Hmo) in Hdl as (z & Hz & Hcz). by exists y, d, z.
Qed.

Lemma moved_dec i xi c : k_spds s !! i = Some xi → in_range xi c → moved c ∨ ¬ moved c.
Proof.
  intros Hxi Hin. destruct (decide (c = s_cap_base xi)) as [->|Hne].
  - right. assert (∀ m z, k_spds s !! m = Some z → ¬ is_cap_of z (s_cap_base xi)) as H.
    { intros m z Hz Hzc. assert (i = m) as <- by by eapply cap_of_unique.
      simplify_eq. unfold is_cap_of in Hzc. lia. }
    intros [(m & z & _ & Hz & Hzc & _)|(Hxc & _)]; [apply (H m z Hz Hzc)|apply (H _ _ Hx Hxc)].
  - assert (is_cap_of xi c) as Hc by (unfold in_range, is_cap_of in *; lia).
    destruct (cap_of_exists s Hok i xi c Hxi Hc) as (y & Hy & _).
    rewrite (moved_iff i xi c y) by done. unfold between.
    destruct (c_destination y) as [d|]; [|right; naive_solver].
    destruct (decide (d ≠ i ∧ ((d = spd ∧ i ∈ l) ∨ (i = spd ∧ d ∈ l)))) as [Hy'|Hn].
    + left. by exists d.
    + right. intros (d' & [= <-] & ?). done.
Qed.

Context (il : Z) (s' : kstate) (Hm : il_moved s il moved s').

Lemma moved_lookup i xi c y' :
  k_spds s !! i = Some xi → in_range xi c → (k_caps s').[c] = Some y' →
  ∃ y, (k_caps s).[c] = Some y ∧ c_owner y' = c_owner y ∧
    c_destination y' = c_destination y ∧ c_stubs y' = c_stubs y ∧
    ((moved c ∧ y' = cap_at il y) ∨ (¬ moved c ∧ y' = y)).
Proof.
  intros Hxi Hin Hy'. destruct (cw_ranges s Hok) as [Ht _].
  destruct (Ht i xi c Hxi Hin) as (y & Hy & _). exists y. split; [done|].
  destruct (moved_dec i xi c Hxi Hin) as [HP|HP].
  - rewrite (im_in _ _ _ _ Hm c y HP Hy) in Hy'. simplify_eq. unfold cap_at.
    repeat case_match; split_and!; try done; left; (split; [done|]); done.
  - rewrite (im_out _ _ _ _ Hm c HP), Hy in Hy'. simplify_eq.
    split_and!; try done. by right.
Qed.

Lemma caps_wf_moved : il = IL_ST ∨ il = IL_SDT → caps_wf s'.
Proof.
  intros Hil. pose proof (im_state _ _ _ _ Hm) as (l0 & u0 & Heq).
  assert (k_spds s' = k_spds s) as Hsp by by rewrite Heq.
  pose proof Hok as [Hsz [Ht Hd] Hr Hu Hc]. split.
  - destruct Hsz. rewrite Heq. split; cbn; try done.
    pose proof (im_length _ _ _ _ Hm) as Hlen. rewrite Heq in Hlen. cbn in Hlen. congruence.
  - split.
    + intros i xi c. rewrite Hsp. intros Hxi Hin.
      destruct (Ht i xi c Hxi Hin) as (y & Hy & Hf).
      destruct (zlookup_is_Some (k_caps s') c) as [y' Hy'].
      { rewrite (im_length _ _ _ _ Hm). by eapply zlookup_lt. }
      destruct (moved_lookup i xi c y' Hxi Hin Hy') as (y0 & Hy0 & Ho & _). simplify_eq.
      exists y'. by rewrite Ho.
    + rewrite Hsp. done.
  - rewrite Hsp. done.
  - rewrite Hsp. done.
  - intros i xi c y' d. rewrite Hsp. intros Hxi Hic Hy' Hd'.
    assert (in_range xi c) as Hin by (unfold in_range, is_cap_of in *; lia).
    destruct (moved_lookup i xi c y' Hxi Hin Hy') as (y & Hy & Ho & Hde & Hst & Hcase).
    destruct (Hc i xi c y d Hxi Hic Hy) as [Ho' Hds Hus]; [congruence|].
    split; [congruence|by rewrite Hsp|]. rewrite Hst.
    destruct Hcase as [[HP ->]|[HP ->]].
    + assert (c_il (cap_at il y) = il) as ->.
      { unfold cap_at. destruct (il_valid il Hil (c_stubs y)) as (e & fn & ->). done. }
      by eapply (im_user_in _ _ _ _ Hm).
    + by rewrite (im_user_out _ _ _ _ Hm i xi c).
Qed.
End Moved.

(** ** Relinking *)

Lemma upd_spd_alter i f s :
  is_Some (k_spds s !! i) → upd_spd i f s = Done tt (set_k_spds (alter f i (k_spds s)) s).
Proof.
  intros [x Hx]. rewrite (upd_spd_run _ _ _ _ Hx). do 2 f_equal.
  apply list_eq. intros k. destruct (decide (i = k)) as [<-|Hne].
  - by rewrite list_lookup_insert_eq, list_lookup_alter_eq, Hx by by eapply lookup_lt_Some.
  - by rewrite list_lookup_insert_ne, list_lookup_alter_ne.
Qed.

Lemma lookup_alter_if {A} (f : A → A) (l : list A) (i k : nat) :
  alter f i l !! k = if decide (i = k) then f <$> l !! k else l !! k.
Proof.
  case_decide as Hk; [subst; apply list_lookup_alter_eq|by apply list_lookup_alter_ne].
Qed.

(** Component [x] with other links. *)
Definition relinked (x x' : spd) : Prop :=
  set_s_member_next None (set_s_member_prev None x') =
  set_s_member_next None (set_s_member_prev None x).

Lemma relinked_inv x x' :
  relinked x x' → same_caps x x' ∧ s_composite_spd x' = s_composite_spd x ∧
    s_info x' = s_info x ∧ s_location x' = s_location x.
Proof. intros H. unfold relinked in H. by injection H. Qed.

(** [s'] is [s] with [spd] moved to the domain [p], the head of the members of
    [j] set to [h], and new links in [spd] and the components of [l]. *)
Record relinks (s s' : kstate) (j spd : nat) (p : polyp) (h : option nat)
    (l : list nat) : Prop := {
  rl_state : ∃ L c, k_mpds s !! j = Some c ∧
    s' = set_k_mpds (<[j := set_m_members h c]> (k_mpds s)) (set_k_spds L s);
  rl_length : length (k_spds s') = length (k_spds s);
  rl_spd : ∀ i x, k_spds s !! i = Some x → ∃ x',
    relinked (if decide (i = spd) then set_s_composite_spd p x else x) x' ∧
    k_spds s' !! i = Some x';
  rl_out : ∀ i, i ∉ spd :: l → k_spds s' !! i = k_spds s !! i
}.

Section Relink.
Context (s s' : kstate) (j spd : nat) (p : polyp) (h : option nat) (l : list nat).
Context (Hre : relinks s s' j spd p h l).

Lemma relinks_lookup i x' :
  k_spds s' !! i = Some x' → ∃ x, k_spds s !! i = Some x ∧
    relinked (if decide (i = spd) then set_s_composite_spd p x else x) x'.
Proof.
  intros Hx'. destruct (lookup_lt_is_Some_2 (k_spds s) i) as [x Hx].
  { rewrite <-(rl_length _ _ _ _ _ _ _ Hre). by eapply lookup_lt_Some. }
  destruct (rl_spd _ _ _ _ _ _ _ Hre i x Hx) as (x'' & Hrel & Hx''). simplify_eq.
  exists x. done.
Qed.

Lemma relinks_comp i x' :
  k_spds s' !! i = Some x' → ∃ x, k_spds s !! i = Some x ∧ same_caps x x' ∧
    s_composite_spd x' = if decide (i = spd) then p else s_composite_spd x.
Proof.
  intros (x & Hx & (Hsc & Hc & _)%relinked_inv)%relinks_lookup. exists x. split; [done|].
  by case_decide.
Qed.

Lemma relinks_frame : spds_frame s s'.
Proof.
  split; [apply Hre|]. intros i x' (x & Hx & Hs & _)%relinks_comp. eauto.
Qed.

Lemma relinks_links k :
  k ∉ spd :: l → snx s' k = snx s k ∧ spv s' k = spv s k.
Proof. intros Hk. unfold snx, spv. by rewrite (rl_out _ _ _ _ _ _ _ Hre). Qed.

(** The other composites keep their members. *)
Lemma relinks_others j' l' :
  members_of s j' l' → j' ≠ j → p ≠ PolyMpd j' → (∀ k, k ∈ l' → k ∉ spd :: l) →
  members_of s' j' l'.
Proof.
  intros [(c' & Hc' & Hh) Hnd Hring Hin] Hj Hp Hdis.
  destruct (rl_state _ _ _ _ _ _ _ Hre) as (L & c & Hc & Heq). split; [|done| |].
  - exists c'. rewrite Heq. cbn. by rewrite list_lookup_insert_ne by done.
  - destruct Hring as [Hch Hl]. split.
    + apply (chain_ext (snx s) (spv s)); [done|done| |];
        intros k Hk _; by apply relinks_links, Hdis.
    + intros y a Hy Ha. destruct (Hl y a Hy Ha) as [H1 H2]. split.
      * rewrite (proj1 (relinks_links y (Hdis y (last_Some_elem_of _ _ Hy)))). done.
      * rewrite (proj2 (relinks_links a (Hdis a (head_Some_elem_of _ _ Ha)))). done.
  - intros i. rewrite Hin. split.
    + intros (x & Hx & Hcx). exists x. split; [|done].
      rewrite (rl_out _ _ _ _ _ _ _ Hre); [done|]. apply Hdis, Hin. eauto.
    + intros (x' & Hx' & Hcx). destruct (relinks_comp i x' Hx') as (x & Hx & _ & Hcc).
      exists x. split; [done|]. case_decide; congruence.
Qed.

Lemma relinks_members l1 l2 :
  members_ok s → members_of s j l1 → members_of s' j l2 → j < MAX_MPD_DESC →
  (∀ k, k ∈ l → k ∈ l1) → (∀ x, k_spds s !! spd = Some x →
    s_composite_spd x = PolySpd spd ∨ s_composite_spd x = PolyMpd j) →
  p = PolySpd spd ∨ p = PolyMpd j → members_ok s'.
Proof.
  intros [Hsf Hrg Hmp] Hl1 Hl2 Hj Hsub Hx Hp. split.
  - intros i x' k Hx' Hk. destruct (relinks_comp i x' Hx') as (xi & Hxi & _ & Hci).
    case_decide; [destruct Hp; congruence|]. eapply Hsf; [done|congruence].
  - intros j' Hj'. destruct (decide (j' = j)) as [->|Hne]; [eauto|].
    destruct (Hrg j' Hj') as [l' Hl']. exists l'.
    apply relinks_others; [done|done|destruct Hp; congruence|].
    intros k (xk & Hxk & Hck)%(mo_in _ _ _ Hl'). rewrite elem_of_cons.
    intros [->|(? & ? & ?)%Hsub%(mo_in _ _ _ Hl1)]; simplify_eq; [|congruence].
    destruct (Hx _ Hxk); congruence.
  - intros i x' j' Hx' Hj'. destruct (relinks_comp i x' Hx') as (xi & Hxi & _ & Hci).
    case_decide; [destruct Hp; congruence|]. eapply Hmp; [done|congruence].
Qed.

Lemma relinks_sizes : sizes_ok s → sizes_ok s'.
Proof.
  intros Hsz. destruct Hsz. destruct (rl_state _ _ _ _ _ _ _ Hre) as (L & c & Hc & Heq).
  pose proof (rl_length _ _ _ _ _ _ _ Hre) as Hlen. rewrite Heq in *. cbn in *.
  split; cbn; rewrite ?length_insert; try done. congruence.
Qed.
End Relink.

(** [s'] is [s] with other capabilities and memory, and [spd] relinked. *)
Definition rehomed (s s' : kstate) (j spd : nat) (p : polyp) (h : option nat)
    (l : list nat) : Prop :=
  ∃ C U M, relinks (set_k_mem M (set_k_ucaps U (set_k_caps C s))) s' j spd p h l.

Lemma relinks_comm s s' j spd p h l C U M :
  relinks s s' j spd p h l →
  relinks (set_k_mem M (set_k_ucaps U (set_k_caps C s)))
    (set_k_mem M (set_k_ucaps U (set_k_caps C s'))) j spd p h l.
Proof.
  intros [(L & c & Hc & ->) H2 H3 H4]. split; [by exists L, c|done..].
Qed.

Lemma run_upd_spd {B} i f s (k : unit → K B) :
  is_Some (k_spds s !! i) →
  (upd_spd i f ≫= k) s = k tt (set_k_spds (alter f i (k_spds s)) s).
Proof. intros H. by rewrite (bind_run _ _ _ _ _ (upd_spd_alter _ _ _ H)). Qed.

(** The component list of [member_link], for a ring with head [a] and last
    element [y]. *)
Definition linked_spds (spd a y j : nat) (S : list Kern.spd) : list Kern.spd :=
  alter (set_s_composite_spd (PolyMpd j)) spd
    (alter (set_s_member_prev (Some spd)) a
      (alter (set_s_member_next (Some spd)) y
        (alter (set_s_member_prev (Some y)) spd
          (alter (set_s_member_next (Some a)) spd S)))).

Lemma linked_spds_lookup spd a y j S k :
  a ≠ spd → y ≠ spd →
  linked_spds spd a y j S !! k =
    (λ x, if decide (k = spd) then
        set_s_composite_spd (PolyMpd j)
          (set_s_member_prev (Some y) (set_s_member_next (Some a) x))
      else
        let x := if decide (k = y) then set_s_member_next (Some spd) x else x in
        if decide (k = a) then set_s_member_prev (Some spd) x else x) <$> S !! k.
Proof.
  intros Ha Hy. unfold linked_spds. rewrite !lookup_alter_if.
  destruct (S !! k) as [x|]; cbn; repeat case_decide; subst; try done; try lia.
Qed.

Lemma member_link_nonempty s j c spd x a r :
  members_of s j (a :: r) → k_mpds s !! j = Some c → spd ∉ a :: r →
  k_spds s !! spd = Some x →
  ∃ s', member_link j spd s = Done tt s' ∧
    relinks s s' j spd (PolyMpd j) (Some spd) (a :: r) ∧
    ∃ y, last (a :: r) = Some y ∧ k_spds s' = linked_spds spd a y j (k_spds s).
Proof.
  intros Hmo Hc Hns Hx. pose proof Hmo as [(c' & Hc' & Hh) Hnd [_ Hl] Hin]. simplify_eq.
  destruct (last (a :: r)) as [y|] eqn:Hy; [|by apply last_None in Hy].
  destruct (Hl y a eq_refl eq_refl) as [Hnx Hpv]. unfold spv in Hpv.
  assert (a ∈ a :: r) as (xa & Hxa & _)%Hin by set_solver.
  assert (y ∈ a :: r) as Hyl by by apply last_Some_elem_of.
  pose proof (proj1 (Hin y) Hyl) as (xy & Hxy & _). rewrite Hxa in Hpv. cbn in Hpv.
  assert (a ≠ spd ∧ y ≠ spd) as [Ha Hys] by set_solver.
  exists (set_k_mpds (<[j := set_m_members (Some spd) c]> (k_mpds s))
    (set_k_spds (linked_spds spd a y j (k_spds s)) s)). split; [|split].
  - unfold member_link. rewrite (bind_run _ _ _ _ _ (get_mpd_run _ _ _ Hc)), Hh.
    cbn [head]. erewrite bind_run; [|].
    2: { rewrite (bind_run _ _ _ _ _ (get_spd_run _ _ _ Hxa)), Hpv.
         rewrite bool_decide_eq_true_2 by done. cbn [assert deref].
         do 2 (erewrite bind_run by reflexivity).
         rewrite !run_upd_spd by (cbn; rewrite ?lookup_alter_if; repeat case_decide;
           rewrite ?Hx, ?Hxy; done).
         apply upd_spd_alter. cbn. rewrite ?lookup_alter_if; repeat case_decide;
           rewrite ?Hxa; done. }
    erewrite bind_run by (apply upd_mpd_run; cbn; exact Hc).
    rewrite upd_spd_alter; [done|]. cbn. rewrite ?lookup_alter_if; repeat case_decide;
      rewrite ?Hx; done.
  - split.
    + by do 2 eexists.
    + cbn. unfold linked_spds. by rewrite !length_alter.
    + intros i xi Hi. cbn. rewrite linked_spds_lookup by done. rewrite Hi. cbn.
      eexists. split; [|done]. by repeat case_decide.
    + intros i Hi. cbn. rewrite linked_spds_lookup by done.
      destruct (k_spds s !! i); [cbn|done]. by rewrite !decide_False by set_solver.
  - by exists y.
Qed.

Lemma member_link_empty s j c spd x :
  members_of s j [] → k_mpds s !! j = Some c → k_spds s !! spd = Some x →
  let x' := set_s_composite_spd (PolyMpd j)
    (set_s_member_prev (Some spd) (set_s_member_next (Some spd) x)) in
  ∃ s', member_link j spd s = Done tt s' ∧
    relinks s s' j spd (PolyMpd j) (Some spd) [] ∧ k_spds s' = <[spd := x']> (k_spds s).
Proof.
  intros [(c' & Hc' & Hh) _ _ _] Hc Hx x'.
  assert (c' = c) as -> by congruence. cbn in Hh.
  pose proof (lookup_lt_Some _ _ _ Hx) as Hlt.
  exists (set_k_mpds (<[j := set_m_members (Some spd) c]> (k_mpds s))
    (set_k_spds (<[spd := x']> (k_spds s)) s)). split; [|split].
  - unfold member_link. rewrite (bind_run _ _ _ _ _ (get_mpd_run _ _ _ Hc)), Hh.
    erewrite bind_run; [|].
    2: { erewrite bind_run by by apply upd_spd_run.
         apply upd_spd_run. cbn. by apply list_lookup_insert_eq. }
    erewrite bind_run by (apply upd_mpd_run; cbn; exact Hc).
    rewrite (upd_spd_run _ _ _ (set_s_member_prev (Some spd) (set_s_member_next (Some spd) x))).
    + cbn. by rewrite !list_insert_insert_eq.
    + cbn. rewrite list_insert_insert_eq. by apply list_lookup_insert_eq.
  - split.
    + by do 2 eexists.
    + cbn. apply length_insert.
    + intros i xi Hi. cbn. case_decide as Hd.
      * subst i. simplify_eq. exists x'. split; [done|]. by apply list_lookup_insert_eq.
      * exists xi. split; [done|]. by rewrite list_lookup_insert_ne.
    + intros i Hi. cbn. apply list_lookup_insert_ne. set_solver.
  - done.
Qed.

Lemma member_link_run s j c l spd x :
  members_of s j l → k_mpds s !! j = Some c → spd ∉ l → k_spds s !! spd = Some x →
  ∃ s', member_link j spd s = Done tt s' ∧
    relinks s s' j spd (PolyMpd j) (Some spd) l ∧ members_of s' j (spd :: l).
Proof.
  intros Hmo Hc Hns Hx. pose proof Hmo as [_ Hnd Hring Hin].
  pose proof (lookup_lt_Some _ _ _ Hx) as Hlt.
  assert (∃ s', member_link j spd s = Done tt s' ∧
    relinks s s' j spd (PolyMpd j) (Some spd) l ∧ ring (snx s') (spv s') (spd :: l))
    as (s' & Hrun & Hre & Hr').
  { destruct l as [|a r].
    - destruct (member_link_empty s j c spd x Hmo Hc Hx) as (s' & Hrun & Hre & Hsp).
      exists s'. split_and!; [done|done|].
      apply ring_singleton; unfold snx, spv; rewrite Hsp;
        by rewrite list_lookup_insert_eq.
    - destruct (member_link_nonempty s j c spd x a r Hmo Hc Hns Hx)
        as (s' & Hrun & Hre & y & Hy & Hsp).
      exists s'. split_and!; [done|done|].
      assert (y ∈ a :: r) as Hyl by by apply last_Some_elem_of.
      assert (a ≠ spd ∧ y ≠ spd) as [Ha Hys] by set_solver.
      pose proof (proj1 (Hin y) Hyl) as (xy & Hxy & _).
      assert (a ∈ a :: r) as (xa & Hxa & _)%Hin by set_solver.
      apply (ring_push (snx s) (spv s) _ _ (a :: r) spd a y); try done;
        unfold snx, spv; rewrite Hsp.
      1-4: rewrite linked_spds_lookup by done; rewrite ?Hx, ?Hxy, ?Hxa; cbn;
        by repeat case_decide.
      all: intros k Hk Hne; rewrite linked_spds_lookup by done;
        destruct (k_spds s !! k); [cbn|done]; repeat case_decide; set_solver. }
  exists s'. split_and!; [done|done|]. split.
  - destruct (rl_state _ _ _ _ _ _ _ Hre) as (L & c' & Hc' & ->). cbn. simplify_eq.
    eexists. split; [apply list_lookup_insert_eq; by eapply lookup_lt_Some|done].
  - by constructor.
  - done.
  - intros i. rewrite elem_of_cons, Hin. split.
    + intros [->|(xi & Hxi & Hci)].
      * destruct (rl_spd _ _ _ _ _ _ _ Hre spd x Hx) as (x' & Hrel & Hx').
        rewrite decide_True in Hrel by done. apply relinked_inv in Hrel. naive_solver.
      * destruct (rl_spd _ _ _ _ _ _ _ Hre i xi Hxi) as (x' & Hrel & Hx').
        apply relinked_inv in Hrel as (_ & Hcc & _). exists x'. split; [done|].
        rewrite Hcc. by case_decide.
    + intros (x' & Hx' & Hcc).
      destruct (relinks_comp _ _ _ _ _ _ _ Hre i x' Hx') as (xi & Hxi & _ & Hci).
      case_decide; [by left|right]. exists xi. split; [done|congruence].
Qed.

(** The component list of [member_unlink], between [p] and [n]. *)
Definition unlinked_spds (spd n p : nat) (S : list Kern.spd) : list Kern.spd :=
  alter (set_s_composite_spd (PolySpd spd)) spd
    (alter (λ x, set_s_member_prev (Some spd) (set_s_member_next (Some spd) x)) spd
      (alter (set_s_member_next (Some n)) p
        (alter (set_s_member_prev (Some p)) n S))).

Lemma unlinked_spds_lookup spd n p S k :
  unlinked_spds spd n p S !! k =
    (λ x, if decide (k = spd) then
        set_s_composite_spd (PolySpd spd)
          (set_s_member_prev (Some spd) (set_s_member_next (Some spd) x))
      else
        let x := if decide (k = n) then set_s_member_prev (Some p) x else x in
        if decide (k = p) then set_s_member_next (Some n) x else x) <$> S !! k.
Proof.
  unfold unlinked_spds. rewrite !lookup_alter_if.
  destruct (S !! k) as [x|]; cbn; repeat case_decide; subst; try done; try lia.
Qed.

Lemma set_members_id s j c :
  k_mpds s !! j = Some c →
  set_k_mpds (<[j := set_m_members (m_members c) c]> (k_mpds s)) s = s.
Proof.
  intros Hc. replace (set_m_members (m_members c) c) with c by by destruct c.
  rewrite list_insert_id by done. by destruct s.
Qed.

Lemma member_unlink_spds s j c l1 l2 spd x :
  members_of s j (l1 ++ spd :: l2) → k_mpds s !! j = Some c → k_spds s !! spd = Some x →
  ∃ n p, s_member_next x = Some n ∧ s_member_prev x = Some p ∧
    member_unlink j spd s =
      Done tt (set_k_mpds (<[j := set_m_members (head (l1 ++ l2)) c]> (k_mpds s))
        (set_k_spds (unlinked_spds spd n p (k_spds s)) s)).
Proof.
  intros [(c' & Hc' & Hh) Hnd Hring Hin] Hc Hx.
  assert (c' = c) as -> by congruence.
  destruct (ring_links _ _ _ _ _ Hring) as [Hn Hp]. unfold snx, spv in Hn, Hp.
  rewrite Hx in Hn, Hp. cbn -[last] in Hn, Hp.
  destruct (head (l2 ++ l1 ++ [spd])) as [n|] eqn:Hhn; [|by destruct l2, l1].
  destruct (last (spd :: l2 ++ l1)) as [p|] eqn:Hlp; [|by apply last_None in Hlp].
  assert (n ∈ l1 ++ spd :: l2) as (xn & Hxn & _)%Hin
    by (apply head_Some_elem_of in Hhn; set_solver).
  assert (p ∈ l1 ++ spd :: l2) as (xp & Hxp & _)%Hin
    by (apply last_Some_elem_of in Hlp; set_solver).
  exists n, p. split_and!; [done|done|]. unfold member_unlink.
  rewrite (bind_run _ _ _ _ _ (get_spd_run _ _ _ Hx)), Hn, Hp. cbv zeta.
  rewrite !bool_decide_eq_true_2 by done. cbn [andb assert deref].
  do 3 (erewrite bind_run by reflexivity).
  rewrite !run_upd_spd by (cbn; rewrite ?lookup_alter_if; repeat case_decide;
    subst; rewrite ?Hx, ?Hxn, ?Hxp; done).
  erewrite bind_run by (apply get_mpd_run; cbn; exact Hc).
  change (set_k_spds _ _) with (set_k_spds (unlinked_spds spd n p (k_spds s)) s).
  set (s1 := set_k_spds (unlinked_spds spd n p (k_spds s)) s).
  destruct l1 as [|a l1]; cbn in Hh; rewrite Hh.
  - rewrite decide_True by done. destruct l2 as [|b l2]; cbn in Hhn; simplify_eq; cbn [app head].
    + rewrite decide_True by done. exact (upd_mpd_run j _ s1 c Hc').
    + rewrite decide_False by (intros ->; apply NoDup_cons in Hnd as [? _]; set_solver).
      exact (upd_mpd_run j _ s1 c Hc').
  - rewrite decide_False by (intros [= ->]; apply NoDup_cons in Hnd as [? _]; set_solver).
    cbn [app head]. rewrite <-Hh. change (k_mpds s) with (k_mpds s1).
    by rewrite set_members_id.
Qed.

Lemma member_unlink_run s j c l1 l2 spd x :
  members_of s j (l1 ++ spd :: l2) → k_mpds s !! j = Some c → k_spds s !! spd = Some x →
  ∃ s', member_unlink j spd s = Done tt s' ∧
    relinks s s' j spd (PolySpd spd) (head (l1 ++ l2)) (l1 ++ l2) ∧
    members_of s' j (l1 ++ l2).
Proof.
  intros Hmo Hc Hx. pose proof Hmo as [_ Hnd Hring Hin].
  destruct (member_unlink_spds s j c l1 l2 spd x Hmo Hc Hx) as (n & p & Hn & Hp & Hrun).
  eexists. split; [exact Hrun|]. clear Hrun.
  assert (spd ∉ l1 ++ l2) as Hns.
  { rewrite <-Permutation_middle in Hnd. by apply NoDup_cons in Hnd as [? _]. }
  destruct (ring_links _ _ _ _ _ Hring) as [Hnx Hpv]. unfold snx, spv in Hnx, Hpv.
  rewrite Hx in Hnx, Hpv. cbn -[last] in Hnx, Hpv. rewrite Hn in Hnx. rewrite Hp in Hpv.
  assert (l1 ++ l2 ≠ [] → n ∈ l1 ++ l2 ∧ p ∈ l1 ++ l2) as Hnp.
  { intros Hne. split.
    - rewrite (assoc_L app), head_app in Hnx.
      destruct (head (l2 ++ l1)) eqn:Hh; [|by destruct l2, l1].
      simplify_eq. apply head_Some_elem_of in Hh. set_solver.
    - change (spd :: l2 ++ l1) with ([spd] ++ (l2 ++ l1)) in Hpv. rewrite last_app in Hpv.
      destruct (last (l2 ++ l1)) eqn:Hh; [|apply last_None in Hh; by destruct l2, l1].
      simplify_eq. apply last_Some_elem_of in Hh. set_solver. }
  assert (n ∈ spd :: l1 ++ l2 ∧ p ∈ spd :: l1 ++ l2) as [Hn' Hp'].
  { symmetry in Hnx, Hpv. apply head_Some_elem_of in Hnx. apply last_Some_elem_of in Hpv.
    set_solver. }
  split.
  - split.
    + by do 2 eexists.
    + cbn. unfold unlinked_spds. by rewrite !length_alter.
    + intros i xi Hi. cbn. rewrite unlinked_spds_lookup, Hi. cbn.
      eexists. split; [|done]. by repeat case_decide.
    + intros i Hi. cbn. rewrite unlinked_spds_lookup.
      destruct (k_spds s !! i); [cbn|done]. by rewrite !decide_False by set_solver.
  - split.
    + eexists. cbn. split; [apply list_lookup_insert_eq; by eapply lookup_lt_Some|done].
    + rewrite <-Permutation_middle in Hnd. by apply NoDup_cons in Hnd as [_ ?].
    + apply (ring_remove (snx s) (spv s) _ _ l1 l2 spd n p); try done;
        unfold snx, spv; cbn; rewrite ?Hx; try done.
      * intros [Hnl Hpl]%Hnp.
        destruct (proj1 (Hin n)) as (xn & Hxn & _); [set_solver|].
        destruct (proj1 (Hin p)) as (xp & Hxp & _); [set_solver|].
        rewrite !unlinked_spds_lookup, Hxn, Hxp. cbn.
        split; repeat case_decide; subst; try done; set_solver.
      * intros k H1 H2. rewrite unlinked_spds_lookup. destruct (k_spds s !! k); [cbn|done].
        by repeat case_decide.
      * intros k H1 H2. rewrite unlinked_spds_lookup. destruct (k_spds s !! k); [cbn|done].
        by repeat case_decide.
    + intros i. cbn. setoid_rewrite unlinked_spds_lookup. split.
      * intros Hi. destruct (proj1 (Hin i)) as (xi & Hxi & Hci); [set_solver|].
        rewrite Hxi. cbn. eexists. split; [done|]. by repeat case_decide; set_solver.
      * intros (x' & Hx' & Hcx). apply fmap_Some in Hx' as (xi & Hxi & ->).
        destruct (decide (i = spd)); [done|].
        assert (i ∈ l1 ++ spd :: l2); [|set_solver].
        apply Hin. exists xi. split; [done|]. by repeat case_decide.
Qed.

(** ** Joining and leaving a composite *)

Lemma members_of_eq s s' j l :
  k_spds s' = k_spds s → k_mpds s' = k_mpds s → members_of s j l → members_of s' j l.
Proof.
  intros Hs Hm [Hh Hnd Hr Hin]. split; rewrite ?Hm, ?Hs; try done.
  unfold ring, snx, spv in *. by rewrite Hs.
Qed.

Lemma moved_owner s j l spd x c :
  k_spds s !! spd = Some x → moved s j l spd x c →
  ∃ i xi, k_spds s !! i = Some xi ∧ is_cap_of xi c.
Proof.
  intros Hx [(m & z & _ & Hz & Hzc & _)|[Hxc _]]; [by exists m, z|by exists spd, x].
Qed.

(** The levels after a move, given what the move asks for between [spd] and
    the members, and for all other pairs. *)
Lemma levels_moved s j l spd x il s1 s' :
  caps_wf s → members_of s j l → k_spds s !! spd = Some x →
  il = IL_ST ∨ il = IL_SDT → il_moved s il (moved s j l spd x) s1 →
  k_caps s' = k_caps s1 → spds_frame s s' →
  (∀ i xi xi' c y d zd zd', k_spds s !! i = Some xi → k_spds s' !! i = Some xi' →
     is_cap_of xi c → (k_caps s).[c] = Some y → c_destination y = Some d → d ≠ i →
     k_spds s !! d = Some zd → k_spds s' !! d = Some zd' →
     (between l spd i d → (il = IL_ST ↔ s_composite_spd xi' = s_composite_spd zd')) ∧
     (¬ between l spd i d → (c_il y = IL_ST ↔ s_composite_spd xi' = s_composite_spd zd'))) →
  levels_ok s'.
Proof.
  intros Hok Hmo Hx Hil Hm Hcaps [_ Hfr] Hlev i xi' c y' d zd' Hxi' Hc Hy' Hd Hzd' Hne.
  destruct (Hfr i xi' Hxi') as (xi & Hxi & Hsc). destruct (Hfr d zd' Hzd') as (zd & Hzd & _).
  rewrite (same_caps_of _ _ _ Hsc) in Hc. rewrite Hcaps in Hy'.
  assert (in_range xi c) as Hin by (unfold in_range, is_cap_of in *; lia).
  destruct (moved_lookup s Hok j l Hmo spd x Hx il s1 Hm i xi c y' Hxi Hin Hy')
    as (y & Hy & _ & Hde & _ & Hcase). rewrite Hde in Hd.
  destruct (Hlev i xi xi' c y d zd zd') as [Hb Hnb]; try done.
  pose proof (moved_iff s Hok j l Hmo spd x Hx i xi c y Hxi Hc Hy) as Hiff.
  destruct Hcase as [[HP ->]|[HP ->]].
  - apply Hiff in HP as (d' & Hd' & _ & Hbt). simplify_eq.
    assert (c_il (cap_at il y) = il) as ->; [|by apply Hb].
    unfold cap_at. destruct (il_valid il Hil (c_stubs y)) as (e & fn & ->). done.
  - apply Hnb. intros Hbt. apply HP, Hiff. eauto.
Qed.

(** A composite that can take and lose members, with its page directory. *)
Record domain (s : kstate) (j : nat) (c : composite_spd) (l : list nat) (pt : list Z)
    : Prop := {
  dm_mpd : k_mpds s !! j = Some c;
  dm_comp : spd_is_composite (m_info c) = true;
  dm_dep : spd_mpd_is_depricated c = false;
  dm_sub : spd_mpd_is_subordinate c = false;
  dm_members : members_of s j l;
  dm_table : k_mem s !! p_pg_tbl (m_info c) = Some pt;
  dm_len : length pt = PGD_PER_PTBL
}.

(** The page-directory index of the first memory range [l0] of [spd] = [x]. *)
Definition first_idx (l0 : spd_location) : nat := Z.to_nat (pgd_index (l_lowest_addr l0)).

Record placed (s : kstate) (spd : nat) (x : Kern.spd) (l0 : spd_location) : Prop := {
  pl_spd : k_spds s !! spd = Some x;
  pl_locs : locs_ok x;
  pl_loc0 : (s_location x).[0] = Some l0;
  pl_covers : covers l0 (first_idx l0)
}.

Lemma pgd_index_range a : (0 ≤ pgd_index a < 1024)%Z.
Proof.
  unfold pgd_index. change 1023%Z with (Z.ones 10). rewrite Z.land_ones by lia.
  change 1024%Z with (2 ^ 10)%Z. apply Z.mod_pos_bound. lia.
Qed.

Lemma first_idx_lookup (p : list Z) l0 w :
  p !! first_idx l0 = Some w ↔ p.[pgd_index (l_lowest_addr l0)] = Some w.
Proof.
  unfold first_idx. rewrite zlookup_Some. pose proof (pgd_index_range (l_lowest_addr l0)).
  split; [intros ?; split; [lia|done]|by intros [_ ?]].
Qed.

Lemma placed_covered s spd x l0 : placed s spd x l0 → covered x (first_idx l0).
Proof.
  intros [_ _ [_ Hl]%zlookup_Some Hc]. exists l0. split; [|done].
  by eapply list_elem_of_lookup_2.
Qed.

(** What [spd_add_caps] needs: outside of a composite, the levels to and from
    its members are not [IL_ST]. *)
Lemma add_levels s j l spd x d y :
  mpd_ok s → members_of s j l → k_spds s !! spd = Some x →
  s_composite_spd x = PolySpd spd →
  moved s j l spd x d → (k_caps s).[d] = Some y → c_il y ≠ IL_ST.
Proof.
  intros [Hcw Hlv _] Hmo Hx Hself Hmv Hy.
  destruct (moved_owner s j l spd x d Hx Hmv) as (i & xi & Hxi & Hic).
  apply (moved_iff s Hcw j l Hmo spd x Hx i xi d y Hxi Hic Hy) in Hmv
    as (k & Hk & Hne & Hb).
  destruct (cw_dest _ _ _ _ _ _ (cw_caps s Hcw i xi d y k Hxi Hic Hy Hk)) as [z Hz].
  rewrite (Hlv i xi d y k z Hxi Hic Hy Hk Hz Hne).
  destruct Hb as [[-> Hi]|[-> Hk']].
  - apply (mo_in _ _ _ Hmo) in Hi as (xi' & Hxi' & Hci). simplify_eq. congruence.
  - apply (mo_in _ _ _ Hmo) in Hk' as (z' & Hz' & Hcz). simplify_eq. congruence.
Qed.

Lemma members_ok_eq s s' :
  k_spds s' = k_spds s → k_mpds s' = k_mpds s → members_ok s → members_ok s'.
Proof.
  intros Hs Hm [H1 H2 H3]. split; rewrite ?Hs; try done.
  intros j Hj. destruct (H2 j Hj) as [l Hl]. exists l. by eapply members_of_eq.
Qed.

(** The state after [member_link] keeps the invariant, given the state before
    the levels were moved. *)
Lemma add_keeps_ok s j l spd x s1 m s3 :
  mpd_ok s → members_of s j l → j < MAX_MPD_DESC → k_spds s !! spd = Some x →
  s_composite_spd x = PolySpd spd → il_moved s IL_ST (moved s j l spd x) s1 →
  relinks (set_k_mem m s1) s3 j spd (PolyMpd j) (Some spd) l →
  members_of s3 j (spd :: l) → mpd_ok s3.
Proof.
  intros Hok Hmo Hj Hx Hself Hm Hre Hmo3. pose proof Hok as [Hcw Hlv Hms].
  assert (k_spds s1 = k_spds s) as Hsp by apply (il_moved_spds _ _ _ _ Hm).
  assert (k_mpds s1 = k_mpds s) as Hmd by apply (il_moved_mpds _ _ _ _ Hm).
  assert (caps_wf s1) as Hcw1 by (eapply (caps_wf_moved s Hcw); eauto).
  destruct (rl_state _ _ _ _ _ _ _ Hre) as (L & c & Hc & Heq).
  pose proof (relinks_frame _ _ _ _ _ _ _ Hre) as Hfr. split.
  - apply (caps_wf_frame s1); [done| |done|by rewrite Heq|by rewrite Heq].
    apply (relinks_sizes _ _ _ _ _ _ _ Hre). by destruct (cw_sizes s1 Hcw1).
  - apply (levels_moved s j l spd x IL_ST s1); try done; [by left|by rewrite Heq| |].
    { unfold spds_frame in *. cbn in Hfr. by rewrite Hsp in Hfr. }
    intros i xi xi' d y k zd zd' Hxi Hxi' Hic Hy Hk Hne Hzd Hzd'.
    destruct (relinks_comp _ _ _ _ _ _ _ Hre i xi' Hxi') as (xi0 & Hxi0 & _ & Hci).
    destruct (relinks_comp _ _ _ _ _ _ _ Hre k zd' Hzd') as (zd0 & Hzd0 & _ & Hck).
    cbn in Hxi0, Hzd0. rewrite Hsp in Hxi0, Hzd0. simplify_eq.
    pose proof (Hlv i xi d y k zd Hxi Hic Hy Hk Hzd Hne) as Hold.
    pose proof (mo_in _ _ _ Hmo) as Hin. rewrite Hci, Hck. split.
    + intros Hb. split; [intros _|done]. destruct Hb as [[-> Hi]|[-> Hk']].
      * apply Hin in Hi as (? & ? & ?). simplify_eq. repeat case_decide; congruence.
      * apply Hin in Hk' as (? & ? & ?). simplify_eq. repeat case_decide; congruence.
    + intros Hnb. unfold between in Hnb.
      assert (s_composite_spd xi = PolyMpd j → i ∈ l) by (intros; apply Hin; eauto).
      assert (s_composite_spd zd = PolyMpd j → k ∈ l) by (intros; apply Hin; eauto).
      rewrite Hold. repeat case_decide; subst; simplify_eq; try done;
        rewrite Hself; (split; [|naive_solver]); intros Heq'.
      2: symmetry in Heq'.
      all: eapply (mk_self s Hms) in Heq'; [|eassumption]; congruence.
  - eapply (relinks_members _ _ _ _ _ _ _ Hre l);
      [by apply (members_ok_eq s)|by apply (members_of_eq s)|done|done|done| |by right].
    cbn. rewrite Hsp. intros z Hz. simplify_eq. by left.
Qed.

Lemma placed_eq s s' spd x l0 :
  k_spds s' = k_spds s → placed s spd x l0 → placed s' spd x l0.
Proof. intros Hs [H1 H2 H3 H4]. split; rewrite ?Hs; done. Qed.

Lemma absent_run s j c pt spd x l0 w :
  k_mpds s !! j = Some c → k_mem s !! p_pg_tbl (m_info c) = Some pt →
  placed s spd x l0 → pt !! first_idx l0 = Some w →
  composite_entry_absent j spd s = Done (negb (has w PG_PRESENT)) s.
Proof.
  intros Hc Hpt [Hx _ Hl0 _] Hw. eapply entry_absent_run; [done..|].
  by apply first_idx_lookup.
Qed.

(** Joining a composite, with all that changes. *)
Lemma add_member_run s j c l pt spd x l0 pf w w' :
  mpd_ok s → domain s j c l pt → placed s spd x l0 →
  s_composite_spd x = PolySpd spd →
  k_mem s !! p_pg_tbl (s_info x) = Some pf → length pf = PGD_PER_PTBL →
  p_pg_tbl (m_info c) ≠ p_pg_tbl (s_info x) →
  pt !! first_idx l0 = Some w → has w PG_PRESENT = false →
  pf !! first_idx l0 = Some w' → has w' PG_PRESENT = true →
  ∃ s' pt', spd_composite_add_member j spd s = Done 0%Z s' ∧
    mpd_ok s' ∧ members_of s' j (spd :: l) ∧
    k_mem s' = <[p_pg_tbl (m_info c) := pt']> (k_mem s) ∧
    table_upd x pt pt' (λ k, pf !! k) ∧
    rehomed s s' j spd (PolyMpd j) (Some spd) l.
Proof.
  intros Hok [Hc Hcp Hdep Hsub Hmo Hpt Hlt] Hpl Hself Hpf Hlf Hne Hw Hwp Hw' Hwp'.
  pose proof Hpl as [Hx Hlo _ _]. pose proof Hok as [Hcw _ _].
  assert (spd ∉ l) as Hns.
  { intros (? & ? & ?)%(mo_in _ _ _ Hmo). simplify_eq. congruence. }
  assert (j < MAX_MPD_DESC) as Hj.
  { rewrite <-(sz_mpds s (cw_sizes s Hcw)). by eapply lookup_lt_Some. }
  destruct (proj1 (wp_Done _ _ _) (chg_caps_wp s IL_ST j l c spd x Hcw ltac:(by left)
    Hmo Hc Hcp Hx (λ d y Hmv, add_levels s j l spd x d y Hok Hmo Hx Hself Hmv)))
    as (u1 & s1 & Hr1 & Hm).
  pose proof (il_moved_spds _ _ _ _ Hm) as Hsp. pose proof (il_moved_mpds _ _ _ _ Hm) as Hmd.
  assert (k_mem s1 = k_mem s) as Hme by (by destruct (im_state _ _ _ _ Hm) as (? & ? & ->)).
  destruct (proj1 (wp_Done _ _ _) (add_mappings_wp s1 j c spd x pt pf
    ltac:(congruence) ltac:(congruence) Hlo ltac:(congruence) Hlt ltac:(congruence) Hlf Hne))
    as (u2 & s2 & Hr2 & pt' & Hs2 & Htu).
  destruct (member_link_run s2 j c l spd x) as (s3 & Hr3 & Hre & Hmo3);
    [rewrite Hs2; by apply (members_of_eq s)|rewrite Hs2; cbn; congruence|done
    |rewrite Hs2; cbn; congruence|].
  exists s3, pt'. split_and!; [| |done| |done|].
  - unfold spd_composite_add_member. rewrite (bind_run _ _ _ _ _ (get_mpd_run _ _ _ Hc)).
    rewrite Hdep, Hsub. cbn [negb assert]. do 2 (erewrite bind_run by reflexivity).
    rewrite (bind_run _ _ _ _ _ (get_spd_run _ _ _ Hx)).
    rewrite bool_decide_eq_true_2 by done. cbn [assert]. erewrite bind_run by reflexivity.
    rewrite (bind_run _ _ _ _ _ (absent_run s j c pt spd x l0 w Hc Hpt Hpl Hw)), Hwp.
    cbn [negb assert]. erewrite bind_run by reflexivity.
    unfold spd_add_caps. rewrite (bind_run _ _ _ _ _ Hr1), (bind_run _ _ _ _ _ Hr2).
    erewrite bind_run.
    2: { apply (absent_run s2 j c pt' spd x l0 w').
         - rewrite Hs2. cbn. congruence.
         - rewrite Hs2. cbn. apply lookup_insert_eq.
         - rewrite Hs2. by apply (placed_eq s).
         - destruct Htu as [_ Htu]. rewrite (proj1 (Htu _)); [done|].
           by eapply placed_covered. }
    rewrite Hwp'. cbn [negb]. rewrite (bind_run _ _ _ _ _ Hr3). done.
  - rewrite Hs2 in Hre. by apply (add_keeps_ok s j l spd x s1 _ s3 Hok Hmo Hj Hx Hself Hm Hre).
  - destruct (rl_state _ _ _ _ _ _ _ Hre) as (L & c' & _ & ->). rewrite Hs2. cbn. by rewrite Hme.
  - destruct (im_state _ _ _ _ Hm) as (C & U & Heq). rewrite Hs2, Heq in Hre. by do 3 eexists.
Qed.

(** C5. A component that joins a composite becomes its member, at the head of
    a ring that stays well linked; the invariant that components call each
    other directly exactly within a composite is kept, in the kernel and in
    the user-level tables; the component's page-directory entries, and only
    they, are copied into the composite's page directory; and the call runs
    into no assertion or fault. *)
Theorem add_member_isolates s j c l pt spd x l0 pf w w' :
  mpd_ok s → domain s j c l pt → placed s spd x l0 →
  s_composite_spd x = PolySpd spd →
  k_mem s !! p_pg_tbl (s_info x) = Some pf → length pf = PGD_PER_PTBL →
  p_pg_tbl (m_info c) ≠ p_pg_tbl (s_info x) →
  pt !! first_idx l0 = Some w → has w PG_PRESENT = false →
  pf !! first_idx l0 = Some w' → has w' PG_PRESENT = true →
  ∃ s' pt', spd_composite_add_member j spd s = Done 0%Z s' ∧
    mpd_ok s' ∧ members_of s' j (spd :: l) ∧
    k_mem s' = <[p_pg_tbl (m_info c) := pt']> (k_mem s) ∧
    table_upd x pt pt' (λ k, pf !! k).
Proof.
  intros. destruct (add_member_run s j c l pt spd x l0 pf w w') as (s' & pt' & ? & ? & ? & ? & ? & _);
    [done..|]. by exists s', pt'.
Qed.

Lemma elem_of_middle {A} (l1 l2 : list A) a : a ∈ l1 ++ a :: l2.
Proof. apply elem_of_app. right. constructor. Qed.

Section Leaving.
Context (s : kstate) (j : nat) (l1 l2 : list nat) (spd : nat) (s1 : kstate).
Context (Hok : mpd_ok s) (Hmo : members_of s j (l1 ++ spd :: l2)) (Hj : j < MAX_MPD_DESC).
Context (Hre : relinks s s1 j spd (PolySpd spd) (head (l1 ++ l2)) (l1 ++ l2)).
Context (Hmo1 : members_of s1 j (l1 ++ l2)).

Lemma leave_caps_wf : caps_wf s1.
Proof.
  destruct (rl_state _ _ _ _ _ _ _ Hre) as (L & c & _ & Heq).
  apply (caps_wf_frame s); [apply Hok| | |by rewrite Heq|by rewrite Heq].
  - apply (relinks_sizes _ _ _ _ _ _ _ Hre), (cw_sizes s), Hok.
  - apply (relinks_frame _ _ _ _ _ _ _ Hre).
Qed.

Lemma leave_caps : k_caps s1 = k_caps s.
Proof. by destruct (rl_state _ _ _ _ _ _ _ Hre) as (L & c & _ & ->). Qed.

(** A capability of [s1] and the two domains it connects, in [s] and [s1]. *)
Lemma leave_cap i xi c y d zd :
  k_spds s1 !! i = Some xi → is_cap_of xi c → (k_caps s1).[c] = Some y →
  c_destination y = Some d → k_spds s1 !! d = Some zd → d ≠ i →
  ∃ p q, (c_il y = IL_ST ↔ p = q) ∧ (i ∈ l1 ++ spd :: l2 ↔ p = PolyMpd j) ∧
    (d ∈ l1 ++ spd :: l2 ↔ q = PolyMpd j) ∧
    s_composite_spd xi = (if decide (i = spd) then PolySpd spd else p) ∧
    s_composite_spd zd = (if decide (d = spd) then PolySpd spd else q).
Proof.
  intros Hxi Hc Hy Hd Hzd Hne.
  destruct (relinks_comp _ _ _ _ _ _ _ Hre i xi Hxi) as (xi0 & Hxi0 & Hsc & Hci).
  destruct (relinks_comp _ _ _ _ _ _ _ Hre d zd Hzd) as (zd0 & Hzd0 & _ & Hcd).
  rewrite (same_caps_of _ _ _ Hsc) in Hc. rewrite leave_caps in Hy.
  exists (s_composite_spd xi0), (s_composite_spd zd0). split_and!; try done.
  - by apply (mk_levels s Hok i xi0 c y d zd0).
  - rewrite (mo_in _ _ _ Hmo). naive_solver.
  - rewrite (mo_in _ _ _ Hmo). naive_solver.
Qed.

Lemma leave_notin : spd ∉ l1 ++ l2.
Proof.
  pose proof (mo_nodup _ _ _ Hmo) as Hnd. rewrite <-Permutation_middle in Hnd.
  by apply NoDup_cons in Hnd as [? _].
Qed.

Lemma leave_levels x1 d y :
  k_spds s1 !! spd = Some x1 → moved s1 j (l1 ++ l2) spd x1 d →
  (k_caps s1).[d] = Some y → c_il y ≠ IL_SDT.
Proof.
  intros Hx1 Hmv Hy. pose proof leave_caps_wf as Hcw.
  destruct (moved_owner s1 j _ spd x1 d Hx1 Hmv) as (i & xi & Hxi & Hic).
  apply (moved_iff s1 Hcw j _ Hmo1 spd x1 Hx1 i xi d y Hxi Hic Hy) in Hmv
    as (k & Hk & Hne & Hb).
  destruct (cw_dest _ _ _ _ _ _ (cw_caps s1 Hcw i xi d y k Hxi Hic Hy Hk)) as [z Hz].
  destruct (leave_cap i xi d y k z Hxi Hic Hy Hk Hz Hne) as (p & q & Hil & Hp & Hq & _).
  assert (c_il y = IL_ST) as ->; [|done]. apply Hil.
  assert (i ∈ l1 ++ spd :: l2 ∧ k ∈ l1 ++ spd :: l2) as [->%Hp ->%Hq]; [|done].
  destruct Hb as [[-> Hi]|[-> Hk']]; set_solver.
Qed.

Lemma leave_self i x :
  k_spds s1 !! i = Some x → i ≠ spd → s_composite_spd x ≠ PolySpd spd.
Proof.
  intros Hx Hi Hs.
  destruct (relinks_comp _ _ _ _ _ _ _ Hre i x Hx) as (x0 & Hx0 & _ & Hc0).
  rewrite decide_False in Hc0 by done.
  apply Hi. symmetry. eapply (mk_self s (mk_members s Hok)); [done|congruence].
Qed.

Lemma leave_levels_ok x1 s2 :
  k_spds s1 !! spd = Some x1 → il_moved s1 IL_SDT (moved s1 j (l1 ++ l2) spd x1) s2 →
  levels_ok s2.
Proof.
  intros Hx1 Hm. pose proof leave_caps_wf as Hcw.
  assert (k_spds s2 = k_spds s1) as Hsp by apply (il_moved_spds _ _ _ _ Hm).
  apply (levels_moved s1 j (l1 ++ l2) spd x1 IL_SDT s2); try done; [by right| |].
  { split; [by rewrite Hsp|]. rewrite Hsp. intros i x' Hx'. by exists x'. }
  rewrite Hsp. intros i xi xi' d y k zd zd' Hxi Hxi' Hic Hy Hk Hne Hzd Hzd'. simplify_eq.
  destruct (leave_cap i xi d y k zd Hxi Hic Hy Hk Hzd Hne)
    as (p & q & Hil & Hp & Hq & Hci & Hck).
  pose proof leave_notin as Hns.
  assert (∀ i', i' ≠ spd → i' ∈ l1 ++ spd :: l2 ↔ i' ∈ l1 ++ l2) as Hin' by set_solver.
  pose proof leave_self as Hsf.
  split.
  + intros Hb. split; [done|]. destruct Hb as [[-> Hi]|[-> Hk']].
    * rewrite (decide_True (P := spd = spd)) in Hck by done. rewrite Hck. intros Heq.
      exfalso. by apply (Hsf i xi Hxi).
    * rewrite (decide_True (P := spd = spd)) in Hci by done. rewrite Hci. intros Heq.
      exfalso. by apply (Hsf k zd Hzd).
  + intros Hnb. unfold between in Hnb. rewrite Hil.
    destruct (decide (i = spd)) as [->|Hi], (decide (k = spd)) as [->|Hkn];
      [done| | |by rewrite Hci, Hck].
    * assert (k ∉ l1 ++ spd :: l2) as Hkl by (rewrite (Hin' k Hkn); naive_solver).
      split; [|intros Heq; exfalso; apply (Hsf k zd Hzd Hkn); congruence].
      intros ->. exfalso. apply Hkl, Hq, Hp. set_solver.
    * assert (i ∉ l1 ++ spd :: l2) as Hil' by (rewrite (Hin' i Hi); naive_solver).
      split; [|intros Heq; exfalso; apply (Hsf i xi Hxi Hi); congruence].
      intros <-. exfalso. apply Hil', Hp, Hq. set_solver.
Qed.

Lemma leave_keeps_ok x1 s2 :
  k_spds s1 !! spd = Some x1 → il_moved s1 IL_SDT (moved s1 j (l1 ++ l2) spd x1) s2 →
  mpd_ok s2.
Proof.
  intros Hx1 Hm. pose proof leave_caps_wf as Hcw.
  assert (k_spds s2 = k_spds s1) as Hsp by apply (il_moved_spds _ _ _ _ Hm).
  assert (k_mpds s2 = k_mpds s1) as Hmd by apply (il_moved_mpds _ _ _ _ Hm).
  split.
  - eapply (caps_wf_moved s1 Hcw); eauto.
  - by eapply leave_levels_ok.
  - apply (members_ok_eq s1); [done|done|].
    apply (relinks_members _ _ _ _ _ _ _ Hre (l1 ++ spd :: l2) (l1 ++ l2));
      [apply Hok|done|done|done|set_solver| |by left].
    intros x Hx. right. destruct (proj1 (mo_in _ _ _ Hmo spd)) as (? & ? & ?); [set_solver|].
    by simplify_eq.
Qed.
End Leaving.

Lemma mpd_ok_mem s m : mpd_ok s → mpd_ok (set_k_mem m s).
Proof.
  intros [[[] H2 H3 H4 H5] Hl Hm]. split; [|exact Hl|].
  - split; [by split|by destruct H2|exact H3|exact H4|]. intros i x c y d Hx Hc Hy Hd.
    destruct (H5 i x c y d Hx Hc Hy Hd). by split.
  - by apply (members_ok_eq s).
Qed.

(** The optional last part of [spd_composite_remove_member]. *)
Lemma unmap_run s j c spd x l0 pt (rm : bool) :
  k_mpds s !! j = Some c → placed s spd x l0 →
  k_mem s !! p_pg_tbl (m_info c) = Some pt → length pt = PGD_PER_PTBL →
  ∃ pt', when rm (spd_remove_mappings j spd;;
      absent ← composite_entry_absent j spd; assert absent) s =
      Done tt (set_k_mem (<[p_pg_tbl (m_info c) := pt']> (k_mem s)) s) ∧
    (if rm then table_upd x pt pt' (λ _, Some 0%Z) else pt' = pt).
Proof.
  intros Hc Hpl Hpt Hlt. destruct rm; cbn [when].
  - pose proof Hpl as [Hx Hlo _ _].
    destruct (proj1 (wp_Done _ _ _) (remove_mappings_wp s j c spd x pt Hc Hx Hlo Hpt Hlt))
      as (u & s' & Hr & pt' & -> & Htu).
    exists pt'. split; [|done]. rewrite (bind_run _ _ _ _ _ Hr).
    erewrite bind_run.
    2: { apply (absent_run _ j c pt' spd x l0 0); [done|cbn; apply lookup_insert_eq| |].
         - by apply (placed_eq s).
         - destruct Htu as [_ Htu]. apply Htu. by eapply placed_covered. }
    done.
  - exists pt. split; [|done]. rewrite insert_id by done. by destruct s.
Qed.

(** Leaving a composite, with all that changes. *)
Lemma remove_member_run s j c l1 l2 pt spd x l0 w (rm : bool) :
  mpd_ok s → domain s j c (l1 ++ spd :: l2) pt → placed s spd x l0 →
  pt !! first_idx l0 = Some w → has w PG_PRESENT = true →
  (0 < cos_ref_val (m_info c))%Z →
  ∃ s' pt', spd_composite_remove_member spd rm s = Done 0%Z s' ∧
    mpd_ok s' ∧ members_of s' j (l1 ++ l2) ∧
    k_mem s' = <[p_pg_tbl (m_info c) := pt']> (k_mem s) ∧
    (if rm then table_upd x pt pt' (λ _, Some 0%Z) else pt' = pt) ∧
    rehomed s s' j spd (PolySpd spd) (head (l1 ++ l2)) (l1 ++ l2).
Proof.
  intros Hok [Hc Hcp Hdep Hsub Hmo Hpt Hlt] Hpl Hw Hwp Href.
  pose proof Hpl as [Hx Hlo Hl0 Hcv]. pose proof Hok as [Hcw _ _].
  assert (s_composite_spd x = PolyMpd j) as Hcx.
  { destruct (proj1 (mo_in _ _ _ Hmo spd) (elem_of_middle _ _ _)) as (? & ? & ?). congruence. }
  assert (j < MAX_MPD_DESC) as Hj.
  { rewrite <-(sz_mpds s (cw_sizes s Hcw)). by eapply lookup_lt_Some. }
  destruct (member_unlink_run s j c l1 l2 spd x Hmo Hc Hx) as (s1 & Hr1 & Hre & Hmo1).
  destruct (rl_spd _ _ _ _ _ _ _ Hre spd x Hx) as (x1 & Hrel & Hx1).
  rewrite decide_True in Hrel by done. apply relinked_inv in Hrel as (_ & _ & _ & Hloc).
  destruct (rl_state _ _ _ _ _ _ _ Hre) as (L & c0 & Hc0 & Heq1).
  assert (c0 = c) as -> by congruence. set (c1 := set_m_members (head (l1 ++ l2)) c) in *.
  assert (k_mpds s1 !! j = Some c1) as Hc1.
  { rewrite Heq1. cbn. apply list_lookup_insert_eq. by eapply lookup_lt_Some. }
  destruct (proj1 (wp_Done _ _ _) (chg_caps_wp s1 IL_SDT j (l1 ++ l2) c1 spd x1
    ltac:(by eapply leave_caps_wf) ltac:(by right) Hmo1 Hc1 Hcp Hx1
    (λ d y, leave_levels s j l1 l2 spd s1 Hok Hmo Hj Hre Hmo1 x1 d y Hx1)))
    as (u2 & s2 & Hr2 & Hm).
  pose proof (il_moved_spds _ _ _ _ Hm) as Hsp. pose proof (il_moved_mpds _ _ _ _ Hm) as Hmd.
  assert (k_mem s2 = k_mem s) as Hme
    by (destruct (im_state _ _ _ _ Hm) as (? & ? & ->); by rewrite Heq1).
  assert (mpd_ok s2) as Hok2 by by eapply leave_keeps_ok.
  destruct (unmap_run s2 j c1 spd x1 l0 pt rm) as (pt' & Hr3 & Htu);
    [by rewrite Hmd| |by rewrite Hme|done|].
  { split; rewrite ?Hsp; [done| |by rewrite Hloc|done].
    destruct Hlo as [Hl1 Hl2]. split; by rewrite Hloc. }
  assert (if rm then table_upd x pt pt' (λ _, Some 0%Z) else pt' = pt) as Htu'.
  { destruct rm; [|done]. unfold table_upd, covered in *. by rewrite Hloc in Htu. }
  eexists _, pt'. split_and!; [| | | |done|].
  - unfold spd_composite_remove_member. rewrite (bind_run _ _ _ _ _ (get_spd_run _ _ _ Hx)), Hcx.
    cbn [get_poly as_mpd]. erewrite bind_run by by rewrite (bind_run _ _ _ _ _ (get_mpd_run _ _ _ Hc)).
    rewrite Hcp. cbn [assert]. do 2 (erewrite bind_run by reflexivity).
    rewrite (bind_run _ _ _ _ _ (get_mpd_run _ _ _ Hc)), Hdep, Hsub. cbn [negb andb assert].
    erewrite bind_run by reflexivity.
    rewrite (bind_run _ _ _ _ _ (absent_run s j c pt spd x l0 w Hc Hpt Hpl Hw)), Hwp.
    cbn [negb assert]. erewrite bind_run by reflexivity.
    rewrite (bind_run _ _ _ _ _ Hr1). unfold spd_remove_caps.
    rewrite (bind_run _ _ _ _ _ Hr2), (bind_run _ _ _ _ _ Hr3).
    erewrite bind_run by (apply get_mpd_run; cbn; by rewrite Hmd).
    change (m_info c1) with (m_info c). by rewrite (proj2 (Z.ltb_lt _ _) Href).
  - by apply mpd_ok_mem.
  - by apply (members_of_eq s1).
  - cbn. by rewrite Hme.
  - destruct (im_state _ _ _ _ Hm) as (C & U & Heq). rewrite Heq. cbn.
    eexists C, U, _. by apply relinks_comm.
Qed.

(** C6. A component that leaves its composite is in its own domain again: the
    ring of the remaining members stays well linked, all capabilities between
    the component and them are back at the isolating level, in the kernel and
    in the user-level tables, so that the invariant is kept; when asked for,
    exactly the component's page-directory entries are cleared in the
    composite's page directory; and no assertion or fault is reached. *)
Theorem remove_member_isolates s j c l1 l2 pt spd x l0 w (rm : bool) :
  mpd_ok s → domain s j c (l1 ++ spd :: l2) pt → placed s spd x l0 →
  pt !! first_idx l0 = Some w → has w PG_PRESENT = true →
  (0 < cos_ref_val (m_info c))%Z →
  ∃ s' pt', spd_composite_remove_member spd rm s = Done 0%Z s' ∧
    mpd_ok s' ∧ members_of s' j (l1 ++ l2) ∧
    k_mem s' = <[p_pg_tbl (m_info c) := pt']> (k_mem s) ∧
    (if rm then table_upd x pt pt' (λ _, Some 0%Z) else pt' = pt).
Proof.
  intros. destruct (remove_member_run s j c l1 l2 pt spd x l0 w rm) as (s' & pt' & ? & ? & ? & ? & ? & _);
    [done..|]. by exists s', pt'.
Qed.

(** ** An example

    Components 0 and 2 are the members of composite 5 and call each other
    directly; component 1 is on its own, and 0 and 1 call each other through
    the kernel. *)

Definition demo_stubs : usr_cap_stubs := MkStubs 11 12 13 14 15.
Definition demo_cap (o d : nat) (il : Z) : invocation_cap :=
  MkCap (OwnerSpd o) (Some d) 0 il (if (il =? IL_ST)%Z then 11 else 13) demo_stubs.
Definition demo_comp (i : nat) (base range tbl lo pg : Z) (p : polyp)
    (n : option nat) : spd :=
  set_s_member_next n (set_s_member_prev n (set_s_composite_spd p
    (set_s_cap_base base (set_s_cap_range range (set_s_user_cap_tbl tbl
      (set_s_location ((s_location spd0).[0 := MkLoc lo (2 ^ 22)])
        (set_s_info (MkPoly 0 0 pg) spd0))))))).
Definition demo_spds (i : nat) : spd :=
  match i with
  | 0 => demo_comp 0 0 3 10000 (2 ^ 22) 8192 (PolyMpd 5) (Some 2)
  | 1 => demo_comp 1 5 2 20000 (2 * 2 ^ 22) 12288 (PolySpd 1) (Some 1)
  | 2 => demo_comp 2 3 2 30000 (3 * 2 ^ 22) 16384 (PolyMpd 5) (Some 0)
  | _ => set_s_composite_spd (PolySpd i) spd0
  end.
Definition demo_mpd : composite_spd :=
  MkMpd (MkPoly SPD_COMPOSITE 1 4096) (Some 0) None (Some 5) (Some 5).
Definition unused : invocation_cap := set_c_owner CAP_ALLOCATED_UNUSED cap0.
Definition demo_caps : list invocation_cap :=
  [unused; demo_cap 0 1 IL_SDT; demo_cap 0 2 IL_ST; unused; demo_cap 2 0 IL_ST; unused;
   demo_cap 1 0 IL_SDT] ++ replicate (MAX_STATIC_CAP - 7) cap0.
Definition pgd0 : list Z := replicate PGD_PER_PTBL 0%Z.
Definition mpd_demo : kstate :=
  set_k_spds (demo_spds <$> seq 0 MAX_NUM_SPDS)
    (set_k_mpds (<[5 := demo_mpd]> (k_mpds k_zero))
      (set_k_caps demo_caps
        (set_k_ucaps {[ 10016%Z := MkUcap 12 12 0 0; 10032%Z := MkUcap 11 11 0 0;
                        30016%Z := MkUcap 11 11 0 0; 20016%Z := MkUcap 12 12 0 0 ]}
          (set_k_mem {[ 4096%Z := pgd0.[1 := 7%Z].[3 := 7%Z];
                        12288%Z := pgd0.[2 := 7%Z] ]} k_zero)))).

Lemma demo_spd_lookup i x :
  k_spds mpd_demo !! i = Some x ↔ i < MAX_NUM_SPDS ∧ x = demo_spds i.
Proof.
  cbn [k_spds mpd_demo set_k_spds]. unfold mpd_demo. cbn [k_spds set_k_spds].
  rewrite list_lookup_fmap, fmap_Some. setoid_rewrite lookup_seq. naive_solver.
Qed.

Lemma demo_cap_of i c :
  is_cap_of (demo_spds i) c ↔
  (i = 0 ∧ (c = 1 ∨ c = 2)%Z) ∨ (i = 1 ∧ c = 6%Z) ∨ (i = 2 ∧ c = 4%Z).
Proof.
  unfold is_cap_of. destruct i as [|[|[|i]]]; cbn; lia.
Qed.

Lemma demo_in_range i c :
  in_range (demo_spds i) c ↔
  (i = 0 ∧ (0 ≤ c < 3)%Z) ∨ (i = 1 ∧ (5 ≤ c < 7)%Z) ∨ (i = 2 ∧ (3 ≤ c < 5)%Z).
Proof. unfold in_range. destruct i as [|[|[|i]]]; cbn; lia. Qed.

Lemma demo_caps_wf : caps_wf mpd_demo.
Proof.
  split.
  - by split.
  - split.
    + intros i x c [Hi ->]%demo_spd_lookup Hc%demo_in_range.
      assert (c = 0 ∨ c = 1 ∨ c = 2 ∨ c = 3 ∨ c = 4 ∨ c = 5 ∨ c = 6)%Z as Hc' by lia.
      destruct_or! Hc'; subst c; (eexists; split; [reflexivity|done]).
    + intros i k x z c Hne [_ ->]%demo_spd_lookup [_ ->]%demo_spd_lookup.
      rewrite !demo_in_range. lia.
  - intros i x [_ ->]%demo_spd_lookup. by destruct i as [|[|[|i]]].
  - intros i x c k z c' [_ ->]%demo_spd_lookup [_ ->]%demo_spd_lookup.
    rewrite !demo_cap_of. intros Hc Hc'. destruct_or! Hc; destruct Hc as [-> Hc];
      destruct_or! Hc'; destruct Hc' as [-> Hc']; repeat destruct_or!; subst; try done.
  - intros i x c y d [_ ->]%demo_spd_lookup Hc%demo_cap_of Hy Hd.
    destruct_or! Hc; destruct Hc as [-> Hc]; repeat destruct_or!; subst;
      vm_compute in Hy; simplify_eq; cbn in Hd; simplify_eq;
      (split; [done|by eexists|]); do 3 eexists; split_and!; reflexivity.
Qed.

Lemma demo_members : members_of mpd_demo 5 [0; 2].
Proof.
  split; [by eexists|by apply (bool_decide_unpack _)| |].
  - split; [|by intros y a [=<-] [=<-]]. cbn. by split_and!; [intros b [=<-]| |].
  - intros i. setoid_rewrite demo_spd_lookup. split.
    + intros Hi. assert (i = 0 ∨ i = 2) as [-> | ->] by set_solver;
        (eexists; split; [split; [unfold MAX_NUM_SPDS; lia|done]|done]).
    + intros (x & [_ ->] & Hc). destruct i as [|[|[|i]]]; [set_solver|done|set_solver|done].
Qed.

Lemma demo_ok : mpd_ok mpd_demo.
Proof.
  split; [apply demo_caps_wf| |split].
  - intros i x c y d z [_ ->]%demo_spd_lookup Hc%demo_cap_of Hy Hd [_ ->]%demo_spd_lookup Hne.
    destruct_or! Hc; destruct Hc as [-> Hc]; repeat destruct_or!; subst;
      vm_compute in Hy; simplify_eq; cbn in Hd; by simplify_eq.
  - intros i x k [_ ->]%demo_spd_lookup. destruct i as [|[|[|i]]]; cbn; congruence.
  - intros j Hj. destruct (decide (j = 5)) as [->|Hne]; [exists [0; 2]; apply demo_members|].
    exists []. split; [|constructor|by split|].
    + exists mpd0. split; [|done]. unfold mpd_demo. cbn [k_mpds set_k_mpds set_k_spds].
      rewrite list_lookup_insert_ne by done. by apply lookup_replicate.
    + intros i. setoid_rewrite demo_spd_lookup. split; [set_solver|].
      intros (x & [_ ->] & Hc). destruct i as [|[|[|i]]]; cbn in Hc; congruence.
  - intros i x j [_ ->]%demo_spd_lookup. unfold MAX_MPD_DESC.
    destruct i as [|[|[|i]]]; cbn; intros [=]; subst; lia.
Qed.

Lemma demo_domain :
  domain mpd_demo 5 demo_mpd [0; 2] (pgd0.[1 := 7%Z].[3 := 7%Z]).
Proof. split; [done|done|done|done|apply demo_members|done|done]. Qed.

Lemma demo_placed i lo pg base range tbl p n :
  k_spds mpd_demo !! i = Some (demo_comp i base range tbl lo pg p n) →
  (Z.to_nat (pgd_index lo) < 1024) →
  placed mpd_demo i (demo_comp i base range tbl lo pg p n) (MkLoc lo (2 ^ 22)).
Proof.
  intros Hi Hlo. split; [done| |done|].
  - split; [done|]. intros l Hl Hne.
    change (l ∈ MkLoc lo (2 ^ 22) :: replicate 7 (MkLoc 0 0)) in Hl.
    apply elem_of_cons in Hl as [->|Hl].
    { change (span_of (l_size (MkLoc lo (2 ^ 22)))) with 1. cbn [l_lowest_addr].
      unfold PGD_PER_PTBL. lia. }
    apply elem_of_replicate in Hl as [-> _]. done.
  - split; [done|]. unfold first_idx. change (span_of (l_size (MkLoc lo (2 ^ 22)))) with 1.
    lia.
Qed.

Lemma add_member_isolates_witness :
  ∃ s' pt', spd_composite_add_member 5 1 mpd_demo = Done 0%Z s' ∧
    mpd_ok s' ∧ members_of s' 5 [1; 0; 2] ∧
    k_mem s' = <[4096%Z := pt']> (k_mem mpd_demo) ∧
    table_upd (demo_spds 1) (pgd0.[1 := 7%Z].[3 := 7%Z]) pt'
      (λ k, (pgd0.[2 := 7%Z]) !! k).
Proof.
  apply (add_member_isolates mpd_demo 5 demo_mpd [0; 2] (pgd0.[1 := 7%Z].[3 := 7%Z]) 1
    (demo_spds 1) (MkLoc (2 * 2 ^ 22) (2 ^ 22)) (pgd0.[2 := 7%Z]) 0 7);
    [apply demo_ok|apply demo_domain| |done|reflexivity|reflexivity|done|reflexivity
    |reflexivity|reflexivity|reflexivity].
  apply demo_placed; [reflexivity|vm_compute; lia].
Defined.

Lemma remove_member_isolates_witness :
  ∃ s' pt', spd_composite_remove_member 0 true mpd_demo = Done 0%Z s' ∧
    mpd_ok s' ∧ members_of s' 5 [2] ∧
    k_mem s' = <[4096%Z := pt']> (k_mem mpd_demo) ∧
    table_upd (demo_spds 0) (pgd0.[1 := 7%Z].[3 := 7%Z]) pt' (λ _, Some 0%Z).
Proof.
  apply (remove_member_isolates mpd_demo 5 demo_mpd [] [2] (pgd0.[1 := 7%Z].[3 := 7%Z]) 0
    (demo_spds 0) (MkLoc (2 ^ 22) (2 ^ 22)) 7 true);
    [apply demo_ok|apply demo_domain| |reflexivity|reflexivity|reflexivity].
  apply demo_placed; [reflexivity|vm_compute; lia].
Defined.
