(* ===== verification/MpdLife.v ===== *)
(** * The life of composites

    Allocation of composite descriptors with their page tables, release of the
    last reference, the sharing of page tables between a composite and its
    subordinates, and what becomes of component descriptors when they are
    freed and allocated again. *)

From stdpp Require Import base list numbers option gmap.
From S2P Require Import Prelude Kern Caps PageMem Vas Mpd MpdInv.

(** ** The page pool and page tables of composites *)

(** [s'] is [s] up to the page pool and the memory. *)
Definition pool_frame (s s' : kstate) : Prop :=
  ∃ m h n, s' = set_k_mem m (set_k_pool_head h (set_k_pool_len n s)).

Lemma cos_put_pg_pool_frame page s u s' :
  cos_put_pg_pool page s = Done u s' → pool_frame s s'.
Proof.
  unfold cos_put_pg_pool, set_page_next. intros Hr. minv.
  case_match; [done|]. match goal with H : put_word _ _ _ _ = _ |- _ =>
    apply put_word_Done in H as (p & w & _ & _ & ->) end. by do 3 eexists.
Qed.

Lemma cos_get_pg_pool_frame s l p r s' :
  pool_ok s (p :: l) → cos_get_pg_pool s = Done r s' → pool_frame s s'.
Proof.
  intros [(Hh & Hp & _) _ _]. unfold cos_get_pg_pool, page_next, set_page_next.
  intros Hr. minv. rewrite (proj2 (Z.eqb_neq _ _) Hp) in *. minv.
  match goal with H : get_word _ _ _ = _ |- _ => apply get_word_Done in H as [-> _] end.
  match goal with H : put_word _ _ _ _ = _ |- _ =>
    apply put_word_Done in H as (pg & w & _ & _ & ->) end. by do 3 eexists.
Qed.

Lemma spd_alloc_pgtbl_run s p l kp w :
  pool_ok s (p :: l) → length l < 1023 → va_to_pa p ≠ 0%Z → va_to_pa p ≠ k_kern_pgtbl s →
  (∀ pg, k_mem s !! va_to_pa p = Some pg → length pg = PGD_PER_PTBL) →
  k_mem s !! k_kern_pgtbl s = Some kp → length kp = PGD_PER_PTBL →
  kp.[pgd_index COS_INFO_REGION_ADDR] = Some w → has w PG_PRESENT = true →
  ∃ s' p', spd_alloc_pgtbl s = Done (va_to_pa p) s' ∧ pool_ok s' l ∧ pool_frame s s' ∧
    k_mem s' = <[va_to_pa p := p']> (k_mem s) ∧ length p' = PGD_PER_PTBL ∧
    ∀ k, k < 1023 → p' !! k = kp !! k.
Proof.
  intros Hpo Hlen Hp0 Hne Hpg Hkp Hlk Hw Hpr.
  destruct (cos_get_pg_pool_run s p l Hpo ltac:(lia)) as (pg & Hm & s1 & Hr & Hpo1 & Hm1 & _).
  pose proof (cos_get_pg_pool_frame _ _ _ _ _ Hpo Hr) as (m1 & h1 & n1 & Heq1).
  specialize (Hpg pg Hm).
  assert (p ≠ 0%Z) as Hp by by destruct Hpo as [(_ & ? & _) _ _].
  assert (k_kern_pgtbl s1 = k_kern_pgtbl s) as Hk1 by by rewrite Heq1.
  assert (k_mem s1 !! va_to_pa p = Some (pg.[0 := 0%Z])) as Hmp
    by (rewrite Hm1; apply lookup_insert_eq).
  assert (k_mem s1 !! k_kern_pgtbl s = Some kp) as Hmk
    by (by rewrite Hm1, lookup_insert_ne).
  unfold spd_alloc_pgtbl. rewrite (bind_run _ _ _ _ _ Hr), (proj2 (Z.eqb_neq _ _) Hp).
  cbv zeta. rewrite (bind_run (gets k_kern_pgtbl) _ _ _ _ eq_refl), Hk1.
  destruct (copy_entries (pg.[0 := 0%Z]) kp 0 1023) as [p'|] eqn:He.
  2: { unfold copy_entries in He. rewrite decide_True in He; [done|].
       rewrite length_zinsert. unfold PGD_PER_PTBL in *. lia. }
  pose proof (λ k, copy_entries_lookup _ _ _ _ _ k He) as Hl.
  erewrite bind_run.
  2: { unfold copy_pgtbl_range_nocheck.
       rewrite (bind_run _ _ _ _ _ (get_page_run _ _ _ Hmp)).
       rewrite (bind_run _ _ _ _ _ (get_page_run _ _ _ Hmk)).
       change (Z.to_nat (pgd_index 0)) with 0. change (span_of 4294967295) with 1023.
       rewrite He. reflexivity. }
  assert (p'.[pgd_index COS_INFO_REGION_ADDR] = Some w) as Hpw.
  { change (pgd_index COS_INFO_REGION_ADDR) with (Z.of_nat 256) in *.
    apply zlookup_Some in Hw as [_ Hw]. apply zlookup_Some. split; [lia|].
    rewrite Nat2Z.id in *. destruct (Hl 256) as [_ ->]. by rewrite decide_True by lia. }
  unfold pgtbl_entry_absent. erewrite bind_run.
  2: { erewrite bind_run by (apply (get_word_run _ _ _ p' w); [cbn; apply lookup_insert_eq|done]).
       reflexivity. }
  rewrite Hpr. cbn [negb assert]. eexists _, p'. split; [reflexivity|]. split_and!.
  - destruct Hpo1 as [Hpl Hnd Hpn]. split; cbn; [|done|done].
    apply pool_list_insert; [|done].
    destruct Hpo as [_ Hnd0 _]. cbn in Hnd0. by apply NoDup_cons in Hnd0 as [? _].
  - rewrite Heq1. by do 3 eexists.
  - cbn. by rewrite Hm1, insert_insert_eq.
  - rewrite (proj1 (Hl 0)). by rewrite length_zinsert.
  - intros k Hk. destruct (Hl k) as [_ ->]. by rewrite decide_True by lia.
Qed.

(** ** Updates of one descriptor *)

Lemma upd_mpd_end j f s c L :
  j < length L →
  upd_mpd j f (set_k_mpds (<[j := c]> L) s) = Done tt (set_k_mpds (<[j := f c]> L) s).
Proof.
  intros Hj. erewrite upd_mpd_run by (cbn; by apply list_lookup_insert_eq).
  cbn. by rewrite list_insert_insert_eq.
Qed.

Lemma upd_mpd_ins {B} j f s c L (k : unit → K B) :
  j < length L →
  (upd_mpd j f ≫= k) (set_k_mpds (<[j := c]> L) s) = k tt (set_k_mpds (<[j := f c]> L) s).
Proof.
  intros Hj. by rewrite (bind_run _ _ _ _ _ (upd_mpd_end _ _ _ _ _ Hj)).
Qed.

Lemma upd_mpoly_ins {B} j f s c L (k : unit → K B) :
  j < length L →
  (upd_poly (PolyMpd j) f ≫= k) (set_k_mpds (<[j := c]> L) s) =
  k tt (set_k_mpds (<[j := set_m_info (f (m_info c)) c]> L) s).
Proof. intros Hj. cbn [upd_poly]. by rewrite upd_mpd_ins. Qed.

Lemma get_mpd_ins {B} j s c L (k : composite_spd → K B) :
  j < length L →
  (get_mpd j ≫= k) (set_k_mpds (<[j := c]> L) s) = k c (set_k_mpds (<[j := c]> L) s).
Proof.
  intros Hj. by erewrite bind_run by (apply get_mpd_run; cbn; by apply list_lookup_insert_eq).
Qed.

Definition FREE_COMPOSITE : Z := Z.lor SPD_FREE SPD_COMPOSITE.

(** A descriptor on the free list, as [spd_mpd_release] leaves it. *)
Definition mpd_free_desc (next : option nat) : composite_spd :=
  MkMpd (MkPoly FREE_COMPOSITE 0 0) None None next None.
(** A descriptor just allocated. *)
Definition mpd_fresh (j : nat) (pgtbl : Z) : composite_spd :=
  MkMpd (MkPoly SPD_COMPOSITE 1 pgtbl) None None (Some j) (Some j).

Lemma spd_mpd_index_id j : j < MAX_MPD_DESC → spd_mpd_index j = Z.of_nat j.
Proof.
  unfold MAX_MPD_DESC. intros Hj. unfold spd_mpd_index. rewrite s16_id by lia.
  unfold MAX_MPD_DESC. destruct (Z.leb_spec (Z.of_nat 1024) (Z.of_nat j)); [lia|].
  by destruct (Z.ltb_spec (Z.of_nat j) 0); [lia|].
Qed.

(** The state can give a page table to a new composite: the pool has the page
    [p], and the kernel's page table [kp] maps the shared region. *)
Record pgtbl_avail (s : kstate) (p : Z) (l : list Z) : Prop := {
  pa_pool : pool_ok s (p :: l);
  pa_len : length l < 1023;
  pa_nz : va_to_pa p ≠ 0%Z;
  pa_kern : va_to_pa p ≠ k_kern_pgtbl s;
  pa_page : ∀ pg, k_mem s !! va_to_pa p = Some pg → length pg = PGD_PER_PTBL;
  pa_tbl : ∃ kp w, k_mem s !! k_kern_pgtbl s = Some kp ∧ length kp = PGD_PER_PTBL ∧
    kp.[pgd_index COS_INFO_REGION_ADDR] = Some w ∧ has w PG_PRESENT = true
}.

Lemma pgtbl_avail_frame s p l L h :
  pgtbl_avail s p l → pgtbl_avail (set_k_mpds L (set_k_mpd_free h s)) p l.
Proof. intros [[H1 H2 H3] ?????]. by split. Qed.

Lemma alloc_mpd_run s j next p l :
  k_mpd_free s = Some j → k_mpds s !! j = Some (mpd_free_desc next) →
  j < MAX_MPD_DESC → pgtbl_avail s p l →
  ∃ s0 p', spd_alloc_mpd_desc s = Done (Z.of_nat j)
      (set_k_mpds (<[j := mpd_fresh j (va_to_pa p)]> (k_mpds s)) s0) ∧
    pool_frame (set_k_mpd_free next s) s0 ∧ pool_ok s0 l ∧
    k_mem s0 = <[va_to_pa p := p']> (k_mem s) ∧ length p' = PGD_PER_PTBL ∧
    ∃ kp, k_mem s !! k_kern_pgtbl s = Some kp ∧ ∀ k, k < 1023 → p' !! k = kp !! k.
Proof.
  intros Hf Hc Hj Hav. pose proof (lookup_lt_Some _ _ _ Hc) as Hlt.
  unfold spd_alloc_mpd_desc. rewrite (bind_run (gets k_mpd_free) _ _ _ _ eq_refl), Hf.
  rewrite (bind_run _ _ _ _ _ (get_mpd_run _ _ _ Hc)). cbn [m_info m_members mpd_free_desc].
  rewrite bool_decide_eq_true_2 by done. do 4 (erewrite bind_run by reflexivity).
  cbn [m_next mpd_free_desc].
  set (s1 := set_k_mpd_free next s).
  rewrite (bind_run _ _ _ _ _ (upd_mpd_run j _ s1 _ Hc)).
  change (k_mpds s1) with (k_mpds s).
  rewrite upd_mpd_ins by done. unfold spd_mpd_remove_flags. rewrite upd_mpoly_ins by done.
  set (c1 := set_m_info _ _).
  destruct (pgtbl_avail_frame s p l (<[j := c1]> (k_mpds s)) next Hav)
    as [Hpo Hlen Hnz Hk Hpg (kp & w & Hkp & Hlk & Hw & Hpr)].
  destruct (spd_alloc_pgtbl_run _ p l kp w Hpo Hlen Hnz Hk Hpg Hkp Hlk Hw Hpr)
    as (s2 & p' & Hr & Hpo2 & (m & h & n & Heq) & Hm & Hlp & Hkp').
  change (set_k_mpds (<[j := c1]> (k_mpds s)) (set_k_mpd_free next s))
    with (set_k_mpds (<[j := c1]> (k_mpds s)) s1) in Hr, Heq.
  rewrite (bind_run _ _ _ _ _ Hr), (proj2 (Z.eqb_neq _ _) Hnz).
  exists (set_k_mem m (set_k_pool_head h (set_k_pool_len n s1))), p'.
  rewrite Heq.
  change (set_k_mem m (set_k_pool_head h (set_k_pool_len n (set_k_mpds ?L s1))))
    with (set_k_mpds L (set_k_mem m (set_k_pool_head h (set_k_pool_len n s1)))).
  unfold spd_mpd_take. rewrite !upd_mpoly_ins by done.
  rewrite spd_mpd_index_id by done.
  rewrite Heq in Hpo2, Hm. destruct Hpo2. split_and!; [done|by do 3 eexists|done|done|done|by exists kp].
Qed.

(** ** Releasing a reference *)

Lemma alter_insert_any {A} (f : A → A) (n j : nat) c (L : list A) :
  alter f n (<[j := c]> L) =
  <[j := if decide (n = j) then f c else c]> (alter f n L).
Proof.
  apply list_eq. intros k. rewrite lookup_alter_if.
  destruct (decide (j < length L)) as [Hj|Hj].
  - destruct (decide (k = j)) as [->|Hk].
    + rewrite !list_lookup_insert_eq by (rewrite ?length_alter; done). by repeat case_decide.
    + rewrite !list_lookup_insert_ne by done. by rewrite lookup_alter_if.
  - rewrite !list_insert_ge by (rewrite ?length_alter; lia). by rewrite lookup_alter_if.
Qed.

(** An update of descriptor [n] while descriptor [j] is held. *)
Lemma upd_mpd_any {B} n f s j c L (k : unit → K B) :
  n < length L → j < length L →
  (upd_mpd n f ≫= k) (set_k_mpds (<[j := c]> L) s) =
  k tt (set_k_mpds (<[j := if decide (n = j) then f c else c]> (alter f n L)) s).
Proof.
  intros Hn Hj. destruct (lookup_lt_is_Some_2 (<[j := c]> L) n) as [y Hy];
    [by rewrite length_insert|].
  erewrite bind_run by (apply upd_mpd_run; cbn; exact Hy).
  rewrite <-alter_insert_any. cbn [k_mpds set_k_mpds].
  replace (alter f n (<[j := c]> L)) with (<[n := f y]> (<[j := c]> L)); [done|].
  apply list_eq. intros i. rewrite lookup_alter_if. case_decide as Hi.
  - subst. rewrite list_lookup_insert_eq by (by rewrite length_insert). by rewrite Hy.
  - by rewrite list_lookup_insert_ne.
Qed.

Lemma ref_val_release i :
  (0 < p_ref_cnt i < 2 ^ 31)%Z → cos_ref_val (cos_ref_release i) = (p_ref_cnt i - 1)%Z.
Proof.
  intros Hr. unfold cos_ref_val, cos_ref_release. cbn [p_ref_cnt set_p_ref_cnt].
  rewrite s32_id by lia. by rewrite u32_id by lia.
Qed.

Lemma mpd_release_dec fuel s j c :
  k_mpds s !! j = Some c → (1 < p_ref_cnt (m_info c) < 2 ^ 31)%Z →
  mpd_release (S fuel) (PolyMpd j) s =
  Done tt (set_k_mpds (<[j := set_m_info (cos_ref_release (m_info c)) c]> (k_mpds s)) s).
Proof.
  intros Hc Hr. pose proof (lookup_lt_Some _ _ _ Hc) as Hlt. cbn [mpd_release upd_poly get_poly].
  rewrite (bind_run _ _ _ _ _ (upd_mpd_run j _ s c Hc)). erewrite bind_run.
  2: { rewrite get_mpd_ins by done. reflexivity. }
  cbn [m_info set_m_info]. rewrite ref_val_release by lia.
  by destruct (Z.eqb_spec 0 (p_ref_cnt (m_info c) - 1)); [lia|].
Qed.

(** The descriptors with [c], between [p] and [n], taken out of its ring. *)
Definition unlink_mpds (c : composite_spd) (n p : nat) (L : list composite_spd) :=
  alter (set_m_next (m_next c)) p (alter (set_m_prev (m_prev c)) n L).

(** The last reference of composite [j] = [c] can be released. *)
Record last_ref (s : kstate) (j : nat) (c : composite_spd) (n p : nat) : Prop := {
  lr_mpd : k_mpds s !! j = Some c;
  lr_ref : p_ref_cnt (m_info c) = 1%Z;
  lr_members : m_members c = None;
  lr_flags : spd_mpd_is_depricated c || spd_mpd_is_subordinate c = true;
  lr_next : m_next c = Some n;
  lr_prev : m_prev c = Some p;
  lr_n : n < length (k_mpds s);
  lr_p : p < length (k_mpds s)
}.

(** Up to the point where it matters whether there is a master. *)
Lemma mpd_release_unlink fuel s j c n p :
  last_ref s j c n p →
  mpd_release (S fuel) (PolyMpd j) s =
  (match m_master_spd c with
   | Some m =>
       assert (spd_mpd_is_subordinate c);;
       mpd_release fuel (PolyMpd m);;
       upd_mpd j (set_m_master_spd None)
   | None =>
       cos_put_pg_pool (pa_to_va (p_pg_tbl (m_info c)));;
       upd_poly (PolyMpd j) (set_p_pg_tbl 0)
   end;;
   spd_mpd_reset_flags j;;
   spd_mpd_set_flags j (Z.lor SPD_FREE SPD_COMPOSITE))
    (set_k_mpds (<[j := MkMpd (cos_ref_release (m_info c)) None (m_master_spd c)
                          (k_mpd_free s) None]> (unlink_mpds c n p (k_mpds s)))
       (set_k_mpd_free (Some j) s)).
Proof.
  intros [Hc Href Hmem Hfl Hn Hp Hnl Hpl]. pose proof (lookup_lt_Some _ _ _ Hc) as Hlt.
  cbn [mpd_release upd_poly get_poly].
  rewrite (bind_run _ _ _ _ _ (upd_mpd_run j _ s c Hc)). erewrite bind_run.
  2: { rewrite get_mpd_ins by done. reflexivity. }
  cbn [m_info set_m_info]. rewrite ref_val_release, Href by lia.
  change (0 =? 1 - 1)%Z with true. cbn [negb as_mpd].
  erewrite bind_run by reflexivity. rewrite get_mpd_ins by done.
  cbn [m_members set_m_info]. rewrite Hmem, bool_decide_eq_true_2 by done.
  erewrite bind_run by reflexivity.
  unfold spd_mpd_is_depricated, spd_mpd_is_subordinate in Hfl |- *.
  cbn [m_info set_m_info p_flags set_p_ref_cnt cos_ref_release]. rewrite Hfl.
  erewrite bind_run by reflexivity. cbn [m_next m_prev set_m_info]. rewrite Hn.
  erewrite bind_run by reflexivity. rewrite upd_mpd_any by done.
  rewrite get_mpd_ins by by rewrite length_alter.
  set (c1 := if decide (n = j) then _ else _).
  assert (m_prev c1 = Some p ∧ m_next c1 = m_next c) as [Hp1 Hn1]
    by (unfold c1; by case_decide).
  rewrite Hp1, Hn1. erewrite bind_run by reflexivity.
  rewrite upd_mpd_any by by rewrite length_alter.
  erewrite bind_run by reflexivity. rewrite upd_mpd_ins by by rewrite !length_alter.
  erewrite bind_run by reflexivity. fold (unlink_mpds c n p (k_mpds s)).
  set (c2 := set_m_prev None _).
  assert (c2 = MkMpd (cos_ref_release (m_info c)) None (m_master_spd c) (k_mpd_free s) None)
    as Hc2 by (unfold c2, c1; repeat case_decide; destruct c; cbn in *; by subst).
  change (set_k_mpd_free (Some j) (set_k_mpds ?L s))
    with (set_k_mpds L (set_k_mpd_free (Some j) s)).
  rewrite get_mpd_ins by (unfold unlink_mpds; by rewrite !length_alter). rewrite Hc2. done.
Qed.

(** The page table [pt] can be put into the pool, which holds [l]. *)
Record pool_room (s : kstate) (l : list Z) (pt : Z) : Prop := {
  pr_pool : pool_ok s l;
  pr_len : length l < 1023;
  pr_pt : (0 ≤ pt < 2 ^ 32)%Z ∧ pa_to_va pt ≠ 0%Z;
  pr_new : pt ∉ (va_to_pa <$> l);
  pr_page : ∃ pg w, k_mem s !! pt = Some pg ∧ pg.[0] = Some w
}.

(** The memory of [s'] is that of [s] but for the page [pt]. *)
Definition mem_but (pt : Z) (s s' : kstate) : Prop :=
  ∀ q, q ≠ pt → k_mem s' !! q = k_mem s !! q.

Lemma pool_put_frame s l pt :
  pool_room s l pt →
  ∃ s', cos_put_pg_pool (pa_to_va pt) s = Done tt s' ∧ pool_frame s s' ∧
    pool_ok s' (pa_to_va pt :: l) ∧ mem_but pt s s'.
Proof.
  intros [Hpo Hlen [Hpt Hnz] Hni (pg & w & Hpg & Hw)].
  destruct (cos_put_pg_pool_run s (pa_to_va pt) l pg w) as (s' & Hr & Hpo' & Hm & _);
    rewrite ?pa_va_id in * by done; try done.
  exists s'. split_and!; [done|by eapply cos_put_pg_pool_frame|done|].
  intros q Hq. by rewrite Hm, lookup_insert_ne.
Qed.

Lemma pool_room_frame s l pt L h :
  pool_room s l pt → pool_room (set_k_mpds L (set_k_mpd_free h s)) l pt.
Proof. intros [[H1 H2 H3] ????]. by split. Qed.

(** The last reference of a composite without master gives back descriptor and
    page table. *)
Lemma mpd_release_last fuel s j c n p l :
  last_ref s j c n p → m_master_spd c = None → pool_room s l (p_pg_tbl (m_info c)) →
  ∃ s0, mpd_release (S fuel) (PolyMpd j) s = Done tt (set_k_mpds
      (<[j := mpd_free_desc (k_mpd_free s)]> (unlink_mpds c n p (k_mpds s))) s0) ∧
    pool_frame (set_k_mpd_free (Some j) s) s0 ∧
    pool_ok s0 (pa_to_va (p_pg_tbl (m_info c)) :: l) ∧ mem_but (p_pg_tbl (m_info c)) s s0.
Proof.
  intros Hlr Hm Hroom. rewrite (mpd_release_unlink fuel s j c n p Hlr), Hm.
  assert (j < length (unlink_mpds c n p (k_mpds s))) as Hj.
  { unfold unlink_mpds. rewrite !length_alter. eapply lookup_lt_Some, Hlr. }
  set (c1 := MkMpd _ _ _ _ _). set (L := unlink_mpds c n p (k_mpds s)) in *.
  destruct (pool_put_frame _ _ _ (pool_room_frame _ _ _ (<[j := c1]> L) (Some j) Hroom))
    as (s2 & Hr & (m & h & q & Heq) & Hpo & Hmb).
  exists (set_k_mem m (set_k_pool_head h (set_k_pool_len q (set_k_mpd_free (Some j) s)))).
  change (set_k_mem m (set_k_pool_head h (set_k_pool_len q (set_k_mpds ?X ?s1))))
    with (set_k_mpds X (set_k_mem m (set_k_pool_head h (set_k_pool_len q s1)))) in Heq.
  subst s2. cbn [upd_poly]. erewrite bind_run.
  2: { rewrite (bind_run _ _ _ _ _ Hr). by apply upd_mpd_end. }
  unfold spd_mpd_reset_flags, spd_mpd_set_flags. rewrite upd_mpoly_ins by done.
  cbn [upd_poly]. rewrite upd_mpd_end by done.
  split_and!; [|by do 3 eexists|by destruct Hpo|exact Hmb].
  do 3 f_equal. unfold c1, mpd_free_desc, cos_ref_release. cbn.
  by rewrite (lr_ref _ _ _ _ _ Hlr).
Qed.

(** The last reference of a subordinate gives back descriptor and one
    reference of its master. *)
Lemma mpd_release_subordinate fuel s j c n p m cm :
  last_ref s j c n p → m_master_spd c = Some m → m ≠ j →
  spd_mpd_is_subordinate c = true →
  unlink_mpds c n p (k_mpds s) !! m = Some cm → (1 < p_ref_cnt (m_info cm) < 2 ^ 31)%Z →
  mpd_release (S (S fuel)) (PolyMpd j) s = Done tt (set_k_mpds
    (<[m := set_m_info (cos_ref_release (m_info cm)) cm]>
      (<[j := set_m_info (MkPoly FREE_COMPOSITE 0 (p_pg_tbl (m_info c)))
                (mpd_free_desc (k_mpd_free s))]> (unlink_mpds c n p (k_mpds s))))
    (set_k_mpd_free (Some j) s)).
Proof.
  intros Hlr Hm Hne Hsub Hcm Href. rewrite (mpd_release_unlink _ s j c n p Hlr), Hm, Hsub.
  assert (j < length (unlink_mpds c n p (k_mpds s))) as Hj.
  { unfold unlink_mpds. rewrite !length_alter. eapply lookup_lt_Some, Hlr. }
  set (L := unlink_mpds c n p (k_mpds s)) in *. set (s1 := set_k_mpd_free (Some j) s).
  erewrite bind_run.
  2: { erewrite bind_run by reflexivity.
       erewrite bind_run; [|apply mpd_release_dec; [cbn; rewrite list_lookup_insert_ne by done; exact Hcm|done]].
       cbn [k_mpds set_k_mpds]. rewrite list_insert_insert_ne by done.
       change (set_k_mpds ?A (set_k_mpds ?B s1)) with (set_k_mpds A s1).
       apply upd_mpd_end. by rewrite length_insert. }
  unfold spd_mpd_reset_flags, spd_mpd_set_flags.
  rewrite upd_mpoly_ins by by rewrite length_insert.
  cbn [upd_poly]. rewrite upd_mpd_end by by rewrite length_insert.
  rewrite list_insert_insert_ne by done.
  do 4 f_equal. unfold mpd_free_desc, cos_ref_release. cbn.
  by rewrite (lr_ref _ _ _ _ _ Hlr).
Qed.

Lemma insert_alter {A} (f : A → A) j x (L : list A) : <[j := x]> (alter f j L) = <[j := x]> L.
Proof.
  apply list_eq. intros k. destruct (decide (j < length L)) as [Hj|Hj].
  - destruct (decide (k = j)) as [->|Hk].
    + by rewrite !list_lookup_insert_eq by by rewrite ?length_alter.
    + by rewrite !list_lookup_insert_ne, list_lookup_alter_ne.
  - rewrite !list_insert_ge by (rewrite ?length_alter; lia).
    destruct (decide (k = j)) as [->|Hk]; [|by apply list_lookup_alter_ne].
    by rewrite list_lookup_alter_eq, (lookup_ge_None_2 L j) by lia.
Qed.

Lemma va_pa_id p : (0 ≤ p < 2 ^ 32)%Z → pa_to_va (va_to_pa p) = p.
Proof.
  intros Hp. unfold pa_to_va, va_to_pa, u32. rewrite Zplus_mod_idemp_l.
  by rewrite Z.sub_add, Z.mod_small by lia.
Qed.

(** A composite lives and dies in balance: allocation takes the head of the
    descriptor free list and a page of the pool, and gives a composite with
    exactly one reference; deprecating it right away drops that reference,
    and puts both back, so that all descriptors, the free list and the
    pool are as before. *)
Theorem alloc_depricate_roundtrip s j next p l :
  k_mpd_free s = Some j → k_mpds s !! j = Some (mpd_free_desc next) →
  j < MAX_MPD_DESC → pgtbl_avail s p l → (0 ≤ p < 2 ^ 32)%Z →
  ∃ s1 s2, spd_alloc_mpd_desc s = Done (Z.of_nat j) s1 ∧
    k_mpds s1 !! j = Some (mpd_fresh j (va_to_pa p)) ∧
    k_mpd_free s1 = next ∧ pool_ok s1 l ∧
    spd_mpd_depricate j s1 = Done tt s2 ∧
    k_mpds s2 = k_mpds s ∧ k_mpd_free s2 = k_mpd_free s ∧ pool_ok s2 (p :: l).
Proof.
  intros Hf Hc Hj Hav Hp. pose proof (lookup_lt_Some _ _ _ Hc) as Hlt.
  destruct (alloc_mpd_run s j next p l Hf Hc Hj Hav)
    as (s0 & pt & Hr & (m & h & n & Hs0) & Hpo & Hm & Hlp & _).
  eexists. set (L := k_mpds s) in *. set (c1 := mpd_fresh j (va_to_pa p)) in *.
  set (c2 := set_m_info (set_p_flags (bset SPD_COMPOSITE SPD_DEPRICATED) (m_info c1)) c1).
  destruct (mpd_release_last 1023 (set_k_mpds (<[j := c2]> L) s0) j c2 j j l)
    as (s2 & Hr2 & (m2 & h2 & n2 & Hs2) & Hpo2 & _).
  - split; cbn; rewrite ?length_insert; try done. by apply list_lookup_insert_eq.
  - done.
  - assert (p ≠ 0)%Z as Hnz by by destruct (pa_pool _ _ _ Hav) as [(_ & ? & _) _ _].
    split; cbn; [by destruct Hpo|apply Hav| | |].
    + split; [unfold va_to_pa; apply u32_range|by rewrite va_pa_id].
    + destruct (pa_pool _ _ _ Hav) as [_ Hnd _]. cbn in Hnd. by apply NoDup_cons in Hnd as [? _].
    + destruct (zlookup_is_Some pt 0) as [w Hw]; [unfold PGD_PER_PTBL in Hlp; lia|].
      exists pt, w. by rewrite Hm, lookup_insert_eq.
  - cbn [p_pg_tbl m_info c2 c1 set_m_info set_p_flags mpd_fresh] in Hpo2.
    rewrite va_pa_id in Hpo2 by done.
    eexists. split_and!; [exact Hr|cbn; by apply list_lookup_insert_eq|by rewrite Hs0
      |by destruct Hpo| | | |].
    + unfold spd_mpd_depricate, spd_mpd_set_flags. rewrite upd_mpoly_ins by done. exact Hr2.
    + cbn. unfold unlink_mpds. rewrite !insert_alter, list_insert_insert_eq, Hs0. cbn.
      by apply list_insert_id.
    + rewrite Hs2. cbn. done.
    + by destruct Hpo2.
Qed.

(** ** Subordination *)

(** A composite that is current, with flags [f], [r] references and page table
    [pt], alone in its ring. *)
Definition mpd_alone (j : nat) (f r pt : Z) (mem : option nat) : composite_spd :=
  MkMpd (MkPoly f r pt) mem None (Some j) (Some j).

Definition current (f : Z) : Prop :=
  has f SPD_SUBORDINATE = false ∧ has f SPD_DEPRICATED = false.

Section Subordinate.
Context (s : kstate) (m j : nat) (fm rm ptm : Z) (mem : option nat) (fj rj ptj : Z).
Context (Hne : m ≠ j) (Hm : k_mpds s !! m = Some (mpd_alone m fm rm ptm mem)).
Context (Hj : k_mpds s !! j = Some (mpd_alone j fj rj ptj None)).
Context (Hfm : current fm) (Hfj : current fj).
Context (Hrm : (0 < rm < 2 ^ 31 - 1)%Z) (Hrj : (1 < rj < 2 ^ 31)%Z).

Definition sub_flags : Z := bset fj SPD_SUBORDINATE.

(** The two descriptors linked into one ring, the slave with [r] references. *)
Definition sub_pair (r : Z) (L : list composite_spd) : list composite_spd :=
  <[j := MkMpd (MkPoly sub_flags r ptm) None (Some m) (Some m) (Some m)]>
    (<[m := MkMpd (MkPoly fm (rm + 1) ptm) mem None (Some j) (Some j)]> L).

(** Access to the two descriptors [j] and [m]. *)
Lemma upd_fst {B} f s1 c c' L (k : unit → K B) :
  j < length L →
  (upd_mpd j f ≫= k) (set_k_mpds (<[j := c]> (<[m := c']> L)) s1) =
  k tt (set_k_mpds (<[j := f c]> (<[m := c']> L)) s1).
Proof. intros Hl. apply upd_mpd_ins. by rewrite length_insert. Qed.
Lemma get_fst {B} s1 c c' L (k : composite_spd → K B) :
  j < length L →
  (get_mpd j ≫= k) (set_k_mpds (<[j := c]> (<[m := c']> L)) s1) =
  k c (set_k_mpds (<[j := c]> (<[m := c']> L)) s1).
Proof. intros Hl. apply get_mpd_ins. by rewrite length_insert. Qed.
Lemma upd_snd_end f s1 c c' L :
  m < length L →
  upd_mpd m f (set_k_mpds (<[j := c]> (<[m := c']> L)) s1) =
  Done tt (set_k_mpds (<[j := c]> (<[m := f c']> L)) s1).
Proof.
  intros Hl. rewrite !(list_insert_insert_ne _ j m) by done.
  apply upd_mpd_end. by rewrite length_insert.
Qed.
Lemma upd_snd {B} f s1 c c' L (k : unit → K B) :
  m < length L →
  (upd_mpd m f ≫= k) (set_k_mpds (<[j := c]> (<[m := c']> L)) s1) =
  k tt (set_k_mpds (<[j := c]> (<[m := f c']> L)) s1).
Proof. intros Hl. by rewrite (bind_run _ _ _ _ _ (upd_snd_end f s1 c c' L Hl)). Qed.
Lemma get_snd {B} s1 c c' L (k : composite_spd → K B) :
  m < length L →
  (get_mpd m ≫= k) (set_k_mpds (<[j := c]> (<[m := c']> L)) s1) =
  k c' (set_k_mpds (<[j := c]> (<[m := c']> L)) s1).
Proof.
  intros Hl. rewrite !(list_insert_insert_ne _ j m) by done.
  apply get_mpd_ins. by rewrite length_insert.
Qed.

Lemma spd_mpd_subordinate_run s1 L :
  j < length L → m < length L →
  spd_mpd_subordinate j m (set_k_mpds (<[j := mpd_alone j sub_flags rj ptj None]>
    (<[m := mpd_alone m fm rm ptm mem]> L)) s1) =
  Done tt (set_k_mpds (sub_pair rj L) s1).
Proof.
  intros Hjl Hml. destruct Hfm as [Hm1 Hm2], Hfj as [Hj1 Hj2].
  assert (has sub_flags SPD_SUBORDINATE = true) as Hs1
    by (unfold sub_flags; rewrite has_bset; by rewrite orb_true_r).
  assert (has sub_flags SPD_DEPRICATED = false) as Hs2
    by (unfold sub_flags; rewrite has_bset; by rewrite Hj2).
  unfold spd_mpd_subordinate. rewrite get_fst, get_snd by done.
  unfold spd_mpd_is_subordinate, spd_mpd_is_depricated. cbn [m_info p_flags mpd_alone].
  rewrite Hm1, Hm2, Hs2. cbn [negb andb]. do 2 (erewrite bind_run by reflexivity).
  change MAX_MPD_DESC with (S 1023). erewrite bind_run; [|].
  2: { cbn [subordinate_loop]. rewrite get_fst by done. unfold spd_mpd_is_subordinate.
       cbn [m_info p_flags mpd_alone m_master_spd]. rewrite Hs1, !bool_decide_eq_true_2 by done.
       cbv zeta. do 3 (erewrite bind_run by reflexivity).
       rewrite upd_fst by done. cbn [upd_poly]. rewrite upd_fst by done.
       unfold spd_mpd_take. cbn [upd_poly]. rewrite upd_snd, get_fst by done.
       erewrite bind_run by reflexivity. erewrite bind_run by reflexivity.
       rewrite decide_True by done. reflexivity. }
  rewrite get_fst by done. cbn [m_members set_m_info set_m_master_spd].
  rewrite bool_decide_eq_true_2 by done. erewrite bind_run by reflexivity.
  rewrite get_snd by done. cbn [m_prev set_m_info set_m_master_spd mpd_alone].
  rewrite upd_snd by done. erewrite bind_run by reflexivity. rewrite !upd_fst by done.
  erewrite bind_run by reflexivity. rewrite upd_snd_end by done. unfold sub_pair.
  cbn. unfold cos_ref_take. cbn. by rewrite s32_id by lia.
Qed.
End Subordinate.

(** [spd_mpd_make_subordinate] up to the distinction of the references. *)
Lemma make_subordinate_start s m j fm rm ptm mem fj rj ptj :
  k_mpds s !! m = Some (mpd_alone m fm rm ptm mem) →
  k_mpds s !! j = Some (mpd_alone j fj rj ptj None) →
  current fm → current fj → (0 < rj < 2 ^ 31)%Z →
  spd_mpd_make_subordinate m j s =
  ((if (1 <? rj)%Z then
      cos_put_pg_pool (pa_to_va ptj);; spd_mpd_subordinate j m
    else mret tt);;
   spd_mpd_release (PolyMpd j))
    (set_k_mpds (<[j := mpd_alone j (sub_flags fj) rj ptj None]> (k_mpds s)) s).
Proof.
  intros Hm Hj [Hm1 Hm2] [Hj1 Hj2] Hrj.
  assert (cos_ref_val (MkPoly fj rj ptj) = rj) as Hrv by (apply u32_id; lia).
  unfold spd_mpd_make_subordinate. rewrite (bind_run _ _ _ _ _ (get_mpd_run _ _ _ Hj)).
  rewrite (bind_run _ _ _ _ _ (get_mpd_run _ _ _ Hm)).
  unfold spd_mpd_is_subordinate, spd_mpd_is_depricated. cbn [m_info p_flags mpd_alone].
  rewrite Hj1, Hj2, Hm1, Hm2, Hrv. cbn [negb andb]. erewrite bind_run by reflexivity.
  erewrite bind_run.
  2: { unfold spd_composite_num_members. by rewrite (bind_run _ _ _ _ _ (get_mpd_run _ _ _ Hj)). }
  do 2 (erewrite bind_run by reflexivity). rewrite (proj2 (Z.eqb_neq rj 0)) by lia.
  erewrite bind_run by reflexivity. unfold spd_mpd_set_flags. cbn [upd_poly].
  by rewrite (bind_run _ _ _ _ _ (upd_mpd_run j _ s _ Hj)).
Qed.

(** Making a composite without members, but still referenced, subordinate to
    another one: the slave uses the master's page table from then on and holds
    one reference to the master, both are linked into one ring, the slave's
    own page table is back in the page pool, and exactly one of the slave's
    references is dropped. *)
Lemma make_subordinate_run s m j fm rm ptm mem fj rj ptj l :
  m ≠ j → k_mpds s !! m = Some (mpd_alone m fm rm ptm mem) →
  k_mpds s !! j = Some (mpd_alone j fj rj ptj None) →
  current fm → current fj → (0 < rm < 2 ^ 31 - 1)%Z → (1 < rj < 2 ^ 31)%Z →
  pool_room s l ptj →
  ∃ s0, spd_mpd_make_subordinate m j s =
      Done tt (set_k_mpds (sub_pair m j fm rm ptm mem fj (rj - 1) (k_mpds s)) s0) ∧
    pool_frame s s0 ∧ pool_ok s0 (pa_to_va ptj :: l) ∧ mem_but ptj s s0.
Proof.
  intros Hne Hm Hj Hfm Hfj Hrm Hrj Hroom.
  rewrite (make_subordinate_start s m j fm rm ptm mem fj rj ptj) by (done || lia).
  set (L := k_mpds s) in *.
  pose proof (lookup_lt_Some _ _ _ Hj) as Hjl. pose proof (lookup_lt_Some _ _ _ Hm) as Hml.
  rewrite (proj2 (Z.ltb_lt 1 rj)) by lia. set (c1 := mpd_alone _ _ _ _ _).
  destruct (pool_put_frame _ _ _ (pool_room_frame _ _ _ (<[j := c1]> L) (k_mpd_free s) Hroom))
    as (s2 & Hr & (m' & h & q & Heq) & Hpo & Hmb).
  change (set_k_mpds ?X (set_k_mpd_free (k_mpd_free s) s)) with (set_k_mpds X s) in Hr, Heq.
  exists (set_k_mem m' (set_k_pool_head h (set_k_pool_len q s))).
  assert (s2 = set_k_mpds (<[j := c1]> (<[m := mpd_alone m fm rm ptm mem]> L))
    (set_k_mem m' (set_k_pool_head h (set_k_pool_len q s)))) as Heq2.
  { rewrite Heq, (list_insert_id L m) by done. done. }
  erewrite bind_run.
  2: { rewrite (bind_run _ _ _ _ _ Hr), Heq2.
       by apply (spd_mpd_subordinate_run m j fm rm ptm mem fj rj ptj). }
  split_and!; [|by do 3 eexists|rewrite Heq in Hpo; by destruct Hpo
    |rewrite Heq in Hmb; exact Hmb].
  unfold spd_mpd_release. change MAX_MPD_DESC with (S 1023).
  erewrite mpd_release_dec;
    [|cbn; apply list_lookup_insert_eq; by rewrite length_insert|cbn; lia].
  cbn [k_mpds set_k_mpds]. unfold sub_pair. rewrite list_insert_insert_eq.
  cbn. unfold cos_ref_release. cbn. by rewrite s32_id by lia.
Qed.

(** With no other reference the slave is freed at once. *)
Lemma make_subordinate_last s m j fm rm ptm mem fj ptj l :
  k_mpds s !! m = Some (mpd_alone m fm rm ptm mem) →
  k_mpds s !! j = Some (mpd_alone j fj 1 ptj None) →
  current fm → current fj → pool_room s l ptj →
  ∃ s0, spd_mpd_make_subordinate m j s =
      Done tt (set_k_mpds (<[j := mpd_free_desc (k_mpd_free s)]> (k_mpds s)) s0) ∧
    pool_frame (set_k_mpd_free (Some j) s) s0 ∧ pool_ok s0 (pa_to_va ptj :: l) ∧
    mem_but ptj s s0.
Proof.
  intros Hm Hj Hfm Hfj Hroom.
  rewrite (make_subordinate_start s m j fm rm ptm mem fj 1 ptj) by (done || lia).
  erewrite bind_run by reflexivity. set (c := mpd_alone _ _ _ _ _).
  pose proof (lookup_lt_Some _ _ _ Hj) as Hjl.
  destruct (mpd_release_last 1023 (set_k_mpds (<[j := c]> (k_mpds s)) s) j c j j l)
    as (s0 & Hr & Hfr & Hpo & Hmb).
  - split; cbn; rewrite ?length_insert; try done; [by apply list_lookup_insert_eq|].
    unfold spd_mpd_is_subordinate. cbn. unfold sub_flags. rewrite has_bset.
    by rewrite !orb_true_r.
  - done.
  - exact (pool_room_frame _ _ _ (<[j := c]> (k_mpds s)) (k_mpd_free s) Hroom).
  - cbn [p_pg_tbl m_info c mpd_alone] in *. destruct Hfr as (a & b & d & Heq).
    exists (set_k_mem a (set_k_pool_head b (set_k_pool_len d (set_k_mpd_free (Some j) s)))).
    rewrite Heq in *.
    cbn [k_mpds set_k_mpds] in Hr. unfold unlink_mpds in Hr.
    rewrite !insert_alter, list_insert_insert_eq in Hr.
    split_and!; [exact Hr|by do 3 eexists|by destruct Hpo|exact Hmb].
Qed.

(** Releasing the last reference of a subordinate undoes the subordination:
    the master is alone in its ring again and has the reference back, the
    slave's descriptor is the head of the free list, and the page table, which
    was the master's, is not given to the pool. *)
Theorem subordinate_release_returns s m j fm rm ptm mem fj L :
  m ≠ j → m < length L → j < length L → (0 < rm < 2 ^ 31 - 1)%Z →
  k_mpds s = sub_pair m j fm rm ptm mem fj 1 L →
  spd_mpd_release (PolyMpd j) s = Done tt (set_k_mpds
    (<[m := mpd_alone m fm rm ptm mem]>
      (<[j := set_m_info (MkPoly FREE_COMPOSITE 0 ptm) (mpd_free_desc (k_mpd_free s))]> L))
    (set_k_mpd_free (Some j) s)).
Proof.
  intros Hne Hm Hj Hrm Hs. unfold spd_mpd_release. change MAX_MPD_DESC with (S (S 1022)).
  set (c := MkMpd (MkPoly (sub_flags fj) 1 ptm) None (Some m) (Some m) (Some m)).
  assert (has (sub_flags fj) SPD_SUBORDINATE = true) as Hsub
    by (unfold sub_flags; rewrite has_bset; by rewrite orb_true_r).
  assert (k_mpds s !! j = Some c) as Hc.
  { rewrite Hs. apply list_lookup_insert_eq. by rewrite length_insert. }
  assert (m < length (k_mpds s)) as Hml by (rewrite Hs; unfold sub_pair; by rewrite !length_insert).
  set (cm := MkMpd (MkPoly fm (rm + 1) ptm) mem None (Some m) (Some m)).
  assert (unlink_mpds c m m (k_mpds s) = <[j := c]> (<[m := cm]> L)) as Hul.
  { unfold unlink_mpds. rewrite Hs. unfold sub_pair.
    rewrite !alter_insert_any, !(decide_False (P := m = j)) by done. f_equal.
    rewrite !(decide_True (P := m = m)), !insert_alter by done. done. }
  rewrite (mpd_release_subordinate _ s j c m m m cm); try done.
  - rewrite Hul, list_insert_insert_eq, (list_insert_insert_ne _ j m) by done.
    rewrite list_insert_insert_eq. unfold cm, cos_ref_release. cbn.
    rewrite s32_id by lia. by rewrite Z.add_simpl_r.
  - split; try done. cbn. unfold spd_mpd_is_subordinate. cbn. by rewrite Hsub, orb_true_r.
  - rewrite Hul, list_lookup_insert_ne by done. by apply list_lookup_insert_eq.
  - cbn. lia.
Qed.

(** ** Running out of descriptors *)

(** When no composite descriptor is left, [spd_alloc_mpd] does not return
    NULL: the error code -1 is used as an index, and the pointer in front of
    the descriptor array is formed. *)
Theorem alloc_mpd_exhausted s :
  k_mpd_free s = None → spd_alloc_mpd s = Fault OutOfBounds.
Proof.
  intros Hf. unfold spd_alloc_mpd, spd_alloc_mpd_desc.
  erewrite bind_run; [|by rewrite (bind_run (gets k_mpd_free) _ _ _ _ eq_refl), Hf]. done.
Qed.

Lemma alloc_mpd_exhausted_witness : spd_alloc_mpd k_zero = Fault OutOfBounds.
Proof. by apply (alloc_mpd_exhausted k_zero). Defined.

(** ** Component descriptors are not reusable *)

(** The descriptor [x] after [spd_free], with [h] the rest of the free list. *)
Definition freed_spd (h : option nat) (x : spd) : spd :=
  set_s_freelist_next h (set_s_info (set_p_flags SPD_FREE (s_info x)) x).

Lemma spd_free_run s i x :
  k_spds s !! i = Some x → s_composite_spd x = PolySpd i →
  spd_free i s = Done tt (set_k_spd_free (Some i)
    (set_k_spds (<[i := freed_spd (k_spd_free s) x]> (k_spds s)) s)).
Proof.
  intros Hx Hc. pose proof (lookup_lt_Some _ _ _ Hx) as Hlt.
  unfold spd_free. cbn [upd_poly].
  rewrite (bind_run _ _ _ _ _ (upd_spd_run _ _ _ _ Hx)).
  erewrite bind_run by reflexivity.
  erewrite bind_run by (apply upd_spd_run; cbn; by apply list_lookup_insert_eq).
  erewrite bind_run by reflexivity.
  erewrite bind_run by (apply get_spd_run; cbn; rewrite list_insert_insert_eq;
    by apply list_lookup_insert_eq).
  rewrite decide_True by done. cbn. by rewrite list_insert_insert_eq.
Qed.

(** A component that owned capabilities and is freed blocks its descriptor:
    [spd_free] keeps the old capability range, the descriptor is the next one
    to be handed out, and from then on every request for a component with
    capabilities fails, however many descriptors are free. *)
Theorem freed_descriptor_jams s i x n tbl up v :
  k_spds s !! i = Some x → s_composite_spd x = PolySpd i →
  s_cap_range x ≠ 0%Z → n ≠ 0%Z →
  ∃ s1 s2, spd_free i s = Done tt s1 ∧ k_spd_free s1 = Some i ∧
    spd_alloc n tbl up v s1 = Done None s2 ∧ k_spd_free s2 = Some i ∧
    k_spds s2 = k_spds s1 ∧ k_caps s2 = k_caps s1.
Proof.
  intros Hx Hc Hr Hn. pose proof (lookup_lt_Some _ _ _ Hx) as Hlt.
  do 2 eexists. split; [by apply spd_free_run|]. split; [done|].
  set (x1 := freed_spd (k_spd_free s) x).
  set (s1 := set_k_spd_free (Some i) (set_k_spds (<[i := x1]> (k_spds s)) s)).
  assert (k_spds s1 !! i = Some x1) as Hx1 by by apply list_lookup_insert_eq.
  set (x2 := set_s_info (set_p_flags 0 (s_info x1)) x1).
  set (s2 := set_k_spds (<[i := x2]> (k_spds s1)) (set_k_spd_free (k_spd_free s) s1)).
  assert (k_spds s2 !! i = Some x2) as Hx2.
  { apply list_lookup_insert_eq. by eapply lookup_lt_Some. }
  split.
  - unfold spd_alloc. rewrite (bind_run (gets k_spd_free) _ s1 (Some i) s1 eq_refl).
    rewrite (bind_run _ _ _ _ _ (get_spd_run _ _ _ Hx1)).
    erewrite bind_run by reflexivity. cbn [upd_poly].
    erewrite bind_run by (apply upd_spd_run; cbn; by apply list_lookup_insert_eq).
    rewrite (proj2 (Z.eqb_neq n 0)) by done. cbn [negb].
    change (set_k_spds _ _) with s2. erewrite bind_run; [|].
    2: { unfold spd_reserve_cap_range. erewrite bind_run; [reflexivity|].
         rewrite (bind_run _ _ _ _ _ (get_spd_run _ _ _ Hx2)).
         change (s_cap_range x2) with (s_cap_range x).
         by rewrite (proj2 (Z.eqb_neq _ 0) Hr). }
    change (-1 =? -1)%Z with true. cbn [negb].
    rewrite (bind_run _ _ _ _ _ (spd_free_run s2 i x2 Hx2 Hc)). reflexivity.
  - split_and!; [done| |done]. cbn. rewrite !list_insert_insert_eq. done.
Qed.

(** ** Examples *)

(** Descriptor 0 is free, composites 1 and 2 exist, one page is in the pool. *)
Definition life_page : Z := pa_to_va 4096.
Definition life_mpds : list composite_spd :=
  <[0 := mpd_free_desc (Some 3)]> (<[1 := mpd_alone 1 SPD_COMPOSITE 2 16384 (Some 4)]>
    (<[2 := mpd_alone 2 SPD_COMPOSITE 3 20480 None]> (k_mpds k_zero))).
Definition life_demo : kstate :=
  set_k_mpds life_mpds (set_k_mpd_free (Some 0) (set_k_pool_head life_page
    (set_k_pool_len 1 (set_k_kern_pgtbl 12288 (set_k_mem
      {[ 4096%Z := pgd0; 12288%Z := pgd0.[256 := 7%Z]; 20480%Z := pgd0 ]} k_zero))))).

Lemma life_pool : pool_ok life_demo [life_page].
Proof.
  split; [|by apply (bool_decide_unpack _)|done].
  split_and!; [done|done|]. by exists pgd0, 0%Z.
Qed.

Lemma life_avail : pgtbl_avail life_demo life_page [].
Proof.
  split; [apply life_pool|cbn; lia|done|done| |].
  - intros pg Hpg. vm_compute in Hpg. by simplify_eq.
  - by exists (pgd0.[256 := 7%Z]), 7%Z.
Qed.

Lemma alloc_depricate_roundtrip_witness :
  ∃ s1 s2, spd_alloc_mpd_desc life_demo = Done 0%Z s1 ∧
    k_mpds s1 !! 0 = Some (mpd_fresh 0 4096) ∧
    k_mpd_free s1 = Some 3 ∧ pool_ok s1 [] ∧
    spd_mpd_depricate 0 s1 = Done tt s2 ∧
    k_mpds s2 = k_mpds life_demo ∧ k_mpd_free s2 = Some 0 ∧ pool_ok s2 [life_page].
Proof.
  apply (alloc_depricate_roundtrip life_demo 0 (Some 3) life_page []);
    [done|done|unfold MAX_MPD_DESC; lia|apply life_avail|done].
Defined.

Definition sub_demo : kstate :=
  set_k_mpds (sub_pair 1 2 SPD_COMPOSITE 2 16384 (Some 4) SPD_COMPOSITE 1 life_mpds) life_demo.

Lemma subordinate_release_returns_witness :
  spd_mpd_release (PolyMpd 2) sub_demo = Done tt (set_k_mpds
    (<[1 := mpd_alone 1 SPD_COMPOSITE 2 16384 (Some 4)]>
      (<[2 := set_m_info (MkPoly FREE_COMPOSITE 0 16384) (mpd_free_desc (Some 0))]> life_mpds))
    (set_k_mpd_free (Some 2) sub_demo)).
Proof.
  apply (subordinate_release_returns sub_demo 1 2 SPD_COMPOSITE 2 16384 (Some 4)
    SPD_COMPOSITE life_mpds); [done|vm_compute; lia|vm_compute; lia|lia|done].
Defined.

Lemma freed_descriptor_jams_witness :
  let s := set_k_spds (<[0 := demo_spd]> (k_spds k_zero)) k_zero in
  ∃ s1 s2, spd_free 0 s = Done tt s1 ∧ k_spd_free s1 = Some 0 ∧
    spd_alloc 4 0 0 0 s1 = Done None s2 ∧ k_spd_free s2 = Some 0 ∧
    k_spds s2 = k_spds s1 ∧ k_caps s2 = k_caps s1.
Proof. intros s. by apply (freed_descriptor_jams s 0 demo_spd 4 0 0 0). Defined.
