(* ===== verification/Thread.v ===== *)
(** * Threads (src/kernel/thread.c, include/thread.h)

    A thread carries the stack of its invocations through components: frame
    [k] names the component (and the protection domain it was in) that was
    entered by invocation [k], and the address in frame [k - 1]'s component to
    return to.  This file has the operations on that stack, the checks whether
    a component is on it, the allocation and release of threads and of the page
    each has to pass data in ([shared_region_page] maps those pages), and the
    rollback of a preempted atomic section.

    A [struct thd_invocation_frame *] is the index of the frame in its
    thread's stack.  A local variable that is read without having been
    assigned is an argument of the function. *)

From stdpp Require Import base list numbers option gmap.
From S2P Require Import Prelude Kern PageMem Mpd.

(** ** Frames *)

Definition get_frame (t : nat) (i : Z) : K thd_invocation_frame :=
  x ← get_thd t; bound ((t_stack x).[i]).
Definition put_frame (t : nat) (i : Z) (f : thd_invocation_frame) : K unit :=
  x ← get_thd t; _ ← bound ((t_stack x).[i]);
  put_thd t (set_t_stack ((t_stack x).[i := f]) x).

Definition thd_invocation_push (curr_thd curr_spd : nat) (sp ip : Z) : K unit :=
  upd_thd curr_thd (λ t, set_t_stack_ptr (s16 (t_stack_ptr t + 1)) t);;
  t ← get_thd curr_thd;
  x ← get_spd curr_spd;
  put_frame curr_thd (t_stack_ptr t)
    (MkFrame (Some (s_composite_spd x)) (Some curr_spd) sp ip).

Definition thd_invocation_pop (curr_thd : nat) : K (option Z) :=
  t ← get_thd curr_thd;
  if (t_stack_ptr t <=? 0)%Z then mret None else
  upd_thd curr_thd (set_t_stack_ptr (s16 (t_stack_ptr t - 1)));;
  mret (Some (t_stack_ptr t)).

Definition thd_invstk_top (curr_thd : nat) : K (option Z) :=
  t ← get_thd curr_thd;
  mret (if (t_stack_ptr t <? 0)%Z then None else Some (t_stack_ptr t)).

Definition thd_invstk_nth (thd : nat) (nth : Z) : K (option Z) :=
  t ← get_thd thd;
  let idx := s32 (t_stack_ptr t - nth) in
  mret (if (idx <? 0)%Z then None else Some idx).

Definition thd_invstk_move_nth (thd : nat) (nth : Z) (rem : bool) : K unit :=
  assert (negb (nth =? 0)%Z);;
  t ← get_thd thd;
  assert (nth <? t_stack_ptr t)%Z;;
  keep ← get_frame thd (nth + 1);
  old ← get_frame thd nth;
  put_frame thd nth
    (if rem then set_f_cspd (f_cspd keep) (set_f_spd (f_spd keep) old) else keep).

Definition thd_invstk_rem_nth (thd : nat) (nth : Z) : K Z :=
  t ← get_thd thd;
  let idx := (t_stack_ptr t - nth)%Z in
  if (nth <? 0)%Z || (t_stack_ptr t <=? nth)%Z then mret (-1)%Z else
  f ← get_frame thd idx;
  cspd ← deref (f_cspd f);
  spd_mpd_ipc_release cspd;;
  for_range idx (t_stack_ptr t) (λ i, thd_invstk_move_nth thd i (i =? idx)%Z);;
  upd_thd thd (λ t, set_t_stack_ptr (s16 (t_stack_ptr t - 1)) t);;
  mret 0%Z.

(** ** The current thread *)

Definition thd_get_current : K (option nat) := gets k_current.
Definition thd_set_current (thd : nat) : K unit := modify (set_k_current (Some thd)).

Definition thd_curr_spd_thd (t : option nat) : K (option nat) :=
  match t with
  | None => mret None
  | Some t =>
      x ← get_thd t;
      let stkptr := u32 (t_stack_ptr x) in
      if (Z.of_nat MAX_SERVICE_DEPTH <=? stkptr)%Z then mret None else
      f ← get_frame t stkptr;
      mret (f_spd f)
  end.

Definition thd_curr_spd_noprint : K (option nat) :=
  t ← thd_get_current; thd_curr_spd_thd t.

(** ** Registers of a frame

    The instruction and stack pointer at which frame [off] goes on are in the
    frame above it, or in the saved registers for the topmost frame. *)

Definition thd_get_frame_reg (top_reg : pt_regs → Z) (reg : thd_invocation_frame → Z)
    (thd : nat) (frame_offset : Z) : K Z :=
  t ← get_thd thd;
  if (t_stack_ptr t <? frame_offset)%Z || (frame_offset <? 0)%Z then mret 0%Z else
  let off := (t_stack_ptr t - frame_offset)%Z in
  if (off =? t_stack_ptr t)%Z then
    mret (if has (t_flags t) THD_STATE_PREEMPTED then top_reg (t_regs t) else 0%Z)
  else
    tif ← get_frame thd (off + 1);
    mret (reg tif).

Definition thd_set_frame_reg (err : Z) (top_reg : pt_regs → pt_regs)
    (reg : thd_invocation_frame → thd_invocation_frame)
    (thd : nat) (frame_offset : Z) : K Z :=
  t ← get_thd thd;
  if (t_stack_ptr t <? frame_offset)%Z || (frame_offset <? 0)%Z then mret err else
  let off := (t_stack_ptr t - frame_offset)%Z in
  (if (off =? t_stack_ptr t)%Z then
     when (has (t_flags t) THD_STATE_PREEMPTED)
       (upd_thd thd (λ t, set_t_regs (top_reg (t_regs t)) t))
   else
     tif ← get_frame thd (off + 1);
     put_frame thd (off + 1) (reg tif));;
  mret 0%Z.

Definition thd_get_frame_ip : nat → Z → K Z := thd_get_frame_reg r_ip f_ip.
Definition thd_set_frame_ip (thd : nat) (frame_offset new_ip : Z) : K Z :=
  thd_set_frame_reg (u32 (-1)) (set_r_ip new_ip) (set_f_ip new_ip) thd frame_offset.
Definition thd_get_frame_sp : nat → Z → K Z := thd_get_frame_reg r_sp f_sp.
Definition thd_set_frame_sp (thd : nat) (frame_offset new_sp : Z) : K Z :=
  thd_set_frame_reg 1 (set_r_sp new_sp) (set_f_sp new_sp) thd frame_offset.

Definition thd_get_ip (t : nat) : K Z :=
  x ← get_thd t; thd_get_frame_ip t (t_stack_ptr x).
Definition thd_get_sp (t : nat) : K Z :=
  x ← get_thd t; thd_get_frame_sp t (t_stack_ptr x).

(** [spd] is the local of that name, which nothing assigns. *)
Definition thd_get_thd_spd (spd : option nat) (thd : nat) : K (option nat) :=
  match spd with
  | Some _ => mret spd
  | None =>
      i ← thd_invstk_top thd;
      i ← deref i;
      f ← get_frame thd i;
      mret (f_spd f)
  end.

Definition thd_get_thd_spdpoly (thd : nat) : K (option polyp) :=
  i ← thd_invstk_top thd;
  i ← deref i;
  f ← get_frame thd i;
  mret (f_cspd f).

Definition thd_get_current_spdpoly : K (option polyp) :=
  thd ← thd_get_current;
  match thd with
  | None => mret None
  | Some thd => thd_get_thd_spdpoly thd
  end.

Definition thd_get_by_id (id : Z) : option nat :=
  let adjusted := s32 (id - 1) in
  if (Z.of_nat MAX_NUM_THREADS <=? adjusted)%Z || (adjusted <? 0)%Z then None
  else Some (Z.to_nat adjusted).

(** ** Schedulers of a thread *)

Definition get_evt (p : Z * Z) : K cos_sched_events :=
  m ← gets k_sdas; da ← bound (m !! p.1); bound ((sd_events da).[p.2]).
Definition put_evt (p : Z * Z) (e : cos_sched_events) : K unit :=
  m ← gets k_sdas; da ← bound (m !! p.1); _ ← bound ((sd_events da).[p.2]);
  modify (λ s, set_k_sdas
    (<[p.1 := set_sd_events ((sd_events da).[p.2 := e]) da]> (k_sdas s)) s).

(** The depth is an [unsigned short int]. *)
Definition thd_get_sched_info (thd : nat) (depth : Z) : K thd_sched_info :=
  let depth := u16 depth in
  assert (depth <? Z.of_nat MAX_SCHED_HIER_DEPTH)%Z;;
  t ← get_thd thd;
  bound ((t_sched_info t).[depth]).
Definition put_sched_info (thd : nat) (depth : Z) (i : thd_sched_info) : K unit :=
  upd_thd thd (λ t, set_t_sched_info ((t_sched_info t).[u16 depth := i]) t).

Definition thd_get_depth_urg (t : nat) (depth : Z) : K Z :=
  tsi ← thd_get_sched_info t depth;
  assert (bool_decide (ti_scheduler tsi ≠ None));;
  assert (bool_decide (ti_notifications tsi ≠ None));;
  p ← deref (ti_notifications tsi);
  e ← get_evt p;
  mret (ev_urgency e).

Definition thd_get_depth_sched (t : nat) (d : Z) : K (option nat) :=
  tsi ← thd_get_sched_info t d; mret (ti_scheduler tsi).

Definition thd_scheduled_by (thd spd : nat) : K bool :=
  x ← get_spd spd;
  tsi ← thd_get_sched_info thd (s_sched_depth x);
  mret (bool_decide (ti_scheduler tsi = Some spd)).

Definition thd_get_id (thd : nat) : K Z := t ← get_thd thd; mret (t_thread_id t).

(** ** Is a component part of where the thread executes? *)

Definition spd_composite_member (spd : nat) (poly : option polyp) : K bool :=
  a ← lowest_addr spd;
  p ← deref poly;
  i ← get_poly p;
  absent ← pgtbl_entry_absent (p_pg_tbl i) a;
  mret (negb absent).

Definition thd_spd_in_composite (comp : option polyp) (spd : nat) : K bool :=
  x ← get_spd spd;
  if decide (Some (s_composite_spd x) = comp) then mret true
  else spd_composite_member spd comp.

Definition thd_spd_in_current_composite (thd spd : nat) : K bool :=
  composite ← thd_get_thd_spdpoly thd; thd_spd_in_composite composite spd.

(** [spd_id] is an [unsigned short int]. *)
Definition thd_validate_get_current_spd (thd : nat) (spd_id : Z) : K (option nat) :=
  spd ← spd_get_by_index (u16 spd_id);
  match spd with
  | None => mret None
  | Some i =>
      b ← thd_spd_in_current_composite thd i;
      mret (if (b : bool) then Some i else None)
  end.

(** The loop of [thd_validate_spd_in_callpath], over the frames [n - 1]..[0]. *)
Fixpoint callpath_loop (t s : nat) (sp : Z) (n : nat) : K Z :=
  match n with
  | O => mret (-1)%Z
  | S n' =>
      f ← get_frame t (Z.of_nat n');
      assert (bool_decide (f_cspd f ≠ None));;
      b ← thd_spd_in_composite (f_cspd f) s;
      if (b : bool) then mret (sp - Z.of_nat n')%Z else callpath_loop t s sp n'
  end.

Definition thd_validate_spd_in_callpath (t s : nat) : K Z :=
  x ← get_thd t;
  assert (0 <=? t_stack_ptr x)%Z;;
  callpath_loop t s (t_stack_ptr x) (Z.to_nat (t_stack_ptr x + 1)).

Definition thd_save_preempted_state (thd : nat) (regs : pt_regs) : K unit :=
  upd_thd thd (set_t_regs regs).

(** ** The pages for passing data *)

Definition get_region_pte (id : Z) : K Z :=
  l ← gets k_shared_region; bound (l.[id]).
Definition put_region_pte (id w : Z) : K unit :=
  _ ← get_region_pte id;
  modify (λ s, set_k_shared_region ((k_shared_region s).[id := w]) s).

Definition thd_publish_data_page (thd : nat) (page : Z) : K unit :=
  id ← thd_get_id thd;
  put_region_pte id (Z.lor (va_to_pa page) PG_USER_RW).

Definition switch_thread_data_page (old_thd new_thd : Z) : K unit :=
  assert (negb (0 =? old_thd)%Z && negb (0 =? new_thd)%Z);;
  w ← get_region_pte old_thd;
  put_region_pte old_thd (bclr w PG_PRESENT);;
  w ← get_region_pte new_thd;
  put_region_pte new_thd (bset w PG_PRESENT).

(** ** Allocation and release *)

Definition thd_init_all : K unit :=
  for_range 0 (Z.of_nat MAX_NUM_THREADS) (λ i,
    upd_thd (Z.to_nat i) (set_t_thread_id (u16 (i + 1)));;
    upd_thd (Z.to_nat i) (set_t_freelist_next
      (if (i =? Z.of_nat MAX_NUM_THREADS - 1)%Z then None
       else Some (S (Z.to_nat i)))));;
  modify (set_k_thd_free (Some 0)).

Definition thd_init : K unit :=
  thd_init_all;; modify (set_k_current None).

(** A failed allocation of the page is reported but not handled: writing to
    the page is the fault. *)
Definition thd_alloc (spd : nat) : K (option nat) :=
  head ← gets k_thd_free;
  match head with
  | None => mret None
  | Some thd =>
      page ← cos_get_pg_pool;
      t ← get_thd thd;
      modify (set_k_thd_free (t_freelist_next t));;
      let id := t_thread_id t in
      put_thd thd thd0;;
      upd_thd thd (set_t_thread_id id);;
      upd_thd thd (set_t_data_region page);;
      (if (page =? 0)%Z then fail NullDeref else put_word (va_to_pa page) 0 4);;
      upd_thd thd (set_t_ul_data_page (u32 (COS_INFO_REGION_ADDR + PAGE_SIZE * id)));;
      thd_publish_data_page thd page;;
      upd_thd thd (set_t_stack_ptr (-1));;
      thd_invocation_push thd spd 0 0;;
      upd_thd thd (set_t_flags 0);;
      upd_thd thd (λ t, set_t_pending 0 (set_t_thread_brand None t));;
      upd_thd thd (set_t_freelist_next None);;
      mret (Some thd)
  end.

(** The [while] of [thd_free]; a stack has at most [MAX_SERVICE_DEPTH] frames. *)
Fixpoint thd_unwind (fuel : nat) (thd : nat) : K unit :=
  t ← get_thd thd;
  if (t_stack_ptr t <=? 0)%Z then mret tt else
  match fuel with
  | O => fail NoFuel
  | S fuel' =>
      frame ← get_frame thd (t_stack_ptr t);
      cspd ← deref (f_cspd frame);
      spd_mpd_ipc_release cspd;;
      upd_thd thd (λ t, set_t_stack_ptr (s16 (t_stack_ptr t - 1)) t);;
      thd_unwind fuel' thd
  end.

Definition thd_free (thd : option nat) : K unit :=
  match thd with
  | None => mret tt
  | Some thd =>
      thd_unwind MAX_SERVICE_DEPTH thd;;
      t ← get_thd thd;
      when (negb (t_data_region t =? 0)%Z) (cos_put_pg_pool (t_data_region t));;
      head ← gets k_thd_free;
      upd_thd thd (set_t_freelist_next head);;
      modify (set_k_thd_free (Some thd))
  end.

Definition thd_free_all : K unit :=
  for_range 0 (Z.of_nat MAX_NUM_THREADS) (λ i,
    t ← get_thd (Z.to_nat i);
    when (bool_decide (t_freelist_next t = None)) (thd_free (Some (Z.to_nat i)))).

(** ** Atomic sections *)

(** [for (i = 0 ; i < COS_NUM_ATOMIC_SECTIONS/2 ; i += 2)]: the sections that
    start at the indices in [l]. *)
Fixpoint atomic_loop (thd : nat) (sections : list Z) (ip : Z) (l : list Z) : K Z :=
  match l with
  | [] => mret 0%Z
  | i :: l =>
      lo ← bound (sections.[i]);
      hi ← bound (sections.[i + 1]);
      if (lo <? ip)%Z && (ip <? hi)%Z then
        upd_thd thd (λ t, set_t_regs (set_r_ip lo (t_regs t)) t);;
        mret 1%Z
      else atomic_loop thd sections ip l
  end.

(** The host's [host_in_syscall()] and [host_in_idle()] are arguments, as is
    the local [thd_get_thd_spd] does not assign. *)
Definition thd_check_atomic_preempt (in_syscall in_idle : bool) (local : option nat)
    (thd : nat) : K Z :=
  spd ← thd_get_thd_spd local thd;
  ip ← thd_get_ip thd;
  t ← get_thd thd;
  assert (in_syscall || in_idle || has (t_flags t) THD_STATE_PREEMPTED);;
  spd ← deref spd;
  x ← get_spd spd;
  atomic_loop thd (s_atomic_sections x) ip [0; 2; 4]%Z.
