(* ===== verification/ThreadInv.v ===== *)
(** * Correctness of the thread operations

    The invocation stack as a call path: what removing a component from the
    middle of it does, how deep a component is on it, reading and writing the
    registers of a frame; the balance of thread allocation and release; and
    when a preempted atomic section is rolled back. *)

From stdpp Require Import base list numbers option gmap.
From S2P Require Import Prelude Kern PageMem Mpd MpdInv MpdLife Thread.

(** ** What the release of a domain does not touch *)

(** The state outside of components, composites and page tables. *)
Definition cpu_view (s : kstate) :=
  (k_thds s, k_thd_free s, k_current s, (k_cr3 s, k_host_pgd s),
   (k_shared_region s, k_ud_thread s, k_ud_arg s), (k_sdas s, k_caps s, k_ucaps s)).

Lemma cpu_put_spd i x : keeps cpu_view (put_spd i x).
Proof. unfold put_spd. keeps. Qed.
Lemma cpu_put_mpd i x : keeps cpu_view (put_mpd i x).
Proof. unfold put_mpd. keeps. Qed.
#[export] Hint Resolve cpu_put_spd cpu_put_mpd : keeps.
Lemma cpu_upd_spd i f : keeps cpu_view (upd_spd i f).
Proof. unfold upd_spd, get_spd. keeps. Qed.
Lemma cpu_upd_mpd i f : keeps cpu_view (upd_mpd i f).
Proof. unfold upd_mpd, get_mpd. keeps. Qed.
#[export] Hint Resolve cpu_upd_spd cpu_upd_mpd : keeps.
Lemma cpu_upd_poly p f : keeps cpu_view (upd_poly p f).
Proof. unfold upd_poly. keeps. Qed.
Lemma cpu_put_pg_pool p : keeps cpu_view (cos_put_pg_pool p).
Proof. unfold cos_put_pg_pool, set_page_next, put_word, get_page, put_page. keeps. Qed.
#[export] Hint Resolve cpu_upd_poly cpu_put_pg_pool : keeps.
Lemma cpu_mpd_release fuel p : keeps cpu_view (mpd_release fuel p).
Proof.
  revert p. induction fuel as [|fuel IH]; intros p; cbn [mpd_release]; [keeps|].
  unfold get_poly, get_mpd, get_spd, as_mpd, spd_mpd_reset_flags, spd_mpd_set_flags. keeps.
Qed.
Lemma cpu_release p : keeps cpu_view (spd_mpd_ipc_release p).
Proof. apply cpu_mpd_release. Qed.
#[export] Hint Resolve cpu_mpd_release cpu_release : keeps.

(** ** Frames *)

Lemma get_frame_run t i s x f :
  k_thds s !! t = Some x → (t_stack x).[i] = Some f → get_frame t i s = Done f s.
Proof.
  intros Hx Hf. unfold get_frame. rewrite (bind_run _ _ _ _ _ (get_thd_run _ _ _ Hx)).
  by apply bound_Done.
Qed.

Lemma put_frame_run t i s x f g :
  k_thds s !! t = Some x → (t_stack x).[i] = Some f →
  put_frame t i g s =
  Done tt (set_k_thds (<[t := set_t_stack ((t_stack x).[i := g]) x]> (k_thds s)) s).
Proof.
  intros Hx Hf. unfold put_frame. rewrite (bind_run _ _ _ _ _ (get_thd_run _ _ _ Hx)).
  erewrite bind_run by (by apply bound_Done). done.
Qed.

(** The frames in use. *)
Definition frames (t : thread) : list thd_invocation_frame :=
  take (Z.to_nat (t_stack_ptr t + 1)) (t_stack t).
(** The components the thread went through, outermost first, and where to go
    on in them: entry [k] of [returns] is for component [k - 1]. *)
Definition callpath (t : thread) : list (option polyp * option nat) :=
  (λ f, (f_cspd f, f_spd f)) <$> frames t.
Definition returns (t : thread) : list (Z * Z) := (λ f, (f_sp f, f_ip f)) <$> frames t.

(** A thread between system calls. *)
Record stack_ok (t : thread) : Prop := {
  so_length : length (t_stack t) = MAX_SERVICE_DEPTH;
  so_ptr : (0 ≤ t_stack_ptr t < Z.of_nat MAX_SERVICE_DEPTH)%Z
}.

Lemma stack_frame t k : stack_ok t → (0 ≤ k < 31)%Z → ∃ f, (t_stack t).[k] = Some f.
Proof. intros [Hl _] Hk. apply zlookup_is_Some. rewrite Hl. done. Qed.

(** Frame [m] after frame [idx] of the stack [l] has been removed: the
    component of its successor, and the return address of the successor except
    that component [idx + 1] now returns to where [idx] would have. *)
Definition moved (l : list thd_invocation_frame) (idx m : Z) : option thd_invocation_frame :=
  keep ← l.[m + 1]; old ← l.[m];
  Some (if (m =? idx)%Z then set_f_cspd (f_cspd keep) (set_f_spd (f_spd keep) old) else keep).

Lemma move_nth_run t s x k keep old rem :
  k_thds s !! t = Some x → (0 < k < t_stack_ptr x)%Z →
  (t_stack x).[k + 1] = Some keep → (t_stack x).[k] = Some old →
  thd_invstk_move_nth t k rem s = Done tt (set_k_thds (<[t := set_t_stack ((t_stack x).[k :=
    if rem then set_f_cspd (f_cspd keep) (set_f_spd (f_spd keep) old) else keep]) x]> (k_thds s)) s).
Proof.
  intros Hx Hk Hkeep Hold. unfold thd_invstk_move_nth.
  destruct (Z.eqb_spec k 0); [lia|]. erewrite bind_run by reflexivity.
  rewrite (bind_run _ _ _ _ _ (get_thd_run _ _ _ Hx)).
  destruct (Z.ltb_spec k (t_stack_ptr x)); [|lia]. erewrite bind_run by reflexivity.
  rewrite (bind_run _ _ _ _ _ (get_frame_run _ _ _ _ _ Hx Hkeep)).
  rewrite (bind_run _ _ _ _ _ (get_frame_run _ _ _ _ _ Hx Hold)).
  by erewrite put_frame_run.
Qed.

Lemma rem_loop_run t s x idx :
  k_thds s !! t = Some x → stack_ok x → (0 < idx ≤ t_stack_ptr x)%Z →
  wp (for_range idx (t_stack_ptr x) (λ i, thd_invstk_move_nth t i (i =? idx)%Z))
    (λ _ s', ∃ l, s' = set_k_thds (<[t := set_t_stack l x]> (k_thds s)) s ∧
       length l = MAX_SERVICE_DEPTH ∧
       ∀ m, l.[m] = if (idx <=? m)%Z && (m <? t_stack_ptr x)%Z then moved (t_stack x) idx m
                    else (t_stack x).[m]) s.
Proof.
  intros Hx Hok Hidx. pose proof Hok as [Hl Hsp]. eapply wp_mono.
  - apply (for_range_wp (λ k s', ∃ l, s' = set_k_thds (<[t := set_t_stack l x]> (k_thds s)) s ∧
       length l = MAX_SERVICE_DEPTH ∧
       ∀ m, l.[m] = if (idx <=? m)%Z && (m <? k)%Z then moved (t_stack x) idx m
                    else (t_stack x).[m])); [lia| |].
    + exists (t_stack x). split_and!; [|done|].
      * replace (set_t_stack (t_stack x) x) with x by by destruct x.
        rewrite list_insert_id by done. by destruct s.
      * intros m. destruct (Z.leb_spec idx m), (Z.ltb_spec m idx); (done || lia).
    + intros k s' Hk (l & -> & Hll & Hm). set (x' := set_t_stack l x).
      destruct (stack_frame x (k + 1) Hok) as [keep Hkeep]; [change MAX_SERVICE_DEPTH with 31 in *; lia|].
      destruct (stack_frame x k Hok) as [old Hold]; [change MAX_SERVICE_DEPTH with 31 in *; lia|].
      assert (t < length (k_thds s)) as Ht by by eapply lookup_lt_Some.
      unfold wp. erewrite (move_nth_run t _ x' k keep old); cbn.
      * eexists. split_and!.
        -- rewrite list_insert_insert_eq. reflexivity.
        -- by rewrite length_zinsert.
        -- intros m. erewrite zlookup_zinsert by (rewrite Hm; destruct (Z.leb_spec idx k), (Z.ltb_spec k k);
             [lia|done|lia|done]).
           case_decide as Hd; [subst m|].
           ++ destruct (Z.leb_spec idx k), (Z.ltb_spec k (k + 1)); try lia. cbn.
              unfold moved. by rewrite Hkeep, Hold.
           ++ rewrite Hm. destruct (Z.leb_spec idx m), (Z.ltb_spec m k), (Z.ltb_spec m (k + 1)); (done || lia).
      * by apply list_lookup_insert_eq.
      * lia.
      * rewrite Hm. destruct (Z.leb_spec idx (k + 1)), (Z.ltb_spec (k + 1) k); (done || lia).
      * rewrite Hm. destruct (Z.leb_spec idx k), (Z.ltb_spec k k); (done || lia).
  - done.
Qed.

Lemma frames_lookup (y : thread) (k : nat) :
  stack_ok y → frames y !! k = if decide (Z.of_nat k ≤ t_stack_ptr y)%Z
                              then (t_stack y).[Z.of_nat k] else None.
Proof.
  intros [Hl Hp]. unfold frames, zlookup. destruct (Z.ltb_spec (Z.of_nat k) 0); [lia|].
  rewrite Nat2Z.id. case_decide; [apply lookup_take_lt; lia|apply lookup_take_ge; lia].
Qed.

(** The stack [l] of [x] after its frame [idx] has been removed. *)
Section Spliced.
Context (x : thread) (l : list thd_invocation_frame) (idx : nat).
Context (Hok : stack_ok x) (Hidx : (0 < Z.of_nat idx ≤ t_stack_ptr x)%Z).
Context (Hll : length l = MAX_SERVICE_DEPTH).
Context (Hm : ∀ m, l.[m] = if (Z.of_nat idx <=? m)%Z && (m <? t_stack_ptr x)%Z
                         then moved (t_stack x) (Z.of_nat idx) m else (t_stack x).[m]).
Let x' := set_t_stack_ptr (t_stack_ptr x - 1) (set_t_stack l x).

Lemma spliced_ok : stack_ok x'.
Proof. destruct Hok. split; cbn; [done|lia]. Qed.

Lemma spliced_map {A} (g : thd_invocation_frame → A) (d : nat) :
  (d = idx ∨ d = S idx) → (Z.of_nat d ≤ t_stack_ptr x)%Z →
  ((Z.of_nat idx < t_stack_ptr x)%Z → ∀ keep old, g (set_f_cspd (f_cspd keep) (set_f_spd (f_spd keep) old)) =
     g (if decide (d = idx) then keep else old)) →
  g <$> frames x' = delete d (g <$> frames x).
Proof.
  intros Hd Hdn Hg. apply list_eq. intros k. pose proof Hok as [Hl Hp].
  rewrite list_lookup_fmap, (frames_lookup x' k spliced_ok). cbn [x' t_stack_ptr t_stack set_t_stack_ptr set_t_stack].
  destruct (decide (k < d)) as [Hlt|Hge].
  - rewrite list_lookup_delete_lt, list_lookup_fmap, (frames_lookup x k Hok) by lia.
    rewrite !decide_True by lia. rewrite Hm.
    destruct (Z.leb_spec (Z.of_nat idx) (Z.of_nat k)) as [Hle|]; [|done].
    assert (k = idx ∧ d = S idx) as [-> ->] by lia.
    destruct (Z.ltb_spec (Z.of_nat idx) (t_stack_ptr x)); [|lia]. cbn [andb].
    destruct (stack_frame x (Z.of_nat idx) Hok) as [old Ho]; [change MAX_SERVICE_DEPTH with 31 in *; lia|].
    destruct (stack_frame x (Z.of_nat idx + 1) Hok) as [keep Hk]; [change MAX_SERVICE_DEPTH with 31 in *; lia|].
    unfold moved. rewrite Hk, Ho. cbn. rewrite Z.eqb_refl, Hg by done.
    by destruct (decide (S idx = idx)); [lia|].
  - rewrite list_lookup_delete_ge, list_lookup_fmap, (frames_lookup x (S k) Hok) by lia.
    destruct (decide (Z.of_nat k ≤ t_stack_ptr x - 1)%Z) as [Hk|Hk];
      [rewrite decide_True by lia|by rewrite decide_False by lia].
    rewrite Hm. destruct (Z.leb_spec (Z.of_nat idx) (Z.of_nat k)); [|lia].
    destruct (Z.ltb_spec (Z.of_nat k) (t_stack_ptr x)); [|lia]. cbn [andb].
    destruct (stack_frame x (Z.of_nat k) Hok) as [old Ho]; [change MAX_SERVICE_DEPTH with 31 in *; lia|].
    destruct (stack_frame x (Z.of_nat (S k)) Hok) as [keep Hke]; [change MAX_SERVICE_DEPTH with 31 in *; lia|].
    unfold moved. replace (Z.of_nat k + 1)%Z with (Z.of_nat (S k)) by lia. rewrite Hke, Ho. cbn.
    destruct (Z.eqb_spec (Z.of_nat k) (Z.of_nat idx)) as [He|]; [|done].
    rewrite Hg by lia. destruct (decide (d = idx)); [done|lia].
Qed.
End Spliced.

(** Removing the [nth] component from a thread's invocation stack takes
    exactly it out of the call path, releases the domain it was in, and takes
    out its own return address: its caller's frame is returned to by the
    component above it.  When the topmost component is removed, what is
    taken out is the address it would have returned to. *)
Theorem rem_nth_splices s t x nth f c s1 :
  k_thds s !! t = Some x → stack_ok x → (0 ≤ nth < t_stack_ptr x)%Z →
  (t_stack x).[t_stack_ptr x - nth] = Some f → f_cspd f = Some c →
  spd_mpd_ipc_release c s = Done tt s1 →
  let idx := Z.to_nat (t_stack_ptr x - nth) in
  ∃ x', thd_invstk_rem_nth t nth s = Done 0%Z (set_k_thds (<[t := x']> (k_thds s)) s1) ∧
    stack_ok x' ∧ callpath x' = delete idx (callpath x) ∧
    returns x' = delete (Nat.min (S idx) (Z.to_nat (t_stack_ptr x))) (returns x).
Proof.
  intros Hx Hok Hn Hf Hc Hr idx. pose proof (cpu_release c _ _ _ Hr) as Hv.
  assert (k_thds s1 = k_thds s) as Ht by by injection Hv.
  unfold thd_invstk_rem_nth. rewrite (bind_run _ _ _ _ _ (get_thd_run _ _ _ Hx)).
  destruct (Z.ltb_spec nth 0); [lia|]. destruct (Z.leb_spec (t_stack_ptr x) nth); [lia|]. cbn [orb].
  rewrite (bind_run _ _ _ _ _ (get_frame_run _ _ _ _ _ Hx Hf)), Hc.
  erewrite bind_run by reflexivity. rewrite (bind_run _ _ _ _ _ Hr).
  replace (t_stack_ptr x - nth)%Z with (Z.of_nat idx) by (subst idx; lia).
  assert (k_thds s1 !! t = Some x) as Hx1 by by rewrite Ht.
  destruct (proj1 (wp_Done _ _ _) (rem_loop_run t s1 x (Z.of_nat idx) Hx1 Hok ltac:(lia)))
    as ([] & s2 & Hl & l & -> & Hll & Hm).
  rewrite (bind_run _ _ _ _ _ Hl). pose proof Hok as [_ Hp]. change MAX_SERVICE_DEPTH with 31 in Hp.
  assert (t < length (k_thds s1)) as Hlt by by eapply lookup_lt_Some.
  erewrite bind_run by (eapply upd_thd_run; cbn; by apply list_lookup_insert_eq).
  cbn. rewrite s16_id by lia. rewrite list_insert_insert_eq, Ht.
  eexists. split; [reflexivity|]. split; [eapply (spliced_ok x l idx); eauto; lia|].
  split.
  - eapply (spliced_map x l idx) with (d := idx); eauto; try lia. intros. by rewrite decide_True.
  - eapply (spliced_map x l idx) with (d := Nat.min (S idx) (Z.to_nat (t_stack_ptr x))); eauto; try lia.
    intros. by rewrite decide_False by lia.
Qed.

(** ** Being on the call path *)

(** What a [struct spd_poly *] points to. *)
Definition poly_of (s : kstate) (p : polyp) : option spd_poly :=
  match p with
  | PolySpd i => s_info <$> k_spds s !! i
  | PolyMpd j => m_info <$> k_mpds s !! j
  end.

Lemma get_poly_run s p i : poly_of s p = Some i → get_poly p s = Done i s.
Proof.
  destruct p as [k|k]; cbn; intros (x & Hx & ->)%fmap_Some.
  - by rewrite (bind_run _ _ _ _ _ (get_spd_run _ _ _ Hx)).
  - by rewrite (bind_run _ _ _ _ _ (get_mpd_run _ _ _ Hx)).
Qed.

(** The page directory [pt] has an entry for [addr]. *)
Definition entry_present (s : kstate) (pt addr : Z) : bool :=
  match p ← k_mem s !! pt; p.[pgd_index addr] with
  | Some w => has w PG_PRESENT
  | None => false
  end.

(** Component [x] is part of the domain [c]: it is its current domain, or (for
    an older domain) it is mapped there. *)
Definition resides (s : kstate) (c : polyp) (x : spd) : bool :=
  bool_decide (s_composite_spd x = c) ||
  match poly_of s c, (s_location x).[0] with
  | Some i, Some l => entry_present s (p_pg_tbl i) (l_lowest_addr l)
  | _, _ => false
  end.

(** Domain [c] exists and has a page directory. *)
Definition domain_mapped (s : kstate) (c : polyp) : Prop :=
  ∃ i p, poly_of s c = Some i ∧ k_mem s !! p_pg_tbl i = Some p ∧ length p = PGD_PER_PTBL.

Lemma in_composite_run s c i x :
  k_spds s !! i = Some x → length (s_location x) = MAX_SPD_VAS_LOCATIONS →
  domain_mapped s c → thd_spd_in_composite (Some c) i s = Done (resides s c x) s.
Proof.
  intros Hx Hl (p & pg & Hp & Hpg & Hlen). unfold thd_spd_in_composite, resides.
  rewrite (bind_run _ _ _ _ _ (get_spd_run _ _ _ Hx)).
  case_decide as Hd; [injection Hd as ->; by rewrite bool_decide_true|].
  rewrite bool_decide_false by congruence. cbn [orb].
  destruct (zlookup_is_Some (s_location x) 0) as [l Hl0]; [by rewrite Hl|].
  destruct (zlookup_is_Some pg (pgd_index (l_lowest_addr l))) as [w Hw];
    [rewrite Hlen; apply pgd_index_range|].
  unfold spd_composite_member, lowest_addr. rewrite Hp, Hl0.
  erewrite bind_run by (rewrite (bind_run _ _ _ _ _ (get_spd_run _ _ _ Hx)), Hl0; reflexivity).
  erewrite bind_run by reflexivity. rewrite (bind_run _ _ _ _ _ (get_poly_run _ _ _ Hp)).
  unfold pgtbl_entry_absent. erewrite bind_run by
    (rewrite (bind_run _ _ _ _ _ (get_word_run _ _ _ _ _ Hpg Hw)); reflexivity).
  unfold entry_present. rewrite Hpg. cbn. rewrite Hw. by rewrite negb_involutive.
Qed.

(** Every frame in use names a domain that exists. *)
Definition path_ok (s : kstate) (t : thread) : Prop :=
  ∀ k f, frames t !! k = Some f → ∃ c, f_cspd f = Some c ∧ domain_mapped s c.

(** Frame [f]'s domain contains component [x]. *)
Definition frame_has (s : kstate) (x : spd) (f : thd_invocation_frame) : bool :=
  match f_cspd f with Some c => resides s c x | None => false end.

Lemma callpath_loop_run s t th i x n :
  k_thds s !! t = Some th → stack_ok th → path_ok s th →
  k_spds s !! i = Some x → length (s_location x) = MAX_SPD_VAS_LOCATIONS →
  (Z.of_nat n ≤ t_stack_ptr th + 1)%Z →
  (callpath_loop t i (t_stack_ptr th) n s = Done (-1)%Z s ∧
     ∀ k f, k < n → frames th !! k = Some f → frame_has s x f = false) ∨
  ∃ k f, callpath_loop t i (t_stack_ptr th) n s = Done (t_stack_ptr th - Z.of_nat k)%Z s ∧
    k < n ∧ frames th !! k = Some f ∧ frame_has s x f = true ∧
    ∀ k' f', k < k' < n → frames th !! k' = Some f' → frame_has s x f' = false.
Proof.
  intros Hth Hok Hpath Hx Hl. induction n as [|n IH]; intros Hn; cbn [callpath_loop].
  - left. split; [done|]. lia.
  - pose proof Hok as [_ Hp]. change MAX_SERVICE_DEPTH with 31 in Hp.
    destruct (stack_frame th (Z.of_nat n) Hok ltac:(lia)) as [f Hf].
    assert (frames th !! n = Some f) as Hfn by (rewrite frames_lookup, decide_True by (done || lia); done).
    destruct (Hpath _ _ Hfn) as (c & Hc & Hd).
    rewrite (bind_run _ _ _ _ _ (get_frame_run _ _ _ _ _ Hth Hf)), Hc.
    erewrite bind_run by reflexivity.
    rewrite (bind_run _ _ _ _ _ (in_composite_run _ _ _ _ Hx Hl Hd)).
    assert (frame_has s x f = resides s c x) as Hfh by by unfold frame_has; rewrite Hc.
    destruct (resides s c x) eqn:Hres.
    + right. exists n, f. split_and!; try (done || lia).
    + destruct (IH ltac:(lia)) as [[Hr Hno]|(k & g & Hr & Hk & Hg & Hh & Hno)].
      * left. split; [done|]. intros k g Hk Hg. destruct (decide (k = n)) as [->|]; [congruence|].
        eapply Hno; [|done]. lia.
      * right. exists k, g. split_and!; try (done || lia). intros k' g' Hk' Hg'.
        destruct (decide (k' = n)) as [->|]; [congruence|]. eapply Hno; [|done]. lia.
Qed.

(** C24. [thd_validate_spd_in_callpath] returns, without changing anything, how
    many invocations ago the thread was last in a domain that contains the
    component, and -1 exactly when it is in none on its call path. *)
Theorem callpath_depth s t th i x :
  k_thds s !! t = Some th → stack_ok th → path_ok s th →
  k_spds s !! i = Some x → length (s_location x) = MAX_SPD_VAS_LOCATIONS →
  ∃ d, thd_validate_spd_in_callpath t i s = Done d s ∧
    (d = (-1)%Z ∧ (∀ k f, frames th !! k = Some f → frame_has s x f = false) ∨
     ∃ k f, d = (t_stack_ptr th - Z.of_nat k)%Z ∧ frames th !! k = Some f ∧
       frame_has s x f = true ∧
       ∀ k' f', k < k' → frames th !! k' = Some f' → frame_has s x f' = false).
Proof.
  intros Hth Hok Hpath Hx Hl. pose proof Hok as [_ Hp]. unfold thd_validate_spd_in_callpath.
  rewrite (bind_run _ _ _ _ _ (get_thd_run _ _ _ Hth)).
  destruct (Z.leb_spec 0 (t_stack_ptr th)); [|lia]. erewrite bind_run by reflexivity.
  assert (∀ k f, frames th !! k = Some f → k < Z.to_nat (t_stack_ptr th + 1)) as Hlt.
  { intros k f Hf. rewrite frames_lookup in Hf by done. case_decide; [lia|done]. }
  destruct (callpath_loop_run s t th i x (Z.to_nat (t_stack_ptr th + 1)) Hth Hok Hpath Hx Hl ltac:(lia))
    as [[Hr Hno]|(k & f & Hr & Hk & Hf & Hh & Hno)].
  - exists (-1)%Z. split; [done|]. left. split; [done|]. eauto.
  - eexists. split; [done|]. right. exists k, f. split_and!; eauto.
Qed.

(** ** Allocation and release of threads *)

Lemma upd_thd_ins {B} t f s x L (k : unit → K B) :
  t < length L →
  (upd_thd t f ≫= k) (set_k_thds (<[t := x]> L) s) = k tt (set_k_thds (<[t := f x]> L) s).
Proof.
  intros Ht. erewrite bind_run by (apply upd_thd_run; by apply list_lookup_insert_eq).
  cbn. by rewrite list_insert_insert_eq.
Qed.
Lemma get_thd_ins {B} t s x L (k : thread → K B) :
  t < length L →
  (get_thd t ≫= k) (set_k_thds (<[t := x]> L) s) = k x (set_k_thds (<[t := x]> L) s).
Proof. intros Ht. by erewrite bind_run by (apply get_thd_run; by apply list_lookup_insert_eq). Qed.

(** A new thread in component [i] = [x], with the data page [page]. *)
Definition thd_fresh (id page : Z) (i : nat) (x : spd) : thread :=
  set_t_thread_id id (set_t_data_region page (set_t_ul_data_page
    (u32 (COS_INFO_REGION_ADDR + PAGE_SIZE * id)) (set_t_stack
      ((t_stack thd0).[0 := MkFrame (Some (s_composite_spd x)) (Some i) 0 0]) thd0))).

Lemma invocation_push_run t i s th x sp ip L :
  k_spds s !! i = Some x → t < length L →
  length (t_stack th) = MAX_SERVICE_DEPTH →
  (-1 ≤ t_stack_ptr th < Z.of_nat MAX_SERVICE_DEPTH - 1)%Z →
  thd_invocation_push t i sp ip (set_k_thds (<[t := th]> L) s) =
  Done tt (set_k_thds (<[t := set_t_stack_ptr (t_stack_ptr th + 1) (set_t_stack
    ((t_stack th).[t_stack_ptr th + 1 := MkFrame (Some (s_composite_spd x)) (Some i) sp ip]) th)]> L) s).
Proof.
  intros Hx Ht Hl Hp. change MAX_SERVICE_DEPTH with 31 in *. unfold thd_invocation_push.
  rewrite upd_thd_ins, get_thd_ins by done. rewrite s16_id by lia. cbn [t_stack_ptr set_t_stack_ptr].
  rewrite (bind_run _ _ _ _ _ (get_spd_run _ (set_k_thds _ s) _ Hx)).
  destruct (zlookup_is_Some (t_stack th) (t_stack_ptr th + 1)) as [f Hf]; [lia|].
  erewrite put_frame_run; [|by apply list_lookup_insert_eq|cbn; exact Hf].
  cbn. by rewrite list_insert_insert_eq.
Qed.

(** [thd_alloc] takes the thread [t] and the page [p]. *)
Record thd_avail (s : kstate) (t : nat) (t0 : thread) (i : nat) (x : spd) (p : Z)
    (l : list Z) : Prop := {
  ta_head : k_thd_free s = Some t;
  ta_thd : k_thds s !! t = Some t0;
  ta_id : (0 ≤ t_thread_id t0 < 1024)%Z;
  ta_region : length (k_shared_region s) = PGD_PER_PTBL;
  ta_spd : k_spds s !! i = Some x;
  ta_pool : pool_ok s (p :: l);
  ta_len : length l < 1023
}.

(** The entry of the thread's data page in the shared region. *)
Definition data_pte (p : Z) : Z := Z.lor (va_to_pa p) PG_USER_RW.

Lemma region_pte_run id s w :
  (k_shared_region s).[id] = Some w → get_region_pte id s = Done w s.
Proof.
  intros Hw. unfold get_region_pte. rewrite (bind_run (gets k_shared_region) _ _ _ _ eq_refl).
  by apply bound_Done.
Qed.
Lemma put_region_pte_run id s w v :
  (k_shared_region s).[id] = Some w →
  put_region_pte id v s = Done tt (set_k_shared_region ((k_shared_region s).[id := v]) s).
Proof. intros Hw. unfold put_region_pte. by rewrite (bind_run _ _ _ _ _ (region_pte_run _ _ _ Hw)). Qed.

Lemma thd_alloc_run s t t0 i x p l :
  thd_avail s t t0 i x p l →
  ∃ s0 pg, thd_alloc i s = Done (Some t) (set_k_thds
      (<[t := thd_fresh (t_thread_id t0) p i x]> (k_thds s)) s0) ∧
    pool_frame (set_k_shared_region ((k_shared_region s).[t_thread_id t0 := data_pte p])
      (set_k_thd_free (t_freelist_next t0) s)) s0 ∧
    pool_ok s0 l ∧ p ≠ 0%Z ∧ (va_to_pa p ∉ (va_to_pa <$> l)) ∧
    k_mem s0 !! va_to_pa p = Some pg ∧ pg.[0] = Some 4%Z.
Proof.
  intros [Hh Ht Hid Hreg Hx Hpo Hlen]. pose proof (lookup_lt_Some _ _ _ Ht) as Htl.
  destruct (cos_get_pg_pool_run s p l Hpo ltac:(lia)) as (pg & Hm & s1 & Hr & Hpo1 & Hm1 & _).
  pose proof (cos_get_pg_pool_frame _ _ _ _ _ Hpo Hr) as (m1 & h1 & n1 & Heq1).
  destruct Hpo as [(_ & Hp & pg' & nx & Hm' & Hw & _) Hnd _].
  assert (pg' = pg) as -> by congruence. clear Hm'.
  apply NoDup_cons in Hnd as [Hni _].
  assert (k_thds s1 = k_thds s) as Hts by by rewrite Heq1.
  unfold thd_alloc. rewrite (bind_run (gets k_thd_free) _ s _ s eq_refl), Hh.
  rewrite (bind_run _ _ _ _ _ Hr).
  rewrite (bind_run _ _ _ _ _ (get_thd_run t s1 t0 ltac:(by rewrite Hts))).
  erewrite bind_run by reflexivity. cbv zeta. erewrite bind_run by reflexivity.
  set (s2 := set_k_thd_free (t_freelist_next t0) s1).
  change (k_thds s2) with (k_thds s1). rewrite Hts. rewrite !upd_thd_ins by done.
  rewrite (proj2 (Z.eqb_neq _ _) Hp).
  erewrite bind_run.
  2: { eapply (put_word_run _ _ _ (set_k_thds _ s2)); [cbn; rewrite Hm1; apply lookup_insert_eq|].
       by eapply zlookup_zinsert_eq. }
  set (s3 := set_k_mem (<[va_to_pa p := (pg.[0 := 0%Z]).[0 := 4%Z]]> (k_mem s1)) s2).
  change (set_k_mem _ (set_k_thds ?L s2)) with (set_k_thds L s3).
  rewrite upd_thd_ins by done. unfold thd_publish_data_page, thd_get_id.
  destruct (zlookup_is_Some (k_shared_region s) (t_thread_id t0)) as [w0 Hw0]; [by rewrite Hreg|].
  assert (k_shared_region s1 = k_shared_region s) as Hrs by by rewrite Heq1.
  erewrite bind_run.
  2: { erewrite bind_run by by rewrite get_thd_ins.
       apply put_region_pte_run with (w := w0). cbn. by rewrite Hrs. }
  set (s4 := set_k_shared_region ((k_shared_region s).[t_thread_id t0 := data_pte p]) s3).
  match goal with |- context [set_k_shared_region ?R (set_k_thds ?L s3)] =>
    replace (set_k_shared_region R (set_k_thds L s3)) with (set_k_thds L s4)
      by (unfold s4; cbn; by rewrite Hrs) end.
  rewrite upd_thd_ins by done.
  erewrite bind_run by (apply invocation_push_run with (x := x);
    [cbn; rewrite Heq1; exact Hx|done|done|split; by vm_compute]).
  rewrite !upd_thd_ins by done. exists s4. eexists. split_and!.
  - reflexivity.
  - unfold s4, s3, s2. rewrite Heq1. by do 3 eexists.
  - destruct Hpo1 as [Hl1 Hn1 He1]. split; [|done|done]. cbn. by apply pool_list_insert.
  - done.
  - done.
  - cbn. apply lookup_insert_eq.
  - eapply zlookup_zinsert_eq. by eapply zlookup_zinsert_eq.
Qed.

Lemma thd_free_fresh_run s0 t T id p i x l pg :
  t < length T → pool_ok s0 l → p ≠ 0%Z → va_to_pa p ∉ (va_to_pa <$> l) →
  k_mem s0 !! va_to_pa p = Some pg → pg.[0] = Some 4%Z → length l < 1023 →
  ∃ s2, thd_free (Some t) (set_k_thds (<[t := thd_fresh id p i x]> T) s0) =
      Done tt (set_k_thd_free (Some t) (set_k_thds
        (<[t := set_t_freelist_next (k_thd_free s0) (thd_fresh id p i x)]> T) s2)) ∧
    pool_frame s0 s2 ∧ pool_ok s2 (p :: l).
Proof.
  intros Ht [Hl Hn Hle] Hp Hni Hpg Hw Hlen.
  set (s1 := set_k_thds (<[t := thd_fresh id p i x]> T) s0).
  destruct (cos_put_pg_pool_run s1 p l pg 4) as (s2 & Hr & Hpo2 & _); try done.
  destruct (cos_put_pg_pool_frame _ _ _ _ Hr) as (m & h & n & ->).
  exists (set_k_mem m (set_k_pool_head h (set_k_pool_len n s0))).
  unfold thd_free. change MAX_SERVICE_DEPTH with (S 30). cbn [thd_unwind].
  erewrite bind_run; [|unfold s1; rewrite get_thd_ins by done; reflexivity].
  rewrite get_thd_ins by done. fold s1. cbn [t_data_region thd_fresh set_t_thread_id set_t_data_region].
  rewrite (proj2 (Z.eqb_neq _ _) Hp). cbn [negb when]. rewrite (bind_run _ _ _ _ _ Hr).
  rewrite (bind_run (gets k_thd_free) _ _ _ _ eq_refl).
  change (set_k_mem m (set_k_pool_head h (set_k_pool_len n s1))) with
    (set_k_thds (<[t := thd_fresh id p i x]> T) (set_k_mem m (set_k_pool_head h (set_k_pool_len n s0)))).
  rewrite upd_thd_ins by done. split_and!; [done|by do 3 eexists|by destruct Hpo2].
Qed.

Lemma thd_alloc_free_run s t t0 i x p l :
  thd_avail s t t0 i x p l →
  let fresh := thd_fresh (t_thread_id t0) p i x in
  ∃ s0 s2, thd_alloc i s = Done (Some t) (set_k_thds (<[t := fresh]> (k_thds s)) s0) ∧
    k_thd_free s0 = t_freelist_next t0 ∧ pool_ok s0 l ∧
    thd_free (Some t) (set_k_thds (<[t := fresh]> (k_thds s)) s0) =
      Done tt (set_k_thd_free (Some t) (set_k_thds
        (<[t := set_t_freelist_next (t_freelist_next t0) fresh]> (k_thds s)) s2)) ∧
    pool_ok s2 (p :: l) ∧
    k_shared_region s2 = (k_shared_region s).[t_thread_id t0 := data_pte p].
Proof.
  intros Hav fresh. pose proof Hav as [Hh Ht Hid Hreg Hx Hpo Hlen].
  destruct (thd_alloc_run _ _ _ _ _ _ _ Hav)
    as (s0 & pg & Hr & (m & h & n & Hs0) & Hpo0 & Hp & Hni & Hpg & Hw).
  pose proof (lookup_lt_Some _ _ _ Ht) as Htl.
  destruct (thd_free_fresh_run s0 t (k_thds s) (t_thread_id t0) p i x l pg)
    as (s2 & Hr2 & (m2 & h2 & n2 & Hs2) & Hpo2); try done.
  assert (k_thd_free s0 = t_freelist_next t0) as Hf0 by by rewrite Hs0.
  exists s0, s2. rewrite Hf0 in Hr2. split_and!; try done. by rewrite Hs2, Hs0.
Qed.

(** Allocating a thread takes the first of the free list and a page of the
    pool and gives a thread that is in the given component and nowhere else;
    freeing it right away restores the free list, of all threads, and the
    page pool. *)
Theorem thread_alloc_free s t t0 i x p l :
  thd_avail s t t0 i x p l →
  ∃ s1 s2 th, thd_alloc i s = Done (Some t) s1 ∧ k_thds s1 !! t = Some th ∧
    t_thread_id th = t_thread_id t0 ∧ callpath th = [(Some (s_composite_spd x), Some i)] ∧
    k_thd_free s1 = t_freelist_next t0 ∧ pool_ok s1 l ∧
    thd_free (Some t) s1 = Done tt s2 ∧ k_thd_free s2 = k_thd_free s ∧
    t_freelist_next <$> k_thds s2 = t_freelist_next <$> k_thds s ∧ pool_ok s2 (p :: l).
Proof.
  intros Hav. pose proof Hav as [Hh Ht Hid Hreg Hx Hpo Hlen].
  pose proof (lookup_lt_Some _ _ _ Ht) as Htl.
  destruct (thd_alloc_free_run _ _ _ _ _ _ _ Hav) as (s0 & s2 & Hr & Hf & Hp0 & Hr2 & Hp2 & _).
  do 3 eexists. split_and!; [exact Hr|cbn; by apply list_lookup_insert_eq| | | | |exact Hr2| | |];
    try done.
  - cbn. by destruct Hp0.
  - cbn. rewrite list_fmap_insert. cbn. apply list_insert_id.
    by rewrite list_lookup_fmap, Ht.
  - cbn. by destruct Hp2.
Qed.

(** The data page of a freed thread is in the page pool, and is handed out
    next, but stays mapped, writable from user level, in the region that all
    components share. *)
Theorem freed_data_page_mapped s t t0 i x p l :
  thd_avail s t t0 i x p l →
  ∃ s1 s2 w, thd_alloc i s = Done (Some t) s1 ∧ thd_free (Some t) s1 = Done tt s2 ∧
    k_pool_head s2 = p ∧ (k_shared_region s2).[t_thread_id t0] = Some w ∧
    w = data_pte p ∧ has w PG_PRESENT = true.
Proof.
  intros Hav. pose proof Hav as [_ _ Hid Hreg _ _ _].
  destruct (thd_alloc_free_run _ _ _ _ _ _ _ Hav) as (s0 & s2 & Hr & _ & _ & Hr2 & Hp2 & Hs2).
  do 3 eexists. split_and!; [exact Hr|exact Hr2| | |done|apply has_present_lor].
  - cbn. by destruct Hp2 as [(-> & _) _ _].
  - cbn. rewrite Hs2. destruct (zlookup_is_Some (k_shared_region s) (t_thread_id t0)) as [w Hw];
      [by rewrite Hreg|]. by eapply zlookup_zinsert_eq.
Qed.

(** ** Atomic sections *)

(** [ip] is strictly inside of the section that starts at [lo]. *)
Definition inside (sections : list Z) (ip k lo : Z) : Prop :=
  ∃ hi, sections.[k] = Some lo ∧ sections.[k + 1] = Some hi ∧ (lo < ip < hi)%Z.

Lemma atomic_loop_run s t th sections ip ks :
  k_thds s !! t = Some th → length sections = COS_NUM_ATOMIC_SECTIONS →
  Forall (λ k, 0 ≤ k < 9)%Z ks →
  (∃ k lo, k ∈ ks ∧ inside sections ip k lo ∧
     atomic_loop t sections ip ks s = Done 1%Z (set_k_thds
       (<[t := set_t_regs (set_r_ip lo (t_regs th)) th]> (k_thds s)) s)) ∨
  (atomic_loop t sections ip ks s = Done 0%Z s ∧ ∀ k lo, k ∈ ks → ¬ inside sections ip k lo).
Proof.
  intros Ht Hl Hks. induction Hks as [|k ks Hk _ IH]; cbn [atomic_loop].
  - right. split; [done|]. intros k lo Hk. by apply not_elem_of_nil in Hk.
  - change COS_NUM_ATOMIC_SECTIONS with 10 in Hl.
    destruct (zlookup_is_Some sections k) as [lo Hlo]; [lia|].
    destruct (zlookup_is_Some sections (k + 1)) as [hi Hhi]; [lia|].
    rewrite Hlo, Hhi. erewrite bind_run by reflexivity. erewrite bind_run by reflexivity.
    destruct (Z.ltb_spec lo ip), (Z.ltb_spec ip hi); cbn [andb];
      [left; exists k, lo; split_and!; [constructor|by exists hi|by erewrite bind_run by by apply upd_thd_run]|..];
      (destruct IH as [(k' & lo' & Hin & Hi & Hr)|[Hr Hno]];
        [left; exists k', lo'; split_and!; [by constructor|done|done]
        |right; split; [done|]; intros k' lo' [->|Hin]%elem_of_cons;
          [intros (hi' & ? & ? & ?); simplify_eq; lia|by apply Hno]]).
Qed.

(** The state of the checks of [thd_check_atomic_preempt]: thread [t] = [th]
    was preempted in component [i] = [x]. *)
Record preempted_in (s : kstate) (t : nat) (th : thread) (i : nat) (x : spd) : Prop := {
  pi_thd : k_thds s !! t = Some th;
  pi_stack : stack_ok th;
  pi_flag : has (t_flags th) THD_STATE_PREEMPTED = true;
  pi_frame : ∃ f, (t_stack th).[t_stack_ptr th] = Some f ∧ f_spd f = Some i;
  pi_spd : k_spds s !! i = Some x;
  pi_sections : length (s_atomic_sections x) = COS_NUM_ATOMIC_SECTIONS
}.

Lemma check_atomic_run s t th i x b1 b2 ip :
  preempted_in s t th i x → thd_get_ip t s = Done ip s →
  thd_check_atomic_preempt b1 b2 None t s =
  atomic_loop t (s_atomic_sections x) ip [0; 2; 4]%Z s.
Proof.
  intros [Ht [_ Hp] Hf (f & Hfr & Hfs) Hx _] Hip.
  unfold thd_check_atomic_preempt, thd_get_thd_spd, thd_invstk_top.
  erewrite bind_run.
  2: { erewrite bind_run by (rewrite (bind_run _ _ _ _ _ (get_thd_run _ _ _ Ht)); reflexivity).
       destruct (Z.ltb_spec (t_stack_ptr th) 0); [lia|]. erewrite bind_run by reflexivity.
       rewrite (bind_run _ _ _ _ _ (get_frame_run _ _ _ _ _ Ht Hfr)), Hfs. reflexivity. }
  rewrite (bind_run _ _ _ _ _ Hip), (bind_run _ _ _ _ _ (get_thd_run _ _ _ Ht)), Hf, orb_true_r.
  erewrite bind_run by reflexivity. erewrite bind_run by reflexivity.
  by rewrite (bind_run _ _ _ _ _ (get_spd_run _ _ _ Hx)).
Qed.

(** A thread that is preempted in its first component, inside of one of the
    first three atomic sections of that component, goes on at the start of
    that section; otherwise nothing is changed. *)
Theorem atomic_rollback s t th i x b1 b2 :
  preempted_in s t th i x → t_stack_ptr th = 0%Z →
  let ip := r_ip (t_regs th) in
  let run := thd_check_atomic_preempt b1 b2 None t s in
  (∃ k lo, k ∈ [0; 2; 4]%Z ∧ inside (s_atomic_sections x) ip k lo ∧
     run = Done 1%Z (set_k_thds
       (<[t := set_t_regs (set_r_ip lo (t_regs th)) th]> (k_thds s)) s)) ∨
  (run = Done 0%Z s ∧ ∀ k lo, k ∈ [0; 2; 4]%Z → ¬ inside (s_atomic_sections x) ip k lo).
Proof.
  intros Hpi H0 ip run. subst run. pose proof Hpi as [Ht _ Hf _ _ Hl].
  rewrite (check_atomic_run s t th i x b1 b2 ip Hpi).
  - apply atomic_loop_run; [done|done|]. repeat constructor; lia.
  - unfold thd_get_ip, thd_get_frame_ip, thd_get_frame_reg.
    rewrite (bind_run _ _ _ _ _ (get_thd_run _ _ _ Ht)), (bind_run _ _ _ _ _ (get_thd_run _ _ _ Ht)).
    by rewrite H0, Hf.
Qed.

(** A thread that is preempted after at least one invocation is not rolled
    back by where it was preempted: the address tested against the sections is
    the one at which its first component goes on.  Unless that one happens to
    be inside, nothing is rolled back, wherever the thread was. *)
Theorem atomic_preempt_nested s t th i x b1 b2 f1 :
  preempted_in s t th i x → (0 < t_stack_ptr th)%Z → (t_stack th).[1] = Some f1 →
  (∀ k lo, ¬ inside (s_atomic_sections x) (f_ip f1) k lo) →
  thd_check_atomic_preempt b1 b2 None t s = Done 0%Z s.
Proof.
  intros Hpi H0 Hf1 Hno. pose proof Hpi as [Ht _ _ _ _ Hl].
  rewrite (check_atomic_run s t th i x b1 b2 (f_ip f1) Hpi).
  - destruct (atomic_loop_run s t th (s_atomic_sections x) (f_ip f1) [0; 2; 4]%Z)
      as [(k & lo & _ & Hi & _)|[Hr _]]; [done|done|repeat constructor; lia|by destruct (Hno k lo)|done].
  - unfold thd_get_ip, thd_get_frame_ip, thd_get_frame_reg.
    rewrite (bind_run _ _ _ _ _ (get_thd_run _ _ _ Ht)), (bind_run _ _ _ _ _ (get_thd_run _ _ _ Ht)).
    destruct (Z.ltb_spec (t_stack_ptr th) (t_stack_ptr th)), (Z.ltb_spec (t_stack_ptr th) 0); try lia.
    cbn [orb]. rewrite Z.sub_diag. destruct (Z.eqb_spec 0 (t_stack_ptr th)); [lia|].
    by rewrite (bind_run _ _ _ _ _ (get_frame_run _ _ _ _ _ Ht Hf1)).
Qed.

(** ** Examples *)

(** Three components in domains of their own, a thread that went through all
    of them, and a second one, preempted in component 0. *)
Definition td_frames : list thd_invocation_frame :=
  [MkFrame (Some (PolyMpd 0)) (Some 0) 0 0; MkFrame (Some (PolyMpd 1)) (Some 1) 11 111;
   MkFrame (Some (PolyMpd 2)) (Some 2) 22 222].
Definition td_thread : thread :=
  set_t_thread_id 1 (set_t_flags THD_STATE_PREEMPTED (set_t_stack_ptr 2
    (set_t_stack (td_frames ++ replicate 28 frame0) thd0))).
Definition td_thread2 : thread :=
  set_t_thread_id 2 (set_t_flags THD_STATE_PREEMPTED (set_t_regs (set_r_ip 1010 regs0)
    (set_t_stack (td_frames ++ replicate 28 frame0) thd0))).
Definition td_spd (j : nat) : spd :=
  set_s_atomic_sections [1000; 1020; 2000; 2020; 3000; 3020; 4000; 4020; 5000; 5020]%Z
    (set_s_location ([MkLoc (HPAGE_SIZE * (Z.of_nat j + 1)) HPAGE_SIZE] ++ replicate 7 (MkLoc 0 0))
      (set_s_composite_spd (PolyMpd j) spd0)).
Definition td_mpd (j : nat) : composite_spd :=
  MkMpd (MkPoly SPD_COMPOSITE 3 (4096 * (Z.of_nat j + 1))) (Some j) None (Some j) (Some j).
Definition td_page : list Z := replicate PGD_PER_PTBL 0%Z.
Definition td_demo : kstate :=
  set_k_thds ([td_thread; td_thread2] ++ replicate 28 (set_t_thread_id 3 thd0))
    (set_k_thd_free (Some 2) (set_k_current (Some 0) (set_k_cr3 12288 (set_k_host_pgd 12288
    (set_k_spds (map td_spd (seq 0 3) ++ replicate 61 spd0)
    (set_k_mpds (map td_mpd (seq 0 3) ++ replicate 1021 mpd0)
    (set_k_pool_head (pa_to_va 16384) (set_k_pool_len 1
    (set_k_mem (<[4096%Z := td_page]> (<[8192%Z := td_page]> (<[12288%Z := td_page]>
       (<[16384%Z := td_page]> ∅)))) k_zero))))))))).

Lemma td_stack_ok : stack_ok td_thread.
Proof. split; [reflexivity|]. split; by vm_compute. Qed.

Lemma rem_nth_splices_witness : ∃ s1 x',
  thd_invstk_rem_nth 0 1 td_demo = Done 0%Z (set_k_thds (<[0 := x']> (k_thds td_demo)) s1) ∧
  callpath x' = [(Some (PolyMpd 0), Some 0); (Some (PolyMpd 2), Some 2)] ∧
  returns x' = [(0, 0); (11, 111)]%Z.
Proof.
  destruct (rem_nth_splices td_demo 0 td_thread 1 (MkFrame (Some (PolyMpd 1)) (Some 1) 11 111)
    (PolyMpd 1) (set_k_mpds (<[1 := set_m_info (MkPoly SPD_COMPOSITE 2 8192) (td_mpd 1)]> (k_mpds td_demo)) td_demo))
    as (x' & Hr & _ & Hc & Hret).
  - reflexivity.
  - exact td_stack_ok.
  - split; by vm_compute.
  - reflexivity.
  - reflexivity.
  - vm_compute. reflexivity.
  - eexists _, x'. split; [exact Hr|]. split; [exact Hc|exact Hret].
Defined.

Lemma callpath_depth_witness : ∃ d,
  thd_validate_spd_in_callpath 0 1 td_demo = Done d td_demo ∧ (d = -1 ∨ 0 ≤ d)%Z.
Proof.
  destruct (callpath_depth td_demo 0 td_thread 1 (td_spd 1)) as (d & Hr & Hd).
  - reflexivity.
  - exact td_stack_ok.
  - intros [|[|[|k]]] f Hf; vm_compute in Hf; try discriminate; injection Hf as <-;
      (eexists; split; [reflexivity|]; eexists _, td_page;
       split_and!; [vm_compute; reflexivity|vm_compute; reflexivity|reflexivity]).
  - reflexivity.
  - reflexivity.
  - exists d. split; [exact Hr|]. destruct Hd as [[-> _]|(k & f & -> & Hf & _)]; [by left|right].
    destruct k as [|[|[|k]]]; [by vm_compute..|]. vm_compute in Hf. discriminate.
Defined.

Lemma td_avail : thd_avail td_demo 2 (set_t_thread_id 3 thd0) 0 (td_spd 0) (pa_to_va 16384) [].
Proof.
  split; try reflexivity; [split; by vm_compute| |cbn; lia].
  split; [|by apply NoDup_singleton|reflexivity].
  split_and!; [reflexivity|by vm_compute|]. exists td_page, 0%Z.
  split_and!; [vm_compute; reflexivity|reflexivity|reflexivity].
Qed.

Lemma thread_alloc_free_witness : ∃ s1 s2,
  thd_alloc 0 td_demo = Done (Some 2) s1 ∧ thd_free (Some 2) s1 = Done tt s2.
Proof.
  destruct (thread_alloc_free _ _ _ _ _ _ _ td_avail) as (s1 & s2 & th & H1 & _ & _ & _ & _ & _ & H2 & _).
  by exists s1, s2.
Defined.

Lemma freed_data_page_mapped_witness : ∃ s1 s2 w,
  thd_alloc 0 td_demo = Done (Some 2) s1 ∧ thd_free (Some 2) s1 = Done tt s2 ∧
  k_pool_head s2 = pa_to_va 16384 ∧ (k_shared_region s2).[3] = Some w ∧
  has w PG_PRESENT = true.
Proof.
  destruct (freed_data_page_mapped _ _ _ _ _ _ _ td_avail) as (s1 & s2 & w & H1 & H2 & H3 & H4 & _ & H5).
  by exists s1, s2, w.
Defined.

Lemma td_preempted t th i :
  k_thds td_demo !! t = Some th → th = td_thread ∨ th = td_thread2 → i < 3 →
  (∃ f, (t_stack th).[t_stack_ptr th] = Some f ∧ f_spd f = Some i) →
  preempted_in td_demo t th i (td_spd i).
Proof.
  intros Ht Hth Hi Hf. split; [done| | |done| |reflexivity].
  - destruct Hth as [->| ->]; (split; [reflexivity|split; by vm_compute]).
  - by destruct Hth as [->| ->].
  - destruct i as [|[|[|i]]]; [reflexivity..|lia].
Qed.

Lemma atomic_rollback_witness : ∃ r s',
  thd_check_atomic_preempt false false None 1 td_demo = Done r s' ∧ (r = 1 ∨ r = 0)%Z.
Proof.
  destruct (atomic_rollback td_demo 1 td_thread2 0 (td_spd 0) false false)
    as [(k & lo & _ & _ & Hr)|[Hr _]].
  - apply td_preempted; [reflexivity|by right|lia|]. eexists. split; reflexivity.
  - reflexivity.
  - eexists _, _. split; [exact Hr|by left].
  - eexists _, _. split; [exact Hr|by right].
Defined.

(** Preempted at address 2010, in the middle of an atomic section of component
    2, but not rolled back. *)
Lemma atomic_preempt_nested_witness :
  let th := set_t_regs (set_r_ip 2010 regs0) td_thread in
  let s := set_k_thds (<[0 := th]> (k_thds td_demo)) td_demo in
  inside (s_atomic_sections (td_spd 2)) (r_ip (t_regs th)) 2 2000 ∧
  thd_check_atomic_preempt false false None 0 s = Done 0%Z s.
Proof.
  intros th s. split; [by exists 2020%Z|].
  apply (atomic_preempt_nested s 0 th 2 (td_spd 2) false false (MkFrame (Some (PolyMpd 1)) (Some 1) 11 111)).
  - split; [reflexivity|split; [reflexivity|split; by vm_compute]|reflexivity| |reflexivity|reflexivity].
    eexists. split; reflexivity.
  - by vm_compute.
  - reflexivity.
  - intros k lo (hi & Hlo & Hhi & Hl). cbn in Hl.
    pose proof (zlookup_lt _ _ _ Hlo) as Hk. cbn in Hk.
    assert (k ∈ [0;1;2;3;4;5;6;7;8;9]%Z) as Hin by (rewrite !elem_of_cons; lia).
    repeat (apply elem_of_cons in Hin as [->|Hin];
      [vm_compute in Hlo; try discriminate Hlo; injection Hlo as <-; lia|]).
    by apply not_elem_of_nil in Hin.
Defined.
