(* ===== verification/Ipc.v ===== *)
(** * Invocations between components, upcalls and thread contexts (inv.c)

    The kernel side of a component invocation ([ipc_walk_static_cap]) and of
    the return from it ([pop]), of a fault that a component handles, of upcalls
    (entering a component at its upcall address) and of the switch from one
    thread to another.  The assembly in ipc.S that saves and restores the
    registers around these functions is not modelled.

    [printk] and the event counters of measurement.h are left out: nothing
    reads what they write. *)

From stdpp Require Import base list numbers option gmap.
From S2P Require Import Prelude Kern PageMem Mpd Thread.

(** ** Constants *)

Definition COS_UPCALL_BRAND_EXEC : Z := 0.
Definition COS_UPCALL_BRAND_COMPLETE : Z := 1.
Definition COS_UPCALL_BOOTSTRAP : Z := 2.
Definition COS_UPCALL_CREATE : Z := 3.
Definition COS_UPCALL_DESTROY : Z := 4.
Definition COS_UPCALL_UNHANDLED_FAULT : Z := 5.

(** A [struct pt_regs *]: the registers of a thread, or those it faulted with. *)
Inductive regs_ptr : Set :=
| Regs (t : nat)
| FaultRegs (t : nat).

#[export] Instance regs_ptr_eq_dec : EqDecision regs_ptr.
Proof. solve_decision. Defined.

(** Further readings than those given in the state are 0. *)
Definition rdtscl : K Z :=
  l ← gets k_tsc;
  modify (set_k_tsc (tail l));;
  mret (default 0%Z (head l)).

Definition ipc_init : K unit :=
  modify (λ s, set_k_ud_thread 0 (set_k_ud_arg 0 s));;
  t ← rdtscl;
  modify (set_k_cycle_cnt t).

(** ** Page tables of the processor *)

Definition native_write_cr3 (pt : Z) : K unit := modify (set_k_cr3 pt).
Definition switch_host_pg_tbls (pt : Z) : K unit := modify (set_k_host_pgd pt).

Definition switch_pg_tbls (new old : Z) : K unit :=
  when (negb (old =? new)%Z) (native_write_cr3 new;; switch_host_pg_tbls new).

Definition open_close_spd (o_spd c_spd : polyp) : K unit :=
  o ← get_poly o_spd;
  c ← get_poly c_spd;
  switch_pg_tbls (p_pg_tbl o) (p_pg_tbl c).

Definition open_close_spd_ret (c_spd : polyp) : K unit :=
  c ← get_poly c_spd;
  native_write_cr3 (p_pg_tbl c);;
  switch_host_pg_tbls (p_pg_tbl c).

(** ** Invocation *)

(** The result is the entry address and, on success, what is written to
    [*ret]: the thread's and the invoking component's id. *)
Definition ipc_walk_static_cap (thd : nat) (capability sp ip : Z) : K (Z * option (Z * Z)) :=
  let capability := Z.shiftr capability 20 in
  if (Z.of_nat MAX_STATIC_CAP <=? capability)%Z then mret (0%Z, None) else
  cap_entry ← get_cap capability;
  match c_owner cap_entry, c_destination cap_entry with
  | OwnerSpd curr_spd, Some dest_spd =>
      t ← get_thd thd;
      curr_frame ← get_frame thd (t_stack_ptr t);
      ok ← thd_spd_in_composite (f_cspd curr_frame) curr_spd;
      if negb ok then mret (0%Z, None) else
      d ← get_spd dest_spd;
      c ← get_spd curr_spd;
      open_close_spd (s_composite_spd d) (s_composite_spd c);;
      spd_mpd_ipc_take (s_composite_spd d);;
      thd_invocation_push thd dest_spd sp ip;;
      upd_cap capability (λ x, set_c_invocation_cnt ((c_invocation_cnt x + 1) mod 2 ^ 30)%Z x);;
      mret (c_dest_entry cap_entry, Some (t_thread_id t, Z.of_nat curr_spd))
  | _, _ => mret (0%Z, None)
  end.

(** ** Switching threads *)

Definition switch_thread_data (ctid ntid : Z) : K unit :=
  switch_thread_data_page ctid ntid;;
  modify (λ s, set_k_ud_thread ntid (set_k_ud_arg
    (u32 (ntid * PAGE_SIZE + COS_INFO_REGION_ADDR)) s)).

Definition ready_boot_thread (init : nat) : K (option nat) :=
  thd ← thd_alloc init;
  match thd with
  | None => mret None
  | Some thd =>
      tid ← thd_get_id thd;
      assert (tid =? 1)%Z;;
      thd_set_current thd;;
      switch_thread_data 2 tid;;
      mret (Some thd)
  end.

Definition switch_thread_context_ (curr next : nat) : K unit :=
  c ← thd_get_current;
  assert (bool_decide (c ≠ Some next));;
  ctid ← thd_get_id curr;
  ntid ← thd_get_id next;
  thd_set_current next;;
  switch_thread_data ctid ntid.

Definition switch_thread_context (curr next : nat) : K unit :=
  cspd ← thd_get_thd_spdpoly curr;
  switch_thread_context_ curr next;;
  nspd ← thd_get_thd_spdpoly next;
  n ← deref nspd;
  c ← deref cspd;
  open_close_spd n c.

(** The loop over the depths [i]..[0]. *)
Fixpoint sched_info_loop (t : nat) (sched : option nat) (n : nat) : K unit :=
  match n with
  | O => mret tt
  | S i =>
      tsi ← thd_get_sched_info t (Z.of_nat i);
      put_sched_info t (Z.of_nat i)
        (set_ti_notifications None (set_ti_scheduler sched tsi));;
      s ← deref sched;
      x ← get_spd s;
      sched_info_loop t (s_parent_sched x) i
  end.

Definition initialize_sched_info (t curr_sched : nat) : K unit :=
  x ← get_spd curr_sched;
  assert (spd_is_scheduler x);;
  sched_info_loop t (Some curr_sched) (Z.to_nat (s_sched_depth x + 1)).

(** The loop from entry [i] on, for [n] entries. *)
Fixpoint copy_sched_info_structs (new old : nat) (prev_sched : option nat) (i : Z) (n : nat) :
    K unit :=
  match n with
  | O => mret tt
  | S n' =>
      o ← get_thd old;
      e ← bound ((t_sched_info o).[i]);
      match ti_scheduler e with
      | Some s => x ← get_spd s; assert (bool_decide (s_parent_sched x = prev_sched))
      | None => mret tt
      end;;
      t ← get_thd new;
      _ ← bound ((t_sched_info t).[i]);
      put_sched_info new i e;;
      copy_sched_info_structs new old (ti_scheduler e) (i + 1) n'
  end.

Definition copy_sched_info (new old : nat) : K unit :=
  copy_sched_info_structs new old None 0 (MAX_SCHED_HIER_DEPTH - 1).

(** ** Upcalls *)

Definition upcall_setup_regs (uc dest : nat) (option arg1 arg2 arg3 : Z) : K unit :=
  d ← get_spd dest;
  t ← get_thd uc;
  let r := set_r_cx option (set_r_si arg3 (set_r_di arg2 (set_r_bx arg1 (t_regs t)))) in
  let r := set_r_ip (s_upcall_entry d) (set_r_dx (s_upcall_entry d) r) in
  put_thd uc (set_t_regs (set_r_ax (t_thread_id t) r) t).

Definition upcall_inv_setup (uc dest : nat) (option arg1 arg2 arg3 : Z) : K nat :=
  t ← get_thd uc;
  thd_invocation_push uc dest (r_sp (t_regs t)) (r_ip (t_regs t));;
  upcall_setup_regs uc dest option arg1 arg2 arg3;;
  d ← get_spd dest;
  spd_mpd_ipc_take (s_composite_spd d);;
  mret uc.

(** [stack_base[0].current_composite_spd = dest->composite_spd;
     stack_base[0].spd = dest;] *)
Definition set_base_frame (t dest : nat) : K unit :=
  d ← get_spd dest;
  f ← get_frame t 0;
  put_frame t 0 (set_f_spd (Some dest) (set_f_cspd (Some (s_composite_spd d)) f)).

Definition upcall_setup (uc dest : nat) (option arg1 arg2 arg3 : Z) : K nat :=
  upcall_setup_regs uc dest option arg1 arg2 arg3;;
  upd_thd uc (set_t_stack_ptr 0);;
  set_base_frame uc dest;;
  d ← get_spd dest;
  spd_mpd_ipc_take (s_composite_spd d);;
  mret uc.

Definition upcall_execute (uc : nat) (new : option polyp) (prev : option nat)
    (old : option polyp) : K nat :=
  match prev with
  | Some prev =>
      if decide (prev = uc) then
        (if decide (old = new) then mret tt else
           n ← deref new; o ← deref old; open_close_spd n o)
      else switch_thread_context prev uc
  | None =>
      if decide (old = new) then mret tt else
      n ← deref new; o ← deref old; open_close_spd n o
  end;;
  mret uc.

Definition upcall_execute_no_vas_switch (uc : nat) (prev : option nat) : K nat :=
  match prev with
  | Some prev =>
      if decide (prev = uc) then mret tt else
      switch_thread_context_ prev uc;;
      nspd ← thd_get_thd_spdpoly uc;
      n ← deref nspd;
      n ← get_poly n;
      switch_host_pg_tbls (p_pg_tbl n)
  | None => mret tt
  end;;
  mret uc.

Definition upcall_execute_compat (uc : nat) (prev : option nat) (old : option polyp) : K nat :=
  f ← get_frame uc 0;
  upcall_execute uc (f_cspd f) prev old.

(** The [do]..[while] of [scheduler_find_leaf], with [n] depths left. *)
Fixpoint find_leaf_loop (t : nat) (i : Z) (n : nat) (tsi : option thd_sched_info) :
    K (option thd_sched_info) :=
  match n with
  | O => mret tsi
  | S n' =>
      e ← thd_get_sched_info t i;
      match ti_scheduler e with
      | Some _ => find_leaf_loop t (i + 1) n' (Some e)
      | None => mret tsi
      end
  end.

Definition scheduler_find_leaf (t : nat) : K (option thd_sched_info) :=
  find_leaf_loop t 0 MAX_SCHED_HIER_DEPTH None.

Definition thd_ret_upcall_type (curr : nat) (t : Z) : K regs_ptr :=
  cspd ← thd_get_thd_spdpoly curr;
  assert (bool_decide (cspd ≠ None));;
  c ← deref cspd;
  spd_mpd_ipc_release c;;
  tsi ← scheduler_find_leaf curr;
  tsi ← deref tsi;
  dest ← deref (ti_scheduler tsi);
  _ ← upcall_setup curr dest t 0 0 0;
  _ ← upcall_execute_compat curr None cspd;
  mret (Regs curr).

Definition thd_ret_term_upcall (curr : nat) : K regs_ptr :=
  thd_ret_upcall_type curr COS_UPCALL_DESTROY.

(** ** Return from an invocation *)

(** Either the frame to return with, or the registers to restore instead. *)
Definition pop (curr : nat) : K (Z + regs_ptr) :=
  inv_frame ← thd_invocation_pop curr;
  match inv_frame with
  | None =>
      t ← get_thd curr;
      assert (negb (has (t_flags t) THD_STATE_READY_UPCALL));;
      r ← thd_ret_term_upcall curr;
      mret (inr r)
  | Some inv =>
      top ← thd_invstk_top curr;
      top ← deref top;
      curr_frame ← get_frame curr top;
      c ← deref (f_cspd curr_frame);
      open_close_spd_ret c;;
      f ← get_frame curr inv;
      c ← deref (f_cspd f);
      spd_mpd_ipc_release c;;
      f ← get_frame curr inv;
      mret (if (f_ip f =? 0)%Z then inr (FaultRegs curr) else inl inv)
  end.

(** ** Faults *)

(** [fault_cap] and [r] are the locals that nothing assigns (the latter when
    the invocation is refused).  The result is [*regs] and the return value. *)
Definition fault_ipc_invoke (fault_cap : Z) (r : Z * Z) (thd : nat) (fault_addr flags : Z)
    (regs : pt_regs) (fault_num : Z) : K (Z * pt_regs) :=
  assert (fault_num <? Z.of_nat COS_NUM_FAULTS)%Z;;
  if (fault_cap =? 0)%Z then
    _ ← thd_ret_upcall_type thd COS_UPCALL_UNHANDLED_FAULT;
    t ← get_thd thd;
    let n := t_regs t in
    mret (0%Z, set_r_ip (r_ip n) (set_r_sp (r_sp n) (set_r_bp (r_bp n) (set_r_si (r_si n)
      (set_r_di (r_di n) (set_r_dx (r_dx n) (set_r_cx (r_cx n) (set_r_bx (r_bx n)
        (set_r_ax (r_ax n) regs)))))))))
  else
    upd_thd thd (set_t_fault_regs regs);;
    '(a, ret) ← ipc_walk_static_cap thd (u32 (Z.shiftl fault_cap 20)) (r_sp regs) (r_ip regs);
    let '(thd_id, spd_id) := default r ret in
    mret (1%Z, set_r_ip a (set_r_dx a (set_r_bp (r_ip regs) (set_r_di flags
      (set_r_si fault_addr (set_r_sp 0 (set_r_cx spd_id (set_r_bx spd_id
        (set_r_ax thd_id regs))))))))).
