(* ===== verification/IpcInv.v ===== *)
(** * Correctness of invocations

    Which invocations the kernel admits and what they do; that the return from
    an invocation restores the caller; and what switching threads does to the
    processor and to the pages threads pass data in. *)

From stdpp Require Import base list numbers option gmap.
From S2P Require Import Prelude Kern PageMem Mpd MpdInv MpdLife Thread ThreadInv Ipc.

(** ** References to domains *)

Lemma alter_alter {A} (f g : A → A) k (l : list A) :
  alter f k (alter g k l) = alter (λ x, f (g x)) k l.
Proof.
  apply list_eq. intros i. rewrite !lookup_alter_if. by case_decide; [destruct (l !! i)|].
Qed.

(** The state with [*p] set to [i]. *)
Definition put_poly (p : polyp) (i : spd_poly) (s : kstate) : kstate :=
  match p with
  | PolySpd k => set_k_spds (alter (set_s_info i) k (k_spds s)) s
  | PolyMpd j => set_k_mpds (alter (set_m_info i) j (k_mpds s)) s
  end.

Lemma upd_poly_run s p f i :
  poly_of s p = Some i → upd_poly p f s = Done tt (put_poly p (f i) s).
Proof.
  destruct p as [k|k]; cbn; intros (x & Hx & ->)%fmap_Some.
  - by rewrite (upd_spd_run _ _ _ _ Hx), (alter_at _ _ _ _ Hx).
  - by rewrite (upd_mpd_run _ _ _ _ Hx), (alter_at _ _ _ _ Hx).
Qed.

Lemma poly_of_put s p i j : poly_of s p = Some j → poly_of (put_poly p i s) p = Some i.
Proof.
  destruct p as [k|k]; cbn; intros (x & Hx & ->)%fmap_Some;
    by rewrite list_lookup_alter_eq, Hx.
Qed.

Lemma put_poly_put s p i j : put_poly p i (put_poly p j s) = put_poly p i s.
Proof.
  destruct p as [k|k]; cbn; by rewrite alter_alter.
Qed.

Lemma put_poly_id s p i : poly_of s p = Some i → put_poly p i s = s.
Proof.
  destruct p as [k|k]; cbn; intros (x & Hx & ->)%fmap_Some; rewrite (alter_at _ _ _ _ Hx).
  - replace (set_s_info (s_info x) x) with x by by destruct x.
    rewrite list_insert_id by done. by destruct s.
  - replace (set_m_info (m_info x) x) with x by by destruct x.
    rewrite list_insert_id by done. by destruct s.
Qed.

(** A domain that is in use, with room for one more reference. *)
Definition in_use (i : spd_poly) : Prop := (0 < p_ref_cnt i < 2 ^ 31 - 1)%Z.

Lemma take_release i : in_use i → cos_ref_release (cos_ref_take i) = i.
Proof.
  destruct i as [f r pt]. unfold in_use, cos_ref_release, cos_ref_take, set_p_ref_cnt.
  cbn [p_flags p_ref_cnt p_pg_tbl]. intros Hi. rewrite (s32_id (r + 1)), s32_id by lia.
  f_equal. lia.
Qed.

(** Dropping a reference that is not the last one. *)
Lemma mpd_release_more fuel s p i :
  poly_of s p = Some i → (1 < p_ref_cnt i < 2 ^ 31)%Z →
  mpd_release (S fuel) p s = Done tt (put_poly p (cos_ref_release i) s).
Proof.
  intros Hp Hi. cbn [mpd_release]. rewrite (bind_run _ _ _ _ _ (upd_poly_run _ _ _ _ Hp)).
  rewrite (bind_run _ _ _ _ _ (get_poly_run _ _ _ (poly_of_put _ _ _ _ Hp))).
  unfold cos_ref_val, cos_ref_release. cbn [p_ref_cnt set_p_ref_cnt].
  rewrite s32_id, u32_id by lia. by destruct (Z.eqb_spec 0 (p_ref_cnt i - 1)); [lia|].
Qed.

Lemma release_run s p i :
  poly_of s p = Some i → (1 < p_ref_cnt i < 2 ^ 31)%Z →
  spd_mpd_ipc_release p s = Done tt (put_poly p (cos_ref_release i) s).
Proof. apply (mpd_release_more 1023). Qed.

Lemma poly_of_put_ne s p q i : p ≠ q → poly_of (put_poly q i s) p = poly_of s p.
Proof.
  intros Hne. destruct p as [k|k], q as [k'|k']; cbn; try done;
    rewrite list_lookup_alter_ne; [done|congruence|done|congruence].
Qed.

(** Reads through [p] after [*q] has been written, when only the count changed. *)
Lemma poly_of_put_pt s p q i j :
  poly_of s q = Some j → p_pg_tbl i = p_pg_tbl j →
  p_pg_tbl <$> poly_of (put_poly q i s) p = p_pg_tbl <$> poly_of s p.
Proof.
  intros Hq Hi. destruct (decide (p = q)) as [->|Hne].
  - rewrite (poly_of_put _ _ _ _ Hq), Hq. cbn. by f_equal.
  - by rewrite poly_of_put_ne.
Qed.

(** ** Which invocations are admitted *)

(** Thread [th] after entering component [d] = [x]. *)
Definition pushed (th : thread) (d : nat) (x : spd) (sp ip : Z) : thread :=
  set_t_stack_ptr (t_stack_ptr th + 1) (set_t_stack
    ((t_stack th).[t_stack_ptr th + 1 := MkFrame (Some (s_composite_spd x)) (Some d) sp ip]) th).

Lemma push_run t i s th x sp ip :
  k_thds s !! t = Some th → k_spds s !! i = Some x → stack_ok th → (t_stack_ptr th < 30)%Z →
  thd_invocation_push t i sp ip s =
  Done tt (set_k_thds (<[t := pushed th i x sp ip]> (k_thds s)) s).
Proof.
  intros Ht Hx [Hl Hp] Hr.
  replace s with (set_k_thds (<[t := th]> (k_thds s)) s) at 1
    by (rewrite list_insert_id by done; by destruct s).
  rewrite (invocation_push_run t i s th x); [done|done|by eapply lookup_lt_Some|done|].
  change MAX_SERVICE_DEPTH with 31. lia.
Qed.

(** The processor after a switch from page table [old] to [new]. *)
Definition switched (new old : Z) (s : kstate) : kstate :=
  if (old =? new)%Z then s else set_k_host_pgd new (set_k_cr3 new s).

Lemma open_close_run s o c io ic :
  poly_of s o = Some io → poly_of s c = Some ic →
  open_close_spd o c s = Done tt (switched (p_pg_tbl io) (p_pg_tbl ic) s).
Proof.
  intros Ho Hc. unfold open_close_spd, switch_pg_tbls, switched.
  rewrite (bind_run _ _ _ _ _ (get_poly_run _ _ _ Ho)), (bind_run _ _ _ _ _ (get_poly_run _ _ _ Hc)).
  by destruct (p_pg_tbl ic =? p_pg_tbl io)%Z.
Qed.

(** One more invocation through capability [y]. *)
Definition counted (y : invocation_cap) : invocation_cap :=
  set_c_invocation_cnt ((c_invocation_cnt y + 1) mod 2 ^ 30)%Z y.

(** The components of a capability from [o] = [xo] in the domain [io] to
    [d] = [xd] in the domain [id]. *)
Record cap_spds (s : kstate) (o d : nat) (xo xd : spd) (io id : spd_poly) : Prop := {
  cs_owner : k_spds s !! o = Some xo;
  cs_owner_loc : length (s_location xo) = MAX_SPD_VAS_LOCATIONS;
  cs_owner_dom : poly_of s (s_composite_spd xo) = Some io;
  cs_dest : k_spds s !! d = Some xd;
  cs_dest_dom : poly_of s (s_composite_spd xd) = Some id
}.

(** Thread [t] = [th] executes in the domain [c], and may invoke. *)
Record executing (s : kstate) (t : nat) (th : thread) (c : polyp) : Prop := {
  ex_thd : k_thds s !! t = Some th;
  ex_stack : stack_ok th;
  ex_room : (t_stack_ptr th < 30)%Z;
  ex_frame : ∃ f, (t_stack th).[t_stack_ptr th] = Some f ∧ f_cspd f = Some c;
  ex_dom : domain_mapped s c;
  ex_caps : length (k_caps s) = MAX_STATIC_CAP;
  ex_spds : ∀ k y o d, (k_caps s).[k] = Some y → c_owner y = OwnerSpd o →
    c_destination y = Some d → ∃ xo xd io id, cap_spds s o d xo xd io id
}.

(** Capability [k] = [y] permits a thread in domain [c] to enter [d]: its owner
    [o] is part of that domain. *)
Definition may_invoke (s : kstate) (c : polyp) (k : Z) (y : invocation_cap) (o d : nat) : Prop :=
  (k_caps s).[k] = Some y ∧ c_owner y = OwnerSpd o ∧ c_destination y = Some d ∧
  ∃ xo, k_spds s !! o = Some xo ∧ resides s c xo = true.

(** The state after an invocation through capability [k]. *)
Definition invoked (s : kstate) (t : nat) (th : thread) (k : Z) (y : invocation_cap)
    (d : nat) (xd : spd) (io id : spd_poly) (sp ip : Z) : kstate :=
  set_k_caps ((k_caps s).[k := counted y])
    (set_k_thds (<[t := pushed th d xd sp ip]> (k_thds s))
      (put_poly (s_composite_spd xd) (cos_ref_take id)
        (switched (p_pg_tbl id) (p_pg_tbl io) s))).

Lemma switched_spds new old s :
  k_spds (switched new old s) = k_spds s ∧ k_mpds (switched new old s) = k_mpds s ∧
  k_thds (switched new old s) = k_thds s ∧ k_caps (switched new old s) = k_caps s.
Proof. unfold switched. by destruct (old =? new)%Z. Qed.

Lemma poly_of_switched new old s p : poly_of (switched new old s) p = poly_of s p.
Proof. unfold switched. by destruct (old =? new)%Z. Qed.

Lemma put_poly_rest p i s :
  k_thds (put_poly p i s) = k_thds s ∧ k_caps (put_poly p i s) = k_caps s ∧
  ∀ d x, k_spds s !! d = Some x → ∃ j, k_spds (put_poly p i s) !! d = Some (set_s_info j x).
Proof.
  destruct p as [k|k]; cbn; split_and!; try done; intros d x Hx.
  - rewrite lookup_alter_if, Hx. case_decide; [by exists i|]. exists (s_info x). by destruct x.
  - exists (s_info x). rewrite Hx. by destruct x.
Qed.

Lemma walk_run s t th c cap sp ip y o d xo xd io id :
  executing s t th c → (0 ≤ cap < 2 ^ 32)%Z →
  let k := Z.shiftr cap 20 in
  (k_caps s).[k] = Some y → c_owner y = OwnerSpd o → c_destination y = Some d →
  cap_spds s o d xo xd io id →
  ipc_walk_static_cap t cap sp ip s =
  if resides s c xo
  then Done (c_dest_entry y, Some (t_thread_id th, Z.of_nat o)) (invoked s t th k y d xd io id sp ip)
  else Done (0%Z, None) s.
Proof.
  intros [Ht Hst Hroom (f & Hf & Hc) Hdom Hcl _] Hcap k Hy Ho Hd [Hxo Hlo Hio Hxd Hid].
  unfold ipc_walk_static_cap. fold k. pose proof (zlookup_lt _ _ _ Hy) as Hk. rewrite Hcl in Hk.
  destruct (Z.leb_spec (Z.of_nat MAX_STATIC_CAP) k); [lia|].
  rewrite (bind_run _ _ _ _ _ (get_cap_run _ _ _ Hy)), Ho, Hd.
  rewrite (bind_run _ _ _ _ _ (get_thd_run _ _ _ Ht)).
  rewrite (bind_run _ _ _ _ _ (get_frame_run _ _ _ _ _ Ht Hf)), Hc.
  rewrite (bind_run _ _ _ _ _ (in_composite_run _ _ _ _ Hxo Hlo Hdom)).
  destruct (resides s c xo); [cbn [negb]|done].
  rewrite (bind_run _ _ _ _ _ (get_spd_run _ _ _ Hxd)), (bind_run _ _ _ _ _ (get_spd_run _ _ _ Hxo)).
  rewrite (bind_run _ _ _ _ _ (open_close_run _ _ _ _ _ Hid Hio)).
  set (s1 := switched _ _ s). unfold spd_mpd_ipc_take, spd_mpd_take.
  assert (poly_of s1 (s_composite_spd xd) = Some id) as Hid1 by by rewrite <-Hid; apply poly_of_switched.
  rewrite (bind_run _ _ _ _ _ (upd_poly_run _ _ _ _ Hid1)). set (s2 := put_poly _ _ s1).
  destruct (switched_spds (p_pg_tbl id) (p_pg_tbl io) s) as (Hsp & _ & Hth & Hca).
  destruct (put_poly_rest (s_composite_spd xd) (cos_ref_take id) s1) as (Hth2 & Hca2 & Hsp2).
  destruct (Hsp2 d xd) as (jd & Hxd'); [unfold s1; by rewrite Hsp|].
  assert (k_thds s2 = k_thds s) as Ht2 by by rewrite <-Hth.
  assert (k_caps s2 = k_caps s) as Hc2 by by rewrite <-Hca.
  erewrite bind_run; [|apply (push_run t d s2 th (set_s_info jd xd)); [by rewrite Ht2|done..]].
  erewrite bind_run; [|apply upd_cap_run with (x := y); cbn; by rewrite Hc2].
  unfold invoked. fold s1 s2. cbn. by rewrite Ht2, Hc2.
Qed.

(** C16. An invocation is admitted exactly when the capability named by the
    upper bits of the argument exists, has a destination, and belongs to a
    component that is part of the domain the thread executes in.  Then the
    thread is in the destination, with the return address and one reference to
    the domain on record, the capability counts one more invocation, and the
    processor uses the destination's page table.  Otherwise 0 is returned and
    nothing is changed. *)
Theorem walk_admits s t th c cap sp ip :
  executing s t th c → (0 ≤ cap < 2 ^ 32)%Z →
  let k := Z.shiftr cap 20 in
  (∃ y o d xo xd io id, may_invoke s c k y o d ∧ cap_spds s o d xo xd io id ∧
     ipc_walk_static_cap t cap sp ip s =
       Done (c_dest_entry y, Some (t_thread_id th, Z.of_nat o))
         (invoked s t th k y d xd io id sp ip)) ∨
  ((∀ y o d, ¬ may_invoke s c k y o d) ∧ ipc_walk_static_cap t cap sp ip s = Done (0%Z, None) s).
Proof.
  intros Hex Hcap k. pose proof Hex as [Ht _ _ _ _ Hcl Hsp].
  destruct (k_caps s).[k] as [y|] eqn:Hy.
  - destruct (c_owner y) as [| |o] eqn:Ho; [right..|].
    1-2: split; [intros y' o' d' (? & ? & _); simplify_eq; congruence|].
    1-2: unfold ipc_walk_static_cap; fold k; pose proof (zlookup_lt _ _ _ Hy) as Hk; rewrite Hcl in Hk.
    1-2: destruct (Z.leb_spec (Z.of_nat MAX_STATIC_CAP) k); [done|].
    1-2: by rewrite (bind_run _ _ _ _ _ (get_cap_run _ _ _ Hy)), Ho.
    destruct (c_destination y) as [d|] eqn:Hd.
    + destruct (Hsp _ _ _ _ Hy Ho Hd) as (xo & xd & io & id & Hcs).
      pose proof (walk_run s t th c cap sp ip y o d xo xd io id Hex Hcap Hy Ho Hd Hcs) as Hr.
      destruct (resides s c xo) eqn:Hres; [left|right].
      * exists y, o, d, xo, xd, io, id. split; [|done]. split_and!; try done. exists xo. by destruct Hcs.
      * split; [|done]. intros y' o' d' (? & ? & _ & xo' & Hxo' & Hr'). destruct Hcs. simplify_eq. congruence.
    + right. split; [intros y' o' d' (? & _ & ? & _); simplify_eq; congruence|].
      unfold ipc_walk_static_cap. fold k. pose proof (zlookup_lt _ _ _ Hy) as Hk. rewrite Hcl in Hk.
      destruct (Z.leb_spec (Z.of_nat MAX_STATIC_CAP) k); [done|].
      by rewrite (bind_run _ _ _ _ _ (get_cap_run _ _ _ Hy)), Ho, Hd.
  - right. split; [intros y o d (? & _); congruence|].
    unfold ipc_walk_static_cap. fold k. apply zlookup_None in Hy. rewrite Hcl in Hy.
    assert (0 ≤ k)%Z by (apply Z.shiftr_nonneg; lia).
    destruct (Z.leb_spec (Z.of_nat MAX_STATIC_CAP) k); [done|lia].
Qed.

(** ** Return *)

Lemma put_poly_comm p i T C pt s :
  put_poly p i (set_k_host_pgd pt (set_k_cr3 pt (set_k_caps C (set_k_thds T s)))) =
  set_k_host_pgd pt (set_k_cr3 pt (set_k_caps C (set_k_thds T (put_poly p i s)))).
Proof. by destruct p. Qed.
Lemma poly_of_rest p T C pt pt' s :
  poly_of (set_k_host_pgd pt' (set_k_cr3 pt (set_k_caps C (set_k_thds T s)))) p = poly_of s p.
Proof. by destruct p. Qed.

(** The return from an invocation that pushed frame [g] on [th], in a state
    that is otherwise [s]. *)
Lemma pop_run s t th f g c ic p ip stk T C :
  t < length T → length stk = MAX_SERVICE_DEPTH → (0 ≤ t_stack_ptr th < 30)%Z →
  stk.[t_stack_ptr th] = Some f → f_cspd f = Some c → stk.[t_stack_ptr th + 1] = Some g →
  f_cspd g = Some p → f_ip g ≠ 0%Z → poly_of s c = Some ic → poly_of s p = Some ip →
  (1 < p_ref_cnt ip < 2 ^ 31)%Z →
  pop t (set_k_caps C (set_k_thds
    (<[t := set_t_stack_ptr (t_stack_ptr th + 1) (set_t_stack stk th)]> T) s)) =
  Done (inl (t_stack_ptr th + 1)%Z) (set_k_host_pgd (p_pg_tbl ic) (set_k_cr3 (p_pg_tbl ic)
    (set_k_caps C (set_k_thds (<[t := set_t_stack stk th]> T) (put_poly p (cos_ref_release ip) s))))).
Proof.
  intros Ht Hl Hp Hf Hc Hg Hgp Hgi Hic Hip Hr. unfold pop, thd_invocation_pop, thd_invstk_top.
  change (set_k_caps C (set_k_thds ?L s)) with (set_k_thds L (set_k_caps C s)).
  erewrite bind_run.
  2: { rewrite get_thd_ins by done. cbn [t_stack_ptr set_t_stack_ptr].
       destruct (Z.leb_spec (t_stack_ptr th + 1) 0); [lia|].
       rewrite upd_thd_ins by done. reflexivity. }
  rewrite s16_id by lia. replace (t_stack_ptr th + 1 - 1)%Z with (t_stack_ptr th) by lia.
  set (th1 := set_t_stack_ptr _ _).
  assert (th1 = set_t_stack stk th) as -> by by destruct th.
  set (s1 := set_k_thds _ _).
  assert (k_thds s1 !! t = Some (set_t_stack stk th)) as Hth by by apply list_lookup_insert_eq.
  erewrite bind_run by (rewrite (bind_run _ _ _ _ _ (get_thd_run _ _ _ Hth)); reflexivity).
  cbn [t_stack_ptr set_t_stack]. destruct (Z.ltb_spec (t_stack_ptr th) 0); [lia|].
  erewrite bind_run by reflexivity.
  rewrite (bind_run _ _ _ _ _ (get_frame_run _ _ _ _ _ Hth Hf)), Hc. erewrite bind_run by reflexivity.
  unfold open_close_spd_ret. assert (poly_of s1 c = Some ic) as Hic1 by by destruct c.
  erewrite bind_run by (rewrite (bind_run _ _ _ _ _ (get_poly_run _ _ _ Hic1)); reflexivity).
  set (s2 := set_k_host_pgd _ _).
  rewrite (bind_run _ _ _ _ _ (get_frame_run t _ s2 _ _ Hth Hg)), Hgp. erewrite bind_run by reflexivity.
  assert (poly_of s2 p = Some ip) as Hip2 by by destruct p.
  rewrite (bind_run _ _ _ _ _ (release_run _ _ _ Hip2 Hr)). set (s3 := put_poly _ _ s2).
  assert (k_thds s3 !! t = Some (set_t_stack stk th)) as Hth3
    by (unfold s3; by destruct (put_poly_rest p (cos_ref_release ip) s2) as (-> & _)).
  rewrite (bind_run _ _ _ _ _ (get_frame_run t _ s3 _ _ Hth3 Hg)).
  rewrite (proj2 (Z.eqb_neq _ _) Hgi). unfold mret, M_ret. do 2 f_equal. apply put_poly_comm.
Qed.

(** C20. Call and return: an invocation through a capability of the current
    domain followed by the return from it gives back the address and stack
    pointer that were passed in, and leaves everything as it was, with the
    processor on the page table of the caller's domain; the only traces are
    the invocation count of the capability and the unused part of the stack. *)
Theorem call_return s t th c ic cap sp ip y o d xo xd io id :
  executing s t th c → (0 ≤ cap < 2 ^ 32)%Z →
  let k := Z.shiftr cap 20 in
  (k_caps s).[k] = Some y → c_owner y = OwnerSpd o → c_destination y = Some d →
  cap_spds s o d xo xd io id → resides s c xo = true →
  poly_of s c = Some ic → in_use id → ip ≠ 0%Z →
  let n := (t_stack_ptr th + 1)%Z in
  ∃ s1 stk, ipc_walk_static_cap t cap sp ip s =
      Done (c_dest_entry y, Some (t_thread_id th, Z.of_nat o)) s1 ∧
    pop t s1 = Done (inl n) (set_k_host_pgd (p_pg_tbl ic) (set_k_cr3 (p_pg_tbl ic)
      (set_k_caps ((k_caps s).[k := counted y])
        (set_k_thds (<[t := set_t_stack stk th]> (k_thds s)) s)))) ∧
    stk.[n] = Some (MkFrame (Some (s_composite_spd xd)) (Some d) sp ip) ∧
    ∀ m, m ≠ n → stk.[m] = (t_stack th).[m].
Proof.
  intros Hex Hcap k Hy Ho Hd Hcs Hres Hic Hid Hip n.
  pose proof (walk_run s t th c cap sp ip y o d xo xd io id Hex Hcap Hy Ho Hd Hcs) as Hr.
  rewrite Hres in Hr. destruct Hex as [Ht [Hl Hp] Hroom (f & Hf & Hc) _ _ _].
  destruct Hcs as [_ _ _ _ Hidp]. destruct (zlookup_is_Some (t_stack th) n) as [g0 Hg0];
    [rewrite Hl; change MAX_SERVICE_DEPTH with 31; lia|].
  set (g := MkFrame (Some (s_composite_spd xd)) (Some d) sp ip).
  set (stk := (t_stack th).[n := g]). eexists. exists stk. split; [exact Hr|].
  assert (stk.[n] = Some g) as Hg by by eapply zlookup_zinsert_eq.
  assert (∀ m, m ≠ n → stk.[m] = (t_stack th).[m]) as Hother
    by (intros m Hm; by apply zlookup_zinsert_ne).
  split; [|done]. unfold invoked. fold k.
  set (sw := switched (p_pg_tbl id) (p_pg_tbl io) s).
  set (pd := s_composite_spd xd) in *.
  assert (poly_of sw pd = Some id) as Hidw by by rewrite <-Hidp; apply poly_of_switched.
  assert (∃ ic', poly_of (put_poly pd (cos_ref_take id) sw) c = Some ic' ∧ p_pg_tbl ic' = p_pg_tbl ic)
    as (ic' & Hic' & Hpt).
  { pose proof (poly_of_put_pt sw c pd (cos_ref_take id) id Hidw eq_refl) as He.
    assert (poly_of sw c = Some ic) as Hicw by by rewrite <-Hic; apply poly_of_switched.
    rewrite Hicw in He. cbn in He. by apply fmap_Some in He as (x & ? & ?); eauto. }
  unfold in_use in Hid. unfold pushed. fold n g stk pd.
  rewrite (pop_run (put_poly pd (cos_ref_take id) sw) t th f g c ic' pd (cos_ref_take id) stk); try done.
  - rewrite put_poly_put, take_release, (put_poly_id sw pd id Hidw), Hpt by done.
    f_equal. unfold sw, switched. by destruct (p_pg_tbl io =? p_pg_tbl id)%Z.
  - by eapply lookup_lt_Some.
  - unfold stk. by rewrite length_zinsert.
  - lia.
  - rewrite Hother by lia. done.
  - by eapply poly_of_put.
  - unfold cos_ref_take. cbn [p_ref_cnt set_p_ref_cnt]. rewrite s32_id; lia.
Qed.

(** ** Switching threads *)

(** Thread [t] = [th] runs: the kernel and the pages shared with user level say
    so, the processor and the host use the page table of the domain [i] it is
    in, and of all pages for passing data only its own is mapped. *)
Record running (s : kstate) (t : nat) (th : thread) (i : spd_poly) : Prop := {
  rn_current : k_current s = Some t;
  rn_thd : k_thds s !! t = Some th;
  rn_id : k_ud_thread s = t_thread_id th;
  rn_arg : k_ud_arg s = u32 (t_thread_id th * PAGE_SIZE + COS_INFO_REGION_ADDR);
  rn_dom : ∃ f c, (0 ≤ t_stack_ptr th)%Z ∧ (t_stack th).[t_stack_ptr th] = Some f ∧
    f_cspd f = Some c ∧ poly_of s c = Some i;
  rn_cr3 : k_cr3 s = p_pg_tbl i ∧ k_host_pgd s = p_pg_tbl i;
  rn_mapped : ∃ w, (k_shared_region s).[t_thread_id th] = Some w ∧ has w PG_PRESENT = true;
  rn_others : ∀ id w, id ≠ t_thread_id th → (k_shared_region s).[id] = Some w →
    has w PG_PRESENT = false
}.

Lemma has_present_set w : has (bset w PG_PRESENT) PG_PRESENT = true.
Proof.
  change PG_PRESENT with (2 ^ 0)%Z. rewrite has_testbit by lia. unfold bset.
  rewrite Z.lor_spec. by rewrite orb_true_r.
Qed.
Lemma has_present_clr w : has (bclr w PG_PRESENT) PG_PRESENT = false.
Proof.
  change PG_PRESENT with (2 ^ 0)%Z. rewrite has_testbit by lia. unfold bclr.
  rewrite Z.ldiff_spec. by rewrite andb_false_r.
Qed.

(** The shared region after a switch from the thread with id [a] to [b]. *)
Definition region_switched (R : list Z) (a wa b wb : Z) : list Z :=
  (R.[a := bclr wa PG_PRESENT]).[b := bset wb PG_PRESENT].

Lemma switch_data_run s a b wa wb :
  a ≠ 0%Z → b ≠ 0%Z → a ≠ b →
  (k_shared_region s).[a] = Some wa → (k_shared_region s).[b] = Some wb →
  switch_thread_data a b s = Done tt (set_k_ud_thread b
    (set_k_ud_arg (u32 (b * PAGE_SIZE + COS_INFO_REGION_ADDR))
      (set_k_shared_region (region_switched (k_shared_region s) a wa b wb) s))).
Proof.
  intros Ha Hb Hab Hwa Hwb. unfold switch_thread_data, switch_thread_data_page.
  erewrite bind_run; [reflexivity|].
  destruct (Z.eqb_spec 0 a), (Z.eqb_spec 0 b); try lia. erewrite bind_run by reflexivity.
  rewrite (bind_run _ _ _ _ _ (region_pte_run _ _ _ Hwa)).
  rewrite (bind_run _ _ _ _ _ (put_region_pte_run _ _ _ _ Hwa)).
  set (s1 := set_k_shared_region _ s).
  assert ((k_shared_region s1).[b] = Some wb) as Hwb1 by by cbn; rewrite zlookup_zinsert_ne.
  rewrite (bind_run _ _ _ _ _ (region_pte_run _ _ _ Hwb1)).
  by rewrite (put_region_pte_run _ _ _ _ Hwb1).
Qed.

Lemma spdpoly_run s t th f c :
  k_thds s !! t = Some th → (0 ≤ t_stack_ptr th)%Z →
  (t_stack th).[t_stack_ptr th] = Some f → f_cspd f = Some c →
  thd_get_thd_spdpoly t s = Done (Some c) s.
Proof.
  intros Ht Hp Hf Hc. unfold thd_get_thd_spdpoly, thd_invstk_top.
  erewrite bind_run by (rewrite (bind_run _ _ _ _ _ (get_thd_run _ _ _ Ht)); reflexivity).
  destruct (Z.ltb_spec (t_stack_ptr th) 0); [lia|]. erewrite bind_run by reflexivity.
  by rewrite (bind_run _ _ _ _ _ (get_frame_run _ _ _ _ _ Ht Hf)), Hc.
Qed.

Lemma get_id_run s t th : k_thds s !! t = Some th → thd_get_id t s = Done (t_thread_id th) s.
Proof. intros Ht. unfold thd_get_id. by rewrite (bind_run _ _ _ _ _ (get_thd_run _ _ _ Ht)). Qed.

(** C25. Switching from the thread that runs to another one makes the other one
    the running thread in every respect: current thread, argument region, page
    table, and the only mapped data page.  Threads, components, composites,
    capabilities and memory are not changed. *)
Theorem switch_context_runs s t th i n tn j fn cn wn :
  running s t th i → n ≠ t → k_thds s !! n = Some tn →
  t_thread_id th ≠ 0%Z → t_thread_id tn ≠ 0%Z → t_thread_id th ≠ t_thread_id tn →
  (k_shared_region s).[t_thread_id tn] = Some wn →
  (0 ≤ t_stack_ptr tn)%Z → (t_stack tn).[t_stack_ptr tn] = Some fn →
  f_cspd fn = Some cn → poly_of s cn = Some j →
  ∃ s', switch_thread_context t n s = Done tt s' ∧ running s' n tn j ∧
    k_thds s' = k_thds s ∧ k_spds s' = k_spds s ∧ k_mpds s' = k_mpds s ∧
    k_caps s' = k_caps s ∧ k_mem s' = k_mem s.
Proof.
  intros [Hcur Ht Hid Harg (f & c & Hp & Hf & Hc & Hi) [Hcr Hho] (w & Hw & Hpres) Hoth]
    Hne Hn Hid0 Hidn Hids Hwn Hpn Hfn Hcn Hj.
  unfold switch_thread_context, switch_thread_context_.
  rewrite (bind_run _ _ _ _ _ (spdpoly_run _ _ _ _ _ Ht Hp Hf Hc)).
  erewrite bind_run.
  2: { rewrite (bind_run thd_get_current _ s _ s eq_refl), Hcur.
       rewrite bool_decide_true by congruence. erewrite bind_run by reflexivity.
       rewrite (bind_run _ _ _ _ _ (get_id_run _ _ _ Ht)), (bind_run _ _ _ _ _ (get_id_run _ _ _ Hn)).
       erewrite bind_run by reflexivity. by apply switch_data_run with (wa := w) (wb := wn). }
  set (R := region_switched _ _ _ _ _). set (s1 := set_k_ud_thread _ _).
  rewrite (bind_run _ _ _ _ _ (spdpoly_run s1 n tn fn cn Hn Hpn Hfn Hcn)).
  erewrite bind_run by reflexivity. erewrite bind_run by reflexivity.
  assert (poly_of s1 cn = Some j) as Hj1 by by destruct cn.
  assert (poly_of s1 c = Some i) as Hi1 by by destruct c.
  rewrite (open_close_run _ _ _ _ _ Hj1 Hi1). eexists. split; [reflexivity|].
  destruct (switched_spds (p_pg_tbl j) (p_pg_tbl i) s1) as (-> & -> & Hth & ->).
  assert (k_mem (switched (p_pg_tbl j) (p_pg_tbl i) s1) = k_mem s1) as ->
    by by unfold switched; destruct (_ =? _)%Z.
  split; [|by rewrite Hth].
  assert ((R.[t_thread_id tn]) = Some (bset wn PG_PRESENT)) as HR.
  { unfold R, region_switched. eapply zlookup_zinsert_eq. by rewrite zlookup_zinsert_ne. }
  unfold switched. destruct (Z.eqb_spec (p_pg_tbl i) (p_pg_tbl j)) as [He|He]; split; cbn; try done.
  all: try (exists fn, cn; split_and!; try done; by destruct cn).
  all: try (eexists; split; [exact HR|apply has_present_set]).
  all: try (by rewrite <-He).
  all: intros id w' Hidw Hw'; unfold R, region_switched in Hw'; rewrite zlookup_zinsert_ne in Hw' by done;
     destruct (decide (id = t_thread_id th)) as [->|Hd];
     [erewrite zlookup_zinsert_eq in Hw' by done; injection Hw' as <-; apply has_present_clr
     |rewrite zlookup_zinsert_ne in Hw' by done; by eapply Hoth].
Qed.

(** ** The end of a thread *)

(** The last scheduler of the path through the scheduler hierarchy. *)
Fixpoint leaf (l : list thd_sched_info) (prev : option thd_sched_info) : option thd_sched_info :=
  match l with
  | e :: l' => match ti_scheduler e with Some _ => leaf l' (Some e) | None => prev end
  | [] => prev
  end.

Lemma find_leaf_loop_run s t th l1 l2 prev :
  k_thds s !! t = Some th → t_sched_info th = l1 ++ l2 →
  length (t_sched_info th) = MAX_SCHED_HIER_DEPTH →
  find_leaf_loop t (Z.of_nat (length l1)) (length l2) prev s = Done (leaf l2 prev) s.
Proof.
  intros Ht. revert l1 prev. induction l2 as [|e l2 IH]; intros l1 prev Hl Hlen; [done|].
  cbn [length find_leaf_loop leaf]. rewrite Hl, length_app in Hlen. cbn in Hlen.
  change MAX_SCHED_HIER_DEPTH with 4 in Hlen.
  erewrite bind_run.
  2: { unfold thd_get_sched_info. rewrite u16_id by lia.
       destruct (Z.ltb_spec (Z.of_nat (length l1)) (Z.of_nat MAX_SCHED_HIER_DEPTH)) as [|Hge];
         [|change MAX_SCHED_HIER_DEPTH with 4 in Hge; lia].
       erewrite bind_run by reflexivity. rewrite (bind_run _ _ _ _ _ (get_thd_run _ _ _ Ht)).
       apply bound_Done. split; [|done]. rewrite Hl. apply zlookup_Some. split; [lia|].
       rewrite Nat2Z.id. by apply list_lookup_middle. }
  destruct (ti_scheduler e); [|done].
  replace (Z.of_nat (length l1) + 1)%Z with (Z.of_nat (length (l1 ++ [e])))
    by (rewrite length_app; cbn; lia).
  apply IH; [by rewrite <-app_assoc|]. rewrite Hl, length_app. cbn. done.
Qed.

Lemma find_leaf_run s t th :
  k_thds s !! t = Some th → length (t_sched_info th) = MAX_SCHED_HIER_DEPTH →
  scheduler_find_leaf t s = Done (leaf (t_sched_info th) None) s.
Proof. intros Ht Hl. unfold scheduler_find_leaf. rewrite <-Hl. by apply (find_leaf_loop_run s t th []). Qed.

(** Thread [th] about to enter component [d] = [x] by the upcall [opt], its
    invocation stack forgotten. *)
Definition upcalled (th : thread) (d : nat) (x : spd) (opt a1 a2 a3 : Z) (f : thd_invocation_frame) :
    thread :=
  set_t_stack ((t_stack th).[0 := set_f_spd (Some d) (set_f_cspd (Some (s_composite_spd x)) f)])
    (set_t_stack_ptr 0 (set_t_regs (set_r_ax (t_thread_id th) (set_r_ip (s_upcall_entry x)
      (set_r_dx (s_upcall_entry x) (set_r_cx opt (set_r_si a3 (set_r_di a2 (set_r_bx a1 (t_regs th)))))))) th)).

Lemma upcall_setup_run s t th d x id opt a1 a2 a3 f :
  k_thds s !! t = Some th → k_spds s !! d = Some x → poly_of s (s_composite_spd x) = Some id →
  (t_stack th).[0] = Some f →
  upcall_setup t d opt a1 a2 a3 s = Done t (put_poly (s_composite_spd x) (cos_ref_take id)
    (set_k_thds (<[t := upcalled th d x opt a1 a2 a3 f]> (k_thds s)) s)).
Proof.
  intros Ht Hx Hid Hf. unfold upcall_setup, upcall_setup_regs. pose proof (lookup_lt_Some _ _ _ Ht) as Hlt.
  erewrite bind_run.
  2: { rewrite (bind_run _ _ _ _ _ (get_spd_run _ _ _ Hx)).
       rewrite (bind_run _ _ _ _ _ (get_thd_run _ _ _ Ht)). reflexivity. }
  rewrite upd_thd_ins by done. unfold set_base_frame. set (s1 := set_k_thds _ s).
  erewrite bind_run.
  2: { rewrite (bind_run _ _ _ _ _ (get_spd_run d s1 x Hx)).
       erewrite bind_run by (eapply (get_frame_run t 0 s1); [by apply list_lookup_insert_eq|exact Hf]).
       eapply put_frame_run; [by apply list_lookup_insert_eq|exact Hf]. }
  erewrite bind_run by by apply get_spd_run. unfold spd_mpd_ipc_take, spd_mpd_take.
  set (s2 := set_k_thds _ s1). assert (poly_of s2 (s_composite_spd x) = Some id) as Hid2 by by destruct (s_composite_spd x).
  rewrite (bind_run _ _ _ _ _ (upd_poly_run _ _ _ _ Hid2)). unfold mret, M_ret. f_equal.
  unfold s2, s1. cbn. rewrite list_insert_insert_eq. done.
Qed.

(** The upcall of type [opt] into the innermost scheduler [d] = [x] of [th],
    which executes in the domain [c]. *)
Lemma ret_upcall_run s t th f g c ic e d x id opt :
  k_thds s !! t = Some th → (0 ≤ t_stack_ptr th)%Z →
  (t_stack th).[t_stack_ptr th] = Some g → f_cspd g = Some c → (t_stack th).[0] = Some f →
  poly_of s c = Some ic → (1 < p_ref_cnt ic < 2 ^ 31)%Z →
  length (t_sched_info th) = MAX_SCHED_HIER_DEPTH →
  leaf (t_sched_info th) None = Some e → ti_scheduler e = Some d → k_spds s !! d = Some x →
  poly_of s (s_composite_spd x) = Some id → s_composite_spd x ≠ c →
  thd_ret_upcall_type t opt s = Done (Regs t) (switched (p_pg_tbl id) (p_pg_tbl ic)
    (put_poly (s_composite_spd x) (cos_ref_take id)
      (set_k_thds (<[t := upcalled th d x opt 0 0 0 f]> (k_thds s))
        (put_poly c (cos_ref_release ic) s)))).
Proof.
  intros Ht Hp Hg Hc Hf Hic Hr Hsl Hle Hsch Hx Hid Hne. unfold thd_ret_upcall_type.
  rewrite (bind_run _ _ _ _ _ (spdpoly_run s t th g c Ht Hp Hg Hc)).
  erewrite bind_run by reflexivity. erewrite bind_run by reflexivity.
  rewrite (bind_run _ _ _ _ _ (release_run _ _ _ Hic Hr)). set (s1 := put_poly c (cos_ref_release ic) s).
  destruct (put_poly_rest c (cos_ref_release ic) s) as (Ht1 & _ & Hs1). fold s1 in Ht1, Hs1.
  destruct (Hs1 d x Hx) as (j1 & Hx1). rewrite <-Ht1 in Ht. pose proof (lookup_lt_Some _ _ _ Ht) as Hlt.
  assert (poly_of s1 (s_composite_spd x) = Some id) as Hid1 by by unfold s1; rewrite poly_of_put_ne.
  rewrite (bind_run _ _ _ _ _ (find_leaf_run s1 t th Ht Hsl)), Hle. erewrite bind_run by reflexivity.
  rewrite Hsch. erewrite bind_run by reflexivity.
  rewrite (bind_run _ _ _ _ _ (upcall_setup_run s1 t th d (set_s_info j1 x) id opt 0 0 0 f Ht Hx1 Hid1 Hf)).
  cbn [s_composite_spd set_s_info]. rewrite <-Ht1.
  change (upcalled th d (set_s_info j1 x) opt 0 0 0 f) with (upcalled th d x opt 0 0 0 f).
  set (s2 := put_poly (s_composite_spd x) _ _).
  assert (poly_of s2 (s_composite_spd x) = Some (cos_ref_take id)) as Hid2.
  { unfold s2. eapply poly_of_put. by destruct (s_composite_spd x). }
  assert (poly_of s2 c = Some (cos_ref_release ic)) as Hic2.
  { unfold s2. rewrite poly_of_put_ne by done.
    replace (poly_of (set_k_thds _ s1) c) with (poly_of s1 c) by by destruct c. by eapply poly_of_put. }
  assert (k_thds s2 !! t = Some (upcalled th d x opt 0 0 0 f)) as Ht2.
  { unfold s2. destruct (put_poly_rest (s_composite_spd x) (cos_ref_take id)
      (set_k_thds (<[t := upcalled th d x opt 0 0 0 f]> (k_thds s1)) s1)) as (-> & _).
    by apply list_lookup_insert_eq. }
  unfold upcall_execute_compat, upcall_execute. erewrite bind_run; [reflexivity|].
  erewrite bind_run by (eapply (get_frame_run t 0 s2); [exact Ht2|by eapply zlookup_zinsert_eq]).
  cbn [f_cspd set_f_spd set_f_cspd]. erewrite bind_run; [reflexivity|].
  rewrite decide_False by congruence. erewrite bind_run by reflexivity. erewrite bind_run by reflexivity.
  by rewrite (open_close_run _ _ _ _ _ Hid2 Hic2).
Qed.

(** When a thread returns from the component it started in, it enters its
    innermost scheduler with the request to be destroyed: at the scheduler's
    upcall address, as the only component on its call path, with its reference
    to the component's domain dropped and one to the scheduler's domain taken,
    and on the scheduler's page table. *)
Theorem return_terminates s t th i f c ic e d x id :
  running s t th i → t_stack_ptr th = 0%Z →
  has (t_flags th) THD_STATE_READY_UPCALL = false →
  (t_stack th).[0] = Some f → f_cspd f = Some c → poly_of s c = Some ic →
  (1 < p_ref_cnt ic < 2 ^ 31)%Z → length (t_sched_info th) = MAX_SCHED_HIER_DEPTH →
  leaf (t_sched_info th) None = Some e → ti_scheduler e = Some d → k_spds s !! d = Some x →
  poly_of s (s_composite_spd x) = Some id → s_composite_spd x ≠ c →
  ∃ s', pop t s = Done (inr (Regs t)) s' ∧
    k_thds s' = <[t := upcalled th d x COS_UPCALL_DESTROY 0 0 0 f]> (k_thds s) ∧
    poly_of s' c = Some (cos_ref_release ic) ∧
    poly_of s' (s_composite_spd x) = Some (cos_ref_take id) ∧ k_cr3 s' = p_pg_tbl id.
Proof.
  intros [_ Ht _ _ (f' & c' & _ & Hf' & Hc' & Hi) [Hcr _] _ _] H0 Hfl Hf Hc Hic Hr Hsl Hle Hsch Hx Hid Hne.
  rewrite H0, Hf in Hf'. injection Hf' as <-. rewrite Hc in Hc'. injection Hc' as <-.
  rewrite Hic in Hi. injection Hi as <-. pose proof (lookup_lt_Some _ _ _ Ht) as Hlt.
  unfold pop, thd_invocation_pop.
  erewrite bind_run by (rewrite (bind_run _ _ _ _ _ (get_thd_run _ _ _ Ht)), H0; reflexivity).
  cbv beta iota. rewrite (bind_run _ _ _ _ _ (get_thd_run _ _ _ Ht)), Hfl. erewrite bind_run by reflexivity.
  unfold thd_ret_term_upcall.
  rewrite (bind_run _ _ _ _ _ (ret_upcall_run s t th f f c ic e d x id COS_UPCALL_DESTROY Ht
    ltac:(lia) ltac:(by rewrite H0) Hc Hf Hic Hr Hsl Hle Hsch Hx Hid Hne)).
  eexists. split; [reflexivity|]. set (s1 := put_poly c _ s). set (s2 := put_poly (s_composite_spd x) _ _).
  destruct (switched_spds (p_pg_tbl id) (p_pg_tbl ic) s2) as (_ & _ & -> & _).
  rewrite !poly_of_switched. split_and!.
  - unfold s2. by destruct (s_composite_spd x).
  - unfold s2. rewrite poly_of_put_ne by done.
    replace (poly_of (set_k_thds _ s1) c) with (poly_of s1 c) by by destruct c. by eapply poly_of_put.
  - unfold s2. eapply poly_of_put with (j := id). rewrite <-Hid. transitivity (poly_of s1 (s_composite_spd x));
      [by destruct (s_composite_spd x)|by apply poly_of_put_ne].
  - assert (k_cr3 s2 = p_pg_tbl ic) as Hcr2
      by (rewrite <-Hcr; unfold s2, s1; by destruct (s_composite_spd x), c).
    unfold switched. destruct (Z.eqb_spec (p_pg_tbl ic) (p_pg_tbl id)); [congruence|done].
Qed.

(** ** Examples *)

Lemma padded_lookup {A} (l : list A) n x i y :
  (l ++ replicate n x) !! i = Some y → l !! i = Some y ∨ length l ≤ i ∧ y = x.
Proof.
  intros [?|[? (-> & _)%lookup_replicate]]%lookup_app_Some; [by left|by right].
Qed.

(** Thread 0 runs in component 2, which has capability 1, to component 1. *)
Definition ipc_cap : invocation_cap := MkCap (OwnerSpd 2) (Some 1) 7 IL_SDT 5000 stubs0.
Definition ipc_demo : kstate :=
  set_k_caps ([cap0; ipc_cap] ++ replicate 1022 cap0)
    (set_k_ud_thread 1 (set_k_ud_arg (u32 (PAGE_SIZE + COS_INFO_REGION_ADDR))
      (set_k_shared_region ([0; 8231; 12326]%Z ++ replicate 1021 0%Z) td_demo))).

Lemma ipc_poly j : j < 3 → poly_of ipc_demo (PolyMpd j) = Some (m_info (td_mpd j)).
Proof. intros Hj. destruct j as [|[|[|j]]]; [reflexivity..|lia]. Qed.

Lemma ipc_domain j : j < 3 → domain_mapped ipc_demo (PolyMpd j).
Proof.
  intros Hj. exists (m_info (td_mpd j)), td_page. split; [by apply ipc_poly|].
  destruct j as [|[|[|j]]]; [split; vm_compute; reflexivity..|lia].
Qed.

Lemma ipc_spds : cap_spds ipc_demo 2 1 (td_spd 2) (td_spd 1) (m_info (td_mpd 2)) (m_info (td_mpd 1)).
Proof. split; reflexivity. Qed.

Lemma ipc_executing : executing ipc_demo 0 td_thread (PolyMpd 2).
Proof.
  split; [reflexivity|exact td_stack_ok|by vm_compute|eexists; split; reflexivity
         |apply ipc_domain; lia|reflexivity|].
  intros k y o d Hy Ho Hd. apply zlookup_Some in Hy as [_ Hy].
  apply (padded_lookup [cap0; ipc_cap]) in Hy as [Hy|[_ ->]]; [|discriminate Ho].
  destruct (Z.to_nat k) as [|[|n]]; [injection Hy as <-; discriminate Ho| |discriminate Hy].
  injection Hy as <-. injection Ho as <-. injection Hd as <-. do 4 eexists. exact ipc_spds.
Qed.

Lemma walk_admits_witness : ∃ r s',
  ipc_walk_static_cap 0 (2 ^ 20) 70 80 ipc_demo = Done r s'.
Proof.
  destruct (walk_admits ipc_demo 0 td_thread (PolyMpd 2) (2 ^ 20) 70 80 ipc_executing)
    as [(y & o & d & xo & xd & io & id & _ & _ & Hr)|[_ Hr]]; [lia|eauto..].
Defined.

Lemma call_return_witness : ∃ s1 s2,
  ipc_walk_static_cap 0 (2 ^ 20) 70 80 ipc_demo = Done (5000%Z, Some (1, 2)%Z) s1 ∧
  pop 0 s1 = Done (inl 3%Z) s2 ∧ k_cr3 s2 = 12288%Z ∧ k_mpds s2 = k_mpds ipc_demo.
Proof.
  destruct (call_return ipc_demo 0 td_thread (PolyMpd 2) (m_info (td_mpd 2)) (2 ^ 20) 70 80
    ipc_cap 2 1 (td_spd 2) (td_spd 1) (m_info (td_mpd 2)) (m_info (td_mpd 1)) ipc_executing)
    as (s1 & stk & H1 & H2 & _).
  - lia.
  - reflexivity.
  - reflexivity.
  - reflexivity.
  - exact ipc_spds.
  - reflexivity.
  - reflexivity.
  - split; by vm_compute.
  - lia.
  - eexists _, _. split; [exact H1|]. split; [exact H2|]. split; reflexivity.
Defined.

Lemma ipc_running : running ipc_demo 0 td_thread (m_info (td_mpd 2)).
Proof.
  split; try reflexivity.
  - eexists _, _. split_and!; [by vm_compute|reflexivity|reflexivity|reflexivity].
  - split; reflexivity.
  - exists 8231%Z. split; reflexivity.
  - intros id v Hid Hv. apply zlookup_Some in Hv as [Hp Hv].
    apply (padded_lookup [0; 8231; 12326]%Z) in Hv as [Hv|[_ ->]]; [|reflexivity].
    change (t_thread_id td_thread) with 1%Z in Hid.
    destruct (Z.to_nat id) as [|[|[|n]]] eqn:E; [by injection Hv as <-|lia|by injection Hv as <-|discriminate Hv].
Qed.

Lemma switch_context_runs_witness : ∃ s',
  switch_thread_context 0 1 ipc_demo = Done tt s' ∧ running s' 1 td_thread2 (m_info (td_mpd 0)).
Proof.
  destruct (switch_context_runs ipc_demo 0 td_thread (m_info (td_mpd 2)) 1 td_thread2 (m_info (td_mpd 0))
    (MkFrame (Some (PolyMpd 0)) (Some 0) 0 0) (PolyMpd 0) 12326 ipc_running)
    as (s' & Hr & Hrun & _); [by vm_compute..|].
  exists s'. split; [exact Hr|exact Hrun].
Defined.

(** Thread 1 runs in component 0, with component 1 as its scheduler. *)
Definition term_thread : thread :=
  set_t_sched_info (MkTsi (Some 1) None 0 :: replicate 3 tsi0) td_thread2.
Definition term_demo : kstate :=
  set_k_thds (<[1 := term_thread]> (k_thds td_demo))
    (set_k_current (Some 1) (set_k_cr3 4096 (set_k_host_pgd 4096
      (set_k_ud_thread 2 (set_k_ud_arg (u32 (2 * PAGE_SIZE + COS_INFO_REGION_ADDR))
        (set_k_shared_region ([0; 0; 12327]%Z ++ replicate 1021 0%Z) td_demo)))))).

Lemma term_running : running term_demo 1 term_thread (m_info (td_mpd 0)).
Proof.
  split; try reflexivity.
  - eexists _, _. split_and!; [by vm_compute|reflexivity|reflexivity|reflexivity].
  - split; reflexivity.
  - exists 12327%Z. split; reflexivity.
  - intros id v Hid Hv. apply zlookup_Some in Hv as [Hp Hv]. change (t_thread_id term_thread) with 2%Z in Hid.
    apply (padded_lookup [0; 0; 12327]%Z) in Hv as [Hv|[_ ->]]; [|reflexivity].
    destruct (Z.to_nat id) as [|[|[|n]]] eqn:E; [by injection Hv as <-..|lia|discriminate Hv].
Qed.

Lemma return_terminates_witness : ∃ s', pop 1 term_demo = Done (inr (Regs 1)) s' ∧ k_cr3 s' = 8192%Z.
Proof.
  destruct (return_terminates term_demo 1 term_thread (m_info (td_mpd 0)) (MkFrame (Some (PolyMpd 0)) (Some 0) 0 0)
    (PolyMpd 0) (m_info (td_mpd 0)) (MkTsi (Some 1) None 0) 1 (td_spd 1) (m_info (td_mpd 1)) term_running)
    as (s' & Hr & _ & _ & _ & Hcr); try reflexivity.
  - split; by vm_compute.
  - done.
  - exists s'. split; [exact Hr|exact Hcr].
Defined.
