(* ===== verification/Sched.v ===== *)
(** * Scheduling (inv.c)

    The kernel has no scheduling policy: schedulers are components, in a
    hierarchy of at most four levels.  A scheduler and the kernel share a page
    (the scheduler names the next thread there, the kernel queues its events).
    This file has the thread switch system call, the chain of threads that
    preempted each other, the events, the decision whether an upcall preempts
    the running thread, the upcalls for brands, and [cos_syscall_sched_cntl].

    The shared page is reached in two ways: through its address in the
    scheduler ([sched_shared_page]), with the page table the processor
    uses at that moment, and through its address in the kernel.
    [host_can_switch_pgtbls()] of the host is an argument. *)

From stdpp Require Import base list numbers option gmap.
From S2P Require Import Prelude Kern PageMem Mpd Thread Ipc.

(** ** Constants *)

Definition COS_SCHED_TAILCALL : Z := 1.
Definition COS_SCHED_SYNC_BLOCK : Z := 2.
Definition COS_SCHED_SYNC_UNBLOCK : Z := 4.
Definition COS_SCHED_BRAND_WAIT : Z := 128.
Definition COS_SCHED_CHILD_EVT : Z := 16.

Definition COS_SCHED_RET_SUCCESS : Z := 0.
Definition COS_SCHED_RET_ERROR : Z := -1.
Definition COS_SCHED_RET_INVAL : Z := -2.
Definition COS_SCHED_RET_AGAIN : Z := 1.
Definition COS_SCHED_RET_CEVT : Z := 2.

Definition COS_SCHED_EVT_BRAND_ACTIVE : Z := 4.
Definition COS_SCHED_EVT_BRAND_READY : Z := 8.
Definition COS_SCHED_EVT_BRAND_PEND : Z := 16.
Definition COS_SCHED_EVT_NIL : Z := 32.

(** ** The shared page *)

(** A scheduler's data area by the kernel address of its page. *)
Definition get_da (k : Z) : K cos_sched_data_area := m ← gets k_sdas; bound (m !! k).
Definition put_da (k : Z) (da : cos_sched_data_area) : K unit :=
  modify (λ s, set_k_sdas (<[k := da]> (k_sdas s)) s).
Definition upd_da (k : Z) (f : cos_sched_data_area → cos_sched_data_area) : K unit :=
  da ← get_da k; put_da k (f da).

(** The data area at the user-level address [v]: a fault where the current page
    table does not map it. *)
Definition user_da (v : Z) : K Z :=
  cr3 ← gets k_cr3;
  k ← pgtbl_vaddr_to_kaddr cr3 v;
  if (k =? 0)%Z then fail OutOfBounds else mret k.

(** ** Preemption chains *)

Definition remove_preempted_status (thd : nat) : K unit :=
  t ← get_thd thd;
  match t_preempter t with
  | Some p =>
      let i := t_interrupted t in
      x ← get_thd p;
      assert (bool_decide (t_interrupted x = Some thd));;
      upd_thd p (set_t_interrupted None);;
      match i with Some i => upd_thd i (set_t_preempter None) | None => mret tt end;;
      upd_thd thd (set_t_preempter None);;
      upd_thd thd (set_t_interrupted None)
  | None => mret tt
  end;;
  upd_thd thd (λ t, set_t_flags (bclr (t_flags t) THD_STATE_PREEMPTED) t).

Definition break_preemption_chain (t : nat) : K unit :=
  x ← get_thd t;
  match t_interrupted x with
  | Some other =>
      o ← get_thd other;
      assert (bool_decide (t_preempter o = Some t));;
      upd_thd t (set_t_interrupted None);;
      upd_thd other (set_t_preempter None)
  | None => mret tt
  end;;
  x ← get_thd t;
  match t_preempter x with
  | Some other =>
      o ← get_thd other;
      assert (bool_decide (t_interrupted o = Some t));;
      upd_thd t (set_t_preempter None);;
      upd_thd other (set_t_interrupted None)
  | None => mret tt
  end.

(** ** Events *)

Definition update_evt_list (tsi : thd_sched_info) : K Z :=
  assert (bool_decide (ti_scheduler tsi ≠ None));;
  sched ← deref (ti_scheduler tsi);
  x ← get_spd sched;
  assert (negb (s_kern_sched_shared_page x =? 0)%Z);;
  let k := s_kern_sched_shared_page x in
  upd_da k (set_sd_next_thd_id 0);;
  upd_da k (set_sd_pending_event 1);;
  let prev_evt := s_prev_notification x in
  let this_evt := u16 (ti_offset tsi) in
  if (Z.of_nat NUM_SCHED_EVTS <=? prev_evt)%Z || (Z.of_nat NUM_SCHED_EVTS <=? this_evt)%Z
     || (this_evt =? 0)%Z then mret (-1)%Z else
  e ← get_evt (k, this_evt);
  (if negb (prev_evt =? this_evt)%Z && (ev_next e =? 0)%Z then
     p ← get_evt (k, prev_evt);
     put_evt (k, prev_evt) (set_ev_next (u8 this_evt) p);;
     upd_spd sched (set_s_prev_notification this_evt)
   else mret tt);;
  mret 0%Z.

(** [elapsed] cycles more, without overflow. *)
Definition add_cycles (elapsed : Z) (e : cos_sched_events) : cos_sched_events :=
  let p := ev_cpu e in
  let n := u32 (p + elapsed) in
  set_ev_cpu (if (n <? p)%Z then 2 ^ 32 - 1 else n)%Z e.

(** The loop of [update_thd_evt_state] from depth [i] on, [n] depths left. *)
Fixpoint evt_state_loop (t : nat) (flags elapsed : Z) (i : Z) (n : nat) : K unit :=
  match n with
  | O => mret tt
  | S n' =>
      tsi ← thd_get_sched_info t i;
      match ti_scheduler tsi with
      | None => mret tt
      | Some _ =>
          match ti_notifications tsi with
          | Some se =>
              when (negb (elapsed =? 0)%Z)
                (e ← get_evt se; put_evt se (add_cycles elapsed e));;
              when (negb (flags =? COS_SCHED_EVT_NIL)%Z)
                (e ← get_evt se; put_evt se (set_ev_flags (u8 flags) e));;
              _ ← update_evt_list tsi;
              mret tt
          | None => mret tt
          end;;
          evt_state_loop t flags elapsed (i + 1) n'
      end
  end.

Definition update_thd_evt_state (t : nat) (flags elapsed : Z) : K unit :=
  evt_state_loop t flags elapsed 0 MAX_SCHED_HIER_DEPTH.

Definition update_sched_evts (new : nat) (new_flags : Z) (prev : nat) (prev_flags : Z) : K unit :=
  n ← get_thd new;
  p ← get_thd prev;
  elapsed ← (if has (Z.lor (t_flags n) (t_flags p)) THD_STATE_CYC_CNT then
               last ← gets k_cycle_cnt;
               c ← rdtscl;
               modify (set_k_cycle_cnt c);;
               mret (u32 (c - last))
             else mret 0%Z);
  when (negb (new_flags =? COS_SCHED_EVT_NIL)%Z) (update_thd_evt_state new new_flags 0);;
  when (negb (elapsed =? 0)%Z || negb (prev_flags =? COS_SCHED_EVT_NIL)%Z)
    (update_thd_evt_state prev prev_flags elapsed).

(** ** Urgencies *)

(** The loop from depth [i] on, [n] depths left. *)
Fixpoint common_depth_loop (t1 t2 : nat) (i : Z) (n : nat) : K Z :=
  match n with
  | O => mret (Z.of_nat MAX_SCHED_HIER_DEPTH - 1)%Z
  | S n' =>
      s1 ← thd_get_depth_sched t1 i;
      s2 ← thd_get_depth_sched t2 i;
      if bool_decide (s1 = None) || bool_decide (s1 ≠ s2) then mret (i - 1)%Z
      else common_depth_loop t1 t2 (i + 1) n'
  end.

Definition most_common_sched_depth (t1 t2 : nat) : K Z :=
  s1 ← thd_get_depth_sched t1 0;
  s2 ← thd_get_depth_sched t2 0;
  assert (bool_decide (s1 = s2));;
  common_depth_loop t1 t2 1 (MAX_SCHED_HIER_DEPTH - 1).

Definition brand_higher_urgency (upcall prev : nat) : K Z :=
  u ← get_thd upcall;
  assert (bool_decide (t_thread_brand u ≠ None) && has (t_flags u) THD_STATE_UPCALL);;
  d ← most_common_sched_depth upcall prev;
  pt ← thd_get_sched_info prev d;
  if bool_decide (ti_notifications pt = None) then
    ut ← thd_get_sched_info upcall d;
    mret (if bool_decide (ti_notifications ut = None) then 0 else 1)%Z
  else
  u_urg ← thd_get_depth_urg upcall d;
  p_urg ← thd_get_depth_urg prev d;
  if (u_urg <? p_urg)%Z then
    update_sched_evts upcall COS_SCHED_EVT_BRAND_ACTIVE prev COS_SCHED_EVT_NIL;;
    mret 1%Z
  else
    update_thd_evt_state upcall COS_SCHED_EVT_BRAND_ACTIVE 1;;
    mret 0%Z.

(** ** Upcalls for brands *)

Definition set_flags (t : nat) (f : Z → Z) : K unit :=
  upd_thd t (λ x, set_t_flags (f (t_flags x)) x).
Definition set_ax (t : nat) (v : Z) : K unit :=
  upd_thd t (λ x, set_t_regs (set_r_ax v (t_regs x)) x).

(** [preempt]: 0, 1 or 2 as the caller wants the preemption recorded. *)
Definition brand_next_thread (can_switch : bool) (brand preempted : nat) (preempt : Z) : K nat :=
  b ← get_thd brand;
  assert (has (t_flags b) (Z.lor THD_STATE_BRAND THD_STATE_HW_BRAND));;
  assert (bool_decide (t_upcall_threads b ≠ None));;
  upcall ← deref (t_upcall_threads b);
  u ← get_thd upcall;
  assert (bool_decide (t_thread_brand u = Some brand));;
  if has (t_flags u) THD_STATE_ACTIVE_UPCALL then
    assert (negb (has (t_flags u) THD_STATE_READY_UPCALL));;
    upd_thd brand (λ b, set_t_pending (u32 (t_pending b + 1)) b);;
    mret preempted
  else
  assert (has (t_flags u) THD_STATE_READY_UPCALL);;
  set_flags upcall (λ f, bset f THD_STATE_ACTIVE_UPCALL);;
  set_flags upcall (λ f, bclr f THD_STATE_READY_UPCALL);;
  higher ← brand_higher_urgency upcall preempted;
  p ← get_thd preempted;
  if negb (higher =? 0)%Z then
    if has (t_flags p) THD_STATE_PREEMPTED then mret preempted else
    if bool_decide (t_preempter p ≠ None) then mret preempted else
    (if negb (preempt =? 0)%Z then
       assert (negb (has (t_flags p) THD_STATE_PREEMPTED));;
       assert (bool_decide (t_preempter p = None));;
       when (preempt =? 1)%Z (set_flags preempted (λ f, bset f THD_STATE_PREEMPTED));;
       upd_thd preempted (set_t_preempter (Some upcall));;
       upd_thd upcall (set_t_interrupted (Some preempted))
     else upd_thd upcall (set_t_interrupted None));;
    (if can_switch then
       n ← thd_get_thd_spdpoly upcall;
       o ← thd_get_thd_spdpoly preempted;
       upcall_execute upcall n (Some preempted) o
     else upcall_execute_no_vas_switch upcall (Some preempted));;
    u ← get_thd upcall;
    b ← deref (t_thread_brand u);
    b ← get_thd b;
    set_ax upcall (t_pending b);;
    mret upcall
  else
    when (has (t_flags p) THD_STATE_ACTIVE_UPCALL) (break_preemption_chain preempted);;
    mret preempted.

Definition sched_tailcall_pending_upcall_thd (uc : nat) (curr : option polyp) : K nat :=
  u ← get_thd uc;
  assert (bool_decide (t_thread_brand u ≠ None));;
  brand ← deref (t_thread_brand u);
  b ← get_thd brand;
  assert (0 <? t_pending b)%Z;;
  assert (has (t_flags u) THD_STATE_ACTIVE_UPCALL && negb (has (t_flags u) THD_STATE_READY_UPCALL));;
  upd_thd brand (λ b, set_t_pending (u32 (t_pending b - 1)) b);;
  cspd ← thd_get_thd_spdpoly uc;
  _ ← upcall_execute uc cspd None curr;
  set_ax uc 0;;
  mret uc.

Definition sched_tailcall_pending_upcall (uc : nat) (curr : option polyp) : K regs_ptr :=
  t ← sched_tailcall_pending_upcall_thd uc curr; mret (Regs t).

Definition brand_completion_switch_to (curr prev : nat) : K unit :=
  break_preemption_chain curr;;
  set_flags curr (λ f, bclr f THD_STATE_ACTIVE_UPCALL);;
  set_flags curr (λ f, bset f THD_STATE_READY_UPCALL);;
  switch_thread_context curr prev;;
  p ← get_thd prev;
  when (has (t_flags p) THD_STATE_PREEMPTED) (remove_preempted_status prev);;
  update_sched_evts prev COS_SCHED_EVT_NIL curr COS_SCHED_EVT_BRAND_READY.

(** The loop over the schedulers of the brand, from depth [i] on. *)
Fixpoint brand_leaf_loop (brand : nat) (prev : thd_sched_info) (i : Z) (n : nat) : K thd_sched_info :=
  match n with
  | O => mret prev
  | S n' =>
      tsi ← thd_get_sched_info brand i;
      match ti_scheduler tsi with
      | None => mret prev
      | Some _ => brand_leaf_loop brand tsi (i + 1) n'
      end
  end.

(** The result is what to restore and [*preempt]. *)
Definition brand_execution_completion (curr : nat) : K (regs_ptr * Z) :=
  cspd ← thd_get_thd_spdpoly curr;
  t ← get_thd curr;
  assert (has (t_flags t) THD_STATE_ACTIVE_UPCALL && negb (has (t_flags t) THD_STATE_READY_UPCALL));;
  assert (bool_decide (t_thread_brand t ≠ None) && bool_decide (cspd ≠ None));;
  brand ← deref (t_thread_brand t);
  b ← get_thd brand;
  if negb (t_pending b =? 0)%Z then
    r ← sched_tailcall_pending_upcall curr cspd; mret (r, 0%Z)
  else
  match t_interrupted t with
  | None =>
      tsi ← thd_get_sched_info brand 0;
      assert (bool_decide (ti_scheduler tsi ≠ None));;
      tsi ← brand_leaf_loop brand tsi 1 (MAX_SCHED_HIER_DEPTH - 1);
      dest ← deref (ti_scheduler tsi);
      _ ← upcall_inv_setup curr dest COS_UPCALL_BRAND_COMPLETE 0 0 0;
      d ← get_spd dest;
      _ ← upcall_execute curr (Some (s_composite_spd d)) None cspd;
      mret (Regs curr, 0%Z)
  | Some prev =>
      brand_completion_switch_to curr prev;;
      mret (Regs prev, 1%Z)
  end.

(** [preempt] is what [*preempt] holds before, which the error path leaves. *)
Definition cos_syscall_brand_wait_cont (spd_id bid preempt : Z) : K (regs_ptr * Z) :=
  curr ← thd_get_current;
  curr ← deref curr;
  curr_spd ← thd_validate_get_current_spd curr spd_id;
  let err := set_ax curr (u32 (-1));; mret (Regs curr, preempt) in
  match curr_spd, thd_get_by_id (u16 bid) with
  | Some curr_spd, Some brand =>
      t ← get_thd curr;
      if bool_decide (Some brand ≠ t_thread_brand t) then err else
      i ← thd_invstk_top brand;
      i ← deref i;
      f ← get_frame brand i;
      if bool_decide (Some curr_spd ≠ f_spd f) then err else
      brand_execution_completion curr
  | _, _ => err
  end.

Definition cos_syscall_brand_upcall_cont (can_switch : bool) (spd_id thread_id_flags arg1 arg2 : Z) :
    K regs_ptr :=
  let thread_id := s16 (Z.shiftr thread_id_flags 16) in
  curr ← thd_get_current;
  curr ← deref curr;
  curr_spd ← thd_validate_get_current_spd curr spd_id;
  let err := set_ax curr (u32 (-1));; mret (Regs curr) in
  match curr_spd, thd_get_by_id thread_id with
  | Some _, Some brand =>
      b ← get_thd brand;
      if negb (has (t_flags b) THD_STATE_BRAND) || bool_decide (t_upcall_threads b = None) then err else
      next ← brand_next_thread can_switch brand curr 2;
      (if decide (next = curr) then set_ax curr 0
       else
         upd_thd next (λ t, set_t_regs (set_r_di arg2 (set_r_bx arg1 (t_regs t))) t);;
         set_ax curr 1);;
      mret (Regs next)
  | _, _ => err
  end.

(** ** Switching threads *)

Definition sched_tailcall_adjust_invstk (t : nat) : K Z :=
  x ← get_thd t;
  assert (has (t_flags x) THD_STATE_ACTIVE_UPCALL && bool_decide (t_thread_brand x ≠ None));;
  tif ← thd_invocation_pop t;
  assert (bool_decide (tif ≠ None));;
  tif ← deref tif;
  f ← get_frame t tif;
  upd_thd t (λ x, set_t_regs (set_r_ip (f_ip f) (set_r_dx (f_ip f)
    (set_r_sp (f_sp f) (set_r_cx (f_sp f) (t_regs x))))) x);;
  ntif ← thd_invstk_top t;
  match ntif with
  | None => mret (-1)%Z
  | Some n =>
      nf ← get_frame t n;
      nspd ← deref (f_cspd nf);
      cspd ← deref (f_cspd f);
      open_close_spd nspd cspd;;
      spd_mpd_ipc_release cspd;;
      s ← deref (f_spd f);
      mret (Z.of_nat s)
  end.

(** The thread to switch to (0: none) and [*ret_code]. *)
Definition switch_thread_parse_data_area (da : Z) (ret_code : Z) : K (Z * Z) :=
  k ← user_da da;
  d ← get_da k;
  if negb (sd_pending_event d =? 0)%Z then mret (0%Z, COS_SCHED_RET_AGAIN) else
  if negb (sd_pending_cevt d =? 0)%Z then mret (0%Z, COS_SCHED_RET_CEVT) else
  put_da k (set_sd_next_thd_id 0 d);;
  if (sd_next_thd_id d =? 0)%Z then mret (0%Z, COS_SCHED_RET_AGAIN) else
  mret (sd_next_thd_id d, ret_code).

Definition switch_thread_get_target (tid : Z) (curr curr_spd : nat) (ret_code : Z) :
    K (option nat * Z) :=
  match thd_get_by_id tid with
  | None => mret (None, if (tid =? 0)%Z then COS_SCHED_RET_AGAIN else COS_SCHED_RET_INVAL)
  | Some thd =>
      if decide (thd = curr) then mret (None, COS_SCHED_RET_AGAIN) else
      c ← thd_scheduled_by curr curr_spd;
      ok ← (if (c : bool) then thd_scheduled_by thd curr_spd else mret false);
      if negb ok then mret (None, COS_SCHED_RET_ERROR) else
      t ← get_thd thd;
      if has (t_flags t) THD_STATE_READY_UPCALL then mret (None, COS_SCHED_RET_INVAL)
      else mret (Some thd, ret_code)
  end.

Definition switch_thread_update_flags (da : Z) (flags : Z) : K Z :=
  k ← user_da da;
  d ← get_da k;
  mret (if has (sd_next_thd_flags d) COS_SCHED_CHILD_EVT
        then bset flags COS_SCHED_CHILD_EVT else bclr flags COS_SCHED_CHILD_EVT).

(** The result of the slow path: the thread, [*ret_code] and [*curr_flags]. *)
Record slow_result : Type := MkSlow {
  sl_thd : nat;
  sl_ret : Z;
  sl_flags : Z
}.

(** The end of an upcall: [inl] goes on, with new flags; [inr] returns. *)
Definition slow_tailcall (curr : nat) (flags : Z) (curr_spd : nat) (ret_code curr_flags : Z) :
    K (Z + slow_result) :=
  c ← get_thd curr;
  if negb (has (t_flags c) THD_STATE_ACTIVE_UPCALL) then mret (inr (MkSlow curr ret_code curr_flags)) else
  assert (negb (has (t_flags c) THD_STATE_READY_UPCALL));;
  if has flags (Z.lor COS_SCHED_SYNC_BLOCK COS_SCHED_SYNC_UNBLOCK)
  then mret (inr (MkSlow curr ret_code curr_flags)) else
  ok ← (if has flags COS_SCHED_TAILCALL then
          i ← sched_tailcall_adjust_invstk curr; mret (Z.of_nat curr_spd =? i)%Z
        else mret true);
  if negb ok then mret (inr (MkSlow curr ret_code curr_flags)) else
  c ← get_thd curr;
  assert (bool_decide (t_thread_brand c ≠ None));;
  brand ← deref (t_thread_brand c);
  b ← get_thd brand;
  if negb (t_pending b =? 0)%Z then
    x ← get_spd curr_spd;
    t ← sched_tailcall_pending_upcall_thd curr (Some (s_composite_spd x));
    mret (inr (MkSlow t COS_SCHED_RET_SUCCESS curr_flags))
  else
  set_flags curr (λ f, bclr f THD_STATE_ACTIVE_UPCALL);;
  set_flags curr (λ f, bset f THD_STATE_READY_UPCALL);;
  mret (inl COS_SCHED_EVT_BRAND_READY).

(** The synchronisation of the scheduler and the notice to a child scheduler. *)
Definition slow_events (curr thd : nat) (flags : Z) (curr_spd : nat) (next_thd da ret_code curr_flags : Z) :
    K slow_result :=
  stale ← (if has flags COS_SCHED_SYNC_BLOCK then
             k ← user_da da;
             d ← get_da k;
             if negb (sd_owner_thd d =? next_thd)%Z then mret true else
             id ← thd_get_id curr;
             put_da k (set_sd_queued_thd id d);;
             mret false
           else mret false);
  if (stale : bool) then mret (MkSlow curr COS_SCHED_RET_SUCCESS curr_flags) else
  if has flags COS_SCHED_CHILD_EVT then
    x ← get_spd curr_spd;
    tsi ← thd_get_sched_info thd (s_sched_depth x + 1);
    match ti_scheduler tsi with
    | None => mret (MkSlow curr ret_code curr_flags)
    | Some child =>
        c ← get_spd child;
        assert (negb (s_sched_shared_page c =? 0)%Z);;
        k ← user_da (s_sched_shared_page c);
        upd_da k (set_sd_pending_cevt 1);;
        mret (MkSlow thd ret_code curr_flags)
    end
  else mret (MkSlow thd ret_code curr_flags).

Definition switch_thread_slowpath (curr : nat) (flags : Z) (curr_spd : nat) (rthd_id da : Z)
    (ret_code curr_flags : Z) : K slow_result :=
  '(next_thd, ret_code) ←
    (if has flags (Z.lor COS_SCHED_SYNC_BLOCK COS_SCHED_SYNC_UNBLOCK) then mret (Some rthd_id, ret_code)
     else
       '(n, r) ← switch_thread_parse_data_area da ret_code;
       mret (if (n =? 0)%Z then None else Some n, r));
  match next_thd with
  | None => mret (MkSlow curr ret_code curr_flags)
  | Some next_thd =>
      '(thd, ret_code) ← switch_thread_get_target next_thd curr curr_spd ret_code;
      match thd with
      | None => mret (MkSlow curr ret_code curr_flags)
      | Some thd =>
          r ← (if has flags (Z.lor COS_SCHED_TAILCALL COS_SCHED_BRAND_WAIT)
               then slow_tailcall curr flags curr_spd ret_code curr_flags
               else mret (inl curr_flags));
          match r with
          | inr r => mret r
          | inl curr_flags => slow_events curr thd flags curr_spd next_thd da ret_code curr_flags
          end
      end
  end.

(** The last part of the system call: the switch itself. *)
Definition switch_thread_commit (curr thd : nat) (thd_flags curr_flags : Z) : K (regs_ptr * Z) :=
  break_preemption_chain curr;;
  switch_thread_context curr thd;;
  t ← get_thd thd;
  let preempt := has (t_flags t) THD_STATE_PREEMPTED in
  when preempt (remove_preempted_status thd);;
  update_sched_evts thd thd_flags curr curr_flags;;
  set_ax curr COS_SCHED_RET_SUCCESS;;
  mret (Regs thd, if preempt then 1 else 0)%Z.

Definition cos_syscall_switch_thread_cont (spd_id rthd_id rflags : Z) : K (regs_ptr * Z) :=
  curr ← thd_get_current;
  curr ← deref curr;
  curr_spd ← thd_validate_get_current_spd curr spd_id;
  let err r := set_ax curr (u32 r);; mret (Regs curr, 0%Z) in
  match curr_spd with
  | None => err COS_SCHED_RET_ERROR
  | Some curr_spd =>
      c ← get_thd curr;
      assert (negb (has (t_flags c) THD_STATE_PREEMPTED));;
      x ← get_spd curr_spd;
      let da := s_sched_shared_page x in
      if (da =? 0)%Z then err COS_SCHED_RET_ERROR else
      flags ← switch_thread_update_flags da (u16 rflags);
      if negb (flags =? 0)%Z then
        r ← switch_thread_slowpath curr flags curr_spd (u16 rthd_id) da
              COS_SCHED_RET_ERROR COS_SCHED_EVT_NIL;
        if decide (sl_thd r = curr) then
          if (sl_ret r =? COS_SCHED_RET_SUCCESS)%Z then mret (Regs curr, 0%Z) else err (sl_ret r)
        else switch_thread_commit curr (sl_thd r) COS_SCHED_EVT_NIL (sl_flags r)
      else
        '(next_thd, ret_code) ← switch_thread_parse_data_area da COS_SCHED_RET_ERROR;
        if (next_thd =? 0)%Z then err ret_code else
        '(thd, ret_code) ← switch_thread_get_target next_thd curr curr_spd ret_code;
        match thd with
        | None => err ret_code
        | Some thd => switch_thread_commit curr thd COS_SCHED_EVT_NIL COS_SCHED_EVT_NIL
        end
  end.

(** ** [cos_syscall_sched_cntl] *)

Definition COS_SCHED_EVT_REGION : Z := 0.
Definition COS_SCHED_THD_EVT : Z := 1.
Definition COS_SCHED_PROMOTE_CHLD : Z := 2.
Definition COS_SCHED_GRANT_SCHED : Z := 3.
Definition COS_SCHED_REVOKE_SCHED : Z := 4.
Definition COS_SCHED_BREAK_PREEMPTION_CHAIN : Z := 6.

(** [region] is an [unsigned long]: the sums wrap. *)
Definition sched_evt_region (spd : nat) (option : Z) : K Z :=
  let region := u32 option in
  x ← get_spd spd;
  l ← bound ((s_location x).[0]);
  if (region <? l_lowest_addr l)%Z ||
     (u32 (l_lowest_addr l + l_size l) <=? u32 (region + PAGE_SIZE))%Z then mret (-1)%Z else
  upd_spd spd (set_s_sched_shared_page region);;
  k ← pgtbl_vaddr_to_kaddr (p_pg_tbl (s_info x)) region;
  upd_spd spd (set_s_kern_sched_shared_page k);;
  upd_spd spd (set_s_prev_notification 0);;
  mret 0%Z.

(** The [while] over the upcall threads of a brand. *)
Fixpoint copy_to_upcalls (fuel : nat) (thd : nat) (t : option nat) : K unit :=
  match t with
  | None => mret tt
  | Some t =>
      match fuel with
      | O => fail NoFuel
      | S fuel' =>
          copy_sched_info t thd;;
          x ← get_thd t;
          copy_to_upcalls fuel' thd (t_upcall_threads x)
      end
  end.

(** [idx] is a [long] of which only the upper bound is tested. *)
Definition sched_thd_evt (spd : nat) (thd_id idx : Z) : K Z :=
  match thd_get_by_id thd_id with
  | None => mret (-1)%Z
  | Some thd =>
      x ← get_spd spd;
      let depth := s_sched_depth x in
      tsi ← thd_get_sched_info thd depth;
      if bool_decide (ti_scheduler tsi ≠ Some spd) then mret (-1)%Z else
      if (Z.of_nat NUM_SCHED_EVTS <=? idx)%Z then mret (-1)%Z else
      let k := s_kern_sched_shared_page x in
      (if (idx =? 0)%Z then
         (if (k =? 0)%Z then fail NullDeref else
            e ← get_evt (k, 0%Z);
            put_evt (k, 0%Z) (set_ev_cpu 0 (set_ev_flags 0 (set_ev_next 0 e))));;
         put_sched_info thd depth (set_ti_notifications None (set_ti_offset 0 tsi))
       else
         put_sched_info thd depth (set_ti_notifications (Some (k, idx)) (set_ti_offset (s32 idx) tsi));;
         t ← get_thd thd;
         when (has (t_flags t) THD_STATE_BRAND)
           (copy_to_upcalls MAX_NUM_THREADS thd (t_upcall_threads t)));;
      mret 0%Z
  end.

Definition sched_promote_child (spd : nat) (option : Z) : K Z :=
  x ← get_spd spd;
  let sched_lvl := (s_sched_depth x + 1)%Z in
  child ← spd_get_by_index (s32 option);
  if (Z.of_nat MAX_SCHED_HIER_DEPTH <=? sched_lvl)%Z then mret (-1)%Z else
  child ← deref child;
  c ← get_spd child;
  if bool_decide (s_parent_sched c ≠ None) then mret (-1)%Z else
  upd_spd child (set_s_parent_sched (Some spd));;
  upd_spd child (set_s_sched_depth sched_lvl);;
  mret 0%Z.

(** [tsi->scheduler = s] for the thread [t] at [depth]. *)
Definition set_scheduler (t : nat) (depth : Z) (s : option nat) : K unit :=
  tsi ← thd_get_sched_info t depth;
  put_sched_info t depth (set_ti_scheduler s tsi).

(** The result says whether the call goes on with the next [case]. *)
Definition sched_grant_revoke (grant : bool) (spd : nat) (thd_id option : Z) : K bool :=
  let target := thd_get_by_id thd_id in
  child ← spd_get_by_index (s32 option);
  match target, child with
  | Some target, Some child =>
      c ← get_spd child;
      if bool_decide (Some spd ≠ s_parent_sched c) then mret false else
      by_spd ← thd_scheduled_by target spd;
      if negb by_spd then mret false else
      tsi ← thd_get_sched_info target (s_sched_depth c);
      ok ← (if grant then set_scheduler target (s_sched_depth c) (Some child);; mret true
            else if bool_decide (ti_scheduler tsi ≠ Some child) then mret false
            else set_scheduler target (s_sched_depth c) None;; mret true);
      if negb ok then mret false else
      for_range (s_sched_depth c + 1) (Z.of_nat MAX_SCHED_HIER_DEPTH)
        (λ i, set_scheduler target i None);;
      mret true
  | _, _ => mret false
  end.

Definition cos_syscall_sched_cntl (spd_id operation thd_id option : Z) : K Z :=
  thd ← thd_get_current;
  thd ← deref thd;
  spd ← thd_validate_get_current_spd thd spd_id;
  match spd with
  | None => mret (-1)%Z
  | Some spd =>
      x ← get_spd spd;
      if (s_sched_depth x <? 0)%Z then mret (-1)%Z else
      if (operation =? COS_SCHED_EVT_REGION)%Z then sched_evt_region spd option
      else if (operation =? COS_SCHED_THD_EVT)%Z then sched_thd_evt spd thd_id option
      else if (operation =? COS_SCHED_PROMOTE_CHLD)%Z then sched_promote_child spd option
      else if (operation =? COS_SCHED_GRANT_SCHED)%Z || (operation =? COS_SCHED_REVOKE_SCHED)%Z then
        ok ← sched_grant_revoke (operation =? COS_SCHED_GRANT_SCHED)%Z spd thd_id option;
        if (ok : bool) then break_preemption_chain thd;; mret 0%Z else mret (-1)%Z
      else if (operation =? COS_SCHED_BREAK_PREEMPTION_CHAIN)%Z then
        break_preemption_chain thd;; mret 0%Z
      else mret (-1)%Z
  end.
