(* ===== verification/SchedInv.v ===== *)
(** * Correctness of scheduling support

    The queue of events in the page shared with a scheduler, the chain of
    preempted threads, the depth two threads' scheduler hierarchies have in
    common, who may switch to which thread, and what the checks of the scheduler
    system calls let through. *)

From stdpp Require Import base list numbers option gmap.
From S2P Require Import Prelude Kern PageMem Mpd MpdInv MpdLife Thread ThreadInv Ipc IpcInv Sched.

(** ** The queue of events *)

Definition evt_next (evts : list cos_sched_events) (i : Z) : option Z := ev_next <$> evts.[i].

(** The entries reached from [i]. *)
Fixpoint evt_chain (evts : list cos_sched_events) (i : Z) (l : list Z) : Prop :=
  match l with
  | [] => evt_next evts i = Some 0%Z
  | j :: l' => evt_next evts i = Some j ∧ evt_chain evts j l'
  end.

(** The queue that starts at entry 0 holds the entries [l], of which the last
    one (or 0) is [prev]; entries that are not in it are not linked. *)
Record evt_queue (evts : list cos_sched_events) (prev : Z) (l : list Z) : Prop := {
  eq_length : length evts = NUM_SCHED_EVTS;
  eq_chain : evt_chain evts 0 l;
  eq_nodup : NoDup (0%Z :: l);
  eq_range : Forall (λ j, 0 < j < 128)%Z l;
  eq_last : last (0%Z :: l) = Some prev;
  eq_out : ∀ i, (0 ≤ i < 128)%Z → i ∉ (0%Z :: l) → evt_next evts i = Some 0%Z
}.

Lemma evt_chain_zero evts i l j :
  evt_chain evts i l → Forall (λ j, 0 < j < 128)%Z l → j ∈ i :: l →
  evt_next evts j = Some 0%Z → last (i :: l) = Some j.
Proof.
  revert i. induction l as [|k l IH]; intros i Hc Hf Hj Hn.
  - apply list_elem_of_singleton in Hj. by subst.
  - destruct Hc as [Hi Hc]. apply Forall_cons in Hf as [Hk Hf].
    apply elem_of_cons in Hj as [->|Hj]; [rewrite Hn in Hi; injection Hi; lia|].
    change (last (i :: k :: l)) with (last (k :: l)). by apply IH.
Qed.

(** Entry [p] linked to [j]. *)
Definition evt_link (evts : list cos_sched_events) (p : Z) (e : cos_sched_events) (j : Z) :=
  evts.[p := set_ev_next j e].

Lemma evt_next_link evts p e j i :
  evts.[p] = Some e →
  evt_next (evt_link evts p e j) i = if decide (p = i) then Some j else evt_next evts i.
Proof.
  intros He. unfold evt_next, evt_link. rewrite (zlookup_zinsert _ _ _ _ _ He). by case_decide.
Qed.

Lemma evt_chain_append evts i l p e j :
  evt_chain evts i l → NoDup (i :: l) → last (i :: l) = Some p → evts.[p] = Some e →
  j ∉ i :: l → evt_next evts j = Some 0%Z → evt_chain (evt_link evts p e j) i (l ++ [j]).
Proof.
  revert i. induction l as [|k l IH]; intros i Hc Hnd Hla He Hj Hn; cbn [app evt_chain].
  - injection Hla as ->. rewrite !evt_next_link by done. rewrite decide_True by done.
    rewrite decide_False by (intros ->; apply Hj; constructor). done.
  - destruct Hc as [Hi Hc]. apply NoDup_cons in Hnd as [Hni Hnd].
    change (last (i :: k :: l)) with (last (k :: l)) in Hla.
    assert (p ≠ i) as Hpi by (intros ->; apply Hni, last_Some_elem_of; done).
    rewrite evt_next_link, decide_False by done. split; [done|].
    apply IH; try done. intros Hj'. apply Hj. by constructor.
Qed.

Lemma evt_queue_append evts prev l e j :
  evt_queue evts prev l → evts.[prev] = Some e → (0 < j < 128)%Z → j ∉ l →
  evt_queue (evt_link evts prev e j) j (l ++ [j]).
Proof.
  intros [Hl Hc Hnd Hr Hla Ho] He Hj Hni.
  assert (j ∉ 0%Z :: l) as Hni0 by (apply not_elem_of_cons; split; [lia|done]).
  assert (evt_next evts j = Some 0%Z) as Hnj by (apply Ho; [lia|done]).
  split.
  - unfold evt_link. by rewrite length_zinsert.
  - by apply evt_chain_append.
  - change (0%Z :: l ++ [j]) with ((0%Z :: l) ++ [j]). apply NoDup_app. split_and!; [done| |apply NoDup_singleton].
    intros k Hk ->%list_elem_of_singleton. done.
  - apply Forall_app. split; [done|]. by apply Forall_singleton.
  - change (0%Z :: l ++ [j]) with ((0%Z :: l) ++ [j]). apply last_snoc.
  - intros i Hi Hni'. assert ((i ∉ 0%Z :: l) ∧ i ≠ j) as [Hi1 Hi2].
    { change (0%Z :: l ++ [j]) with ((0%Z :: l) ++ [j]) in Hni'. rewrite elem_of_app, list_elem_of_singleton in Hni'. tauto. }
    rewrite evt_next_link by done. rewrite decide_False; [by apply Ho|].
    intros ->. apply Hi1. by apply last_Some_elem_of.
Qed.

(** An entry is out of the queue exactly when it is not its end and not linked. *)
Lemma evt_queue_in evts prev l j e :
  evt_queue evts prev l → (0 < j < 128)%Z → evts.[j] = Some e →
  negb (prev =? j)%Z && (ev_next e =? 0)%Z = bool_decide (j ∉ l).
Proof.
  intros [Hl Hc Hnd Hr Hla Ho] Hj He. assert (evt_next evts j = Some (ev_next e)) as Hn
    by by unfold evt_next; rewrite He.
  destruct (Z.eqb_spec prev j) as [->|Hp]; cbn [negb andb].
  - symmetry. apply bool_decide_eq_false. intros Hni. apply last_Some_elem_of in Hla.
    apply elem_of_cons in Hla as [?|?]; [lia|done].
  - destruct (Z.eqb_spec (ev_next e) 0) as [H0|H0].
    + symmetry. apply bool_decide_eq_true. intros Hin. rewrite H0 in Hn.
      pose proof (evt_chain_zero _ _ _ j Hc Hr ltac:(by constructor) Hn). congruence.
    + symmetry. apply bool_decide_eq_false. intros Hni. apply H0.
      assert (evt_next evts j = Some 0%Z) as Hn' by (apply Ho; [lia|]; apply not_elem_of_cons; split; [lia|done]).
      congruence.
Qed.

Lemma get_da_run s k da : k_sdas s !! k = Some da → get_da k s = Done da s.
Proof. intros H. unfold get_da, mbind, M_bind, gets. by rewrite H. Qed.

Lemma upd_da_run s k f da :
  k_sdas s !! k = Some da → upd_da k f s = Done tt (set_k_sdas (<[k := f da]> (k_sdas s)) s).
Proof. intros H. unfold upd_da. by rewrite (bind_run _ _ _ _ _ (get_da_run _ _ _ H)). Qed.

Lemma get_evt_run s p da e :
  k_sdas s !! p.1 = Some da → (sd_events da).[p.2] = Some e → get_evt p s = Done e s.
Proof.
  intros H He. unfold get_evt. rewrite (bind_run (gets k_sdas) _ _ _ _ eq_refl), H.
  erewrite bind_run by reflexivity. by apply bound_Done.
Qed.

Lemma put_evt_run s p da e v :
  k_sdas s !! p.1 = Some da → (sd_events da).[p.2] = Some e →
  put_evt p v s = Done tt (set_k_sdas
    (<[p.1 := set_sd_events ((sd_events da).[p.2 := v]) da]> (k_sdas s)) s).
Proof.
  intros H He. unfold put_evt. rewrite (bind_run (gets k_sdas) _ _ _ _ eq_refl), H.
  erewrite bind_run by reflexivity. rewrite He. by erewrite bind_run by reflexivity.
Qed.

(** The data area after an event: the scheduler's choice of the next thread is
    void, and the event is pending. *)
Definition notified (evts : list cos_sched_events) (da : cos_sched_data_area) :
    cos_sched_data_area :=
  set_sd_events evts (set_sd_pending_event 1 (set_sd_next_thd_id 0 da)).

(** Notifying a scheduler of an event of a thread puts the thread's entry
    at the end of the queue of events when it is not queued yet, and leaves the
    queue alone when it is; the queue stays well formed, without cycles.  In
    both cases the event is marked pending and the scheduler's choice of the
    next thread is dropped. *)
Theorem evt_list_queues s tsi sched x da l :
  ti_scheduler tsi = Some sched → k_spds s !! sched = Some x →
  s_kern_sched_shared_page x ≠ 0%Z → k_sdas s !! s_kern_sched_shared_page x = Some da →
  evt_queue (sd_events da) (s_prev_notification x) l → (0 < ti_offset tsi < 128)%Z →
  let j := ti_offset tsi in
  ∃ evts' prev', update_evt_list tsi s = Done 0%Z
      (set_k_spds (<[sched := set_s_prev_notification prev' x]> (k_spds s))
        (set_k_sdas (<[s_kern_sched_shared_page x := notified evts' da]> (k_sdas s)) s)) ∧
    evt_queue evts' prev' (if bool_decide (j ∈ l) then l else l ++ [j]) ∧
    ∀ i e, (sd_events da).[i] = Some e → ∃ n, evts'.[i] = Some (set_ev_next n e).
Proof.
  intros Hs Hx Hk Hda Hq Hj j. set (k := s_kern_sched_shared_page x) in *.
  set (evts := sd_events da) in *. set (prev := s_prev_notification x) in *.
  pose proof Hq as [Hlen _ _ Hr Hla _]. change NUM_SCHED_EVTS with 128 in Hlen.
  assert (0 ≤ prev < 128)%Z as Hp.
  { apply last_Some_elem_of in Hla. apply elem_of_cons in Hla as [->|Hin]; [lia|].
    rewrite Forall_forall in Hr. specialize (Hr _ Hin). cbn in Hr. lia. }
  destruct (zlookup_is_Some evts j) as [e He]; [lia|].
  destruct (zlookup_is_Some evts prev) as [ep Hep]; [lia|].
  unfold update_evt_list. rewrite Hs. erewrite bind_run by reflexivity. erewrite bind_run by reflexivity.
  rewrite (bind_run _ _ _ _ _ (get_spd_run _ _ _ Hx)). fold k. rewrite (proj2 (Z.eqb_neq _ _) Hk).
  erewrite bind_run by reflexivity. cbv zeta.
  rewrite (bind_run _ _ _ _ _ (upd_da_run _ _ _ _ Hda)).
  erewrite bind_run by (apply upd_da_run; cbn; apply lookup_insert_eq). cbn [k_sdas set_k_sdas].
  rewrite insert_insert_eq. fold prev. rewrite u16_id by lia. fold j.
  destruct (Z.leb_spec (Z.of_nat NUM_SCHED_EVTS) prev) as [Hb|_]; [change NUM_SCHED_EVTS with 128 in Hb; lia|].
  destruct (Z.leb_spec (Z.of_nat NUM_SCHED_EVTS) j) as [Hb|_]; [change NUM_SCHED_EVTS with 128 in Hb; lia|].
  destruct (Z.eqb_spec j 0); [lia|]. cbn [orb].
  set (s1 := set_k_sdas _ _). assert (k_sdas s1 !! k = Some (notified evts da)) as Hda1.
  { cbn. rewrite lookup_insert_eq. by destruct da. }
  rewrite (bind_run _ _ _ _ _ (get_evt_run s1 (k, j) _ _ Hda1 He)).
  rewrite (evt_queue_in _ _ _ j _ Hq Hj He).
  destruct (decide (j ∈ l)) as [Hin|Hni].
  - rewrite bool_decide_eq_false_2, bool_decide_eq_true_2 by tauto.
    exists evts, prev. split_and!; [|done|].
    + erewrite bind_run by reflexivity. unfold mret, M_ret. f_equal.
      replace (set_s_prev_notification prev x) with x by by destruct x.
      rewrite list_insert_id by done. unfold s1. by destruct s, da.
    + intros i e' He'. exists (ev_next e'). rewrite He'. by destruct e'.
  - rewrite bool_decide_eq_true_2, bool_decide_eq_false_2 by done.
    exists (evt_link evts prev ep j), j. split_and!; [|by apply evt_queue_append|].
    + erewrite bind_run.
      2: { rewrite (bind_run _ _ _ _ _ (get_evt_run s1 (k, prev) _ _ Hda1 Hep)).
           rewrite (bind_run _ _ _ _ _ (put_evt_run s1 (k, prev) _ _ _ Hda1 Hep)).
           by apply upd_spd_run. }
      unfold mret, M_ret. cbn. rewrite insert_insert_eq.
      replace (u8 j) with j by (unfold u8; by rewrite Z.mod_small by lia). done.
    + intros i e' He'. unfold evt_link. rewrite (zlookup_zinsert _ _ _ _ _ Hep).
      case_decide as Hd; [subst i; exists j; congruence|]. exists (ev_next e'). rewrite He'. by destruct e'.
Qed.

(** Cycles are added to a thread's account up to the largest 32-bit number,
    and never wrap around. *)
Theorem cycles_saturate e elapsed :
  (0 ≤ ev_cpu e < 2 ^ 32)%Z → (0 ≤ elapsed < 2 ^ 32)%Z →
  ev_cpu (add_cycles elapsed e) = Z.min (ev_cpu e + elapsed) (2 ^ 32 - 1).
Proof.
  intros He Hel. unfold add_cycles. cbn [ev_cpu set_ev_cpu]. unfold u32.
  destruct (Z.le_gt_cases (2 ^ 32) (ev_cpu e + elapsed)) as [Ho|Ho].
  - replace ((ev_cpu e + elapsed) mod 2 ^ 32)%Z with (ev_cpu e + elapsed - 2 ^ 32)%Z
      by (apply Zmod_unique with (q := 1%Z); lia).
    destruct (Z.ltb_spec (ev_cpu e + elapsed - 2 ^ 32) (ev_cpu e)); lia.
  - rewrite Z.mod_small by lia. destruct (Z.ltb_spec (ev_cpu e + elapsed) (ev_cpu e)); lia.
Qed.

(** ** The chain of preempted threads *)

(** [t_interrupted] and [t_preempter] are each other's inverse. *)
Record chain_ok (T : list thread) : Prop := {
  ch_int : ∀ a b x, T !! a = Some x → t_interrupted x = Some b →
    ∃ y, T !! b = Some y ∧ t_preempter y = Some a;
  ch_pre : ∀ a b x, T !! a = Some x → t_preempter x = Some b →
    ∃ y, T !! b = Some y ∧ t_interrupted y = Some a
}.

(** Thread [a] = [x] after all links from and to [t] have been dropped. *)
Definition unlinked (t a : nat) (x : thread) : thread :=
  set_t_interrupted (if decide (a = t ∨ t_interrupted x = Some t) then None else t_interrupted x)
    (set_t_preempter (if decide (a = t ∨ t_preempter x = Some t) then None else t_preempter x) x).

Lemma unlinked_chain_ok T t : chain_ok T → chain_ok (imap (unlinked t) T).
Proof.
  intros [Hi Hp]. split; intros a b x'; rewrite list_lookup_imap; intros (x & Hx & ->)%fmap_Some;
    cbn [unlinked t_interrupted t_preempter set_t_interrupted set_t_preempter];
    (case_decide as Hd; [done|]); intros Hb; apply Decidable.not_or in Hd as [Ha Ht].
  - destruct (Hi _ _ _ Hx Hb) as (y & Hy & Hya). exists (unlinked t b y).
    rewrite list_lookup_imap, Hy. split; [done|]. cbn. rewrite decide_False; [done|].
    intros [->|?]; congruence.
  - destruct (Hp _ _ _ Hx Hb) as (y & Hy & Hya). exists (unlinked t b y).
    rewrite list_lookup_imap, Hy. split; [done|]. cbn. rewrite decide_False; [done|].
    intros [->|?]; congruence.
Qed.

Lemma upd_thd_alter {B} t f s (k : unit → K B) :
  is_Some (k_thds s !! t) →
  (upd_thd t f ≫= k) s = k tt (set_k_thds (alter f t (k_thds s)) s).
Proof.
  intros [x Hx]. rewrite (bind_run _ _ _ _ _ (upd_thd_run _ _ _ _ Hx)). by rewrite (alter_at _ _ _ _ Hx).
Qed.

Lemma upd_thd_alter_end t f s :
  is_Some (k_thds s !! t) → upd_thd t f s = Done tt (set_k_thds (alter f t (k_thds s)) s).
Proof. intros [x Hx]. by rewrite (upd_thd_run _ _ _ _ Hx), (alter_at _ _ _ _ Hx). Qed.

(** The links of [t] = [x] in the direction of [t_interrupted], if any, and in
    that of [t_preempter] dropped. *)
Definition drop_int (t : nat) (x : thread) (T : list thread) : list thread :=
  match t_interrupted x with
  | Some o => alter (set_t_preempter None) o (alter (set_t_interrupted None) t T)
  | None => T
  end.
Definition drop_pre (t : nat) (x : thread) (T : list thread) : list thread :=
  match t_preempter x with
  | Some p => alter (set_t_interrupted None) p (alter (set_t_preempter None) t T)
  | None => T
  end.

Lemma drop_links T t x :
  chain_ok T → T !! t = Some x → drop_pre t x (drop_int t x T) = imap (unlinked t) T.
Proof.
  intros [Hi Hp] Hx. apply list_eq. intros a. rewrite list_lookup_imap.
  destruct (T !! a) as [y|] eqn:Hy; cbn.
  2: { unfold drop_pre, drop_int. destruct (t_preempter x), (t_interrupted x);
         rewrite ?lookup_alter_if, ?Hy; repeat case_decide; done. }
  assert (∀ o, t_interrupted x = Some o → t_preempter y = Some t ↔ a = o) as H1.
  { intros o Ho. split.
    - intros Hya. destruct (Hp _ _ _ Hy Hya) as (z & Hz & Hza). congruence.
    - intros ->. destruct (Hi _ _ _ Hx Ho) as (z & Hz & Hza). congruence. }
  assert (t_interrupted x = None → t_preempter y ≠ Some t) as H2.
  { intros Ho Hya. destruct (Hp _ _ _ Hy Hya) as (z & Hz & Hza). congruence. }
  assert (∀ p, t_preempter x = Some p → t_interrupted y = Some t ↔ a = p) as H3.
  { intros o Ho. split.
    - intros Hya. destruct (Hi _ _ _ Hy Hya) as (z & Hz & Hza). congruence.
    - intros ->. destruct (Hp _ _ _ Hx Ho) as (z & Hz & Hza). congruence. }
  assert (t_preempter x = None → t_interrupted y ≠ Some t) as H4.
  { intros Ho Hya. destruct (Hi _ _ _ Hy Hya) as (z & Hz & Hza). congruence. }
  assert (a = t → y = x) as H5 by (intros ->; congruence).
  unfold drop_pre, drop_int, unlinked.
  destruct (t_preempter x) as [p|] eqn:Ep, (t_interrupted x) as [o|] eqn:Eo;
    rewrite ?lookup_alter_if, ?Hy.
  all: repeat case_decide; cbn; f_equal; destruct y; cbn in *; f_equal; try done; try naive_solver.
Qed.

Lemma chain_ok_thd T t x : chain_ok T → T !! t = Some x →
  (∀ o, t_interrupted x = Some o → ∃ y, T !! o = Some y ∧ t_preempter y = Some t) ∧
  (∀ p, t_preempter x = Some p → ∃ y, T !! p = Some y ∧ t_interrupted y = Some t).
Proof. intros [Hi Hp] Hx. eauto. Qed.

Lemma alter_id {A} (f : A → A) k x (l : list A) : l !! k = Some x → f x = x → alter f k l = l.
Proof. intros Hx Hf. rewrite (alter_at _ _ _ _ Hx), Hf. by apply list_insert_id. Qed.

Lemma lookup_some_alter (f : thread → thread) a b (T : list thread) :
  is_Some (T !! b) → is_Some (alter f a T !! b).
Proof. intros [x Hx]. rewrite lookup_alter_if, Hx. by case_decide. Qed.

Lemma break_chain_run s t x :
  chain_ok (k_thds s) → k_thds s !! t = Some x →
  break_preemption_chain t s = Done tt (set_k_thds (imap (unlinked t) (k_thds s)) s).
Proof.
  intros Hok Hx. destruct (chain_ok_thd _ _ _ Hok Hx) as [Hi Hp].
  rewrite <-(drop_links _ t x Hok Hx). unfold break_preemption_chain.
  rewrite (bind_run _ _ _ _ _ (get_thd_run _ _ _ Hx)).
  assert ((match t_interrupted x with
    | Some other => o ← get_thd other; assert (bool_decide (t_preempter o = Some t));;
        upd_thd t (set_t_interrupted None);; upd_thd other (set_t_preempter None)
    | None => mret tt end) s = Done tt (set_k_thds (drop_int t x (k_thds s)) s)) as Hr.
  { unfold drop_int. destruct (t_interrupted x) as [o|]; [|by destruct s].
    destruct (Hi o eq_refl) as (y & Hy & Hyt). rewrite (bind_run _ _ _ _ _ (get_thd_run _ _ _ Hy)), Hyt.
    rewrite bool_decide_eq_true_2 by done. erewrite bind_run by reflexivity.
    rewrite upd_thd_alter by done. destruct (lookup_some_alter (set_t_interrupted None) t o (k_thds s)) as [z Hz]; [done|].
    rewrite (upd_thd_run o _ (set_k_thds _ s) z Hz). cbn. by rewrite (alter_at _ _ _ _ Hz). }
  rewrite (bind_run _ _ _ _ _ Hr). set (s1 := set_k_thds _ s).
  assert (∃ x1, k_thds s1 !! t = Some x1 ∧ t_preempter x1 =
    if decide (t_interrupted x = Some t) then None else t_preempter x) as (x1 & Hx1 & Hpx).
  { cbn. unfold drop_int. destruct (t_interrupted x) as [o|]; [|by eauto].
    rewrite !lookup_alter_if, Hx. repeat case_decide; cbn; try congruence; eauto. }
  rewrite (bind_run _ _ _ _ _ (get_thd_run _ _ _ Hx1)), Hpx. case_decide as Hd.
  - unfold drop_pre. destruct (Hi _ Hd) as (y & Hy & Hyt). assert (y = x) as -> by congruence.
    rewrite Hyt. change (drop_int t x (k_thds s)) with (k_thds s1). rewrite (alter_id (set_t_preempter None) t x1 (k_thds s1));
      [rewrite (alter_id (set_t_interrupted None) t x1 (k_thds s1)); [by destruct s|done|]|done|].
    all: cbn in Hx1; unfold drop_int in Hx1; rewrite Hd, !lookup_alter_if, Hx in Hx1.
    all: rewrite !decide_True in Hx1 by done; injection Hx1 as <-; by destruct x.
  - unfold drop_pre. destruct (t_preempter x) as [p|] eqn:Ep; [|by destruct s].
    destruct (Hp p eq_refl) as (y & Hy & Hyt).
    assert (∃ y1, k_thds s1 !! p = Some y1 ∧ t_interrupted y1 = Some t) as (y1 & Hy1 & Hyt1).
    { cbn. unfold drop_int. destruct (t_interrupted x) as [o|] eqn:Eo; [|by eauto].
      rewrite !lookup_alter_if, Hy. repeat case_decide; cbn; eauto; congruence. }
    rewrite (bind_run _ _ _ _ _ (get_thd_run _ _ _ Hy1)), Hyt1. rewrite bool_decide_eq_true_2 by done.
    erewrite bind_run by reflexivity. rewrite upd_thd_alter by done.
    destruct (lookup_some_alter (set_t_preempter None) t p (k_thds s1)) as [z Hz]; [done|].
    rewrite (upd_thd_run p _ (set_k_thds _ s1) z Hz). cbn. by rewrite (alter_at _ _ _ _ Hz).
Qed.

(** The same links, in the order [remove_preempted_status] drops them. *)
Definition drop_both (t : nat) (x : thread) (p : nat) (T : list thread) : list thread :=
  alter (set_t_interrupted None) t (alter (set_t_preempter None) t
    (match t_interrupted x with
     | Some i => alter (set_t_preempter None) i
     | None => id
     end (alter (set_t_interrupted None) p T))).

Lemma drop_both_links T t x p :
  chain_ok T → T !! t = Some x → t_preempter x = Some p →
  drop_both t x p T = imap (unlinked t) T.
Proof.
  intros Hok Hx Hp. rewrite <-(drop_links T t x Hok Hx). unfold drop_both, drop_pre, drop_int. rewrite Hp.
  apply list_eq. intros a. destruct (T !! a) as [y|] eqn:Hy.
  - destruct (t_interrupted x) as [o|] eqn:Eo; unfold id; rewrite !lookup_alter_if, Hy.
    + repeat case_decide; subst; cbn; f_equal; by destruct y.
    + assert (a = t → y = x) as H5 by (intros ->; congruence).
      repeat case_decide; subst; cbn; f_equal; destruct y; cbn in *; f_equal; naive_solver.
  - destruct (t_interrupted x) as [o|]; unfold id; rewrite !lookup_alter_if, Hy; by repeat case_decide.
Qed.

Definition unpreempt (x : thread) : thread :=
  set_t_flags (bclr (t_flags x) THD_STATE_PREEMPTED) x.

Lemma remove_preempted_run s t x :
  chain_ok (k_thds s) → k_thds s !! t = Some x →
  remove_preempted_status t s = Done tt (set_k_thds (alter unpreempt t
    (match t_preempter x with Some _ => imap (unlinked t) (k_thds s) | None => k_thds s end)) s).
Proof.
  intros Hok Hx. destruct (chain_ok_thd _ _ _ Hok Hx) as [Hi Hp]. unfold remove_preempted_status.
  rewrite (bind_run _ _ _ _ _ (get_thd_run _ _ _ Hx)). destruct (t_preempter x) as [p|] eqn:Ep.
  - destruct (Hp p eq_refl) as (y & Hy & Hyt). rewrite <-(drop_both_links _ t x p Hok Hx Ep).
    erewrite bind_run.
    2: { rewrite (bind_run _ _ _ _ _ (get_thd_run _ _ _ Hy)), Hyt, bool_decide_eq_true_2 by done.
         erewrite bind_run by reflexivity. rewrite upd_thd_alter by done. set (s1 := set_k_thds _ s).
         assert ((match t_interrupted x with Some i => upd_thd i (set_t_preempter None) | None => mret tt end) s1 =
           Done tt (set_k_thds (match t_interrupted x with
             | Some i => alter (set_t_preempter None) i | None => id end (k_thds s1)) s1)) as Hr.
         { destruct (t_interrupted x) as [i|]; [|by destruct s].
           destruct (Hi i eq_refl) as (z & Hz & _). apply upd_thd_alter_end, lookup_some_alter. done. }
         rewrite (bind_run _ _ _ _ _ Hr). set (s2 := set_k_thds _ s1).
         assert (is_Some (k_thds s2 !! t)) as Ht2.
         { cbn. destruct (t_interrupted x); unfold id; repeat apply lookup_some_alter; done. }
         rewrite upd_thd_alter by done. by apply upd_thd_alter_end, lookup_some_alter. }
    rewrite upd_thd_alter_end; [done|].
    cbn. destruct (t_interrupted x); unfold id; repeat apply lookup_some_alter; done.
  - erewrite bind_run by reflexivity. by apply upd_thd_alter_end.
Qed.

Lemma has_preempted_clr f : has (bclr f THD_STATE_PREEMPTED) THD_STATE_PREEMPTED = false.
Proof. apply has_present_clr. Qed.

(** C32. The links between preempted threads and the upcalls that preempted them
    stay each other's inverse: breaking the chain at a thread takes out exactly
    the links from and to that thread, clearing the preempted status of a
    thread keeps the chain sound and leaves no preempter, and neither runs into
    an assertion. *)
Theorem preemption_chain_kept s t x :
  chain_ok (k_thds s) → k_thds s !! t = Some x →
  break_preemption_chain t s = Done tt (set_k_thds (imap (unlinked t) (k_thds s)) s) ∧
  chain_ok (imap (unlinked t) (k_thds s)) ∧
  ∃ T x', remove_preempted_status t s = Done tt (set_k_thds T s) ∧ chain_ok T ∧
    T !! t = Some x' ∧ t_preempter x' = None ∧ has (t_flags x') THD_STATE_PREEMPTED = false.
Proof.
  intros Hok Hx. split; [by apply break_chain_run with (x := x)|]. split; [by apply unlinked_chain_ok|].
  assert (∀ T y, chain_ok T → T !! t = Some y → t_preempter y = None →
    chain_ok (alter unpreempt t T) ∧ ∃ x', alter unpreempt t T !! t = Some x' ∧ t_preempter x' = None ∧
      has (t_flags x') THD_STATE_PREEMPTED = false) as Hun.
  { intros T y [Hi Hp] Hy Hyp. split.
    - split; intros a b z; rewrite lookup_alter_if; (case_decide as Hd; [subst a; rewrite Hy|]); cbn;
        [intros [=<-]; cbn; intros Hb|intros Hz Hb|intros [=<-]; cbn; intros Hb|intros Hz Hb].
      1, 2: destruct (Hi _ _ _ ltac:(done) Hb) as (w & Hw & ?).
      3, 4: destruct (Hp _ _ _ ltac:(done) Hb) as (w & Hw & ?).
      all: rewrite lookup_alter_if, Hw; case_decide; [exists (unpreempt w)|exists w]; done.
    - rewrite lookup_alter_if, decide_True, Hy by done. eexists. split_and!; [done|done|].
      apply has_preempted_clr. }
  rewrite (remove_preempted_run s t x Hok Hx). destruct (t_preempter x) eqn:Ep.
  - destruct (Hun (imap (unlinked t) (k_thds s)) (unlinked t t x)) as (? & x' & ? & ? & ?).
    + by apply unlinked_chain_ok.
    + by rewrite list_lookup_imap, Hx.
    + cbn. rewrite decide_True; [done|by left].
    + eauto 10.
  - destruct (Hun (k_thds s) x) as (? & x' & ? & ? & ?); eauto 10.
Qed.

(** ** The schedulers two threads have in common *)

(** The scheduler of [x] at depth [i] of its hierarchy. *)
Definition sched_at (x : thread) (i : Z) : option nat :=
  match (t_sched_info x).[i] with Some e => ti_scheduler e | None => None end.

Lemma sched_info_run s t x d :
  k_thds s !! t = Some x → length (t_sched_info x) = MAX_SCHED_HIER_DEPTH → (0 ≤ d < 4)%Z →
  ∃ e, (t_sched_info x).[d] = Some e ∧ thd_get_sched_info t d s = Done e s.
Proof.
  intros Hx Hl Hd. change MAX_SCHED_HIER_DEPTH with 4 in Hl.
  destruct (zlookup_is_Some (t_sched_info x) d) as [e He]; [lia|]. exists e. split; [done|].
  unfold thd_get_sched_info. rewrite u16_id by lia.
  destruct (Z.ltb_spec d (Z.of_nat MAX_SCHED_HIER_DEPTH)) as [|Hb]; [|change MAX_SCHED_HIER_DEPTH with 4 in Hb; lia].
  erewrite bind_run by reflexivity. rewrite (bind_run _ _ _ _ _ (get_thd_run _ _ _ Hx)).
  by apply bound_Done.
Qed.

Lemma depth_sched_run s t x d :
  k_thds s !! t = Some x → length (t_sched_info x) = MAX_SCHED_HIER_DEPTH → (0 ≤ d < 4)%Z →
  thd_get_depth_sched t d s = Done (sched_at x d) s.
Proof.
  intros Hx Hl Hd. destruct (sched_info_run s t x d Hx Hl Hd) as (e & He & Hr).
  unfold thd_get_depth_sched, sched_at. by rewrite (bind_run _ _ _ _ _ Hr), He.
Qed.

(** Threads [x1] and [x2] have the same scheduler at depth [i]. *)
Definition same_sched (x1 x2 : thread) (i : Z) : Prop :=
  sched_at x1 i ≠ None ∧ sched_at x1 i = sched_at x2 i.

Lemma common_depth_loop_run s t1 t2 x1 x2 i n :
  k_thds s !! t1 = Some x1 → length (t_sched_info x1) = MAX_SCHED_HIER_DEPTH →
  k_thds s !! t2 = Some x2 → length (t_sched_info x2) = MAX_SCHED_HIER_DEPTH →
  (0 < i)%Z → (i + Z.of_nat n = 4)%Z →
  ∃ d, common_depth_loop t1 t2 i n s = Done d s ∧ (i - 1 ≤ d < 4)%Z ∧
    (∀ k, (i ≤ k ≤ d)%Z → same_sched x1 x2 k) ∧ (d = 3%Z ∨ ¬ same_sched x1 x2 (d + 1)).
Proof.
  intros H1 Hl1 H2 Hl2. revert i. induction n as [|n IH]; intros i Hi Hn; cbn [common_depth_loop].
  - exists 3%Z. split_and!; [done|lia|lia|intros ? ?; exfalso; lia|by left].
  - rewrite (bind_run _ _ _ _ _ (depth_sched_run _ _ _ i H1 Hl1 ltac:(lia))).
    rewrite (bind_run _ _ _ _ _ (depth_sched_run _ _ _ i H2 Hl2 ltac:(lia))).
    destruct (bool_decide (sched_at x1 i = None) || bool_decide (sched_at x1 i ≠ sched_at x2 i)) eqn:E.
    + exists (i - 1)%Z. split_and!; [done|lia|lia|intros ? ?; exfalso; lia|right]. replace (i - 1 + 1)%Z with i by lia.
      apply orb_true_iff in E as [E%bool_decide_eq_true|E%bool_decide_eq_true]; intros [? ?]; done.
    + apply orb_false_iff in E as [E1%bool_decide_eq_false E2%bool_decide_eq_false].
      destruct (IH (i + 1)%Z) as (d & Hr & Hd & Hall & Hend); [lia..|].
      exists d. split_and!; [done|lia|lia| |done]. intros k Hk.
      destruct (decide (k = i)) as [->|]; [split; [done|]; by apply dec_stable|]. apply Hall. lia.
Qed.

(** For threads under one root scheduler, [most_common_sched_depth] is the
    depth of the innermost scheduler they share, below which their paths
    through the hierarchy part (or end). *)
Theorem common_depth_innermost s t1 t2 x1 x2 :
  k_thds s !! t1 = Some x1 → length (t_sched_info x1) = MAX_SCHED_HIER_DEPTH →
  k_thds s !! t2 = Some x2 → length (t_sched_info x2) = MAX_SCHED_HIER_DEPTH →
  sched_at x1 0 = sched_at x2 0 →
  ∃ d, most_common_sched_depth t1 t2 s = Done d s ∧ (0 ≤ d < 4)%Z ∧
    (∀ k, (0 < k ≤ d)%Z → same_sched x1 x2 k) ∧ (d = 3%Z ∨ ¬ same_sched x1 x2 (d + 1)).
Proof.
  intros H1 Hl1 H2 Hl2 H0. unfold most_common_sched_depth.
  rewrite (bind_run _ _ _ _ _ (depth_sched_run _ _ _ 0 H1 Hl1 ltac:(lia))).
  rewrite (bind_run _ _ _ _ _ (depth_sched_run _ _ _ 0 H2 Hl2 ltac:(lia))).
  rewrite bool_decide_eq_true_2 by done. erewrite bind_run by reflexivity.
  destruct (common_depth_loop_run s t1 t2 x1 x2 1 3 H1 Hl1 H2 Hl2) as (d & Hr & Hd & Hall & Hend); [lia..|].
  exists d. split_and!; [done|lia|lia|intros; apply Hall; lia|done].
Qed.

(** ** Who may switch to which thread *)

(** Component [i] = [x] schedules both threads, and [n] is not an upcall thread
    that waits for its brand. *)
Definition may_switch (s : kstate) (i : nat) (curr n : nat) : Prop :=
  ∃ x tc tn, k_spds s !! i = Some x ∧ k_thds s !! curr = Some tc ∧ k_thds s !! n = Some tn ∧
    sched_at tc (u16 (s_sched_depth x)) = Some i ∧ sched_at tn (u16 (s_sched_depth x)) = Some i ∧
    has (t_flags tn) THD_STATE_READY_UPCALL = false.

Lemma scheduled_by_inv s t i b s' :
  thd_scheduled_by t i s = Done b s' →
  s' = s ∧ ∃ x y, k_spds s !! i = Some x ∧ k_thds s !! t = Some y ∧
    b = bool_decide (sched_at y (u16 (s_sched_depth x)) = Some i).
Proof.
  unfold thd_scheduled_by, thd_get_sched_info. intros H. kinv. split; [done|].
  do 2 eexists. split_and!; [done|done|]. unfold sched_at.
  match goal with H : (t_sched_info _).[_] = Some _ |- _ => by rewrite H end.
Qed.

Lemma get_target_inv s tid curr i r thd r' s' :
  switch_thread_get_target tid curr i r s = Done (Some thd, r') s' →
  s' = s ∧ r' = r ∧ thd ≠ curr ∧ may_switch s i curr thd.
Proof.
  unfold switch_thread_get_target. intros H. destruct (thd_get_by_id tid) as [n|]; [|by kinv].
  case_decide; [by kinv|]. apply bind_Done in H as (c & s1 & Hc & H).
  apply scheduled_by_inv in Hc as [-> (x & tc & Hx & Htc & ->)].
  apply bind_Done in H as (ok & s2 & Hok & H).
  case_bool_decide as Hb; [|kinv; done].
  apply scheduled_by_inv in Hok as [-> (x' & tn & Hx' & Htn & ->)].
  assert (x' = x) as -> by congruence.
  case_bool_decide as Hb'; [|cbn in H; kinv]. cbn [negb] in H.
  apply bind_Done in H as (t & s3 & Ht & H). apply get_thd_Done in Ht as [Ht ->].
  assert (t = tn) as -> by congruence. destruct (has (t_flags tn) THD_STATE_READY_UPCALL) eqn:Hf; kinv.
  split_and!; try done. do 3 eexists. split_and!; done.
Qed.

(** The threads, components and the current thread. *)
Definition sched_view (s : kstate) := (k_thds s, k_spds s, k_current s, k_cr3 s, k_mem s).

Lemma keeps_vaddr {B} (π : kstate → B) pt a : keeps π (pgtbl_vaddr_to_kaddr pt a).
Proof. unfold pgtbl_vaddr_to_kaddr, pgtbl_lookup_address, get_word, get_page. keeps. Qed.
#[export] Hint Resolve keeps_vaddr : keeps.
Lemma keeps_user_da {B} (π : kstate → B) v : keeps π (user_da v).
Proof. unfold user_da. keeps. Qed.
#[export] Hint Resolve keeps_user_da : keeps.
Lemma keeps_update_flags {B} (π : kstate → B) da f : keeps π (switch_thread_update_flags da f).
Proof. unfold switch_thread_update_flags, get_da. keeps. Qed.
Lemma sched_parse da r : keeps sched_view (switch_thread_parse_data_area da r).
Proof. unfold switch_thread_parse_data_area, get_da, put_da. keeps. Qed.
Lemma keeps_validate {B} (π : kstate → B) t i : keeps π (thd_validate_get_current_spd t i).
Proof.
  unfold thd_validate_get_current_spd, spd_get_by_index, spd_is_free, thd_spd_in_current_composite,
    thd_get_thd_spdpoly, thd_invstk_top, thd_spd_in_composite, spd_composite_member, lowest_addr,
    get_frame, get_thd, get_spd, get_poly, get_mpd, pgtbl_entry_absent, get_word, get_page, get_spd, get_mpd.
  keeps.
Qed.
#[export] Hint Resolve keeps_update_flags sched_parse keeps_validate : keeps.

Lemma may_switch_view s s' i a b :
  sched_view s' = sched_view s → may_switch s' i a b → may_switch s i a b.
Proof. intros Hv. injection Hv as Ht Hs _. unfold may_switch. by rewrite Ht, Hs. Qed.

Lemma cur_upd_thd t f : keeps k_current (upd_thd t f).
Proof. unfold upd_thd, get_thd, put_thd. keeps. Qed.
Lemma cur_upd_da k f : keeps k_current (upd_da k f).
Proof. unfold upd_da, get_da, put_da. keeps. Qed.
Lemma cur_put_evt p e : keeps k_current (put_evt p e).
Proof. unfold put_evt. keeps. Qed.
Lemma cur_upd_spd i f : keeps k_current (upd_spd i f).
Proof. unfold upd_spd, get_spd, put_spd. keeps. Qed.
#[export] Hint Resolve cur_upd_thd cur_upd_da cur_put_evt cur_upd_spd : keeps.
Lemma keeps_get_evt {B} (π : kstate → B) p : keeps π (get_evt p).
Proof. unfold get_evt. keeps. Qed.
Lemma keeps_sched_info {B} (π : kstate → B) t d : keeps π (thd_get_sched_info t d).
Proof. unfold thd_get_sched_info, get_thd. keeps. Qed.
Lemma keeps_get_thd {B} (π : kstate → B) t : keeps π (get_thd t).
Proof. unfold get_thd. keeps. Qed.
Lemma keeps_get_spd {B} (π : kstate → B) t : keeps π (get_spd t).
Proof. unfold get_spd. keeps. Qed.
#[export] Hint Resolve keeps_get_evt keeps_sched_info keeps_get_thd keeps_get_spd : keeps.
Lemma cur_evt_list tsi : keeps k_current (update_evt_list tsi).
Proof. unfold update_evt_list. keeps. Qed.
#[export] Hint Resolve cur_evt_list : keeps.
Lemma cur_evt_state t f e i n : keeps k_current (evt_state_loop t f e i n).
Proof. revert i. induction n as [|n IH]; intros i; cbn [evt_state_loop]; keeps. Qed.
#[export] Hint Resolve cur_evt_state : keeps.
Lemma cur_sched_evts a fa b fb : keeps k_current (update_sched_evts a fa b fb).
Proof. unfold update_sched_evts, update_thd_evt_state, rdtscl. keeps. Qed.
Lemma cur_remove t : keeps k_current (remove_preempted_status t).
Proof. unfold remove_preempted_status. keeps. Qed.
Lemma cur_open_close a b : keeps k_current (open_close_spd a b).
Proof.
  unfold open_close_spd, get_poly, get_mpd, switch_pg_tbls, native_write_cr3, switch_host_pg_tbls. keeps.
Qed.
Lemma keeps_spdpoly {B} (π : kstate → B) t : keeps π (thd_get_thd_spdpoly t).
Proof. unfold thd_get_thd_spdpoly, thd_invstk_top, get_frame. keeps. Qed.
Lemma cur_switch_data a b : keeps k_current (switch_thread_data a b).
Proof. unfold switch_thread_data, switch_thread_data_page, put_region_pte, get_region_pte. keeps. Qed.
#[export] Hint Resolve cur_sched_evts cur_remove cur_open_close keeps_spdpoly cur_switch_data : keeps.

Lemma switch_context_current s a b u s' :
  switch_thread_context a b s = Done u s' → k_current s' = Some b.
Proof.
  unfold switch_thread_context, switch_thread_context_. intros H.
  apply bind_Done in H as (c & s1 & _ & H). apply bind_Done in H as ([] & s2 & H2 & H).
  assert (keeps k_current (nspd ← thd_get_thd_spdpoly b; n ← deref nspd; c ← deref c; open_close_spd n c)) as Hk
    by keeps.
  rewrite (Hk _ _ _ H). clear Hk H. apply bind_Done in H2 as (c' & s3 & _ & H2).
  apply bind_Done in H2 as (? & s4 & _ & H2). apply bind_Done in H2 as (? & s5 & _ & H2).
  apply bind_Done in H2 as (? & s6 & _ & H2). apply bind_Done in H2 as (? & s7 & H7 & H2).
  rewrite (cur_switch_data _ _ _ _ _ H2). by injection H7 as <- <-.
Qed.

Lemma commit_current s a b f g r p s' :
  switch_thread_commit a b f g s = Done (r, p) s' → r = Regs b ∧ k_current s' = Some b.
Proof.
  unfold switch_thread_commit. intros H. apply bind_Done in H as ([] & s1 & _ & H).
  apply bind_Done in H as ([] & s2 & H2 & H). apply bind_Done in H as (t & s3 & H3 & H).
  apply get_thd_Done in H3 as [_ ->]. apply bind_Done in H as ([] & s4 & H4 & H).
  apply bind_Done in H as ([] & s5 & H5 & H). apply bind_Done in H as ([] & s6 & H6 & H).
  apply ret_Done in H as [Hr ->]. split; [congruence|].
  rewrite (cur_upd_thd _ _ _ _ _ H6), (cur_sched_evts _ _ _ _ _ _ _ H5).
  assert (keeps k_current (when (has (t_flags t) THD_STATE_PREEMPTED) (remove_preempted_status b))) as Hk by keeps.
  rewrite (Hk _ _ _ H4). by eapply switch_context_current.
Qed.

(** The thread the slow path finds is either the current one or one that may be
    switched to. *)
Lemma tailcall_inv s curr f i r cf res s' :
  slow_tailcall curr f i r cf s = Done (inr res) s' → sl_thd res = curr.
Proof.
  unfold slow_tailcall, sched_tailcall_pending_upcall_thd. intros H.
  repeat (kinv; try (case_match; kinv)); done.
Qed.

Lemma slow_events_inv s curr thd f i n da r cf res s' :
  slow_events curr thd f i n da r cf s = Done res s' → sl_thd res = curr ∨ sl_thd res = thd.
Proof.
  unfold slow_events. intros H. apply bind_Done in H as (st & s1 & _ & H).
  destruct st; [kinv; by left|]. destruct (has f COS_SCHED_CHILD_EVT); [|kinv; by right].
  apply bind_Done in H as (x & s2 & _ & H). apply bind_Done in H as (e & s3 & _ & H).
  destruct (ti_scheduler e); [|kinv; by left].
  do 4 apply bind_Done in H as (? & ? & _ & H). kinv. by right.
Qed.

Lemma slowpath_inv s curr f i rid da r cf res s' :
  switch_thread_slowpath curr f i rid da r cf s = Done res s' → sl_thd res ≠ curr →
  may_switch s i curr (sl_thd res).
Proof.
  unfold switch_thread_slowpath. intros H Hne. apply bind_Done in H as ([nt r1] & s1 & H1 & H).
  assert (sched_view s1 = sched_view s) as Hv.
  { assert (keeps sched_view (if has f (Z.lor COS_SCHED_SYNC_BLOCK COS_SCHED_SYNC_UNBLOCK)
      then mret (Some rid, r) else ('(n, r) ← switch_thread_parse_data_area da r;
        mret (if (n =? 0)%Z then None else Some n, r)))) as Hk by keeps. exact (Hk _ _ _ H1). }
  destruct nt as [nt|]; [|kinv; done]. apply bind_Done in H as ([thd r2] & s2 & H2 & H).
  destruct thd as [thd|]; [|kinv; done].
  apply get_target_inv in H2 as (-> & -> & Hd & Hms). apply (may_switch_view s s1) in Hms; [|done].
  apply bind_Done in H as (q & s3 & H3 & H). destruct q as [cf'|q].
  - apply slow_events_inv in H as [?| ->]; [done|]. done.
  - kinv. destruct (has f (Z.lor COS_SCHED_TAILCALL COS_SCHED_BRAND_WAIT)); [|by kinv].
    by apply tailcall_inv in H3.
Qed.

(** C28. When the thread switch system call leaves the current thread for
    another one, then the caller named a component of the domain the current
    thread executes in, that component schedules both threads, the other
    thread is not an upcall thread that waits for its brand, and it is the
    current thread afterwards. *)
Theorem switch_thread_authorised s curr spd_id rthd rflags n p s' :
  k_current s = Some curr →
  cos_syscall_switch_thread_cont spd_id rthd rflags s = Done (Regs n, p) s' → n ≠ curr →
  ∃ i, thd_validate_get_current_spd curr spd_id s = Done (Some i) s ∧
    may_switch s i curr n ∧ k_current s' = Some n.
Proof.
  intros Hc H Hne. unfold cos_syscall_switch_thread_cont in H.
  rewrite (bind_run thd_get_current _ s _ s eq_refl), Hc in H. erewrite bind_run in H by reflexivity.
  apply bind_Done in H as (o & s1 & H1 & H).
  assert (s1 = s) as -> by exact (keeps_validate id _ _ _ _ _ H1).
  destruct o as [i|]; [|kinv; done]. exists i. split; [done|].
  apply bind_Done in H as (tc & s2 & [Htc ->]%get_thd_Done & H). kinv.
  case_match; [kinv; done|]. apply bind_Done in H as (fl & s3 & Hu & H).
  pose proof (keeps_update_flags id _ _ _ _ _ Hu) as Hs3. unfold id in Hs3. subst s3.
  case_match.
  - apply bind_Done in H as (res & s4 & Hsl & H). case_decide as Hd.
    + case_match; kinv; done.
    + apply slowpath_inv in Hsl; [|done]. apply commit_current in H as [Hr Hcur]. injection Hr as ->. done.
  - apply bind_Done in H as ([nt r1] & s4 & Hpa & H). pose proof (sched_parse _ _ _ _ _ Hpa) as Hv.
    case_match; [kinv; done|]. apply bind_Done in H as ([thd r2] & s5 & Hgt & H).
    destruct thd as [thd|]; [|kinv; done]. apply get_target_inv in Hgt as (-> & _ & _ & Hms).
    apply commit_current in H as [Hr Hcur]. injection Hr as ->.
    split; [|done]. by eapply may_switch_view.
Qed.

(** ** What the checks let through *)

(** Translation depends on the page tables only. *)
(** The test that the page to share lies in the component wraps around: the
    last page of the address space, which belongs to the kernel, is accepted
    whatever range the component has. *)
Theorem evt_region_wraps s i x l k :
  let region := (2 ^ 32 - PAGE_SIZE)%Z in
  k_spds s !! i = Some x → (s_location x).[0] = Some l →
  (0 ≤ l_lowest_addr l ≤ region)%Z → u32 (l_lowest_addr l + l_size l) ≠ 0%Z →
  pgtbl_vaddr_to_kaddr (p_pg_tbl (s_info x)) region s = Done k s →
  ∃ s', sched_evt_region i region s = Done 0%Z s' ∧
    s_sched_shared_page <$> k_spds s' !! i = Some region ∧ (KERN_BASE_ADDR ≤ region)%Z.
Proof.
  intros region Hx Hl Hlo Hnz Hk. unfold sched_evt_region.
  replace (u32 region) with region by (symmetry; apply u32_id; unfold region, PAGE_SIZE; lia).
  rewrite (bind_run _ _ _ _ _ (get_spd_run _ _ _ Hx)), Hl. erewrite bind_run by reflexivity.
  pose proof (u32_range (l_lowest_addr l + l_size l)) as Hu.
  assert (u32 (region + PAGE_SIZE) = 0%Z) as -> by by vm_compute.
  destruct (Z.ltb_spec region (l_lowest_addr l)); [lia|].
  destruct (Z.leb_spec (u32 (l_lowest_addr l + l_size l)) 0); [lia|]. cbn [orb].
  rewrite (bind_run _ _ _ _ _ (upd_spd_run _ _ _ _ Hx)). set (s1 := set_k_spds _ s).
  rewrite (bind_run _ _ _ _ _ (vaddr_mem _ _ s s1 _ eq_refl Hk)). pose proof (lookup_lt_Some _ _ _ Hx) as Hlt.
  erewrite bind_run by (apply upd_spd_run; by apply list_lookup_insert_eq).
  erewrite bind_run by (apply upd_spd_run; apply list_lookup_insert_eq; cbn; rewrite ?length_insert; done).
  eexists. split; [reflexivity|]. cbn. rewrite !list_insert_insert_eq, list_lookup_insert_eq by done.
  split; [done|by vm_compute].
Qed.

(** A negative event index passes the only test there is: the call succeeds,
    the thread's events are then located in front of the array in the shared
    page, and the next use of them is an access out of bounds. *)
Theorem evt_index_negative s i x da thd_id t th e idx :
  k_spds s !! i = Some x → (0 ≤ s_sched_depth x < 4)%Z →
  k_sdas s !! s_kern_sched_shared_page x = Some da →
  thd_get_by_id thd_id = Some t → k_thds s !! t = Some th →
  length (t_sched_info th) = MAX_SCHED_HIER_DEPTH → has (t_flags th) THD_STATE_BRAND = false →
  (t_sched_info th).[s_sched_depth x] = Some e → ti_scheduler e = Some i → (idx < 0)%Z →
  ∃ s', sched_thd_evt i thd_id idx s = Done 0%Z s' ∧
    thd_get_depth_urg t (s_sched_depth x) s' = Fault OutOfBounds.
Proof.
  intros Hx Hd Hda Hid Ht Hl Hb He Hs Hidx.
  destruct (sched_info_run s t th _ Ht Hl Hd) as (e' & He' & Hr). assert (e' = e) as -> by congruence.
  set (e1 := set_ti_notifications (Some (s_kern_sched_shared_page x, idx)) (set_ti_offset (s32 idx) e)).
  set (th1 := set_t_sched_info ((t_sched_info th).[s_sched_depth x := e1]) th).
  set (s1 := set_k_thds (<[t := th1]> (k_thds s)) s). pose proof (lookup_lt_Some _ _ _ Ht) as Hlt.
  assert (k_thds s1 !! t = Some th1) as Ht1 by by apply list_lookup_insert_eq.
  exists s1. split.
  - unfold sched_thd_evt. rewrite Hid, (bind_run _ _ _ _ _ (get_spd_run _ _ _ Hx)).
    rewrite (bind_run _ _ _ _ _ Hr), Hs. rewrite bool_decide_eq_false_2 by tauto.
    destruct (Z.leb_spec (Z.of_nat NUM_SCHED_EVTS) idx); [lia|]. destruct (Z.eqb_spec idx 0); [lia|].
    erewrite bind_run; [reflexivity|]. unfold put_sched_info. rewrite u16_id by lia.
    rewrite (bind_run _ _ _ _ _ (upd_thd_run _ _ _ _ Ht)). fold e1 th1 s1.
    rewrite (bind_run _ _ _ _ _ (get_thd_run _ _ _ Ht1)). change (t_flags th1) with (t_flags th). by rewrite Hb.
  - destruct (sched_info_run s1 t th1 (s_sched_depth x) Ht1) as (e2 & He2 & Hr2); [cbn; by rewrite length_zinsert|done|].
    cbn in He2. erewrite zlookup_zinsert_eq in He2 by done. injection He2 as <-.
    unfold thd_get_depth_urg. rewrite (bind_run _ _ _ _ _ Hr2). cbn [ti_scheduler e1 set_ti_notifications set_ti_offset].
    rewrite Hs. erewrite bind_run by reflexivity. erewrite bind_run by reflexivity. erewrite bind_run by reflexivity.
    apply bind_Fault. unfold get_evt. rewrite (bind_run (gets k_sdas) _ _ _ _ eq_refl).
    cbn [k_sdas s1 set_k_thds fst snd]. rewrite Hda. erewrite bind_run by reflexivity.
    by rewrite (proj2 (zlookup_None _ _)) by (left; done).
Qed.

(** A scheduler at the last level of the hierarchy that asks for a child
    scheduler to be notified halts the kernel. *)
Lemma child_evt_halts s curr thd i x nt da r cf :
  k_spds s !! i = Some x → s_sched_depth x = 3%Z →
  slow_events curr thd COS_SCHED_CHILD_EVT i nt da r cf s = Fault AssertFail.
Proof.
  intros Hx Hd. unfold slow_events. erewrite bind_run by reflexivity. cbn [has].
  replace (has COS_SCHED_CHILD_EVT COS_SCHED_CHILD_EVT) with true by done.
  rewrite (bind_run _ _ _ _ _ (get_spd_run _ _ _ Hx)), Hd. done.
Qed.

(** ** Examples *)

(** Component 2 is the root scheduler, its shared page is the first one of its
    range, and it has chosen thread 1 (whose id is 2) to run next. *)
Definition sd_page : Z := pa_to_va 24576.
Definition sd_area : cos_sched_data_area :=
  MkSda 2 0 0 0 0 0 0 (replicate NUM_SCHED_EVTS (MkEvt 0 0 0 0)).
Definition sd_spd : spd :=
  set_s_sched_depth 0 (set_s_sched_shared_page (3 * HPAGE_SIZE)
    (set_s_kern_sched_shared_page sd_page
      (set_s_info (MkPoly 0 0 12288) (td_spd 2)))).
Definition sd_tsi (off : Z) : list thd_sched_info :=
  MkTsi (Some 2) (Some (sd_page, off)) off :: replicate 3 tsi0.
Definition sd_thread : thread := set_t_flags 0 (set_t_sched_info (sd_tsi 1) td_thread).
Definition sd_thread2 : thread := set_t_sched_info (sd_tsi 2) td_thread2.
Definition sd_demo : kstate :=
  set_k_thds ([sd_thread; sd_thread2] ++ replicate 28 thd0)
    (set_k_spds (<[2 := sd_spd]> (k_spds ipc_demo))
      (set_k_sdas {[sd_page := sd_area]}
        (set_k_mem (<[12288%Z := td_page.[3 := 20519%Z]]>
          (<[20480%Z := td_page.[0 := 24615%Z]]> (k_mem ipc_demo))) ipc_demo))).

Lemma sd_queue : evt_queue (sd_events sd_area) 0 [].
Proof.
  split; try reflexivity.
  - apply NoDup_singleton.
  - constructor.
  - intros i Hi _. unfold evt_next. destruct (zlookup_is_Some (sd_events sd_area) i) as [e He]; [done|].
    rewrite He. apply zlookup_Some in He as [_ He]. by apply lookup_replicate in He as [-> _].
Qed.

Lemma evt_list_queues_witness : ∃ evts prev s',
  update_evt_list (MkTsi (Some 2) None 5) sd_demo = Done 0%Z s' ∧ evt_queue evts prev [5%Z].
Proof.
  destruct (evt_list_queues sd_demo (MkTsi (Some 2) None 5) 2 sd_spd sd_area [])
    as (evts & prev & Hr & Hq & _); try reflexivity.
  - by vm_compute.
  - exact sd_queue.
  - cbn. lia.
  - exists evts, prev. eexists. split; [exact Hr|exact Hq].
Defined.

Lemma cycles_saturate_witness :
  ev_cpu (add_cycles 10 (MkEvt 0 0 0 (2 ^ 32 - 5))) = (2 ^ 32 - 1)%Z.
Proof. rewrite cycles_saturate; cbn [ev_cpu]; lia. Defined.

(** Thread 1, an upcall, preempted thread 0. *)
Definition chain_threads : list thread :=
  [set_t_preempter (Some 1) (set_t_flags THD_STATE_PREEMPTED sd_thread);
   set_t_interrupted (Some 0) sd_thread2] ++ replicate 28 thd0.
Definition chain_demo : kstate := set_k_thds chain_threads sd_demo.

Lemma chain_demo_ok : chain_ok chain_threads.
Proof.
  split; intros a b x Hx Hb; apply padded_lookup in Hx as [Hx|[_ ->]]; try discriminate Hb;
    destruct a as [|[|a]]; try discriminate Hx; injection Hx as <-; try discriminate Hb;
    injection Hb as <-; eexists; split; reflexivity.
Qed.

Lemma preemption_chain_kept_witness : ∃ T x',
  remove_preempted_status 0 chain_demo = Done tt (set_k_thds T chain_demo) ∧ chain_ok T ∧
  T !! 0 = Some x' ∧ t_preempter x' = None.
Proof.
  destruct (preemption_chain_kept chain_demo 0 (set_t_preempter (Some 1) (set_t_flags THD_STATE_PREEMPTED sd_thread)))
    as (_ & _ & T & x' & Hr & Hok & Hx & Hp & _); [exact chain_demo_ok|reflexivity|].
  by exists T, x'.
Defined.

Lemma common_depth_innermost_witness : ∃ d,
  most_common_sched_depth 0 1 sd_demo = Done d sd_demo ∧ (0 ≤ d < 4)%Z.
Proof.
  destruct (common_depth_innermost sd_demo 0 1 sd_thread sd_thread2) as (d & Hr & Hd & _); try reflexivity.
  by exists d.
Defined.

Definition sd_after : kstate :=
  match cos_syscall_switch_thread_cont 2 0 0 sd_demo with Done _ s => s | Fault _ => sd_demo end.

Lemma switch_thread_authorised_witness : ∃ i,
  thd_validate_get_current_spd 0 2 sd_demo = Done (Some i) sd_demo ∧
  may_switch sd_demo i 0 1 ∧ k_current sd_after = Some 1.
Proof.
  apply (switch_thread_authorised sd_demo 0 2 0 0 1 1 sd_after); [reflexivity| |lia].
  vm_compute. reflexivity.
Defined.

Lemma evt_region_wraps_witness : ∃ s',
  sched_evt_region 2 (2 ^ 32 - PAGE_SIZE) sd_demo = Done 0%Z s'.
Proof.
  destruct (evt_region_wraps sd_demo 2 sd_spd (MkLoc (3 * HPAGE_SIZE) HPAGE_SIZE) 0) as (s' & Hr & _).
  - reflexivity.
  - reflexivity.
  - split; by vm_compute.
  - by vm_compute.
  - vm_compute. reflexivity.
  - exists s'. exact Hr.
Defined.

Lemma evt_index_negative_witness : ∃ s', sched_thd_evt 2 1 (-3) sd_demo = Done 0%Z s'.
Proof.
  destruct (evt_index_negative sd_demo 2 sd_spd sd_area 1 0 sd_thread (MkTsi (Some 2) (Some (sd_page, 1%Z)) 1) (-3))
    as (s' & Hr & _); try reflexivity; try lia.
  - split; by vm_compute.
  - exists s'. exact Hr.
Defined.
