(* ===== verification/MpdOps.v ===== *)
(** * Merging and splitting protection domains (inv.c)

    The operations behind the system call [cos_syscall_mpd_cntl]: a component
    is split out of the composite protection domain it is in, two composites
    are merged into one, and a thread that runs in an outdated composite is
    moved to the current one. *)

From stdpp Require Import base list numbers option gmap.
From S2P Require Import Prelude Kern PageMem Mpd Thread Ipc.

Definition COS_MPD_SPLIT : Z := 0.
Definition COS_MPD_MERGE : Z := 1.
Definition COS_MPD_DEACTIVATE : Z := 2.
Definition COS_MPD_REAP : Z := 3.
Definition COS_MPD_UPDATE : Z := 4.

(** ** Split *)

(** The [while] of [mpd_merge] and of [mpd_split_composite_populate]: all
    members of [other] go to [dest]; the result is -1 when one of them cannot
    be moved. *)
Fixpoint move_loop (fuel : nat) (dest other : nat) (remove_mappings : bool) : K Z :=
  match fuel with
  | O => fail NoFuel
  | S fuel' =>
      c ← get_mpd other;
      match m_members c with
      | None => mret 0%Z
      | Some curr =>
          r ← spd_composite_move_member dest curr remove_mappings;
          if negb (r =? 0)%Z then mret (-1)%Z else
          c' ← get_mpd other;
          assert (bool_decide (m_members c' ≠ Some curr));;
          move_loop fuel' dest other remove_mappings
      end
  end.

Definition mpd_split_composite_populate (new1 new2 : option nat) (spd cspd : nat) : K Z :=
  c ← get_mpd cspd;
  assert (spd_is_composite (m_info c));;
  assert (bool_decide (new1 ≠ None));;
  new1 ← deref new1;
  c1 ← get_mpd new1;
  assert (spd_is_composite (m_info c1));;
  x ← get_spd spd;
  assert (spd_is_member x cspd);;
  assert (bool_decide (new1 ≠ cspd));;
  _ ← spd_composite_remove_member spd (bool_decide (new2 = None));
  r ← spd_composite_add_member new1 spd;
  if negb (r =? 0)%Z then mret (-1)%Z else
  match new2 with
  | None =>
      c ← get_mpd cspd;
      assert (cos_ref_val (m_info c) =? 1)%Z;;
      mret 1%Z
  | Some new2 =>
      assert (bool_decide (new1 ≠ new2));;
      move_loop (S MAX_NUM_SPDS) new2 cspd false
  end.

(** The two ways of [mpd_split], with the first new composite allocated: [cspd]
    has no other reference and is used for the remaining members, or they get a
    second new composite.  The result is the return value and, when they are
    set, [*new] and [*old]. *)
Definition split_reuse (d1 : Z) (new1 : option nat) (cspd spd : nat) : K (Z * option (Z * Z)) :=
  r ← mpd_split_composite_populate new1 None spd cspd;
  if negb (r =? 1)%Z then
    new1 ← deref new1;
    spd_mpd_depricate new1;;
    mret ((-1)%Z, None)
  else mret (0%Z, Some (d1, spd_mpd_index cspd)).

Definition split_copy (d1 : Z) (new1 : option nat) (cspd spd : nat) : K (Z * option (Z * Z)) :=
  d2 ← spd_alloc_mpd_desc;
  if (d2 <? 0)%Z then
    new1 ← deref new1;
    spd_mpd_depricate new1;;
    mret ((-1)%Z, None)
  else
  new2 ← spd_mpd_by_idx d2;
  assert (bool_decide (new1 ≠ None) && bool_decide (new2 ≠ None));;
  r ← mpd_split_composite_populate new1 new2 spd cspd;
  new1 ← deref new1;
  new2 ← deref new2;
  if negb (r =? 0)%Z then
    spd_mpd_depricate new2;;
    spd_mpd_depricate new1;;
    mret ((-1)%Z, None)
  else
  spd_mpd_depricate cspd;;
  c1 ← get_mpd new1;
  c2 ← get_mpd new2;
  assert (negb (spd_mpd_is_depricated c1) && negb (spd_mpd_is_depricated c2));;
  mret (0%Z, Some (d1, d2)).

Definition mpd_split (cspd spd : nat) : K (Z * option (Z * Z)) :=
  c ← get_mpd cspd;
  assert (negb (spd_mpd_is_depricated c));;
  assert (spd_is_composite (m_info c));;
  x ← get_spd spd;
  assert (spd_is_member x cspd);;
  n ← spd_composite_num_members cspd;
  assert (1 <? n)%Z;;
  d1 ← spd_alloc_mpd_desc;
  if (d1 <? 0)%Z then mret ((-1)%Z, None) else
  new1 ← spd_mpd_by_idx d1;
  c ← get_mpd cspd;
  if (1 =? cos_ref_val (m_info c))%Z then split_reuse d1 new1 cspd spd
  else split_copy d1 new1 cspd spd.

(** ** Merge *)

Definition get_spd_to_subordinate (c1 c2 : nat) : K nat :=
  x1 ← get_mpd c1;
  x2 ← get_mpd c2;
  if (1 =? cos_ref_val (m_info x1))%Z && negb (1 =? cos_ref_val (m_info x2))%Z
  then mret c1 else
  members1 ← spd_composite_num_members c1;
  members2 ← spd_composite_num_members c2;
  assert ((0 <? members1)%Z && (0 <? members2)%Z);;
  mret (if (members1 <? members2)%Z then c1 else c2).

(** The check that a composite is neither out of date nor a subordinate. *)
Definition mpd_current (c : nat) : K bool :=
  x ← get_mpd c;
  mret (negb (spd_mpd_is_depricated x) && negb (spd_mpd_is_subordinate x)).

Definition mpd_merge (c1 c2 : nat) : K nat :=
  x1 ← get_mpd c1;
  x2 ← get_mpd c2;
  assert (spd_is_composite (m_info x1) && spd_is_composite (m_info x2));;
  assert (negb (spd_mpd_is_depricated x1) && negb (spd_mpd_is_depricated x2));;
  assert (negb (spd_mpd_is_subordinate x1) && negb (spd_mpd_is_subordinate x2));;
  assert (bool_decide (c1 ≠ c2));;
  other ← get_spd_to_subordinate c1 c2;
  let dest := if decide (other = c1) then c2 else c1 in
  r ← move_loop (S MAX_NUM_SPDS) dest other true;
  assert (r =? 0)%Z;;
  spd_mpd_make_subordinate dest other;;
  b ← mpd_current dest;
  assert b;;
  mret dest.

(** ** The system call *)

(** [spd->composite_spd] as a composite, with the assertions on it. *)
Definition composite_of (spd : nat) : K nat :=
  x ← get_spd spd;
  i ← get_poly (s_composite_spd x);
  assert (spd_is_composite i);;
  j ← as_mpd (s_composite_spd x);
  b ← mpd_current j;
  assert b;;
  mret j.

Definition mpd_cntl_split (prev : option nat) (spd2 : Z) : K Z :=
  match prev with
  | None => mret (-1)%Z
  | Some prev =>
      transitory ← spd_get_by_index (u16 spd2);
      match transitory with
      | None => mret (-1)%Z
      | Some transitory =>
          trans_cspd ← composite_of transitory;
          n ← spd_composite_num_members prev;
          assert (0 <? n)%Z;;
          if decide (trans_cspd ≠ prev) then mret (-1)%Z else
          if (n =? 1)%Z then mret (-1)%Z else
          r ← mpd_split prev transitory;
          mret r.1
      end
  end.

Definition mpd_cntl_merge (prev : option nat) (spd2 : Z) : K Z :=
  match prev with
  | None => mret (-1)%Z
  | Some prev =>
      second ← spd_get_by_index (u16 spd2);
      match second with
      | None => mret (-1)%Z
      | Some second =>
          other ← composite_of second;
          if decide (prev = other) then mret 0%Z else
          _ ← mpd_merge prev other;
          mret 0%Z
      end
  end.

(** The domain [p] is out of date, or subordinate to one that is. *)
Definition stale (p : polyp) : K bool :=
  i ← get_poly p;
  if has (p_flags i) SPD_DEPRICATED then mret true else
  if has (p_flags i) SPD_SUBORDINATE then
    j ← as_mpd p;
    c ← get_mpd j;
    m ← deref (m_master_spd c);
    cm ← get_mpd m;
    mret (spd_mpd_is_depricated cm)
  else mret false.

Definition mpd_cntl_update (thd : nat) (spd_id : Z) : K Z :=
  spd ← thd_validate_get_current_spd thd spd_id;
  match spd with
  | None => mret (-1)%Z
  | Some spd =>
      tif ← thd_invstk_top thd;
      assert (bool_decide (tif ≠ None));;
      tif ← deref tif;
      f ← get_frame thd tif;
      if decide (f_spd f ≠ Some spd) then mret 0%Z else
      poly ← deref (f_cspd f);
      b ← stale poly;
      if negb b then mret 0%Z else
      i ← get_poly poly;
      assert (spd_is_composite i);;
      x ← get_spd spd;
      spd_mpd_ipc_take (s_composite_spd x);;
      put_frame thd tif (set_f_cspd (Some (s_composite_spd x)) f);;
      spd_mpd_ipc_release poly;;
      mret 0%Z
  end.

(** The page table of the domain [thd] executes in. *)
Definition thd_pg_tbl (thd : nat) : K Z :=
  curr ← thd_get_thd_spdpoly thd;
  curr ← deref curr;
  i ← get_poly curr;
  mret (p_pg_tbl i).

(** The dispatch on the operation, and the switch to the page table of the
    current domain, which may have become another one.  (The one [return] in
    the [switch], for a component of another composite, leaves out the switch
    of page tables, which has no effect there as nothing has changed.) *)
Definition mpd_cntl_op (thd : nat) (prev : option nat) (spd_id operation spd2 : Z) : K Z :=
  curr_pg_tbl ← thd_pg_tbl thd;
  ret ← (if (operation =? COS_MPD_SPLIT)%Z then mpd_cntl_split prev spd2
         else if (operation =? COS_MPD_MERGE)%Z then mpd_cntl_merge prev spd2
         else if (operation =? COS_MPD_UPDATE)%Z then mpd_cntl_update thd spd_id
         else mret (-1)%Z);
  new_pg_tbl ← thd_pg_tbl thd;
  switch_pg_tbls new_pg_tbl curr_pg_tbl;;
  mret ret.

Definition cos_syscall_mpd_cntl (spd_id operation spd1 spd2 : Z) : K Z :=
  let go prev :=
    thd ← thd_get_current;
    assert (bool_decide (thd ≠ None));;
    thd ← deref thd;
    mpd_cntl_op thd prev spd_id operation spd2 in
  if (u16 spd1 =? 0)%Z then go None else
  from ← spd_get_by_index (u16 spd1);
  match from with
  | None => mret (-1)%Z
  | Some from => prev ← composite_of from; go (Some prev)
  end.
