(* ===== verification/MpdOpsInv.v ===== *)
(** * Merging and splitting keeps protection domains apart

    Moving all members of a composite to another one, and with it the merge of
    two composites and the split of a component out of a composite: the
    invariant of MpdInv.v is kept, the members end up where they should, and
    the page tables map exactly the members. *)

From stdpp Require Import base list numbers option gmap.
From S2P Require Import Prelude Ring Kern Caps PageMem Vas Mpd MpdInv MpdLife Thread Ipc MpdOps.

(** ** What moving one member leaves alone *)

(** The same memory and the same page table. *)
Definition alike (x x' : spd) : Prop :=
  s_info x' = s_info x ∧ s_location x' = s_location x.

Lemma alike_trans x y z : alike x y → alike y z → alike x z.
Proof. intros [H1 H2] [H3 H4]. split; congruence. Qed.

Lemma alike_covered x x' k : alike x x' → covered x' k ↔ covered x k.
Proof. intros [_ H]. unfold covered. by rewrite H. Qed.

Lemma alike_table x x' p p' f : alike x x' → table_upd x' p p' f → table_upd x p p' f.
Proof.
  intros Ha [Hl Hk]. split; [done|]. intros k. rewrite <-(alike_covered x x' k Ha). apply Hk.
Qed.

(** All components are where they were in memory. *)
Definition spds_alike (s s' : kstate) : Prop :=
  ∀ k x, k_spds s !! k = Some x → ∃ x', k_spds s' !! k = Some x' ∧ alike x x'.

Lemma spds_alike_trans s1 s2 s3 : spds_alike s1 s2 → spds_alike s2 s3 → spds_alike s1 s3.
Proof.
  intros H1 H2 k x Hx. destruct (H1 k x Hx) as (y & Hy & Ha).
  destruct (H2 k y Hy) as (z & Hz & Hb). exists z. split; [done|]. by eapply alike_trans.
Qed.

(** Nothing but components, composites, capabilities and memory changes. *)
Definition mpd_frame (s s' : kstate) : Prop :=
  ∃ L P M U C, s' = set_k_mpds L (set_k_spds P (set_k_mem M (set_k_ucaps U (set_k_caps C s)))).

Lemma mpd_frame_trans s1 s2 s3 : mpd_frame s1 s2 → mpd_frame s2 s3 → mpd_frame s1 s3.
Proof. intros (L & P & M & U & C & ->) (L' & P' & M' & U' & C' & ->). by exists L', P', M', U', C'. Qed.

Section Rehomed.
Context (s s' : kstate) (j spd : nat) (p : polyp) (h : option nat) (l : list nat).
Context (Hre : rehomed s s' j spd p h l).

Lemma rehomed_frame : mpd_frame s s'.
Proof.
  destruct Hre as (C & U & M & Hr). destruct (rl_state _ _ _ _ _ _ _ Hr) as (L & c & _ & ->).
  by do 5 eexists.
Qed.

Lemma rehomed_mpds c : k_mpds s !! j = Some c →
  k_mpds s' = <[j := set_m_members h c]> (k_mpds s).
Proof.
  intros Hc. destruct Hre as (C & U & M & Hr).
  destruct (rl_state _ _ _ _ _ _ _ Hr) as (L & c' & Hc' & ->). cbn in *. congruence.
Qed.

Lemma rehomed_spd i x : k_spds s !! i = Some x → ∃ x', k_spds s' !! i = Some x' ∧ alike x x' ∧
  s_composite_spd x' = if decide (i = spd) then p else s_composite_spd x.
Proof.
  intros Hx. destruct Hre as (C & U & M & Hr).
  destruct (rl_spd _ _ _ _ _ _ _ Hr i x Hx) as (x' & (_ & H1 & H2 & H3)%relinked_inv & Hx').
  exists x'. split; [done|]. by case_decide.
Qed.

Lemma rehomed_alike : spds_alike s s'.
Proof. intros k x Hx. destruct (rehomed_spd k x Hx) as (x' & ? & ? & _). eauto. Qed.

Lemma rehomed_others j' l' :
  members_of s j' l' → j' ≠ j → p ≠ PolyMpd j' → (∀ k, k ∈ l' → k ∉ spd :: l) →
  members_of s' j' l'.
Proof.
  intros Hmo Hj Hp Hd. destruct Hre as (C & U & M & Hr).
  eapply relinks_others; [exact Hr| |done..]. by apply (members_of_eq s).
Qed.
End Rehomed.

Lemma placed_alike s s' i x x' l0 :
  placed s i x l0 → k_spds s' !! i = Some x' → alike x x' → placed s' i x' l0.
Proof.
  intros [_ [H1 H2] H3 H4] Hx' [_ Ha]. split; [done| |by rewrite Ha|done].
  split; by rewrite Ha.
Qed.

(** ** Moving one member *)

(** Component [i] = [x] has the page table [pf] of its own, which maps it. *)
Record home (s : kstate) (i : nat) (x : spd) (l0 : spd_location) (pf : list Z) : Prop := {
  hm_placed : placed s i x l0;
  hm_table : k_mem s !! p_pg_tbl (s_info x) = Some pf;
  hm_len : length pf = PGD_PER_PTBL;
  hm_present : ∃ w, pf !! first_idx l0 = Some w ∧ has w PG_PRESENT = true
}.

(** The composites but [j] and [o] keep their members. *)
Definition others_keep (j o : nat) (s s' : kstate) : Prop :=
  ∀ j' l', j' ≠ j → j' ≠ o → members_of s j' l' → members_of s' j' l'.

Lemma members_disjoint s j l j' l' k :
  members_of s j l → members_of s j' l' → j ≠ j' → k ∈ l → k ∉ l'.
Proof.
  intros Hm Hm' Hne (x & Hx & Hc)%(mo_in _ _ _ Hm) (y & Hy & Hd)%(mo_in _ _ _ Hm'). congruence.
Qed.

Lemma alone_notin s j l i x :
  members_of s j l → k_spds s !! i = Some x → s_composite_spd x = PolySpd i → i ∉ l.
Proof. intros Hm Hx Hc (y & Hy & Hd)%(mo_in _ _ _ Hm). congruence. Qed.

Lemma notin_middle (k i : nat) l1 l2 : k ∉ l1 ++ i :: l2 ↔ k ∉ i :: l1 ++ l2.
Proof. set_solver. Qed.

Section Move.
Context (s : kstate) (j : nat) (c : composite_spd) (ld : list nat) (ptd : list Z).
Context (o : nat) (co : composite_spd) (l1 l2 : list nat) (pto : list Z).
Context (i : nat) (x : spd) (l0 : spd_location) (pf : list Z) (rm : bool).
Context (Hok : mpd_ok s) (Hd : domain s j c ld ptd) (Ho : domain s o co (l1 ++ i :: l2) pto).
Context (Hjo : j ≠ o) (Htt : p_pg_tbl (m_info c) ≠ p_pg_tbl (m_info co)).
Context (Href : (0 < cos_ref_val (m_info co))%Z) (Hh : home s i x l0 pf).
Context (Hnd : p_pg_tbl (s_info x) ≠ p_pg_tbl (m_info c)).
Context (Hno : p_pg_tbl (s_info x) ≠ p_pg_tbl (m_info co)).
Context (Habs : ∃ w, ptd !! first_idx l0 = Some w ∧ has w PG_PRESENT = false).
Context (Hpre : ∃ w, pto !! first_idx l0 = Some w ∧ has w PG_PRESENT = true).

Definition taken_out (pto' : list Z) : Prop :=
  length pto' = length pto ∧
  if rm then table_upd x pto pto' (λ _, Some 0%Z) else pto' = pto.

(** The first half: the member is on its own. *)
Lemma move_leave :
  ∃ s1 pto' x1, spd_composite_remove_member i rm s = Done 0%Z s1 ∧ mpd_ok s1 ∧
    rehomed s s1 o i (PolySpd i) (head (l1 ++ l2)) (l1 ++ l2) ∧
    domain s1 j c ld ptd ∧ domain s1 o (set_m_members (head (l1 ++ l2)) co) (l1 ++ l2) pto' ∧
    k_mem s1 = <[p_pg_tbl (m_info co) := pto']> (k_mem s) ∧ taken_out pto' ∧
    home s1 i x1 l0 pf ∧ alike x x1 ∧ s_composite_spd x1 = PolySpd i.
Proof.
  destruct Hpre as (wo & Hwo & Hwop). pose proof (hm_placed _ _ _ _ _ Hh) as Hpl.
  destruct (remove_member_run s o co l1 l2 pto i x l0 wo rm Hok Ho Hpl Hwo Hwop Href)
    as (s1 & pto' & Hr & Hok1 & Hmo1 & Hm1 & Hto & Hre).
  destruct (rehomed_spd _ _ _ _ _ _ _ Hre i x (pl_spd _ _ _ _ Hpl)) as (x1 & Hx1 & Ha & Hc1).
  rewrite decide_True in Hc1 by done.
  pose proof (rehomed_mpds _ _ _ _ _ _ _ Hre co (dm_mpd _ _ _ _ _ Ho)) as Hmp.
  assert (taken_out pto') as Hto'.
  { split; [|done]. destruct rm; [apply Hto|by subst]. }
  exists s1, pto', x1. split_and!; try done.
  - destruct Hd as [H1 H2 H3 H4 H5 H6 H7]. split; try done.
    + by rewrite Hmp, list_lookup_insert_ne.
    + eapply rehomed_others; [done|done|done|done|]. intros k Hk. apply notin_middle.
      exact (members_disjoint _ _ _ _ _ k H5 (dm_members _ _ _ _ _ Ho) Hjo Hk).
    + by rewrite Hm1, lookup_insert_ne.
  - destruct Ho as [H1 H2 H3 H4 H5 H6 H7]. split; try done.
    + rewrite Hmp. apply list_lookup_insert_eq. by eapply lookup_lt_Some.
    + rewrite Hm1. apply lookup_insert_eq.
    + rewrite (proj1 Hto'). done.
  - destruct Hh as [H1 H2 H3 H4]. split; [by eapply placed_alike| |done|done].
    rewrite (proj1 Ha), Hm1, lookup_insert_ne; done.
Qed.

(** Both halves. *)
Lemma move_leave_join :
  ∃ s1 s' ptd' pto', spd_composite_remove_member i rm s = Done 0%Z s1 ∧
    spd_composite_add_member j i s1 = Done 0%Z s' ∧ mpd_ok s' ∧
    domain s' j (set_m_members (Some i) c) (i :: ld) ptd' ∧
    domain s' o (set_m_members (head (l1 ++ l2)) co) (l1 ++ l2) pto' ∧
    k_mem s' = <[p_pg_tbl (m_info c) := ptd']> (<[p_pg_tbl (m_info co) := pto']> (k_mem s)) ∧
    table_upd x ptd ptd' (λ k, pf !! k) ∧ taken_out pto' ∧
    spds_alike s s' ∧ mpd_frame s s' ∧ others_keep j o s s' ∧
    k_mpds s' = <[j := set_m_members (Some i) c]>
      (<[o := set_m_members (head (l1 ++ l2)) co]> (k_mpds s)).
Proof.
  destruct move_leave as (s1 & pto' & x1 & Hr & Hok1 & Hre & Hd1 & Ho1 & Hm1 & Hto & Hh1 & Ha & Hc1).
  destruct Habs as (w & Hw & Hwp). destruct Hh1 as [Hpl1 Htb1 Hln1 (w' & Hw' & Hwp')].
  destruct (add_member_run s1 j c ld ptd i x1 l0 pf w w' Hok1 Hd1 Hpl1 Hc1 Htb1 Hln1
    ltac:(rewrite (proj1 Ha); congruence) Hw Hwp Hw' Hwp')
    as (s' & ptd' & Hr' & Hok' & Hmo' & Hm' & Htd & Hre').
  pose proof (rehomed_mpds _ _ _ _ _ _ _ Hre co (dm_mpd _ _ _ _ _ Ho)) as Hmp.
  pose proof (rehomed_mpds _ _ _ _ _ _ _ Hre' c (dm_mpd _ _ _ _ _ Hd1)) as Hmp'.
  pose proof (alone_notin _ _ _ _ _ (dm_members _ _ _ _ _ Ho1) (pl_spd _ _ _ _ Hpl1) Hc1) as Hni.
  exists s1, s', ptd', pto'. split_and!; try done.
  - destruct Hd1 as [H1 H2 H3 H4 H5 H6 H7]. split; try done.
    + rewrite Hmp'. apply list_lookup_insert_eq. by eapply lookup_lt_Some.
    + rewrite Hm'. apply lookup_insert_eq.
    + by rewrite (proj1 Htd).
  - destruct Ho1 as [H1 H2 H3 H4 H5 H6 H7]. split; try done.
    + by rewrite Hmp', list_lookup_insert_ne.
    + eapply rehomed_others; [done|done|done|congruence|]. intros k Hk.
      apply not_elem_of_cons. split; [by intros ->|].
      exact (members_disjoint _ _ _ _ _ k H5 (dm_members _ _ _ _ _ Hd1) (not_eq_sym Hjo) Hk).
    + cbn. rewrite Hm', lookup_insert_ne by done. done.
  - by rewrite Hm', Hm1.
  - by eapply alike_table.
  - eapply spds_alike_trans; by eapply rehomed_alike.
  - eapply mpd_frame_trans; by eapply rehomed_frame.
  - intros j' l' Hj' Ho' Hmo.
    assert (∀ k, k ∈ l' → k ∉ i :: (l1 ++ l2)) as Hk1.
    { intros k Hk. apply notin_middle.
      exact (members_disjoint _ _ _ _ _ k Hmo (dm_members _ _ _ _ _ Ho) Ho' Hk). }
    assert (members_of s1 j' l') as Hmo1 by (eapply rehomed_others; done).
    eapply rehomed_others; [done|done|done|congruence|]. intros k Hk.
    apply not_elem_of_cons. split; [|exact (members_disjoint _ _ _ _ _ k Hmo1
      (dm_members _ _ _ _ _ Hd1) Hj' Hk)].
    intros ->. apply (Hk1 i Hk). constructor.
  - by rewrite Hmp', Hmp.
Qed.

Lemma move_member_run s1 s' :
  spd_composite_remove_member i rm s = Done 0%Z s1 →
  spd_composite_add_member j i s1 = Done 0%Z s' →
  spd_composite_move_member j i rm s = Done 0%Z s'.
Proof.
  intros Hr Hr'. unfold spd_composite_move_member. rewrite (bind_run _ _ _ _ _ Hr).
  cbn [negb Z.eqb]. by rewrite (bind_run _ _ _ _ _ Hr').
Qed.
End Move.

(** ** Moving all members *)

(** The components of [l] do not share any part of the address space. *)
Definition apart (s : kstate) (l : list nat) : Prop :=
  ∀ i k x y a, i ∈ l → k ∈ l → i ≠ k → k_spds s !! i = Some x → k_spds s !! k = Some y →
    covered x a → ¬ covered y a.

(** Component [i] can go from the composite with page table [po] at [t_o] to
    the one with [pd] at [t_d]. *)
Definition guest (s : kstate) (t_d : Z) (pd : list Z) (t_o : Z) (po : list Z) (i : nat) : Prop :=
  ∃ x l0 pf, home s i x l0 pf ∧ p_pg_tbl (s_info x) ≠ t_d ∧ p_pg_tbl (s_info x) ≠ t_o ∧
    (∃ w, pd !! first_idx l0 = Some w ∧ has w PG_PRESENT = false) ∧
    (∃ w, po !! first_idx l0 = Some w ∧ has w PG_PRESENT = true).

(** Page directory [p'] is [p] with the components of [l] mapped as in their own
    page tables. *)
Definition maps_in (s : kstate) (l : list nat) (p p' : list Z) : Prop :=
  (∀ i x pf k, i ∈ l → k_spds s !! i = Some x →
    k_mem s !! p_pg_tbl (s_info x) = Some pf → covered x k → p' !! k = pf !! k) ∧
  (∀ k, (∀ i x, i ∈ l → k_spds s !! i = Some x → ¬ covered x k) → p' !! k = p !! k).

Lemma alike_back s s' i x x' :
  spds_alike s s' → k_spds s !! i = Some x → k_spds s' !! i = Some x' → alike x x'.
Proof. intros Hs Hx Hx'. destruct (Hs i x Hx) as (y & Hy & Ha). by simplify_eq. Qed.

Lemma set_members_self c h : m_members c = h → set_m_members h c = c.
Proof. by destruct c; cbn; intros ->. Qed.

Lemma apart_sub s l l' : apart s l → (∀ k, k ∈ l' → k ∈ l) → apart s l'.
Proof. intros Ha Hs i k x y a Hi Hk. apply Ha; by apply Hs. Qed.

Lemma apart_alike s s' l l' :
  apart s l → spds_alike s s' → (∀ i, i ∈ l' → i ∈ l ∧ is_Some (k_spds s !! i)) → apart s' l'.
Proof.
  intros Ha Hs Hin i k x' y' a Hi Hk Hne Hx' Hy' Hcx Hcy.
  destruct (Hin i Hi) as [Hi' [x Hx]]. destruct (Hin k Hk) as [Hk' [y Hy]].
  apply (Ha i k x y a); try done.
  - by apply (alike_covered _ _ _ (alike_back _ _ _ _ _ Hs Hx Hx')).
  - by apply (alike_covered _ _ _ (alike_back _ _ _ _ _ Hs Hy Hy')).
Qed.

(** The page table entry of a guest is not affected by a change elsewhere. *)
Lemma guest_moved s s' t_d pd pd' t_o po po' i k x :
  guest s t_d pd t_o po k → i ≠ k → k_spds s !! i = Some x → apart s [i; k] →
  spds_alike s s' → k_mem s' = <[t_d := pd']> (<[t_o := po']> (k_mem s)) →
  (∀ a, ¬ covered x a → pd' !! a = pd !! a) → (∀ a, ¬ covered x a → po' !! a = po !! a) →
  guest s' t_d pd' t_o po' k.
Proof.
  intros (y & l0 & pf & Hh & Hd & Ho & Habs & Hpre) Hne Hx Hap Hs Hm Hpd Hpo.
  pose proof Hh as [Hpl Ht Hlen Hpr]. pose proof (pl_spd _ _ _ _ Hpl) as Hy.
  destruct (Hs k y Hy) as (y' & Hy' & Ha).
  assert (¬ covered x (first_idx l0)) as Hnc.
  { intros Hc. apply (Hap i k x y (first_idx l0)); [by left|right; by left|done..
      |by eapply placed_covered]. }
  exists y', l0, pf. rewrite (proj1 Ha), Hpd, Hpo by done. split_and!; try done.
  split; [by eapply placed_alike| |done|done].
  by rewrite (proj1 Ha), Hm, !lookup_insert_ne.
Qed.

(** One more component, moved first. *)
Lemma maps_in_cons s s1 i l p p1 p' x pf :
  k_spds s !! i = Some x → k_mem s !! p_pg_tbl (s_info x) = Some pf → i ∉ l →
  apart s (i :: l) → spds_alike s s1 →
  (∀ k, k ∈ l → ∃ y, k_spds s !! k = Some y ∧
    k_mem s1 !! p_pg_tbl (s_info y) = k_mem s !! p_pg_tbl (s_info y)) →
  table_upd x p p1 (λ k, pf !! k) → maps_in s1 l p1 p' → maps_in s (i :: l) p p'.
Proof.
  intros Hx Hpf Hni Hap Hs Hmem [_ Ht] [Hin Hout].
  assert (∀ k a, (∀ i' x', i' ∈ l → k_spds s !! i' = Some x' → ¬ covered x' a) →
    k = p1 !! a → p' !! a = k) as Hrest.
  { intros k a Hno ->. apply Hout. intros i' x' Hi' Hx'.
    destruct (Hmem i' Hi') as (y & Hy & _).
    rewrite (alike_covered _ _ _ (alike_back _ _ _ _ _ Hs Hy Hx')). by apply (Hno i'). }
  split.
  - intros i' x' pf' k Hi' Hx' Hpf' Hc. apply elem_of_cons in Hi' as [->|Hi'].
    + simplify_eq. apply Hrest; [|symmetry; by apply Ht]. intros i' x' Hi' Hx''.
      apply (Hap i i' x x'); [by left|by right|by intros ->|done..].
    + destruct (Hmem i' Hi') as (y & Hy & Hmy). simplify_eq.
      destruct (Hs i' x' Hx') as (x1 & Hx1 & Ha). apply (Hin i' x1); [done|done| |].
      * by rewrite (proj1 Ha), Hmy.
      * by apply (alike_covered _ _ _ Ha).
  - intros k Hno. apply Hrest.
    + intros i' x' Hi'. apply Hno. by right.
    + symmetry. apply Ht, (Hno i); [by left|done].
Qed.

(** [s'] is [s] with all members [lo] of [o] = [co] moved to [j] = [c], whose
    members were [ld]. *)
Record moved_all (s s' : kstate) (j : nat) (c : composite_spd) (ld : list nat) (ptd ptd' : list Z)
    (o : nat) (co : composite_spd) (lo : list nat) (pto' : list Z) : Prop := {
  ma_ok : mpd_ok s';
  ma_dest : domain s' j (set_m_members (head (reverse lo ++ ld)) c) (reverse lo ++ ld) ptd';
  ma_other : domain s' o (set_m_members None co) [] pto';
  ma_mem : k_mem s' =
    <[p_pg_tbl (m_info c) := ptd']> (<[p_pg_tbl (m_info co) := pto']> (k_mem s));
  ma_maps : maps_in s lo ptd ptd';
  ma_alike : spds_alike s s';
  ma_frame : mpd_frame s s';
  ma_keep : others_keep j o s s';
  ma_mpds : k_mpds s' = <[j := set_m_members (head (reverse lo ++ ld)) c]>
    (<[o := set_m_members None co]> (k_mpds s))
}.

Lemma mpd_frame_refl s : mpd_frame s s.
Proof. exists (k_mpds s), (k_spds s), (k_mem s), (k_ucaps s), (k_caps s). by destruct s. Qed.

Lemma spds_alike_refl s : spds_alike s s.
Proof. intros k x Hx. by exists x. Qed.

Lemma moved_all_nil s j c ld ptd o co pto :
  mpd_ok s → domain s j c ld ptd → domain s o co [] pto →
  p_pg_tbl (m_info c) ≠ p_pg_tbl (m_info co) →
  moved_all s s j c ld ptd ptd o co [] pto.
Proof.
  intros Hok Hd Ho Htt. destruct (mo_head _ _ _ (dm_members _ _ _ _ _ Hd)) as (c' & Hc' & Hh).
  destruct (mo_head _ _ _ (dm_members _ _ _ _ _ Ho)) as (co' & Hco' & Hho).
  assert (c' = c) as -> by (pose proof (dm_mpd _ _ _ _ _ Hd); congruence).
  assert (co' = co) as -> by (pose proof (dm_mpd _ _ _ _ _ Ho); congruence).
  change (reverse [] ++ ld) with ld. cbn [head] in Hho.
  split; rewrite ?(set_members_self c), ?(set_members_self co) by done; try done.
  - rewrite (insert_id (k_mem s) (p_pg_tbl (m_info co))) by apply Ho.
    by rewrite insert_id by apply Hd.
  - split; [|done]. by intros i x pf k ?%elem_of_nil.
  - apply spds_alike_refl.
  - apply mpd_frame_refl.
  - by intros j' l' _ _.
  - rewrite (list_insert_id (k_mpds s) o) by apply Ho.
    by rewrite list_insert_id by apply Hd.
Qed.

Lemma moved_all_cons s s1 s' j c ld ptd ptd1 ptd' o co i lo pto pto1 pto' x pf :
  k_spds s !! i = Some x → k_mem s !! p_pg_tbl (s_info x) = Some pf → i ∉ lo →
  p_pg_tbl (m_info c) ≠ p_pg_tbl (m_info co) → j ≠ o → apart s (i :: lo) →
  (∀ k, k ∈ lo → guest s (p_pg_tbl (m_info c)) ptd (p_pg_tbl (m_info co)) pto k) →
  k_mem s1 = <[p_pg_tbl (m_info c) := ptd1]> (<[p_pg_tbl (m_info co) := pto1]> (k_mem s)) →
  table_upd x ptd ptd1 (λ k, pf !! k) → spds_alike s s1 → mpd_frame s s1 → others_keep j o s s1 →
  k_mpds s1 = <[j := set_m_members (Some i) c]>
    (<[o := set_m_members (head lo) co]> (k_mpds s)) →
  moved_all s1 s' j (set_m_members (Some i) c) (i :: ld) ptd1 ptd'
    o (set_m_members (head lo) co) lo pto' →
  moved_all s s' j c ld ptd ptd' o co (i :: lo) pto'.
Proof.
  intros Hx Hpf Hni Htt Hjo Hap Hg Hm1 Ht1 Ha1 Hf1 Hk1 Hmp1 [H1 H2 H3 H4 H5 H6 H7 H8 H9].
  assert (reverse (i :: lo) ++ ld = reverse lo ++ i :: ld) as Hrev
    by by rewrite reverse_cons, <-(assoc_L app).
  split; rewrite ?Hrev; try done.
  - rewrite H4, Hm1. cbn. rewrite (insert_insert_ne _ (p_pg_tbl (m_info co))) by done.
    by rewrite !insert_insert_eq.
  - eapply maps_in_cons; [done..| |done|done]. intros k Hk.
    destruct (Hg k Hk) as (y & l0 & pfk & Hh & Hd & Ho & _). exists y.
    split; [apply Hh|]. by rewrite Hm1, !lookup_insert_ne.
  - by eapply spds_alike_trans.
  - by eapply mpd_frame_trans.
  - intros j' l' Hj Ho Hmo. apply H8; [done..|]. by apply Hk1.
  - rewrite H9, Hmp1, (list_insert_insert_ne _ o j) by done. by rewrite !list_insert_insert_eq.
Qed.

Lemma move_loop_run fuel s j c ld ptd o co lo pto (rm : bool) :
  mpd_ok s → domain s j c ld ptd → domain s o co lo pto → j ≠ o →
  p_pg_tbl (m_info c) ≠ p_pg_tbl (m_info co) → (0 < cos_ref_val (m_info co))%Z →
  (∀ i, i ∈ lo → guest s (p_pg_tbl (m_info c)) ptd (p_pg_tbl (m_info co)) pto i) →
  apart s lo → length lo < fuel →
  ∃ s' ptd' pto', move_loop fuel j o rm s = Done 0%Z s' ∧
    moved_all s s' j c ld ptd ptd' o co lo pto' ∧ (rm = false → pto' = pto).
Proof.
  revert fuel s c ld ptd co pto. induction lo as [|i lo IH];
    intros [|fuel] s c ld ptd co pto Hok Hd Ho Hjo Htt Href Hg Hap Hlen; try (cbn in Hlen; lia).
  - exists s, ptd, pto. split; [|split; [by apply moved_all_nil|done]]. cbn [move_loop].
    rewrite (bind_run _ _ _ _ _ (get_mpd_run _ _ _ (dm_mpd _ _ _ _ _ Ho))).
    destruct (mo_head _ _ _ (dm_members _ _ _ _ _ Ho)) as (co' & Hco' & Hho).
    assert (co' = co) as -> by (pose proof (dm_mpd _ _ _ _ _ Ho); congruence). by rewrite Hho.
  - destruct (Hg i ltac:(by left)) as (x & l0 & pf & Hh & Hxd & Hxo & Habs & Hpre).
    destruct (move_leave_join s j c ld ptd o co [] lo pto i x l0 pf rm Hok Hd Ho Hjo Htt Href Hh
      Hxd Hxo Habs Hpre)
      as (s1 & s2 & ptd1 & pto1 & Hr1 & Hr2 & Hok2 & Hd2 & Ho2 & Hm2 & Htd & [Hlo Hto] & Ha2 & Hf2
          & Hk2 & Hmp2).
    cbn [app] in *. pose proof (mo_nodup _ _ _ (dm_members _ _ _ _ _ Ho)) as [Hni Hnd]%NoDup_cons.
    pose proof (pl_spd _ _ _ _ (hm_placed _ _ _ _ _ Hh)) as Hx.
    destruct (IH fuel s2 (set_m_members (Some i) c) (i :: ld) ptd1
      (set_m_members (head lo) co) pto1) as (s' & ptd' & pto' & Hr & Hma & Heq); try done.
    + intros k Hk. assert (i ≠ k) as Hne by by intros ->.
      apply (guest_moved s s2 _ ptd ptd1 _ pto pto1 i k x); try done.
      * apply Hg. by right.
      * apply (apart_sub s _ _ Hap). intros b [->|[->|[]%elem_of_nil]%elem_of_cons]%elem_of_cons;
          [by left|by right].
      * intros a. apply Htd.
      * intros a Hna. destruct rm; [by apply Hto|by subst].
    + apply (apart_alike s s2 (i :: lo)); [done|done|]. intros k Hk. split; [by right|].
      destruct (Hg k ltac:(by right)) as (y & ? & ? & Hhk & _). exists y. apply Hhk.
    + cbn in Hlen. lia.
    + exists s', ptd', pto'. split_and!.
      * cbn [move_loop]. rewrite (bind_run _ _ _ _ _ (get_mpd_run _ _ _ (dm_mpd _ _ _ _ _ Ho))).
        destruct (mo_head _ _ _ (dm_members _ _ _ _ _ Ho)) as (co' & Hco' & Hho).
        assert (co' = co) as -> by (pose proof (dm_mpd _ _ _ _ _ Ho); congruence).
        rewrite Hho. cbn [head]. rewrite (bind_run _ _ _ _ _ (move_member_run _ _ _ _ _ _ Hr1 Hr2)).
        cbn [negb Z.eqb]. rewrite (bind_run _ _ _ _ _ (get_mpd_run _ _ _ (dm_mpd _ _ _ _ _ Ho2))).
        rewrite bool_decide_eq_true_2; [exact Hr|].
        cbn. intros Hhd. by apply Hni, head_Some_elem_of.
      * eapply moved_all_cons; try done; [apply Hh|]. intros k Hk. apply Hg. by right.
      * intros Hrm. rewrite (Heq Hrm). by subst.
Qed.

(** ** Counting the members *)

Lemma num_members_loop_run fuel s j c l l1 i l2 :
  members_of s j l → k_mpds s !! j = Some c → l = l1 ++ i :: l2 → length l2 < fuel →
  num_members_loop fuel j i (Z.of_nat (length l1)) s = Done (Z.of_nat (length l)) s.
Proof.
  intros Hmo Hc. revert l1 i l2. induction fuel as [|fuel IH]; intros l1 i l2 Hl Hf; [lia|].
  pose proof Hmo as [(c' & Hc' & Hhead) Hnd Hring Hin].
  assert (c' = c) as -> by congruence.
  assert (i ∈ l) as (x & Hx & _)%Hin by (rewrite Hl; apply elem_of_middle).
  assert (s_member_next x = head (l2 ++ l1 ++ [i])) as Hnx.
  { rewrite Hl in Hring. apply ring_links in Hring as [Hn _]. unfold snx in Hn.
    by rewrite Hx in Hn. }
  cbn [num_members_loop]. rewrite (bind_run _ _ _ _ _ (get_spd_run _ _ _ Hx)).
  rewrite (bind_run _ _ _ _ _ (get_mpd_run _ _ _ Hc)), Hnx, Hhead, Hl.
  destruct l2 as [|b l2]; cbn [app head].
  - rewrite decide_True by by destruct l1. rewrite length_app. cbn [length mret M_ret]. f_equal. lia.
  - rewrite decide_False.
    2: { intros Hb. rewrite Hl in Hnd. destruct l1 as [|a l1]; cbn in Hb, Hnd; injection Hb as ->;
         apply NoDup_cons in Hnd as [Hn _]; apply Hn; [by left|].
         apply elem_of_app. right. right. by left. }
    erewrite bind_run by reflexivity.
    specialize (IH (l1 ++ [i]) b l2 ltac:(by rewrite Hl, <-(assoc_L app)) ltac:(cbn in Hf; lia)).
    rewrite length_app in IH. cbn [length] in IH. rewrite Nat2Z.inj_add in IH. rewrite <-Hl.
    exact IH.
Qed.

Lemma num_members_run s j l :
  sizes_ok s → members_of s j l →
  spd_composite_num_members j s = Done (Z.of_nat (length l)) s.
Proof.
  intros Hsz Hmo. pose proof (members_length s j l Hsz Hmo) as Hlen.
  destruct (mo_head _ _ _ Hmo) as (c & Hc & Hh). unfold spd_composite_num_members.
  rewrite (bind_run _ _ _ _ _ (get_mpd_run _ _ _ Hc)), Hh. destruct l as [|i l]; [done|].
  apply (num_members_loop_run MAX_NUM_SPDS s j c (i :: l) [] i l Hmo Hc eq_refl). cbn in Hlen. lia.
Qed.

(** ** Changes of composites that leave the members alone *)

Record same_members (s s' : kstate) : Prop := {
  sm_spds : k_spds s' = k_spds s;
  sm_caps : k_caps s' = k_caps s;
  sm_ucaps : k_ucaps s' = k_ucaps s;
  sm_vas : k_vas_list s' = k_vas_list s;
  sm_thds : k_thds s' = k_thds s;
  sm_pages : k_pages s' = k_pages s;
  sm_mpds : ∀ j : nat, m_members <$> k_mpds s' !! j = m_members <$> k_mpds s !! j
}.

Lemma members_of_same s s' j l : same_members s s' → members_of s j l → members_of s' j l.
Proof.
  intros [Hs _ _ _ _ _ Hm] [(c & Hc & Hh) Hnd Hr Hin]. specialize (Hm j). rewrite Hc in Hm.
  apply fmap_Some in Hm as (c' & Hc' & Heq). split; [|done| |by rewrite Hs].
  - exists c'. split; congruence.
  - unfold ring, snx, spv in *. by rewrite Hs.
Qed.

Lemma mpd_ok_same s s' : same_members s s' → mpd_ok s → mpd_ok s'.
Proof.
  intros Hsm [[Hsz Hcr Hr Hu Hc] Hl [Hm1 Hm2 Hm3]].
  pose proof Hsm as [Hs Hca Huc Hv Ht Hp Hm]. split.
  - split; [|destruct Hcr as [H1 H2]; split; by rewrite ?Hs, ?Hca|by rewrite Hs|by rewrite Hs|].
    + destruct Hsz as [H1 H2 H3 H4 H5 H6]. split; try congruence. rewrite <-H3.
      apply Nat.le_antisymm; apply Nat.nlt_ge; intros Hlt%lookup_lt_is_Some_2;
        destruct Hlt as [c Hc0]; [specialize (Hm (length (k_mpds s)))
        |specialize (Hm (length (k_mpds s')))]; rewrite Hc0, lookup_ge_None_2 in Hm; done || lia.
    + rewrite Hs, Hca. intros i x c y d Hx Hic Hy Hd. destruct (Hc i x c y d Hx Hic Hy Hd) as [? ? ?].
      split; [done|by rewrite Hs|by rewrite Huc].
  - unfold levels_ok. by rewrite Hs, Hca.
  - split; rewrite ?Hs; [done| |done]. intros j Hj. destruct (Hm2 j Hj) as [l Hl'].
    exists l. by eapply members_of_same.
Qed.

(** ** Merging two composites *)

(** Composite [j] = [c] has the members [l], which its page directory [pt] maps
    as their own ones do; it has no subordinates, and its page table could be
    given to the page pool, which holds [pl]. *)
Record full_domain (s : kstate) (j : nat) (c : composite_spd) (l : list nat) (pt : list Z)
    (pl : list Z) : Prop := {
  fd_domain : domain s j c l pt;
  fd_master : m_master_spd c = None;
  fd_ring : m_next c = Some j ∧ m_prev c = Some j;
  fd_ref : (0 < p_ref_cnt (m_info c) < 2 ^ 31 - 1)%Z;
  fd_some : l ≠ [];
  fd_maps : ∀ i, i ∈ l → ∃ x l0 pf, home s i x l0 pf ∧ ∀ k, covered x k → pt !! k = pf !! k;
  fd_room : pool_room s pl (p_pg_tbl (m_info c))
}.

(** The members [l] keep to themselves: their page tables are not those of the
    composites [c] and [c'], and the page directory [pt'] of [c'] has no room
    taken where they are. *)
Definition strangers (s : kstate) (c c' : composite_spd) (l : list nat) (pt' : list Z) : Prop :=
  ∀ i x, i ∈ l → k_spds s !! i = Some x →
    p_pg_tbl (s_info x) ≠ p_pg_tbl (m_info c) ∧ p_pg_tbl (s_info x) ≠ p_pg_tbl (m_info c') ∧
    ∀ k, covered x k → ∃ w, pt' !! k = Some w ∧ has w PG_PRESENT = false.

Lemma full_alone s j c l pt pl :
  full_domain s j c l pt pl → c =
  mpd_alone j (p_flags (m_info c)) (p_ref_cnt (m_info c)) (p_pg_tbl (m_info c)) (m_members c).
Proof. intros [_ H1 [H2 H3] _ _ _ _]. destruct c as [[] ????]. cbn in *. by subst. Qed.

Lemma full_ref s j c l pt pl :
  full_domain s j c l pt pl → cos_ref_val (m_info c) = p_ref_cnt (m_info c).
Proof. intros [_ _ _ H _ _ _]. apply u32_id. lia. Qed.

Lemma full_guest s c l pt pl o co ptd i :
  full_domain s o co l pt pl → strangers s co c l ptd → i ∈ l →
  guest s (p_pg_tbl (m_info c)) ptd (p_pg_tbl (m_info co)) pt i.
Proof.
  intros Hf Hst Hi. destruct (fd_maps _ _ _ _ _ _ Hf i Hi) as (x & l0 & pf & Hh & Hm).
  destruct (Hst i x Hi (pl_spd _ _ _ _ (hm_placed _ _ _ _ _ Hh))) as (H1 & H2 & H3).
  exists x, l0, pf. pose proof (placed_covered _ _ _ _ (hm_placed _ _ _ _ _ Hh)) as Hc.
  split_and!; try done; [by apply H3|]. rewrite Hm by done. apply Hh.
Qed.

Lemma pool_room_moved s s' l t td to pd po :
  mpd_frame s s' → k_mem s' = <[td := pd]> (<[to := po]> (k_mem s)) →
  pool_room s l td → pool_room s l to → t = to → td ≠ to → length po = PGD_PER_PTBL →
  pool_room s' l t.
Proof.
  intros (L & P & M & U & C & ->) Hm Hd [[H1 H2 H3] H4 H5 H6 H7] -> Hne Hlen. cbn in Hm.
  split; [|done|done|done|].
  - split; [|done|done]. cbn. rewrite Hm.
    apply pool_list_insert; [apply Hd|]. by apply pool_list_insert.
  - destruct (zlookup_is_Some po 0) as [w Hw]; [unfold PGD_PER_PTBL in Hlen; lia|].
    exists po, w. split; [|done]. cbn. by rewrite Hm, lookup_insert_ne, lookup_insert_eq.
Qed.

Lemma domain_current s j c l pt :
  domain s j c l pt → current (p_flags (m_info c)).
Proof. intros [_ _ H1 H2 _ _ _]. by split. Qed.

(** The composite [o], all members of which are gone, becomes a subordinate of
    [j] or is freed. *)
Definition retired (s' : kstate) (j o : nat) (pt : list Z) : Prop :=
  ∃ c' co', k_mpds s' !! j = Some c' ∧ k_mem s' !! p_pg_tbl (m_info c') = Some pt ∧
    k_mpds s' !! o = Some co' ∧
    (k_mpd_free s' = Some o ∨ p_pg_tbl (m_info co') = p_pg_tbl (m_info c')) ∧
    spd_mpd_is_depricated c' = false ∧ spd_mpd_is_subordinate c' = false.

Section Retire.
Context (s : kstate) (j : nat) (f r t : Z) (mem : option nat) (o : nat) (fo ro to : Z).
Context (pt : list Z) (pl : list Z).
Context (Hjo : j ≠ o) (Htt : t ≠ to) (Hf : current f) (Hfo : current fo).
Context (Hj : k_mpds s !! j = Some (mpd_alone j f r t mem)).
Context (Ho : k_mpds s !! o = Some (mpd_alone o fo ro to None)).
Context (Hpt : k_mem s !! t = Some pt) (Hroom : pool_room s pl to).

Lemma retire_free : ro = 1%Z →
  ∃ s', spd_mpd_make_subordinate j o s = Done tt s' ∧ same_members s s' ∧ retired s' j o pt.
Proof.
  intros ->. destruct Hf as [Hf1 Hf2].
  destruct (make_subordinate_last s j o f r t mem fo to pl Hj Ho Hf Hfo Hroom)
    as (s0 & Hr & (M & h & n & Heq) & Hpo & Hmb).
  eexists. split; [exact Hr|]. rewrite Heq in *. split.
  - split; try done. intros k. cbn. destruct (decide (k = o)) as [->|Hk].
    + rewrite list_lookup_insert_eq by by eapply lookup_lt_Some. by rewrite Ho.
    + by rewrite list_lookup_insert_ne.
  - eexists _, _. split_and!; [cbn; rewrite list_lookup_insert_ne; done| | |by left|done|done].
    + rewrite <-Hpt. apply Hmb. done.
    + cbn. apply list_lookup_insert_eq. by eapply lookup_lt_Some.
Qed.

Lemma retire_share : (0 < r < 2 ^ 31 - 1)%Z → (1 < ro < 2 ^ 31)%Z →
  ∃ s', spd_mpd_make_subordinate j o s = Done tt s' ∧ same_members s s' ∧ retired s' j o pt.
Proof.
  intros Hr1 Hro. destruct Hf as [Hf1 Hf2].
  destruct (make_subordinate_run s j o f r t mem fo ro to pl Hjo Hj Ho Hf Hfo Hr1 Hro Hroom)
    as (s0 & Hr & (M & h & n & Heq) & Hpo & Hmb).
  pose proof (lookup_lt_Some _ _ _ Hj) as Hjl. pose proof (lookup_lt_Some _ _ _ Ho) as Hol.
  eexists. split; [exact Hr|]. rewrite Heq in *. unfold sub_pair. split.
  - split; try done. intros k. cbn. destruct (decide (k = o)) as [->|Hk].
    + rewrite list_lookup_insert_eq by by rewrite length_insert. by rewrite Ho.
    + rewrite list_lookup_insert_ne by done. destruct (decide (k = j)) as [->|Hk'].
      * rewrite list_lookup_insert_eq by done. by rewrite Hj.
      * by rewrite list_lookup_insert_ne.
  - eexists _, _. split_and!; [cbn; rewrite list_lookup_insert_ne, list_lookup_insert_eq; done
      |rewrite <-Hpt; by apply Hmb
      |cbn; apply list_lookup_insert_eq; by rewrite length_insert|by right|done|done].
Qed.
End Retire.

Lemma merge_into s j c ld ptd o co lo pto pl :
  mpd_ok s → full_domain s j c ld ptd pl → full_domain s o co lo pto pl → j ≠ o →
  p_pg_tbl (m_info c) ≠ p_pg_tbl (m_info co) → strangers s co c lo ptd → apart s lo →
  ∃ s' ptd', (r ← move_loop (S MAX_NUM_SPDS) j o true;
      assert (r =? 0)%Z;; spd_mpd_make_subordinate j o;;
      b ← mpd_current j; assert b;; mret j) s = Done j s' ∧
    mpd_ok s' ∧ members_of s' j (reverse lo ++ ld) ∧ members_of s' o [] ∧
    maps_in s lo ptd ptd' ∧ retired s' j o ptd'.
Proof.
  intros Hok Hd Ho Hjo Htt Hst Hap.
  pose proof (fd_domain _ _ _ _ _ _ Hd) as Hdd. pose proof (fd_domain _ _ _ _ _ _ Ho) as Hdo.
  destruct (move_loop_run (S MAX_NUM_SPDS) s j c ld ptd o co lo pto true Hok Hdd Hdo Hjo Htt)
    as (s1 & ptd' & pto' & Hr1 & [Hok1 Hd1 Ho1 Hm1 Hmap _ Hfr _ _] & _).
  - rewrite (full_ref _ _ _ _ _ _ Ho). apply Ho.
  - intros i Hi. by eapply full_guest.
  - done.
  - pose proof (members_length s o lo (cw_sizes _ (mk_caps _ Hok)) (dm_members _ _ _ _ _ Hdo)). lia.
  - assert (∃ s', spd_mpd_make_subordinate j o s1 = Done tt s' ∧ same_members s1 s' ∧
      retired s' j o ptd') as (s' & Hr2 & Hsm & Hret).
    { pose proof (dm_mpd _ _ _ _ _ Hd1) as Hj1. pose proof (dm_mpd _ _ _ _ _ Ho1) as Hj2.
      rewrite (full_alone _ _ _ _ _ _ Hd) in Hj1. rewrite (full_alone _ _ _ _ _ _ Ho) in Hj2.
      assert (pool_room s1 pl (p_pg_tbl (m_info co))) as Hroom.
      { eapply pool_room_moved; try done; [apply Hd|apply Ho|apply Ho1]. }
      pose proof (fd_ref _ _ _ _ _ _ Hd). pose proof (fd_ref _ _ _ _ _ _ Ho).
      destruct (decide (p_ref_cnt (m_info co) = 1%Z)) as [H1|H1].
      - eapply retire_free; [exact Hjo|exact Htt|exact (domain_current _ _ _ _ _ Hdd)
          |exact (domain_current _ _ _ _ _ Hdo)|exact Hj1|exact Hj2
          | |exact Hroom|exact H1]. rewrite Hm1. apply lookup_insert_eq.
      - eapply retire_share; [exact Hjo|exact Htt|exact (domain_current _ _ _ _ _ Hdd)
          |exact (domain_current _ _ _ _ _ Hdo)|exact Hj1|exact Hj2
          | |exact Hroom|lia|lia]. rewrite Hm1. apply lookup_insert_eq. }
    exists s', ptd'. split_and!; try done.
    + rewrite (bind_run _ _ _ _ _ Hr1). erewrite bind_run by reflexivity.
      rewrite (bind_run _ _ _ _ _ Hr2). destruct Hret as (c' & co' & Hc' & _ & _ & _ & H1 & H2).
      unfold mpd_current. erewrite bind_run.
      2: { rewrite (bind_run _ _ _ _ _ (get_mpd_run _ _ _ Hc')). rewrite H1, H2. reflexivity. }
      done.
    + by eapply mpd_ok_same.
    + eapply members_of_same; [done|]. apply Hd1.
    + eapply members_of_same; [done|]. apply Ho1.
Qed.

(** Page directory [pt] maps the components of [l] as their own ones do. *)
Definition maps (s : kstate) (l : list nat) (pt : list Z) : Prop :=
  ∀ i x pf k, i ∈ l → k_spds s !! i = Some x →
    k_mem s !! p_pg_tbl (s_info x) = Some pf → covered x k → pt !! k = pf !! k.

Lemma merged_maps s j c ld ptd lo ptd' pl :
  full_domain s j c ld ptd pl → (∀ i, i ∈ lo → i ∉ ld) → apart s (ld ++ lo) →
  maps_in s lo ptd ptd' → maps s (reverse lo ++ ld) ptd'.
Proof.
  intros Hd Hdis Hap [Hin Hout] i x pf k Hi Hx Hpf Hc. apply elem_of_app in Hi as [Hi|Hi].
  - rewrite elem_of_reverse in Hi. by eapply Hin.
  - destruct (fd_maps _ _ _ _ _ _ Hd i Hi) as (x' & l0 & pf' & [Hpl Ht _ _] & Hm).
    pose proof (pl_spd _ _ _ _ Hpl) as Hx'. simplify_eq.
    rewrite Hout; [by apply Hm|]. intros i' y Hi' Hy Hcy.
    apply (Hap i i' x y k); try done.
    + apply elem_of_app. by left.
    + apply elem_of_app. by right.
    + intros ->. by eapply Hdis.
Qed.

Lemma choose_other s j1 c1 l1 pt1 j2 c2 l2 pt2 pl :
  sizes_ok s → full_domain s j1 c1 l1 pt1 pl → full_domain s j2 c2 l2 pt2 pl →
  ∃ o, get_spd_to_subordinate j1 j2 s = Done o s ∧ (o = j1 ∨ o = j2).
Proof.
  intros Hsz H1 H2. pose proof (fd_domain _ _ _ _ _ _ H1) as D1.
  pose proof (fd_domain _ _ _ _ _ _ H2) as D2. unfold get_spd_to_subordinate.
  rewrite (bind_run _ _ _ _ _ (get_mpd_run _ _ _ (dm_mpd _ _ _ _ _ D1))).
  rewrite (bind_run _ _ _ _ _ (get_mpd_run _ _ _ (dm_mpd _ _ _ _ _ D2))).
  case_match; [by exists j1; auto|].
  rewrite (bind_run _ _ _ _ _ (num_members_run s j1 l1 Hsz (dm_members _ _ _ _ _ D1))).
  rewrite (bind_run _ _ _ _ _ (num_members_run s j2 l2 Hsz (dm_members _ _ _ _ _ D2))).
  assert (∀ l : list nat, l ≠ [] → (0 <? Z.of_nat (length l))%Z = true) as Hpos.
  { intros [|] ?; [done|]. apply Z.ltb_lt. cbn [length]. lia. }
  rewrite !Hpos by (apply H1 || apply H2). erewrite bind_run by reflexivity.
  eexists. split; [reflexivity|]. case_match; auto.
Qed.

Lemma apart_app s l1 l2 : apart s (l1 ++ l2) → apart s l1 ∧ apart s l2 ∧ apart s (l2 ++ l1).
Proof.
  intros Ha. split_and!; apply (apart_sub _ _ _ Ha); intros k; rewrite !elem_of_app; tauto.
Qed.


(** ** Splitting a component out of a composite *)

(** What the allocation of a composite leaves. *)
Record allocated (s s1 : kstate) (d : nat) (next : option nat) (p : Z) (l pt : list Z) : Prop := {
  al_ok : mpd_ok s1;
  al_same : same_members s s1;
  al_domain : domain s1 d (mpd_fresh d (va_to_pa p)) [] pt;
  al_mpds : k_mpds s1 = <[d := mpd_fresh d (va_to_pa p)]> (k_mpds s);
  al_mem : k_mem s1 = <[va_to_pa p := pt]> (k_mem s);
  al_free : k_mpd_free s1 = next;
  al_pool : pool_ok s1 l;
  al_kern : k_kern_pgtbl s1 = k_kern_pgtbl s;
  al_copy : ∃ kp, k_mem s !! k_kern_pgtbl s = Some kp ∧ ∀ k, k < 1023 → pt !! k = kp !! k
}.

Lemma alloc_domain s d next p l :
  mpd_ok s → k_mpd_free s = Some d → k_mpds s !! d = Some (mpd_free_desc next) →
  pgtbl_avail s p l →
  ∃ s1 pt, spd_alloc_mpd_desc s = Done (Z.of_nat d) s1 ∧ allocated s s1 d next p l pt.
Proof.
  intros Hok Hf Hd Hav.
  assert (d < MAX_MPD_DESC) as Hlt.
  { rewrite <-(sz_mpds s (cw_sizes s (mk_caps s Hok))). by eapply lookup_lt_Some. }
  pose proof (lookup_lt_Some _ _ _ Hd) as Hdl.
  destruct (alloc_mpd_run s d next p l Hf Hd Hlt Hav)
    as (s0 & pt & Hr & (m & h & n & Hs0) & Hpo & Hm & Hlp & Hkp).
  eexists _, pt. split; [exact Hr|]. rewrite Hs0 in *. cbn in Hm. subst m.
  match goal with |- allocated _ ?t _ _ _ _ _ => assert (same_members s t) as Hsm end.
  { split; try done. intros k. cbn. destruct (decide (k = d)) as [->|Hk].
    - rewrite list_lookup_insert_eq by done. by rewrite Hd.
    - by rewrite list_lookup_insert_ne. }
  split; try done.
  - by eapply mpd_ok_same.
  - split; try done.
    + cbn. by apply list_lookup_insert_eq.
    + eapply members_of_same; [done|]. destruct (mk_rings s (mk_members s Hok) d Hlt) as [l' Hl'].
      destruct (mo_head _ _ _ Hl') as (c & Hc & Hh). simplify_eq. cbn in Hh. by destruct l'.
    + cbn. apply lookup_insert_eq.
  - by destruct Hpo.
Qed.

Lemma domain_allocated s s1 d next p l pt j c lj ptj :
  allocated s s1 d next p l pt → domain s j c lj ptj → d ≠ j →
  p_pg_tbl (m_info c) ≠ va_to_pa p → domain s1 j c lj ptj.
Proof.
  intros Ha [H1 H2 H3 H4 H5 H6 H7] Hd Hp. split; try done.
  - by rewrite (al_mpds _ _ _ _ _ _ _ Ha), list_lookup_insert_ne.
  - eapply members_of_same; [apply Ha|done].
  - by rewrite (al_mem _ _ _ _ _ _ _ Ha), lookup_insert_ne.
Qed.

Lemma home_allocated s s1 d next p l pt i x l0 pf :
  allocated s s1 d next p l pt → home s i x l0 pf → p_pg_tbl (s_info x) ≠ va_to_pa p →
  home s1 i x l0 pf.
Proof.
  intros Ha [H1 H2 H3 H4] Hp. split; [|by rewrite (al_mem _ _ _ _ _ _ _ Ha), lookup_insert_ne|done..].
  destruct H1 as [H5 H6 H7 H8]. split; try done. by rewrite (sm_spds _ _ (al_same _ _ _ _ _ _ _ Ha)).
Qed.

Lemma avail_allocated s s1 d next p1 p2 l pt :
  allocated s s1 d next p1 (p2 :: l) pt → pgtbl_avail s p1 (p2 :: l) →
  va_to_pa p2 ≠ 0%Z → va_to_pa p2 ≠ k_kern_pgtbl s →
  (∀ pg, k_mem s !! va_to_pa p2 = Some pg → length pg = PGD_PER_PTBL) →
  pgtbl_avail s1 p2 l.
Proof.
  intros Ha Hav H0 Hk Hpg. pose proof (pa_kern _ _ _ Hav) as Hk1.
  pose proof (po_nodup _ _ (pa_pool _ _ _ Hav)) as Hnd. cbn in Hnd.
  apply NoDup_cons in Hnd as [Hn12 _]. apply not_elem_of_cons in Hn12 as [Hn12 _].
  split; [apply Ha| |done|by rewrite (al_kern _ _ _ _ _ _ _ Ha)| |].
  - pose proof (pa_len _ _ _ Hav) as Hl. cbn in Hl. lia.
  - intros pg. rewrite (al_mem _ _ _ _ _ _ _ Ha), lookup_insert_ne by done. apply Hpg.
  - destruct (pa_tbl _ _ _ Hav) as (kp & w & Hkp & Hr). exists kp, w. split; [|done].
    by rewrite (al_kern _ _ _ _ _ _ _ Ha), (al_mem _ _ _ _ _ _ _ Ha), lookup_insert_ne.
Qed.

(** Composite [cspd] = [c], with members [l], can be split: its page directory
    [pt] maps its members, and the page pool [pl] has pages for new page
    tables, which are copies of the kernel's [kp], where the members' part of
    the address space is empty. *)
Record splittable (s : kstate) (cspd : nat) (c : composite_spd) (l : list nat) (pt pl kp : list Z)
    : Prop := {
  sp_ok : mpd_ok s;
  sp_domain : domain s cspd c l pt;
  sp_ref : (0 < p_ref_cnt (m_info c) < 2 ^ 31)%Z;
  sp_many : 1 < length l;
  sp_homes : ∀ i, i ∈ l → ∃ x l0 pf, home s i x l0 pf ∧ ∀ k, covered x k → pt !! k = pf !! k;
  sp_apart : apart s l;
  sp_kern : k_mem s !! k_kern_pgtbl s = Some kp;
  sp_user : ∀ i x k, i ∈ l → k_spds s !! i = Some x → covered x k →
    k < 1023 ∧ ∃ w, kp !! k = Some w ∧ has w PG_PRESENT = false;
  sp_table : p_pg_tbl (m_info c) ∉ (va_to_pa <$> pl);
  sp_tables : ∀ i x, i ∈ l → k_spds s !! i = Some x →
    p_pg_tbl (s_info x) ≠ p_pg_tbl (m_info c) ∧ p_pg_tbl (s_info x) ∉ (va_to_pa <$> pl)
}.

Lemma splittable_ref s cspd c l pt pl kp :
  splittable s cspd c l pt pl kp → cos_ref_val (m_info c) = p_ref_cnt (m_info c).
Proof. intros H. apply u32_id. pose proof (sp_ref _ _ _ _ _ _ _ H). lia. Qed.

(** A free descriptor is not that of a composite with members. *)
Lemma splittable_free s cspd c l pt pl kp d next :
  splittable s cspd c l pt pl kp → k_mpds s !! d = Some (mpd_free_desc next) → d ≠ cspd.
Proof.
  intros H Hd ->. destruct (mo_head _ _ _ (dm_members _ _ _ _ _ (sp_domain _ _ _ _ _ _ _ H)))
    as (c' & Hc' & Hh). simplify_eq. cbn in Hh.
  pose proof (sp_many _ _ _ _ _ _ _ H) as Hl. destruct l; [cbn in Hl; lia|done].
Qed.

Lemma splittable_allocated s s1 cspd c l pt p pl kp d next ptd :
  splittable s cspd c l pt (p :: pl) kp → k_mpds s !! d = Some (mpd_free_desc next) →
  va_to_pa p ≠ k_kern_pgtbl s → allocated s s1 d next p pl ptd →
  splittable s1 cspd c l pt pl kp.
Proof.
  intros H Hd Hk Ha. pose proof (splittable_free _ _ _ _ _ _ _ _ _ H Hd) as Hne.
  pose proof (sm_spds _ _ (al_same _ _ _ _ _ _ _ Ha)) as Hsp.
  destruct H as [H1 H2 H3 H4 H5 H6 H7 H8 H9 H10].
  apply not_elem_of_cons in H9 as [H9 H9'].
  assert (∀ i x, i ∈ l → k_spds s !! i = Some x → p_pg_tbl (s_info x) ≠ va_to_pa p ∧
    p_pg_tbl (s_info x) ∉ (va_to_pa <$> pl)) as H11.
  { intros i x Hi Hx. destruct (H10 i x Hi Hx) as [_ Hn]. by apply not_elem_of_cons in Hn. }
  split; try done.
  - apply Ha.
  - by eapply domain_allocated.
  - intros i Hi. destruct (H5 i Hi) as (x & l0 & pf & Hh & Hm). exists x, l0, pf.
    split; [|done]. eapply home_allocated; [done|done|].
    by eapply H11, hm_placed.
  - unfold apart. by rewrite Hsp.
  - by rewrite (al_kern _ _ _ _ _ _ _ Ha), (al_mem _ _ _ _ _ _ _ Ha), lookup_insert_ne.
  - by rewrite Hsp.
  - rewrite Hsp. intros i x Hi Hx. split; [by apply (H10 i)|by apply (H11 i)].
Qed.

(** A member can go to the new composite [d]. *)
Lemma splittable_guest s s1 cspd c l pt p pl kp d next ptd i :
  splittable s cspd c l pt (p :: pl) kp → k_mpds s !! d = Some (mpd_free_desc next) →
  va_to_pa p ≠ k_kern_pgtbl s → allocated s s1 d next p pl ptd → i ∈ l →
  guest s1 (va_to_pa p) ptd (p_pg_tbl (m_info c)) pt i.
Proof.
  intros H Hd Hk Ha Hi.
  destruct (sp_homes _ _ _ _ _ _ _ H i Hi) as (x & l0 & pf & Hh & Hm).
  pose proof (pl_spd _ _ _ _ (hm_placed _ _ _ _ _ Hh)) as Hx.
  pose proof (placed_covered _ _ _ _ (hm_placed _ _ _ _ _ Hh)) as Hc.
  destruct (sp_tables _ _ _ _ _ _ _ H i x Hi Hx) as [Ht [Hp _]%not_elem_of_cons].
  exists x, l0, pf. split_and!; [by eapply home_allocated|done|done| |].
  - destruct (sp_user _ _ _ _ _ _ _ H i x _ Hi Hx Hc) as (Hlt & w & Hw & Hwp).
    destruct (al_copy _ _ _ _ _ _ _ Ha) as (kp' & Hkp' & Heq).
    assert (kp' = kp) as -> by (pose proof (sp_kern _ _ _ _ _ _ _ H); congruence).
    exists w. by rewrite Heq.
  - rewrite Hm by done. apply Hh.
Qed.

(** Page directory [pt] maps nothing of the components of [l]. *)
Definition hides (s : kstate) (l : list nat) (pt : list Z) : Prop :=
  ∀ i x k, i ∈ l → k_spds s !! i = Some x → covered x k →
    ∃ w, pt !! k = Some w ∧ has w PG_PRESENT = false.

(** Composite [j] has the members [l], and its page table maps them and nothing
    of the components of [l']. *)
Definition houses (s s' : kstate) (j : nat) (l l' : list nat) : Prop :=
  members_of s' j l ∧ ∃ c pt, k_mpds s' !! j = Some c ∧ k_mem s' !! p_pg_tbl (m_info c) = Some pt ∧
    spd_mpd_is_depricated c = false ∧ maps s l pt ∧ hides s l' pt.

Lemma split_start s cspd c l pt p pl kp spd d next :
  splittable s cspd c l pt (p :: pl) kp → spd ∈ l → k_mpd_free s = Some d →
  k_mpds s !! d = Some (mpd_free_desc next) → pgtbl_avail s p pl →
  ∃ s1 ptd, allocated s s1 d next p pl ptd ∧
    mpd_split cspd spd s =
    (if (1 =? p_ref_cnt (m_info c))%Z then split_reuse (Z.of_nat d) (Some d) cspd spd
     else split_copy (Z.of_nat d) (Some d) cspd spd) s1.
Proof.
  intros H Hi Hf Hd Hav. pose proof (sp_domain _ _ _ _ _ _ _ H) as D.
  destruct (alloc_domain s d next p pl (sp_ok _ _ _ _ _ _ _ H) Hf Hd Hav) as (s1 & ptd & Hr & Ha).
  pose proof (splittable_allocated _ _ _ _ _ _ _ _ _ _ _ _ H Hd (pa_kern _ _ _ Hav) Ha) as H1.
  exists s1, ptd. split; [done|]. unfold mpd_split.
  rewrite (bind_run _ _ _ _ _ (get_mpd_run _ _ _ (dm_mpd _ _ _ _ _ D))).
  rewrite (dm_comp _ _ _ _ _ D), (dm_dep _ _ _ _ _ D). do 2 (erewrite bind_run by reflexivity).
  destruct (proj1 (mo_in _ _ _ (dm_members _ _ _ _ _ D) spd) Hi) as (x & Hx & Hc).
  rewrite (bind_run _ _ _ _ _ (get_spd_run _ _ _ Hx)). unfold spd_is_member.
  rewrite bool_decide_eq_true_2 by done. erewrite bind_run by reflexivity.
  rewrite (bind_run _ _ _ _ _ (num_members_run s cspd l
    (cw_sizes _ (mk_caps _ (sp_ok _ _ _ _ _ _ _ H))) (dm_members _ _ _ _ _ D))).
  pose proof (sp_many _ _ _ _ _ _ _ H). rewrite (proj2 (Z.ltb_lt 1 _)) by lia.
  erewrite bind_run by reflexivity. rewrite (bind_run _ _ _ _ _ Hr).
  destruct (Z.ltb_spec (Z.of_nat d) 0); [lia|]. unfold spd_mpd_by_idx.
  assert (d < MAX_MPD_DESC) as Hlt.
  { rewrite <-(sz_mpds s (cw_sizes s (mk_caps s (sp_ok _ _ _ _ _ _ _ H)))).
    by eapply lookup_lt_Some. }
  destruct (Z.leb_spec (Z.of_nat MAX_MPD_DESC) (Z.of_nat d)); [lia|].
  destruct (Z.ltb_spec (Z.of_nat d) 0); [lia|]. rewrite Nat2Z.id.
  erewrite bind_run by reflexivity.
  rewrite (bind_run _ _ _ _ _ (get_mpd_run _ _ _ (dm_mpd _ _ _ _ _ (sp_domain _ _ _ _ _ _ _ H1)))).
  by rewrite (splittable_ref _ _ _ _ _ _ _ H).
Qed.

(** The first steps of [mpd_split_composite_populate]. *)
Lemma populate_start s s1 s2 cspd c l pt new1 c1 l1 pt1 new2 spd x :
  domain s cspd c l pt → domain s new1 c1 l1 pt1 → spd ∈ l → new1 ≠ cspd →
  k_spds s !! spd = Some x →
  spd_composite_remove_member spd (bool_decide (new2 = None)) s = Done 0%Z s1 →
  spd_composite_add_member new1 spd s1 = Done 0%Z s2 →
  mpd_split_composite_populate (Some new1) new2 spd cspd s =
  match new2 with
  | None =>
      c ← get_mpd cspd;
      assert (cos_ref_val (m_info c) =? 1)%Z;;
      mret 1%Z
  | Some new2 =>
      assert (bool_decide (new1 ≠ new2));;
      move_loop (S MAX_NUM_SPDS) new2 cspd false
  end s2.
Proof.
  intros D D1 Hi Hne Hx Hr1 Hr2. unfold mpd_split_composite_populate.
  rewrite (bind_run _ _ _ _ _ (get_mpd_run _ _ _ (dm_mpd _ _ _ _ _ D))), (dm_comp _ _ _ _ _ D).
  do 3 (erewrite bind_run by reflexivity).
  rewrite (bind_run _ _ _ _ _ (get_mpd_run _ _ _ (dm_mpd _ _ _ _ _ D1))), (dm_comp _ _ _ _ _ D1).
  erewrite bind_run by reflexivity. rewrite (bind_run _ _ _ _ _ (get_spd_run _ _ _ Hx)).
  destruct (proj1 (mo_in _ _ _ (dm_members _ _ _ _ _ D) spd) Hi) as (x' & Hx' & Hc).
  assert (x' = x) as -> by congruence. unfold spd_is_member.
  rewrite (bool_decide_eq_true_2 (s_composite_spd x = _)), (bool_decide_eq_true_2 (new1 ≠ cspd))
    by done.
  do 2 (erewrite bind_run by reflexivity). rewrite (bind_run _ _ _ _ _ Hr1), (bind_run _ _ _ _ _ Hr2). done.
Qed.

(** The page tables after the component [spd] has left for the new composite. *)
Section SplitTables.
Context (s s1 : kstate) (cspd : nat) (c : composite_spd) (l : list nat) (pt : list Z).
Context (p : Z) (pl kp : list Z) (d : nat) (next : option nat) (ptd : list Z).
Context (H : splittable s cspd c l pt (p :: pl) kp) (Ha : allocated s s1 d next p pl ptd).
Context (spd : nat) (x : Kern.spd) (pf ptd' : list Z) (Hi : spd ∈ l) (Hx : k_spds s !! spd = Some x).
Context (Hpf : k_mem s !! p_pg_tbl (s_info x) = Some pf).
Context (rest : list nat) (Hrest : ∀ i, i ∈ rest → i ∈ l ∧ i ≠ spd).

Lemma copied_hides i y k :
  i ∈ l → k_spds s !! i = Some y → covered y k →
  ∃ w, ptd !! k = Some w ∧ has w PG_PRESENT = false.
Proof.
  intros Hil Hy Hc. destruct (sp_user _ _ _ _ _ _ _ H i y k Hil Hy Hc) as (Hlt & w & Hw & Hwp).
  destruct (al_copy _ _ _ _ _ _ _ Ha) as (kp' & Hkp' & Heq).
  assert (kp' = kp) as -> by (pose proof (sp_kern _ _ _ _ _ _ _ H); congruence).
  exists w. by rewrite Heq.
Qed.

Lemma new_maps : table_upd x ptd ptd' (λ k, pf !! k) → maps s [spd] ptd'.
Proof.
  intros [_ Ht] i y pfi k ->%list_elem_of_singleton Hy Hpi Hc. simplify_eq. by apply Ht.
Qed.

Lemma new_hides : table_upd x ptd ptd' (λ k, pf !! k) → hides s rest ptd'.
Proof.
  intros [_ Ht] i y k Hir Hy Hc. destruct (Hrest i Hir) as [Hil Hne].
  rewrite (proj2 (Ht k)); [by eapply copied_hides|].
  apply (sp_apart _ _ _ _ _ _ _ H i spd y x); done.
Qed.

Lemma old_maps pt' : table_upd x pt pt' (λ _, Some 0%Z) → maps s rest pt'.
Proof.
  intros [_ Ht] i y pfi k Hir Hy Hpi Hc. destruct (Hrest i Hir) as [Hil Hne].
  rewrite (proj2 (Ht k)).
  - destruct (sp_homes _ _ _ _ _ _ _ H i Hil) as (y' & l0 & pf' & [Hpl Ht' _ _] & Hm).
    pose proof (pl_spd _ _ _ _ Hpl). simplify_eq. by apply Hm.
  - apply (sp_apart _ _ _ _ _ _ _ H i spd y x); done.
Qed.

Lemma old_hides pt' : table_upd x pt pt' (λ _, Some 0%Z) → hides s [spd] pt'.
Proof.
  intros [_ Ht] i y k ->%list_elem_of_singleton Hy Hc. simplify_eq. exists 0%Z.
  by rewrite (proj1 (Ht k)).
Qed.
End SplitTables.

Lemma middle_rest {A} (l1 l2 : list A) a i : NoDup (l1 ++ a :: l2) → i ∈ l1 ++ l2 →
  i ∈ l1 ++ a :: l2 ∧ i ≠ a.
Proof.
  rewrite <-Permutation_middle. intros [Hn _]%NoDup_cons Hi. split; [set_solver|by intros ->].
Qed.

(** The split of a composite without other references. *)
Lemma split_reuse_run s cspd c l1 spd l2 pt p pl kp d next :
  splittable s cspd c (l1 ++ spd :: l2) pt (p :: pl) kp → k_mpd_free s = Some d →
  k_mpds s !! d = Some (mpd_free_desc next) → pgtbl_avail s p pl →
  p_ref_cnt (m_info c) = 1%Z →
  ∃ s', mpd_split cspd spd s = Done (0%Z, Some (Z.of_nat d, Z.of_nat cspd)) s' ∧ mpd_ok s' ∧
    houses s s' d [spd] (l1 ++ l2) ∧ houses s s' cspd (l1 ++ l2) [spd].
Proof.
  intros H Hf Hd Hav Href. set (l := l1 ++ spd :: l2) in *.
  assert (spd ∈ l) as Hi by apply elem_of_middle.
  destruct (split_start s cspd c l pt p pl kp spd d next H Hi Hf Hd Hav) as (s1 & ptd & Ha & Hsp).
  pose proof (pa_kern _ _ _ Hav) as Hk. pose proof (splittable_free _ _ _ _ _ _ _ _ _ H Hd) as Hne.
  pose proof (splittable_allocated _ _ _ _ _ _ _ _ _ _ _ _ H Hd Hk Ha) as H1.
  pose proof (splittable_guest _ _ _ _ _ _ _ _ _ _ _ _ spd H Hd Hk Ha Hi)
    as (x & l0 & pf & Hh & Hxd & Hxo & Habs & Hpre).
  destruct (sp_homes _ _ _ _ _ _ _ H spd Hi) as (x0 & ? & pf0 & [Hpl0 Hpf _ _] & _).
  pose proof (pl_spd _ _ _ _ Hpl0) as Hx0.
  assert (x0 = x) as ->.
  { pose proof (pl_spd _ _ _ _ (hm_placed _ _ _ _ _ Hh)) as Hx.
    rewrite (sm_spds _ _ (al_same _ _ _ _ _ _ _ Ha)) in Hx. congruence. }
  assert (pf0 = pf) as ->.
  { pose proof (hm_table _ _ _ _ _ Hh) as Ht.
    rewrite (al_mem _ _ _ _ _ _ _ Ha), lookup_insert_ne in Ht by done. congruence. }
  pose proof (sp_domain _ _ _ _ _ _ _ H1) as D1.
  pose proof (sp_table _ _ _ _ _ _ _ H) as [Htt _]%not_elem_of_cons.
  destruct (move_leave_join s1 d _ [] ptd cspd c l1 l2 pt spd x l0 pf true (al_ok _ _ _ _ _ _ _ Ha)
    (al_domain _ _ _ _ _ _ _ Ha) D1 Hne ltac:(done)
    ltac:(rewrite (splittable_ref _ _ _ _ _ _ _ H); lia) Hh Hxd Hxo Habs Hpre)
    as (s2 & s3 & ptd' & pto' & Hr1 & Hr2 & Hok & D & D' & Hm & Htd & [_ Hto] & _).
  pose proof (middle_rest l1 l2 spd) as Hrest.
  specialize (λ i, Hrest i (mo_nodup _ _ _ (dm_members _ _ _ _ _ D1))) as Hrest'.
  exists s3. split_and!; [|done| |].
  - rewrite Hsp, Href. cbn [Z.eqb Pos.eqb]. unfold split_reuse. erewrite bind_run.
    2: { erewrite (populate_start s1 s2 s3);
           [|exact D1|apply Ha|done|done|apply Hh|exact Hr1|exact Hr2].
         rewrite (bind_run _ _ _ _ _ (get_mpd_run _ _ _ (dm_mpd _ _ _ _ _ D'))).
         change (m_info (set_m_members _ c)) with (m_info c).
         rewrite (splittable_ref _ _ _ _ _ _ _ H), Href. reflexivity. }
    cbn [negb Z.eqb Pos.eqb]. rewrite spd_mpd_index_id; [done|].
    rewrite <-(sz_mpds s (cw_sizes s (mk_caps s (sp_ok _ _ _ _ _ _ _ H)))).
    eapply lookup_lt_Some, (sp_domain _ _ _ _ _ _ _ H).
  - split; [apply D|]. eexists _, ptd'. split_and!; [apply D|apply D|apply D| |].
    + eapply new_maps; done.
    + eapply new_hides; done.
  - split; [apply D'|]. eexists _, pto'. split_and!; [apply D'|apply D'|apply D'| |].
    + eapply old_maps; done.
    + eapply old_hides; done.
Qed.

Lemma guest_alike s s' td pd to po k :
  guest s td pd to po k → spds_alike s s' →
  (∀ y, k_spds s !! k = Some y →
    k_mem s' !! p_pg_tbl (s_info y) = k_mem s !! p_pg_tbl (s_info y)) →
  guest s' td pd to po k.
Proof.
  intros (y & l0 & pf & [Hpl Ht Hlen Hpr] & Hd & Ho & Habs & Hpre) Hs Hm.
  pose proof (pl_spd _ _ _ _ Hpl) as Hy. destruct (Hs k y Hy) as (y' & Hy' & Ha).
  exists y', l0, pf. rewrite (proj1 Ha). split_and!; try done.
  split; [by eapply placed_alike| |done|done]. by rewrite (proj1 Ha), Hm.
Qed.

(** The members [rest] are moved on from [s3], a state with the same
    components and component page tables as [s]. *)
Lemma rest_maps s s3 rest l' pd pd' :
  spds_alike s s3 → (∀ i, i ∈ l' ↔ i ∈ rest) →
  (∀ i y, i ∈ rest → k_spds s !! i = Some y →
    k_mem s3 !! p_pg_tbl (s_info y) = k_mem s !! p_pg_tbl (s_info y)) →
  maps_in s3 rest pd pd' → maps s l' pd'.
Proof.
  intros Hs Hl Hm [Hin _] i y pf k Hi Hy Hpf Hc. apply Hl in Hi.
  destruct (Hs i y Hy) as (y' & Hy' & Ha). apply (Hin i y'); [done|done| |].
  - rewrite (proj1 Ha), (Hm i) by done. done.
  - by apply (alike_covered _ _ _ Ha).
Qed.

Lemma rest_hides s s3 rest spd pd pd' :
  spds_alike s s3 → (∀ i, i ∈ rest → is_Some (k_spds s !! i)) →
  (∀ i y x k, i ∈ rest → k_spds s !! i = Some y → k_spds s !! spd = Some x →
    covered x k → ¬ covered y k) →
  hides s [spd] pd → maps_in s3 rest pd pd' → hides s [spd] pd'.
Proof.
  intros Hs Hsome Hdis Hh [_ Hout] i x k Hi Hx Hc. rewrite Hout; [by eapply Hh|].
  apply list_elem_of_singleton in Hi as ->. intros i y' Hi Hy'.
  destruct (Hsome i Hi) as [y Hy].
  rewrite (alike_covered _ _ _ (alike_back _ _ _ _ _ Hs Hy Hy')). by eapply Hdis.
Qed.

(** Giving up the composite that was split. *)
Lemma depricate_run s cspd c :
  k_mpds s !! cspd = Some c → (1 < p_ref_cnt (m_info c) < 2 ^ 31)%Z →
  ∃ c', spd_mpd_depricate cspd s = Done tt (set_k_mpds (<[cspd := c']> (k_mpds s)) s) ∧
    m_members c' = m_members c ∧ p_pg_tbl (m_info c') = p_pg_tbl (m_info c) ∧
    p_ref_cnt (m_info c') = (p_ref_cnt (m_info c) - 1)%Z ∧ spd_mpd_is_depricated c' = true.
Proof.
  intros Hc Hr. pose proof (lookup_lt_Some _ _ _ Hc) as Hlt.
  unfold spd_mpd_depricate, spd_mpd_set_flags. cbn [upd_poly].
  rewrite (bind_run _ _ _ _ _ (upd_mpd_run _ _ _ _ Hc)).
  unfold spd_mpd_release. change MAX_MPD_DESC with (S 1023).
  erewrite mpd_release_dec; [|cbn; by apply list_lookup_insert_eq|done].
  cbn [k_mpds set_k_mpds]. rewrite list_insert_insert_eq. eexists. split; [reflexivity|].
  split_and!; try done.
  - cbn. rewrite s32_id; lia.
  - unfold spd_mpd_is_depricated. cbn. rewrite has_bset. by rewrite orb_true_r.
Qed.

Lemma set_mpd_same s j c c' :
  k_mpds s !! j = Some c → m_members c' = m_members c →
  same_members s (set_k_mpds (<[j := c']> (k_mpds s)) s).
Proof.
  intros Hc Hm. split; try done. intros k. cbn. destruct (decide (k = j)) as [->|Hk].
  - rewrite list_lookup_insert_eq by by eapply lookup_lt_Some. rewrite Hc. cbn. by rewrite Hm.
  - by rewrite list_lookup_insert_ne.
Qed.

(** After the second allocation, the two new composites and the guests. *)
Record copy_ready (s s2 : kstate) (cspd : nat) (c : composite_spd) (l : list nat) (pt pl kp : list Z)
    (d1 : nat) (p1 : Z) (pt1 : list Z) (d2 : nat) (p2 : Z) (pt2 : list Z) : Prop := {
  cr_split : splittable s2 cspd c l pt pl kp;
  cr_first : domain s2 d1 (mpd_fresh d1 (va_to_pa p1)) [] pt1;
  cr_second : domain s2 d2 (mpd_fresh d2 (va_to_pa p2)) [] pt2;
  cr_ne : d1 ≠ cspd ∧ d2 ≠ cspd ∧ d1 ≠ d2;
  cr_tables : va_to_pa p1 ≠ va_to_pa p2 ∧ p_pg_tbl (m_info c) ≠ va_to_pa p1 ∧
    p_pg_tbl (m_info c) ≠ va_to_pa p2;
  cr_guest1 : ∀ i, i ∈ l → guest s2 (va_to_pa p1) pt1 (p_pg_tbl (m_info c)) pt i;
  cr_guest2 : ∀ i, i ∈ l → guest s2 (va_to_pa p2) pt2 (p_pg_tbl (m_info c)) pt i;
  cr_spds : k_spds s2 = k_spds s;
  cr_mem : ∀ i x, i ∈ l → k_spds s !! i = Some x →
    k_mem s2 !! p_pg_tbl (s_info x) = k_mem s !! p_pg_tbl (s_info x)
}.

Lemma copy_ready_run s s1 cspd c l pt p1 p2 pl kp d1 d2 next pt1 :
  splittable s cspd c l pt (p1 :: p2 :: pl) kp → allocated s s1 d1 (Some d2) p1 (p2 :: pl) pt1 →
  pgtbl_avail s p1 (p2 :: pl) → k_mpds s !! d1 = Some (mpd_free_desc (Some d2)) →
  k_mpds s !! d2 = Some (mpd_free_desc next) → d1 ≠ d2 →
  va_to_pa p2 ≠ 0%Z → va_to_pa p2 ≠ k_kern_pgtbl s →
  (∀ pg, k_mem s !! va_to_pa p2 = Some pg → length pg = PGD_PER_PTBL) →
  ∃ s2 pt2, spd_alloc_mpd_desc s1 = Done (Z.of_nat d2) s2 ∧
    allocated s1 s2 d2 next p2 pl pt2 ∧
    copy_ready s s2 cspd c l pt pl kp d1 p1 pt1 d2 p2 pt2.
Proof.
  intros H Ha Hav Hd1 Hd2 H12 H0 Hk2 Hpg.
  pose proof (pa_kern _ _ _ Hav) as Hk1.
  pose proof (splittable_allocated _ _ _ _ _ _ _ _ _ _ _ _ H Hd1 Hk1 Ha) as H1.
  pose proof (avail_allocated _ _ _ _ _ _ _ _ Ha Hav H0 Hk2 Hpg) as Hav2.
  assert (k_mpds s1 !! d2 = Some (mpd_free_desc next)) as Hd2'
    by by rewrite (al_mpds _ _ _ _ _ _ _ Ha), list_lookup_insert_ne.
  destruct (alloc_domain s1 d2 next p2 pl (al_ok _ _ _ _ _ _ _ Ha) (al_free _ _ _ _ _ _ _ Ha)
    Hd2' Hav2) as (s2 & pt2 & Hr & Ha2).
  pose proof (pa_kern _ _ _ Hav2) as Hk2'.
  pose proof (splittable_allocated _ _ _ _ _ _ _ _ _ _ _ _ H1 Hd2' Hk2' Ha2) as H2.
  pose proof (po_nodup _ _ (pa_pool _ _ _ Hav)) as Hnd. cbn in Hnd.
  apply NoDup_cons in Hnd as [[Hn12 _]%not_elem_of_cons _].
  pose proof (sp_table _ _ _ _ _ _ _ H) as [Ht1 [Ht2 _]%not_elem_of_cons]%not_elem_of_cons.
  pose proof (sm_spds _ _ (al_same _ _ _ _ _ _ _ Ha)) as Hs1.
  pose proof (sm_spds _ _ (al_same _ _ _ _ _ _ _ Ha2)) as Hs2.
  assert (∀ i x, i ∈ l → k_spds s !! i = Some x →
    p_pg_tbl (s_info x) ≠ va_to_pa p1 ∧ p_pg_tbl (s_info x) ≠ va_to_pa p2) as Htb.
  { intros i x Hi Hx. destruct (sp_tables _ _ _ _ _ _ _ H i x Hi Hx) as [_ Hn].
    by apply not_elem_of_cons in Hn as [? [? _]%not_elem_of_cons]. }
  assert (spds_alike s1 s2) as Hal by (intros k y Hy; exists y; by rewrite Hs2).
  exists s2, pt2. split_and!; [done|done|]. split; [done| |apply Ha2| | | | | |].
  - eapply domain_allocated; [done|apply Ha|done|done].
  - split_and!; [exact (splittable_free _ _ _ _ _ _ _ _ _ H Hd1)
      |exact (splittable_free _ _ _ _ _ _ _ _ _ H1 Hd2')|done].
  - done.
  - intros i Hi. eapply guest_alike;
      [exact (splittable_guest _ _ _ _ _ _ _ _ _ _ _ _ i H Hd1 Hk1 Ha Hi)|done|].
    intros y Hy. rewrite Hs1 in Hy. rewrite (al_mem _ _ _ _ _ _ _ Ha2), lookup_insert_ne; [done|].
    apply not_eq_sym, (Htb i y Hi Hy).
  - intros i Hi. exact (splittable_guest _ _ _ _ _ _ _ _ _ _ _ _ i H1 Hd2' Hk2' Ha2 Hi).
  - congruence.
  - intros i x Hi Hx. destruct (Htb i x Hi Hx) as [Hx1 Hx2].
    by rewrite (al_mem _ _ _ _ _ _ _ Ha2), (al_mem _ _ _ _ _ _ _ Ha), !lookup_insert_ne.
Qed.

(** What populating the two new composites gives. *)
Record populated (s s4 : kstate) (cspd : nat) (c : composite_spd) (rest : list nat) (pt : list Z)
    (d1 : nat) (spd : nat) (d2 : nat) (l' : list nat) : Prop := {
  pp_ok : mpd_ok s4;
  pp_first : houses s s4 d1 [spd] rest;
  pp_second : houses s s4 d2 l' [spd];
  pp_rest : ∀ i, i ∈ l' ↔ i ∈ rest;
  pp_old : k_mpds s4 !! cspd = Some (set_m_members None c);
  pp_table : k_mem s4 !! p_pg_tbl (m_info c) = Some pt
}.

Lemma populate_copy s s1 s2 cspd c l1 spd l2 pt pl kp d1 p1 pt1 d2 next p2 pt2 :
  copy_ready s s2 cspd c (l1 ++ spd :: l2) pt pl kp d1 p1 pt1 d2 p2 pt2 →
  hides s (l1 ++ spd :: l2) pt1 → hides s (l1 ++ spd :: l2) pt2 →
  allocated s1 s2 d2 next p2 pl pt2 →
  ∃ s4 l', mpd_split_composite_populate (Some d1) (Some d2) spd cspd s2 = Done 0%Z s4 ∧
    populated s s4 cspd c (l1 ++ l2) pt d1 spd d2 l'.
Proof.
  intros [H D1 D2 (Hne1 & Hne2 & H12) (Ht12 & Ht1 & Ht2) Hg1 Hg2 Hsp Hmem] Hh1 Hh2 Ha2.
  set (l := l1 ++ spd :: l2) in *. assert (spd ∈ l) as Hi by apply elem_of_middle.
  destruct (Hg1 spd Hi) as (x & l0 & pf & Hh & Hxd & Hxo & Habs & Hpre).
  pose proof (sp_domain _ _ _ _ _ _ _ H) as D. pose proof (pl_spd _ _ _ _ (hm_placed _ _ _ _ _ Hh)) as Hx.
  assert (0 < cos_ref_val (m_info c))%Z as Href.
  { rewrite (splittable_ref _ _ _ _ _ _ _ H). apply H. }
  destruct (move_leave_join s2 d1 _ [] pt1 cspd c l1 l2 pt spd x l0 pf false (sp_ok _ _ _ _ _ _ _ H)
    D1 D Hne1 ltac:(done) Href Hh Hxd Hxo Habs Hpre)
    as (sa & s3 & pt1' & pto & Hr1 & Hr2 & Hok3 & D1' & D' & Hm3 & Htd & [_ ->] & Hal & Hfr & Hkeep & Hmp).
  cbn [p_pg_tbl m_info mpd_fresh] in Hm3.
  pose proof (mo_nodup _ _ _ (dm_members _ _ _ _ _ D)) as Hnd.
  assert (∀ i, i ∈ l1 ++ l2 → i ∈ l ∧ i ≠ spd) as Hrest by (intros i; by apply middle_rest).
  assert (∀ i y, i ∈ l1 ++ l2 → k_spds s !! i = Some y →
    k_mem s3 !! p_pg_tbl (s_info y) = k_mem s !! p_pg_tbl (s_info y)) as Hm3s.
  { intros i y [Hil _]%Hrest Hy. rewrite <-(Hmem i y Hil Hy), Hm3. rewrite <-Hsp in Hy.
    destruct (Hg1 i Hil) as (y' & ? & ? & Hhy & Hy1 & Hy2 & _).
    pose proof (pl_spd _ _ _ _ (hm_placed _ _ _ _ _ Hhy)). simplify_eq.
    by rewrite !lookup_insert_ne. }
  assert (domain s3 d2 (mpd_fresh d2 (va_to_pa p2)) [] pt2) as D2'.
  { destruct D2 as [E1 E2 E3 E4 E5 E6 E7]. split; try done.
    - by rewrite Hmp, !list_lookup_insert_ne.
    - by apply Hkeep.
    - by rewrite Hm3, !lookup_insert_ne. }
  destruct (move_loop_run (S MAX_NUM_SPDS) s3 d2 _ [] pt2 cspd _ (l1 ++ l2) pt false Hok3 D2' D' Hne2)
    as (s4 & pt2' & pt' & Hr3 & [Hok4 D24 D'4 Hm4 Hmi _ _ Hk4 Hmp4] & Hpt);
    [done|done| | |pose proof (members_length _ _ _ (cw_sizes _ (mk_caps _ Hok3))
       (dm_members _ _ _ _ _ D')); lia|].
  { intros i Hir. destruct (Hrest i Hir) as [Hil _].
    eapply guest_alike; [by apply Hg2|done|]. intros y Hy. rewrite Hsp in Hy.
    by rewrite (Hm3s i y), (Hmem i y). }
  { apply (apart_alike s2 s3 l); [apply H|done|]. intros i [Hil _]%Hrest. split; [done|].
    destruct (Hg2 i Hil) as (y & ? & ? & Hhy & _). exists y. apply Hhy. }
  specialize (Hpt eq_refl) as ->. cbn [p_pg_tbl m_info mpd_fresh set_m_members] in Hm4.
  assert (spds_alike s s3) as Hal3 by (unfold spds_alike in *; by rewrite <-Hsp).
  exists s4, (reverse (l1 ++ l2) ++ []). split.
  { erewrite (populate_start s2 sa s3);
      [|exact D|exact D1|done|done|exact Hx|exact Hr1|exact Hr2].
    rewrite bool_decide_eq_true_2 by done. erewrite bind_run by reflexivity. exact Hr3. }
  assert (∀ i, i ∈ reverse (l1 ++ l2) ++ [] ↔ i ∈ l1 ++ l2) as Hl'
    by (intros i; by rewrite app_nil_r, elem_of_reverse).
  split; [done| | |done| |].
  - split; [apply Hk4; [done|done|apply D1']|]. eexists _, pt1'. split_and!.
    + rewrite Hmp4, !list_lookup_insert_ne by done. apply D1'.
    + cbn. rewrite Hm4, !lookup_insert_ne by done. apply D1'.
    + done.
    + intros i y pfi k ->%list_elem_of_singleton Hy Hpi Hc. rewrite Hsp in Hx.
      assert (y = x) as -> by congruence.
      rewrite <-(Hmem spd x Hi Hy), (hm_table _ _ _ _ _ Hh) in Hpi. injection Hpi as ->.
      by apply Htd.
    + intros i y k Hir Hy Hc. destruct (Hrest i Hir) as [Hil Hne].
      rewrite (proj2 (proj2 Htd k)); [by eapply Hh1|]. rewrite <-Hsp in Hy.
      apply (sp_apart _ _ _ _ _ _ _ H i spd y x); done.
  - split; [apply D24|]. eexists _, pt2'. split_and!; [apply D24|apply D24|done| |].
    + by eapply rest_maps.
    + eapply (rest_hides s s3 (l1 ++ l2)); [done| | | |done].
      * intros i [Hil _]%Hrest. destruct (Hg2 i Hil) as (y & ? & ? & Hhy & _).
        exists y. rewrite <-Hsp. apply Hhy.
      * intros i y z k [Hil Hne]%Hrest Hy Hz Hc. rewrite <-Hsp in Hy, Hz.
        apply (sp_apart _ _ _ _ _ _ _ H spd i z y); done.
      * intros i y k ->%list_elem_of_singleton. by apply Hh2.
  - rewrite Hmp4, list_lookup_insert_ne by done. apply list_lookup_insert_eq.
    eapply lookup_lt_Some, D'.
  - rewrite Hm4, lookup_insert_ne by done. apply lookup_insert_eq.
Qed.

Lemma houses_depricated s s4 j l l' cspd c' co :
  houses s s4 j l l' → j ≠ cspd → k_mpds s4 !! cspd = Some co → m_members c' = m_members co →
  houses s (set_k_mpds (<[cspd := c']> (k_mpds s4)) s4) j l l'.
Proof.
  intros [Hm (c & pt & Hc & Hr)] Hne Hco Hmem. split.
  - eapply members_of_same; [by eapply set_mpd_same|done].
  - exists c, pt. cbn. by rewrite list_lookup_insert_ne.
Qed.

(** The split of a composite that threads still execute in. *)
Lemma split_copy_run s cspd c l1 spd l2 pt p1 p2 pl kp d1 d2 next :
  splittable s cspd c (l1 ++ spd :: l2) pt (p1 :: p2 :: pl) kp → k_mpd_free s = Some d1 →
  k_mpds s !! d1 = Some (mpd_free_desc (Some d2)) →
  k_mpds s !! d2 = Some (mpd_free_desc next) → d1 ≠ d2 → pgtbl_avail s p1 (p2 :: pl) →
  va_to_pa p2 ≠ 0%Z → va_to_pa p2 ≠ k_kern_pgtbl s →
  (∀ pg, k_mem s !! va_to_pa p2 = Some pg → length pg = PGD_PER_PTBL) →
  (1 < p_ref_cnt (m_info c))%Z →
  ∃ s' l' c', mpd_split cspd spd s = Done (0%Z, Some (Z.of_nat d1, Z.of_nat d2)) s' ∧ mpd_ok s' ∧
    houses s s' d1 [spd] (l1 ++ l2) ∧ houses s s' d2 l' [spd] ∧ (∀ i, i ∈ l' ↔ i ∈ l1 ++ l2) ∧
    k_mpds s' !! cspd = Some c' ∧ spd_mpd_is_depricated c' = true ∧
    k_mem s' !! p_pg_tbl (m_info c') = Some pt.
Proof.
  intros H Hf Hd1 Hd2 H12 Hav H0 Hk2 Hpg Href. set (l := l1 ++ spd :: l2) in *.
  assert (spd ∈ l) as Hi by apply elem_of_middle.
  destruct (split_start s cspd c l pt p1 _ kp spd d1 _ H Hi Hf Hd1 Hav) as (s1 & pt1 & Ha & Hsp).
  destruct (copy_ready_run s s1 cspd c l pt p1 p2 pl kp d1 d2 next pt1 H Ha Hav Hd1 Hd2 H12 H0 Hk2 Hpg)
    as (s2 & pt2 & Hr2 & Ha2 & Hcr).
  pose proof (splittable_allocated _ _ _ _ _ _ _ _ _ _ _ _ H Hd1 (pa_kern _ _ _ Hav) Ha) as H1.
  destruct (populate_copy s s1 s2 cspd c l1 spd l2 pt pl kp d1 p1 pt1 d2 next p2 pt2 Hcr)
    as (s4 & l' & Hr4 & [Hok Hf1 Hf2 Hl' Hold Htab]);
    [intros i x k; by eapply copied_hides| |done|].
  { intros i x k Hil Hx Hc. apply (copied_hides s1 s2 cspd c l pt p2 pl kp d2 next pt2 H1 Ha2 i x k);
      [done|by rewrite (sm_spds _ _ (al_same _ _ _ _ _ _ _ Ha))|done]. }
  pose proof (sp_ref _ _ _ _ _ _ _ H) as [_ Hmax].
  destruct (depricate_run s4 cspd _ Hold (conj Href Hmax)) as (c' & Hrd & Hm' & Ht' & _ & Hdep).
  destruct (cr_ne _ _ _ _ _ _ _ _ _ _ _ _ _ _ Hcr) as (Hn1 & Hn2 & _).
  eexists _, l', c'. split; [|split_and!; [|by eapply houses_depricated..|done| |done|]].
  - rewrite Hsp. rewrite (proj2 (Z.eqb_neq 1 _)) by lia. unfold split_copy.
    rewrite (bind_run _ _ _ _ _ Hr2). destruct (Z.ltb_spec (Z.of_nat d2) 0); [lia|].
    unfold spd_mpd_by_idx.
    assert (d2 < MAX_MPD_DESC) as Hlt.
    { rewrite <-(sz_mpds s (cw_sizes s (mk_caps s (sp_ok _ _ _ _ _ _ _ H)))).
      by eapply lookup_lt_Some. }
    destruct (Z.leb_spec (Z.of_nat MAX_MPD_DESC) (Z.of_nat d2)); [lia|].
    destruct (Z.ltb_spec (Z.of_nat d2) 0); [lia|]. rewrite Nat2Z.id.
    do 2 (erewrite bind_run by reflexivity). rewrite (bind_run _ _ _ _ _ Hr4).
    do 2 (erewrite bind_run by reflexivity). cbn [negb Z.eqb].
    rewrite (bind_run _ _ _ _ _ Hrd).
    destruct Hf1 as [_ (c1 & ? & Hc1 & _ & Hdp1 & _)], Hf2 as [_ (c2 & ? & Hc2 & _ & Hdp2 & _)].
    erewrite bind_run by (apply get_mpd_run; cbn; by rewrite list_lookup_insert_ne).
    erewrite bind_run by (apply get_mpd_run; cbn; by rewrite list_lookup_insert_ne).
    rewrite Hdp1, Hdp2. done.
  - eapply mpd_ok_same; [by eapply set_mpd_same|done].
  - cbn. apply list_lookup_insert_eq. by eapply lookup_lt_Some.
  - cbn in Ht' |- *. by rewrite Ht'.
Qed.

(** C4. Splitting a component out of its composite: it is alone in a composite of
    its own and all other members are together in one, either the old one or,
    if threads still execute there, a new one, the old one being outdated but
    with its page table unchanged.  Each of the two page directories maps its
    members as their own page directories do and nothing of the components on
    the other side, and the invariant that components call each other directly
    exactly within a composite is kept.  The loop over the members terminates,
    and no assertion or fault is reached. *)
Theorem split_separates s cspd c l1 spd l2 pt p1 p2 pl kp d1 d2 next :
  splittable s cspd c (l1 ++ spd :: l2) pt (p1 :: p2 :: pl) kp → k_mpd_free s = Some d1 →
  k_mpds s !! d1 = Some (mpd_free_desc (Some d2)) →
  k_mpds s !! d2 = Some (mpd_free_desc next) → d1 ≠ d2 → pgtbl_avail s p1 (p2 :: pl) →
  va_to_pa p2 ≠ 0%Z → va_to_pa p2 ≠ k_kern_pgtbl s →
  (∀ pg, k_mem s !! va_to_pa p2 = Some pg → length pg = PGD_PER_PTBL) →
  ∃ s' old l', mpd_split cspd spd s = Done (0%Z, Some (Z.of_nat d1, Z.of_nat old)) s' ∧
    mpd_ok s' ∧ houses s s' d1 [spd] l' ∧ houses s s' old l' [spd] ∧
    (∀ i, i ∈ l' ↔ i ∈ l1 ++ l2) ∧
    (old = cspd ∨ ∃ c', k_mpds s' !! cspd = Some c' ∧ spd_mpd_is_depricated c' = true ∧
      k_mem s' !! p_pg_tbl (m_info c') = Some pt).
Proof.
  intros H Hf Hd1 Hd2 H12 Hav H0 Hk2 Hpg.
  destruct (decide (p_ref_cnt (m_info c) = 1%Z)) as [Href|Href].
  - destruct (split_reuse_run s cspd c l1 spd l2 pt p1 (p2 :: pl) kp d1 (Some d2) H Hf Hd1 Hav Href)
      as (s' & Hr & Hok & Hh1 & Hh2).
    exists s', cspd, (l1 ++ l2). by split_and!; auto.
  - pose proof (sp_ref _ _ _ _ _ _ _ H) as Hr0.
    destruct (split_copy_run s cspd c l1 spd l2 pt p1 p2 pl kp d1 d2 next H Hf Hd1 Hd2 H12 Hav H0 Hk2
      Hpg ltac:(lia)) as (s' & l' & c' & Hr & Hok & [Hm (c1 & q & Hc1 & Hq & Hdp & Hmp & Hhd)] & Hh2
        & Hl' & Hc).
    exists s', d2, l'. split_and!; [done|done| |done|done|eauto].
    split; [done|]. exists c1, q. split_and!; [done|done|done|done|].
    intros i x k Hi. apply Hhd. by apply Hl'.
Qed.

(** ** Examples *)

(** The example of MpdInv.v, with threads in composite 5, two free descriptors
    and two pages in the pool. *)
Definition split_c : composite_spd :=
  MkMpd (MkPoly SPD_COMPOSITE 2 4096) (Some 0) None (Some 5) (Some 5).
Definition split_pt : list Z := pgd0.[1 := 7%Z].[3 := 7%Z].
Definition split_pages : gmap Z (list Z) :=
  {[ 4096%Z := split_pt; 8192%Z := pgd0.[1 := 7%Z]; 16384%Z := pgd0.[3 := 7%Z];
     20480%Z := pgd0.[256 := 7%Z]; 24576%Z := pgd0.[0 := pa_to_va 28672]; 28672%Z := pgd0 ]}.
Definition split_demo : kstate :=
  set_k_mpds (<[0 := mpd_free_desc (Some 1)]> (<[1 := mpd_free_desc (Some 2)]>
      (<[5 := split_c]> (k_mpds mpd_demo))))
    (set_k_mpd_free (Some 0) (set_k_kern_pgtbl 20480 (set_k_pool_head (pa_to_va 24576)
      (set_k_pool_len 2 (set_k_mem split_pages mpd_demo))))).

Lemma split_demo_same : same_members mpd_demo split_demo.
Proof.
  split; try done. intros j. destruct (decide (j = 0)) as [->|H0]; [done|].
  destruct (decide (j = 1)) as [->|H1]; [done|]. destruct (decide (j = 5)) as [->|H5]; [done|].
  unfold split_demo. cbn [k_mpds set_k_mpds]. by rewrite !list_lookup_insert_ne by done.
Qed.

Lemma split_demo_domain : domain split_demo 5 split_c [0; 2] split_pt.
Proof.
  split; [done|done|done|done| |done|done].
  eapply members_of_same; [apply split_demo_same|apply demo_members].
Qed.

(** Components with one range of 4 MB cover one entry. *)
Lemma demo_covered i base range tbl lo pg p n k :
  covered (demo_comp i base range tbl lo pg p n) k ↔ k = Z.to_nat (pgd_index lo).
Proof.
  unfold covered. change (s_location _) with (MkLoc lo (2 ^ 22) :: replicate 7 (MkLoc 0 0)).
  split.
  - intros (l & [->|[-> _]%elem_of_replicate]%elem_of_cons & H1 & H2); [|done].
    change (span_of _) with 1 in H2. cbn [l_lowest_addr] in H2. lia.
  - intros ->. exists (MkLoc lo (2 ^ 22)). split; [by left|]. split; [done|].
    change (span_of _) with 1. cbn [l_lowest_addr]. lia.
Qed.

Lemma split_demo_comp i : i ∈ [0; 2] →
  k_spds split_demo !! i = Some (demo_spds i) ∧
  ∃ a, (a = 1 ∨ a = 3) ∧ (∀ k, covered (demo_spds i) k ↔ k = a) ∧
    (i = 0 ∧ a = 1 ∨ i = 2 ∧ a = 3).
Proof.
  intros [->|[->|[]%elem_of_nil]%elem_of_cons]%elem_of_cons; (split; [done|]).
  - exists 1. split_and!; [by left| |by left]. intros k. apply demo_covered.
  - exists 3. split_and!; [by right| |by right]. intros k. apply demo_covered.
Qed.

Lemma demo_home s i base range tbl lo pg p n pf w :
  k_spds s !! i = Some (demo_comp i base range tbl lo pg p n) →
  Z.to_nat (pgd_index lo) < 1024 → k_mem s !! pg = Some pf → length pf = PGD_PER_PTBL →
  pf !! Z.to_nat (pgd_index lo) = Some w → has w PG_PRESENT = true →
  home s i (demo_comp i base range tbl lo pg p n) (MkLoc lo (2 ^ 22)) pf.
Proof.
  intros Hi Hlo Hpf Hlen Hw Hp. split; [|done|done|by exists w].
  split; [done| |done|].
  - split; [done|]. intros l Hl Hne.
    change (l ∈ MkLoc lo (2 ^ 22) :: replicate 7 (MkLoc 0 0)) in Hl.
    apply elem_of_cons in Hl as [->|[-> _]%elem_of_replicate]; [|done].
    change (span_of (l_size (MkLoc lo (2 ^ 22)))) with 1. cbn [l_lowest_addr].
    unfold PGD_PER_PTBL. lia.
  - split; [done|]. unfold first_idx. change (span_of (l_size (MkLoc lo (2 ^ 22)))) with 1. lia.
Qed.

Lemma split_demo_splittable :
  splittable split_demo 5 split_c [0; 2] split_pt [pa_to_va 24576; pa_to_va 28672]
    (pgd0.[256 := 7%Z]).
Proof.
  split.
  - eapply mpd_ok_same; [apply split_demo_same|apply demo_ok].
  - apply split_demo_domain.
  - cbn. lia.
  - cbn. lia.
  - intros i [->|[->|[]%elem_of_nil]%elem_of_cons]%elem_of_cons.
    + eexists _, _, (pgd0.[1 := 7%Z]).
      split; [by eapply demo_home; [reflexivity|vm_compute; lia|reflexivity..]|].
      intros k ->%demo_covered. reflexivity.
    + eexists _, _, (pgd0.[3 := 7%Z]).
      split; [by eapply demo_home; [reflexivity|vm_compute; lia|reflexivity..]|].
      intros k ->%demo_covered. reflexivity.
  - intros i k x y a Hi Hk Hne Hx Hy Hcx Hcy.
    destruct (split_demo_comp i Hi) as (Hx' & b & _ & Hb & Hib).
    destruct (split_demo_comp k Hk) as (Hy' & d & _ & Hd & Hkd).
    assert (x = demo_spds i) as -> by congruence. assert (y = demo_spds k) as -> by congruence.
    apply Hb in Hcx. apply Hd in Hcy. lia.
  - reflexivity.
  - intros i x k Hi Hx Hc. destruct (split_demo_comp i Hi) as (Hx' & b & Hb & Hcb & _).
    assert (x = demo_spds i) as -> by congruence. apply Hcb in Hc as ->.
    destruct Hb as [-> | ->]; (split; [lia|by exists 0%Z]).
  - by apply (bool_decide_unpack _).
  - intros i x Hi Hx. destruct (split_demo_comp i Hi) as (Hx' & b & _).
    assert (x = demo_spds i) as -> by congruence.
    apply elem_of_cons in Hi as [->|[->|[]%elem_of_nil]%elem_of_cons];
      (split; [done|by apply (bool_decide_unpack _)]).
Qed.

Lemma split_separates_witness :
  ∃ s' old l', mpd_split 5 0 split_demo = Done (0%Z, Some (0%Z, Z.of_nat old)) s' ∧
    mpd_ok s' ∧ houses split_demo s' 0 [0] l' ∧ houses split_demo s' old l' [0] ∧
    (∀ i, i ∈ l' ↔ i ∈ [2]) ∧
    (old = 5 ∨ ∃ c', k_mpds s' !! 5 = Some c' ∧ spd_mpd_is_depricated c' = true ∧
      k_mem s' !! p_pg_tbl (m_info c') = Some split_pt).
Proof.
  apply (split_separates split_demo 5 split_c [] 0 [2] split_pt (pa_to_va 24576) (pa_to_va 28672)
    [] (pgd0.[256 := 7%Z]) 0 1 (Some 2)); try done.
  - apply split_demo_splittable.
  - split; [|cbn; lia|done|done| |].
    + split; [|by apply (bool_decide_unpack _)|done].
      split_and!; [done|done|]. exists (pgd0.[0 := pa_to_va 28672]), (pa_to_va 28672).
      split_and!; [done|done|]. split_and!; [done|done|]. by exists pgd0, 0%Z.
    + intros pg Hpg. vm_compute in Hpg. by simplify_eq.
    + by exists (pgd0.[256 := 7%Z]), 7%Z.
  - intros pg Hpg. vm_compute in Hpg. by simplify_eq.
Defined.

(** The same components, with component 1 in composite 6. *)
Definition merge_spds (i : nat) : spd :=
  match i with
  | 1 => demo_comp 1 5 2 20000 (2 * 2 ^ 22) 12288 (PolyMpd 6) (Some 1)
  | _ => demo_spds i
  end.
Definition merge_c : composite_spd :=
  MkMpd (MkPoly SPD_COMPOSITE 2 32768) (Some 1) None (Some 6) (Some 6).
Definition merge_pages : gmap Z (list Z) :=
  {[ 4096%Z := split_pt; 8192%Z := pgd0.[1 := 7%Z]; 16384%Z := pgd0.[3 := 7%Z];
     12288%Z := pgd0.[2 := 7%Z]; 32768%Z := pgd0.[2 := 7%Z] ]}.
Definition merge_demo : kstate :=
  set_k_spds (merge_spds <$> seq 0 MAX_NUM_SPDS)
    (set_k_mpds (<[5 := split_c]> (<[6 := merge_c]> (k_mpds k_zero)))
      (set_k_mem merge_pages mpd_demo)).

Lemma merge_spd_lookup i x :
  k_spds merge_demo !! i = Some x ↔ i < MAX_NUM_SPDS ∧ x = merge_spds i.
Proof.
  unfold merge_demo. cbn [k_spds set_k_spds].
  rewrite list_lookup_fmap, fmap_Some. setoid_rewrite lookup_seq. naive_solver.
Qed.

Lemma merge_comp_of i :
  s_composite_spd (merge_spds i) =
  if decide (i = 0 ∨ i = 2) then PolyMpd 5 else if decide (i = 1) then PolyMpd 6 else PolySpd i.
Proof. destruct i as [|[|[|i]]]; [done..|]. by rewrite !decide_False by lia. Qed.

Lemma merge_members j l :
  j = 5 ∧ l = [0; 2] ∨ j = 6 ∧ l = [1] → members_of merge_demo j l.
Proof.
  intros Hjl. split.
  - destruct Hjl as [[-> ->]|[-> ->]]; by eexists.
  - destruct Hjl as [[-> ->]|[-> ->]]; by apply (bool_decide_unpack _).
  - destruct Hjl as [[-> ->]|[-> ->]]; (split; [|by intros y a [=<-] [=<-]]); cbn.
    + by split_and!; [intros b [=<-]| |].
    + done.
  - intros i. setoid_rewrite merge_spd_lookup. split.
    + intros Hi. exists (merge_spds i). rewrite merge_comp_of. unfold MAX_NUM_SPDS.
      destruct Hjl as [[-> ->]|[-> ->]].
      * assert (i = 0 ∨ i = 2) as H by set_solver.
        rewrite decide_True by done. split_and!; [lia|done|done].
      * assert (i = 1) as -> by set_solver. split_and!; [lia|done|done].
    + intros (x & [_ ->] & Hc). rewrite merge_comp_of in Hc.
      destruct Hjl as [[-> ->]|[-> ->]]; repeat case_decide; simplify_eq; set_solver.
Qed.

Lemma merge_caps_frame : spds_frame mpd_demo merge_demo.
Proof.
  split; [done|]. intros i x' [Hi ->]%merge_spd_lookup. exists (demo_spds i).
  split; [by apply demo_spd_lookup|]. by destruct i as [|[|i]].
Qed.

Lemma merge_demo_ok : mpd_ok merge_demo.
Proof.
  split; [|intros i x c y d z|split].
  - eapply caps_wf_frame; [apply demo_caps_wf|by split|apply merge_caps_frame|done|done].
  - intros [Hi ->]%merge_spd_lookup Hc Hy Hd [_ ->]%merge_spd_lookup Hne.
    assert (is_cap_of (demo_spds i) c) as Hc'%demo_cap_of by by destruct i as [|[|i]].
    destruct_or! Hc'; destruct Hc' as [-> Hc']; repeat destruct_or!; subst;
      vm_compute in Hy; simplify_eq; cbn in Hd; by simplify_eq.
  - intros i x k [_ ->]%merge_spd_lookup. rewrite merge_comp_of. by repeat case_decide; intros [=].
  - intros j Hj. destruct (decide (j = 5)) as [->|H5]; [exists [0; 2]; apply merge_members; auto|].
    destruct (decide (j = 6)) as [->|H6]; [exists [1]; apply merge_members; auto|].
    exists []. split; [|constructor|by split|].
    + exists mpd0. split; [|done]. unfold merge_demo. cbn [k_mpds set_k_mpds set_k_spds].
      rewrite !list_lookup_insert_ne by done. by apply lookup_replicate.
    + intros i. setoid_rewrite merge_spd_lookup. split; [set_solver|].
      intros (x & [_ ->] & Hc). rewrite merge_comp_of in Hc. repeat case_decide; congruence.
  - intros i x j [_ ->]%merge_spd_lookup. rewrite merge_comp_of. unfold MAX_MPD_DESC.
    repeat case_decide; intros [=]; subst; lia.
Qed.

Lemma merge_covered i k :
  i ∈ [0; 2; 1] → covered (merge_spds i) k ↔ k = S i.
Proof.
  intros Hi. assert (i = 0 ∨ i = 2 ∨ i = 1) as [->|[-> | ->]] by set_solver; apply demo_covered.
Qed.

Lemma merge_pool : pool_ok merge_demo [].
Proof. by split; [|constructor|]. Qed.

Lemma merge_room t pg :
  (0 ≤ t < 2 ^ 32)%Z → pa_to_va t ≠ 0%Z → merge_pages !! t = Some pg →
  length pg = PGD_PER_PTBL → pool_room merge_demo [] t.
Proof.
  intros Ht Hp Hpg Hlen. split; [apply merge_pool|cbn; lia|done|by apply not_elem_of_nil|].
  destruct (zlookup_is_Some pg 0) as [w Hw]; [unfold PGD_PER_PTBL in Hlen; lia|].
  by exists pg, w.
Qed.

Lemma merge_home i :
  i ∈ [0; 2; 1] → home merge_demo i (merge_spds i) (MkLoc (Z.of_nat (S i) * 2 ^ 22) (2 ^ 22))
    (pgd0.[Z.of_nat (S i) := 7%Z]).
Proof.
  intros Hi. assert (i = 0 ∨ i = 2 ∨ i = 1) as [->|[-> | ->]] by set_solver;
    (eapply demo_home; [reflexivity|vm_compute; lia|reflexivity..]).
Qed.

Lemma merge_full5 : full_domain merge_demo 5 split_c [0; 2] split_pt [].
Proof.
  split; [|done|done|cbn; lia|done| |by eapply merge_room].
  - split; try done. apply merge_members; auto.
  - intros i Hi. do 3 eexists. split; [apply merge_home; set_solver|].
    intros k ->%merge_covered; [|set_solver].
    assert (i = 0 ∨ i = 2) as [-> | ->] by set_solver; done.
Qed.

Lemma merge_full6 : full_domain merge_demo 6 merge_c [1] (pgd0.[2 := 7%Z]) [].
Proof.
  split; [|done|done|cbn; lia|done| |by eapply merge_room].
  - split; try done. apply merge_members; auto.
  - intros i Hi. do 3 eexists. split; [apply merge_home; set_solver|].
    intros k ->%merge_covered; [|set_solver]. assert (i = 1) as -> by set_solver. done.
Qed.

