(* ===== verification/MpdCntlInv.v ===== *)
(** * The processor's page table across [cos_syscall_mpd_cntl]

    Merging composites may give the current thread another page table under
    its feet.  The system call therefore loads the page table of the thread's
    domain when it has changed; here this is proved for all operations of the
    call. *)

From stdpp Require Import base list numbers option gmap.
From S2P Require Import Prelude Kern Caps PageMem Vas Mpd MpdInv MpdLife Thread Ipc MpdOps MpdOpsInv.

(** The loaded page tables and the current thread. *)
Definition hw_view (s : kstate) : Z * Z * option nat := (k_cr3 s, k_host_pgd s, k_current s).

Create HintDb hw.
#[local] Hint Unfold get_spd get_mpd get_thd get_cap upd_cap upd_spd upd_mpd upd_thd
  put_spd put_mpd put_thd put_cap get_poly upd_poly as_mpd get_page put_page get_word put_word : hw.

Ltac hws := cbv zeta; repeat (keeps_step; cbv zeta).
Ltac hw := autounfold with hw; hws.

Lemma hw_get_spd i : keeps hw_view (get_spd i).
Proof. hw. Qed.
Lemma hw_get_mpd i : keeps hw_view (get_mpd i).
Proof. hw. Qed.
Lemma hw_get_thd i : keeps hw_view (get_thd i).
Proof. hw. Qed.
Lemma hw_get_poly i : keeps hw_view (get_poly i).
Proof. hw. Qed.
Lemma hw_as_mpd i : keeps hw_view (as_mpd i).
Proof. hw. Qed.
Lemma hw_upd_spd i f : keeps hw_view (upd_spd i f).
Proof. hw. Qed.
Lemma hw_upd_mpd i f : keeps hw_view (upd_mpd i f).
Proof. hw. Qed.
Lemma hw_upd_poly i f : keeps hw_view (upd_poly i f).
Proof. hw. Qed.
#[export] Hint Resolve hw_get_spd hw_get_mpd hw_get_thd hw_get_poly hw_as_mpd hw_upd_spd hw_upd_mpd
  hw_upd_poly : keeps.

Lemma hw_get_cap c : keeps hw_view (get_cap c).
Proof. hw. Qed.
Lemma hw_get_word p i : keeps hw_view (get_word p i).
Proof. hw. Qed.
Lemma hw_put_word p i w : keeps hw_view (put_word p i w).
Proof. hw. Qed.
Lemma hw_change_il i il f : keeps hw_view (cap_change_isolation i il f).
Proof. unfold cap_change_isolation, owner_spd, cap_set_usr_cap. hw. Qed.
#[export] Hint Resolve hw_get_cap hw_get_word hw_put_word hw_change_il : keeps.

Lemma hw_put_pool p : keeps hw_view (cos_put_pg_pool p).
Proof. unfold cos_put_pg_pool, set_page_next. hw. Qed.
Lemma hw_get_pool : keeps hw_view cos_get_pg_pool.
Proof. unfold cos_get_pg_pool, cos_alloc_page, page_next, set_page_next. hw. Qed.
Lemma hw_absent j i : keeps hw_view (composite_entry_absent j i).
Proof. unfold composite_entry_absent, lowest_addr, pgtbl_entry_absent. hw. Qed.
Lemma hw_alloc_pgtbl : keeps hw_view spd_alloc_pgtbl.
Proof.
  pose proof hw_get_pool. unfold spd_alloc_pgtbl, copy_pgtbl_range_nocheck, pgtbl_entry_absent. hw.
Qed.
#[export] Hint Resolve hw_put_pool hw_get_pool hw_absent hw_alloc_pgtbl : keeps.

Lemma hw_release fuel p : keeps hw_view (mpd_release fuel p).
Proof.
  revert p. induction fuel as [|fuel IH]; intros p; cbn [mpd_release]; hws.
  all: unfold spd_mpd_reset_flags, spd_mpd_set_flags; hws.
Qed.
#[export] Hint Resolve hw_release : keeps.
Lemma hw_alloc_mpd : keeps hw_view spd_alloc_mpd_desc.
Proof. unfold spd_alloc_mpd_desc, spd_mpd_remove_flags, spd_mpd_set_flags, spd_mpd_take. hws. Qed.
Lemma hw_depricate j : keeps hw_view (spd_mpd_depricate j).
Proof. unfold spd_mpd_depricate, spd_mpd_set_flags, spd_mpd_release. hws. Qed.
Lemma hw_num_loop fuel j i n : keeps hw_view (num_members_loop fuel j i n).
Proof. revert i n. induction fuel as [|fuel IH]; intros i n; cbn [num_members_loop]; hws. Qed.
#[export] Hint Resolve hw_alloc_mpd hw_depricate hw_num_loop : keeps.
Lemma hw_num j : keeps hw_view (spd_composite_num_members j).
Proof. unfold spd_composite_num_members. hws. Qed.
#[export] Hint Resolve hw_num : keeps.
Lemma hw_sub_loop fuel s m pt n : keeps hw_view (subordinate_loop fuel s m pt n).
Proof.
  revert n. induction fuel as [|fuel IH]; intros n; cbn [subordinate_loop]; [hws|].
  unfold spd_mpd_take, spd_mpd_release. hws.
Qed.
#[export] Hint Resolve hw_sub_loop : keeps.
Lemma hw_subordinate m j : keeps hw_view (spd_mpd_make_subordinate m j).
Proof.
  unfold spd_mpd_make_subordinate, spd_mpd_subordinate, spd_mpd_set_flags, spd_mpd_release. hws.
Qed.
#[export] Hint Resolve hw_subordinate : keeps.

Lemma hw_chg_loop fuel j i il c : keeps hw_view (chg_il_all_loop fuel j i il c).
Proof.
  revert c. induction fuel as [|fuel IH]; intros c; cbn [chg_il_all_loop]; [hws|].
  unfold chg_il_one_to_spd, chg_il. hws.
Qed.
#[export] Hint Resolve hw_chg_loop : keeps.
Lemma hw_chg_to j i il : keeps hw_view (spd_chg_il_all_to_spd j i il).
Proof. unfold spd_chg_il_all_to_spd. hws. Qed.
Lemma hw_chg_from j i il : keeps hw_view (spd_chg_il_spd_to_all j i il).
Proof. unfold spd_chg_il_spd_to_all, spd_in_composite, chg_il. hws. Qed.
#[export] Hint Resolve hw_chg_to hw_chg_from : keeps.

Lemma hw_remove i rm : keeps hw_view (spd_composite_remove_member i rm).
Proof.
  unfold spd_composite_remove_member, member_unlink, spd_remove_caps, spd_remove_mappings,
    each_location, zero_pgtbl_range, get_page, put_page. hws.
Qed.
Lemma hw_add j i : keeps hw_view (spd_composite_add_member j i).
Proof.
  unfold spd_composite_add_member, member_link, spd_add_caps, spd_add_mappings, each_location,
    copy_pgtbl_range, copy_pgtbl_range_nocheck, get_page, put_page, lowest_addr, pgtbl_entry_absent.
  hws.
Qed.
#[export] Hint Resolve hw_remove hw_add : keeps.

Lemma hw_move fuel j o rm : keeps hw_view (move_loop fuel j o rm).
Proof.
  induction fuel as [|fuel IH]; cbn [move_loop]; [hws|]. unfold spd_composite_move_member. hws.
Qed.
#[export] Hint Resolve hw_move : keeps.
Lemma hw_populate a b i j : keeps hw_view (mpd_split_composite_populate a b i j).
Proof. unfold mpd_split_composite_populate. hws. Qed.
#[export] Hint Resolve hw_populate : keeps.
Lemma hw_split j i : keeps hw_view (mpd_split j i).
Proof. unfold mpd_split, split_reuse, split_copy, spd_mpd_by_idx. hws. Qed.
Lemma hw_current j : keeps hw_view (mpd_current j).
Proof. unfold mpd_current. hws. Qed.
#[export] Hint Resolve hw_split hw_current : keeps.
Lemma hw_merge i j : keeps hw_view (mpd_merge i j).
Proof. unfold mpd_merge, get_spd_to_subordinate. hws. Qed.
Lemma hw_composite_of i : keeps hw_view (composite_of i).
Proof. unfold composite_of. hws. Qed.
Lemma hw_by_index i : keeps hw_view (spd_get_by_index i).
Proof. unfold spd_get_by_index, spd_is_free. hws. Qed.
#[export] Hint Resolve hw_merge hw_composite_of hw_by_index : keeps.
Lemma hw_cntl_split p i : keeps hw_view (mpd_cntl_split p i).
Proof. unfold mpd_cntl_split. hws. Qed.
Lemma hw_cntl_merge p i : keeps hw_view (mpd_cntl_merge p i).
Proof. unfold mpd_cntl_merge. hws. Qed.
Lemma hw_cntl_update t i : keeps hw_view (mpd_cntl_update t i).
Proof.
  unfold mpd_cntl_update, thd_validate_get_current_spd, thd_spd_in_current_composite,
    thd_get_thd_spdpoly, thd_spd_in_composite, spd_composite_member, thd_invstk_top, get_frame,
    put_frame, put_thd, stale, spd_mpd_ipc_take, spd_mpd_take, spd_mpd_ipc_release, spd_mpd_release,
    lowest_addr, pgtbl_entry_absent. hws.
Qed.
#[export] Hint Resolve hw_cntl_split hw_cntl_merge hw_cntl_update : keeps.

Lemma id_pg_tbl t : keeps id (thd_pg_tbl t).
Proof.
  unfold thd_pg_tbl, thd_get_thd_spdpoly, thd_invstk_top, get_frame, get_thd, get_poly, get_spd,
    get_mpd. keeps.
Qed.

(** Loading a page table does not change what the domains are. *)
Lemma pg_tbl_hw t s pt a b :
  thd_pg_tbl t s = Done pt s →
  thd_pg_tbl t (set_k_host_pgd a (set_k_cr3 b s)) = Done pt (set_k_host_pgd a (set_k_cr3 b s)).
Proof.
  unfold thd_pg_tbl, thd_get_thd_spdpoly, thd_invstk_top, get_frame, get_thd, get_poly, get_spd,
    get_mpd, gets, bound, deref, mbind, M_bind, mret, M_ret, fail. cbn.
  intros H. repeat (case_match; simplify_eq; try done).
  all: change (k_thds (set_k_host_pgd a (set_k_cr3 b s))) with (k_thds s) in *.
  all: change (k_spds (set_k_host_pgd a (set_k_cr3 b s))) with (k_spds s) in *.
  all: change (k_mpds (set_k_host_pgd a (set_k_cr3 b s))) with (k_mpds s) in *.
  all: simplify_eq; congruence.
Qed.

(** The domain of thread [thd] has the page table [pt], and it is loaded. *)
Definition loaded (s : kstate) (thd : nat) (pt : Z) : Prop :=
  thd_pg_tbl thd s = Done pt s ∧ k_cr3 s = pt ∧ k_host_pgd s = pt.

Lemma switch_loads s thd old new u s' :
  thd_pg_tbl thd s = Done new s → k_cr3 s = old → k_host_pgd s = old →
  switch_pg_tbls new old s = Done u s' → loaded s' thd new.
Proof.
  unfold switch_pg_tbls, native_write_cr3, switch_host_pg_tbls. intros Hp Hc Hh H.
  destruct (Z.eqb_spec old new) as [->|Hne]; cbn [negb when] in H; minv; [by split|].
  split; [|done]. by apply pg_tbl_hw.
Qed.

Lemma mpd_cntl_op_loads s thd prev a op c r s' pt :
  loaded s thd pt → mpd_cntl_op thd prev a op c s = Done r s' → ∃ pt', loaded s' thd pt'.
Proof.
  intros (Hp & Hc & Hh). unfold mpd_cntl_op. rewrite (bind_run _ _ _ _ _ Hp). intros H.
  apply bind_Done in H as (r1 & s1 & H1 & H). apply bind_Done in H as (pt' & s2 & H2 & H).
  apply bind_Done in H as (u & s3 & H3 & H). apply ret_Done in H as [_ <-].
  assert (hw_view s1 = hw_view s) as Hv.
  { match type of H1 with ?m _ = _ => assert (keeps hw_view m) as Hk by keeps end.
    exact (Hk _ _ _ H1). }
  assert (s2 = s1) as -> by exact (id_pg_tbl _ _ _ _ H2). injection Hv as H4 H5 H6. exists pt'.
  apply (switch_loads s1 thd pt pt' u); [done|congruence|congruence|done].
Qed.

(** C33. Whatever [cos_syscall_mpd_cntl] does to the protection domains, and whether
    it succeeds or not, when it returns the processor and the process the
    kernel lives in use the page table of the domain the current thread
    executes in, which a merge may have replaced. *)
Theorem mpd_cntl_loads s thd pt a op b c r s' :
  k_current s = Some thd → loaded s thd pt →
  cos_syscall_mpd_cntl a op b c s = Done r s' → ∃ pt', loaded s' thd pt'.
Proof.
  intros Hcur Hl. unfold cos_syscall_mpd_cntl. cbv zeta.
  assert (∀ prev, (thd ← thd_get_current; assert (bool_decide (thd ≠ None));;
      thd ← deref thd; mpd_cntl_op thd prev a op c) s = Done r s' → ∃ pt', loaded s' thd pt') as Hgo.
  { intros prev. unfold thd_get_current. erewrite bind_run by reflexivity. rewrite Hcur.
    do 2 (erewrite bind_run by reflexivity). intros Hrun; by eapply mpd_cntl_op_loads. }
  case_match; [apply Hgo|]. intros H0. apply bind_Done in H0 as (from & s1 & H1 & H0).
  assert (s1 = s) as ->.
  { assert (keeps id (spd_get_by_index (u16 b))) as Hk; [|exact (Hk _ _ _ H1)].
    unfold spd_get_by_index, spd_is_free. keeps. }
  destruct from as [from|]; [|minv; eauto].
  apply bind_Done in H0 as (j & s1 & H2 & H0).
  assert (s1 = s) as ->.
  { assert (keeps id (composite_of from)) as Hk; [|exact (Hk _ _ _ H2)].
    unfold composite_of, mpd_current, as_mpd, get_poly, get_spd, get_mpd. keeps. }
  by eapply Hgo.
Qed.

(** Thread 0 executes in composite 6, which is merged into composite 5. *)
Definition cntl_demo : kstate :=
  set_k_thds (alter (λ t, set_t_stack_ptr 0 (set_t_stack
      ((t_stack t).[0 := MkFrame (Some (PolyMpd 6)) (Some 1) 0 0]) t)) 0 (k_thds merge_demo))
    (set_k_current (Some 0) (set_k_cr3 32768 (set_k_host_pgd 32768 merge_demo))).

Lemma mpd_cntl_loads_witness :
  match cos_syscall_mpd_cntl 1 COS_MPD_MERGE 2 1 cntl_demo with
  | Done r s' => ∃ pt', loaded s' 0 pt'
  | Fault _ => False
  end.
Proof.
  destruct (cos_syscall_mpd_cntl 1 COS_MPD_MERGE 2 1 cntl_demo) as [r s'|f] eqn:E.
  - apply (mpd_cntl_loads cntl_demo 0 32768 1 COS_MPD_MERGE 2 1 r s'); [done| |done].
    split_and!; [vm_compute; reflexivity|done|done].
  - vm_compute in E. discriminate E.
Defined.
