(* ===== verification/Syscall.v ===== *)
(** * System calls (inv.c) and network ring buffers (ring_buff.c)

    The system calls beside those on scheduling (Sched.v) and on composites
    (MpdOps.v): threads, brands, memory mappings, capabilities, components,
    address spaces, upcalls and the network buffers.

    The functions of the network driver, which registers them as callbacks
    ([cos_net_fns]), are parameters.  [cos_syscall_print] and
    [cos_syscall_stats] only print. *)

From stdpp Require Import base list numbers option gmap.
From S2P Require Import Prelude Kern Caps PageMem Vas Mpd Thread Ipc Sched.

(** The current thread and the component [spd_id] it says it executes in. *)
Definition current_spd (spd_id : Z) : K (nat * option nat) :=
  curr ← thd_get_current;
  curr ← deref curr;
  spd ← thd_validate_get_current_spd curr spd_id;
  mret (curr, spd).

(** ** Threads *)

Definition cos_syscall_create_thread (spd_id a b c : Z) : K Z :=
  '(curr, curr_spd) ← current_spd spd_id;
  match curr_spd with
  | None => mret (-1)%Z
  | Some curr_spd =>
      x ← get_spd curr_spd;
      if negb (spd_is_root_sched x) then mret (-1)%Z else
      thd ← thd_alloc curr_spd;
      match thd with
      | None => mret (-1)%Z
      | Some thd =>
          upd_thd thd (set_t_stack_ptr 0);;
          x ← get_spd curr_spd;
          f ← get_frame thd 0;
          put_frame thd 0 (set_f_spd (Some curr_spd) (set_f_cspd (Some (s_composite_spd x)) f));;
          spd_mpd_ipc_take (s_composite_spd x);;
          id ← thd_get_id thd;
          upd_thd thd (λ t, set_t_regs
            (set_r_ax id (set_r_si c (set_r_di b (set_r_bx a
              (set_r_dx (s_upcall_entry x) (set_r_cx COS_UPCALL_CREATE (t_regs t))))))) t);;
          upd_thd thd (λ t, set_t_flags (bset (t_flags t) THD_STATE_CYC_CNT) t);;
          initialize_sched_info thd curr_spd;;
          thd_get_id thd
      end
  end.

(** The registers of the [COS_THD_GET_*] and [COS_THD_SET_*] operations. *)
Definition thd_reg (n : Z) : option ((pt_regs → Z) * (Z → pt_regs → pt_regs)) :=
  match n with
  | 0%Z => Some (r_ip, set_r_ip)
  | 1%Z => Some (r_sp, set_r_sp)
  | 2%Z => Some (r_bp, set_r_bp)
  | 3%Z => Some (r_ax, set_r_ax)
  | 4%Z => Some (r_bx, set_r_bx)
  | 5%Z => Some (r_cx, set_r_cx)
  | 6%Z => Some (r_dx, set_r_dx)
  | 7%Z => Some (r_di, set_r_di)
  | 8%Z => Some (r_si, set_r_si)
  | _ => None
  end.

Definition COS_THD_INV_FRAME : Z := 0.
Definition COS_THD_INV_FRAME_REM : Z := 1.
Definition COS_THD_INV_SPD : Z := 2.
Definition COS_THD_INVFRM_IP : Z := 3.
Definition COS_THD_INVFRM_SET_IP : Z := 4.
Definition COS_THD_INVFRM_SP : Z := 5.
Definition COS_THD_INVFRM_SET_SP : Z := 6.
Definition COS_THD_GET_IP : Z := 7.
Definition COS_THD_SET_IP : Z := 16.
Definition COS_THD_STATUS : Z := 25.

(** [__GET_REG] *)
Definition thd_get_reg (get : pt_regs → Z) (thd : nat) (arg1 : Z) : K Z :=
  t ← get_thd thd;
  if negb (arg1 =? 0)%Z then mret (s32 (get (t_fault_regs t))) else
  if negb (has (t_flags t) THD_STATE_PREEMPTED) then mret 0%Z else
  mret (s32 (get (t_regs t))).

(** [__SET_REG] *)
Definition thd_set_reg (set : Z → pt_regs → pt_regs) (thd : nat) (arg1 arg2 : Z) : K Z :=
  t ← get_thd thd;
  if negb (arg2 =? 0)%Z then
    upd_thd thd (λ t, set_t_fault_regs (set arg1 (t_fault_regs t)) t);; mret 0%Z
  else if has (t_flags t) THD_STATE_PREEMPTED then
    upd_thd thd (λ t, set_t_regs (set arg1 (t_regs t)) t);; mret 0%Z
  else mret (-1)%Z.

(** The loop of [COS_THD_INV_SPD], from the [i]-th frame of the stack on. *)
Fixpoint inv_spd_loop (fuel : nat) (thd : nat) (arg1 i : Z) : K Z :=
  tif ← thd_invstk_nth thd i;
  match tif, fuel with
  | None, _ => mret (-1)%Z
  | Some _, O => fail NoFuel
  | Some f, S fuel' =>
      fr ← get_frame thd f;
      spd ← deref (f_spd fr);
      if (arg1 =? Z.of_nat spd)%Z then mret i else inv_spd_loop fuel' thd arg1 (i + 1)
  end.

(** The operations with a valid thread. *)
Definition thd_cntl_op (curr thd : nat) (op arg1 arg2 : Z) : K Z :=
  if (op =? COS_THD_INV_FRAME)%Z then
    tif ← thd_invstk_nth thd arg1;
    match tif with
    | None => mret 0%Z
    | Some f => fr ← get_frame thd f; spd ← deref (f_spd fr); mret (Z.of_nat spd)
    end
  else if (op =? COS_THD_INV_FRAME_REM)%Z then
    if bool_decide (thd = curr) && (arg1 <? 1)%Z then mret (-1)%Z else
    r ← thd_invstk_rem_nth thd arg1;
    if negb (r =? 0)%Z then mret (-1)%Z else mret 0%Z
  else if (op =? COS_THD_INV_SPD)%Z then inv_spd_loop MAX_SERVICE_DEPTH thd arg1 0
  else if (op =? COS_THD_INVFRM_IP)%Z then r ← thd_get_frame_ip thd arg1; mret (s32 r)
  else if (op =? COS_THD_INVFRM_SET_IP)%Z then thd_set_frame_ip thd arg1 arg2
  else if (op =? COS_THD_INVFRM_SP)%Z then r ← thd_get_frame_sp thd arg1; mret (s32 r)
  else if (op =? COS_THD_INVFRM_SET_SP)%Z then thd_set_frame_sp thd arg1 arg2
  else if (op =? COS_THD_STATUS)%Z then t ← get_thd thd; mret (t_flags t)
  else match thd_reg (op - COS_THD_GET_IP), thd_reg (op - COS_THD_SET_IP) with
       | Some (get, _), _ => thd_get_reg get thd arg1
       | None, Some (_, set) => thd_set_reg set thd arg1 arg2
       | None, None => mret (-1)%Z
       end.

(** A thread that does not exist is only noticed when it is used. *)
Definition cos_syscall_thd_cntl (spd_id op_thdid arg1 arg2 : Z) : K Z :=
  let op := s16 (Z.shiftr op_thdid 16) in
  let thdid := s16 (Z.land op_thdid 65535) in
  '(curr, curr_spd) ← current_spd spd_id;
  match curr_spd with
  | None => mret (-1)%Z
  | Some _ =>
      match thd_get_by_id thdid with
      | Some thd => thd_cntl_op curr thd op arg1 arg2
      | None =>
          if (0 <=? op)%Z && (op <=? COS_THD_STATUS)%Z then fail NullDeref else mret (-1)%Z
      end
  end.

(** ** Brands *)

Definition COS_BRAND_CREATE : Z := 0.
Definition COS_BRAND_ADD_THD : Z := 1.
Definition COS_BRAND_CREATE_HW : Z := 2.

Definition is_brand (t : thread) : bool :=
  has (t_flags t) THD_STATE_BRAND || has (t_flags t) THD_STATE_HW_BRAND.

Definition verify_brand_thd (thd_id : Z) : K (option nat) :=
  match thd_get_by_id (u16 thd_id) with
  | None => mret None
  | Some brand_thd =>
      t ← get_thd brand_thd;
      mret (if is_brand t then Some brand_thd else None)
  end.

(** The loop that leaves the brand only the schedulers up to [curr_spd]. *)
Fixpoint clear_sched_loop (new_thd curr_spd : nat) (clear : bool) (i : Z) (n : nat) : K unit :=
  match n with
  | O => mret tt
  | S n' =>
      tsi ← thd_get_sched_info new_thd i;
      if clear then
        put_sched_info new_thd i (set_ti_notifications None (set_ti_scheduler None tsi));;
        clear_sched_loop new_thd curr_spd clear (i + 1) n'
      else
        clear_sched_loop new_thd curr_spd
          (bool_decide (ti_scheduler tsi = Some curr_spd)) (i + 1) n'
  end.

Definition brand_create (curr_thd curr_spd : nat) (flags dest : Z) : K Z :=
  new ← thd_alloc curr_spd;
  match new with
  | None => mret (-1)%Z
  | Some new_thd =>
      ct ← get_thd curr_thd;
      upd_thd new_thd (set_t_stack (t_stack ct));;
      upd_thd new_thd (set_t_cpu_id (t_cpu_id ct));;
      upd_thd new_thd (λ t, set_t_flags (bset (t_flags t) (Z.lor THD_STATE_BRAND flags)) t);;
      s ← spd_get_by_index (u16 dest);
      match s with
      | None => thd_free (Some new_thd);; mret (-1)%Z
      | Some s =>
          depth ← thd_validate_spd_in_callpath curr_thd s;
          if (depth =? -1)%Z then thd_free (Some new_thd);; mret (-1)%Z else
          ct ← get_thd curr_thd;
          let sp := s16 (t_stack_ptr ct - depth) in
          upd_thd new_thd (set_t_stack_ptr sp);;
          f ← get_frame new_thd sp;
          b ← thd_spd_in_composite (f_cspd f) s;
          assert b;;
          put_frame new_thd sp (set_f_spd (Some s) f);;
          copy_sched_info new_thd curr_thd;;
          clear_sched_loop new_thd curr_spd false 0 MAX_SCHED_HIER_DEPTH;;
          upd_thd new_thd (λ t, set_t_flags (bset (t_flags t) THD_STATE_CYC_CNT) t);;
          thd_get_id new_thd
      end
  end.

Definition brand_add_thd (bid tid : Z) : K Z :=
  brand ← verify_brand_thd bid;
  match thd_get_by_id tid, brand with
  | Some t, Some brand_thd =>
      x ← get_thd t;
      if negb (bool_decide (t_thread_brand x = None)) then mret (-1)%Z else
      b ← get_thd brand_thd;
      if negb (bool_decide (t_upcall_threads b = None)) then mret (-1)%Z else
      assert (negb (has (t_flags x) THD_STATE_UPCALL));;
      upd_thd t (λ t, set_t_flags
        (bset (t_flags t) (Z.lor THD_STATE_UPCALL THD_STATE_ACTIVE_UPCALL)) t);;
      upd_thd t (set_t_thread_brand (Some brand_thd));;
      b ← get_thd brand_thd;
      upd_thd t (set_t_upcall_threads (t_upcall_threads b));;
      upd_thd brand_thd (set_t_upcall_threads (Some t));;
      break_preemption_chain t;;
      upd_thd t (λ t, set_t_flags (bset (t_flags t) THD_STATE_CYC_CNT) t);;
      thd_get_id t
  | _, _ => mret (-1)%Z
  end.

Definition cos_syscall_brand_cntl (spd_id op bid_tid dest : Z) : K Z :=
  let bid := u16 (Z.shiftr bid_tid 16) in
  let tid := Z.land bid_tid 65535 in
  '(curr_thd, curr_spd) ← current_spd spd_id;
  match curr_spd with
  | None => mret (-1)%Z
  | Some curr_spd =>
      if (op =? COS_BRAND_CREATE_HW)%Z then brand_create curr_thd curr_spd THD_STATE_HW_BRAND dest
      else if (op =? COS_BRAND_CREATE)%Z then brand_create curr_thd curr_spd 0 dest
      else if (op =? COS_BRAND_ADD_THD)%Z then brand_add_thd bid tid
      else mret (-1)%Z
  end.

(** ** The network *)

Record cos_net_callbacks : Type := MkNet {
  create_brand : option (cos_brand_info → Z);
  remove_brand : option (cos_brand_info → Z);
  xmit_packet : option (list (Z * Z) → Z → Z) (* gather list, total length *)
}.

Definition put_net_brand (i : Z) (b : cos_brand_info) : K unit :=
  l ← gets k_net_brand;
  _ ← bound (l.[i]);
  modify (set_k_net_brand (l.[i := b])).

Definition cos_net_init : K unit :=
  modify (set_k_active_net 0);;
  for_range 0 (Z.of_nat NUM_NET_BRANDS) (λ i, put_net_brand i (MkBrand 0 None)).

(** The entry of thread [t]; the result is its index in [cos_net_brand]. *)
Fixpoint net_brand_scan (l : list cos_brand_info) (t : nat) (i : Z) : option Z :=
  match l with
  | [] => None
  | b :: l => if decide (bi_brand b = Some t) then Some i else net_brand_scan l t (i + 1)
  end.
Definition cos_net_brand_info (t : nat) : K (option Z) :=
  l ← gets k_net_brand; mret (net_brand_scan l t 0).

(** A failing [remove_brand] is only reported. *)
Definition cos_net_finish : K unit :=
  modify (set_k_active_net 0);;
  for_range 0 (Z.of_nat NUM_NET_BRANDS) (λ i, put_net_brand i (MkBrand 0 None)).

Definition cos_net_notify_drop (brand : option nat) : K Z :=
  match brand with
  | None => mret (-1)%Z
  | Some brand =>
      b ← get_thd brand;
      mret (if bool_decide (t_upcall_threads b = None) then (-1)%Z else 0%Z)
  end.

Definition COS_HW_TIMER : Z := 0.
Definition COS_HW_NET : Z := 1.
Definition COS_UC_NOTIF : Z := 2.

Definition wire_net (cos_net_fns : option cos_net_callbacks) (brand_thd : nat) (data : Z) : K Z :=
  active ← gets k_active_net;
  match cos_net_fns with
  | None => mret (-1)%Z
  | Some fns =>
      if (Z.of_nat NUM_NET_BRANDS <=? active)%Z then mret (-1)%Z else
      let bi := MkBrand (u16 data) (Some brand_thd) in
      put_net_brand active bi;;
      match create_brand fns with
      | Some f =>
          if negb (f bi =? 0)%Z then mret (-1)%Z else
          modify (set_k_active_net (u32 (active + 1)));;
          mret 0%Z
      | None => mret (-1)%Z
      end
  end.

Definition cos_syscall_brand_wire (cos_net_fns : option cos_net_callbacks)
    (spd_id thd_id option data : Z) : K Z :=
  '(_, curr_spd) ← current_spd spd_id;
  match curr_spd with
  | None => mret (-1)%Z
  | Some _ =>
      brand ← verify_brand_thd thd_id;
      match brand with
      | None => mret (-1)%Z
      | Some brand_thd =>
          t ← get_thd brand_thd;
          if negb (has (t_flags t) THD_STATE_HW_BRAND) then mret (-1)%Z else
          if (option =? COS_HW_TIMER)%Z then modify (set_k_timer_brand (Some brand_thd));; mret 0%Z
          else if (option =? COS_HW_NET)%Z then wire_net cos_net_fns brand_thd data
          else if (option =? COS_UC_NOTIF)%Z then
            modify (set_k_notif_brand (Some brand_thd));; mret 0%Z
          else mret (-1)%Z
      end
  end.

(** ** Ring buffers (ring_buff.c) *)

Definition RB_EMPTY : Z := 0.
Definition RB_READY : Z := 1.
Definition RB_USED : Z := 2.
Definition RB_ERR : Z := 3.

Definition get_rb (rb i : Z) : K rb_buff :=
  m ← gets k_rbs; l ← bound (m !! rb); bound (l.[i]).
Definition put_rb_status (rb i status : Z) : K unit :=
  m ← gets k_rbs;
  l ← bound (m !! rb);
  b ← bound (l.[i]);
  modify (set_k_rbs (<[rb := l.[i := set_b_status status b]]> m)).

(** The result is the return value and, on success, [*found_buf] and
    [*found_len]; [local] is the uninitialised local of [thd_get_thd_spd]. *)
Definition rb_retrieve_buff (local : option nat) (brand : nat) (desired_len : Z) :
    K (Z * option (Z * Z)) :=
  t ← get_thd brand;
  let rb := t_k_rb t in
  if (rb =? 0)%Z then mret ((-1)%Z, None) else
  let position := t_rb_next t in
  b ← get_rb rb position;
  if negb (b_status b =? RB_READY)%Z || (b_ptr b =? 0)%Z then mret (1%Z, None) else
  if (b_len b <? desired_len)%Z then mret ((-1)%Z, None) else
  bspd ← thd_get_thd_spd local brand;
  bspd ← deref bspd;
  x ← get_spd bspd;
  kaddr ← pgtbl_vaddr_to_kaddr (p_pg_tbl (s_info x)) (b_ptr b);
  let next := Z.land (position + 1) (Z.of_nat RB_SIZE - 1) in
  if (kaddr =? 0)%Z || negb (user_struct_fits_on_page kaddr (b_len b)) then
    put_rb_status rb position RB_ERR;;
    upd_thd brand (set_t_rb_next next);;
    mret ((-1)%Z, None)
  else
  put_rb_status rb position RB_USED;;
  upd_thd brand (set_t_rb_next next);;
  mret (0%Z, Some (kaddr, b_len b)).

Definition rb_setup (brand : nat) (user_rb kern_rb : Z) : K Z :=
  assert (negb (user_rb =? 0)%Z && negb (kern_rb =? 0)%Z);;
  upd_thd brand (λ t, set_t_rb_next 0 (set_t_k_rb kern_rb (set_t_u_rb user_rb t)));;
  mret 0%Z.

(** ** Buffers for the network *)

Definition COS_BM_XMIT : Z := 0.
Definition COS_BM_XMIT_REGION : Z := 1.
Definition COS_BM_RECV_RING : Z := 2.
Definition XMIT_HEADERS_GATHER_LEN : Z := 32.
(** [sizeof(struct cos_net_xmit_headers)], which is aligned to a page. *)
Definition XMIT_HEADERS_SIZE : Z := 4096.

(** The part of [struct cos_net_xmit_headers] that is looked at; the component
    writes it, so it is an argument of what reads it. *)
Record cos_net_xmit_headers : Type := MkXmit {
  xh_gather_len : Z;
  xh_gather_list : list (Z * Z) (* data, len *)
}.

(** The loop over the gather list, with the entries and the length so far. *)
Fixpoint gather_loop (n : nat) (spd : nat) (h : cos_net_xmit_headers) (i : Z)
    (gi : list (Z * Z)) (tot_len : Z) : K (option (list (Z * Z) * Z)) :=
  match n with
  | O => mret (Some (gi, tot_len))
  | S n' =>
      '(data, len) ← bound ((xh_gather_list h).[i]);
      let tot_len := s32 (tot_len + len) in
      if negb (user_struct_fits_on_page data (u32 len)) then mret None else
      arg ← gets k_ud_arg;
      kaddr ← (if (PTE_MASK data =? arg)%Z then mret data
               else x ← get_spd spd; pgtbl_vaddr_to_kaddr (p_pg_tbl (s_info x)) data);
      if negb (PTE_MASK data =? arg)%Z && (kaddr =? 0)%Z then mret None else
      gather_loop n' spd h (i + 1) (gi ++ [(kaddr, len)]) tot_len
  end.

Definition buff_xmit (cos_net_fns : option cos_net_callbacks) (h : cos_net_xmit_headers)
    (spd : nat) : K Z :=
  x ← get_spd spd;
  if (s_cos_net_xmit_headers x =? 0)%Z then mret (-1)%Z else
  if (XMIT_HEADERS_GATHER_LEN <? xh_gather_len h)%Z then mret (-1)%Z else
  r ← gather_loop (Z.to_nat (xh_gather_len h)) spd h 0 [] 0;
  match r with
  | None => mret (-1)%Z
  | Some (gi, tot_len) =>
      match cos_net_fns ≫= xmit_packet with
      | Some f => mret (f gi tot_len)
      | None => mret 0%Z
      end
  end.

Definition buff_recv_ring (addr kaddr thd_id len : Z) : K Z :=
  if negb (Z.land addr (PAGE_SIZE - 1) =? 0)%Z || negb (len =? PAGE_SIZE)%Z then mret (-1)%Z else
  match thd_get_by_id (s32 thd_id) with
  | None => mret (-1)%Z
  | Some b =>
      t ← get_thd b;
      b ← (if has (t_flags t) THD_STATE_UPCALL then
             assert (bool_decide (t_thread_brand t ≠ None));; deref (t_thread_brand t)
           else mret b);
      t ← get_thd b;
      if negb (is_brand t) then mret (-1)%Z else
      r ← rb_setup b addr kaddr;
      mret (if negb (r =? 0)%Z then (-1)%Z else 0%Z)
  end.

Definition cos_syscall_buff_mgmt_cont (cos_net_fns : option cos_net_callbacks)
    (h : cos_net_xmit_headers) (spd_id addr thd_id len_op : Z) : K Z :=
  let option := Z.land len_op 65535 in
  let len := u16 (Z.shiftr len_op 16) in
  '(_, spd) ← current_spd spd_id;
  match spd with
  | None => mret (-1)%Z
  | Some spd =>
      if (option =? COS_BM_XMIT)%Z then buff_xmit cos_net_fns h spd else
      x ← get_spd spd;
      kaddr ← pgtbl_vaddr_to_kaddr (p_pg_tbl (s_info x)) addr;
      if (kaddr =? 0)%Z then mret (-1)%Z else
      if (option =? COS_BM_XMIT_REGION)%Z then
        if negb (len =? XMIT_HEADERS_SIZE)%Z then mret (-1)%Z else
        if negb (user_struct_fits_on_page addr len) then mret (-1)%Z else
        upd_spd spd (set_s_cos_net_xmit_headers kaddr);;
        mret 0%Z
      else if (option =? COS_BM_RECV_RING)%Z then buff_recv_ring addr kaddr thd_id len
      else mret (-1)%Z
  end.

(** ** Upcalls into a component *)

(** The loop of [verify_trust] over capabilities [i]..[i + n - 1]; [i] and the
    upper bound are [unsigned short int]. *)
Fixpoint trust_scan (n : nat) (i : Z) (trustee : nat) : K Z :=
  match n with
  | O => mret (-1)%Z
  | S n' =>
      c ← get_cap i;
      if bool_decide (c_destination c = Some trustee) then mret 0%Z
      else trust_scan n' (i + 1) trustee
  end.

Definition verify_trust (truster trustee : nat) : K Z :=
  x ← get_spd truster;
  let cap_no := s_cap_base x in
  let max_cap := u16 (s_cap_range x + cap_no) in
  trust_scan (Z.to_nat (max_cap - cap_no)) cap_no trustee.

(** The result is the return value and, on success, [*regs]. *)
Definition cos_syscall_upcall_cont (this_spd_id spd_id : Z) : K (Z * option regs_ptr) :=
  dest ← spd_get_by_index spd_id;
  '(thd, curr_spd) ← current_spd this_spd_id;
  match dest, curr_spd with
  | Some dest, Some curr_spd =>
      t ← verify_trust dest curr_spd;
      c ← get_spd curr_spd;
      if negb (t =? 0)%Z && negb (s_sched_depth c =? 0)%Z then mret ((-1)%Z, None) else
      d ← get_spd dest;
      open_close_spd (s_composite_spd d) (s_composite_spd c);;
      p ← thd_get_thd_spdpoly thd;
      p ← deref p;
      spd_mpd_ipc_release p;;
      _ ← upcall_setup thd dest COS_UPCALL_BOOTSTRAP 0 0 0;
      id ← thd_get_id thd;
      mret (id, Some (Regs thd))
  | _, _ => mret ((-1)%Z, None)
  end.

(** ** Mappings *)

Definition COS_MMAP_GRANT : Z := 0.
Definition COS_MMAP_REVOKE : Z := 1.

(** [dspd_id] is a [short int] and may be negative. *)
Definition cos_syscall_mmap_cntl (spdid op_flags_dspd daddr mem_id : Z) : K Z :=
  let op := s16 (Z.shiftr op_flags_dspd 24) in
  let dspd_id := s16 (Z.land op_flags_dspd 65535) in
  spd ← spd_get_by_index dspd_id;
  match spd with
  | None => mret (-1)%Z
  | Some spd =>
      x ← get_spd spd;
      q ← virtual_namespace_query daddr (s_composite_vas x);
      if negb (bool_decide (q = Some spd)) then mret (-1)%Z else
      if (op =? COS_MMAP_GRANT)%Z then
        page ← cos_access_page mem_id;
        if (page =? 0)%Z then mret (-1)%Z else
        r ← pgtbl_add_entry (p_pg_tbl (s_info x)) daddr page;
        mret (if negb (r =? 0)%Z then (-1)%Z else 0%Z)
      else if (op =? COS_MMAP_REVOKE)%Z then
        pa ← pgtbl_rem_ret (p_pg_tbl (s_info x)) daddr;
        if (pa =? 0)%Z then mret 0%Z else cos_paddr_to_cap pa
      else mret (-1)%Z
  end.

(** ** Capabilities *)

Definition COS_CAP_SET_CSTUB : Z := 0.
Definition COS_CAP_SET_SSTUB : Z := 1.
Definition COS_CAP_SET_SERV_FN : Z := 2.
Definition COS_CAP_ACTIVATE : Z := 3.
Definition COS_CAP_GET_INVCNT : Z := 4.
Definition COS_CAP_SET_FAULT : Z := 5.

Definition cap_activate (cspd : nat) (capid arg2 : Z) : K Z :=
  x ← get_spd cspd;
  if negb (spd_is_active x) || (arg2 =? 0)%Z then mret (-1)%Z else
  sspd ← spd_get_by_index (u16 arg2);
  match sspd with
  | None => mret (-1)%Z
  | Some sspd =>
      r ← spd_cap_set_dest cspd capid (Some sspd);
      if negb (r =? 0)%Z then mret (-1)%Z else
      r ← spd_cap_activate cspd capid;
      mret (if negb (r =? 0)%Z then (-1)%Z else 0%Z)
  end.

Definition cos_syscall_cap_cntl (spdid option arg1 arg2 : Z) : K Z :=
  let fails m := r ← m; mret (if negb (r =? 0)%Z then (-1)%Z else 0%Z) in
  cspd ← spd_get_by_index (u16 (Z.shiftr arg1 16));
  match cspd with
  | None => mret (-1)%Z
  | Some cspd =>
      let capid := Z.land arg1 65535 in
      if (option =? COS_CAP_GET_INVCNT)%Z then
        sspd ← spd_get_by_index (Z.land arg1 65535);
        match sspd with
        | None => mret (-1)%Z
        | Some sspd =>
            x ← get_spd cspd;
            va ← pgtbl_vaddr_to_kaddr (p_pg_tbl (s_info x)) (s_user_vaddr_cap_tbl x);
            assert (s_user_cap_tbl x =? va)%Z;;
            r ← spd_read_reset_invocation_cnt cspd sspd;
            mret (s32 r)
        end
      else if (option =? COS_CAP_SET_FAULT)%Z then fails (spd_cap_set_fault_handler cspd capid arg2)
      else if (option =? COS_CAP_SET_CSTUB)%Z then fails (spd_cap_set_cstub cspd capid arg2)
      else if (option =? COS_CAP_SET_SSTUB)%Z then fails (spd_cap_set_sstub cspd capid arg2)
      else if (option =? COS_CAP_SET_SERV_FN)%Z then fails (spd_cap_set_sfn cspd capid arg2)
      else if (option =? COS_CAP_ACTIVATE)%Z then cap_activate cspd capid arg2
      else mret (-1)%Z
  end.

(** ** Components *)

Definition COS_SPD_CREATE : Z := 0.
Definition COS_SPD_DELETE : Z := 1.
Definition COS_SPD_RESERVE_CAPS : Z := 2.
Definition COS_SPD_RELEASE_CAPS : Z := 3.
Definition COS_SPD_LOCATION : Z := 4.
Definition COS_SPD_ATOMIC_SECT : Z := 5.
Definition COS_SPD_UCAP_TBL : Z := 6.
Definition COS_SPD_UPCALL_ADDR : Z := 7.
Definition COS_SPD_ACTIVATE : Z := 8.
(** [sizeof(struct usr_inv_cap)] *)
Definition UCAP_SIZE : Z := 16.

Definition spd_create (arg1 : Z) : K Z :=
  pa ← spd_alloc_pgtbl;
  if (pa =? 0)%Z then mret (-1)%Z else
  spd ← spd_alloc 0 0 0 arg1;
  match spd with
  | None => spd_free_pgtbl pa;; mret (-1)%Z
  | Some spd =>
      upd_poly (PolySpd spd) (set_p_pg_tbl pa);;
      mret (Z.of_nat spd)
  end.

Definition spd_delete (spd : nat) : K Z :=
  x ← get_spd spd;
  spd_free_pgtbl (p_pg_tbl (s_info x));;
  upd_poly (PolySpd spd) (set_p_pg_tbl 0);;
  spd_free spd;;
  mret 0%Z.

(** Is all that a component needs set, and does its user-level capability table
    lie in it and on one page? *)
Definition can_activate (x : spd) (l0 : spd_location) : bool :=
  negb (s_user_vaddr_cap_tbl x =? 0)%Z && negb (p_pg_tbl (s_info x) =? 0)%Z &&
  negb (l_lowest_addr l0 =? 0)%Z && negb (s_cap_base x =? 0)%Z && negb (s_cap_range x =? 0)%Z &&
  negb ((s_user_vaddr_cap_tbl x <? l_lowest_addr l0)%Z ||
        (u32 (l_lowest_addr l0 + l_size l0) <?
           u32 (s_user_vaddr_cap_tbl x + UCAP_SIZE * s_cap_range x))%Z ||
        negb (user_struct_fits_on_page (s_user_vaddr_cap_tbl x) (UCAP_SIZE * s_cap_range x))).

Definition spd_activate (spd : nat) : K Z :=
  x ← get_spd spd;
  l0 ← bound ((s_location x).[0]);
  if negb (can_activate x l0) then mret (-1)%Z else
  kaddr ← pgtbl_vaddr_to_kaddr (p_pg_tbl (s_info x)) (s_user_vaddr_cap_tbl x);
  if (kaddr =? 0)%Z then mret (-1)%Z else
  upd_spd spd (set_s_user_cap_tbl kaddr);;
  _ ← spd_add_static_cap (Some spd) 0 (Some spd) 0;
  cspd ← spd_alloc_mpd;
  match cspd with
  | None => upd_spd spd (set_s_user_cap_tbl 0);; mret (-1)%Z
  | Some cspd =>
      r ← spd_composite_add_member cspd spd;
      if negb (r =? 0)%Z then
        spd_mpd_release (PolyMpd cspd);;
        upd_spd spd (set_s_user_cap_tbl 0);;
        mret (-1)%Z
      else
      spd_make_active spd;;
      mret 0%Z
  end.

(** The operations on an existing component. *)
Definition spd_cntl_op (spd : nat) (op arg1 arg2 : Z) : K Z :=
  x ← get_spd spd;
  if (op =? COS_SPD_DELETE)%Z then spd_delete spd
  else if (op =? COS_SPD_RESERVE_CAPS)%Z then
    r ← spd_reserve_cap_range spd arg1; mret (if (r =? -1)%Z then (-1)%Z else 0%Z)
  else if (op =? COS_SPD_RELEASE_CAPS)%Z then
    r ← spd_release_cap_range spd; mret (if (r =? -1)%Z then (-1)%Z else 0%Z)
  else if (op =? COS_SPD_LOCATION)%Z then
    l0 ← bound ((s_location x).[0]);
    if negb (l_size l0 =? 0)%Z then mret (-1)%Z else
    r ← spd_add_location spd arg1 arg2;
    mret (if negb (r =? 0)%Z then (-1)%Z else 0%Z)
  else if (op =? COS_SPD_UCAP_TBL)%Z then
    if negb (s_user_vaddr_cap_tbl x =? 0)%Z then mret (-1)%Z else
    upd_spd spd (set_s_user_vaddr_cap_tbl (u32 arg1));;
    mret 0%Z
  else if (op =? COS_SPD_ATOMIC_SECT)%Z then
    if (Z.of_nat COS_NUM_ATOMIC_SECTIONS <=? arg2)%Z || (arg2 <? 0)%Z then mret (-1)%Z else
    _ ← bound ((s_atomic_sections x).[arg2]);
    upd_spd spd (λ x, set_s_atomic_sections ((s_atomic_sections x).[arg2 := u32 arg1]) x);;
    mret 0%Z
  else if (op =? COS_SPD_UPCALL_ADDR)%Z then
    upd_spd spd (set_s_upcall_entry (u32 arg1));;
    mret 0%Z
  else if (op =? COS_SPD_ACTIVATE)%Z then spd_activate spd
  else mret (-1)%Z.

Definition cos_syscall_spd_cntl (id op_spdid arg1 arg2 : Z) : K Z :=
  let op := s16 (Z.shiftr op_spdid 16) in
  let spd_id := Z.land op_spdid 65535 in
  if (op =? COS_SPD_CREATE)%Z then spd_create arg1 else
  spd ← spd_get_by_index spd_id;
  match spd with
  | None => mret (-1)%Z
  | Some spd => spd_cntl_op spd op arg1 arg2
  end.

(** ** Address spaces *)

Definition COS_VAS_CREATE : Z := 0.
Definition COS_VAS_DELETE : Z := 1.
Definition COS_VAS_SPD_ADD : Z := 2.
Definition COS_VAS_SPD_REM : Z := 3.
Definition COS_VAS_SPD_EXPAND : Z := 4.
Definition COS_VAS_SPD_RETRACT : Z := 5.

(** [spd->composite_vas->vas_id] *)
Definition composite_vas_id (spd : nat) : K Z :=
  x ← get_spd spd;
  v ← deref (s_composite_vas x);
  va ← get_vas v;
  mret (v_vas_id va).

Definition cos_syscall_vas_cntl (id op_spdid addr sz : Z) : K Z :=
  let op := s16 (Z.shiftr op_spdid 16) in
  let spd_id := Z.land op_spdid 65535 in
  spd ← spd_get_by_index spd_id;
  match spd with
  | None => mret (-1)%Z
  | Some spd =>
      if (op =? COS_VAS_CREATE)%Z then vas_new
      else if (op =? COS_VAS_DELETE)%Z then vas_delete addr
      else if (op =? COS_VAS_SPD_ADD)%Z then vas_spd_add addr spd
      else if (op =? COS_VAS_SPD_REM)%Z then
        v ← composite_vas_id spd; vas_spd_remove v spd
      else if (op =? COS_VAS_SPD_EXPAND)%Z then
        r ← spd_add_location spd addr sz;
        if negb (r =? 0)%Z then mret (-1)%Z else
        v ← composite_vas_id spd; vas_expand v spd
      else if (op =? COS_VAS_SPD_RETRACT)%Z then
        r ← spd_rem_location spd addr sz;
        if negb (r =? 0)%Z then mret (-1)%Z else
        v ← composite_vas_id spd; vas_retract v spd
      else mret (-1)%Z
  end.
