(* ===== verification/SyscallInv.v ===== *)
(** * Properties of the system calls on memory and of the ring buffers *)

From stdpp Require Import base list numbers option gmap.
From S2P Require Import Prelude Kern Caps PageMem Vas Mpd Thread Ipc Sched Syscall.

(** ** Mappings *)

(** The address [daddr] belongs to component [i] = [x]. *)
Record owns_addr (s : kstate) (i : nat) (x : spd) (daddr : Z) : Prop := {
  oa_index : i < MAX_NUM_SPDS;
  oa_spd : k_spds s !! i = Some x;
  oa_used : has (p_flags (s_info x)) SPD_FREE = false;
  oa_vas : ∃ v va, s_composite_vas x = Some v ∧ (k_vas_list s).[v] = Some va ∧
    (v_layout va).[Z.shiftr daddr HPAGE_SHIFT] = Some (Some i)
}.

(** The entry of [daddr] in the page table [pt] is empty: it is the word [e] of
    the page [t] = [p]. *)
Record empty_entry (s : kstate) (pt daddr t e : Z) (p : list Z) : Prop := {
  ee_entry : pgtbl_lookup_address pt daddr s = Done (Some (t, e)) s;
  ee_alias : t ≠ pt ∨ e ≠ pgd_index daddr;
  ee_page : k_mem s !! t = Some p;
  ee_empty : p.[e] = Some 0%Z
}.

(** The third argument of [cos_syscall_mmap_cntl]. *)
Definition mmap_arg (op : Z) (i : nat) : Z := op * 2 ^ 24 + Z.of_nat i.

Lemma mmap_arg_decode op i :
  (0 ≤ op < 128)%Z → i < MAX_NUM_SPDS →
  s16 (Z.shiftr (mmap_arg op i) 24) = op ∧ s16 (Z.land (mmap_arg op i) 65535) = Z.of_nat i.
Proof.
  unfold MAX_NUM_SPDS. intros Hop Hi. unfold mmap_arg. split.
  - rewrite Z.shiftr_div_pow2 by lia. rewrite Z.div_add_l by lia.
    rewrite Z.div_small, Z.add_0_r by lia. apply s16_id. lia.
  - change 65535%Z with (Z.ones 16). rewrite Z.land_ones by lia.
    replace (op * 2 ^ 24)%Z with (op * 2 ^ 8 * 2 ^ 16)%Z by lia.
    rewrite Z.add_comm, Z.mod_add, Z.mod_small by lia. apply s16_id. lia.
Qed.

Lemma by_index_run s i x :
  i < MAX_NUM_SPDS → k_spds s !! i = Some x → has (p_flags (s_info x)) SPD_FREE = false →
  spd_get_by_index (Z.of_nat i) s = Done (Some i) s.
Proof.
  intros Hi Hx Hf. unfold spd_get_by_index, spd_is_free.
  destruct (Z.leb_spec (Z.of_nat MAX_NUM_SPDS) (Z.of_nat i)); [lia|].
  erewrite bind_run.
  2: { erewrite bind_run by reflexivity. erewrite bind_run.
       2: { replace ((k_spds s).[Z.of_nat i]) with (Some x); [reflexivity|].
            symmetry. apply zlookup_Some. rewrite Nat2Z.id. split; [lia|done]. }
       by rewrite Hf. }
  by rewrite Nat2Z.id.
Qed.

(** [cos_syscall_mmap_cntl] up to the operation. *)
Lemma mmap_start s i x daddr a op m :
  owns_addr s i x daddr → (0 ≤ op < 128)%Z →
  cos_syscall_mmap_cntl a (mmap_arg op i) daddr m s =
  (if (op =? COS_MMAP_GRANT)%Z then
     page ← cos_access_page m;
     if (page =? 0)%Z then mret (-1)%Z else
     r ← pgtbl_add_entry (p_pg_tbl (s_info x)) daddr page;
     mret (if negb (r =? 0)%Z then (-1)%Z else 0%Z)
   else if (op =? COS_MMAP_REVOKE)%Z then
     pa ← pgtbl_rem_ret (p_pg_tbl (s_info x)) daddr;
     if (pa =? 0)%Z then mret 0%Z else cos_paddr_to_cap pa
   else mret (-1)%Z) s.
Proof.
  intros [Hi Hx Hf (v & va & Hv & Hva & Hl)] Hop. unfold cos_syscall_mmap_cntl. cbv zeta.
  destruct (mmap_arg_decode op i Hop Hi) as [-> ->].
  rewrite (bind_run _ _ _ _ _ (by_index_run _ _ _ Hi Hx Hf)).
  rewrite (bind_run _ _ _ _ _ (get_spd_run _ _ _ Hx)).
  erewrite bind_run.
  2: { unfold virtual_namespace_query, get_vas. rewrite Hv. erewrite bind_run by reflexivity.
       erewrite bind_run.
       2: { erewrite bind_run by reflexivity. rewrite Hva. reflexivity. }
       rewrite Hl. reflexivity. }
  by rewrite bool_decide_eq_true_2.
Qed.

Lemma add_entry_run s pt daddr t e p pa :
  empty_entry s pt daddr t e p →
  pgtbl_add_entry pt daddr pa s = Done 0%Z (word_set t e (Z.lor pa PG_USER_RW) p s).
Proof.
  intros [Hlk _ Hp He]. unfold pgtbl_add_entry. rewrite (bind_run _ _ _ _ _ Hlk).
  rewrite (bind_run _ _ _ _ _ (get_word_run _ _ _ _ _ Hp He)).
  change (has 0 PG_PRESENT) with false. cbn iota.
  by rewrite (bind_run _ _ _ _ _ (put_word_run _ _ _ _ _ _ Hp He)).
Qed.


(** ** The ring buffer *)

(** The state with the ring buffer [rb] of thread [brand] = [t] as [l], and the
    next slot [pos]. *)
Definition ring_at (s : kstate) (brand : nat) (t : thread) (rb : Z) (l : list rb_buff) (pos : Z) :
    kstate :=
  set_k_thds (<[brand := set_t_rb_next pos t]> (k_thds s)) (set_k_rbs (<[rb := l]> (k_rbs s)) s).

(** Thread [brand] = [t] has a ring buffer and executes in component [i] = [x]. *)
Record has_ring (s : kstate) (local : option nat) (brand : nat) (t : thread) (i : nat) (x : spd) :
    Prop := {
  hr_thd : k_thds s !! brand = Some t;
  hr_rb : t_k_rb t ≠ 0%Z;
  hr_spd : thd_get_thd_spd local brand s = Done (Some i) s;
  hr_comp : k_spds s !! i = Some x
}.

(** Slot [b] holds a buffer of at least [len] bytes that can be written, at the
    kernel address [tr (b_ptr b)]. *)
Definition good_slot (s : kstate) (x : spd) (tr : Z → Z) (len : Z) (b : rb_buff) : Prop :=
  b_status b = RB_READY ∧ b_ptr b ≠ 0%Z ∧ (len ≤ b_len b)%Z ∧ tr (b_ptr b) ≠ 0%Z ∧
  pgtbl_vaddr_to_kaddr (p_pg_tbl (s_info x)) (b_ptr b) s = Done (tr (b_ptr b)) s ∧
  user_struct_fits_on_page (tr (b_ptr b)) (b_len b) = true.

(** Translating an address only looks at the memory. *)
Definition rb_succ (pos : Z) : Z := Z.land (pos + 1) (Z.of_nat RB_SIZE - 1).

Lemma rb_succ_mod pos : rb_succ pos = ((pos + 1) mod 512)%Z.
Proof. unfold rb_succ. change (Z.of_nat RB_SIZE - 1)%Z with (Z.ones 9). by rewrite Z.land_ones. Qed.

(** The slots from [pos] on, in the order of the ring. *)
Fixpoint ring_slots (pos : Z) (n : nat) : list Z :=
  match n with
  | O => []
  | S n' => pos :: ring_slots (rb_succ pos) n'
  end.

Definition mark_used (l : list rb_buff) (p : Z) : list rb_buff :=
  match l.[p] with Some b => l.[p := set_b_status RB_USED b] | None => l end.

Lemma mark_used_lookup l p k :
  (mark_used l p).[k] = if decide (p = k) then set_b_status RB_USED <$> l.[k] else l.[k].
Proof.
  unfold mark_used. destruct (l.[p]) as [b|] eqn:Hb.
  - rewrite (zlookup_zinsert _ _ _ _ _ Hb). case_decide; [by subst; rewrite Hb|done].
  - case_decide; [by subst; rewrite Hb|done].
Qed.

Lemma mark_all_lookup ps l k :
  (foldl mark_used l ps).[k] = if decide (k ∈ ps) then set_b_status RB_USED <$> l.[k] else l.[k].
Proof.
  revert l. induction ps as [|p ps IH]; intros l; cbn [foldl]; [done|].
  rewrite IH, mark_used_lookup. repeat case_decide; subst; try set_solver.
  destruct (l.[k]); by destruct_or?.
Qed.

Lemma get_thd_ring s brand t rb l pos :
  k_thds s !! brand = Some t →
  get_thd brand (ring_at s brand t rb l pos) =
  Done (set_t_rb_next pos t) (ring_at s brand t rb l pos).
Proof.
  intros Ht. apply get_thd_run. cbn. apply list_lookup_insert_eq. by eapply lookup_lt_Some.
Qed.

(** The ring is no part of where a thread executes. *)
Lemma thd_spd_ring s local brand t i rb l pos :
  k_thds s !! brand = Some t → thd_get_thd_spd local brand s = Done (Some i) s →
  thd_get_thd_spd local brand (ring_at s brand t rb l pos) =
  Done (Some i) (ring_at s brand t rb l pos).
Proof.
  intros Ht Hs. unfold thd_get_thd_spd in *. destruct local as [j|]; [by injection Hs as ->|].
  unfold thd_invstk_top, get_frame in *. set (s' := ring_at s brand t rb l pos).
  rewrite (bind_run _ _ _ (if (t_stack_ptr t <? 0)%Z then None else Some (t_stack_ptr t)) s) in Hs
    by by rewrite (bind_run _ _ _ _ _ (get_thd_run _ _ _ Ht)).
  rewrite (bind_run _ _ _ (if (t_stack_ptr t <? 0)%Z then None else Some (t_stack_ptr t)) s')
    by by rewrite (bind_run _ _ _ _ _ (get_thd_ring s brand t rb l pos Ht)).
  destruct (t_stack_ptr t <? 0)%Z; [done|].
  erewrite bind_run in Hs by reflexivity. erewrite bind_run by reflexivity.
  apply bind_Done in Hs as (f & s1 & Hf & Hs).
  rewrite (bind_run _ _ _ _ _ (get_thd_run _ _ _ Ht)) in Hf.
  apply bound_Done in Hf as [Hf ->]. apply ret_Done in Hs as [Hs _].
  erewrite bind_run.
  2: { rewrite (bind_run _ _ _ _ _ (get_thd_ring s brand t rb l pos Ht)).
       cbn [t_stack set_t_rb_next]. by rewrite Hf. }
  by rewrite Hs.
Qed.

Section Ring.
Context (s : kstate) (local : option nat) (brand : nat) (t : thread) (i : nat) (x : spd).
Context (tr : Z → Z) (len : Z) (Hring : has_ring s local brand t i x).
#[local] Abbreviation at_ := (ring_at s brand t (t_k_rb t)).

Lemma get_rb_at l pos k b : l.[k] = Some b → get_rb (t_k_rb t) k (at_ l pos) = Done b (at_ l pos).
Proof.
  intros Hb. unfold get_rb. erewrite bind_run by reflexivity. erewrite bind_run.
  2: { cbn. rewrite lookup_insert_eq. reflexivity. }
  by rewrite Hb.
Qed.

Lemma retrieve_good l pos b :
  l.[pos] = Some b → good_slot s x tr len b →
  rb_retrieve_buff local brand len (at_ l pos) =
  Done (0%Z, Some (tr (b_ptr b), b_len b)) (at_ (l.[pos := set_b_status RB_USED b]) (rb_succ pos)).
Proof.
  intros Hb (Hst & Hptr & Hlen & Htr & Hk & Hfit).
  unfold rb_retrieve_buff. rewrite (bind_run _ _ _ _ _ (get_thd_ring _ _ _ _ l pos (hr_thd _ _ _ _ _ _ Hring))). cbn [t_k_rb t_rb_next set_t_rb_next].
  rewrite (proj2 (Z.eqb_neq _ _) (hr_rb _ _ _ _ _ _ Hring)).
  rewrite (bind_run _ _ _ _ _ (get_rb_at l pos pos b Hb)), Hst, (proj2 (Z.eqb_neq _ _) Hptr).
  cbn [negb orb Z.eqb Pos.eqb RB_READY]. destruct (Z.ltb_spec (b_len b) len); [lia|].
  rewrite (bind_run _ _ _ _ _ (thd_spd_ring _ _ _ _ _ _ l pos (hr_thd _ _ _ _ _ _ Hring)
    (hr_spd _ _ _ _ _ _ Hring))). erewrite bind_run by reflexivity.
  rewrite (bind_run _ _ _ _ _ (get_spd_run i (at_ l pos) x (hr_comp _ _ _ _ _ _ Hring))).
  rewrite (bind_run _ _ _ _ _ (vaddr_mem _ _ s (at_ l pos) _ eq_refl Hk)).
  rewrite (proj2 (Z.eqb_neq _ _) Htr), Hfit. cbn [negb orb].
  assert (brand < length (k_thds s)) as Hlt by (eapply lookup_lt_Some, Hring).
  erewrite bind_run.
  2: { unfold put_rb_status. erewrite bind_run by reflexivity. erewrite bind_run.
       2: { cbn. rewrite lookup_insert_eq. reflexivity. }
       rewrite Hb. erewrite bind_run by reflexivity. reflexivity. }
  erewrite bind_run.
  2: { apply upd_thd_run. cbn. by apply list_lookup_insert_eq. }
  unfold ring_at. cbn. by rewrite list_insert_insert_eq, insert_insert_eq.
Qed.

(** A slot that is not ready is not taken. *)
Lemma retrieve_none l pos b :
  l.[pos] = Some b → b_status b ≠ RB_READY →
  rb_retrieve_buff local brand len (at_ l pos) = Done (1%Z, None) (at_ l pos).
Proof.
  intros Hb Hst. unfold rb_retrieve_buff. rewrite (bind_run _ _ _ _ _ (get_thd_ring _ _ _ _ l pos (hr_thd _ _ _ _ _ _ Hring))).
  cbn [t_k_rb t_rb_next set_t_rb_next].
  rewrite (proj2 (Z.eqb_neq _ _) (hr_rb _ _ _ _ _ _ Hring)).
  rewrite (bind_run _ _ _ _ _ (get_rb_at l pos pos b Hb)).
  by rewrite (proj2 (Z.eqb_neq _ _) Hst).
Qed.

(** [n] retrievals in a row, as long as there are buffers. *)
Fixpoint retrieve_n (n : nat) : K (list (Z * Z)) :=
  match n with
  | O => mret []
  | S n' =>
      '(_, r) ← rb_retrieve_buff local brand len;
      match r with
      | Some b => bs ← retrieve_n n'; mret (b :: bs)
      | None => mret []
      end
  end.

Lemma slots_avoid ps l pos b c bs :
  l.[pos] = Some b → pos ∉ ps →
  Forall2 (λ p b, l.[p] = Some b ∧ good_slot s x tr len b) ps bs →
  Forall2 (λ p b, (l.[pos := c]).[p] = Some b ∧ good_slot s x tr len b) ps bs.
Proof.
  intros Hb Hni Hf. induction Hf as [|p b' ps bs [Hp Hg] Hf IH]; constructor.
  - split; [|done]. rewrite zlookup_zinsert_ne; [done|]. set_solver.
  - apply IH. set_solver.
Qed.

Lemma retrieve_n_run n l pos bs :
  NoDup (ring_slots pos n) →
  Forall2 (λ p b, l.[p] = Some b ∧ good_slot s x tr len b) (ring_slots pos n) bs →
  retrieve_n n (at_ l pos) =
  Done ((λ b, (tr (b_ptr b), b_len b)) <$> bs)
    (at_ (foldl mark_used l (ring_slots pos n)) (Nat.iter n rb_succ pos)).
Proof.
  revert l pos bs. induction n as [|n IH]; intros l pos bs Hnd Hf; cbn [ring_slots] in *.
  { by apply Forall2_nil_inv_l in Hf as ->. }
  apply Forall2_cons_inv_l in Hf as (b & bs' & [Hb Hg] & Hf & ->).
  apply NoDup_cons in Hnd as [Hni Hnd]. cbn [retrieve_n].
  rewrite (bind_run _ _ _ _ _ (retrieve_good l pos b Hb Hg)).
  rewrite (bind_run _ _ _ _ _ (IH _ _ bs' Hnd (slots_avoid _ _ _ _ _ _ Hb Hni Hf))).
  cbn [foldl]. replace (mark_used l pos) with (l.[pos := set_b_status RB_USED b])
    by (unfold mark_used; by rewrite Hb). cbn [fmap list_fmap mret M_ret]. do 2 f_equal.
  by rewrite Nat.iter_succ_r.
Qed.
End Ring.

Lemma elem_of_ring_slots pos n k :
  (0 ≤ pos < 512)%Z →
  k ∈ ring_slots pos n ↔ ∃ j, j < n ∧ k = ((pos + Z.of_nat j) mod 512)%Z.
Proof.
  revert pos. induction n as [|n IH]; intros pos Hp; cbn [ring_slots].
  - split; [by intros ?%elem_of_nil|]. intros (j & ? & _). lia.
  - rewrite elem_of_cons, IH, rb_succ_mod by (rewrite rb_succ_mod; apply Z.mod_pos_bound; lia). split.
    + intros [->|(j & Hj & ->)].
      * exists 0. split; [lia|]. rewrite Z.add_0_r. by rewrite Z.mod_small.
      * exists (S j). split; [lia|]. rewrite Z.add_mod_idemp_l by lia. f_equal. lia.
    + intros ([|j] & Hj & ->); [left; rewrite Z.add_0_r; by rewrite Z.mod_small|right].
      exists j. split; [lia|]. rewrite Z.add_mod_idemp_l by lia. f_equal. lia.
Qed.

Lemma ring_slots_nodup pos n : (0 ≤ pos < 512)%Z → n ≤ RB_SIZE → NoDup (ring_slots pos n).
Proof.
  unfold RB_SIZE. revert pos. induction n as [|n IH]; intros pos Hp Hn; cbn [ring_slots]; [constructor|].
  assert (0 ≤ rb_succ pos < 512)%Z as Hs by (rewrite rb_succ_mod; apply Z.mod_pos_bound; lia).
  constructor; [|apply IH; [done|lia]].
  rewrite elem_of_ring_slots by done. intros (j & Hj & He).
  rewrite rb_succ_mod, Z.add_mod_idemp_l in He by lia. revert He.
  pose proof (Z.div_mod (pos + 1 + Z.of_nat j) 512 ltac:(lia)) as Hd.
  pose proof (Z.mod_pos_bound (pos + 1 + Z.of_nat j) 512 ltac:(lia)). nia.
Qed.

Lemma iter_succ_range n pos : (0 ≤ pos < 512)%Z → (0 ≤ Nat.iter n rb_succ pos < 512)%Z.
Proof.
  intros Hp. destruct n as [|n]; [done|]. rewrite Nat.iter_succ, rb_succ_mod.
  apply Z.mod_pos_bound. lia.
Qed.

(** The kernel hands out the buffers of a ring in their order, each one
    once: when the next [n] slots (at most the whole ring) hold writable
    buffers, [n] retrievals return exactly these, in the order of the ring
    with wrap-around, and mark exactly them as used; after a whole round a
    further retrieval finds no buffer, until the component makes one ready. *)
Theorem ring_in_order s local brand t i x tr len l n bs :
  has_ring s local brand t i x → k_rbs s !! t_k_rb t = Some l → length l = RB_SIZE →
  (0 ≤ t_rb_next t < 512)%Z → n ≤ RB_SIZE →
  Forall2 (λ p b, l.[p] = Some b ∧ good_slot s x tr len b) (ring_slots (t_rb_next t) n) bs →
  ∃ s' l', retrieve_n local brand len n s = Done ((λ b, (tr (b_ptr b), b_len b)) <$> bs) s' ∧
    k_rbs s' !! t_k_rb t = Some l' ∧
    (∀ k, l'.[k] = if decide (k ∈ ring_slots (t_rb_next t) n)
                   then set_b_status RB_USED <$> l.[k] else l.[k]) ∧
    (n = RB_SIZE → rb_retrieve_buff local brand len s' = Done (1%Z, None) s').
Proof.
  intros Hr Hl Hlen Hpos Hn Hf. pose proof (hr_thd _ _ _ _ _ _ Hr) as Ht.
  assert (s = ring_at s brand t (t_k_rb t) l (t_rb_next t)) as Heq.
  { unfold ring_at. rewrite insert_id by done. rewrite list_insert_id; [by destruct s|].
    rewrite Ht. by destruct t. }
  pose proof (ring_slots_nodup _ n Hpos Hn) as Hnd. set (l' := foldl mark_used l (ring_slots (t_rb_next t) n)).
  eexists _, l'. split_and!.
  - rewrite Heq at 1. by apply (retrieve_n_run s local brand t i x).
  - cbn. apply lookup_insert_eq.
  - apply mark_all_lookup.
  - intros ->. set (q := Nat.iter _ _ _).
    pose proof (iter_succ_range RB_SIZE _ Hpos) as Hq. fold q in Hq.
    destruct (zlookup_is_Some l q) as [b Hb]; [rewrite Hlen; unfold RB_SIZE; lia|].
    apply (retrieve_none _ _ _ _ _ _ _ Hr _ _ (set_b_status RB_USED b)); [|done].
    rewrite mark_all_lookup, decide_True, Hb; [done|].
    apply elem_of_ring_slots; [done|]. exists (Z.to_nat ((q - t_rb_next t) mod 512)).
    pose proof (Z.mod_pos_bound (q - t_rb_next t) 512 ltac:(lia)). unfold RB_SIZE. split; [lia|].
    rewrite Z2Nat.id, Z.add_mod_idemp_r by lia.
    replace (t_rb_next t + (q - t_rb_next t))%Z with q by lia. by rewrite Z.mod_small.
Qed.

(** ** Examples

    Component 3 owns the addresses from 20 MB on; its page directory, at 4096,
    has a page table at 8192, which maps one page.  Thread 2 executes in it and
    has a ring buffer at 61440. *)

Definition sys_spd : spd :=
  set_s_info (MkPoly 0 0 4096) (set_s_composite_vas (Some 0%Z) spd0).
Definition sys_vas : vas :=
  MkVas ((replicate PGD_PER_PTBL None).[5 := Some 3]) 0 0.
Definition sys_rb : list rb_buff :=
  <[511 := MkRb 20971520 128 RB_READY]> (<[0 := MkRb 20971648 256 RB_READY]>
    (replicate RB_SIZE (MkRb 0 0 RB_EMPTY))).
Definition sys_thd : thread :=
  set_t_stack ((t_stack thd0).[0 := MkFrame (Some (PolySpd 3)) (Some 3) 0 0])
    (set_t_k_rb 61440 (set_t_rb_next 511 thd0)).
Definition sys_demo : kstate :=
  set_k_spds (<[3 := sys_spd]> (k_spds k_zero))
    (set_k_vas_list ((k_vas_list k_zero).[0 := sys_vas])
      (set_k_thds (<[2 := sys_thd]> (k_thds k_zero))
        (set_k_pages ((k_pages k_zero).[7 := 65536%Z])
          (set_k_rbs {[ 61440%Z := sys_rb ]}
            (set_k_mem {[ 4096%Z := (replicate PGD_PER_PTBL 0%Z).[5 := Z.lor 8192 PG_USER_RW];
              8192%Z := (replicate PGD_PER_PTBL 0%Z).[0 := Z.lor 12288 PG_USER_RW] ]} k_zero))))).

Lemma sys_pages : pages_ok sys_demo.
Proof.
  assert ((k_pages k_zero).[7] = Some 0%Z) as H7 by reflexivity.
  assert (∀ c pa, (k_pages sys_demo).[c] = Some pa → pa ≠ 0%Z → c = 7%Z) as Hu.
  { intros c pa. unfold sys_demo. cbn [k_pages set_k_spds set_k_vas_list set_k_thds set_k_pages].
    rewrite (zlookup_zinsert _ _ _ _ _ H7). case_decide; [done|].
    intros [_ Hc]%zlookup_Some Hnz. by apply lookup_replicate in Hc as [-> _]. }
  split; [done| | |constructor].
  - intros c d pa Hc Hd Hnz. rewrite (Hu c pa Hc Hnz). by rewrite (Hu d pa Hd Hnz).
  - by intros c pa page _ ?%elem_of_nil.
Qed.

Lemma sys_owns : owns_addr sys_demo 3 sys_spd 20975616.
Proof. split; [unfold MAX_NUM_SPDS; lia|done|done|by exists 0%Z, sys_vas]. Qed.


Lemma ring_in_order_witness :
  ∃ s' l', retrieve_n None 2 100 2 sys_demo =
      Done [(3221237760, 128); (3221237888, 256)]%Z s' ∧
    k_rbs s' !! 61440%Z = Some l' ∧
    (∀ k, l'.[k] = if decide (k ∈ [511; 0]%Z) then set_b_status RB_USED <$> sys_rb.[k]
                   else sys_rb.[k]) ∧
    (2 = RB_SIZE → rb_retrieve_buff None 2 100 s' = Done (1%Z, None) s').
Proof.
  apply (ring_in_order sys_demo None 2 sys_thd 3 sys_spd
    (λ a, u32 (pa_to_va 12288 + Z.land a 4095)) 100 sys_rb 2
    [MkRb 20971520 128 RB_READY; MkRb 20971648 256 RB_READY]);
    [|reflexivity|reflexivity|cbn; lia|unfold RB_SIZE; lia|].
  - split; [done|done|vm_compute; reflexivity|done].
  - change (ring_slots (t_rb_next sys_thd) 2) with [511; 0]%Z.
    repeat constructor; vm_compute; done.
Defined.
