(* ===== verification/Heap.v ===== *)
(** * The binary heap of the component library

    Model of [components/lib/heap.c] and [components/include/heap.h]: an array
    of pointers, used from index 1 on, ordered by a comparison of the client,
    who is also told the position of each of its entries. *)

From stdpp Require Import base list numbers option sorting.
From S2P Require Import Prelude.
Local Open Scope Z_scope.
Local Open Scope array_scope.

(** ** The client

    The heap is created with two functions of its client: [cmp_fn_t], "is a >=
    b?", and [update_fn_t], "update the integer position of an entry".  They
    work on the memory of the client, [U]; [pos] reads the position back. *)
Class HeapClient (E U : Type) := {
  cmp : U → E → E → bool;
  upd : E → Z → U → U;
  pos : U → E → Z;
}.

(** What the heap relies on: the comparison is a total preorder that does not
    look at the positions, and an update sets the position of its entry only. *)
Class HeapClientLaws (E U : Type) {C : HeapClient E U} := {
  cmp_total m a b : cmp m a b = true ∨ cmp m b a = true;
  cmp_trans m a b c : cmp m a b = true → cmp m b c = true → cmp m a c = true;
  cmp_upd m x p a b : cmp (upd x p m) a b = cmp m a b;
  pos_upd_eq m x p : pos (upd x p m) x = p;
  pos_upd_ne m x y p : x ≠ y → pos (upd x p m) y = pos m y;
}.

(** [struct heap], together with the memory of the client.  [h_data] has as many
    elements as pointers fit into the memory behind the structure. *)
Record heap (E U : Type) : Type := MkHeap {
  h_e : Z;
  h_max_sz : Z;
  h_data : list E;
  h_mem : U;
}.
Arguments MkHeap {E U} _ _ _ _.
Arguments h_e {E U} _.
Arguments h_max_sz {E U} _.
Arguments h_data {E U} _.
Arguments h_mem {E U} _.

Section Heap.
Context {E U : Type} {C : HeapClient E U}.

#[local] Abbreviation H := (M (heap E U)).

Definition set_e (v : Z) (h : heap E U) : heap E U :=
  MkHeap v (h_max_sz h) (h_data h) (h_mem h).
Definition set_data (v : list E) (h : heap E U) : heap E U :=
  MkHeap (h_e h) (h_max_sz h) v (h_mem h).
Definition set_mem (v : U) (h : heap E U) : heap E U :=
  MkHeap (h_e h) (h_max_sz h) (h_data h) v.

(** [h->data[i]] read and written, and the calls of the client's functions. *)
Definition get_data (i : Z) : H E := d ← gets h_data; bound (d.[i]).
Definition put_data (i : Z) (x : E) : H unit :=
  get_data i;; modify (λ h, set_data ((h_data h).[i := x]) h).
Definition call_c (a b : E) : H bool := gets (λ h, cmp (h_mem h) a b).
Definition call_u (x : E) (p : Z) : H unit :=
  modify (λ h, set_mem (upd x p (h_mem h)) h).

Definition swap_entries (a b : Z) : H unit :=
  t ← get_data a;
  y ← get_data b;
  put_data a y;;
  put_data b t;;
  xa ← get_data a; call_u xa a;;
  xb ← get_data b; call_u xb b.

(** The loop of [swap_down], at most [fuel] times. *)
Fixpoint down_loop (fuel : nat) (l c : Z) : H Z :=
  match fuel with
  | O => fail NoFuel
  | S fuel =>
    if Z.quot l 2 <? c then mret c
    else
      let left := 2 * c in
      let right := 2 * c + 1 in
      n ← (if l <? right then mret left
           else a ← get_data left; b ← get_data right;
                r ← call_c a b; mret (if r : bool then left else right));
      e ← gets h_e;
      assert (n <? e);;
      x ← get_data c; y ← get_data n;
      done ← call_c x y;
      if done : bool then mret c
      else swap_entries n c;; down_loop fuel l n
  end.

(** An entry moves along one path of the tree, so the number of levels is
    enough fuel for both loops. *)
Definition levels (e : Z) : nat := S (Z.to_nat (Z.log2 e)).

Definition swap_down (c : Z) : H Z :=
  assert (negb (c =? 0));;
  e ← gets h_e;
  assert (c <=? e);;
  down_loop (levels e) (e - 1) c.

(** The loop of [swap_up]. *)
Fixpoint up_loop (fuel : nat) (c : Z) : H Z :=
  match fuel with
  | O => fail NoFuel
  | S fuel =>
    if c <=? 1 then mret c
    else
      let p := Z.quot c 2 in
      assert (negb (p =? 0));;
      x ← get_data p; y ← get_data c;
      done ← call_c x y;
      if done : bool then mret c
      else swap_entries p c;; up_loop fuel p
  end.

Definition swap_up (c : Z) : H Z :=
  e ← gets h_e;
  assert (c <=? e);;
  assert (0 <? c);;
  r ← up_loop (levels e) c;
  assert (negb (r =? 0));;
  mret r.

Definition heapify (c : Z) : H Z := c' ← swap_up c; swap_down c'.

(** [__heap_verify], the check of the order below [c] that is compiled in on
    request: it halts when an entry is not at the position it was told, and
    returns 1 when some child is not below its parent. *)
Definition verify_child (rec : Z → H bool) (c i : Z) : H bool :=
  y ← get_data i;
  p ← gets (λ h, pos (h_mem h) y);
  assert (p =? i);;
  x ← get_data c;
  r ← call_c x y;
  if negb r then mret true else rec i.

Fixpoint heap_verify_at (fuel : nat) (c : Z) : H bool :=
  match fuel with
  | O => fail NoFuel
  | S fuel =>
    let left := c * 2 in
    let right := c * 2 + 1 in
    e ← gets h_e;
    bad ← (if left <? e then verify_child (heap_verify_at fuel) c left else mret false);
    if bad : bool then mret true
    else if right <? e then verify_child (heap_verify_at fuel) c right else mret false
  end.

Definition heap_verify : H bool := e ← gets h_e; heap_verify_at (levels e) 1.

(** The size of [struct heap] and of a pointer. *)
Definition HEAP_STRUCT : Z := 20.
Definition PTR : Z := 4.

(** [malloc] returns the words of the memory it was asked for, or nothing. *)
Definition heap_alloc (malloc : Z → option (list E)) (max_sz : Z) (m : U) :
    option (heap E U) :=
  match malloc (HEAP_STRUCT + max_sz * PTR + 1) with
  | None => None
  | Some words => Some (MkHeap 1 (max_sz + 1) (drop (Z.to_nat (HEAP_STRUCT / PTR)) words) m)
  end.

Definition heap_add (new : E) : H Z :=
  max_sz ← gets h_max_sz; e ← gets h_e;
  if max_sz =? e then mret (-1)
  else
    put_data e new;;
    call_u new e;;
    modify (set_e (e + 1));;
    heapify e;;
    mret 0.

Definition heap_highest : H (option E) :=
  e ← gets h_e;
  if e =? 1 then mret None
  else
    r ← get_data 1;
    modify (set_e (e - 1));;
    x ← get_data (e - 1);
    put_data 1 x;;
    x1 ← get_data 1; call_u x1 1;;
    swap_down 1;;
    call_u r 0;;
    mret (Some r).

Definition heap_peek : H (option E) :=
  e ← gets h_e;
  if e =? 1 then mret None else r ← get_data 1; mret (Some r).

Definition heap_adjust (c : Z) : H unit :=
  e ← gets h_e;
  assert (c <? e);;
  assert (0 <? c);;
  heapify c;;
  mret tt.

Definition heap_remove (c : Z) : H (option E) :=
  e ← gets h_e;
  assert (c <? e);;
  assert (1 <=? c);;
  if e =? 1 then mret None
  else
    r ← get_data c;
    modify (set_e (e - 1));;
    call_u r 0;;
    if c =? e - 1 then mret (Some r)
    else
      x ← get_data (e - 1);
      put_data c x;;
      x1 ← get_data c; call_u x1 c;;
      heap_adjust c;;
      mret (Some r).

Definition heap_size : H Z := e ← gets h_e; mret (e - 1).
Definition heap_empty : H bool := n ← heap_size; mret (n =? 0).
End Heap.

(** ** The client of the self test

    [struct hentry] of [heap.c]: entries compared by [value], which record
    their position in [index]. *)
Record hentry : Set := MkHentry { index : Z; value : Z }.

#[export] Instance hentry_client : HeapClient nat (nat → hentry) := {|
  cmp m a b := value (m b) <=? value (m a);
  upd x p m := λ y, if decide (y = x) then MkHentry p (value (m x)) else m y;
  pos m x := index (m x);
|}.
