(* ===== verification/HeapInv.v ===== *)
(** * The heap is a priority queue

    The order of the tree and the positions told to the client are kept by all
    operations, which implement a bag with a maximum; their loops run at most
    once per level. *)

From stdpp Require Import base list numbers option sorting.
From S2P Require Import Prelude Heap.
Local Open Scope Z_scope.
Local Open Scope array_scope.

#[local] Ltac Zify.zify_post_hook ::= Z.div_mod_to_equations.

Lemma log2_half (c : Z) : 2 ≤ c → Z.log2 (c / 2) = Z.log2 c - 1.
Proof.
  intros Hc. rewrite <-Z.div2_div, Z.div2_spec, Z.log2_shiftr by lia.
  pose proof (Z.log2_le_mono 2 c Hc) as Hl. change (Z.log2 2) with 1 in Hl. lia.
Qed.

Section HeapInv.
Context {E U : Type} {C : HeapClient E U} {L : HeapClientLaws E U}.
Implicit Types (h : heap E U) (x y : E) (c i : Z).

(** The entry at [i] is not smaller than the entry at [j]. *)
Definition above h (i j : Z) : Prop :=
  ∀ x y, (h_data h).[i] = Some x → (h_data h).[j] = Some y → cmp (h_mem h) x y = true.

Definition ordered h : Prop := ∀ i, 2 ≤ i < h_e h → above h (i / 2) i.

(** Ordered but for the entry at [c], which may be out of order with its parent
    and its children ([adjusting]) or with its children only ([sinking]). *)
Definition bridged h c : Prop := ∀ i, 2 ≤ i < h_e h → i / 2 = c → 2 ≤ c → above h (c / 2) i.
Definition adjusting h c : Prop :=
  (∀ i, 2 ≤ i < h_e h → i ≠ c → i / 2 ≠ c → above h (i / 2) i) ∧ bridged h c.
Definition sinking h c : Prop :=
  (∀ i, 2 ≤ i < h_e h → i / 2 ≠ c → above h (i / 2) i) ∧ bridged h c.

Definition shape h : Prop := 1 ≤ h_e h ≤ h_max_sz h ∧ h_e h ≤ Z.of_nat (length (h_data h)).

(** Each entry knows its position. *)
Definition placed h : Prop :=
  ∀ i x, 1 ≤ i < h_e h → (h_data h).[i] = Some x → pos (h_mem h) x = i.

Definition inside h x : Prop := ∃ i, 1 ≤ i < h_e h ∧ (h_data h).[i] = Some x.

(** What moving entries inside of the heap changes: nothing but their places. *)
Record shuffled h h' : Prop := {
  sh_e : h_e h' = h_e h;
  sh_max : h_max_sz h' = h_max_sz h;
  sh_len : length (h_data h') = length (h_data h);
  sh_cmp a b : cmp (h_mem h') a b = cmp (h_mem h) a b;
  sh_in x : inside h' x ↔ inside h x;
  sh_pos x : ¬ inside h x → pos (h_mem h') x = pos (h_mem h) x;
}.

Lemma shuffled_refl h : shuffled h h.
Proof. by split. Qed.

Lemma shuffled_trans h1 h2 h3 : shuffled h1 h2 → shuffled h2 h3 → shuffled h1 h3.
Proof.
  intros [] []. split; try congruence.
  - intros x. by rewrite sh_in1.
  - intros x Hx. rewrite sh_pos1; [by apply sh_pos0|]. by rewrite sh_in0.
Qed.

Lemma shape_at h i : shape h → 0 ≤ i < h_e h → ∃ x, (h_data h).[i] = Some x.
Proof. intros [_ ?] ?. apply zlookup_is_Some. lia. Qed.

(** Positions tell entries apart. *)
Lemma placed_inj h i j x :
  placed h → 1 ≤ i < h_e h → 1 ≤ j < h_e h →
  (h_data h).[i] = Some x → (h_data h).[j] = Some x → i = j.
Proof. intros Hp ?? Hi Hj. rewrite <-(Hp i x), <-(Hp j x); done. Qed.

(** *** Exchanging two entries *)

Definition swapped (a b : Z) x y h : heap E U :=
  MkHeap (h_e h) (h_max_sz h) ((h_data h).[a := y]).[b := x] (upd x b (upd y a (h_mem h))).

Lemma get_data_run i h x : (h_data h).[i] = Some x → get_data i h = Done x h.
Proof. intros Hx. unfold get_data. erewrite bind_run by reflexivity. by rewrite Hx. Qed.

Lemma put_data_run i x y h :
  (h_data h).[i] = Some y → put_data i x h = Done tt (set_data ((h_data h).[i := x]) h).
Proof. intros Hy. unfold put_data. by rewrite (bind_run _ _ _ _ _ (get_data_run _ _ _ Hy)). Qed.

Lemma swap_run a b x y h :
  a ≠ b → (h_data h).[a] = Some x → (h_data h).[b] = Some y →
  swap_entries a b h = Done tt (swapped a b x y h).
Proof.
  intros Hab Ha Hb. unfold swap_entries.
  rewrite (bind_run _ _ _ _ _ (get_data_run _ _ _ Ha)), (bind_run _ _ _ _ _ (get_data_run _ _ _ Hb)).
  rewrite (bind_run _ _ _ _ _ (put_data_run a y x _ Ha)).
  assert ((h_data h).[a := y].[b] = Some y) as Hb' by by rewrite zlookup_zinsert_ne.
  rewrite (bind_run _ _ _ _ _ (put_data_run b x y (set_data _ h) Hb')).
  erewrite bind_run; [|apply get_data_run; cbn; rewrite zlookup_zinsert_ne by done;
    by apply (zlookup_zinsert_eq _ _ _ x)].
  erewrite bind_run by reflexivity. cbn.
  erewrite bind_run; [|apply get_data_run; cbn; by apply (zlookup_zinsert_eq _ _ _ y)].
  reflexivity.
Qed.

Section Swap.
Context (h : heap E U) (a b : Z) (x y : E).
Hypotheses (Hab : a ≠ b) (Ha : (h_data h).[a] = Some x) (Hb : (h_data h).[b] = Some y).

Lemma swapped_at i :
  (h_data (swapped a b x y h)).[i] =
    if decide (i = b) then Some x else if decide (i = a) then Some y else (h_data h).[i].
Proof.
  cbn. rewrite (zlookup_zinsert _ b i x y) by by rewrite zlookup_zinsert_ne.
  rewrite (zlookup_zinsert _ a i y x) by done.
  repeat case_decide; congruence.
Qed.

Lemma swapped_cmp p q : cmp (h_mem (swapped a b x y h)) p q = cmp (h_mem h) p q.
Proof. cbn. by rewrite !cmp_upd. Qed.

Context (Ha1 : 1 ≤ a < h_e h) (Hb1 : 1 ≤ b < h_e h) (Hp : placed h).

Lemma swapped_ne : x ≠ y.
Proof. intros ->. by apply Hab, (placed_inj h a b y). Qed.

Lemma swapped_placed : placed (swapped a b x y h).
Proof.
  intros i z Hi. rewrite swapped_at. cbn in Hi |- *. pose proof swapped_ne as Hne.
  destruct (decide (i = b)) as [->|Hib]; [intros [= ->]; by rewrite pos_upd_eq|].
  destruct (decide (i = a)) as [->|Hia]; [intros [= ->]; by rewrite pos_upd_ne, pos_upd_eq|].
  intros Hz. rewrite !pos_upd_ne; [by apply Hp| |]; intros <-.
  - by apply Hib, (placed_inj h i b y).
  - by apply Hia, (placed_inj h i a x).
Qed.

Lemma swapped_shuffled : shuffled h (swapped a b x y h).
Proof.
  split; [done|done|cbn; by rewrite !length_zinsert|apply swapped_cmp| |].
  - intros z. split; intros (i & Hi & Hz).
    + rewrite swapped_at in Hz. cbn in Hi. repeat case_decide; simplify_eq;
        [by exists a|by exists b|by exists i].
    + destruct (decide (i = a)) as [->|]; [|destruct (decide (i = b)) as [->|]].
      * exists b. split; [done|]. rewrite swapped_at, decide_True by done. congruence.
      * exists a. split; [done|].
        rewrite swapped_at, decide_False, decide_True by done. congruence.
      * exists i. split; [done|]. by rewrite swapped_at, !decide_False.
  - intros z Hz. cbn. rewrite !pos_upd_ne; [done| |]; intros <-; apply Hz; [by exists b|by exists a].
Qed.
End Swap.

Lemma shuffled_shape h h' : shuffled h h' → shape h → shape h'.
Proof. intros [] []. split; congruence || lia. Qed.

(** Exchanging an entry with its parent, when it is not smaller, moves the only
    place that may be out of order up to the parent. *)
Lemma swap_up_step h c x y :
  shape h → 2 ≤ c < h_e h → adjusting h c →
  (h_data h).[c / 2] = Some x → (h_data h).[c] = Some y → cmp (h_mem h) y x = true →
  adjusting (swapped (c / 2) c x y h) (c / 2).
Proof.
  intros Hs Hc [Ho Hb] Hx Hy Hyx. assert (c / 2 ≠ c) as Hne by lia.
  pose proof (λ i, swapped_at h (c / 2) c x y Hne Hx Hy i) as Hat. split.
  - intros i Hi Hic Hip p q. rewrite !Hat, swapped_cmp. cbn in Hi.
    destruct (decide (i = c)) as [->|]; [done|]. destruct (decide (i = c / 2)); [done|].
    destruct (decide (i / 2 = c)) as [Hc2|]; intros Hpq Hq.
    + injection Hpq as <-. apply (Hb i Hi Hc2); [lia|done|done].
    + destruct (decide (i / 2 = c / 2)); [done|]. by apply (Ho i Hi).
  - intros i Hi Hip Hc2 p q. rewrite !Hat, swapped_cmp. cbn in Hi.
    destruct (decide (c / 2 / 2 = c)); [lia|]. destruct (decide (c / 2 / 2 = c / 2)); [lia|].
    intros Hp Hq.
    assert (cmp (h_mem h) p x = true) as Hpx by (apply (Ho (c / 2)); [lia|lia|lia|done|done]).
    destruct (decide (i = c)); [congruence|]. destruct (decide (i = c / 2)); [lia|].
    apply (cmp_trans _ _ x); [done|]. apply (Ho i Hi); [done|lia|by rewrite Hip|done].
Qed.

(** Exchanging an entry with its largest child moves it down to the child. *)
Lemma swap_down_step h c n x y :
  shape h → 1 ≤ c → 2 ≤ n < h_e h → n / 2 = c → sinking h c →
  (h_data h).[c] = Some x → (h_data h).[n] = Some y → cmp (h_mem h) y x = true →
  (∀ i, 2 ≤ i < h_e h → i / 2 = c → above h n i) →
  sinking (swapped n c y x h) n.
Proof.
  intros Hs Hc Hn Hnc [Ho Hb] Hx Hy Hyx Hmax. assert (n ≠ c) as Hne by lia.
  pose proof (λ i, swapped_at h n c y x Hne Hy Hx i) as Hat. split.
  - intros i Hi Hin p q. rewrite !Hat, swapped_cmp. cbn in Hi.
    destruct (decide (i / 2 = n)) as [|]; [done|].
    destruct (decide (i / 2 = c)) as [Hic|]; intros Hp Hq.
    + injection Hp as <-. destruct (decide (i = c)); [lia|].
      destruct (decide (i = n)); [congruence|]. by apply (Hmax i Hi Hic).
    + destruct (decide (i = c)) as [->|]; [|destruct (decide (i = n)); [lia|by apply (Ho i Hi)]].
      injection Hq as <-. apply (Hb n); [lia|done|lia|done|done].
  - intros i Hi Hin Hn2 p q. rewrite Hnc, !Hat, swapped_cmp, decide_True by done. cbn in Hi.
    intros [= <-] Hq. destruct (decide (i = c)); [lia|]. destruct (decide (i = n)); [lia|].
    apply (Ho i Hi); [lia|by rewrite Hin|done].
Qed.

(** The loop of [swap_up] ends after at most one step per level above [c]. *)
Lemma up_loop_run fuel : ∀ c h,
  shape h → placed h → 1 ≤ c < h_e h → adjusting h c → Z.log2 c < Z.of_nat fuel →
  ∃ c' h', up_loop fuel c h = Done c' h' ∧ shuffled h h' ∧ placed h' ∧
    1 ≤ c' < h_e h ∧ sinking h' c'.
Proof.
  induction fuel as [|fuel IH]; intros c h Hs Hp Hc Ha Hf; [pose proof (Z.log2_nonneg c); lia|].
  cbn [up_loop]. destruct (Z.leb_spec c 1) as [H1|H1].
  - exists c, h. split; [done|]. split; [apply shuffled_refl|]. do 2 (split; [done|]).
    destruct Ha as [Ho Hb]. split; [|done]. intros i Hi Hic. apply Ho; lia.
  - rewrite Z.quot_div_nonneg by lia. destruct (Z.eqb_spec (c / 2) 0); [lia|].
    erewrite bind_run by reflexivity.
    destruct (shape_at h (c / 2) Hs) as [x Hx]; [lia|]. destruct (shape_at h c Hs) as [y Hy]; [lia|].
    rewrite (bind_run _ _ _ _ _ (get_data_run _ _ _ Hx)), (bind_run _ _ _ _ _ (get_data_run _ _ _ Hy)).
    erewrite bind_run by reflexivity. destruct (cmp (h_mem h) x y) eqn:Hxy.
    + exists c, h. split; [done|]. split; [apply shuffled_refl|]. do 2 (split; [done|]).
      destruct Ha as [Ho Hb]. split; [|done]. intros i Hi Hic.
      destruct (decide (i = c)) as [->|]; [|by apply Ho]. intros p q ??. congruence.
    + assert (cmp (h_mem h) y x = true) as Hyx by (destruct (cmp_total (h_mem h) x y); congruence).
      rewrite (bind_run _ _ _ _ _ (swap_run (c / 2) c x y h ltac:(lia) Hx Hy)).
      assert (shuffled h (swapped (c / 2) c x y h)) as Hsh by (apply swapped_shuffled; lia || done).
      pose proof (log2_half c ltac:(lia)).
      destruct (IH (c / 2) (swapped (c / 2) c x y h)) as (c' & h' & Hrun & Hsh' & Hp' & Hc' & Hs').
      * by eapply shuffled_shape.
      * apply swapped_placed; lia || done.
      * cbn. lia.
      * apply swap_up_step; lia || done.
      * lia.
      * exists c', h'. split; [done|]. split; [by eapply shuffled_trans|]. by split.
Qed.

(** The child the loop of [swap_down] looks at is the largest one. *)
Definition next_down (l c : Z) : M (heap E U) Z :=
  if l <? 2 * c + 1 then mret (2 * c)
  else a ← get_data (2 * c); b ← get_data (2 * c + 1);
       r ← call_c a b; mret (if r : bool then 2 * c else 2 * c + 1).

Lemma next_down_run h c :
  shape h → 1 ≤ c ≤ (h_e h - 1) / 2 →
  ∃ n, next_down (h_e h - 1) c h = Done n h ∧ 2 ≤ n < h_e h ∧ n / 2 = c ∧
    ∀ i, 2 ≤ i < h_e h → i / 2 = c → above h n i.
Proof.
  intros Hs Hc. unfold next_down. destruct (Z.ltb_spec (h_e h - 1) (2 * c + 1)) as [Hr|Hr].
  - exists (2 * c). split; [done|]. split; [lia|]. split; [lia|].
    intros i Hi Hic p q Hp Hq. assert (i = 2 * c) as -> by lia.
    destruct (cmp_total (h_mem h) p q); congruence.
  - destruct (shape_at h (2 * c) Hs) as [a Ha]; [lia|].
    destruct (shape_at h (2 * c + 1) Hs) as [b Hb]; [lia|].
    rewrite (bind_run _ _ _ _ _ (get_data_run _ _ _ Ha)), (bind_run _ _ _ _ _ (get_data_run _ _ _ Hb)).
    erewrite bind_run by reflexivity. eexists. split; [done|].
    destruct (cmp (h_mem h) a b) eqn:Hab; (split; [lia|]); (split; [lia|]);
      intros i Hi Hic p q Hp Hq; (assert (i = 2 * c ∨ i = 2 * c + 1) as [-> | ->] by lia);
      destruct (cmp_total (h_mem h) p q), (cmp_total (h_mem h) b a); congruence.
Qed.

Lemma down_loop_unfold fuel l c :
  down_loop (S fuel) l c =
    if Z.quot l 2 <? c then mret c
    else n ← next_down l c; e ← gets h_e; assert (n <? e);;
         x ← get_data c; y ← get_data n; done ← call_c x y;
         if done : bool then mret c else swap_entries n c;; down_loop fuel l n.
Proof. reflexivity. Qed.

(** The loop of [swap_down] ends after at most one step per level below [c]. *)
Lemma down_loop_run fuel : ∀ c h,
  shape h → placed h → 1 ≤ c → sinking h c → (0 < fuel)%nat →
  Z.log2 (h_e h - 1) < Z.log2 c + Z.of_nat fuel →
  ∃ c' h', down_loop fuel (h_e h - 1) c h = Done c' h' ∧ shuffled h h' ∧ placed h' ∧ ordered h'.
Proof.
  induction fuel as [|fuel IH]; intros c h Hs Hp Hc Hk Hf0 Hf; [lia|].
  rewrite down_loop_unfold, Z.quot_div_nonneg by (destruct Hs; lia).
  destruct (Z.ltb_spec ((h_e h - 1) / 2) c) as [Hl|Hl].
  { exists c, h. split; [done|]. split; [apply shuffled_refl|]. split; [done|].
    intros i Hi. apply Hk; lia. }
  destruct (next_down_run h c Hs) as (n & Hn & Hn1 & Hnc & Hmax); [lia|].
  rewrite (bind_run _ _ _ _ _ Hn). erewrite bind_run by reflexivity.
  destruct (Z.ltb_spec n (h_e h)); [|lia]. erewrite bind_run by reflexivity.
  destruct (shape_at h c Hs) as [x Hx]; [lia|]. destruct (shape_at h n Hs) as [y Hy]; [lia|].
  rewrite (bind_run _ _ _ _ _ (get_data_run _ _ _ Hx)), (bind_run _ _ _ _ _ (get_data_run _ _ _ Hy)).
  erewrite bind_run by reflexivity. destruct (cmp (h_mem h) x y) eqn:Hxy.
  { exists c, h. split; [done|]. split; [apply shuffled_refl|]. split; [done|].
    intros i Hi. destruct (decide (i / 2 = c)) as [Hic|]; [|by apply Hk].
    rewrite Hic. intros p q Hp' Hq. apply (cmp_trans _ _ y); [congruence|].
    by apply (Hmax i Hi Hic). }
  assert (cmp (h_mem h) y x = true) as Hyx by (destruct (cmp_total (h_mem h) x y); congruence).
  rewrite (bind_run _ _ _ _ _ (swap_run n c y x h ltac:(lia) Hy Hx)).
  assert (shuffled h (swapped n c y x h)) as Hsh by (apply swapped_shuffled; lia || done).
  pose proof (log2_half n ltac:(lia)) as Hlog. rewrite Hnc in Hlog.
  pose proof (Z.log2_le_mono n (h_e h - 1) ltac:(lia)).
  destruct (IH n (swapped n c y x h)) as (c' & h' & Hrun & Hsh' & Hp' & Ho').
  - by eapply shuffled_shape.
  - apply swapped_placed; lia || done.
  - lia.
  - apply (swap_down_step h c); lia || done.
  - lia.
  - cbn. lia.
  - exists c', h'. split; [done|]. split; [by eapply shuffled_trans|]. by split.
Qed.

(** [heapify] repairs the order at one entry. *)
Lemma swap_down_run c h :
  shape h → placed h → 1 ≤ c ≤ h_e h → sinking h c →
  ∃ c' h', swap_down c h = Done c' h' ∧ shuffled h h' ∧ placed h' ∧ ordered h'.
Proof.
  intros Hs Hp Hc Hk. unfold swap_down. destruct (Z.eqb_spec c 0); [lia|].
  erewrite bind_run by reflexivity. erewrite bind_run by reflexivity.
  destruct (Z.leb_spec c (h_e h)); [|lia]. erewrite bind_run by reflexivity.
  apply down_loop_run; try done; unfold levels; [lia|lia|].
  pose proof (Z.log2_le_mono (h_e h - 1) (h_e h) ltac:(lia)).
  pose proof (Z.log2_nonneg c). pose proof (Z.log2_nonneg (h_e h)). lia.
Qed.

Lemma heapify_run c h :
  shape h → placed h → 1 ≤ c < h_e h → adjusting h c →
  ∃ c' h', heapify c h = Done c' h' ∧ shuffled h h' ∧ placed h' ∧ ordered h'.
Proof.
  intros Hs Hp Hc Ha. unfold heapify, swap_up.
  destruct (up_loop_run (levels (h_e h)) c h Hs Hp Hc Ha) as (c1 & h1 & Hr & Hsh & Hp1 & Hc1 & Hk).
  { unfold levels. pose proof (Z.log2_le_mono c (h_e h) ltac:(lia)). lia. }
  erewrite bind_run.
  2: { erewrite bind_run by reflexivity. destruct (Z.leb_spec c (h_e h)); [|lia].
       erewrite bind_run by reflexivity. destruct (Z.ltb_spec 0 c); [|lia].
       erewrite bind_run by reflexivity. rewrite (bind_run _ _ _ _ _ Hr).
       destruct (Z.eqb_spec c1 0); [lia|]. reflexivity. }
  destruct (swap_down_run c1 h1) as (c2 & h2 & Hr2 & Hsh2 & Hp2 & Ho2); try done.
  - by eapply shuffled_shape.
  - rewrite (sh_e _ _ Hsh). lia.
  - exists c2, h2. split; [done|]. split; [by eapply shuffled_trans|]. by split.
Qed.

Record heap_ok h : Prop := {
  ok_shape : shape h;
  ok_placed : placed h;
  ok_ordered : ordered h;
}.

(** The root is not smaller than any entry. *)
Lemma root_max h i : heap_ok h → 1 ≤ i < h_e h → above h 1 i.
Proof.
  intros [Hs _ Ho] Hi. revert Hi. revert i.
  apply (well_founded_induction (Z.lt_wf 1) (λ i, 1 ≤ i < h_e h → above h 1 i)).
  intros i IH Hi x y Hx Hy. destruct (decide (i = 1)) as [->|].
  { destruct (cmp_total (h_mem h) x y); congruence. }
  destruct (shape_at h (i / 2) Hs) as [z Hz]; [lia|].
  apply (cmp_trans _ _ z); [apply (IH (i / 2)); lia || done|]. apply (Ho i); lia || done.
Qed.

(** An ordered heap is ordered around any of its entries, too. *)
Lemma ordered_bridged h c : shape h → ordered h → bridged h c.
Proof.
  intros Hs Ho i Hi <- Hc p q Hp Hq.
  destruct (shape_at h (i / 2) Hs) as [z Hz]; [lia|].
  apply (cmp_trans _ _ z); [apply (Ho (i / 2)); lia || done|]. by apply (Ho i).
Qed.

(** *** Storing an entry

    The operations write an entry to some place [c], tell it, and have the
    order repaired from there; [e'] is the end of the heap after that. *)
Definition stored (e' c : Z) x h : heap E U :=
  MkHeap e' (h_max_sz h) ((h_data h).[c := x]) (upd x c (h_mem h)).

Section Stored.
Context (h : heap E U) (e' c : Z) (x : E).
Hypotheses (Hc : 1 ≤ c < e') (He : e' ≤ h_max_sz h) (Hlen : e' ≤ Z.of_nat (length (h_data h))).
Hypothesis Hplaced : ∀ i y, 1 ≤ i < e' → i ≠ c → (h_data h).[i] = Some y → y ≠ x ∧ pos (h_mem h) y = i.
Hypothesis Hord : ∀ i, 2 ≤ i < e' → i ≠ c → i / 2 ≠ c → above h (i / 2) i.
Hypothesis Hbr : ∀ i, 2 ≤ i < e' → i / 2 = c → 2 ≤ c → above h (c / 2) i.

Lemma stored_at i : (h_data (stored e' c x h)).[i] = if decide (c = i) then Some x else (h_data h).[i].
Proof.
  destruct (zlookup_is_Some (h_data h) c) as [o Ho]; [lia|]. by apply (zlookup_zinsert _ c i x o).
Qed.

Lemma stored_above i j : i ≠ c → j ≠ c → above h i j → above (stored e' c x h) i j.
Proof. intros Hi Hj Ha p q. rewrite !stored_at, !decide_False by done. cbn. rewrite cmp_upd. apply Ha. Qed.

Lemma stored_shape : shape (stored e' c x h).
Proof. split; cbn; [lia|]. rewrite length_zinsert. lia. Qed.

Lemma stored_placed : placed (stored e' c x h).
Proof.
  intros i y Hi. rewrite stored_at. cbn in Hi |- *. case_decide as Hic.
  - intros [= ->]. by rewrite pos_upd_eq.
  - intros Hy. destruct (Hplaced i y) as [? Hpos]; try done. by rewrite pos_upd_ne.
Qed.

Lemma stored_adjusting : adjusting (stored e' c x h) c.
Proof. split; intros i Hi; cbn in Hi; intros; apply stored_above; try lia; auto. Qed.

Lemma stored_inside y :
  inside (stored e' c x h) y ↔ y = x ∨ ∃ i, 1 ≤ i < e' ∧ i ≠ c ∧ (h_data h).[i] = Some y.
Proof.
  split.
  - intros (i & Hi & Hy). rewrite stored_at in Hy. cbn in Hi. case_decide; [left; congruence|].
    right. by exists i.
  - intros [-> | (i & Hi & Hic & Hy)].
    + exists c. rewrite stored_at, decide_True by done. by split.
    + exists i. rewrite stored_at, decide_False by done. by split.
Qed.

(** What holds after the repair. *)
Definition settled h' : Prop :=
  heap_ok h' ∧ h_e h' = e' ∧ h_max_sz h' = h_max_sz h ∧
  length (h_data h') = length (h_data h) ∧
  (∀ a b, cmp (h_mem h') a b = cmp (h_mem h) a b) ∧
  (∀ y, inside h' y ↔ y = x ∨ ∃ i, 1 ≤ i < e' ∧ i ≠ c ∧ (h_data h).[i] = Some y) ∧
  (∀ y, ¬ inside h' y → pos (h_mem h') y = pos (h_mem h) y).

Lemma shuffled_settled h' :
  shuffled (stored e' c x h) h' → placed h' → ordered h' → settled h'.
Proof.
  intros Hsh Hp Ho. pose proof (shuffled_shape _ _ Hsh stored_shape). destruct Hsh.
  do 3 (split; [done|]). split; [rewrite sh_len0; cbn; apply length_zinsert|].
  split; [intros; rewrite sh_cmp0; apply cmp_upd|].
  split; [intros; rewrite sh_in0; apply stored_inside|].
  intros y Hy. rewrite sh_in0 in Hy. rewrite sh_pos0 by done. cbn. apply pos_upd_ne.
  intros Hyx. apply Hy, stored_inside. by left.
Qed.

Lemma stored_heapify : ∃ c' h', heapify c (stored e' c x h) = Done c' h' ∧ settled h'.
Proof.
  destruct (heapify_run c (stored e' c x h)) as (c' & h' & Hr & Hsh & Hp & Ho);
    [apply stored_shape|apply stored_placed|done|apply stored_adjusting|].
  exists c', h'. split; [done|]. by apply shuffled_settled.
Qed.
End Stored.

(** [heap_add] puts the entry in. *)
Lemma heap_add_run h x :
  heap_ok h → ¬ inside h x → h_e h < h_max_sz h → h_e h < Z.of_nat (length (h_data h)) →
  ∃ h', heap_add x h = Done 0 h' ∧ settled h (h_e h + 1) (h_e h) x h'.
Proof.
  intros [Hs Hp Ho] Hx Hmax Hlen. unfold heap_add.
  erewrite bind_run by reflexivity. erewrite bind_run by reflexivity.
  destruct (Z.eqb_spec (h_max_sz h) (h_e h)); [lia|]. destruct Hs as [Hs1 Hs2].
  destruct (zlookup_is_Some (h_data h) (h_e h)) as [o Hold]; [lia|].
  rewrite (bind_run _ _ _ _ _ (put_data_run _ _ _ _ Hold)).
  erewrite bind_run by reflexivity. erewrite bind_run by reflexivity.
  destruct (stored_heapify h (h_e h + 1) (h_e h) x) as (c' & h' & Hr & Hset); try lia.
  - intros i y Hi Hie Hy. split; [|apply Hp; lia || done]. intros ->. apply Hx. exists i. split; [lia|done].
  - intros i Hi Hie _. apply Ho. lia.
  - exists h'. unfold stored in Hr. cbn in Hr |- *. by rewrite (bind_run _ _ _ _ _ Hr).
Qed.

(** Telling an entry outside of the heap its position changes nothing inside. *)
Lemma forget_ok h r p :
  heap_ok h → ¬ inside h r → heap_ok (set_mem (upd r p (h_mem h)) h).
Proof.
  intros [Hs Hp Ho] Hr. split; [done| |].
  - intros i y Hi Hy. cbn in *. rewrite pos_upd_ne; [by apply Hp|].
    intros <-. apply Hr. by exists i.
  - intros i Hi x y Hx Hy. cbn. rewrite cmp_upd. by apply (Ho i).
Qed.

(** What taking an entry out leaves behind. *)
Record taken h (r : E) h' : Prop := {
  tk_ok : heap_ok h';
  tk_e : h_e h' = h_e h - 1;
  tk_max : h_max_sz h' = h_max_sz h;
  tk_len : length (h_data h') = length (h_data h);
  tk_cmp a b : cmp (h_mem h') a b = cmp (h_mem h) a b;
  tk_in y : inside h' y ↔ inside h y ∧ y ≠ r;
}.

Lemma forget_taken h r h' p : taken h r h' → taken h r (set_mem (upd r p (h_mem h')) h').
Proof.
  intros []. split; try done.
  - apply forget_ok; [done|]. rewrite tk_in0. by intros [_ ?].
  - intros. cbn. by rewrite cmp_upd.
Qed.

(** Replacing an entry by the last one takes it out. *)
Lemma inside_others h c r y :
  placed h → 1 ≤ c < h_e h → (h_data h).[c] = Some r →
  (inside h y ∧ y ≠ r) ↔ ∃ i, 1 ≤ i < h_e h ∧ i ≠ c ∧ (h_data h).[i] = Some y.
Proof.
  intros Hp Hc Hr. split.
  - intros [(i & Hi & Hy) Hne]. exists i. split; [done|]. split; [|done]. congruence.
  - intros (i & Hi & Hic & Hy). split; [by exists i|]. intros ->. by apply Hic, (placed_inj h i c r).
Qed.

Lemma settled_taken h m c r x h' :
  placed h → 1 ≤ c < h_e h - 1 → (h_data h).[c] = Some r → (h_data h).[h_e h - 1] = Some x →
  (∀ a b, cmp m a b = cmp (h_mem h) a b) →
  settled (set_mem m h) (h_e h - 1) c x h' → taken h r h'.
Proof.
  intros Hp Hc Hr Hx Hm (Hok & He & Hmax & Hl & Hcmp & Hin & _).
  split; [done..|intros; by rewrite Hcmp|].
  intros y. rewrite Hin, (inside_others h c) by (done || lia). cbn. split.
  - intros [-> | (i & Hi & Hic & Hy)]; [exists (h_e h - 1)|exists i]; repeat split; done || lia.
  - intros (i & Hi & Hic & Hy). destruct (decide (i = h_e h - 1)) as [->|]; [left; congruence|].
    right. exists i. repeat split; done || lia.
Qed.

(** The conditions for storing the last entry at [c]. *)
Lemma last_placed h c r x m :
  placed h → 1 ≤ c < h_e h - 1 → (h_data h).[c] = Some r → (h_data h).[h_e h - 1] = Some x →
  (∀ y, y ≠ r → pos m y = pos (h_mem h) y) →
  ∀ i y, 1 ≤ i < h_e h - 1 → i ≠ c → (h_data h).[i] = Some y → y ≠ x ∧ pos m y = i.
Proof.
  intros Hp Hc Hr Hx Hm i y Hi Hic Hy. split.
  - intros ->. assert (i = h_e h - 1); [|lia]. apply (placed_inj h i _ x); done || lia.
  - rewrite Hm; [apply Hp; done || lia|]. intros ->. apply Hic, (placed_inj h i c r); done || lia.
Qed.

Lemma highest_sinks h r x :
  heap_ok h → 1 < h_e h → (h_data h).[1] = Some r → (h_data h).[h_e h - 1] = Some x →
  ∃ c' h', swap_down 1 (stored (h_e h - 1) 1 x h) = Done c' h' ∧ taken h r h'.
Proof.
  intros [Hs Hp Ho] He Hr Hx. pose proof Hs as [Hs1 Hs2].
  destruct (decide (h_e h = 2)) as [He2|].
  - destruct (swap_down_run 1 (stored (h_e h - 1) 1 x h)) as (c' & h' & Hrun & Hsh & Hp' & Ho').
    + split; cbn; [lia|]. rewrite length_zinsert. lia.
    + intros i y Hi. cbn in Hi. lia.
    + cbn. lia.
    + split; intros i Hi; cbn in Hi; lia.
    + exists c', h'. split; [done|].
      assert (shape h') by (eapply shuffled_shape; [done|]; split; cbn; rewrite ?length_zinsert; lia).
      destruct Hsh. split; [done..|rewrite sh_len0; cbn; apply length_zinsert| |].
      * intros. rewrite sh_cmp0. apply cmp_upd.
      * intros y. rewrite sh_in0, (inside_others h 1) by (done || lia).
        split; intros (i & Hi & ?); cbn in Hi; lia.
  - pose proof (last_placed h 1 r x (h_mem h) Hp ltac:(lia) Hr Hx ltac:(done)) as Hpl.
    assert (∀ i, 2 ≤ i < h_e h - 1 → i ≠ 1 → i / 2 ≠ 1 → above h (i / 2) i) as Hord
      by (intros; apply Ho; lia).
    destruct (swap_down_run 1 (stored (h_e h - 1) 1 x h)) as (c' & h' & Hrun & Hsh & Hp' & Ho').
    + apply stored_shape; lia.
    + apply stored_placed; done || lia.
    + cbn. lia.
    + destruct (stored_adjusting h (h_e h - 1) 1 x) as [Ha Hb]; try (done || lia).
      split; [|done]. intros i Hi Hi1. apply Ha; lia.
    + exists c', h'. split; [done|]. apply (settled_taken h (h_mem h) 1 r x); try (done || lia).
      destruct h. apply shuffled_settled; done || (cbn in *; lia).
Qed.

(** [heap_highest] takes the root out. *)
Lemma heap_highest_run h :
  heap_ok h → h_e h ≠ 1 →
  ∃ r h', heap_highest h = Done (Some r) h' ∧ (h_data h).[1] = Some r ∧ taken h r h' ∧
    pos (h_mem h') r = 0.
Proof.
  intros Hok He1. pose proof Hok as [Hs _ _]. unfold heap_highest.
  erewrite bind_run by reflexivity. destruct (Z.eqb_spec (h_e h) 1); [done|].
  pose proof Hs as [Hs1 Hs2].
  destruct (shape_at h 1 Hs) as [r Hr]; [lia|]. destruct (shape_at h (h_e h - 1) Hs) as [x Hx]; [lia|].
  rewrite (bind_run _ _ _ _ _ (get_data_run _ _ _ Hr)). erewrite bind_run by reflexivity.
  set (h0 := set_e (h_e h - 1) h).
  rewrite (bind_run _ _ h0 x h0 (get_data_run _ h0 _ Hx)).
  rewrite (bind_run _ _ h0 _ _ (put_data_run 1 x r h0 Hr)).
  erewrite bind_run; [|apply get_data_run; by eapply zlookup_zinsert_eq].
  erewrite bind_run by reflexivity.
  destruct (highest_sinks h r x) as (c' & h' & Hrun & Htk); try (done || lia).
  unfold stored in Hrun. rewrite (bind_run _ _ _ _ _ Hrun).
  exists r, (set_mem (upd r 0 (h_mem h')) h'). split; [done|]. split; [done|].
  split; [by apply forget_taken|]. cbn. apply pos_upd_eq.
Qed.

Lemma heap_adjust_heapify c h :
  0 < c < h_e h → heap_adjust c h = (heapify c;; mret tt) h.
Proof.
  intros Hc. unfold heap_adjust. erewrite bind_run by reflexivity.
  destruct (Z.ltb_spec c (h_e h)); [|lia]. erewrite bind_run by reflexivity.
  destruct (Z.ltb_spec 0 c); [|lia]. by erewrite bind_run by reflexivity.
Qed.

(** [heap_remove] takes the entry at [c] out. *)
Lemma heap_remove_run h c :
  heap_ok h → 1 ≤ c < h_e h →
  ∃ r h', heap_remove c h = Done (Some r) h' ∧ (h_data h).[c] = Some r ∧ taken h r h' ∧
    pos (h_mem h') r = 0.
Proof.
  intros Hok Hc. pose proof Hok as [Hs Hp Ho]. pose proof Hs as [Hs1 Hs2]. unfold heap_remove.
  erewrite bind_run by reflexivity. destruct (Z.ltb_spec c (h_e h)); [|lia].
  erewrite bind_run by reflexivity. destruct (Z.leb_spec 1 c); [|lia].
  erewrite bind_run by reflexivity. destruct (Z.eqb_spec (h_e h) 1); [lia|].
  destruct (shape_at h c Hs) as [r Hr]; [lia|]. destruct (shape_at h (h_e h - 1) Hs) as [x Hx]; [lia|].
  rewrite (bind_run _ _ _ _ _ (get_data_run _ _ _ Hr)). erewrite bind_run by reflexivity.
  erewrite bind_run by reflexivity. destruct (Z.eqb_spec c (h_e h - 1)) as [->|].
  - eexists _, _. split; [done|]. split; [done|]. split; [|cbn; apply pos_upd_eq].
    assert (∀ y, inside (set_e (h_e h - 1) h) y ↔ inside h y ∧ y ≠ r) as Hin.
    { intros y. rewrite (inside_others h (h_e h - 1)) by done.
      split; intros (i & Hi & Hy); cbn in Hi; exists i; [split; [lia|]; split; [lia|done]|].
      destruct Hy. cbn. split; [lia|done]. }
    apply forget_taken. split; try done. split.
    + split; cbn; lia.
    + intros i y Hi. apply Hp. cbn in Hi. lia.
    + intros i Hi. apply (Ho i). cbn in Hi. lia.
  - set (m := upd r 0 (h_mem h)). set (h0 := set_mem m (set_e (h_e h - 1) h)).
    rewrite (bind_run _ _ h0 x h0 (get_data_run _ h0 _ Hx)).
    rewrite (bind_run _ _ h0 _ _ (put_data_run c x r h0 Hr)).
    erewrite bind_run; [|apply get_data_run; by eapply zlookup_zinsert_eq].
    erewrite bind_run by reflexivity.
    assert (∀ a b, cmp m a b = cmp (h_mem h) a b) as Hcmp by (intros; apply cmp_upd).
    destruct (stored_heapify (set_mem m h) (h_e h - 1) c x) as (c' & h' & Hrun & Hset);
      try (done || (cbn; lia)).
    + apply (last_placed h c r); try (done || lia). intros y Hy. by apply pos_upd_ne.
    + intros i Hi Hic Hic2 p q. cbn. rewrite Hcmp. apply (Ho i). lia.
    + intros i Hi Hic Hc2 p q. cbn. rewrite Hcmp. apply (ordered_bridged h c Hs Ho i); lia.
    + unfold stored in Hrun. cbn in Hrun.
      erewrite bind_run; [|rewrite heap_adjust_heapify by (cbn; lia);
        by rewrite (bind_run _ _ _ _ _ Hrun)].
      exists r, h'. split; [done|]. split; [done|].
      assert (taken h r h') as Htk by (apply (settled_taken h m c r x); try (done || lia)).
      split; [done|]. destruct Hset as (_ & _ & _ & _ & _ & _ & Hpos).
      rewrite Hpos; [apply pos_upd_eq|]. rewrite (tk_in _ _ _ Htk). by intros [_ ?].
Qed.

(** *** The specification

    A priority queue is a bag of entries.  [ge] compares entries, [at_] names
    the position under which an entry can be removed. *)
Inductive pq_op : Type :=
| Add (x : E) | Highest | Peek | Remove (c : Z) | Size.

Inductive pq_ret : Type := Code (z : Z) | Entry (r : option E).

Inductive pq_step (ge : E → E → bool) (cap : Z) (at_ : E → Z) :
    list E → pq_op → pq_ret → list E → Prop :=
| pq_add b x b' : Z.of_nat (length b) < cap → b' ≡ₚ x :: b →
    pq_step ge cap at_ b (Add x) (Code 0) b'
| pq_full b x : Z.of_nat (length b) = cap → pq_step ge cap at_ b (Add x) (Code (-1)) b
| pq_highest b x b' : b ≡ₚ x :: b' → (∀ y, y ∈ b → ge x y = true) →
    pq_step ge cap at_ b Highest (Entry (Some x)) b'
| pq_highest_none : pq_step ge cap at_ [] Highest (Entry None) []
| pq_peek b x : x ∈ b → (∀ y, y ∈ b → ge x y = true) →
    pq_step ge cap at_ b Peek (Entry (Some x)) b
| pq_peek_none : pq_step ge cap at_ [] Peek (Entry None) []
| pq_remove b x b' c : at_ x = c → b ≡ₚ x :: b' →
    pq_step ge cap at_ b (Remove c) (Entry (Some x)) b'
| pq_size b : pq_step ge cap at_ b Size (Code (Z.of_nat (length b))) b.

Definition do_op (op : pq_op) : M (heap E U) pq_ret :=
  match op with
  | Add x => z ← heap_add x; mret (Code z)
  | Highest => r ← heap_highest; mret (Entry r)
  | Peek => r ← heap_peek; mret (Entry r)
  | Remove c => r ← heap_remove c; mret (Entry r)
  | Size => z ← heap_size; mret (Code z)
  end.

(** The entries of a heap. *)
Definition contents h : list E := take (Z.to_nat (h_e h - 1)) (drop 1 (h_data h)).

(** What the client may ask for: a new entry and memory for it, and a position
    that is in use. *)
Definition allowed h (op : pq_op) : Prop :=
  match op with
  | Add x => (x ∉ contents h) ∧ (h_e h < h_max_sz h → h_e h < Z.of_nat (length (h_data h)))
  | Remove c => 1 ≤ c < h_e h
  | _ => True
  end.

Lemma elem_of_contents h x : shape h → x ∈ contents h ↔ inside h x.
Proof.
  intros [Hs1 Hs2]. unfold contents. rewrite list_elem_of_lookup. split.
  - intros (i & Hi). apply lookup_take_Some in Hi as [Hi Hlt]. rewrite lookup_drop in Hi.
    exists (Z.of_nat i + 1). split; [lia|]. apply zlookup_Some. split; [lia|].
    by replace (Z.to_nat (Z.of_nat i + 1)) with (1 + i)%nat by lia.
  - intros (i & Hi & Hx). apply zlookup_Some in Hx as [_ Hx]. exists (Z.to_nat (i - 1)).
    apply lookup_take_Some. split; [|lia]. rewrite lookup_drop.
    by replace (1 + Z.to_nat (i - 1))%nat with (Z.to_nat i) by lia.
Qed.

Lemma length_contents h : shape h → Z.of_nat (length (contents h)) = h_e h - 1.
Proof. intros [Hs1 Hs2]. unfold contents. rewrite length_take, length_drop. lia. Qed.

Lemma contents_nodup h : shape h → placed h → NoDup (contents h).
Proof.
  intros [Hs1 Hs2] Hp. apply NoDup_alt. intros i j x. unfold contents.
  rewrite !lookup_take_Some, !lookup_drop. intros [Hi Hi1] [Hj Hj1].
  assert (Z.of_nat (1 + i) = Z.of_nat (1 + j)); [|lia].
  apply (placed_inj h _ _ x Hp); [lia|lia| |]; apply zlookup_Some; by rewrite Nat2Z.id; split; [lia|].
Qed.

(** The bags before and after an operation. *)
Lemma contents_add h h' x :
  heap_ok h → heap_ok h' → ¬ inside h x → (∀ y, inside h' y ↔ y = x ∨ inside h y) →
  contents h' ≡ₚ x :: contents h.
Proof.
  intros [Hs Hp _] [Hs' Hp' _] Hx Hin. apply NoDup_Permutation.
  - by apply contents_nodup.
  - apply NoDup_cons. split; [by rewrite elem_of_contents|by apply contents_nodup].
  - intros y. by rewrite elem_of_cons, !elem_of_contents.
Qed.

Lemma contents_take h h' c r :
  heap_ok h → 1 ≤ c < h_e h → (h_data h).[c] = Some r → taken h r h' →
  contents h ≡ₚ r :: contents h'.
Proof.
  intros Hok Hc Hr Htk. pose proof (tk_in _ _ _ Htk) as Hin. apply contents_add; [apply Htk|done| |].
  - rewrite Hin. by intros [_ ?].
  - intros y. rewrite Hin, (inside_others h c) by (done || apply Hok). split.
    + intros (i & Hi & Hy). destruct (decide (i = c)) as [->|]; [left; congruence|right; by exists i].
    + intros [-> | (i & Hi & _ & Hy)]; [by exists c|by exists i].
Qed.

(** The root is the maximum of the bag. *)
Lemma root_contents h r :
  heap_ok h → 1 < h_e h → (h_data h).[1] = Some r →
  r ∈ contents h ∧ ∀ y, y ∈ contents h → cmp (h_mem h) r y = true.
Proof.
  intros Hok He Hr. rewrite elem_of_contents by apply Hok. split; [exists 1; split; [lia|done]|].
  intros y. rewrite elem_of_contents by apply Hok. intros (i & Hi & Hy). by apply (root_max h i Hok).
Qed.

Lemma contents_nil h : shape h → h_e h = 1 → contents h = [].
Proof. intros _ He. unfold contents. by rewrite He. Qed.

(** One step of the heap is one step of the queue. *)
Definition simulated h (op : pq_op) : Prop :=
  ∃ r h', do_op op h = Done r h' ∧ heap_ok h' ∧
    pq_step (cmp (h_mem h)) (h_max_sz h - 1) (pos (h_mem h)) (contents h) op r (contents h') ∧
    (∀ a b, cmp (h_mem h') a b = cmp (h_mem h) a b) ∧ h_max_sz h' = h_max_sz h.

Lemma heap_add_full h x : h_max_sz h = h_e h → heap_add x h = Done (-1) h.
Proof.
  intros He. unfold heap_add. do 2 erewrite bind_run by reflexivity.
  destruct (Z.eqb_spec (h_max_sz h) (h_e h)); done.
Qed.

Lemma heap_highest_empty h : h_e h = 1 → heap_highest h = Done None h.
Proof.
  intros He. unfold heap_highest. erewrite bind_run by reflexivity.
  destruct (Z.eqb_spec (h_e h) 1); done.
Qed.

Lemma heap_peek_run h : heap_peek h = if h_e h =? 1 then Done None h else (r ← get_data 1; mret (Some r)) h.
Proof. unfold heap_peek. erewrite bind_run by reflexivity. by destruct (h_e h =? 1). Qed.

Lemma add_simulated h x : heap_ok h → allowed h (Add x) → simulated h (Add x).
Proof.
  intros Hok [Hx Hroom]. pose proof Hok as [Hs _ _]. pose proof Hs as [Hs1 _].
  pose proof (length_contents h Hs) as Hlen. rewrite elem_of_contents in Hx by done.
  destruct (decide (h_max_sz h = h_e h)) as [Hfull|].
  - exists (Code (-1)), h. unfold do_op. rewrite (bind_run _ _ _ _ _ (heap_add_full _ _ Hfull)).
    do 2 (split; [done|]). split; [|done]. apply pq_full. lia.
  - destruct (heap_add_run h x) as (h' & Hr & Hok' & He & Hmax & _ & Hcmp & Hin & _);
      [done|done|lia|apply Hroom; lia|].
    exists (Code 0), h'. unfold do_op. rewrite (bind_run _ _ _ _ _ Hr). do 2 (split; [done|]). split; [|done].
    apply pq_add; [lia|]. apply contents_add; try done. intros y. rewrite Hin. split.
    + intros [?|(i & Hi & Hie & Hy)]; [by left|right]. exists i. split; [lia|done].
    + intros [?|(i & Hi & Hy)]; [by left|right]. exists i. split; [lia|]. split; [lia|done].
Qed.

Lemma highest_simulated h : heap_ok h → simulated h Highest.
Proof.
  intros Hok. pose proof Hok as [Hs _ _]. pose proof Hs as [Hs1 _].
  destruct (decide (h_e h = 1)) as [He|He].
  - exists (Entry None), h. unfold do_op. rewrite (bind_run _ _ _ _ _ (heap_highest_empty _ He)).
    do 2 (split; [done|]). split; [|done]. rewrite contents_nil by done. constructor.
  - destruct (heap_highest_run h) as (r & h' & Hr & Hroot & Htk & _); try done.
    exists (Entry (Some r)), h'. unfold do_op. rewrite (bind_run _ _ _ _ _ Hr).
    destruct (root_contents h r) as [_ Hmax]; try (done || lia).
    split; [done|]. split; [apply Htk|]. split; [|split; apply Htk]. apply pq_highest; [|done].
    apply (contents_take h h' 1); done || lia.
Qed.

Lemma peek_simulated h : heap_ok h → simulated h Peek.
Proof.
  intros Hok. pose proof Hok as [Hs _ _]. pose proof Hs as [Hs1 _].
  unfold simulated, do_op. destruct (h_e h =? 1) eqn:Heq; [apply Z.eqb_eq in Heq as He|apply Z.eqb_neq in Heq as He].
  - exists (Entry None), h. rewrite (bind_run _ _ h None h) by by rewrite heap_peek_run, Heq.
    do 2 (split; [done|]). split; [|done]. rewrite contents_nil by done. constructor.
  - destruct (shape_at h 1 Hs) as [r Hr]; [lia|]. exists (Entry (Some r)), h.
    rewrite (bind_run _ _ h (Some r) h).
    2: { rewrite heap_peek_run, Heq. by rewrite (bind_run _ _ _ _ _ (get_data_run _ _ _ Hr)). }
    destruct (root_contents h r) as [? Hmax]; try (done || lia).
    do 2 (split; [done|]). split; [|done]. by apply pq_peek.
Qed.

Lemma remove_simulated h c : heap_ok h → allowed h (Remove c) → simulated h (Remove c).
Proof.
  intros Hok Hc. destruct (heap_remove_run h c) as (r & h' & Hr & Hat & Htk & _); try done.
  exists (Entry (Some r)), h'. unfold do_op. rewrite (bind_run _ _ _ _ _ Hr).
  split; [done|]. split; [apply Htk|]. split; [|split; apply Htk]. apply pq_remove; [by apply (ok_placed _ Hok)|].
  by apply (contents_take h h' c).
Qed.


(** C30. [heap_adjust] repairs the heap after the client has changed how one
    entry compares: when all other entries compare as before and nobody was
    moved, it returns, the heap is well formed for the new order, the positions
    are right and the entries are the same. *)
Theorem heap_adjust_repairs h m c x :
  heap_ok h → 1 ≤ c < h_e h → (h_data h).[c] = Some x →
  (∀ a b, a ≠ x → b ≠ x → cmp m a b = cmp (h_mem h) a b) →
  (∀ a, pos m a = pos (h_mem h) a) →
  ∃ h', heap_adjust c (set_mem m h) = Done tt h' ∧ heap_ok h' ∧
    contents h' ≡ₚ contents h ∧ ∀ a b, cmp (h_mem h') a b = cmp m a b.
Proof.
  intros Hok Hc Hx Hcmp Hpos. pose proof Hok as [Hs Hp Ho].
  assert (∀ i j, 1 ≤ i < h_e h → 1 ≤ j < h_e h → i ≠ c → j ≠ c → above h i j →
    above (set_mem m h) i j) as Hab.
  { intros i j Hi Hj Hic Hjc Ha p q Hpi Hqj. cbn in *. rewrite Hcmp; [by apply Ha| |];
      intros ->; [by apply Hic, (placed_inj h i c x)|by apply Hjc, (placed_inj h j c x)]. }
  destruct (heapify_run c (set_mem m h)) as (c' & h' & Hr & Hsh & Hp' & Ho').
  - done.
  - intros i y Hi Hy. cbn. rewrite Hpos. by apply Hp.
  - done.
  - split; intros i Hi; cbn in Hi; intros; apply Hab; try lia; [apply Ho; lia|].
    apply (ordered_bridged h c Hs Ho i); done || lia.
  - exists h'. rewrite heap_adjust_heapify by (cbn; lia). rewrite (bind_run _ _ _ _ _ Hr).
    split; [done|]. assert (heap_ok h') as Hok' by (split; try done; by eapply shuffled_shape).
    split; [done|]. split; [|apply Hsh]. apply NoDup_Permutation.
    + apply contents_nodup; apply Hok'.
    + by apply contents_nodup.
    + intros y. rewrite !elem_of_contents by (done || apply Hok'). apply (sh_in _ _ Hsh).
Qed.

(** *** Emptying a heap *)

Lemma StronglySorted_weaken (R R' : relation E) l :
  (∀ a b, R a b → R' a b) → StronglySorted R l → StronglySorted R' l.
Proof.
  intros HR. induction 1 as [|a l Hl IH Ha]; constructor; [done|].
  eapply Forall_impl; [exact Ha|]. auto.
Qed.

Fixpoint drain (n : nat) : M (heap E U) (list E) :=
  match n with
  | O => mret []
  | S n => r ← heap_highest;
           match r with
           | None => mret []
           | Some x => l ← drain n; mret (x :: l)
           end
  end.

Lemma drain_run n : ∀ h,
  heap_ok h → length (contents h) = n →
  ∃ l h', drain n h = Done l h' ∧ l ≡ₚ contents h ∧
    StronglySorted (λ a b, cmp (h_mem h) a b = true) l ∧ h_e h' = 1.
Proof.
  induction n as [|n IH]; intros h Hok Hn;
    pose proof (length_contents h (ok_shape _ Hok)) as Hlen.
  - exists [], h. split; [done|]. apply nil_length_inv in Hn. rewrite Hn.
    split; [done|]. split; [constructor|]. rewrite Hn in Hlen. cbn in Hlen. lia.
  - cbn [drain]. destruct (heap_highest_run h) as (r & h1 & Hr & Hroot & Htk & _); [done|lia|].
    rewrite (bind_run _ _ _ _ _ Hr).
    assert (contents h ≡ₚ r :: contents h1) as Hperm by (apply (contents_take h h1 1); done || lia).
    destruct (IH h1) as (l & h' & Hl & Hpl & Hsl & He'); [apply Htk| |].
    { apply Permutation_length in Hperm. cbn in Hperm. lia. }
    rewrite (bind_run _ _ _ _ _ Hl). exists (r :: l), h'. split; [done|].
    split; [by rewrite Hpl|]. split; [|done]. constructor.
    + eapply StronglySorted_weaken; [|exact Hsl]. cbn. intros a b. by rewrite (tk_cmp _ _ _ Htk).
    + apply Forall_forall. intros y Hy. destruct (root_contents h r) as [_ Hmax]; try (done || lia).
      apply Hmax. rewrite Hperm. right. by rewrite <-Hpl.
Qed.

(** Every entry of a heap comes out: taking the top as often as there are
    entries gives all of them, each once, from the largest to the smallest,
    and after that the heap is empty. *)
Theorem heap_drains h :
  heap_ok h →
  ∃ l h', drain (length (contents h)) h = Done l h' ∧ l ≡ₚ contents h ∧
    StronglySorted (λ a b, cmp (h_mem h) a b = true) l ∧ heap_highest h' = Done None h'.
Proof.
  intros Hok. destruct (drain_run _ h Hok eq_refl) as (l & h' & Hr & Hp & Hso & He).
  exists l, h'. do 3 (split; [done|]). by apply heap_highest_empty.
Qed.
End HeapInv.

(** ** Termination for any client

    The loops end, without running out of bounds, whatever the comparison of
    the client answers and however the array is filled. *)
Section Total.
Context {E U : Type} {C : HeapClient E U}.
Implicit Types (h : heap E U) (c : Z).

(** Same size and same array length. *)
Definition resized h h' : Prop :=
  h_e h' = h_e h ∧ h_max_sz h' = h_max_sz h ∧ length (h_data h') = length (h_data h).

Lemma swap_total h a b :
  shape h → a ≠ b → 0 ≤ a < h_e h → 0 ≤ b < h_e h →
  ∃ h', swap_entries a b h = Done tt h' ∧ resized h h'.
Proof.
  intros Hs Hab Ha Hb. destruct (shape_at h a Hs Ha) as [x Hx], (shape_at h b Hs Hb) as [y Hy].
  eexists. split; [by apply swap_run|]. unfold resized. cbn. by rewrite !length_zinsert.
Qed.

Lemma resized_shape h h' : resized h h' → shape h → shape h'.
Proof. intros (? & ? & ?) []. split; lia. Qed.

Lemma resized_trans h1 h2 h3 : resized h1 h2 → resized h2 h3 → resized h1 h3.
Proof. unfold resized. intuition congruence. Qed.

Lemma up_loop_total fuel : ∀ c h,
  shape h → 1 ≤ c < h_e h → Z.log2 c < Z.of_nat fuel →
  ∃ c' h', up_loop fuel c h = Done c' h' ∧ resized h h' ∧ 1 ≤ c' < h_e h.
Proof.
  induction fuel as [|fuel IH]; intros c h Hs Hc Hf; [pose proof (Z.log2_nonneg c); lia|].
  cbn [up_loop]. destruct (Z.leb_spec c 1); [by exists c, h|].
  rewrite Z.quot_div_nonneg by lia. destruct (Z.eqb_spec (c / 2) 0); [lia|].
  erewrite bind_run by reflexivity.
  destruct (shape_at h (c / 2) Hs) as [x Hx]; [lia|]. destruct (shape_at h c Hs) as [y Hy]; [lia|].
  rewrite (bind_run _ _ _ _ _ (get_data_run _ _ _ Hx)), (bind_run _ _ _ _ _ (get_data_run _ _ _ Hy)).
  erewrite bind_run by reflexivity. destruct (cmp (h_mem h) x y); [by exists c, h|].
  destruct (swap_total h (c / 2) c) as (h1 & Hr & Hz); try (done || lia).
  rewrite (bind_run _ _ _ _ _ Hr). pose proof (log2_half c ltac:(lia)).
  destruct (IH (c / 2) h1) as (c' & h' & Hr' & Hz' & Hc').
  - by eapply resized_shape.
  - destruct Hz as [-> _]. lia.
  - lia.
  - exists c', h'. split; [done|]. split; [by eapply resized_trans|]. destruct Hz as [<- _]. done.
Qed.

Lemma next_down_total h c :
  shape h → 1 ≤ c ≤ (h_e h - 1) / 2 →
  ∃ n, next_down (h_e h - 1) c h = Done n h ∧ 2 ≤ n < h_e h ∧ n / 2 = c.
Proof.
  intros Hs Hc. unfold next_down. destruct (Z.ltb_spec (h_e h - 1) (2 * c + 1)) as [Hr|Hr].
  { exists (2 * c). split; [done|]. lia. }
  destruct (shape_at h (2 * c) Hs) as [a Ha]; [lia|].
  destruct (shape_at h (2 * c + 1) Hs) as [b Hb]; [lia|].
  rewrite (bind_run _ _ _ _ _ (get_data_run _ _ _ Ha)), (bind_run _ _ _ _ _ (get_data_run _ _ _ Hb)).
  erewrite bind_run by reflexivity. eexists. split; [done|]. destruct (cmp (h_mem h) a b); lia.
Qed.

Lemma down_loop_total fuel : ∀ c h,
  shape h → 1 ≤ c → (0 < fuel)%nat → Z.log2 (h_e h - 1) < Z.log2 c + Z.of_nat fuel →
  ∃ c' h', down_loop fuel (h_e h - 1) c h = Done c' h' ∧ resized h h'.
Proof.
  induction fuel as [|fuel IH]; intros c h Hs Hc Hf0 Hf; [lia|].
  rewrite down_loop_unfold, Z.quot_div_nonneg by (destruct Hs; lia).
  destruct (Z.ltb_spec ((h_e h - 1) / 2) c) as [Hl|Hl]; [by exists c, h|].
  destruct (next_down_total h c Hs) as (n & Hn & Hn1 & Hnc); [lia|].
  rewrite (bind_run _ _ _ _ _ Hn). erewrite bind_run by reflexivity.
  destruct (Z.ltb_spec n (h_e h)); [|lia]. erewrite bind_run by reflexivity.
  destruct (shape_at h c Hs) as [x Hx]; [lia|]. destruct (shape_at h n Hs) as [y Hy]; [lia|].
  rewrite (bind_run _ _ _ _ _ (get_data_run _ _ _ Hx)), (bind_run _ _ _ _ _ (get_data_run _ _ _ Hy)).
  erewrite bind_run by reflexivity. destruct (cmp (h_mem h) x y); [by exists c, h|].
  destruct (swap_total h n c) as (h1 & Hr & Hz); try (done || lia).
  rewrite (bind_run _ _ _ _ _ Hr).
  pose proof (log2_half n ltac:(lia)) as Hlog. rewrite Hnc in Hlog.
  pose proof (Z.log2_le_mono n (h_e h - 1) ltac:(lia)). pose proof Hz as [He _].
  destruct (IH n h1) as (c' & h' & Hr' & Hz').
  - by eapply resized_shape.
  - lia.
  - lia.
  - rewrite He. lia.
  - rewrite He in Hr'. exists c', h'. split; [done|]. by eapply resized_trans.
Qed.

(** C36. The loops that repair the order end after at most as many steps as the
    tree has levels, for any comparison of the client, consistent or not, and
    any filling of the array: [heapify] returns with the size and the array
    length unchanged, runs into no assertion and stays in bounds. *)
Theorem heapify_terminates h c :
  shape h → 1 ≤ c < h_e h → ∃ c' h', heapify c h = Done c' h' ∧ resized h h'.
Proof.
  intros Hs Hc. unfold heapify, swap_up, swap_down.
  destruct (up_loop_total (levels (h_e h)) c h Hs Hc) as (c1 & h1 & Hr & Hz & Hc1).
  { unfold levels. pose proof (Z.log2_le_mono c (h_e h) ltac:(lia)). lia. }
  erewrite bind_run.
  2: { erewrite bind_run by reflexivity. destruct (Z.leb_spec c (h_e h)); [|lia].
       erewrite bind_run by reflexivity. destruct (Z.ltb_spec 0 c); [|lia].
       erewrite bind_run by reflexivity. rewrite (bind_run _ _ _ _ _ Hr).
       destruct (Z.eqb_spec c1 0); [lia|]. reflexivity. }
  cbn beta. destruct (Z.eqb_spec c1 0); [lia|]. erewrite bind_run by reflexivity.
  erewrite bind_run by reflexivity. pose proof Hz as [He _]. rewrite He.
  destruct (Z.leb_spec c1 (h_e h)); [|lia]. erewrite bind_run by reflexivity. rewrite <-He.
  destruct (down_loop_total (levels (h_e h1)) c1 h1) as (c2 & h2 & Hr2 & Hz2).
  - by eapply resized_shape.
  - lia.
  - unfold levels. lia.
  - unfold levels. pose proof (Z.log2_le_mono (h_e h1 - 1) (h_e h1) ltac:(lia)).
    pose proof (Z.log2_nonneg c1). pose proof (Z.log2_nonneg (h_e h1)). lia.
  - exists c2, h2. split; [done|]. by eapply resized_trans.
Qed.
End Total.

(** ** The check of the heap *)
Section Verify.
Context {E U : Type} {C : HeapClient E U}.
Implicit Types (h : heap E U) (c i j : Z).

(** [j] is in the subtree of [c]. *)
Definition below c j : Prop := ∃ k, 0 ≤ k ∧ j / 2 ^ k = c.

Lemma below_inv c j : below c j ↔ j = c ∨ below (2 * c) j ∨ below (2 * c + 1) j.
Proof.
  split.
  - intros (k & Hk & Hj). destruct (decide (k = 0)) as [->|]; [left; by rewrite Z.div_1_r in Hj|].
    right. assert (j / 2 ^ (k - 1) / 2 = c) as Hj2.
    { rewrite Z.div_div by lia. rewrite <-Hj. f_equal.
      change 2 with (2 ^ 1) at 2. rewrite <-Z.pow_add_r by lia. f_equal. lia. }
    assert (j / 2 ^ (k - 1) = 2 * c ∨ j / 2 ^ (k - 1) = 2 * c + 1) as [?|?] by lia;
      [left|right]; exists (k - 1); (split; [lia|done]).
  - assert (∀ d k, 0 ≤ k → d / 2 = c → j / 2 ^ k = d → below c j) as Hup.
    { intros d k Hk Hd Hj. exists (k + 1). split; [lia|].
      rewrite Z.pow_add_r, <-Z.div_div by lia. rewrite Hj. done. }
    intros [-> | [(k & Hk & Hj) | (k & Hk & Hj)]].
    + exists 0. split; [lia|]. apply Z.div_1_r.
    + apply (Hup (2 * c) k); lia.
    + apply (Hup (2 * c + 1) k); lia.
Qed.

Lemma below_ge c j : below c j → 1 ≤ c → c ≤ j.
Proof.
  intros (k & Hk & <-) Hc. assert (0 < 2 ^ k) by lia.
  pose proof (Z.mul_div_le j (2 ^ k)). nia.
Qed.

Lemma below_one j : 1 ≤ j → below 1 j.
Proof.
  intros Hj. exists (Z.log2 j). split; [apply Z.log2_nonneg|].
  destruct (Z.log2_spec j) as [H1 H2]; [lia|]. rewrite Z.pow_succ_r in H2 by apply Z.log2_nonneg.
  symmetry. apply (Z.div_unique _ _ 1 (j - 2 ^ Z.log2 j)); lia.
Qed.

Definition subtree_ordered h c : Prop :=
  ∀ i, 2 ≤ i < h_e h → below c (i / 2) → above h (i / 2) i.

Lemma subtree_split h c :
  1 ≤ c → subtree_ordered h c ↔
    ((2 * c < h_e h → above h c (2 * c) ∧ subtree_ordered h (2 * c)) ∧
     (2 * c + 1 < h_e h → above h c (2 * c + 1) ∧ subtree_ordered h (2 * c + 1))).
Proof.
  intros Hc. split.
  - intros Hs. split; intros Hlt; (split; [|intros i Hi Hb; apply Hs; [done|apply below_inv; tauto]]).
    + assert (2 * c / 2 = c) as He by lia. rewrite <-He at 1. apply Hs; [lia|].
      rewrite He. apply below_inv. by left.
    + assert ((2 * c + 1) / 2 = c) as He by lia. rewrite <-He at 1. apply Hs; [lia|].
      rewrite He. apply below_inv. by left.
  - intros [Hl Hr] i Hi Hb. apply below_inv in Hb as [Hb|[Hb|Hb]].
    + assert (i = 2 * c ∨ i = 2 * c + 1) as [-> | ->] by lia; rewrite Hb; [apply Hl|apply Hr]; lia.
    + pose proof (below_ge _ _ Hb ltac:(lia)). apply Hl; lia || done.
    + pose proof (below_ge _ _ Hb ltac:(lia)). apply Hr; lia || done.
Qed.

Lemma verify_child_run rec h c i (P : Prop) :
  shape h → placed h → 1 ≤ c < h_e h → 1 ≤ i < h_e h →
  (∃ b, rec i h = Done b h ∧ (b = false ↔ P)) →
  ∃ b, verify_child rec c i h = Done b h ∧ (b = false ↔ above h c i ∧ P).
Proof.
  intros Hs Hp Hc Hi (b & Hrec & Hb). unfold verify_child.
  destruct (shape_at h c Hs) as [x Hx]; [lia|]. destruct (shape_at h i Hs) as [y Hy]; [lia|].
  rewrite (bind_run _ _ _ _ _ (get_data_run _ _ _ Hy)). erewrite bind_run by reflexivity.
  rewrite (Hp i y Hi Hy), Z.eqb_refl. erewrite bind_run by reflexivity.
  rewrite (bind_run _ _ _ _ _ (get_data_run _ _ _ Hx)). erewrite bind_run by reflexivity.
  destruct (cmp (h_mem h) x y) eqn:Hxy; cbn [negb].
  - exists b. split; [done|]. rewrite Hb. split; [|by intros [_ ?]]. intros HP. split; [|done].
    intros p q ??. congruence.
  - exists true. split; [done|]. split; [done|]. intros [Ha _]. rewrite <-Hxy. symmetry. by apply Ha.
Qed.

Lemma verify_at_run fuel : ∀ h c,
  shape h → placed h → 1 ≤ c < h_e h → Z.log2 (h_e h) < Z.log2 c + Z.of_nat fuel →
  ∃ b, heap_verify_at fuel c h = Done b h ∧ (b = false ↔ subtree_ordered h c).
Proof.
  induction fuel as [|fuel IH]; intros h c Hs Hp Hc Hf.
  { pose proof (Z.log2_le_mono c (h_e h) ltac:(lia)). lia. }
  cbn [heap_verify_at]. erewrite bind_run by reflexivity. rewrite (Z.mul_comm c 2).
  pose proof (Z.log2_double c ltac:(lia)) as Hl. pose proof (Z.log2_succ_double c ltac:(lia)) as Hr.
  assert (∃ b, (if 2 * c <? h_e h then verify_child (heap_verify_at fuel) c (2 * c) else mret false) h =
    Done b h ∧ (b = false ↔ (2 * c < h_e h → above h c (2 * c) ∧ subtree_ordered h (2 * c))))
    as (b1 & Hb1 & Hi1).
  { destruct (Z.ltb_spec (2 * c) (h_e h)).
    - edestruct (verify_child_run (heap_verify_at fuel) h c (2 * c)) as (b & Hb & Hi);
        [done|done|done|lia|apply IH; done || lia|]. exists b. split; [done|]. tauto.
    - exists false. split; [done|]. split; [lia|done]. }
  assert (∃ b, (if 2 * c + 1 <? h_e h then verify_child (heap_verify_at fuel) c (2 * c + 1) else mret false) h =
    Done b h ∧ (b = false ↔ (2 * c + 1 < h_e h → above h c (2 * c + 1) ∧ subtree_ordered h (2 * c + 1))))
    as (b2 & Hb2 & Hi2).
  { destruct (Z.ltb_spec (2 * c + 1) (h_e h)).
    - edestruct (verify_child_run (heap_verify_at fuel) h c (2 * c + 1)) as (b & Hb & Hi);
        [done|done|done|lia|apply IH; done || lia|]. exists b. split; [done|]. tauto.
    - exists false. split; [done|]. split; [lia|done]. }
  rewrite (bind_run _ _ _ _ _ Hb1). pose proof (subtree_split h c ltac:(lia)) as Hss. destruct b1.
  - exists true. split; [done|]. split; [done|]. intros Ho. apply Hss in Ho as [Ho _]. by apply Hi1 in Ho.
  - exists b2. split; [done|]. tauto.
Qed.

(** The built-in check decides the order: on a heap whose entries know their
    positions it ends within the number of levels, changes nothing, and reports
    no error exactly when no entry is larger than its parent. *)
Theorem heap_verify_decides h :
  shape h → placed h → 1 < h_e h →
  ∃ b, heap_verify h = Done b h ∧ (b = false ↔ ordered h).
Proof.
  intros Hs Hp He. unfold heap_verify. erewrite bind_run by reflexivity.
  destruct (verify_at_run (levels (h_e h)) h 1) as (b & Hb & Hi); try (done || lia).
  { unfold levels. change (Z.log2 1) with 0. lia. }
  exists b. split; [done|]. rewrite Hi. split.
  - intros Ho i Hi2. apply Ho; [done|]. apply below_one. lia.
  - intros Ho i Hi2 _. by apply Ho.
Qed.
End Verify.

(** ** Witnesses *)

#[export] Instance hentry_laws : HeapClientLaws nat (nat → hentry).
Proof.
  split; cbn.
  - intros. rewrite !Z.leb_le. lia.
  - intros m a b c. rewrite !Z.leb_le. lia.
  - intros m x p a b. repeat case_decide; by subst.
  - intros. by rewrite decide_True.
  - intros. by rewrite decide_False.
Qed.

(** Entries 3, 1 and 2 with values 9, 7 and 4; entry 5, with value 8, is not in
    the heap. *)
Definition heap_mem (n : nat) : hentry :=
  match n with
  | 1 => MkHentry 2 7 | 2 => MkHentry 3 4 | 3 => MkHentry 1 9 | 5 => MkHentry 0 8
  | _ => MkHentry 0 0
  end%nat.

Definition heap_demo : heap nat (nat → hentry) := MkHeap 4 5 [0; 3; 1; 2; 0]%nat heap_mem.

Lemma demo_index i x :
  1 ≤ i < h_e heap_demo → (h_data heap_demo).[i] = Some x →
  (i = 1 ∧ x = 3%nat) ∨ (i = 2 ∧ x = 1%nat) ∨ (i = 3 ∧ x = 2%nat).
Proof.
  cbn. intros Hi Hx. assert (i = 1 ∨ i = 2 ∨ i = 3) as [-> | [-> | ->]] by lia;
    injection Hx as <-; tauto.
Qed.

Lemma heap_demo_ok : heap_ok heap_demo.
Proof.
  split.
  - split; cbn; lia.
  - intros i x Hi Hx. destruct (demo_index i x Hi Hx) as [[-> ->] | [[-> ->] | [-> ->]]]; done.
  - intros i Hi x y Hx Hy. cbn in Hi. assert (i = 2 ∨ i = 3) as [-> | ->] by lia;
      injection Hx as <-; injection Hy as <-; done.
Qed.


Lemma heap_adjust_repairs_witness :
  let m := λ n : nat, if decide (n = 2%nat) then MkHentry 3 10 else heap_mem n in
  ∃ h', heap_adjust 3 (set_mem m heap_demo) = Done tt h' ∧ heap_ok h' ∧
    contents h' ≡ₚ contents heap_demo ∧ ∀ a b, cmp (h_mem h') a b = cmp m a b.
Proof.
  intros m. apply (heap_adjust_repairs heap_demo m 3 2%nat heap_demo_ok); [cbn; lia|done| |].
  - intros a b Ha Hb. cbn. unfold m. by rewrite !decide_False.
  - intros a. cbn. unfold m. case_decide; by subst.
Defined.

Lemma heap_drains_witness :
  ∃ l h', drain 3 heap_demo = Done l h' ∧ l ≡ₚ [3; 1; 2]%nat ∧
    StronglySorted (λ a b, cmp heap_mem a b = true) l ∧ heap_highest h' = Done None h'.
Proof. exact (heap_drains heap_demo heap_demo_ok). Defined.

(** A comparison that always denies. *)
Lemma heapify_terminates_witness :
  let C := {| cmp (_ : nat → hentry) (a b : nat) := false; upd x p m := m; pos m x := 0 |} in
  ∃ c' h', heapify (C:=C) 3 heap_demo = Done c' h' ∧ resized heap_demo h'.
Proof. intros C. apply (heapify_terminates (C:=C) heap_demo 3 (ok_shape _ heap_demo_ok)). cbn. lia. Defined.

Lemma heap_verify_decides_witness :
  ∃ b, heap_verify heap_demo = Done b heap_demo ∧ (b = false ↔ ordered heap_demo).
Proof. apply (heap_verify_decides heap_demo (ok_shape _ heap_demo_ok) (ok_placed _ heap_demo_ok)). cbn. lia. Defined.

(** ** The memory of a new heap *)


