(* ===== verification/Bitmap.v ===== *)
(** * Bit tricks and bitmaps of the component library

    Model of [components/include/bitmap.h]: population count, logarithms and
    the lowest bit of a 32-bit word without loops, and bitmaps stored in arrays
    of such words. *)

From stdpp Require Import base list numbers option.
From S2P Require Import Prelude.
Local Open Scope Z_scope.
Local Open Scope array_scope.

Definition WORD_SIZE : Z := 32.

(** ** Words *)

Definition ones (x : Z) : Z :=
  let x := u32 (x - Z.land (Z.shiftr x 1) 0x55555555) in
  let x := u32 (Z.land (Z.shiftr x 2) 0x33333333 + Z.land x 0x33333333) in
  let x := Z.land (u32 (Z.shiftr x 4 + x)) 0x0F0F0F0F in
  let x := u32 (x + Z.shiftr x 8) in
  let x := u32 (x + Z.shiftr x 16) in
  Z.land x 0x3f.

(** The five steps that fill all bits below the highest one. *)
Definition smear (x : Z) : Z :=
  let x := Z.lor x (Z.shiftr x 1) in
  let x := Z.lor x (Z.shiftr x 2) in
  let x := Z.lor x (Z.shiftr x 4) in
  let x := Z.lor x (Z.shiftr x 8) in
  Z.lor x (Z.shiftr x 16).

Definition nlpow2 (x : Z) : Z := u32 (smear x + 1).

Definition ls_one (x : Z) : Z := Z.land x (u32 (- x)).

Definition log32 (x : Z) : Z :=
  let y := Z.land x (u32 (x - 1)) in
  let y := Z.lor y (u32 (- y)) in
  let y := Z.shiftr y (WORD_SIZE - 1) in
  u32 (ones (Z.shiftr (smear x) 1) - y).

Definition log32_floor (x : Z) : Z := ones (Z.shiftr (smear x) 1).

(** ** Bits of a word

    [1 << v] is an [int] that is converted to [u32_t]. *)
Definition bit_mask (v : Z) : Z := u32 (Z.shiftl 1 v).

Definition bitmap_set_word (x v : Z) : Z := Z.lor x (bit_mask v).
Definition bitmap_check_word (x v : Z) : Z := s32 (Z.land x (bit_mask v)).
Definition bitmap_unset_word (x v : Z) : Z := Z.land x (u32 (Z.lnot (bit_mask v))).

(** ** Bitmaps

    The state is the array the pointer [x] points to. *)
#[local] Abbreviation B := (M (list Z)).

Definition get_word_at (i : Z) : B Z := x ← gets id; bound (x.[i]).
Definition put_word_at (i w : Z) : B unit := get_word_at i;; modify (λ x, x.[i := w]).

Definition bitmap_set (v : Z) : B unit :=
  let idx := Z.quot v WORD_SIZE in
  let off := Z.land v (WORD_SIZE - 1) in
  w ← get_word_at idx; put_word_at idx (bitmap_set_word w off).

Definition bitmap_check (v : Z) : B Z :=
  let idx := Z.quot v WORD_SIZE in
  let off := Z.land v (WORD_SIZE - 1) in
  w ← get_word_at idx; mret (bitmap_check_word w off).

Definition bitmap_unset (v : Z) : B unit :=
  let idx := Z.quot v WORD_SIZE in
  let off := Z.land v (WORD_SIZE - 1) in
  w ← get_word_at idx; put_word_at idx (bitmap_unset_word w off).

(** The loop of [bitmap_one] over the words from [base] on; [n] are left. *)
Fixpoint one_loop (n : nat) (base i : Z) : B Z :=
  match n with
  | O => mret (-1)
  | S n => w ← get_word_at (base + i);
           if w =? 0 then one_loop n base (i + 1)
           else mret (i * WORD_SIZE + log32 (ls_one w))
  end.

(** [bitmap_one(x + base, max)]. *)
Definition bitmap_one (base max : Z) : B Z := one_loop (Z.to_nat max) base 0.

Definition bitmap_one_offset (off max : Z) : B Z :=
  let subword := Z.land off (WORD_SIZE - 1) in
  let words := Z.quot off WORD_SIZE in
  let rest (words : Z) : B Z :=
    ret ← bitmap_one words (max - words);
    mret (if ret =? -1 then ret else ret + words * WORD_SIZE) in
  if subword =? 0 then rest words
  else w ← get_word_at words;
       let v := Z.shiftr w subword in
       if v =? 0 then rest (words + 1) else mret (log32 (ls_one v) + off).

Definition bitmap_set_contig (off extent : Z) (one : bool) : B unit :=
  for_range off (off + extent) (λ i, if one then bitmap_set i else bitmap_unset i).

(** The loop of [bitmap_contiguous_ones]; [bytes] is [max * sizeof(u32_t)]. *)
Fixpoint contig_loop (fuel : nat) (extent max bytes i start : Z) : B Z :=
  match fuel with
  | O => fail NoFuel
  | S fuel =>
    if bytes <=? i then mret (-1)
    else
      let prev := i in
      i ← bitmap_one_offset i max;
      if i <? 0 then mret (-1)
      else if negb (i =? prev) then contig_loop fuel extent max bytes (i + 1) i
      else if i - start =? extent then mret start
      else contig_loop fuel extent max bytes (i + 1) start
  end.

(** [i] grows by one at least each time, so [bytes + 1] rounds are enough. *)
Definition bitmap_contiguous_ones (off extent max : Z) : B Z :=
  let bytes := max * 4 in
  contig_loop (S (Z.to_nat bytes)) extent max bytes 0 0.

Definition bitmap_extent_find_set (off extent max : Z) : B Z :=
  r ← bitmap_contiguous_ones off extent max;
  if r <? 0 then mret r
  else bitmap_set_contig r extent false;; mret r.
