(* ===== verification/BitmapInv.v ===== *)
(** * Bit tricks and bitmaps: what they compute

    The branch-free functions on words agree with their definitions by bits,
    the searches of a bitmap find the lowest set bit. *)

From stdpp Require Import base numbers option list.
From S2P Require Import Prelude Bitmap.
Local Open Scope Z_scope.
Local Open Scope array_scope.

(** ** Digits

    [dig B l] is the number with the digits [l], lowest first, to the base [B]. *)
Definition dig (B : Z) (l : list Z) : Z := foldr (λ c acc, c + B * acc) 0 l.
Definition digits (B : Z) (l : list Z) : Prop := Forall (λ c, 0 ≤ c < B) l.

(** The mask that keeps every second digit to the base [2 ^ k], of [2 * n]. *)
Fixpoint half_mask (k : Z) (n : nat) : Z :=
  match n with O => 0 | S n => (2 ^ k - 1) + 2 ^ (2 * k) * half_mask k n end.

Fixpoint evens (l : list Z) : list Z :=
  match l with c :: _ :: l => c :: evens l | [c] => [c] | [] => [] end.

Lemma dig_nonneg B l : 0 ≤ B → digits B l → 0 ≤ dig B l.
Proof. intros HB. induction 1 as [|c l Hc Hl IH]; cbn in *; [lia|]. fold (dig B l). nia. Qed.

Lemma dig_lt B l : 1 < B → digits B l → dig B l < B ^ Z.of_nat (length l).
Proof.
  intros HB. induction 1 as [|c l Hc Hl IH]; [cbn; lia|].
  cbn [dig foldr length]. fold (dig B l). rewrite Nat2Z.inj_succ, Z.pow_succ_r by lia.
  pose proof (dig_nonneg B l ltac:(lia) Hl). nia.
Qed.

Lemma dig_shiftr k c l :
  0 < k → 0 ≤ c < 2 ^ k → Z.shiftr (dig (2 ^ k) (c :: l)) k = dig (2 ^ k) l.
Proof.
  intros Hk Hc. rewrite Z.shiftr_div_pow2 by lia. cbn. fold (dig (2 ^ k) l).
  rewrite (Z.mul_comm (2 ^ k)), Z.div_add by lia. rewrite Z.div_small; lia.
Qed.

(** Words side by side. *)
Lemma cat_bits m a Y i :
  0 ≤ m → 0 ≤ a < 2 ^ m → 0 ≤ i →
  Z.testbit (a + 2 ^ m * Y) i = if i <? m then Z.testbit a i else Z.testbit Y (i - m).
Proof.
  intros Hm Ha Hi. rewrite (Z.mul_comm (2 ^ m)). destruct (Z.ltb_spec i m).
  - rewrite <-(Z.mod_pow2_bits_low _ m) by lia. rewrite Z.mod_add, Z.mod_small by lia. done.
  - replace i with (i - m + m) at 1 by lia. rewrite <-Z.div_pow2_bits by lia.
    rewrite Z.div_add, Z.div_small by lia. done.
Qed.

Lemma land_bound m a b : 0 ≤ m → 0 ≤ b < 2 ^ m → 0 ≤ Z.land a b < 2 ^ m.
Proof.
  intros Hm Hb. rewrite <-(Z.mod_small b (2 ^ m)), <-Z.land_ones, Z.land_assoc, Z.land_ones by lia.
  apply Z.mod_pos_bound. lia.
Qed.

Lemma land_split m a b Y N :
  0 ≤ m → 0 ≤ a < 2 ^ m → 0 ≤ b < 2 ^ m →
  Z.land (a + 2 ^ m * Y) (b + 2 ^ m * N) = Z.land a b + 2 ^ m * Z.land Y N.
Proof.
  intros Hm Ha Hb. apply Z.bits_inj'. intros i Hi.
  rewrite Z.land_spec, !cat_bits by (done || by apply land_bound).
  destruct (i <? m); by rewrite Z.land_spec.
Qed.

(** Masking keeps every second digit. *)
Lemma dig_evens k : ∀ n l,
  0 < k → digits (2 ^ k) l → (length l ≤ 2 * n)%nat →
  Z.land (dig (2 ^ k) l) (half_mask k n) = dig (2 ^ (2 * k)) (evens l).
Proof.
  intros n l Hk. revert l. induction n as [|n IH]; intros l Hl Hlen.
  { destruct l; [done|cbn in Hlen; lia]. }
  destruct l as [|c l]; [done|]. apply Forall_cons_1 in Hl as [Hc Hl]. cbn in Hlen.
  assert (∃ d l', dig (2 ^ k) (c :: l) = (c + 2 ^ k * d) + 2 ^ (2 * k) * dig (2 ^ k) l' ∧
    evens (c :: l) = c :: evens l' ∧ 0 ≤ d < 2 ^ k ∧ digits (2 ^ k) l' ∧ (length l' ≤ 2 * n)%nat)
    as (d & l' & -> & -> & Hd & Hl' & Hlen').
  { assert (2 ^ (2 * k) = 2 ^ k * 2 ^ k) as -> by (rewrite <-Z.pow_add_r by lia; f_equal; lia).
    destruct l as [|d l]; [exists 0, []|exists d, l].
    - cbn. split; [ring|]. split; [done|]. split; [lia|]. split; [constructor|lia].
    - apply Forall_cons_1 in Hl as [Hd Hl]. cbn in *. fold (dig (2 ^ k) l).
      split; [ring|]. split; [done|]. split; [done|]. split; [done|lia]. }
  cbn [half_mask]. cbn [dig foldr]. fold (dig (2 ^ (2 * k)) (evens l')). rewrite <-(IH l') by done.
  assert (2 ^ (2 * k) = 2 ^ k * 2 ^ k) as Hsq by (rewrite <-Z.pow_add_r by lia; f_equal; lia).
  rewrite land_split by (rewrite ?Hsq; nia). f_equal.
  replace (2 ^ k - 1) with (Z.ones k) by (rewrite Z.ones_equiv; lia).
  rewrite Z.land_ones, (Z.mul_comm (2 ^ k)), Z.mod_add, Z.mod_small by lia. done.
Qed.

(** ** Population count *)

(** The bits of [x], lowest first. *)
Definition bits (n : nat) (x : Z) : list Z := (λ i, Z.b2z (Z.testbit x (Z.of_nat i))) <$> seq 0 n.

(** The number of bits set among the lowest [n]. *)
Definition popcount (n : nat) (x : Z) : Z := foldr Z.add 0 (bits n x).

Lemma bits_S n x : bits (S n) x = Z.b2z (Z.odd x) :: bits n (Z.div2 x).
Proof.
  unfold bits. cbn [seq fmap list_fmap]. rewrite Z.bit0_odd. f_equal.
  rewrite <-fmap_S_seq, <-list_fmap_compose. apply list_fmap_ext. intros _ i _. cbn.
  rewrite Z.div2_div, Z.div2_bits by lia. do 2 f_equal. lia.
Qed.

Lemma dig_bits n : ∀ x, dig 2 (bits n x) = x mod 2 ^ Z.of_nat n.
Proof.
  induction n as [|n IH]; intros x; [cbn; by rewrite Z.mod_1_r|].
  rewrite bits_S. cbn [dig foldr]. fold (dig 2 (bits n (Z.div2 x))). rewrite IH.
  rewrite Nat2Z.inj_succ, Z.pow_succ_r by lia. rewrite (Z.div2_odd x) at 3.
  rewrite Z.div2_div. set (q := x / 2).
  rewrite (Z.div_mod q (2 ^ Z.of_nat n)) at 2 by lia.
  set (r := q mod 2 ^ Z.of_nat n). set (d := q / 2 ^ Z.of_nat n).
  assert (0 ≤ r < 2 ^ Z.of_nat n) by (apply Z.mod_pos_bound; lia).
  assert (0 ≤ Z.b2z (Z.odd x) < 2) by (destruct (Z.odd x); cbn; lia).
  apply (Z.mod_unique _ _ d); nia.
Qed.

(** Neighbouring digits added, for each pair and for each digit. *)
Fixpoint pairs (l : list Z) : list Z :=
  match l with c :: d :: l => (c + d) :: pairs l | _ => l end.
Fixpoint adj (l : list Z) : list Z :=
  match l with c :: (d :: _) as t => (c + d) :: adj t | _ => l end.

Definition upto (m : Z) (l : list Z) : Prop := Forall (λ c, 0 ≤ c ≤ m) l.

Lemma upto_digits m B l : m < B → upto m l → digits B l.
Proof. intros Hm. induction 1; constructor; [lia|done]. Qed.

Lemma bits_upto n x : upto 1 (bits n x).
Proof. apply Forall_fmap, Forall_true. intros i. cbn. destruct (Z.testbit x (Z.of_nat i)); cbn; lia. Qed.

(** Induction over an even number of digits. *)
Lemma even_ind (P : list Z → Prop) :
  P [] → (∀ c d l, P l → P (c :: d :: l)) → ∀ n l, length l = (2 * n)%nat → P l.
Proof.
  intros H0 H2. induction n as [|n IH]; intros [|c [|d l]] Hl; cbn in Hl; try lia; [done|].
  apply H2, IH. lia.
Qed.

Lemma pairs_upto m n l : length l = (2 * n)%nat → upto m l → upto (2 * m) (pairs l).
Proof.
  revert n l. apply (even_ind (λ l, upto m l → upto (2 * m) (pairs l))); [constructor|].
  intros c d l IH Hl. apply Forall_cons_1 in Hl as [Hc Hl]. apply Forall_cons_1 in Hl as [Hd Hl].
  cbn. constructor; [lia|]. by apply IH.
Qed.

Lemma adj_upto m l : upto m l → upto (2 * m) (adj l).
Proof.
  induction 1 as [|c l Hc Hl IH]; [constructor|]. destruct l as [|d l].
  - cbn. constructor; [lia|constructor].
  - apply Forall_cons_1 in Hl as [Hd Hl]. change (adj (c :: d :: l)) with ((c + d) :: adj (d :: l)).
    constructor; [lia|done].
Qed.

Lemma length_adj l : length (adj l) = length l.
Proof. induction l as [|c [|d l] IH]; [done..|]. cbn in *. by rewrite IH. Qed.

Lemma length_pairs n l : length l = (2 * n)%nat → length (pairs l) = n.
Proof.
  revert l. induction n as [|n IH]; intros [|c [|d l]] Hl; cbn in Hl; try lia; [done|].
  cbn. f_equal. apply IH. lia.
Qed.

Lemma sum_pairs n l : length l = (2 * n)%nat → foldr Z.add 0 (pairs l) = foldr Z.add 0 l.
Proof. revert n l. apply even_ind; [done|]. intros c d l IH. cbn. rewrite IH. lia. Qed.

Lemma evens_cons d l : evens (d :: l) = d :: evens (tail l).
Proof. by destruct l. Qed.

(** The three ways the count adds neighbours. *)
Lemma step_sub n l :
  length l = (2 * n)%nat → dig 2 l - dig 4 (evens (tail l)) = dig 4 (pairs l).
Proof.
  revert n l. apply even_ind; [done|]. intros c d l IH. cbn [tail pairs]. rewrite evens_cons.
  cbn [dig foldr]. fold (dig 2 l) (dig 4 (evens (tail l))) (dig 4 (pairs l)). lia.
Qed.

Lemma step_add B n l :
  length l = (2 * n)%nat → dig B (evens (tail l)) + dig B (evens l) = dig B (pairs l).
Proof.
  revert n l. apply even_ind; [done|]. intros c d l IH. cbn [tail pairs]. rewrite evens_cons.
  cbn [evens]. cbn [dig foldr]. fold (dig B (evens l)) (dig B (evens (tail l))) (dig B (pairs l)). nia.
Qed.

Lemma step_adj B l : dig B (tail l) + dig B l = dig B (adj l).
Proof.
  induction l as [|c [|d l] IH]; [done|cbn; lia|].
  change (adj (c :: d :: l)) with ((c + d) :: adj (d :: l)). cbn [tail] in *.
  cbn [dig foldr] in *. fold (dig B l) (dig B (adj (d :: l))) in *. nia.
Qed.

Lemma evens_adj n l : length l = (2 * n)%nat → evens (adj l) = pairs l.
Proof.
  revert n l. apply even_ind; [done|]. intros c d l IH.
  change (adj (c :: d :: l)) with ((c + d) :: adj (d :: l)). destruct l as [|e l]; [done|].
  change (adj (d :: e :: l)) with ((d + e) :: adj (e :: l)). cbn [evens pairs]. by rewrite IH.
Qed.

Lemma tail_shift k l :
  0 < k → digits (2 ^ k) l → Z.shiftr (dig (2 ^ k) l) k = dig (2 ^ k) (tail l).
Proof.
  intros Hk Hl. destruct l as [|c l]; [apply Z.shiftr_0_l|].
  apply Forall_cons_1 in Hl as [Hc Hl]. by apply dig_shiftr.
Qed.

Lemma tail_digits B l : digits B l → digits B (tail l).
Proof. destruct 1; [constructor|done]. Qed.

Lemma length_tail {A} (l : list A) : length (tail l) = pred (length l).
Proof. by destruct l. Qed.

Lemma u32_dig B l : 1 < B → B ^ Z.of_nat (length l) = 2 ^ 32 → digits B l → u32 (dig B l) = dig B l.
Proof.
  intros HB Hl Hd. apply u32_id. rewrite <-Hl. split; [apply dig_nonneg; lia || done|by apply dig_lt].
Qed.

Lemma ones_step1 l :
  length l = 32%nat → upto 1 l →
  u32 (dig 2 l - Z.land (Z.shiftr (dig 2 l) 1) 0x55555555) = dig 4 (pairs l).
Proof.
  intros Hlen Hl. assert (digits (2 ^ 1) l) as Hd by (eapply upto_digits; [|done]; lia).
  change 2 with (2 ^ 1) at 1 2. rewrite tail_shift by (done || lia).
  change 0x55555555 with (half_mask 1 16).
  rewrite dig_evens by (try apply tail_digits; rewrite ?length_tail; done || lia).
  change (2 ^ (2 * 1)) with 4. change (2 ^ 1) with 2. rewrite (step_sub 16) by done.
  apply u32_dig; [lia|by rewrite (length_pairs 16)|].
  eapply upto_digits; [|by apply (pairs_upto 1 16)]. lia.
Qed.

Lemma ones_step2 l :
  length l = 16%nat → upto 2 l →
  u32 (Z.land (Z.shiftr (dig 4 l) 2) 0x33333333 + Z.land (dig 4 l) 0x33333333) = dig 16 (pairs l).
Proof.
  intros Hlen Hl. assert (digits (2 ^ 2) l) as Hd by (eapply upto_digits; [|done]; lia).
  change 4 with (2 ^ 2). rewrite tail_shift by (done || lia).
  change 0x33333333 with (half_mask 2 8).
  rewrite !dig_evens by (try apply tail_digits; rewrite ?length_tail; done || lia).
  change (2 ^ (2 * 2)) with 16. rewrite (step_add 16 8) by done.
  apply u32_dig; [lia|by rewrite (length_pairs 8)|].
  eapply upto_digits; [|by apply (pairs_upto 2 8)]. lia.
Qed.

Lemma ones_step3 l :
  length l = 8%nat → upto 4 l →
  Z.land (u32 (Z.shiftr (dig 16 l) 4 + dig 16 l)) 0x0F0F0F0F = dig 256 (pairs l).
Proof.
  intros Hlen Hl. assert (digits (2 ^ 4) l) as Hd by (eapply upto_digits; [|done]; lia).
  change 16 with (2 ^ 4). rewrite tail_shift, step_adj by (done || lia).
  assert (digits (2 ^ 4) (adj l)) as Ha by (eapply upto_digits; [|by apply (adj_upto 4)]; lia).
  rewrite u32_dig by (rewrite ?length_adj, ?Hlen; done || lia).
  change 0x0F0F0F0F with (half_mask 4 4).
  rewrite dig_evens by (rewrite ?length_adj; done || lia). by rewrite (evens_adj 4).
Qed.

(** C37. The branch-free population count counts: for every 32-bit word it is
    the number of bits that are set. *)
Theorem ones_popcount x : 0 ≤ x < 2 ^ 32 → ones x = popcount 32 x.
Proof.
  intros Hx. assert (x = dig 2 (bits 32 x)) as Hdig by (rewrite dig_bits, Z.mod_small; done).
  unfold popcount. set (l := bits 32 x) in *.
  assert (length l = 32%nat) as Hlen by done.
  assert (upto 1 l) as Hl by apply bits_upto. clearbody l. subst x. unfold ones.
  rewrite ones_step1 by done. pose proof (length_pairs 16 l Hlen) as Hlen2.
  pose proof (pairs_upto 1 16 l Hlen Hl) as Hl2.
  rewrite ones_step2 by done. pose proof (length_pairs 8 _ Hlen2) as Hlen3.
  pose proof (pairs_upto 2 8 _ Hlen2 Hl2) as Hl3.
  rewrite ones_step3 by done. pose proof (length_pairs 4 _ Hlen3) as Hlen4.
  pose proof (pairs_upto 4 4 _ Hlen3 Hl3) as Hl4.
  rewrite <-(sum_pairs 16 l), <-(sum_pairs 8 (pairs l)), <-(sum_pairs 4 (pairs (pairs l))) by done.
  destruct (pairs (pairs (pairs l))) as [|a [|b [|c [|d [|? ?]]]]]; try done.
  repeat (apply Forall_cons_1 in Hl4 as [? Hl4]). cbn [dig foldr].
  set (v := a + 256 * _). rewrite !Z.shiftr_div_pow2 by lia. change (2 ^ 8) with 256.
  change (2 ^ 16) with 65536. change 0x3f with (Z.ones 6). rewrite Z.land_ones by lia.
  assert (v / 256 = b + 256 * (c + 256 * d)) as ->
    by (symmetry; apply (Z.div_unique _ _ _ a); unfold v; lia).
  rewrite (u32_id (v + _)) by (unfold v; lia). set (w := v + _).
  assert (w / 65536 = (c + d) + 256 * d) as ->
    by (symmetry; apply (Z.div_unique _ _ _ (a + b + 256 * (b + c))); unfold w, v; lia).
  rewrite u32_id by (unfold w, v; lia). change (2 ^ 6) with 64. symmetry.
  apply (Z.mod_unique _ _ (4 * (b + c + d) + 1024 * (c + d) + 262144 * d)); unfold w, v; lia.
Qed.

(** ** Logarithms *)

(** The highest bit of [x] is [n], and the [k] bits from there down are set. *)
Definition top (n k x : Z) : Prop :=
  ∀ i, 0 ≤ i → (n < i → Z.testbit x i = false) ∧ (n - k < i ≤ n → Z.testbit x i = true).

Lemma top_step n k x : 0 < k → top n k x → top n (2 * k) (Z.lor x (Z.shiftr x k)).
Proof.
  intros Hk Ht i Hi. rewrite Z.lor_spec, Z.shiftr_spec by lia.
  destruct (Ht i Hi) as [H0 H1], (Ht (i + k)) as [H0' H1']; [lia|]. split.
  - intros Hni. rewrite H0, H0' by lia. done.
  - intros Hni. destruct (decide (n - k < i)); [by rewrite H1 by lia|].
    rewrite H1' by lia. apply orb_true_r.
Qed.

Lemma smear_ones x : 0 < x < 2 ^ 32 → smear x = Z.ones (Z.log2 x + 1).
Proof.
  intros Hx. assert (Z.log2 x < 32) by (apply Z.log2_lt_pow2; lia).
  assert (top (Z.log2 x) 1 x) as Ht.
  { intros i Hi. split; [intros; apply Z.bits_above_log2; lia|].
    intros Hn. assert (i = Z.log2 x) as -> by lia. apply Z.bit_log2. lia. }
  do 5 (apply top_step in Ht; [|lia]). change (2 * (2 * (2 * (2 * (2 * 1))))) with 32 in Ht.
  apply Z.bits_inj'. intros i Hi. destruct (Ht i Hi) as [H0 H1]. unfold smear.
  pose proof (Z.log2_nonneg x). destruct (Z.ltb_spec i (Z.log2 x + 1)).
  - rewrite Z.ones_spec_low by lia. apply H1. lia.
  - rewrite Z.ones_spec_high by lia. apply H0. lia.
Qed.

(** The words with the lowest [n] bits set, one by one. *)
Lemma ones_ones n : 0 ≤ n < 32 → ones (Z.ones n) = n.
Proof.
  intros Hn. assert (Forall (λ k : nat, ones (Z.ones (Z.of_nat k)) = Z.of_nat k) (seq 0 32)) as Hall.
  { by repeat constructor. }
  rewrite Forall_forall in Hall. specialize (Hall (Z.to_nat n)). rewrite Z2Nat.id in Hall by lia.
  apply Hall, elem_of_seq. lia.
Qed.

Lemma log32_floor_run x : 0 < x < 2 ^ 32 → log32_floor x = Z.log2 x.
Proof.
  intros Hx. unfold log32_floor. rewrite smear_ones by done.
  pose proof (Z.log2_nonneg x). assert (Z.log2 x < 32) by (apply Z.log2_lt_pow2; lia).
  assert (Z.shiftr (Z.ones (Z.log2 x + 1)) 1 = Z.ones (Z.log2 x)) as ->.
  { apply Z.bits_inj'. intros i Hi. rewrite Z.shiftr_spec by lia.
    destruct (Z.ltb_spec i (Z.log2 x)).
    - rewrite !Z.ones_spec_low; lia || done.
    - rewrite !Z.ones_spec_high; lia || done. }
  apply ones_ones. lia.
Qed.

Lemma log32_floor_range x : 0 < x < 2 ^ 32 → 0 ≤ Z.log2 x < 32.
Proof. intros Hx. split; [apply Z.log2_nonneg|apply Z.log2_lt_pow2; lia]. Qed.

Lemma log32_pow2 n : 0 ≤ n < 32 → log32 (2 ^ n) = n.
Proof.
  intros Hn. assert (Forall (λ k : nat, log32 (2 ^ Z.of_nat k) = Z.of_nat k) (seq 0 32)) as Hall.
  { by repeat constructor. }
  rewrite Forall_forall in Hall. specialize (Hall (Z.to_nat n)). rewrite Z2Nat.id in Hall by lia.
  apply Hall, elem_of_seq. lia.
Qed.

#[local] Opaque ones smear u32.

Lemma log32_unfold x :
  log32 x = u32 (log32_floor x -
    Z.shiftr (Z.lor (Z.land x (u32 (x - 1))) (u32 (- Z.land x (u32 (x - 1))))) (WORD_SIZE - 1)).
Proof. reflexivity. Qed.
#[local] Transparent u32.

(** C38. [log32_floor] is the logarithm rounded down and [nlpow2] the next larger
    power of two, which is 0 when it needs 33 bits.  [log32] is the logarithm of
    a power of two; but for all other words it is one less than the logarithm
    rounded down, where its origin rounds up, because its correction term is
    unsigned here. *)
Theorem log32_rounding x :
  0 < x < 2 ^ 32 →
  log32_floor x = Z.log2 x ∧ nlpow2 x = u32 (2 ^ (Z.log2 x + 1)) ∧
  log32 x = if x =? 2 ^ Z.log2 x then Z.log2 x else Z.log2 x - 1.
Proof.
  intros Hx. split; [by apply log32_floor_run|]. split.
  { unfold nlpow2. rewrite smear_ones, Z.ones_equiv by done. f_equal. lia. }
  pose proof (log32_floor_range x Hx) as Hr. destruct (Z.eqb_spec x (2 ^ Z.log2 x)) as [->|Hne].
  { rewrite Z.log2_pow2 by lia. by apply log32_pow2. }
  destruct (Z.log2_spec x) as [Hlo Hhi]; [lia|].
  rewrite log32_unfold, log32_floor_run by done. rewrite (u32_id (x - 1)) by lia.
  set (y := Z.land x (x - 1)).
  assert (Z.testbit y (Z.log2 x) = true) as Hy.
  { unfold y. rewrite Z.land_spec, Z.bit_log2 by lia.
    assert (Z.log2 (x - 1) = Z.log2 x) as <- by (apply Z.log2_unique; lia).
    rewrite Z.bit_log2; [done|]. pose proof (Z.pow_pos_nonneg 2 (Z.log2 x)). lia. }
  assert (0 ≤ y < 2 ^ 32) as Hyr by (apply land_bound; lia).
  assert (y ≠ 0) by (intros H0; rewrite H0, Z.bits_0 in Hy; done).
  assert (u32 (- y) = 2 ^ 32 - y) as ->.
  { unfold u32. symmetry. apply (Z.mod_unique _ _ (-1)); lia. }
  assert (Z.shiftr (Z.lor y (2 ^ 32 - y)) (WORD_SIZE - 1) = 1) as ->.
  { rewrite Z.shiftr_lor, !Z.shiftr_div_pow2 by (unfold WORD_SIZE; lia).
    change (2 ^ (WORD_SIZE - 1)) with 2147483648. change (2 ^ 32) with 4294967296 in *.
    assert (y / 2147483648 = 0 ∨ y / 2147483648 = 1) as [H1|H1] by (Z.div_mod_to_equations; lia);
    assert ((4294967296 - y) / 2147483648 = 0 ∨ (4294967296 - y) / 2147483648 = 1) as [H2|H2]
      by (Z.div_mod_to_equations; lia); rewrite H1, H2; try done.
    exfalso. Z.div_mod_to_equations. lia. }
  apply u32_id. assert (Z.log2 x ≠ 0); [|lia].
  intros H0. rewrite H0 in Hne, Hhi. cbn in Hne, Hhi. lia.
Qed.

(** ** The lowest bit *)

Lemma lowest_split x : 0 < x → ∃ k m, 0 ≤ k ∧ 0 ≤ m ∧ x = 2 ^ k * (2 * m + 1).
Proof.
  destruct x as [|p|p]; try lia. intros _. induction p as [p IH|p IH|].
  - exists 0, (Z.pos p). split; [done|]. split; [done|]. cbn [Z.pow]. lia.
  - destruct IH as (k & m & Hk & Hm & Hp). exists (k + 1), m. split; [lia|]. split; [done|].
    rewrite Z.pow_add_r by lia. lia.
  - exists 0, 0. done.
Qed.

(** [k] is the lowest bit of [x]. *)
Definition lowest (x k : Z) : Prop :=
  0 ≤ k ∧ Z.testbit x k = true ∧ ∀ j, 0 ≤ j < k → Z.testbit x j = false.

Lemma ls_one_run x : 0 < x < 2 ^ 32 → ∃ k, k < 32 ∧ lowest x k ∧ ls_one x = 2 ^ k.
Proof.
  intros Hx. destruct (lowest_split x) as (k & m & Hk & Hm & Hxk); [lia|]. exists k.
  assert (0 < 2 ^ k) by lia.
  assert (∀ i, 0 ≤ i → Z.testbit x i = if i <? k then false else Z.testbit (2 * m + 1) (i - k)) as Hb.
  { intros i Hi. replace x with (0 + 2 ^ k * (2 * m + 1)) by lia.
    rewrite cat_bits by lia. by rewrite Z.bits_0. }
  assert (∀ i, 0 ≤ i → Z.testbit (x - 1) i = if i <? k then true else Z.testbit (2 * m) (i - k)) as Hp.
  { intros i Hi. replace (x - 1) with ((2 ^ k - 1) + 2 ^ k * (2 * m)) by lia.
    rewrite cat_bits by lia. destruct (Z.ltb_spec i k); [|done].
    replace (2 ^ k - 1) with (Z.ones k) by (rewrite Z.ones_equiv; lia). by rewrite Z.ones_spec_low. }
  split; [apply (Z.pow_lt_mono_r_iff 2); nia|]. split.
  { split; [done|]. split.
    - rewrite Hb by lia. rewrite Z.ltb_irrefl, Z.sub_diag. apply Z.testbit_odd_0.
    - intros j Hj. rewrite Hb by lia. destruct (Z.ltb_spec j k); [done|lia]. }
  unfold ls_one. apply Z.bits_inj'. intros i Hi. rewrite Z.land_spec, Z.pow2_bits_eqb by lia.
  unfold u32. destruct (Z.ltb_spec i 32).
  - rewrite Z.mod_pow2_bits_low, Z.bits_opp, <-Z.sub_1_r, Hb, Hp by lia.
    destruct (Z.eqb_spec k i) as [->|].
    + rewrite Z.ltb_irrefl, Z.sub_diag, Z.testbit_odd_0, Z.testbit_even_0. done.
    + destruct (Z.ltb_spec i k); [done|]. replace (i - k) with (Z.succ (i - k - 1)) by lia.
      rewrite Z.testbit_odd_succ, Z.testbit_even_succ by lia. apply andb_negb_r.
  - rewrite Z.mod_pow2_bits_high, andb_false_r by lia. symmetry. apply Z.eqb_neq. intros ->.
    assert (2 ^ 32 ≤ 2 ^ i) by (apply Z.pow_le_mono_r; lia). nia.
Qed.

Lemma log32_lowest x k : 0 < x < 2 ^ 32 → lowest x k → log32 (ls_one x) = k.
Proof.
  intros Hx (Hk & Hbit & Hlow). destruct (ls_one_run x Hx) as (k' & Hk' & (Hk0 & Hbit' & Hlow') & ->).
  rewrite log32_pow2 by lia. destruct (Z.lt_trichotomy k k') as [?|[?|?]]; [|done|].
  - rewrite Hlow' in Hbit by lia. done.
  - rewrite Hlow in Hbit' by lia. done.
Qed.

(** ** Searching a bitmap *)

(** Bit [v] of a bitmap. *)
Definition bit (x : list Z) (v : Z) : bool :=
  match x.[v / 32] with Some w => Z.testbit w (v mod 32) | None => false end.

Definition words (x : list Z) : Prop := Forall (λ w, 0 ≤ w < 2 ^ 32) x.

(** [r] is the lowest bit set in [[lo, hi)], or -1 when there is none. *)
Definition first_bit (x : list Z) (lo hi r : Z) : Prop :=
  (r = -1 ∧ ∀ j, lo ≤ j < hi → bit x j = false) ∨
  (lo ≤ r < hi ∧ bit x r = true ∧ ∀ j, lo ≤ j < r → bit x j = false).

Lemma words_at x i w : words x → x.[i] = Some w → 0 ≤ w < 2 ^ 32.
Proof. intros Hx [_ Hw]%zlookup_Some. by eapply (Forall_lookup_1 _ _ _ _ Hx). Qed.

Lemma word_run i x w : x.[i] = Some w → get_word_at i x = Done w x.
Proof. intros Hw. unfold get_word_at. erewrite bind_run by reflexivity. cbn. by rewrite Hw. Qed.

(** The bits of one word. *)
Lemma bit_word x i w j : x.[i] = Some w → 0 ≤ j < 32 → bit x (32 * i + j) = Z.testbit w j.
Proof.
  intros Hw Hj. unfold bit.
  assert ((32 * i + j) / 32 = i) as -> by (symmetry; apply (Z.div_unique _ _ _ j); lia).
  assert ((32 * i + j) mod 32 = j) as -> by (symmetry; apply (Z.mod_unique _ _ i); lia).
  by rewrite Hw.
Qed.

Lemma testbit_high w j : 0 ≤ w < 2 ^ 32 → 32 ≤ j → Z.testbit w j = false.
Proof.
  intros Hw Hj. rewrite Z.testbit_eqb by lia. rewrite Z.div_small; [done|].
  split; [lia|]. eapply Z.lt_le_trans; [apply Hw|]. apply Z.pow_le_mono_r; lia.
Qed.

(** A word that is not 0, looked at from bit [s] on, holds the first bit. *)
Lemma first_in_word x i w s hi :
  words x → x.[i] = Some w → 0 ≤ s < 32 → Z.shiftr w s ≠ 0 → 32 * i + 32 ≤ hi →
  first_bit x (32 * i + s) hi (log32 (ls_one (Z.shiftr w s)) + (32 * i + s)).
Proof.
  intros Hx Hw Hs Hnz Hhi. pose proof (words_at _ _ _ Hx Hw) as Hr.
  assert (0 < Z.shiftr w s < 2 ^ 32) as Hv.
  { split; [pose proof (proj2 (Z.shiftr_nonneg w s) ltac:(lia)); lia|].
    rewrite Z.shiftr_div_pow2 by lia. eapply Z.le_lt_trans; [apply Z.div_le_upper_bound; [lia|]|apply Hr].
    assert (0 < 2 ^ s) by lia. nia. }
  destruct (ls_one_run _ Hv) as (k & Hk & Hlow & _). rewrite (log32_lowest _ k) by done.
  destruct Hlow as (Hk0 & Hbit & Hlow). rewrite Z.shiftr_spec in Hbit by lia.
  assert (k + s < 32).
  { destruct (decide (k + s < 32)); [done|]. rewrite testbit_high in Hbit; done || lia. }
  right. split; [lia|]. split.
  - replace (k + (32 * i + s)) with (32 * i + (k + s)) by lia. rewrite (bit_word _ _ w); done || lia.
  - intros j Hj. replace j with (32 * i + (j - 32 * i)) by lia.
    rewrite (bit_word _ _ w) by (done || lia).
    specialize (Hlow (j - 32 * i - s) ltac:(lia)). rewrite Z.shiftr_spec in Hlow by lia.
    rewrite <-Hlow. f_equal. lia.
Qed.

(** A word that is 0 from bit [s] on does not. *)
Lemma none_in_word x i w s j :
  x.[i] = Some w → 0 ≤ s → Z.shiftr w s = 0 → 32 * i + s ≤ j < 32 * i + 32 → bit x j = false.
Proof.
  intros Hw Hs Hz Hj. replace j with (32 * i + (j - 32 * i)) by lia.
  rewrite (bit_word _ _ w) by (done || lia). replace (j - 32 * i) with (j - 32 * i - s + s) by lia.
  rewrite <-Z.shiftr_spec by lia. rewrite Hz. apply Z.bits_0.
Qed.

Lemma first_bit_skip x lo mid hi r :
  lo ≤ mid → (∀ j, lo ≤ j < mid → bit x j = false) → first_bit x mid hi r → first_bit x lo hi r.
Proof.
  intros Hm Hno [[-> Hr] | (Hr & Hb & Hl)]; [left|right].
  - split; [done|]. intros j Hj. destruct (decide (j < mid)); [apply Hno; lia|apply Hr; lia].
  - split; [lia|]. split; [done|]. intros j Hj.
    destruct (decide (j < mid)); [apply Hno; lia|apply Hl; lia].
Qed.

Definition rebase (base r : Z) : Z := if r =? -1 then r else r + base * WORD_SIZE.

Lemma one_loop_run x n : ∀ base i,
  words x → 0 ≤ base → 0 ≤ i → base + i + Z.of_nat n ≤ Z.of_nat (length x) →
  ∃ r, one_loop n base i x = Done r x ∧
    first_bit x (32 * (base + i)) (32 * (base + i + Z.of_nat n)) (rebase base r).
Proof.
  induction n as [|n IH]; intros base i Hx Hb Hi Hlen.
  - exists (-1). split; [done|]. left. split; [done|]. lia.
  - cbn [one_loop]. destruct (zlookup_is_Some x (base + i)) as [w Hw]; [lia|].
    rewrite (bind_run _ _ _ _ _ (word_run _ _ _ Hw)). destruct (Z.eqb_spec w 0) as [->|Hnz].
    + destruct (IH base (i + 1)) as (r & Hr & Hf); [done|lia|lia|lia|]. exists r. split; [done|].
      apply (first_bit_skip _ _ (32 * (base + (i + 1)))); [lia| |].
      * intros j Hj. apply (none_in_word x (base + i) 0 0); done || lia.
      * by replace (base + i + Z.of_nat (S n)) with (base + (i + 1) + Z.of_nat n) by lia.
    + exists (i * WORD_SIZE + log32 (ls_one w)). split; [done|].
      pose proof (first_in_word x (base + i) w 0 (32 * (base + i + Z.of_nat (S n))) Hx Hw) as Hf.
      rewrite Z.shiftr_0_r, Z.add_0_r in Hf. specialize (Hf ltac:(lia) Hnz ltac:(lia)).
      assert (0 ≤ log32 (ls_one w)) by (rewrite log32_unfold; apply u32_range).
      unfold rebase, WORD_SIZE. destruct (Z.eqb_spec (i * 32 + log32 (ls_one w)) (-1)); [lia|].
      by replace (i * 32 + log32 (ls_one w) + base * 32) with (log32 (ls_one w) + 32 * (base + i)) by lia.
Qed.

Lemma land_31 v : Z.land v (WORD_SIZE - 1) = v mod 32.
Proof. change (WORD_SIZE - 1) with (Z.ones 5). by rewrite Z.land_ones. Qed.

(** The search of a bitmap from any bit on finds the lowest bit that is set
    at or after it, or reports -1 exactly when there is none; it reads inside of
    the bitmap only and changes nothing. *)
Lemma bitmap_one_offset_first x off max :
  words x → 0 ≤ off ≤ 32 * max → max ≤ Z.of_nat (length x) →
  ∃ r, bitmap_one_offset off max x = Done r x ∧ first_bit x off (32 * max) r.
Proof.
  intros Hx Hoff Hmax. unfold bitmap_one_offset. rewrite land_31, Z.quot_div_nonneg by (done || lia).
  unfold WORD_SIZE at 1 2. pose proof (Z.div_mod off 32 ltac:(lia)) as Hdm.
  pose proof (Z.mod_pos_bound off 32 ltac:(lia)) as Hmod.
  set (w := off / 32) in *. set (s := off mod 32) in *.
  assert (∀ k, 0 ≤ k ≤ max → ∃ r, (ret ← bitmap_one k (max - k);
    mret (if ret =? -1 then ret else ret + k * WORD_SIZE)) x = Done r x ∧
    first_bit x (32 * k) (32 * max) r) as Hrest.
  { intros k Hk. destruct (one_loop_run x (Z.to_nat (max - k)) k 0) as (r & Hr & Hf); [done|lia..|].
    exists (rebase k r). unfold bitmap_one. rewrite (bind_run _ _ _ _ _ Hr). split; [done|].
    by replace (32 * (k + 0 + Z.of_nat (Z.to_nat (max - k)))) with (32 * max) in Hf by lia;
      rewrite Z.add_0_r in Hf. }
  destruct (Z.eqb_spec s 0) as [Hs|Hs].
  - destruct (Hrest w) as (r & Hr & Hf); [lia|]. exists r. split; [done|].
    by replace off with (32 * w) by lia.
  - destruct (zlookup_is_Some x w) as [v Hv]; [lia|].
    rewrite (bind_run _ _ _ _ _ (word_run _ _ _ Hv)). destruct (Z.eqb_spec (Z.shiftr v s) 0) as [Hz|Hz].
    + destruct (Hrest (w + 1)) as (r & Hr & Hf); [lia|]. exists r. split; [done|].
      apply (first_bit_skip _ _ (32 * (w + 1))); [lia| |done].
      intros j Hj. apply (none_in_word x w v s); done || lia.
    + eexists. split; [done|]. rewrite Hdm. apply first_in_word; done || lia.
Qed.

(** ** Writing bits *)

Lemma mask_bits v j : 0 ≤ v < 32 → 0 ≤ j → Z.testbit (bit_mask v) j = (v =? j).
Proof.
  intros Hv Hj. unfold bit_mask. rewrite Z.shiftl_1_l, u32_id; [apply Z.pow2_bits_eqb; lia|].
  split; [lia|]. apply Z.pow_lt_mono_r; lia.
Qed.

(** Replacing word [v / 32] by one that differs in bit [v mod 32]. *)
Lemma put_bit x v w w' (b : bool) :
  0 ≤ v → x.[v / 32] = Some w →
  (∀ j, 0 ≤ j < 32 → Z.testbit w' j = if v mod 32 =? j then b else Z.testbit w j) →
  put_word_at (v / 32) w' x = Done tt (x.[v / 32 := w']) ∧
  ∀ j, 0 ≤ j → bit (x.[v / 32 := w']) j = if decide (j = v) then b else bit x j.
Proof.
  intros Hv Hw Hbits. split; [unfold put_word_at; by rewrite (bind_run _ _ _ _ _ (word_run _ _ _ Hw))|].
  intros j Hj. unfold bit. rewrite (zlookup_zinsert _ _ _ _ _ Hw).
  pose proof (Z.div_mod v 32 ltac:(lia)). pose proof (Z.div_mod j 32 ltac:(lia)).
  destruct (decide (v / 32 = j / 32)) as [Hd|Hd]; [|case_decide; [congruence|done]].
  rewrite Hbits by (apply Z.mod_pos_bound; lia). destruct (Z.eqb_spec (v mod 32) (j mod 32)).
  - rewrite decide_True by lia. done.
  - rewrite decide_False by congruence. by rewrite <-Hd, Hw.
Qed.

Lemma words_insert x i w : words x → 0 ≤ w < 2 ^ 32 → words (x.[i := w]).
Proof. intros Hx Hw. unfold zinsert. destruct (i <? 0); [done|]. by apply Forall_insert. Qed.

Lemma bits_bound w : 0 ≤ w → (∀ j, 32 ≤ j → Z.testbit w j = false) → 0 ≤ w < 2 ^ 32.
Proof.
  intros H0 Hb. split; [done|]. destruct (decide (w = 0)) as [->|]; [lia|].
  apply Z.log2_lt_pow2; [lia|]. destruct (decide (Z.log2 w < 32)); [done|].
  pose proof (Z.bit_log2 w ltac:(lia)) as Hl. rewrite Hb in Hl; done || lia.
Qed.

(** What writing the bit [v] does. *)
Definition wrote (x : list Z) (v : Z) (b : bool) (x' : list Z) : Prop :=
  words x' ∧ length x' = length x ∧
  ∀ j, 0 ≤ j → bit x' j = if decide (j = v) then b else bit x j.

Lemma bitmap_set_run x v :
  words x → 0 ≤ v < 32 * Z.of_nat (length x) →
  ∃ x', bitmap_set v x = Done tt x' ∧ wrote x v true x'.
Proof.
  intros Hx Hv. pose proof (Z.mod_pos_bound v 32 ltac:(lia)) as Hm. unfold bitmap_set.
  rewrite land_31, Z.quot_div_nonneg by (done || lia). unfold WORD_SIZE.
  destruct (zlookup_is_Some x (v / 32)) as [w Hw]; [Z.div_mod_to_equations; lia|].
  rewrite (bind_run _ _ _ _ _ (word_run _ _ _ Hw)). pose proof (words_at _ _ _ Hx Hw).
  destruct (put_bit x v w (bitmap_set_word w (v mod 32)) true) as [Hr Hb]; [lia|done| |].
  { intros j Hj. unfold bitmap_set_word. rewrite Z.lor_spec, mask_bits by lia.
    destruct (_ =? _); [apply orb_true_r|apply orb_false_r]. }
  exists (x.[v / 32 := bitmap_set_word w (v mod 32)]). split; [done|].
  split; [|split; [apply length_zinsert|done]]. apply words_insert; [done|]. apply bits_bound.
  - apply Z.lor_nonneg. split; [lia|apply u32_range].
  - intros j Hj. unfold bitmap_set_word. rewrite Z.lor_spec, mask_bits, testbit_high by lia.
    apply Z.eqb_neq. lia.
Qed.

Lemma bitmap_unset_run x v :
  words x → 0 ≤ v < 32 * Z.of_nat (length x) →
  ∃ x', bitmap_unset v x = Done tt x' ∧ wrote x v false x'.
Proof.
  intros Hx Hv. pose proof (Z.mod_pos_bound v 32 ltac:(lia)) as Hm. unfold bitmap_unset.
  rewrite land_31, Z.quot_div_nonneg by (done || lia). unfold WORD_SIZE.
  destruct (zlookup_is_Some x (v / 32)) as [w Hw]; [Z.div_mod_to_equations; lia|].
  rewrite (bind_run _ _ _ _ _ (word_run _ _ _ Hw)). pose proof (words_at _ _ _ Hx Hw).
  destruct (put_bit x v w (bitmap_unset_word w (v mod 32)) false) as [Hr Hb]; [lia|done| |].
  { intros j Hj. unfold bitmap_unset_word, u32.
    rewrite Z.land_spec, Z.mod_pow2_bits_low, Z.lnot_spec, mask_bits by lia.
    destruct (_ =? _); [apply andb_false_r|apply andb_true_r]. }
  exists (x.[v / 32 := bitmap_unset_word w (v mod 32)]). split; [done|].
  split; [|split; [apply length_zinsert|done]]. apply words_insert; [done|].
  apply land_bound; [lia|]. apply u32_range.
Qed.

(** [bitmap_check] is not 0 exactly when the bit is set. *)
Lemma bitmap_check_run x v :
  words x → 0 ≤ v < 32 * Z.of_nat (length x) →
  ∃ r, bitmap_check v x = Done r x ∧ (r ≠ 0 ↔ bit x v = true).
Proof.
  intros Hx Hv. pose proof (Z.mod_pos_bound v 32 ltac:(lia)) as Hm. unfold bitmap_check.
  rewrite land_31, Z.quot_div_nonneg by (done || lia). unfold WORD_SIZE.
  destruct (zlookup_is_Some x (v / 32)) as [w Hw]; [Z.div_mod_to_equations; lia|].
  rewrite (bind_run _ _ _ _ _ (word_run _ _ _ Hw)). eexists. split; [done|].
  unfold bit. rewrite Hw. unfold bitmap_check_word.
  assert (Z.land w (bit_mask (v mod 32)) = if Z.testbit w (v mod 32) then 2 ^ (v mod 32) else 0) as ->.
  { apply Z.bits_inj'. intros j Hj. rewrite Z.land_spec, mask_bits by lia.
    destruct (Z.testbit w (v mod 32)) eqn:Hb; [rewrite Z.pow2_bits_eqb by lia|rewrite Z.bits_0];
      destruct (Z.eqb_spec (v mod 32) j) as [<-|]; rewrite ?Hb, ?andb_false_r; done. }
  destruct (Z.testbit w (v mod 32)); [|done]. split; [done|]. intros _.
  assert (0 < 2 ^ (v mod 32) < 2 ^ 32) by (split; [lia|apply Z.pow_lt_mono_r; lia]).
  unfold s32. Z.div_mod_to_equations. lia.
Qed.

(** ** Extents *)

Lemma set_contig_run x off extent (b : bool) :
  words x → 0 ≤ off → 0 ≤ extent → off + extent ≤ 32 * Z.of_nat (length x) →
  ∃ x', bitmap_set_contig off extent b x = Done tt x' ∧ words x' ∧ length x' = length x ∧
    ∀ j, 0 ≤ j → bit x' j = if decide (off ≤ j < off + extent) then b else bit x j.
Proof.
  intros Hx Hoff Hext Hlen.
  pose (I i x' := words x' ∧ length x' = length x ∧
    ∀ j, 0 ≤ j → bit x' j = if decide (off ≤ j < i) then b else bit x j).
  assert (wp (bitmap_set_contig off extent b) (λ _ x', I (off + extent) x') x) as Hwp.
  { apply (for_range_wp I); [lia| |].
    - split; [done|]. split; [done|]. intros j Hj. by rewrite decide_False by lia.
    - intros i x' Hi (Hw & Hl & Hb). apply wp_Done.
      assert (∃ x2, (if b then bitmap_set i else bitmap_unset i) x' = Done tt x2 ∧ wrote x' i b x2)
        as (x2 & Hr & Hw2 & Hl2 & Hb2).
      { destruct b; [apply bitmap_set_run|apply bitmap_unset_run]; done || lia. }
      exists tt, x2. split; [done|]. split; [done|]. split; [congruence|].
      intros j Hj. rewrite Hb2, Hb by done.
      destruct (decide (j = i)) as [->|]; [by rewrite decide_True by lia|].
      destruct (decide (off ≤ j < i)); [by rewrite decide_True by lia|by rewrite decide_False by lia]. }
  apply wp_Done in Hwp as ([] & x' & Hr & HI). by exists x'.
Qed.

Lemma contig_loop_run x extent max fuel : ∀ i start,
  words x → max ≤ Z.of_nat (length x) → 0 ≤ start ≤ i → i ≤ 32 * max →
  (∀ j, start ≤ j < i → bit x j = true) → (0 < fuel)%nat → max * 4 - i < Z.of_nat fuel →
  ∃ r, contig_loop fuel extent max (max * 4) i start x = Done r x ∧
    (r = -1 ∨ (0 ≤ r ∧ 0 ≤ extent ∧ r + extent < 4 * max ∧
               ∀ j, r ≤ j ≤ r + extent → bit x j = true)).
Proof.
  induction fuel as [|fuel IH]; intros i start Hx Hmax Hst Hi Hb Hf0 Hf; [lia|].
  cbn [contig_loop]. destruct (Z.leb_spec (max * 4) i) as [He|He]; [exists (-1); by auto|].
  destruct (bitmap_one_offset_first x i max) as (k & Hk & Hfirst); [done|lia|done|].
  rewrite (bind_run _ _ _ _ _ Hk). destruct Hfirst as [[-> _] | (Hk1 & Hkb & Hk2)]; [exists (-1); by auto|].
  destruct (Z.ltb_spec k 0); [lia|]. destruct (Z.eqb_spec k i) as [->|Hki]; cbn [negb].
  - assert (∀ j, start ≤ j < i + 1 → bit x j = true) as Hb'.
    { intros j Hj. destruct (decide (j = i)) as [->|]; [done|apply Hb; lia]. }
    destruct (Z.eqb_spec (i - start) extent) as [<-|].
    + exists start. split; [done|]. right. repeat split; try lia. intros j Hj. apply Hb'. lia.
    + apply IH; done || lia.
  - apply IH; try (done || lia). intros j Hj. by assert (j = k) as -> by lia.
Qed.

(** Claiming an extent of a bitmap is safe: it ends, and either reports -1
    and leaves the bitmap alone, or clears exactly [extent] bits that were all
    set.  It takes less than the bitmap offers, though: it also wants the bit
    after the extent to be set, and only looks at the first [4 * max] of the
    [32 * max] bits. *)
Theorem bitmap_extent_claims x off extent max :
  words x → 0 ≤ max ≤ Z.of_nat (length x) →
  ∃ r x', bitmap_extent_find_set off extent max x = Done r x' ∧ words x' ∧
    length x' = length x ∧
    ((r = -1 ∧ x' = x) ∨
     (0 ≤ r ∧ r + extent < 4 * max ∧ (∀ j, r ≤ j ≤ r + extent → bit x j = true) ∧
      ∀ j, 0 ≤ j → bit x' j = if decide (r ≤ j < r + extent) then false else bit x j)).
Proof.
  intros Hx Hmax. unfold bitmap_extent_find_set, bitmap_contiguous_ones.
  destruct (contig_loop_run x extent max (S (Z.to_nat (max * 4))) 0 0) as (r & Hr & Hres); [done|lia..|].
  rewrite (bind_run _ _ _ _ _ Hr). destruct Hres as [-> | (Hr0 & Hext & Hlt & Hb)].
  - exists (-1), x. split; [done|]. split; [done|]. split; [done|]. by left.
  - destruct (Z.ltb_spec r 0); [lia|].
    destruct (set_contig_run x r extent false) as (x' & Hs & Hw & Hl & Hb'); [done|lia..|].
    rewrite (bind_run _ _ _ _ _ Hs). exists r, x'. split; [done|]. split; [done|]. split; [done|].
    right. by repeat split.
Qed.

Lemma ones_popcount_witness : ones 0xDEADBEEF = popcount 32 0xDEADBEEF.
Proof. apply ones_popcount. lia. Defined.

Lemma log32_rounding_witness :
  log32_floor 12 = Z.log2 12 ∧ nlpow2 12 = u32 (2 ^ (Z.log2 12 + 1)) ∧
  log32 12 = if 12 =? 2 ^ Z.log2 12 then Z.log2 12 else Z.log2 12 - 1.
Proof. apply (log32_rounding 12). lia. Defined.

Lemma bitmap_extent_claims_witness :
  ∃ r x', bitmap_extent_find_set 0 2 2 [0x2E; 0xFF] = Done r x' ∧ words x' ∧
    length x' = length [0x2E; 0xFF] ∧
    ((r = -1 ∧ x' = [0x2E; 0xFF]) ∨
     (0 ≤ r ∧ r + 2 < 4 * 2 ∧ (∀ j, r ≤ j ≤ r + 2 → bit [0x2E; 0xFF] j = true) ∧
      ∀ j, 0 ≤ j → bit x' j = if decide (r ≤ j < r + 2) then false else bit [0x2E; 0xFF] j)).
Proof.
  apply (bitmap_extent_claims [0x2E; 0xFF] 0 2 2); [|cbn; lia].
  repeat (constructor; [lia|]). constructor.
Defined.

(** Four free bits, and the four asked for are not found. *)
Lemma bitmap_extent_misses : bitmap_extent_find_set 0 4 1 [0xF] = Done (-1) [0xF].
Proof. by vm_compute. Qed.
