(* ===== verification/USched.v ===== *)
(** * User-level schedulers: threads, queues and events

    Model of [components/include/cos_list.h] and of the scheduler library
    [components/implementation/sched/cos_scheduler.h] and [.c]: the thread
    structures of a scheduler component, its doubly linked lists, the events
    the kernel leaves for it, and the critical sections of components. *)

From stdpp Require Import base numbers option list.
From S2P Require Import Prelude Kern.
Local Open Scope Z_scope.

(** ** Structures *)

Definition THD_BLOCKED : Z := 0x1.
Definition THD_READY : Z := 0x2.
Definition THD_FREE : Z := 0x4.
Definition THD_GRP : Z := 0x8.
Definition THD_MEMBER : Z := 0x10.
Definition THD_UC_READY : Z := 0x40.
Definition THD_SUSPENDED : Z := 0x80.
Definition THD_DEPENDENCY : Z := 0x100.
Definition THD_DYING : Z := 0x200.
Definition THD_PHANTOM : Z := 0x400.

Definition SCHED_NUM_THREADS : nat := MAX_NUM_THREADS.
Definition NUM_PRIOS : nat := 32.

(** [struct sched_accounting]; [cycles] and [pol_cycles] are 64 bits wide. *)
Record sched_accounting : Type := MkAcct {
  sa_C : Z;
  sa_T : Z;
  sa_C_used : Z;
  sa_T_exp : Z;
  sa_ticks : Z;
  sa_prev_ticks : Z;
  sa_cycles : Z;
  sa_pol_cycles : Z
}.

Definition set_sa_C (v : Z) (r : sched_accounting) : sched_accounting :=
  MkAcct v (sa_T r) (sa_C_used r) (sa_T_exp r) (sa_ticks r) (sa_prev_ticks r)
    (sa_cycles r) (sa_pol_cycles r).
Definition set_sa_T (v : Z) (r : sched_accounting) : sched_accounting :=
  MkAcct (sa_C r) v (sa_C_used r) (sa_T_exp r) (sa_ticks r) (sa_prev_ticks r)
    (sa_cycles r) (sa_pol_cycles r).
Definition set_sa_C_used (v : Z) (r : sched_accounting) : sched_accounting :=
  MkAcct (sa_C r) (sa_T r) v (sa_T_exp r) (sa_ticks r) (sa_prev_ticks r)
    (sa_cycles r) (sa_pol_cycles r).
Definition set_sa_T_exp (v : Z) (r : sched_accounting) : sched_accounting :=
  MkAcct (sa_C r) (sa_T r) (sa_C_used r) v (sa_ticks r) (sa_prev_ticks r)
    (sa_cycles r) (sa_pol_cycles r).
Definition set_sa_ticks (v : Z) (r : sched_accounting) : sched_accounting :=
  MkAcct (sa_C r) (sa_T r) (sa_C_used r) (sa_T_exp r) v (sa_prev_ticks r)
    (sa_cycles r) (sa_pol_cycles r).
Definition set_sa_prev_ticks (v : Z) (r : sched_accounting) : sched_accounting :=
  MkAcct (sa_C r) (sa_T r) (sa_C_used r) (sa_T_exp r) (sa_ticks r) v
    (sa_cycles r) (sa_pol_cycles r).
Definition set_sa_cycles (v : Z) (r : sched_accounting) : sched_accounting :=
  MkAcct (sa_C r) (sa_T r) (sa_C_used r) (sa_T_exp r) (sa_ticks r)
    (sa_prev_ticks r) v (sa_pol_cycles r).
Definition set_sa_pol_cycles (v : Z) (r : sched_accounting) : sched_accounting :=
  MkAcct (sa_C r) (sa_T r) (sa_C_used r) (sa_T_exp r) (sa_ticks r)
    (sa_prev_ticks r) (sa_cycles r) v.

(** [struct sched_metric]. *)
Record sched_metric : Type := MkMetric {
  sm_priority : Z;
  sm_urgency : Z
}.

Definition set_sm_priority (v : Z) (r : sched_metric) : sched_metric :=
  MkMetric v (sm_urgency r).
Definition set_sm_urgency (v : Z) (r : sched_metric) : sched_metric :=
  MkMetric (sm_priority r) v.

(** A [struct sched_thd *] is the number of a node: the heads of the run queues,
    of the list of servers and of the lists of blocked threads and of inactive
    upcalls come first, the array [sched_thds] after them. *)
Definition head_of (p : Z) : nat := Z.to_nat p.
Definition servers : nat := 32.
Definition blocked : nat := 33.
Definition upcall_deactive : nat := 34.
Definition sched_thds (i : Z) : nat := 35 + Z.to_nat i.
Definition NUM_NODES : nat := 35 + SCHED_NUM_THREADS.

(** [struct sched_thd]. *)
Record sched_thd : Type := MkThd {
  st_flags : Z;
  st_id : Z;
  st_evt_id : Z;
  st_accounting : sched_accounting;
  st_metric : sched_metric;
  st_event : Z;
  st_prio_next : option nat;
  st_prio_prev : option nat;
  st_sched_next : option nat;
  st_sched_prev : option nat;
  st_wake_cnt : Z;
  st_blocking_component : Z;
  st_contended_component : Z;
  st_dependency_thd : option nat;
  st_block_time : Z;
  st_cevt_flags : Z;
  st_group : option nat;
  st_cid : Z;
  st_tick : Z;
  st_wakeup_tick : Z;
  st_next : option nat;
  st_prev : option nat;
  st_cevt_next : option nat;
  st_cevt_prev : option nat
}.

Definition set_st_flags (v : Z) (r : sched_thd) : sched_thd :=
  MkThd v (st_id r) (st_evt_id r) (st_accounting r) (st_metric r) (st_event r)
    (st_prio_next r) (st_prio_prev r) (st_sched_next r) (st_sched_prev r)
    (st_wake_cnt r) (st_blocking_component r) (st_contended_component r)
    (st_dependency_thd r) (st_block_time r) (st_cevt_flags r) (st_group r)
    (st_cid r) (st_tick r) (st_wakeup_tick r) (st_next r) (st_prev r)
    (st_cevt_next r) (st_cevt_prev r).
Definition set_st_id (v : Z) (r : sched_thd) : sched_thd :=
  MkThd (st_flags r) v (st_evt_id r) (st_accounting r) (st_metric r)
    (st_event r) (st_prio_next r) (st_prio_prev r) (st_sched_next r)
    (st_sched_prev r) (st_wake_cnt r) (st_blocking_component r)
    (st_contended_component r) (st_dependency_thd r) (st_block_time r)
    (st_cevt_flags r) (st_group r) (st_cid r) (st_tick r) (st_wakeup_tick r)
    (st_next r) (st_prev r) (st_cevt_next r) (st_cevt_prev r).
Definition set_st_evt_id (v : Z) (r : sched_thd) : sched_thd :=
  MkThd (st_flags r) (st_id r) v (st_accounting r) (st_metric r) (st_event r)
    (st_prio_next r) (st_prio_prev r) (st_sched_next r) (st_sched_prev r)
    (st_wake_cnt r) (st_blocking_component r) (st_contended_component r)
    (st_dependency_thd r) (st_block_time r) (st_cevt_flags r) (st_group r)
    (st_cid r) (st_tick r) (st_wakeup_tick r) (st_next r) (st_prev r)
    (st_cevt_next r) (st_cevt_prev r).
Definition set_st_accounting (v : sched_accounting) (r : sched_thd) : sched_thd :=
  MkThd (st_flags r) (st_id r) (st_evt_id r) v (st_metric r) (st_event r)
    (st_prio_next r) (st_prio_prev r) (st_sched_next r) (st_sched_prev r)
    (st_wake_cnt r) (st_blocking_component r) (st_contended_component r)
    (st_dependency_thd r) (st_block_time r) (st_cevt_flags r) (st_group r)
    (st_cid r) (st_tick r) (st_wakeup_tick r) (st_next r) (st_prev r)
    (st_cevt_next r) (st_cevt_prev r).
Definition set_st_metric (v : sched_metric) (r : sched_thd) : sched_thd :=
  MkThd (st_flags r) (st_id r) (st_evt_id r) (st_accounting r) v (st_event r)
    (st_prio_next r) (st_prio_prev r) (st_sched_next r) (st_sched_prev r)
    (st_wake_cnt r) (st_blocking_component r) (st_contended_component r)
    (st_dependency_thd r) (st_block_time r) (st_cevt_flags r) (st_group r)
    (st_cid r) (st_tick r) (st_wakeup_tick r) (st_next r) (st_prev r)
    (st_cevt_next r) (st_cevt_prev r).
Definition set_st_event (v : Z) (r : sched_thd) : sched_thd :=
  MkThd (st_flags r) (st_id r) (st_evt_id r) (st_accounting r) (st_metric r) v
    (st_prio_next r) (st_prio_prev r) (st_sched_next r) (st_sched_prev r)
    (st_wake_cnt r) (st_blocking_component r) (st_contended_component r)
    (st_dependency_thd r) (st_block_time r) (st_cevt_flags r) (st_group r)
    (st_cid r) (st_tick r) (st_wakeup_tick r) (st_next r) (st_prev r)
    (st_cevt_next r) (st_cevt_prev r).
Definition set_st_prio_next (v : option nat) (r : sched_thd) : sched_thd :=
  MkThd (st_flags r) (st_id r) (st_evt_id r) (st_accounting r) (st_metric r)
    (st_event r) v (st_prio_prev r) (st_sched_next r) (st_sched_prev r)
    (st_wake_cnt r) (st_blocking_component r) (st_contended_component r)
    (st_dependency_thd r) (st_block_time r) (st_cevt_flags r) (st_group r)
    (st_cid r) (st_tick r) (st_wakeup_tick r) (st_next r) (st_prev r)
    (st_cevt_next r) (st_cevt_prev r).
Definition set_st_prio_prev (v : option nat) (r : sched_thd) : sched_thd :=
  MkThd (st_flags r) (st_id r) (st_evt_id r) (st_accounting r) (st_metric r)
    (st_event r) (st_prio_next r) v (st_sched_next r) (st_sched_prev r)
    (st_wake_cnt r) (st_blocking_component r) (st_contended_component r)
    (st_dependency_thd r) (st_block_time r) (st_cevt_flags r) (st_group r)
    (st_cid r) (st_tick r) (st_wakeup_tick r) (st_next r) (st_prev r)
    (st_cevt_next r) (st_cevt_prev r).
Definition set_st_sched_next (v : option nat) (r : sched_thd) : sched_thd :=
  MkThd (st_flags r) (st_id r) (st_evt_id r) (st_accounting r) (st_metric r)
    (st_event r) (st_prio_next r) (st_prio_prev r) v (st_sched_prev r)
    (st_wake_cnt r) (st_blocking_component r) (st_contended_component r)
    (st_dependency_thd r) (st_block_time r) (st_cevt_flags r) (st_group r)
    (st_cid r) (st_tick r) (st_wakeup_tick r) (st_next r) (st_prev r)
    (st_cevt_next r) (st_cevt_prev r).
Definition set_st_sched_prev (v : option nat) (r : sched_thd) : sched_thd :=
  MkThd (st_flags r) (st_id r) (st_evt_id r) (st_accounting r) (st_metric r)
    (st_event r) (st_prio_next r) (st_prio_prev r) (st_sched_next r) v
    (st_wake_cnt r) (st_blocking_component r) (st_contended_component r)
    (st_dependency_thd r) (st_block_time r) (st_cevt_flags r) (st_group r)
    (st_cid r) (st_tick r) (st_wakeup_tick r) (st_next r) (st_prev r)
    (st_cevt_next r) (st_cevt_prev r).
Definition set_st_wake_cnt (v : Z) (r : sched_thd) : sched_thd :=
  MkThd (st_flags r) (st_id r) (st_evt_id r) (st_accounting r) (st_metric r)
    (st_event r) (st_prio_next r) (st_prio_prev r) (st_sched_next r)
    (st_sched_prev r) v (st_blocking_component r) (st_contended_component r)
    (st_dependency_thd r) (st_block_time r) (st_cevt_flags r) (st_group r)
    (st_cid r) (st_tick r) (st_wakeup_tick r) (st_next r) (st_prev r)
    (st_cevt_next r) (st_cevt_prev r).
Definition set_st_blocking_component (v : Z) (r : sched_thd) : sched_thd :=
  MkThd (st_flags r) (st_id r) (st_evt_id r) (st_accounting r) (st_metric r)
    (st_event r) (st_prio_next r) (st_prio_prev r) (st_sched_next r)
    (st_sched_prev r) (st_wake_cnt r) v (st_contended_component r)
    (st_dependency_thd r) (st_block_time r) (st_cevt_flags r) (st_group r)
    (st_cid r) (st_tick r) (st_wakeup_tick r) (st_next r) (st_prev r)
    (st_cevt_next r) (st_cevt_prev r).
Definition set_st_contended_component (v : Z) (r : sched_thd) : sched_thd :=
  MkThd (st_flags r) (st_id r) (st_evt_id r) (st_accounting r) (st_metric r)
    (st_event r) (st_prio_next r) (st_prio_prev r) (st_sched_next r)
    (st_sched_prev r) (st_wake_cnt r) (st_blocking_component r) v
    (st_dependency_thd r) (st_block_time r) (st_cevt_flags r) (st_group r)
    (st_cid r) (st_tick r) (st_wakeup_tick r) (st_next r) (st_prev r)
    (st_cevt_next r) (st_cevt_prev r).
Definition set_st_dependency_thd (v : option nat) (r : sched_thd) : sched_thd :=
  MkThd (st_flags r) (st_id r) (st_evt_id r) (st_accounting r) (st_metric r)
    (st_event r) (st_prio_next r) (st_prio_prev r) (st_sched_next r)
    (st_sched_prev r) (st_wake_cnt r) (st_blocking_component r)
    (st_contended_component r) v (st_block_time r) (st_cevt_flags r)
    (st_group r) (st_cid r) (st_tick r) (st_wakeup_tick r) (st_next r)
    (st_prev r) (st_cevt_next r) (st_cevt_prev r).
Definition set_st_block_time (v : Z) (r : sched_thd) : sched_thd :=
  MkThd (st_flags r) (st_id r) (st_evt_id r) (st_accounting r) (st_metric r)
    (st_event r) (st_prio_next r) (st_prio_prev r) (st_sched_next r)
    (st_sched_prev r) (st_wake_cnt r) (st_blocking_component r)
    (st_contended_component r) (st_dependency_thd r) v (st_cevt_flags r)
    (st_group r) (st_cid r) (st_tick r) (st_wakeup_tick r) (st_next r)
    (st_prev r) (st_cevt_next r) (st_cevt_prev r).
Definition set_st_cevt_flags (v : Z) (r : sched_thd) : sched_thd :=
  MkThd (st_flags r) (st_id r) (st_evt_id r) (st_accounting r) (st_metric r)
    (st_event r) (st_prio_next r) (st_prio_prev r) (st_sched_next r)
    (st_sched_prev r) (st_wake_cnt r) (st_blocking_component r)
    (st_contended_component r) (st_dependency_thd r) (st_block_time r) v
    (st_group r) (st_cid r) (st_tick r) (st_wakeup_tick r) (st_next r)
    (st_prev r) (st_cevt_next r) (st_cevt_prev r).
Definition set_st_group (v : option nat) (r : sched_thd) : sched_thd :=
  MkThd (st_flags r) (st_id r) (st_evt_id r) (st_accounting r) (st_metric r)
    (st_event r) (st_prio_next r) (st_prio_prev r) (st_sched_next r)
    (st_sched_prev r) (st_wake_cnt r) (st_blocking_component r)
    (st_contended_component r) (st_dependency_thd r) (st_block_time r)
    (st_cevt_flags r) v (st_cid r) (st_tick r) (st_wakeup_tick r) (st_next r)
    (st_prev r) (st_cevt_next r) (st_cevt_prev r).
Definition set_st_cid (v : Z) (r : sched_thd) : sched_thd :=
  MkThd (st_flags r) (st_id r) (st_evt_id r) (st_accounting r) (st_metric r)
    (st_event r) (st_prio_next r) (st_prio_prev r) (st_sched_next r)
    (st_sched_prev r) (st_wake_cnt r) (st_blocking_component r)
    (st_contended_component r) (st_dependency_thd r) (st_block_time r)
    (st_cevt_flags r) (st_group r) v (st_tick r) (st_wakeup_tick r)
    (st_next r) (st_prev r) (st_cevt_next r) (st_cevt_prev r).
Definition set_st_tick (v : Z) (r : sched_thd) : sched_thd :=
  MkThd (st_flags r) (st_id r) (st_evt_id r) (st_accounting r) (st_metric r)
    (st_event r) (st_prio_next r) (st_prio_prev r) (st_sched_next r)
    (st_sched_prev r) (st_wake_cnt r) (st_blocking_component r)
    (st_contended_component r) (st_dependency_thd r) (st_block_time r)
    (st_cevt_flags r) (st_group r) (st_cid r) v (st_wakeup_tick r) (st_next r)
    (st_prev r) (st_cevt_next r) (st_cevt_prev r).
Definition set_st_wakeup_tick (v : Z) (r : sched_thd) : sched_thd :=
  MkThd (st_flags r) (st_id r) (st_evt_id r) (st_accounting r) (st_metric r)
    (st_event r) (st_prio_next r) (st_prio_prev r) (st_sched_next r)
    (st_sched_prev r) (st_wake_cnt r) (st_blocking_component r)
    (st_contended_component r) (st_dependency_thd r) (st_block_time r)
    (st_cevt_flags r) (st_group r) (st_cid r) (st_tick r) v (st_next r)
    (st_prev r) (st_cevt_next r) (st_cevt_prev r).
Definition set_st_next (v : option nat) (r : sched_thd) : sched_thd :=
  MkThd (st_flags r) (st_id r) (st_evt_id r) (st_accounting r) (st_metric r)
    (st_event r) (st_prio_next r) (st_prio_prev r) (st_sched_next r)
    (st_sched_prev r) (st_wake_cnt r) (st_blocking_component r)
    (st_contended_component r) (st_dependency_thd r) (st_block_time r)
    (st_cevt_flags r) (st_group r) (st_cid r) (st_tick r) (st_wakeup_tick r) v
    (st_prev r) (st_cevt_next r) (st_cevt_prev r).
Definition set_st_prev (v : option nat) (r : sched_thd) : sched_thd :=
  MkThd (st_flags r) (st_id r) (st_evt_id r) (st_accounting r) (st_metric r)
    (st_event r) (st_prio_next r) (st_prio_prev r) (st_sched_next r)
    (st_sched_prev r) (st_wake_cnt r) (st_blocking_component r)
    (st_contended_component r) (st_dependency_thd r) (st_block_time r)
    (st_cevt_flags r) (st_group r) (st_cid r) (st_tick r) (st_wakeup_tick r)
    (st_next r) v (st_cevt_next r) (st_cevt_prev r).
Definition set_st_cevt_next (v : option nat) (r : sched_thd) : sched_thd :=
  MkThd (st_flags r) (st_id r) (st_evt_id r) (st_accounting r) (st_metric r)
    (st_event r) (st_prio_next r) (st_prio_prev r) (st_sched_next r)
    (st_sched_prev r) (st_wake_cnt r) (st_blocking_component r)
    (st_contended_component r) (st_dependency_thd r) (st_block_time r)
    (st_cevt_flags r) (st_group r) (st_cid r) (st_tick r) (st_wakeup_tick r)
    (st_next r) (st_prev r) v (st_cevt_prev r).
Definition set_st_cevt_prev (v : option nat) (r : sched_thd) : sched_thd :=
  MkThd (st_flags r) (st_id r) (st_evt_id r) (st_accounting r) (st_metric r)
    (st_event r) (st_prio_next r) (st_prio_prev r) (st_sched_next r)
    (st_sched_prev r) (st_wake_cnt r) (st_blocking_component r)
    (st_contended_component r) (st_dependency_thd r) (st_block_time r)
    (st_cevt_flags r) (st_group r) (st_cid r) (st_tick r) (st_wakeup_tick r)
    (st_next r) (st_prev r) (st_cevt_next r) v.

(** The memory of a scheduler component, and the id of the thread that runs in it. *)
Record ustate : Type := MkU {
  us_nodes : list sched_thd;
  us_active : Z; (* bit mask of the priorities in use *)
  us_server_ticks : Z; (* ticks of fp_rr.c *)
  us_thd_map : list (option nat); (* sched_thd_map *)
  us_evt_map : list (option nat); (* sched_map_evt_thd *)
  us_sda : cos_sched_data_area; (* cos_sched_notifications *)
  us_curr_evt : Z; (* cos_curr_evt *)
  us_crit : list (option nat); (* sched_spd_crit_sections[].holding_thd *)
  us_thd_id : Z; (* cos_get_thd_id() *)
  us_ticks : Z; (* ticks of cos_sched_base.c *)
  us_wakeup_time : Z;
  us_child_wakeup_time : Z;
  us_wakeup_thd : option nat;
  us_timer : option nat;
  us_init : option nat;
  us_idle : option nat;
  us_child : bool; (* sched_type == SCHED_CHILD *)
  us_prev_print : Z (* prev_print of sched_process_cevt *)
}.

Definition set_us_nodes (v : list sched_thd) (r : ustate) : ustate :=
  MkU v (us_active r) (us_server_ticks r) (us_thd_map r) (us_evt_map r)
    (us_sda r) (us_curr_evt r) (us_crit r) (us_thd_id r) (us_ticks r)
    (us_wakeup_time r) (us_child_wakeup_time r) (us_wakeup_thd r) (us_timer r)
    (us_init r) (us_idle r) (us_child r) (us_prev_print r).
Definition set_us_active (v : Z) (r : ustate) : ustate :=
  MkU (us_nodes r) v (us_server_ticks r) (us_thd_map r) (us_evt_map r)
    (us_sda r) (us_curr_evt r) (us_crit r) (us_thd_id r) (us_ticks r)
    (us_wakeup_time r) (us_child_wakeup_time r) (us_wakeup_thd r) (us_timer r)
    (us_init r) (us_idle r) (us_child r) (us_prev_print r).
Definition set_us_server_ticks (v : Z) (r : ustate) : ustate :=
  MkU (us_nodes r) (us_active r) v (us_thd_map r) (us_evt_map r) (us_sda r)
    (us_curr_evt r) (us_crit r) (us_thd_id r) (us_ticks r) (us_wakeup_time r)
    (us_child_wakeup_time r) (us_wakeup_thd r) (us_timer r) (us_init r)
    (us_idle r) (us_child r) (us_prev_print r).
Definition set_us_thd_map (v : list (option nat)) (r : ustate) : ustate :=
  MkU (us_nodes r) (us_active r) (us_server_ticks r) v (us_evt_map r)
    (us_sda r) (us_curr_evt r) (us_crit r) (us_thd_id r) (us_ticks r)
    (us_wakeup_time r) (us_child_wakeup_time r) (us_wakeup_thd r) (us_timer r)
    (us_init r) (us_idle r) (us_child r) (us_prev_print r).
Definition set_us_evt_map (v : list (option nat)) (r : ustate) : ustate :=
  MkU (us_nodes r) (us_active r) (us_server_ticks r) (us_thd_map r) v
    (us_sda r) (us_curr_evt r) (us_crit r) (us_thd_id r) (us_ticks r)
    (us_wakeup_time r) (us_child_wakeup_time r) (us_wakeup_thd r) (us_timer r)
    (us_init r) (us_idle r) (us_child r) (us_prev_print r).
Definition set_us_sda (v : cos_sched_data_area) (r : ustate) : ustate :=
  MkU (us_nodes r) (us_active r) (us_server_ticks r) (us_thd_map r)
    (us_evt_map r) v (us_curr_evt r) (us_crit r) (us_thd_id r) (us_ticks r)
    (us_wakeup_time r) (us_child_wakeup_time r) (us_wakeup_thd r) (us_timer r)
    (us_init r) (us_idle r) (us_child r) (us_prev_print r).
Definition set_us_curr_evt (v : Z) (r : ustate) : ustate :=
  MkU (us_nodes r) (us_active r) (us_server_ticks r) (us_thd_map r)
    (us_evt_map r) (us_sda r) v (us_crit r) (us_thd_id r) (us_ticks r)
    (us_wakeup_time r) (us_child_wakeup_time r) (us_wakeup_thd r) (us_timer r)
    (us_init r) (us_idle r) (us_child r) (us_prev_print r).
Definition set_us_crit (v : list (option nat)) (r : ustate) : ustate :=
  MkU (us_nodes r) (us_active r) (us_server_ticks r) (us_thd_map r)
    (us_evt_map r) (us_sda r) (us_curr_evt r) v (us_thd_id r) (us_ticks r)
    (us_wakeup_time r) (us_child_wakeup_time r) (us_wakeup_thd r) (us_timer r)
    (us_init r) (us_idle r) (us_child r) (us_prev_print r).
Definition set_us_thd_id (v : Z) (r : ustate) : ustate :=
  MkU (us_nodes r) (us_active r) (us_server_ticks r) (us_thd_map r)
    (us_evt_map r) (us_sda r) (us_curr_evt r) (us_crit r) v (us_ticks r)
    (us_wakeup_time r) (us_child_wakeup_time r) (us_wakeup_thd r) (us_timer r)
    (us_init r) (us_idle r) (us_child r) (us_prev_print r).
Definition set_us_ticks (v : Z) (r : ustate) : ustate :=
  MkU (us_nodes r) (us_active r) (us_server_ticks r) (us_thd_map r)
    (us_evt_map r) (us_sda r) (us_curr_evt r) (us_crit r) (us_thd_id r) v
    (us_wakeup_time r) (us_child_wakeup_time r) (us_wakeup_thd r) (us_timer r)
    (us_init r) (us_idle r) (us_child r) (us_prev_print r).
Definition set_us_wakeup_time (v : Z) (r : ustate) : ustate :=
  MkU (us_nodes r) (us_active r) (us_server_ticks r) (us_thd_map r)
    (us_evt_map r) (us_sda r) (us_curr_evt r) (us_crit r) (us_thd_id r)
    (us_ticks r) v (us_child_wakeup_time r) (us_wakeup_thd r) (us_timer r)
    (us_init r) (us_idle r) (us_child r) (us_prev_print r).
Definition set_us_child_wakeup_time (v : Z) (r : ustate) : ustate :=
  MkU (us_nodes r) (us_active r) (us_server_ticks r) (us_thd_map r)
    (us_evt_map r) (us_sda r) (us_curr_evt r) (us_crit r) (us_thd_id r)
    (us_ticks r) (us_wakeup_time r) v (us_wakeup_thd r) (us_timer r)
    (us_init r) (us_idle r) (us_child r) (us_prev_print r).
Definition set_us_wakeup_thd (v : option nat) (r : ustate) : ustate :=
  MkU (us_nodes r) (us_active r) (us_server_ticks r) (us_thd_map r)
    (us_evt_map r) (us_sda r) (us_curr_evt r) (us_crit r) (us_thd_id r)
    (us_ticks r) (us_wakeup_time r) (us_child_wakeup_time r) v (us_timer r)
    (us_init r) (us_idle r) (us_child r) (us_prev_print r).
Definition set_us_timer (v : option nat) (r : ustate) : ustate :=
  MkU (us_nodes r) (us_active r) (us_server_ticks r) (us_thd_map r)
    (us_evt_map r) (us_sda r) (us_curr_evt r) (us_crit r) (us_thd_id r)
    (us_ticks r) (us_wakeup_time r) (us_child_wakeup_time r) (us_wakeup_thd r)
    v (us_init r) (us_idle r) (us_child r) (us_prev_print r).
Definition set_us_init (v : option nat) (r : ustate) : ustate :=
  MkU (us_nodes r) (us_active r) (us_server_ticks r) (us_thd_map r)
    (us_evt_map r) (us_sda r) (us_curr_evt r) (us_crit r) (us_thd_id r)
    (us_ticks r) (us_wakeup_time r) (us_child_wakeup_time r) (us_wakeup_thd r)
    (us_timer r) v (us_idle r) (us_child r) (us_prev_print r).
Definition set_us_idle (v : option nat) (r : ustate) : ustate :=
  MkU (us_nodes r) (us_active r) (us_server_ticks r) (us_thd_map r)
    (us_evt_map r) (us_sda r) (us_curr_evt r) (us_crit r) (us_thd_id r)
    (us_ticks r) (us_wakeup_time r) (us_child_wakeup_time r) (us_wakeup_thd r)
    (us_timer r) (us_init r) v (us_child r) (us_prev_print r).
Definition set_us_child (v : bool) (r : ustate) : ustate :=
  MkU (us_nodes r) (us_active r) (us_server_ticks r) (us_thd_map r)
    (us_evt_map r) (us_sda r) (us_curr_evt r) (us_crit r) (us_thd_id r)
    (us_ticks r) (us_wakeup_time r) (us_child_wakeup_time r) (us_wakeup_thd r)
    (us_timer r) (us_init r) (us_idle r) v (us_prev_print r).
Definition set_us_prev_print (v : Z) (r : ustate) : ustate :=
  MkU (us_nodes r) (us_active r) (us_server_ticks r) (us_thd_map r)
    (us_evt_map r) (us_sda r) (us_curr_evt r) (us_crit r) (us_thd_id r)
    (us_ticks r) (us_wakeup_time r) (us_child_wakeup_time r) (us_wakeup_thd r)
    (us_timer r) (us_init r) (us_idle r) (us_child r) v.

(** The memory before the start, all zero. *)
Definition acct0 : sched_accounting := MkAcct 0 0 0 0 0 0 0 0.
Definition metric0 : sched_metric := MkMetric 0 0.
Definition sthd0 : sched_thd :=
  MkThd 0 0 0 acct0 metric0 0 None None None None 0 0 0 None 0 0 None 0 0 0 None None None None.

#[local] Abbreviation W := (M ustate).

(** [*p] read and written. *)
Definition get_node (p : nat) : W sched_thd := l ← gets us_nodes; bound (l !! p).
Definition upd_node (p : nat) (f : sched_thd → sched_thd) : W unit :=
  t ← get_node p; modify (λ u, set_us_nodes (<[p := f t]> (us_nodes u)) u).

(** ** Lists of [cos_list.h]

    The macros take the names of the link fields. *)
Record links : Type := MkLinks {
  ln_next : sched_thd → option nat;
  ln_prev : sched_thd → option nat;
  ln_set_next : option nat → sched_thd → sched_thd;
  ln_set_prev : option nat → sched_thd → sched_thd;
}.

Definition prio_links : links := MkLinks st_prio_next st_prio_prev set_st_prio_next set_st_prio_prev.
Definition sched_links : links := MkLinks st_sched_next st_sched_prev set_st_sched_next set_st_sched_prev.
Definition grp_links : links := MkLinks st_next st_prev set_st_next set_st_prev.
Definition cevt_links : links := MkLinks st_cevt_next st_cevt_prev set_st_cevt_next set_st_cevt_prev.

Section Lists.
Context (L : links).

Definition FIRST_LIST (obj : nat) : W nat := t ← get_node obj; deref (ln_next L t).
Definition LAST_LIST (obj : nat) : W nat := t ← get_node obj; deref (ln_prev L t).
Definition EMPTY_LIST (obj : nat) : W bool :=
  t ← get_node obj; mret (bool_decide (ln_next L t = Some obj)).

Definition INIT_LIST (obj : nat) : W unit :=
  upd_node obj (ln_set_prev L (Some obj));; upd_node obj (ln_set_next L (Some obj)).

(** The macro evaluates its argument [head] anew in every statement. *)
Definition ADD_LIST (head : W nat) (new : nat) : W unit :=
  h ← head; t ← get_node h; upd_node new (ln_set_next L (ln_next L t));;
  h ← head; upd_node new (ln_set_prev L (Some h));;
  h ← head; upd_node h (ln_set_next L (Some new));;
  n ← FIRST_LIST new; upd_node n (ln_set_prev L (Some new)).

Definition REM_LIST (obj : nat) : W unit :=
  t ← get_node obj; n ← deref (ln_next L t); upd_node n (ln_set_prev L (ln_prev L t));;
  t ← get_node obj; p ← deref (ln_prev L t); upd_node p (ln_set_next L (ln_next L t));;
  upd_node obj (ln_set_prev L (Some obj));; upd_node obj (ln_set_next L (Some obj)).
End Lists.

(** ** Thread structures *)

Definition sched_thd_free (t : sched_thd) : bool := has (st_flags t) THD_FREE.
Definition sched_thd_grp (t : sched_thd) : bool := has (st_flags t) THD_GRP.
Definition sched_thd_member (t : sched_thd) : bool := has (st_flags t) THD_MEMBER.
Definition sched_thd_blocked (t : sched_thd) : bool := has (st_flags t) THD_BLOCKED.
Definition sched_thd_inactive_evt (t : sched_thd) : bool := has (st_flags t) THD_UC_READY.
Definition sched_thd_phantom (t : sched_thd) : bool := has (st_flags t) THD_PHANTOM.
Definition sched_thd_dying (t : sched_thd) : bool := has (st_flags t) THD_DYING.
Definition sched_thd_dependent (t : sched_thd) : bool := has (st_flags t) THD_DEPENDENCY.
Definition sched_thd_suspended (t : sched_thd) : bool := has (st_flags t) THD_SUSPENDED.
Definition sched_thd_ready (t : sched_thd) : bool :=
  negb (sched_thd_blocked t) && negb (sched_thd_inactive_evt t) && negb (sched_thd_dying t).

(** [t->flags |= m] and [t->flags &= ~m]. *)
Definition set_flag (p : nat) (m : Z) : W unit := upd_node p (λ t, set_st_flags (bset (st_flags t) m) t).
Definition clr_flag (p : nat) (m : Z) : W unit := upd_node p (λ t, set_st_flags (bclr (st_flags t) m) t).

Definition sched_get_accounting (p : nat) : W sched_accounting :=
  t ← get_node p; assert (negb (sched_thd_free t));; mret (st_accounting t).
Definition sched_get_metric (p : nat) : W sched_metric :=
  t ← get_node p; assert (negb (sched_thd_free t));; mret (st_metric t).
Definition upd_accounting (p : nat) (f : sched_accounting → sched_accounting) : W unit :=
  a ← sched_get_accounting p; upd_node p (set_st_accounting (f a)).
Definition upd_metric (p : nat) (f : sched_metric → sched_metric) : W unit :=
  a ← sched_get_metric p; upd_node p (set_st_metric (f a)).

Definition sched_init_thd (p : nat) (thd_id flags : Z) : W unit :=
  t ← get_node p;
  assert (negb (sched_thd_free t) && negb (sched_thd_grp t) && negb (sched_thd_member t));;
  upd_node p (λ _, sthd0);;
  INIT_LIST grp_links p;;
  INIT_LIST prio_links p;;
  INIT_LIST sched_links p;;
  INIT_LIST cevt_links p;;
  upd_node p (set_st_id (u16 thd_id));;
  upd_node p (set_st_flags (u16 flags));;
  upd_node p (set_st_wake_cnt 1).

Definition sched_alloc_thd (thd_id : Z) : W nat :=
  assert (thd_id <? Z.of_nat SCHED_NUM_THREADS);;
  let thd := sched_thds thd_id in
  t ← get_node thd;
  assert (sched_thd_free t);;
  upd_node thd (set_st_flags 0);;
  sched_init_thd thd thd_id THD_READY;;
  mret thd.

Definition sched_alloc_upcall_thd (thd_id : Z) : W nat :=
  t ← sched_alloc_thd thd_id;
  upd_node t (set_st_flags THD_UC_READY);;
  mret t.

Definition sched_free_thd (thd : nat) : W unit :=
  t ← get_node thd;
  assert (negb (sched_thd_free t));;
  upd_node thd (set_st_flags THD_FREE).

(** *** Groups: the threads of a child scheduler *)

Definition sched_grp_make (thd : nat) (csched : Z) : W unit :=
  t ← get_node thd;
  assert (negb (sched_thd_grp t) && negb (sched_thd_free t) && negb (sched_thd_member t));;
  set_flag thd THD_GRP;;
  upd_node thd (set_st_cid csched).

Definition sched_grp_add (grp thd : nat) : W unit :=
  g ← get_node grp; t ← get_node thd;
  assert (sched_thd_grp g && negb (sched_thd_free g) && negb (sched_thd_free t) &&
          negb (sched_thd_grp t) && negb (sched_thd_member t));;
  set_flag thd THD_MEMBER;;
  upd_node thd (set_st_group (Some grp));;
  ADD_LIST grp_links (mret grp) thd.

Definition sched_grp_rem (thd : nat) : W unit :=
  t ← get_node thd;
  grp ← (match st_group t with Some g => mret g | None => fail AssertFail end);
  g ← get_node grp;
  assert (sched_thd_grp g && negb (sched_thd_free g) && negb (sched_thd_free t) &&
          negb (sched_thd_grp t) && sched_thd_member t);;
  upd_node thd (set_st_group None);;
  clr_flag thd THD_MEMBER;;
  REM_LIST grp_links thd;;
  REM_LIST cevt_links thd.

Definition sched_is_grp (thd : nat) : W bool :=
  t ← get_node thd;
  assert (negb (sched_thd_free t));;
  if sched_thd_grp t then assert (negb (sched_thd_member t));; mret true else mret false.

Definition sched_get_members (grp : nat) : W (option nat) :=
  g ← get_node grp;
  assert (negb (sched_thd_free g) && sched_thd_grp g);;
  if bool_decide (st_next g = Some grp) then mret None else mret (st_next g).

Definition sched_get_grp (thd : nat) : W (option nat) :=
  g ← sched_is_grp thd;
  if g : bool then mret None else t ← get_node thd; mret (st_group t).

(** *** From thread ids to threads *)

Definition sched_get_mapping (thd_id : Z) : W (option nat) :=
  if Z.of_nat SCHED_NUM_THREADS <=? thd_id then mret None
  else
    m ← gets us_thd_map;
    e ← bound (zlookup m thd_id);
    match e with
    | None => mret None
    | Some p => t ← get_node p; mret (if sched_thd_free t then None else Some p)
    end.

Definition sched_get_current : W (option nat) :=
  id ← gets us_thd_id; sched_get_mapping (u16 id).

Definition sched_add_mapping (thd_id : Z) (thd : nat) : W Z :=
  if Z.of_nat SCHED_NUM_THREADS <=? thd_id then mret (-1)
  else
    m ← gets us_thd_map;
    e ← bound (zlookup m thd_id);
    match e with
    | Some _ => mret (-1)
    | None => modify (λ u, set_us_thd_map (zinsert (us_thd_map u) thd_id (Some thd)) u);; mret 0
    end.

Definition sched_rem_mapping (thd_id : Z) : W unit :=
  if Z.of_nat SCHED_NUM_THREADS <=? thd_id then mret tt
  else
    m ← gets us_thd_map;
    bound (zlookup m thd_id);;
    modify (λ u, set_us_thd_map (zinsert (us_thd_map u) thd_id None) u).

(** ** Events

    The kernel links the entries of the threads that something happened to into
    a list in the shared page; the scheduler walks it from the entry it last
    looked at, [cos_curr_evt].  Its compare-and-exchange loops only repeat when
    the kernel writes the entry at the same time; here they run once. *)

Definition COS_SCHED_EVT_FREE : Z := 0x1.

Definition get_event (i : Z) : W cos_sched_events :=
  a ← gets us_sda; bound (zlookup (sd_events a) i).
Definition put_event (i : Z) (e : cos_sched_events) : W unit :=
  get_event i;;
  modify (λ u, set_us_sda (set_sd_events (zinsert (sd_events (us_sda u)) i e) (us_sda u)) u).

Definition cos_sched_pending_event : W Z := a ← gets us_sda; mret (sd_pending_event a).
Definition cos_sched_clear_events : W unit :=
  modify (λ u, set_us_sda (set_sd_pending_event 0 (us_sda u)) u).
Definition cos_sched_clear_cevts : W unit :=
  modify (λ u, set_us_sda (set_sd_pending_cevt 0 (us_sda u)) u).
Definition cos_sched_timer_cyc : W Z :=
  a ← gets us_sda; modify (λ u, set_us_sda (set_sd_timer 0 (us_sda u)) u);; mret (sd_timer a).

Definition sched_evt_to_thd (evt_id : Z) : W (option nat) :=
  assert (evt_id <? Z.of_nat NUM_SCHED_EVTS);;
  assert (negb (evt_id =? 0));;
  m ← gets us_evt_map; bound (zlookup m evt_id).

(** The loop of [cos_sched_process_events]; [amnt] entries are still to be
    looked at, [fn] is the visitor. *)
Fixpoint process_loop (amnt : nat) (fn : nat → Z → Z → W unit) : W Z :=
  match amnt with
  | O => mret 0
  | S amnt =>
    cur ← gets us_curr_evt;
    if Z.of_nat NUM_SCHED_EVTS <=? cur then mret (-1)
    else
      evt ← get_event cur;
      let id := ev_next evt in
      let flags := ev_flags evt in
      put_event cur (set_ev_next 0 (set_ev_flags 0 evt));;
      evt ← get_event cur;
      let cpu := ev_cpu evt in
      put_event cur (set_ev_cpu 0 evt);;
      (if (negb (cpu =? 0) || negb (flags =? 0)) && negb (cur =? 0)
       then t ← sched_evt_to_thd cur;
            match t with Some t => fn t flags cpu | None => mret tt end
       else mret tt);;
      if id =? 0 then mret 0
      else modify (set_us_curr_evt id);; process_loop amnt fn
  end.

(** A [proc_amnt] of 0 stands for all entries; there are never more than the
    array holds, so this many rounds are enough for any larger number. *)
Definition cos_sched_process_events (fn : nat → Z → Z → W unit) (proc_amnt : Z) : W Z :=
  let amnt := if proc_amnt =? 0 then 2 ^ 32 - 1 else proc_amnt in
  process_loop (Z.to_nat (Z.min amnt (Z.of_nat NUM_SCHED_EVTS + 1))) fn.

Definition cos_sched_set_evt_urgency (evt_id urgency : Z) : W unit :=
  assert (u8 evt_id <? Z.of_nat NUM_SCHED_EVTS);;
  e ← get_event (u8 evt_id);
  put_event (u8 evt_id) (set_ev_urgency urgency e).

Definition sched_set_thd_urgency (t : nat) (urgency : Z) : W unit :=
  x ← get_node t;
  when (negb (st_evt_id x =? 0)) (cos_sched_set_evt_urgency (st_evt_id x) urgency);;
  upd_metric t (set_sm_urgency urgency).

Section Cntl.
(** The system call [cos_sched_cntl(operation, thread, argument)]. *)
Context (cos_sched_cntl : Z → Z → Z → Z).

Definition COS_SCHED_THD_EVT : Z := 1.

Definition sched_share_event (n old : nat) : W Z :=
  o ← get_node old;
  let i := st_evt_id o in
  e ← get_event i;
  assert (negb (has (ev_flags e) COS_SCHED_EVT_FREE));;
  upd_node n (set_st_evt_id i);;
  upd_node n (set_st_event i);;
  x ← get_node n;
  mret (if cos_sched_cntl COS_SCHED_THD_EVT (st_id x) i =? 0 then 0 else -1).

(** The loop of [sched_alloc_event] over the entries from [i] on. *)
Fixpoint alloc_event_loop (n : nat) (thd : nat) (i : Z) : W Z :=
  match n with
  | O => mret (-1)
  | S n =>
    se ← get_event i;
    if has (ev_flags se) COS_SCHED_EVT_FREE
    then
      put_event i (set_ev_flags (bclr (ev_flags se) COS_SCHED_EVT_FREE) se);;
      m ← gets us_evt_map;
      old ← bound (zlookup m i);
      assert (bool_decide (old = None));;
      modify (λ u, set_us_evt_map (zinsert (us_evt_map u) i (Some thd)) u);;
      upd_node thd (set_st_evt_id i);;
      x ← get_node thd;
      if cos_sched_cntl COS_SCHED_THD_EVT (st_id x) i =? 0
      then upd_node thd (set_st_event i);; mret i
      else se ← get_event i;
           put_event i (set_ev_flags (bset (ev_flags se) COS_SCHED_EVT_FREE) se);; mret (-1)
    else alloc_event_loop n thd (i + 1)
  end.

Definition sched_alloc_event (thd : nat) : W Z :=
  x ← get_node thd;
  assert (st_evt_id x =? 0);;
  alloc_event_loop (NUM_SCHED_EVTS - 1) thd 1.

Definition sched_rem_event (thd : nat) : W Z :=
  x ← get_node thd;
  let idx := st_evt_id x in
  assert (negb (idx =? 0));;
  se ← get_event idx;
  assert (negb (has (ev_flags se) COS_SCHED_EVT_FREE));;
  if cos_sched_cntl COS_SCHED_THD_EVT (st_id x) 0 =? 0
  then
    put_event idx (set_ev_flags COS_SCHED_EVT_FREE se);;
    m ← gets us_evt_map; bound (zlookup m idx);;
    modify (λ u, set_us_evt_map (zinsert (us_evt_map u) idx None) u);;
    upd_node thd (set_st_event 0);;
    upd_node thd (set_st_evt_id 0);;
    mret 0
  else mret (-1).
End Cntl.

(** ** Critical sections of components *)

Definition get_crit (spdid : Z) : W (option nat) := m ← gets us_crit; bound (zlookup m spdid).
Definition put_crit (spdid : Z) (h : option nat) : W unit :=
  get_crit spdid;; modify (λ u, set_us_crit (zinsert (us_crit u) spdid h) u).

Definition sched_crit_sect_init : W unit :=
  for_range 0 (Z.of_nat MAX_NUM_SPDS) (λ i, put_crit i None).

Definition sched_ds_init : W unit :=
  for_range 0 (Z.of_nat SCHED_NUM_THREADS) (λ i, upd_node (sched_thds i) (set_st_flags THD_FREE));;
  for_range 0 (Z.of_nat SCHED_NUM_THREADS) (λ i,
    modify (λ u, set_us_thd_map (zinsert (us_thd_map u) i None) u));;
  for_range 0 (Z.of_nat NUM_SCHED_EVTS) (λ i,
    se ← get_event i;
    put_event i (set_ev_next 0 (set_ev_flags (if i =? 0 then 0 else COS_SCHED_EVT_FREE) se));;
    modify (λ u, set_us_evt_map (zinsert (us_evt_map u) i None) u));;
  sched_crit_sect_init.

(** [__sched_thd_dependency]: the thread [curr] waits for, if any. *)
Definition thd_dependency_once (curr : nat) : W (option nat) :=
  let done : W (option nat) :=
    clr_flag curr THD_DEPENDENCY;;
    upd_node curr (set_st_contended_component 0);;
    mret None in
  t ← get_node curr;
  if negb (sched_thd_dependent t) then mret None
  else match st_dependency_thd t with
  | Some d => mret (Some d)
  | None =>
    let spdid := st_contended_component t in
    if spdid =? 0 then done
    else
      assert (spdid <? Z.of_nat MAX_NUM_SPDS);;
      cs ← get_crit spdid;
      match cs with Some h => mret (Some h) | None => done end
  end.

(** The loop of [sched_thd_dependency]: the end of the chain that starts at [p].
    Nothing prevents cycles. *)
Fixpoint dependency_loop (fuel : nat) (p : nat) : W nat :=
  match fuel with
  | O => fail NoFuel
  | S fuel => d ← thd_dependency_once p;
              match d with None => mret p | Some d => dependency_loop fuel d end
  end.

Definition sched_thd_dependency (curr : nat) : W (option nat) :=
  p ← dependency_loop (S NUM_NODES) curr;
  mret (if decide (p = curr) then None else Some p).

Definition sched_take_crit_sect (spdid : Z) (curr : nat) : W (option nat) :=
  assert (spdid <? Z.of_nat MAX_NUM_SPDS);;
  t ← get_node curr;
  assert (negb (sched_thd_free t));;
  assert (negb (sched_thd_blocked t));;
  cs ← get_crit spdid;
  match cs with
  | Some h =>
    x ← get_node h;
    assert (negb (sched_thd_free x));;
    assert (negb (sched_thd_blocked x));;
    assert (negb (bool_decide (curr = h)));;
    upd_node curr (set_st_contended_component spdid);;
    set_flag curr THD_DEPENDENCY;;
    t ← get_node curr;
    assert (bool_decide (st_dependency_thd t = None));;
    mret (Some h)
  | None =>
    upd_node curr (set_st_contended_component spdid);;
    put_crit spdid (Some curr);;
    mret None
  end.

Definition sched_release_crit_sect (spdid : Z) (curr : nat) : W Z :=
  assert (spdid <? Z.of_nat MAX_NUM_SPDS);;
  cs ← get_crit spdid;
  t ← get_node curr;
  assert (negb (sched_thd_free t));;
  assert (negb (sched_thd_blocked t));;
  assert (bool_decide (cs = Some curr));;
  if negb (st_contended_component t =? spdid) then mret (-1)
  else
    upd_node curr (set_st_contended_component 0);;
    put_crit spdid None;;
    mret 0.
