(* ===== verification/Fprr.v ===== *)
(** * The fixed-priority round-robin scheduler

    Model of [components/implementation/sched/fprr/fp_rr.c], the scheduling
    policy, also in its variant with deferrable servers
    ([sched/ds/deferrable.c]): a list of runnable threads for each priority and
    a bit mask of the priorities that have any. *)

From stdpp Require Import base numbers option list.
From S2P Require Import Prelude Kern USched.
Local Open Scope Z_scope.
Local Open Scope array_scope.

#[local] Abbreviation W := (M ustate).

Definition PRIO_LOW : Z := 30.
Definition PRIO_LOWEST : Z := 31.
Definition PRIO_HIGHEST : Z := 0.

(** ** The mask of priorities *)

Definition mask_set (p : Z) : W unit :=
  modify (λ u, set_us_active (Z.lor (us_active u) (u32 (Z.shiftl 1 p))) u).
Definition mask_unset (p : Z) : W unit :=
  modify (λ u, set_us_active (Z.land (us_active u) (u32 (Z.lnot (u32 (Z.shiftl 1 p))))) u).

(** The loop of [mask_high]; it does not end when no bit is set. *)
Fixpoint high_loop (fuel : nat) (v r : Z) : W Z :=
  match fuel with
  | O => fail NoFuel
  | S fuel => if v =? 1 then mret r else high_loop fuel (Z.shiftr v 1) (u16 (r + 1))
  end.

Definition mask_high : W Z :=
  v ← gets us_active; high_loop 32 (Z.land v (u32 (- v))) 0.

(** ** Run queues *)

(** [&priorities[p].runnable]. *)
Definition runnable (p : Z) : W nat :=
  if p <? Z.of_nat NUM_PRIOS then mret (head_of p) else fail OutOfBounds.

Definition fp_move_end_runnable (t : nat) : W unit :=
  m ← sched_get_metric t;
  let p := sm_priority m in
  x ← get_node t;
  assert (sched_thd_ready x);;
  assert (negb (sched_thd_suspended x));;
  head ← runnable p;
  REM_LIST prio_links t;;
  ADD_LIST prio_links (LAST_LIST prio_links head) t;;
  mask_set p.

Definition fp_add_start_runnable (t : nat) : W unit :=
  m ← sched_get_metric t;
  let p := sm_priority m in
  x ← get_node t;
  assert (sched_thd_ready x);;
  head ← runnable p;
  ADD_LIST prio_links (mret head) t;;
  mask_set p.

Definition fp_add_thd (t : nat) (prio : Z) : W unit :=
  assert (prio <? Z.of_nat NUM_PRIOS);;
  x ← get_node t;
  assert (sched_thd_ready x);;
  assert (negb (sched_thd_suspended x));;
  upd_metric t (set_sm_priority prio);;
  sched_set_thd_urgency t prio;;
  fp_move_end_runnable t.

Definition fp_rem_thd (t : nat) : W unit :=
  m ← sched_get_metric t;
  let p := sm_priority m in
  e ← EMPTY_LIST prio_links t;
  x ← get_node t;
  when (negb e && bool_decide (st_prio_next x = st_prio_prev x)) (mask_unset p);;
  REM_LIST prio_links t.

Definition fp_get_highest_prio : W nat :=
  p ← mask_high;
  head ← runnable p;
  t ← FIRST_LIST prio_links head;
  assert (negb (bool_decide (t = head)));;
  x ← get_node t;
  assert (sched_thd_ready x);;
  m ← sched_get_metric t;
  assert (sm_priority m =? p);;
  assert (negb (sched_thd_free x));;
  mret t.

Definition fp_get_second_highest_prio (highest : nat) : W nat :=
  fp_rem_thd highest;;
  t ← fp_get_highest_prio;
  fp_add_start_runnable highest;;
  mret t.

Definition schedule (t : option nat) : W nat :=
  (match t with
   | None => mret tt
   | Some p => x ← get_node p; assert (negb (sched_thd_member x))
   end);;
  n ← fp_get_highest_prio;
  if negb (bool_decide (Some n = t)) then mret n
  else fp_get_second_highest_prio n.

Definition thread_remove (t : nat) : W unit :=
  fp_rem_thd t;; REM_LIST sched_links t.

Definition thread_block (t : nat) : W unit :=
  x ← get_node t;
  assert (negb (sched_thd_member x));;
  fp_rem_thd t.

Definition thread_wakeup (t : nat) : W unit :=
  x ← get_node t;
  assert (negb (sched_thd_member x));;
  if negb (sched_thd_suspended x)
  then m ← sched_get_metric t; fp_add_thd t (sm_priority m)
  else mret tt.

(** ** Time

    [QUANTUM] is the number of cycles of a timer tick for the processor and
    timer frequencies of [cos_config.h]. *)
Definition QUANTUM : Z := 16000000.
Definition u64 (z : Z) : Z := z mod 2 ^ 64.

(** The loop that turns cycles into ticks. *)
Fixpoint tick_loop (fuel : nat) (t : nat) : W unit :=
  match fuel with
  | O => fail NoFuel
  | S fuel =>
    sa ← sched_get_accounting t;
    if QUANTUM <? sa_cycles sa
    then upd_accounting t (λ a, set_sa_cycles (sa_cycles a - QUANTUM) a);;
         upd_accounting t (λ a, set_sa_ticks (u32 (sa_ticks a + 1)) a);;
         tick_loop fuel t
    else mret tt
  end.

Definition time_elapsed (t : nat) (processing_time : Z) : W unit :=
  upd_accounting t (λ a, set_sa_pol_cycles (u64 (sa_pol_cycles a + processing_time)) a);;
  upd_accounting t (λ a, set_sa_cycles (u64 (sa_cycles a + processing_time)) a);;
  sa ← sched_get_accounting t;
  when (QUANTUM <=? sa_cycles sa) (
    tick_loop (S (Z.to_nat (sa_cycles sa / QUANTUM))) t;;
    x ← get_node t;
    when (sched_thd_ready x && negb (sched_thd_suspended x)) (
      assert (negb (sched_thd_inactive_evt x));;
      assert (negb (sched_thd_blocked x));;
      fp_move_end_runnable t));;
  sa ← sched_get_accounting t;
  when (QUANTUM <? sa_pol_cycles sa) (
    upd_accounting t (λ a, set_sa_pol_cycles (sa_pol_cycles a - QUANTUM) a);;
    when (negb (sa_T sa =? 0)) (
      upd_accounting t (λ a, set_sa_C_used (u32 (sa_C_used a + 1)) a);;
      sa ← sched_get_accounting t;
      when (sa_C sa <=? sa_C_used sa) (
        sched_set_thd_urgency t (Z.of_nat NUM_PRIOS);;
        x ← get_node t;
        when (sched_thd_ready x) (fp_rem_thd t);;
        set_flag t THD_SUSPENDED))).

Section Servers.
(** Whether deferrable servers are compiled in. *)
Context (DEFERRABLE : bool).

(** One server at a tick: refill its budget when its period is over. *)
Definition server_tick (t : nat) : W unit :=
  sa ← sched_get_accounting t;
  let T_exp := sa_T_exp sa in
  let T := sa_T sa in
  assert (negb (T =? 0));;
  ticks ← gets us_server_ticks;
  when (T_exp <=? ticks) (
    let off := T - ticks mod T in
    upd_accounting t (set_sa_T_exp (u32 (ticks + off)));;
    upd_accounting t (set_sa_C_used 0);;
    x ← get_node t;
    when (sched_thd_suspended x) (
      clr_flag t THD_SUSPENDED;;
      x ← get_node t;
      when (sched_thd_ready x) (m ← sched_get_metric t; fp_add_thd t (sm_priority m)))).

(** [for (t = FIRST_LIST(head) ; t != head ; t = FIRST_LIST(t)) body(t)]. *)
Fixpoint walk_list (fuel : nat) (L : links) (head t : nat) (body : nat → W unit) : W unit :=
  match fuel with
  | O => fail NoFuel
  | S fuel => if decide (t = head) then mret tt
              else body t;; n ← FIRST_LIST L t; walk_list fuel L head n body
  end.

Definition timer_tick (num_ticks : Z) : W unit :=
  if DEFERRABLE
  then
    assert (0 <? num_ticks);;
    modify (λ u, set_us_server_ticks (u32 (us_server_ticks u + num_ticks)) u);;
    t ← FIRST_LIST sched_links servers;
    walk_list NUM_NODES sched_links servers t server_tick
  else mret tt.

(** ** Parameters of threads

    A C string is the list of its characters, without the final 0. *)
Definition char_at (s : list Z) (i : Z) : W Z :=
  if i =? Z.of_nat (length s) then mret 0 else bound (s.[i]).

Definition is_digit (c : Z) : bool := (48 <=? c) && (c <=? 57).

(** The value of the leading digits. *)
Fixpoint digits_value (acc : Z) (s : list Z) : Z :=
  match s with
  | c :: s => if is_digit c then digits_value (10 * acc + (c - 48)) s else acc
  | [] => acc
  end.

(** [atoi] of the C library: white space, a sign, digits. *)
Fixpoint atoi (s : list Z) : Z :=
  match s with
  | c :: s' =>
    if (c =? 32) || ((9 <=? c) && (c <=? 13)) then atoi s'
    else if c =? 45 then - digits_value 0 s'
    else if c =? 43 then digits_value 0 s'
    else digits_value 0 s
  | [] => 0
  end.

(** The digits [ds_extract_nums] copies: ten at most. *)
Fixpoint leading_digits (n : nat) (s : list Z) : list Z :=
  match n, s with
  | S n, c :: s => if is_digit c then c :: leading_digits n s else []
  | _, _ => []
  end.

Definition ds_extract_nums (s : list Z) : Z * Z :=
  let tmp := leading_digits 10 s in (atoi tmp, Z.of_nat (length tmp)).

(** [assert(s[0] == c); s++]. *)
Definition expect (c : Z) (s : list Z) : W (list Z) :=
  match s with
  | c' :: s' => assert (c' =? c);; mret s'
  | [] => fail AssertFail
  end.

Definition ds_parse_params (t : nat) (s : list Z) : W Z :=
  s ← expect 100 s;
  let '(prio, n) := ds_extract_nums s in
  let s := drop (Z.to_nat n) s in
  s ← expect 99 s;
  let '(C, n) := ds_extract_nums s in
  upd_accounting t (set_sa_C (u32 C));;
  let s := drop (Z.to_nat n) s in
  upd_accounting t (set_sa_C_used 0);;
  s ← expect 116 s;
  let '(T, n) := ds_extract_nums s in
  upd_accounting t (set_sa_T (u32 T));;
  upd_accounting t (set_sa_T_exp 0);;
  mret prio.

Definition server_join (t : nat) : W unit :=
  sa ← sched_get_accounting t;
  when (negb (sa_T sa =? 0)) (ADD_LIST sched_links (mret servers) t).

Definition fp_thread_params (t : nat) (p : list Z) : W Z :=
  curr ← char_at p 0;
  prio ← (
    if curr =? 114 then (* r: relative to the current thread *)
      c ← sched_get_current;
      c ← (match c with Some c => mret c | None => fail AssertFail end);
      let tmp := atoi (tail p) in
      m ← sched_get_metric c;
      let prio := sm_priority m + tmp in
      a ← sched_get_accounting c;
      upd_accounting t (λ _, a);;
      when DEFERRABLE (server_join t);;
      mret (if PRIO_LOWEST <? prio then PRIO_LOWEST else prio)
    else if curr =? 97 then mret (atoi (tail p)) (* a: absolute *)
    else if curr =? 105 then mret PRIO_LOWEST (* i: idle *)
    else if curr =? 116 then mret PRIO_HIGHEST (* t: timer *)
    else if DEFERRABLE && (curr =? 100) then (* d: deferrable server *)
      prio ← ds_parse_params t p;
      e ← EMPTY_LIST sched_links t;
      when e (server_join t);;
      fp_move_end_runnable t;;
      mret prio
    else mret PRIO_LOW);
  x ← get_node t;
  when (sched_thd_ready x) (fp_rem_thd t);;
  fp_add_thd t (u16 prio);;
  mret 0.

Definition thread_params_set (t : nat) (params : list Z) : W Z := fp_thread_params t params.

(** [res_spec_t]: an amount [a] out of a window [w]. *)
Definition thread_resparams_set (t : nat) (a w : Z) : W Z :=
  if DEFERRABLE
  then
    if (a <? 0) || (w <? 0) || (w <? a) then mret (-1)
    else
      upd_accounting t (set_sa_C a);;
      upd_accounting t (set_sa_C_used 0);;
      upd_accounting t (set_sa_T w);;
      upd_accounting t (set_sa_T_exp 0);;
      mret 0
  else mret 0.

(** ** Reports and start

    [runqueue_print] resets the counters of the threads it reports. *)
Definition report_thd (t : nat) : W unit :=
  sa ← sched_get_accounting t;
  let diff := u32 (sa_ticks sa - sa_prev_ticks sa) in
  when (negb (diff =? 0) || negb (sa_cycles sa =? 0)) (
    upd_accounting t (λ a, set_sa_prev_ticks (sa_ticks a) a);;
    upd_accounting t (set_sa_cycles 0)).

Definition report_suspended (t : nat) : W unit :=
  sa ← sched_get_accounting t;
  x ← get_node t;
  when (sched_thd_suspended x) (report_thd t).

Definition runqueue_print : W unit :=
  for_range 0 (Z.of_nat NUM_PRIOS) (λ i,
    t ← FIRST_LIST prio_links (head_of i);
    walk_list NUM_NODES prio_links (head_of i) t report_thd);;
  when DEFERRABLE (
    t ← FIRST_LIST sched_links servers;
    walk_list NUM_NODES sched_links servers t report_suspended).

Definition sched_initialization : W unit :=
  for_range 0 (Z.of_nat NUM_PRIOS) (λ i, sched_init_thd (head_of i) 0 THD_FREE);;
  when DEFERRABLE (sched_init_thd servers 0 THD_FREE).
End Servers.
