(* ===== verification/FprrInv.v ===== *)
(** * Run queues of the round-robin scheduler

    The lists of [cos_list.h] are rings; the run queues with their bit mask
    implement a queue per priority; the thread chosen is the first one of the
    highest priority, and threads of one priority take turns. *)

From stdpp Require Import base numbers option sets list.
From S2P Require Import Prelude Ring Kern USched Fprr.
Local Open Scope Z_scope.

(** ** Lists *)

(** A pair of link fields. *)
Class LinkLaws (L : links) : Prop := {
  ll_next_next v t : ln_next L (ln_set_next L v t) = v;
  ll_next_prev v t : ln_next L (ln_set_prev L v t) = ln_next L t;
  ll_prev_prev v t : ln_prev L (ln_set_prev L v t) = v;
  ll_prev_next v t : ln_prev L (ln_set_next L v t) = ln_prev L t;
  ll_comm v w t : ln_set_prev L w (ln_set_next L v t) = ln_set_next L v (ln_set_prev L w t);
  ll_set_next v w t : ln_set_next L v (ln_set_next L w t) = ln_set_next L v t;
  ll_set_prev v w t : ln_set_prev L v (ln_set_prev L w t) = ln_set_prev L v t;
  ll_id t : ln_set_next L (ln_next L t) (ln_set_prev L (ln_prev L t) t) = t;
}.

#[export] Instance prio_laws : LinkLaws prio_links.
Proof. split; intros; by destruct t. Qed.
#[export] Instance sched_laws : LinkLaws sched_links.
Proof. split; intros; by destruct t. Qed.
#[export] Instance grp_laws : LinkLaws grp_links.
Proof. split; intros; by destruct t. Qed.
#[export] Instance cevt_laws : LinkLaws cevt_links.
Proof. split; intros; by destruct t. Qed.

Lemma get_node_run u k x : us_nodes u !! k = Some x → get_node k u = Done x u.
Proof. intros Hx. unfold get_node. erewrite bind_run by reflexivity. by rewrite Hx. Qed.

Lemma upd_node_run u k f x :
  us_nodes u !! k = Some x → upd_node k f u = Done tt (set_us_nodes (<[k := f x]> (us_nodes u)) u).
Proof. intros Hx. unfold upd_node. by rewrite (bind_run _ _ _ _ _ (get_node_run _ _ _ Hx)). Qed.

Section Links.
Context (L : links) `{!LinkLaws L}.
Implicit Types u : ustate.

(** The links of a node. *)
Definition nx u (k : nat) : option nat := us_nodes u !! k ≫= ln_next L.
Definition pv u (k : nat) : option nat := us_nodes u !! k ≫= ln_prev L.

Definition relinked_thd (x x' : sched_thd) : Prop :=
  x' = ln_set_next L (ln_next L x') (ln_set_prev L (ln_prev L x') x).

(** Only links were changed. *)
Definition relinked u u' : Prop :=
  u' = set_us_nodes (us_nodes u') u ∧ Forall2 relinked_thd (us_nodes u) (us_nodes u').

Lemma relinked_thd_refl x : relinked_thd x x.
Proof. unfold relinked_thd. by rewrite ll_id. Qed.

Lemma relinked_thd_trans x y z : relinked_thd x y → relinked_thd y z → relinked_thd x z.
Proof.
  unfold relinked_thd. intros Hy ->. rewrite !ll_next_next, !ll_prev_next, !ll_prev_prev.
  rewrite Hy. by rewrite ll_comm, ll_set_next, ll_set_prev.
Qed.

Lemma relinked_refl u : relinked u u.
Proof. split; [by destruct u|]. apply Forall2_same_length_lookup_2; [done|]. intros. simplify_eq. apply relinked_thd_refl. Qed.

Lemma relinked_trans u1 u2 u3 : relinked u1 u2 → relinked u2 u3 → relinked u1 u3.
Proof.
  intros [H1 F1] [H2 F2]. split; [rewrite H2, H1; done|].
  apply Forall2_same_length_lookup_2.
  { rewrite (Forall2_length _ _ _ F1). by eapply Forall2_length. }
  intros k x z Hx Hz. destruct (Forall2_lookup_l _ _ _ _ _ F1 Hx) as (y & Hy & Hxy).
  destruct (Forall2_lookup_l _ _ _ _ _ F2 Hy) as (z' & Hz' & Hyz). simplify_eq.
  by eapply relinked_thd_trans.
Qed.

Lemma relinked_lookup u u' k x :
  relinked u u' → us_nodes u !! k = Some x → ∃ x', us_nodes u' !! k = Some x' ∧ relinked_thd x x'.
Proof. intros [_ HF] Hx. by eapply Forall2_lookup_l. Qed.

Lemma relinked_length u u' : relinked u u' → length (us_nodes u') = length (us_nodes u).
Proof. intros [_ HF]. symmetry. by eapply Forall2_length. Qed.

Lemma set_next_run u k v :
  (k < length (us_nodes u))%nat →
  ∃ u', upd_node k (ln_set_next L v) u = Done tt u' ∧ relinked u u' ∧
    (∀ j, nx u' j = if decide (j = k) then v else nx u j) ∧ (∀ j, pv u' j = pv u j).
Proof.
  intros [x Hx]%lookup_lt_is_Some. eexists. split; [by apply upd_node_run|].
  split; [split; [done|]|split].
  - cbn. apply Forall2_same_length_lookup_2; [by rewrite length_insert|].
    intros j y z Hy Hz. destruct (decide (j = k)) as [->|].
    + rewrite list_lookup_insert_eq in Hz by (by eapply lookup_lt_Some). simplify_eq.
      unfold relinked_thd. rewrite ll_next_next, ll_prev_next.
      by rewrite <-(ll_id x) at 1; rewrite ll_set_next.
    + rewrite list_lookup_insert_ne in Hz by done. simplify_eq. apply relinked_thd_refl.
  - intros j. unfold nx. cbn. case_decide as Hj; [subst|by rewrite list_lookup_insert_ne].
    rewrite list_lookup_insert_eq by (by eapply lookup_lt_Some). cbn. apply ll_next_next.
  - intros j. unfold pv. cbn. destruct (decide (j = k)) as [->|]; [|by rewrite list_lookup_insert_ne].
    rewrite list_lookup_insert_eq, Hx by (by eapply lookup_lt_Some). cbn. apply ll_prev_next.
Qed.

Lemma set_prev_run u k v :
  (k < length (us_nodes u))%nat →
  ∃ u', upd_node k (ln_set_prev L v) u = Done tt u' ∧ relinked u u' ∧
    (∀ j, nx u' j = nx u j) ∧ (∀ j, pv u' j = if decide (j = k) then v else pv u j).
Proof.
  intros [x Hx]%lookup_lt_is_Some. eexists. split; [by apply upd_node_run|].
  split; [split; [done|]|split].
  - cbn. apply Forall2_same_length_lookup_2; [by rewrite length_insert|].
    intros j y z Hy Hz. destruct (decide (j = k)) as [->|].
    + rewrite list_lookup_insert_eq in Hz by (by eapply lookup_lt_Some). simplify_eq.
      unfold relinked_thd. rewrite ll_next_prev, ll_prev_prev, <-ll_comm.
      by rewrite <-(ll_id x) at 1; rewrite ll_comm, ll_set_prev, <-ll_comm, ?ll_set_prev.
    + rewrite list_lookup_insert_ne in Hz by done. simplify_eq. apply relinked_thd_refl.
  - intros j. unfold nx. cbn. destruct (decide (j = k)) as [->|]; [|by rewrite list_lookup_insert_ne].
    rewrite list_lookup_insert_eq, Hx by (by eapply lookup_lt_Some). cbn. apply ll_next_prev.
  - intros j. unfold pv. cbn. case_decide as Hj; [subst|by rewrite list_lookup_insert_ne].
    rewrite list_lookup_insert_eq by (by eapply lookup_lt_Some). cbn. apply ll_prev_prev.
Qed.

Lemma nx_lt u k n : nx u k = Some n → (k < length (us_nodes u))%nat.
Proof. unfold nx. destruct (us_nodes u !! k) eqn:Hk; [|done]. intros _. by eapply lookup_lt_Some. Qed.

Lemma links_node u k n p :
  nx u k = Some n → pv u k = Some p →
  ∃ x, us_nodes u !! k = Some x ∧ ln_next L x = Some n ∧ ln_prev L x = Some p.
Proof. unfold nx, pv. destruct (us_nodes u !! k) as [x|]; [|done]. cbn. by exists x. Qed.

Lemma first_list_run u k n : nx u k = Some n → FIRST_LIST L k u = Done n u.
Proof.
  unfold nx, FIRST_LIST. destruct (us_nodes u !! k) as [x|] eqn:Hk; [|done]. cbn. intros Hn.
  rewrite (bind_run _ _ _ _ _ (get_node_run _ _ _ Hk)). by rewrite Hn.
Qed.

Lemma last_list_run u k p : pv u k = Some p → LAST_LIST L k u = Done p u.
Proof.
  unfold pv, LAST_LIST. destruct (us_nodes u !! k) as [x|] eqn:Hk; [|done]. cbn. intros Hn.
  rewrite (bind_run _ _ _ _ _ (get_node_run _ _ _ Hk)). by rewrite Hn.
Qed.

Lemma empty_list_run u k n : nx u k = Some n → EMPTY_LIST L k u = Done (bool_decide (n = k)) u.
Proof.
  unfold nx, EMPTY_LIST. destruct (us_nodes u !! k) as [x|] eqn:Hk; [|done]. cbn. intros Hn.
  rewrite (bind_run _ _ _ _ _ (get_node_run _ _ _ Hk)). rewrite Hn. cbn.
  unfold mret, M_ret. f_equal. apply bool_decide_ext. naive_solver.
Qed.

(** Taking a node out of its list. *)
Lemma rem_list_run u t n p :
  nx u t = Some n → pv u t = Some p → (n < length (us_nodes u))%nat → (p < length (us_nodes u))%nat →
  ∃ u', REM_LIST L t u = Done tt u' ∧ relinked u u' ∧
    (∀ k, nx u' k = if decide (k = t) then Some t else if decide (k = p) then Some n else nx u k) ∧
    (∀ k, pv u' k = if decide (k = t) then Some t else if decide (k = n) then Some p else pv u k).
Proof.
  intros Hn Hp Hln Hlp. pose proof (nx_lt _ _ _ Hn) as Hlt. unfold REM_LIST.
  destruct (links_node u t n p) as (x & Hx & Hxn & Hxp); [done|done|].
  rewrite (bind_run _ _ _ _ _ (get_node_run _ _ _ Hx)), Hxn. erewrite bind_run by reflexivity. rewrite Hxp.
  destruct (set_prev_run u n (Some p) Hln) as (u1 & Hr1 & Hrel1 & Hn1 & Hp1).
  rewrite (bind_run _ _ _ _ _ Hr1). pose proof (relinked_length _ _ Hrel1) as Hl1.
  destruct (links_node u1 t n p) as (x1 & Hx1 & Hxn1 & Hxp1); [by rewrite Hn1| |].
  { rewrite Hp1. by case_decide. }
  rewrite (bind_run _ _ _ _ _ (get_node_run _ _ _ Hx1)), Hxp1. erewrite bind_run by reflexivity. rewrite Hxn1.
  destruct (set_next_run u1 p (Some n)) as (u2 & Hr2 & Hrel2 & Hn2 & Hp2); [lia|].
  rewrite (bind_run _ _ _ _ _ Hr2). pose proof (relinked_length _ _ Hrel2) as Hl2.
  destruct (set_prev_run u2 t (Some t)) as (u3 & Hr3 & Hrel3 & Hn3 & Hp3); [lia|].
  rewrite (bind_run _ _ _ _ _ Hr3). pose proof (relinked_length _ _ Hrel3) as Hl3.
  destruct (set_next_run u3 t (Some t)) as (u4 & Hr4 & Hrel4 & Hn4 & Hp4); [lia|].
  exists u4. split; [done|]. split.
  { do 3 (eapply relinked_trans; [done|]). done. }
  split; intros k; rewrite ?Hn4, ?Hn3, ?Hn2, ?Hn1, ?Hp4, ?Hp3, ?Hp2, ?Hp1; done.
Qed.

(** Putting a node, alone so far, behind the node [h]. *)
Lemma add_list_run u (head : M ustate nat) h t n :
  (∀ u', (∀ k, k ≠ t → pv u' k = pv u k) → head u' = Done h u') →
  h ≠ t → nx u h = Some n → n ≠ t → (n < length (us_nodes u))%nat → (t < length (us_nodes u))%nat →
  ∃ u', ADD_LIST L head t u = Done tt u' ∧ relinked u u' ∧
    (∀ k, nx u' k = if decide (k = h) then Some t else if decide (k = t) then Some n else nx u k) ∧
    (∀ k, pv u' k = if decide (k = n) then Some t else if decide (k = t) then Some h else pv u k).
Proof.
  intros Hh Hht Hn Hnt Hln Hlt. pose proof (nx_lt _ _ _ Hn) as Hlh. unfold ADD_LIST.
  rewrite (bind_run _ _ _ _ _ (Hh u ltac:(done))).
  destruct (lookup_lt_is_Some_2 _ _ Hlh) as [x Hx].
  rewrite (bind_run _ _ _ _ _ (get_node_run _ _ _ Hx)).
  assert (ln_next L x = Some n) as -> by (unfold nx in Hn; by rewrite Hx in Hn).
  destruct (set_next_run u t (Some n) Hlt) as (u1 & Hr1 & Hrel1 & Hn1 & Hp1).
  rewrite (bind_run _ _ _ _ _ Hr1). pose proof (relinked_length _ _ Hrel1) as Hl1.
  rewrite (bind_run _ _ _ _ _ (Hh u1 ltac:(intros; apply Hp1))).
  destruct (set_prev_run u1 t (Some h)) as (u2 & Hr2 & Hrel2 & Hn2 & Hp2); [lia|].
  rewrite (bind_run _ _ _ _ _ Hr2). pose proof (relinked_length _ _ Hrel2) as Hl2.
  assert (∀ k, k ≠ t → pv u2 k = pv u k) as Hp2' by (intros k Hk; by rewrite Hp2, decide_False, Hp1).
  rewrite (bind_run _ _ _ _ _ (Hh u2 Hp2')).
  destruct (set_next_run u2 h (Some t)) as (u3 & Hr3 & Hrel3 & Hn3 & Hp3); [lia|].
  rewrite (bind_run _ _ _ _ _ Hr3). pose proof (relinked_length _ _ Hrel3) as Hl3.
  rewrite (bind_run _ _ _ _ _ (first_list_run u3 t n ltac:(by rewrite Hn3, decide_False, Hn2, Hn1, decide_True))).
  destruct (set_prev_run u3 n (Some t)) as (u4 & Hr4 & Hrel4 & Hn4 & Hp4); [lia|].
  exists u4. split; [done|]. split; [do 3 (eapply relinked_trans; [done|]); done|].
  split; intros k; rewrite ?Hn4, ?Hn3, ?Hn2, ?Hn1, ?Hp4, ?Hp3, ?Hp2, ?Hp1; done.
Qed.

(** *** Lists as rings *)

Lemma ring_in u l k : ring (nx u) (pv u) l → k ∈ l →
  ∃ n p, nx u k = Some n ∧ pv u k = Some p ∧ n ∈ l ∧ p ∈ l.
Proof.
  intros Hr [l1 [l2 ->]]%list_elem_of_split. destruct (ring_links _ _ _ _ _ Hr) as [Hn Hp].
  destruct (nx u k) as [n|] eqn:En; [|by destruct l2, l1].
  destruct (pv u k) as [p|] eqn:Ep; [|symmetry in Hp; by apply last_None in Hp].
  exists n, p. do 2 (split; [done|]).
  assert (n ∈ l2 ++ l1 ++ [k]) by (apply head_Some_elem_of; done).
  assert (p ∈ k :: l2 ++ l1) by (apply last_Some_elem_of; done). set_solver.
Qed.

Lemma ring_lt u l k : ring (nx u) (pv u) l → k ∈ l → (k < length (us_nodes u))%nat.
Proof. intros Hr Hk. destruct (ring_in u l k Hr Hk) as (n & p & Hn & _). by eapply nx_lt. Qed.

Lemma rem_ring u t l1 l2 :
  ring (nx u) (pv u) (l1 ++ t :: l2) → NoDup (l1 ++ t :: l2) →
  ∃ u', REM_LIST L t u = Done tt u' ∧ relinked u u' ∧ ring (nx u') (pv u') (l1 ++ l2) ∧
    nx u' t = Some t ∧ pv u' t = Some t ∧
    (∀ k, k ∉ l1 ++ t :: l2 → nx u' k = nx u k ∧ pv u' k = pv u k).
Proof.
  intros Hr Hnd. set (l := l1 ++ t :: l2) in *.
  destruct (ring_in u l t Hr) as (n & p & Hn & Hp & Hnl & Hpl); [set_solver|].
  destruct (rem_list_run u t n p) as (u' & Hrun & Hrel & Hn' & Hp'); try done; [by eapply ring_lt..|].
  exists u'. split; [done|]. split; [done|]. split; [|split; [by rewrite Hn', decide_True|split;
    [by rewrite Hp', decide_True|]]].
  - destruct (ring_links _ _ _ _ _ Hr) as [HN HP]. rewrite Hn in HN. rewrite Hp in HP.
    assert (t ∉ l2 ++ l1) as Ht.
    { unfold l in Hnd. rewrite <-Permutation_middle in Hnd. apply NoDup_cons in Hnd as [Hnd _].
      set_solver. }
    apply (ring_remove (nx u) (pv u) _ _ l1 l2 t n p Hr Hnd Hn Hp).
    + intros Hne. assert (n ≠ t ∧ p ≠ t) as [Hnt Hpt].
      { destruct (l2 ++ l1) as [|b r] eqn:E.
        { exfalso. apply Hne. apply app_eq_nil in E as [-> ->]. done. }
        rewrite (assoc_L (++)), E in HN. cbn in HN. simplify_eq. split; [set_solver|].
        change (Some p = last (b :: r)) in HP. symmetry in HP.
        apply last_Some_elem_of in HP. by intros ->. }
      rewrite Hn', Hp', !(decide_False (P := _ = t)), !(decide_True (P := _ = _)) by done. done.
    + intros k Hk Hkp. by rewrite Hn', !decide_False.
    + intros k Hk Hkn. by rewrite Hp', !decide_False.
  - intros k Hk. rewrite Hn', Hp'.
    rewrite !decide_False by (intros ->; apply Hk; done || (unfold l; set_solver)). done.
Qed.

Lemma add_ring u where_ t l y a :
  ring (nx u) (pv u) l → NoDup l → t ∉ l → (t < length (us_nodes u))%nat →
  head l = Some a → last l = Some y →
  (∀ u', (∀ k, k ≠ t → pv u' k = pv u k) → where_ u' = Done y u') →
  ∃ u', ADD_LIST L where_ t u = Done tt u' ∧ relinked u u' ∧ ring (nx u') (pv u') (t :: l) ∧
    (∀ k, k ∉ t :: l → nx u' k = nx u k ∧ pv u' k = pv u k).
Proof.
  intros Hr Hnd Ht Hlt Ha Hy Hhead. destruct Hr as [Hc Hl]. destruct (Hl y a Hy Ha) as [Hny Hpa].
  assert (y ∈ l) by by apply last_Some_elem_of. assert (a ∈ l) by by apply head_Some_elem_of.
  assert (y ≠ t ∧ a ≠ t) as [Hyt Hat] by (split; intros ->; done).
  destruct (add_list_run u where_ y t a) as (u' & Hrun & Hrel & Hn' & Hp'); try done.
  { by apply (ring_lt u l). }
  exists u'. split; [done|]. split; [done|]. split.
  - apply (ring_push (nx u) (pv u) _ _ l t a y); try done.
    + by rewrite Hn', decide_False, decide_True.
    + by rewrite Hp', decide_False, decide_True.
    + by rewrite Hn', decide_True.
    + by rewrite Hp', decide_True.
    + intros k Hk Hky. rewrite Hn', !decide_False; [done|by intros ->|done].
    + intros k Hk Hka. rewrite Hp', !decide_False; [done|by intros ->|done].
  - intros k Hk. rewrite Hn', Hp'. rewrite !decide_False; [done|..]; intros ->; apply Hk; set_solver.
Qed.
End Links.

(** ** The queues of runnable threads *)

#[local] Abbreviation pnx := (nx prio_links).
#[local] Abbreviation ppv := (pv prio_links).

(** The node of a thread of priority [p]. *)
Definition thd_ok (u : ustate) (p : Z) (t : nat) : Prop :=
  (35 ≤ t)%nat ∧ ∃ x, us_nodes u !! t = Some x ∧ sched_thd_free x = false ∧
    sm_priority (st_metric x) = p.

(** [q p] is the queue of the threads of priority [p]. *)
Record rq_rings (u : ustate) (q : Z → list nat) : Prop := {
  rq_ring p : 0 ≤ p < 32 → ring (pnx u) (ppv u) (head_of p :: q p);
  rq_nodup p : 0 ≤ p < 32 → NoDup (q p);
  rq_thd p t : 0 ≤ p < 32 → t ∈ q p → thd_ok u p t;
}.

(** The mask has the priorities whose queue is not empty. *)
Definition rq_mask (u : ustate) (q : Z → list nat) : Prop :=
  0 ≤ us_active u < 2 ^ 32 ∧
  ∀ p, 0 ≤ p < 32 → Z.testbit (us_active u) p = bool_decide (q p ≠ []).

Definition rq_ready (u : ustate) (q : Z → list nat) : Prop :=
  ∀ p t x, 0 ≤ p < 32 → t ∈ q p → us_nodes u !! t = Some x →
    sched_thd_ready x = true ∧ sched_thd_suspended x = false.

Definition rq_ok (u : ustate) (q : Z → list nat) : Prop :=
  rq_rings u q ∧ rq_mask u q ∧ rq_ready u q.

(** A thread on no list. *)
Definition alone (u : ustate) (t : nat) : Prop := pnx u t = Some t ∧ ppv u t = Some t.

(** Links of nodes outside of [S] are the same. *)
Definition framed (S : list nat) (u u' : ustate) : Prop :=
  ∀ k, k ∉ S → pnx u' k = pnx u k ∧ ppv u' k = ppv u k.

Lemma framed_trans S u1 u2 u3 : framed S u1 u2 → framed S u2 u3 → framed S u1 u3.
Proof. intros H1 H2 k Hk. destruct (H1 k Hk) as [<- <-]. by apply H2. Qed.

Lemma framed_sub S S' u u' : framed S u u' → S ⊆ S' → framed S' u u'.
Proof. intros H Hs k Hk. apply H. set_solver. Qed.

Definition qset (p : Z) (l : list nat) (q : Z → list nat) : Z → list nat :=
  λ p', if decide (p' = p) then l else q p'.

Lemma qset_eq p l q : qset p l q p = l.
Proof. unfold qset. by rewrite decide_True. Qed.
Lemma qset_ne p l q p' : p' ≠ p → qset p l q p' = q p'.
Proof. intros. unfold qset. by rewrite decide_False. Qed.

(** The queues are compared at each priority. *)
Lemma qset_qset p a b q : pointwise_relation Z eq (qset p a (qset p b q)) (qset p a q).
Proof. intros p'. unfold qset. by case_decide. Qed.
Lemma qset_id p q : pointwise_relation Z eq (qset p (q p) q) q.
Proof. intros p'. unfold qset. by case_decide; subst. Qed.

#[export] Instance rq_rings_proper u : Proper (pointwise_relation Z eq ==> iff) (rq_rings u).
Proof.
  assert (∀ q q', pointwise_relation Z eq q q' → rq_rings u q → rq_rings u q') as Himp.
  { intros q q' Heq [H1 H2 H3]. split; intros p; rewrite <-(Heq p); eauto. }
  intros q q' Heq. split; apply Himp; [done|]. intros p. by rewrite Heq.
Qed.
#[export] Instance rq_mask_proper u : Proper (pointwise_relation Z eq ==> iff) (rq_mask u).
Proof.
  intros q q' Heq. unfold rq_mask. split; intros [Ha Hb]; (split; [done|]); intros p Hp;
    rewrite Hb by done; apply bool_decide_ext; by rewrite (Heq p).
Qed.
#[export] Instance rq_ready_proper u : Proper (pointwise_relation Z eq ==> iff) (rq_ready u).
Proof.
  intros q q' Heq. unfold rq_ready. split; intros Hr p t x Hp Ht; apply (Hr p t x Hp);
    [by rewrite (Heq p)|by rewrite <-(Heq p)].
Qed.
#[export] Instance rq_ok_proper u : Proper (pointwise_relation Z eq ==> iff) (rq_ok u).
Proof. intros q q' Heq. unfold rq_ok. by rewrite Heq. Qed.

(** Only the links of priorities and the mask were changed. *)
Definition moved (u u' : ustate) : Prop := relinked prio_links u (set_us_active (us_active u) u').

Lemma relinked_thd_fields x x' : relinked_thd prio_links x x' →
  st_flags x' = st_flags x ∧ st_metric x' = st_metric x ∧ st_accounting x' = st_accounting x.
Proof. intros ->. by destruct x. Qed.

Lemma thd_ok_relinked u u' p t : relinked prio_links u u' → thd_ok u p t → thd_ok u' p t.
Proof.
  intros Hrel [Ht (x & Hx & Hf & Hp)]. split; [done|].
  destruct (relinked_lookup _ _ _ _ _ Hrel Hx) as (x' & Hx' & Hxx).
  apply relinked_thd_fields in Hxx as (Hfl & Hm & _). exists x'.
  unfold sched_thd_free. rewrite Hfl, Hm. done.
Qed.

Lemma thd_ok_inj u p p' t : thd_ok u p t → thd_ok u p' t → p = p'.
Proof. intros [_ (x & Hx & _ & <-)] [_ (y & Hy & _ & <-)]. by simplify_eq. Qed.

Lemma head_of_lt p : 0 ≤ p < 32 → (head_of p < 35)%nat.
Proof. unfold head_of. lia. Qed.

Lemma rq_disjoint u q p p' k : rq_rings u q → 0 ≤ p < 32 → 0 ≤ p' < 32 → p ≠ p' →
  k ∈ head_of p' :: q p' → k ∉ head_of p :: q p.
Proof.
  intros Hq Hp Hp' Hne. rewrite !elem_of_cons.
  assert (∀ a b, 0 ≤ a < 32 → 0 ≤ b < 32 → head_of a ∉ q b) as Hd.
  { intros a b Ha Hb Hin. destruct (rq_thd _ _ Hq b _ Hb Hin) as [? _].
    pose proof (head_of_lt a Ha). lia. }
  intros [->|Hk] [Hh|Hk'].
  - unfold head_of in Hh. lia.
  - exact (Hd p' p Hp' Hp Hk').
  - subst k. exact (Hd p p' Hp Hp' Hk).
  - apply Hne. eapply thd_ok_inj; eapply rq_thd; done.
Qed.

(** Replacing one queue. *)
Lemma rings_set u u' q p l t : rq_rings u q → 0 ≤ p < 32 → relinked prio_links u u' →
  thd_ok u p t → (∀ k, k ∈ l → k = t ∨ k ∈ q p) → NoDup l →
  ring (pnx u') (ppv u') (head_of p :: l) →
  (∀ k, k ∉ t :: head_of p :: q p → pnx u' k = pnx u k ∧ ppv u' k = ppv u k) →
  rq_rings u' (qset p l q).
Proof.
  intros Hq Hp Hrel Ht Hl Hnd Hr Hout. split.
  - intros p' Hp'. destruct (decide (p' = p)) as [->|Hne]; [by rewrite qset_eq|].
    rewrite qset_ne by done. apply (ring_ext (pnx u) (ppv u)); [by apply rq_ring|].
    intros k Hk. apply Hout. rewrite elem_of_cons. intros [->|Hin].
    + apply elem_of_cons in Hk as [->|Hk].
      * destruct Ht as [Ht _]. pose proof (head_of_lt p' Hp'). lia.
      * apply Hne. eapply (thd_ok_inj u); [by eapply rq_thd|done].
    + by eapply (rq_disjoint u q p p').
  - intros p' Hp'. destruct (decide (p' = p)) as [->|Hne]; [by rewrite qset_eq|].
    rewrite qset_ne by done. by eapply rq_nodup.
  - intros p' k Hp' Hk. apply (thd_ok_relinked u); [done|].
    destruct (decide (p' = p)) as [->|Hne].
    + rewrite qset_eq in Hk. destruct (Hl k Hk) as [->|]; [done|by eapply rq_thd].
    + rewrite qset_ne in Hk by done. by eapply rq_thd.
Qed.

(** *** Taking threads out and putting them in *)

Lemma rem_rings u q p t l1 l2 : rq_rings u q → 0 ≤ p < 32 → q p = l1 ++ t :: l2 →
  ∃ u', REM_LIST prio_links t u = Done tt u' ∧ relinked prio_links u u' ∧
    rq_rings u' (qset p (l1 ++ l2) q) ∧ alone u' t ∧ framed (t :: head_of p :: q p) u u'.
Proof.
  intros Hq Hp Ht. pose proof (rq_ring _ _ Hq p Hp) as Hr. pose proof (rq_nodup _ _ Hq p Hp) as Hnd.
  assert (thd_ok u p t) as Hok by (apply (rq_thd _ _ Hq); [done|rewrite Ht; set_solver]).
  assert (head_of p ∉ q p) as Hh.
  { intros Hin. destruct (rq_thd _ _ Hq p _ Hp Hin) as [? _]. pose proof (head_of_lt p Hp). lia. }
  rewrite Ht in *. destruct (rem_ring prio_links u t (head_of p :: l1) l2) as
    (u' & Hrun & Hrel & Hr' & Hn & Hv & Hout); [done|by apply NoDup_cons|].
  assert (framed (t :: head_of p :: q p) u u') as Hfr.
  { intros k Hk. apply Hout. rewrite Ht in Hk. set_solver. }
  rewrite Ht in Hfr. exists u'. do 2 (split; [done|]). split; [|done].
  apply (rings_set u u' q p _ t); try done.
  - rewrite Ht. set_solver.
  - rewrite <-Permutation_middle in Hnd. by apply NoDup_cons in Hnd as [_ Hnd].
  - by rewrite Ht.
Qed.

Lemma rem_alone u q t : rq_rings u q → alone u t →
  ∃ u', REM_LIST prio_links t u = Done tt u' ∧ relinked prio_links u u' ∧
    rq_rings u' q ∧ alone u' t ∧ framed [] u u'.
Proof.
  intros Hq [Hn Hv]. pose proof (nx_lt _ _ _ _ Hn) as Hlt.
  destruct (rem_list_run prio_links u t t t) as (u' & Hrun & Hrel & Hn' & Hv'); try done.
  assert (∀ k, pnx u' k = pnx u k ∧ ppv u' k = ppv u k) as Hsame.
  { intros k. rewrite Hn', Hv'. by repeat case_decide; subst. }
  exists u'. do 2 (split; [done|]).
  split; [|split; [by destruct (Hsame t) as [H1 H2]; unfold alone; rewrite H1, H2|by intros k _]].
  split; [|apply (rq_nodup _ _ Hq)|].
  - intros p Hp. eapply ring_ext; [by apply (rq_ring _ _ Hq)|done].
  - intros p k Hp Hk. apply (thd_ok_relinked u); [done|]. by apply (rq_thd _ _ Hq).
Qed.

(** The fields of a node that moving it keeps. *)
Lemma add_rings u q p t where_ l y l' : rq_rings u q → 0 ≤ p < 32 → thd_ok u p t → t ∉ q p →
  l ≡ₚ head_of p :: q p → ring (pnx u) (ppv u) l → last l = Some y →
  (∀ u', (∀ k, k ≠ t → ppv u' k = ppv u k) → where_ u' = Done y u') →
  (∀ nx pv, ring nx pv (t :: l) → ring nx pv (head_of p :: l')) → l' ≡ₚ t :: q p →
  ∃ u', ADD_LIST prio_links where_ t u = Done tt u' ∧ relinked prio_links u u' ∧
    rq_rings u' (qset p l' q) ∧ framed (t :: head_of p :: q p) u u'.
Proof.
  intros Hq Hp Hok Ht Hl Hr Hy Hw Hrot Hl'.
  assert (head_of p ∉ t :: q p) as Hh.
  { rewrite elem_of_cons. intros [Hh|Hin]; pose proof (head_of_lt p Hp).
    - destruct Hok. lia.
    - destruct (rq_thd _ _ Hq p _ Hp Hin) as [? _]. lia. }
  pose proof (rq_nodup _ _ Hq p Hp) as Hnd.
  destruct l as [|a l]; [by destruct (Permutation_nil_cons Hl)|].
  destruct (add_ring prio_links u where_ t (a :: l) y a) as (u' & Hrun & Hrel & Hr' & Hout); try done.
  - rewrite Hl. apply NoDup_cons. split; [set_solver|done].
  - rewrite Hl. set_solver.
  - destruct Hok as [_ (x & Hx & _)]. by eapply lookup_lt_Some.
  - assert (framed (t :: head_of p :: q p) u u') as Hfr by (intros k Hk; apply Hout; by rewrite Hl).
    exists u'. do 2 (split; [done|]). split; [|done]. apply (rings_set u u' q p _ t); try done.
    + intros k. rewrite Hl'. set_solver.
    + rewrite Hl'. by apply NoDup_cons.
    + by apply Hrot.
Qed.

Lemma add_start_rings u q p t : rq_rings u q → 0 ≤ p < 32 → thd_ok u p t → t ∉ q p →
  ∃ u', ADD_LIST prio_links (mret (head_of p)) t u = Done tt u' ∧ relinked prio_links u u' ∧
    rq_rings u' (qset p (t :: q p) q) ∧ framed (t :: head_of p :: q p) u u'.
Proof.
  intros Hq Hp Hok Ht. eapply (add_rings u q p t _ (q p ++ [head_of p]) (head_of p)); try done.
  - by rewrite Permutation_app_comm.
  - apply (ring_rotate _ _ [head_of p]). by apply (rq_ring _ _ Hq).
  - by rewrite last_snoc.
  - intros nx' pv' Hr. by apply (ring_rotate _ _ (t :: q p) [head_of p]).
Qed.

Lemma add_end_rings u q p t : rq_rings u q → 0 ≤ p < 32 → thd_ok u p t → t ∉ q p →
  ∃ u', ADD_LIST prio_links (LAST_LIST prio_links (head_of p)) t u = Done tt u' ∧
    relinked prio_links u u' ∧ rq_rings u' (qset p (q p ++ [t]) q) ∧
    framed (t :: head_of p :: q p) u u'.
Proof.
  intros Hq Hp Hok Ht. pose proof (rq_ring _ _ Hq p Hp) as Hr.
  destruct (last (head_of p :: q p)) as [y|] eqn:Hy; [|by apply last_None in Hy].
  eapply (add_rings u q p t _ (head_of p :: q p) y); try done.
  - intros u' Hu. apply last_list_run. rewrite Hu.
    + destruct Hr as [_ Hl]. by apply (Hl y (head_of p)).
    + destruct Hok as [? _]. pose proof (head_of_lt p Hp). lia.
  - intros nx' pv' Hr'. by apply (ring_rotate _ _ [t] (head_of p :: q p)).
  - by rewrite Permutation_app_comm.
Qed.

(** *** The mask *)

Lemma bit_of p : 0 ≤ p < 32 → u32 (Z.shiftl 1 p) = 2 ^ p.
Proof.
  intros Hp. rewrite Z.shiftl_1_l. apply u32_id. split; [lia|].
  apply Z.pow_lt_mono_r; lia.
Qed.

Lemma mask_range m : 0 ≤ m → (∀ i, 32 ≤ i → Z.testbit m i = false) → m < 2 ^ 32.
Proof.
  intros Hm Hb. destruct (decide (m = 0)) as [->|]; [lia|]. apply Z.log2_lt_pow2; [lia|].
  destruct (decide (Z.log2 m < 32)); [done|]. specialize (Hb (Z.log2 m) ltac:(lia)).
  rewrite Z.bit_log2 in Hb; [done|lia].
Qed.

Lemma mask_set_ok u q p l : 0 ≤ p < 32 → rq_mask u q → l ≠ [] →
  ∃ a, mask_set p u = Done tt (set_us_active a u) ∧ rq_mask (set_us_active a u) (qset p l q).
Proof.
  intros Hp [Ha Hb] Hl. eexists. split; [reflexivity|]. rewrite bit_of by done. split.
  - cbn. assert (0 ≤ Z.lor (us_active u) (2 ^ p)) by (apply Z.lor_nonneg; lia). split; [done|].
    apply mask_range; [done|]. intros i Hi. rewrite Z.lor_spec, Z.pow2_bits_eqb by lia.
    rewrite (proj2 (Z.eqb_neq p i)), orb_false_r by lia. apply Z.bits_above_log2; [lia|].
    destruct (decide (us_active u = 0)) as [->|]; [cbn; lia|]. apply Z.log2_lt_pow2; [lia|].
    assert (2 ^ 32 ≤ 2 ^ i) by (apply Z.pow_le_mono_r; lia). lia.
  - intros p' Hp'. cbn. rewrite Z.lor_spec, Z.pow2_bits_eqb by lia.
    destruct (decide (p' = p)) as [->|Hne].
    + by rewrite qset_eq, Z.eqb_refl, orb_true_r, bool_decide_true.
    + rewrite qset_ne by done. rewrite (proj2 (Z.eqb_neq p p')), orb_false_r by done. by apply Hb.
Qed.

Lemma unset_bit a p i : 0 ≤ p < 32 → 0 ≤ i < 32 →
  Z.testbit (Z.land a (u32 (Z.lnot (u32 (Z.shiftl 1 p))))) i = Z.testbit a i && negb (p =? i).
Proof.
  intros Hp Hi. rewrite bit_of by done. unfold u32. rewrite Z.land_spec.
  rewrite Z.mod_pow2_bits_low by lia. by rewrite Z.lnot_spec, Z.pow2_bits_eqb by lia.
Qed.

Lemma unset_range a p : 0 ≤ a < 2 ^ 32 → 0 ≤ Z.land a p < 2 ^ 32.
Proof.
  intros Ha. assert (0 ≤ Z.land a p) by (apply Z.land_nonneg; lia). split; [done|].
  apply mask_range; [done|]. intros i Hi. rewrite Z.land_spec, Z.bits_above_log2; [done|lia|].
  destruct (decide (a = 0)) as [->|]; [cbn; lia|]. apply Z.log2_lt_pow2; [lia|].
  assert (2 ^ 32 ≤ 2 ^ i) by (apply Z.pow_le_mono_r; lia). lia.
Qed.

Lemma mask_unset_ok u q p : 0 ≤ p < 32 → rq_mask u q →
  ∃ a, mask_unset p u = Done tt (set_us_active a u) ∧ rq_mask (set_us_active a u) (qset p [] q).
Proof.
  intros Hp [Ha Hb]. eexists. split; [reflexivity|]. split; [by apply unset_range|].
  intros p' Hp'. cbn [us_active set_us_active]. rewrite unset_bit by done.
  destruct (decide (p' = p)) as [->|Hne].
  - by rewrite qset_eq, Z.eqb_refl, andb_false_r.
  - rewrite qset_ne by done. rewrite (proj2 (Z.eqb_neq p p')), andb_true_r by done. by apply Hb.
Qed.

(** The lowest bit. *)
Lemma lowest_bit v p : 0 ≤ p < 32 → 0 ≤ v < 2 ^ 32 → Z.testbit v p = true →
  (∀ i, 0 ≤ i < p → Z.testbit v i = false) → Z.land v (u32 (- v)) = 2 ^ p.
Proof.
  intros Hp Hv Hb Hlow.
  set (k := Z.shiftr v (p + 1)).
  assert (v = Z.shiftl (2 * k + 1) p) as Hk.
  { apply Z.bits_inj'. intros i Hi. rewrite Z.shiftl_spec by done.
    destruct (decide (i < p)). { rewrite Hlow by lia. by rewrite Z.testbit_neg_r by lia. }
    destruct (decide (i = p)) as [->|]. { by rewrite Z.sub_diag, Z.testbit_odd_0, Hb. }
    replace (i - p) with (Z.succ (i - p - 1)) by lia. rewrite Z.testbit_odd_succ by lia.
    unfold k. rewrite Z.shiftr_spec by lia. f_equal. lia. }
  apply Z.bits_inj'. intros i Hi. rewrite Z.land_spec, Z.pow2_bits_eqb by lia.
  destruct (decide (i < 32)).
  2:{ rewrite (proj2 (Z.eqb_neq p i)) by lia. unfold u32. by rewrite Z.mod_pow2_bits_high, andb_false_r by lia. }
  unfold u32. rewrite Z.mod_pow2_bits_low by lia.
  destruct (Z.eqb_spec p i) as [->|Hne].
  { rewrite Hb. assert (- v = Z.shiftl (2 * (- k - 1) + 1) i) as ->.
    { rewrite Hk at 1. rewrite !Z.shiftl_mul_pow2 by lia. lia. }
    by rewrite Z.shiftl_spec, Z.sub_diag, Z.testbit_odd_0 by lia. }
  destruct (decide (i < p)); [by rewrite Hlow by lia|].
  assert (- v = Z.shiftl (2 * Z.lnot k + 1) p) as ->.
  { rewrite Hk at 1. rewrite !Z.shiftl_mul_pow2 by lia. unfold Z.lnot. lia. }
  rewrite Hk, !Z.shiftl_spec by lia. replace (i - p) with (Z.succ (i - p - 1)) by lia.
  rewrite !Z.testbit_odd_succ, Z.lnot_spec by lia. by rewrite andb_negb_r.
Qed.

Lemma high_loop_run u n : ∀ fuel r, (n < fuel)%nat → 0 ≤ r → r + Z.of_nat n < 2 ^ 16 →
  high_loop fuel (2 ^ Z.of_nat n) r u = Done (r + Z.of_nat n) u.
Proof.
  induction n as [|n IH]; intros [|fuel] r Hf Hr Hn; try lia.
  - cbn. by rewrite Z.add_0_r.
  - cbn [high_loop].
    assert (1 < 2 ^ Z.of_nat (S n)) by (apply Z.pow_gt_1; lia).
    rewrite (proj2 (Z.eqb_neq _ _)) by lia.
    assert (Z.shiftr (2 ^ Z.of_nat (S n)) 1 = 2 ^ Z.of_nat n) as ->.
    { rewrite Z.shiftr_div_pow2, Nat2Z.inj_succ, Z.pow_succ_r, Z.mul_comm by lia.
      apply Z.div_mul. lia. }
    unfold u16. rewrite (Z.mod_small (r + 1)) by lia. rewrite IH by lia. f_equal. lia.
Qed.

(** [mask_high] finds the highest priority that has threads. *)
Lemma mask_high_run u q p : rq_mask u q → 0 ≤ p < 32 → q p ≠ [] →
  (∀ p', 0 ≤ p' < p → q p' = []) → mask_high u = Done p u.
Proof.
  intros [Ha Hb] Hp Hne Hlow. unfold mask_high. erewrite bind_run by reflexivity.
  rewrite (lowest_bit _ p Hp Ha).
  - rewrite <-(Z2Nat.id p) at 1 by lia. rewrite high_loop_run by lia. f_equal. lia.
  - rewrite Hb by done. by apply bool_decide_eq_true.
  - intros i Hi. rewrite Hb by lia. apply bool_decide_eq_false. rewrite Hlow by done. naive_solver.
Qed.

Lemma mask_same u q p l : rq_mask u q → q p ≠ [] → l ≠ [] → rq_mask u (qset p l q).
Proof.
  intros [Ha Hb] Hq Hl. split; [done|]. intros p' Hp'. rewrite Hb by done.
  destruct (decide (p' = p)) as [->|]; [|by rewrite qset_ne]. rewrite qset_eq.
  by rewrite !bool_decide_true.
Qed.

Lemma mask_relinked u u' q : relinked prio_links u u' → rq_mask u q → rq_mask u' q.
Proof. intros [-> _]. done. Qed.

(** *** Operations *)

Lemma rings_active u q a : rq_rings u q → rq_rings (set_us_active a u) q.
Proof. by intros [H1 H2 H3]; split. Qed.

Lemma moved_refl u : moved u u.
Proof. unfold moved. destruct u. exact (relinked_refl prio_links _). Qed.

Lemma moved_relinked u u' a : relinked prio_links u u' → moved u (set_us_active a u').
Proof.
  intros Hr. unfold moved. replace (set_us_active _ _) with u'; [done|].
  destruct Hr as [-> _]. by destruct u.
Qed.

Lemma moved_active u u' a : relinked prio_links (set_us_active a u) u' → moved u u'.
Proof.
  intros [Hr HF]. split; [|done].
  transitivity (set_us_active (us_active u) (set_us_nodes (us_nodes u') (set_us_active a u)));
    [by rewrite <-Hr|by destruct u].
Qed.

Lemma moved_trans u1 u2 u3 : moved u1 u2 → moved u2 u3 → moved u1 u3.
Proof.
  unfold moved. intros H1 H2. refine (relinked_trans prio_links _ _ _ H1 _).
  destruct H2 as [H2 F2]. split; [|done].
  transitivity (set_us_active (us_active u1) (set_us_active (us_active u2) u3)); [done|].
  by rewrite H2.
Qed.

Lemma moved_node u u' t x : moved u u' → us_nodes u !! t = Some x →
  ∃ x', us_nodes u' !! t = Some x' ∧
    st_flags x' = st_flags x ∧ st_metric x' = st_metric x ∧ st_accounting x' = st_accounting x.
Proof.
  intros Hm Hx. destruct (relinked_lookup _ _ _ _ _ Hm Hx) as (x' & Hx' & Hxx).
  exists x'. split; [done|]. by apply relinked_thd_fields.
Qed.

Lemma moved_length u u' : moved u u' → length (us_nodes u') = length (us_nodes u).
Proof. intros Hm. exact (relinked_length _ _ _ Hm). Qed.

Lemma moved_back u u' t x' : moved u u' → us_nodes u' !! t = Some x' →
  ∃ x, us_nodes u !! t = Some x ∧
    st_flags x' = st_flags x ∧ st_metric x' = st_metric x ∧ st_accounting x' = st_accounting x.
Proof.
  intros Hm Hx'. destruct (lookup_lt_is_Some_2 (us_nodes u) t) as [x Hx].
  { rewrite <-(moved_length _ _ Hm). by eapply lookup_lt_Some. }
  destruct (moved_node _ _ _ _ Hm Hx) as (y & Hy & Hf). simplify_eq. by exists x.
Qed.

Lemma ready_moved u u' q q' : moved u u' → rq_ready u q →
  (∀ p t, 0 ≤ p < 32 → t ∈ q' p → t ∈ q p) → rq_ready u' q'.
Proof.
  intros Hm Hr Hsub p t x' Hp Ht Hx'. destruct (moved_back _ _ _ _ Hm Hx') as (x & Hx & Hf & _).
  destruct (Hr p t x Hp (Hsub p t Hp Ht) Hx) as [H1 H2].
  unfold sched_thd_ready, sched_thd_blocked, sched_thd_inactive_evt, sched_thd_dying,
    sched_thd_suspended in *. by rewrite Hf.
Qed.

Lemma get_metric_run u t x : us_nodes u !! t = Some x → sched_thd_free x = false →
  sched_get_metric t u = Done (st_metric x) u.
Proof.
  intros Hx Hf. unfold sched_get_metric. rewrite (bind_run _ _ _ _ _ (get_node_run _ _ _ Hx)).
  by rewrite Hf.
Qed.

Lemma runnable_run u p : 0 ≤ p < 32 → runnable p u = Done (head_of p) u.
Proof. intros Hp. unfold runnable. by rewrite (proj2 (Z.ltb_lt p (Z.of_nat NUM_PRIOS))) by (unfold NUM_PRIOS; lia). Qed.


(** The neighbours of a thread in its queue. *)
Lemma queued_links u q p t l1 l2 : rq_rings u q → 0 ≤ p < 32 → q p = l1 ++ t :: l2 →
  ∃ x n v, us_nodes u !! t = Some x ∧ sched_thd_free x = false ∧ sm_priority (st_metric x) = p ∧
    pnx u t = Some n ∧ st_prio_next x = Some n ∧ st_prio_prev x = Some v ∧ n ≠ t ∧
    (n = v ↔ l1 ++ l2 = []).
Proof.
  intros Hq Hp Ht. assert (thd_ok u p t) as [Htl (x & Hx & Hf & Hpr)].
  { apply (rq_thd _ _ Hq); [done|rewrite Ht; set_solver]. }
  pose proof (rq_ring _ _ Hq p Hp) as Hr. rewrite Ht in Hr.
  assert (NoDup (head_of p :: l1 ++ t :: l2)) as Hnd.
  { apply NoDup_cons. rewrite <-Ht. split; [|by apply (rq_nodup _ _ Hq)]. intros Hin.
    destruct (rq_thd _ _ Hq p _ Hp Hin) as [? _]. pose proof (head_of_lt p Hp). lia. }
  destruct (ring_in prio_links u _ t Hr) as (n & v & Hn & Hv & _); [set_solver|].
  destruct (links_node prio_links u t n v Hn Hv) as (x' & Hx' & Hnx & Hpv). simplify_eq.
  pose proof (ring_neighbours _ _ (head_of (sm_priority (st_metric x)) :: l1) l2 t Hr Hnd ltac:(done)) as Hone.
  cbn in Hone. rewrite Hn, Hv in Hone.
  exists x, n, v. do 6 (split; [done|]). split.
  - intros ->. destruct (ring_links _ _ (head_of (sm_priority (st_metric x)) :: l1) l2 t Hr) as [Hn' _].
    rewrite Hn in Hn'. apply (NoDup_app (_ :: l1)) in Hnd as (_ & Hdis & Hnd).
    apply NoDup_cons in Hnd as [Hnd _]. destruct l2; cbn in Hn'; simplify_eq; set_solver.
  - split.
    + intros ->. apply length_zero_iff_nil. destruct Hone as [Hone _]. specialize (Hone eq_refl). lia.
    + intros Hnil. rewrite Hnil in Hone. destruct Hone as [_ Hone]. by specialize (Hone eq_refl) as [=].
Qed.

Lemma fp_rem_thd_run u q p t l1 l2 : rq_rings u q → rq_mask u q → 0 ≤ p < 32 →
  q p = l1 ++ t :: l2 →
  ∃ u', fp_rem_thd t u = Done tt u' ∧ moved u u' ∧
    rq_rings u' (qset p (l1 ++ l2) q) ∧ rq_mask u' (qset p (l1 ++ l2) q) ∧ alone u' t ∧
    framed (t :: head_of p :: q p) u u'.
Proof.
  intros Hq Hm Hp Ht.
  destruct (queued_links u q p t l1 l2 Hq Hp Ht) as (x & n & v & Hx & Hf & <- & Hn & Hnx & Hpv & Hnt & Hone).
  set (p := sm_priority (st_metric x)) in *.
  unfold fp_rem_thd. rewrite (bind_run _ _ _ _ _ (get_metric_run _ _ _ Hx Hf)).
  rewrite (bind_run _ _ _ _ _ (empty_list_run prio_links u t n Hn)).
  rewrite (bind_run _ _ _ _ _ (get_node_run _ _ _ Hx)).
  rewrite (bool_decide_false (n = t)) by done. cbn [negb andb]. rewrite Hnx, Hpv. fold p.
  assert (∃ a, when (bool_decide (Some n = Some v)) (mask_unset p) u = Done tt (set_us_active a u) ∧
    rq_mask (set_us_active a u) (qset p (l1 ++ l2) q)) as (a & Hrun & Hm').
  { destruct (decide (n = v)) as [->|Hnv].
    - rewrite bool_decide_true by done. rewrite (proj1 Hone eq_refl). by apply mask_unset_ok.
    - rewrite bool_decide_false by congruence. exists (us_active u).
      replace (set_us_active (us_active u) u) with u by by destruct u. split; [done|].
      apply mask_same; [done|by rewrite Ht; destruct l1|]. by intros ?%Hone. }
  rewrite (bind_run _ _ _ _ _ Hrun).
  destruct (rem_rings (set_us_active a u) q p t l1 l2) as (u' & Hrun' & Hrel & Hq' & Hal & Hfr);
    [by apply rings_active|done|done|].
  exists u'. split; [done|]. split; [by eapply moved_active|]. split; [done|].
  split; [by eapply mask_relinked|done].
Qed.

(** Moving a thread to the end of its queue; it is in the queue or on no list. *)
Lemma fp_move_end_run u q p t x l : rq_rings u q → rq_mask u q → 0 ≤ p < 32 →
  thd_ok u p t → us_nodes u !! t = Some x →
  sched_thd_ready x = true → sched_thd_suspended x = false →
  ((∃ l1 l2, q p = l1 ++ t :: l2 ∧ l = l1 ++ l2) ∨ (alone u t ∧ l = q p ∧ t ∉ q p)) →
  ∃ u', fp_move_end_runnable t u = Done tt u' ∧ moved u u' ∧
    rq_rings u' (qset p (l ++ [t]) q) ∧ rq_mask u' (qset p (l ++ [t]) q) ∧
    framed (t :: head_of p :: q p) u u'.
Proof.
  intros Hq Hm Hp Hok Hx Hrd Hsu Hl.
  assert (∃ u1, REM_LIST prio_links t u = Done tt u1 ∧ relinked prio_links u u1 ∧
    rq_rings u1 (qset p l q) ∧ (t ∉ l) ∧ (∀ k, k ∈ l → k ∈ q p) ∧
    framed (t :: head_of p :: q p) u u1) as (u1 & Hrun & Hrel & Hq1 & Hnt & Hsub & Hfr1).
  { destruct Hl as [(l1 & l2 & Hl & ->)|(Hal & -> & Hnt)].
    - destruct (rem_rings u q p t l1 l2) as (u1 & ? & ? & ? & _ & ?); try done. exists u1.
      do 3 (split; [done|]). split; [|split; [rewrite Hl; set_solver|done]]. pose proof (rq_nodup _ _ Hq p Hp) as Hnd. rewrite Hl in Hnd.
      rewrite <-Permutation_middle in Hnd. by apply NoDup_cons in Hnd as [? _].
    - destruct (rem_alone u q t) as (u1 & ? & ? & ? & _ & Hfr); try done. exists u1.
      rewrite qset_id. do 4 (split; [done|]). split; [done|]. eapply framed_sub; [done|set_solver]. }
  destruct (add_end_rings u1 (qset p l q) p t) as (u2 & Hrun2 & Hrel2 & Hq2 & Hfr2); try done.
  { by apply (thd_ok_relinked u). }
  { by rewrite qset_eq. }
  rewrite qset_eq, qset_qset in Hq2. rewrite qset_eq in Hfr2.
  destruct (mask_set_ok u2 q p (l ++ [t]) Hp) as (a & Hrun3 & Hm3).
  { do 2 (eapply mask_relinked; [done|]). done. }
  { by destruct l. }
  destruct Hok as [Htl (y & Hy & Hf & Hpr)]. assert (y = x) as -> by congruence.
  exists (set_us_active a u2). split; [|split; [|split; [|split; [done|]]]].
  - unfold fp_move_end_runnable. rewrite (bind_run _ _ _ _ _ (get_metric_run _ _ _ Hx Hf)).
    rewrite (bind_run _ _ _ _ _ (get_node_run _ _ _ Hx)), Hrd, Hsu.
    erewrite !(bind_run (assert _)) by reflexivity.
    rewrite Hpr, (bind_run _ _ _ _ _ (runnable_run _ _ Hp)), (bind_run _ _ _ _ _ Hrun).
    by rewrite (bind_run _ _ _ _ _ Hrun2).
  - apply moved_relinked. by eapply (relinked_trans prio_links).
  - by apply rings_active.
  - eapply (framed_trans _ _ u1); [done|]. intros k Hk. apply Hfr2. set_solver.
Qed.

Lemma fp_add_start_run u q p t x : rq_rings u q → rq_mask u q → 0 ≤ p < 32 →
  thd_ok u p t → us_nodes u !! t = Some x → sched_thd_ready x = true → t ∉ q p →
  ∃ u', fp_add_start_runnable t u = Done tt u' ∧ moved u u' ∧
    rq_rings u' (qset p (t :: q p) q) ∧ rq_mask u' (qset p (t :: q p) q).
Proof.
  intros Hq Hm Hp Hok Hx Hrd Hnt.
  destruct (add_start_rings u q p t) as (u1 & Hrun & Hrel & Hq1 & _); try done.
  destruct (mask_set_ok u1 q p (t :: q p) Hp) as (a & Hrun1 & Hm1);
    [by eapply mask_relinked|done|].
  destruct Hok as [Htl (y & Hy & Hf & Hpr)]. assert (y = x) as -> by congruence.
  exists (set_us_active a u1). split; [|split; [by apply moved_relinked|split; [by apply rings_active|done]]].
  unfold fp_add_start_runnable. rewrite (bind_run _ _ _ _ _ (get_metric_run _ _ _ Hx Hf)).
  rewrite (bind_run _ _ _ _ _ (get_node_run _ _ _ Hx)), Hrd, Hpr.
  erewrite !(bind_run (assert _)) by reflexivity.
  by rewrite (bind_run _ _ _ _ _ (runnable_run _ _ Hp)), (bind_run _ _ _ _ _ Hrun).
Qed.

(** The highest priority that has threads, and its first thread. *)
Definition first_of (q : Z → list nat) (p : Z) (n : nat) : Prop :=
  0 ≤ p < 32 ∧ head (q p) = Some n ∧ ∀ p', 0 ≤ p' < p → q p' = [].

(** The mask may describe other queues [qm] that agree with [q] where the
    first thread is found. *)
Lemma highest_by_mask u q qm p n : rq_rings u q → rq_mask u qm → rq_ready u q →
  first_of qm p n → qm p = q p → fp_get_highest_prio u = Done n u.
Proof.
  intros Hq Hm Hrd (Hp & Hn & Hlow) Hqm. destruct (q p) as [|n' l] eqn:Hqp.
  { by rewrite Hqm in Hn. }
  rewrite Hqm in Hn. cbn in Hn. simplify_eq.
  pose proof (rq_ring _ _ Hq p Hp) as Hr. rewrite Hqp in Hr.
  assert (n ∈ q p) as Hin by (rewrite Hqp; set_solver).
  destruct (rq_thd _ _ Hq p n Hp Hin) as [Hnl (x & Hx & Hf & Hpr)].
  destruct (Hrd p n x Hp Hin Hx) as [Hrdx _].
  destruct Hr as [[Hh _] _]. destruct (Hh n eq_refl) as [Hnx _].
  unfold fp_get_highest_prio.
  rewrite (bind_run _ _ _ _ _ (mask_high_run u qm p Hm Hp ltac:(by rewrite Hqm) Hlow)).
  rewrite (bind_run _ _ _ _ _ (runnable_run _ _ Hp)).
  rewrite (bind_run _ _ _ _ _ (first_list_run prio_links _ _ _ Hnx)).
  rewrite bool_decide_false by (pose proof (head_of_lt p Hp); lia).
  erewrite bind_run by reflexivity.
  rewrite (bind_run _ _ _ _ _ (get_node_run _ _ _ Hx)), Hrdx, Hf. erewrite bind_run by reflexivity.
  rewrite (bind_run _ _ _ _ _ (get_metric_run _ _ _ Hx Hf)), Hpr, Z.eqb_refl. done.
Qed.

Lemma fp_get_highest_run u q p n : rq_ok u q → first_of q p n → fp_get_highest_prio u = Done n u.
Proof. intros (Hq & Hm & Hrd) Hn. by eapply highest_by_mask. Qed.

Lemma rq_ok_moved u u' q q' : moved u u' → rq_ready u q → rq_rings u' q' → rq_mask u' q' →
  (∀ p t, 0 ≤ p < 32 → t ∈ q' p → t ∈ q p) → rq_ok u' q'.
Proof. intros. split; [done|]. split; [done|]. by eapply ready_moved. Qed.

Lemma fp_get_second_run u q p l p2 n t : rq_ok u q → 0 ≤ p < 32 → q p = t :: l →
  first_of (qset p l q) p2 n →
  ∃ u', fp_get_second_highest_prio t u = Done n u' ∧ moved u u' ∧ rq_ok u' q.
Proof.
  intros (Hq & Hm & Hrd) Hp Hqp Hfirst. assert (t ∈ q p) as Hin by (rewrite Hqp; set_solver).
  destruct (rq_thd _ _ Hq p t Hp Hin) as [Htl (x & Hx & Hf & Hpr)].
  destruct (Hrd p t x Hp Hin Hx) as [Hrdx Hsu].
  destruct (fp_rem_thd_run u q p t [] l) as (u1 & Hrun1 & Hmv1 & Hq1 & Hm1 & _ & _); try done. cbn in Hq1, Hm1.
  assert (rq_ok u1 (qset p l q)) as Hok1.
  { eapply rq_ok_moved; try done. intros p' k Hp'. destruct (decide (p' = p)) as [->|];
      [rewrite qset_eq, Hqp; set_solver|by rewrite qset_ne]. }
  destruct (moved_node _ _ _ _ Hmv1 Hx) as (x1 & Hx1 & Hfl & Hme & _).
  assert (t ∉ l) as Htnl.
  { pose proof (rq_nodup _ _ Hq p Hp) as Hnd. rewrite Hqp in Hnd. by apply NoDup_cons in Hnd as [? _]. }
  destruct (fp_add_start_run u1 (qset p l q) p t x1) as (u2 & Hrun2 & Hmv2 & Hq2 & Hm2); try done.
  - split; [done|]. exists x1. unfold sched_thd_free in *. by rewrite Hfl, Hme.
  - unfold sched_thd_ready, sched_thd_blocked, sched_thd_inactive_evt, sched_thd_dying in *.
    by rewrite Hfl.
  - by rewrite qset_eq.
  - rewrite qset_eq, qset_qset, <-Hqp, qset_id in Hq2, Hm2. exists u2. split; [|split].
    + unfold fp_get_second_highest_prio. rewrite (bind_run _ _ _ _ _ Hrun1).
      rewrite (bind_run _ _ _ _ _ (fp_get_highest_run _ _ _ _ Hok1 Hfirst)).
      by rewrite (bind_run _ _ _ _ _ Hrun2).
    + by eapply moved_trans.
    + split; [done|]. split; [done|]. by eapply (ready_moved u); [eapply moved_trans|done|].
Qed.

(** *** Choosing a thread *)

Lemma first_exists q p : 0 ≤ p < 32 → q p ≠ [] → ∃ p0 n0, first_of q p0 n0.
Proof.
  intros Hp. induction (Z.lt_wf 0 p) as [p _ IH]. intros Hne.
  destruct (decide (Exists (λ i, q i ≠ []) (seqZ 0 p))) as [(i & Hi & Hqi)%Exists_exists|Hno].
  - apply elem_of_seqZ in Hi. apply (IH i); [lia|lia|done].
  - destruct (q p) as [|n l] eqn:E; [done|]. exists p, n. split; [done|]. rewrite E. split; [done|].
    intros p' Hp'. destruct (decide (q p' = [])); [done|]. destruct Hno. apply Exists_exists. exists p'.
    split; [|done]. apply elem_of_seqZ. lia.
Qed.

Lemma first_unique q p n p' n' : first_of q p n → first_of q p' n' → p = p' ∧ n = n'.
Proof.
  intros (Hp & Hn & Hl) (Hp' & Hn' & Hl').
  assert (p = p') as ->; [|by simplify_eq].
  destruct (Z.lt_total p p') as [H|[H|H]]; [|done|].
  - rewrite Hl' in Hn; [done|lia].
  - rewrite Hl in Hn'; [done|lia].
Qed.

(** The queues without a thread. *)
Definition others (t : option nat) (q : Z → list nat) : Z → list nat :=
  λ p, filter (λ k, Some k ≠ t) (q p).

Lemma others_cons u q p s l : rq_rings u q → 0 ≤ p < 32 → q p = s :: l →
  ∀ p', 0 ≤ p' < 32 → others (Some s) q p' = qset p l q p'.
Proof.
  intros Hq Hp Hqp p' Hp'. unfold others.
  assert (∀ r : list nat, s ∉ r → filter (λ k, Some k ≠ Some s) r = r) as Hkeep.
  { intros r Hr. induction r as [|k r IH]; [done|]. rewrite filter_cons_True, IH; set_solver. }
  destruct (decide (p' = p)) as [->|Hne].
  - rewrite qset_eq, Hqp, filter_cons_False by naive_solver. apply Hkeep.
    pose proof (rq_nodup _ _ Hq p Hp) as Hnd. rewrite Hqp in Hnd. by apply NoDup_cons in Hnd as [? _].
  - rewrite qset_ne by done. apply Hkeep. intros Hin. apply Hne.
    eapply (thd_ok_inj u); eapply rq_thd; try done. rewrite Hqp. set_solver.
Qed.

Lemma others_head t q p n : first_of q p n → Some n ≠ t → first_of (others t q) p n.
Proof.
  intros (Hp & Hn & Hl) Hne. split; [done|]. unfold others. split.
  - destruct (q p) as [|m l]; [done|]. cbn in Hn. simplify_eq. by rewrite filter_cons_True.
  - intros p' Hp'. by rewrite Hl.
Qed.

Lemma first_ext q q' p n : (∀ p', 0 ≤ p' < 32 → q p' = q' p') → first_of q p n → first_of q' p n.
Proof.
  intros Heq (Hp & Hn & Hl). split; [done|]. rewrite <-Heq by done. split; [done|].
  intros p' Hp'. rewrite <-Heq by lia. by apply Hl.
Qed.

(** C21. [schedule(t)] returns the first thread of the highest priority among
    the runnable threads other than [t], and leaves the run queues, with their
    order, and the mask of priorities as they were. *)
Theorem schedule_picks u q t p n :
  rq_ok u q →
  (∀ s, t = Some s → ∃ x, us_nodes u !! s = Some x ∧ sched_thd_member x = false) →
  first_of (others t q) p n →
  ∃ u', schedule t u = Done n u' ∧ moved u u' ∧ rq_ok u' q.
Proof.
  intros Hok Ht Hn. pose proof Hok as (Hq & _ & _).
  assert (q p ≠ []) as Hne.
  { destruct Hn as (_ & Hn & _). unfold others in Hn. by intros E; rewrite E in Hn. }
  destruct (first_exists q p ltac:(by destruct Hn) Hne) as (p0 & m & Hm).
  unfold schedule.
  assert ((match t with
    | None => mret tt
    | Some p => x ← get_node p; assert (negb (sched_thd_member x))
    end) u = Done tt u) as Hguard.
  { destruct t as [s|]; [|done]. destruct (Ht s eq_refl) as (x & Hx & Hmem).
    rewrite (bind_run _ _ _ _ _ (get_node_run _ _ _ Hx)). by rewrite Hmem. }
  rewrite (bind_run _ _ _ _ _ Hguard), (bind_run _ _ _ _ _ (fp_get_highest_run _ _ _ _ Hok Hm)).
  case_bool_decide as Hmt; cbn [negb].
  - subst t. destruct Hm as (Hp0 & Hm & _). destruct (q p0) as [|m' l] eqn:Hqp; [done|].
    cbn in Hm. simplify_eq. apply (fp_get_second_run u q p0 l p n m); try done.
    eapply first_ext; [|done]. by eapply others_cons.
  - destruct (first_unique _ _ _ _ _ Hn (others_head _ _ _ _ Hm Hmt)) as [-> ->].
    exists u. split; [done|]. split; [apply moved_refl|done].
Qed.

(** ** Time *)

(** [u] with the accounting of [t] changed. *)
Definition acct (u : ustate) (t : nat) (a : sched_accounting) : ustate :=
  set_us_nodes (alter (set_st_accounting a) t (us_nodes u)) u.

Lemma acct_lookup u t a k y : us_nodes u !! k = Some y →
  ∃ y', us_nodes (acct u t a) !! k = Some y' ∧ st_flags y' = st_flags y ∧
    st_metric y' = st_metric y ∧ st_accounting y' = (if decide (k = t) then a else st_accounting y).
Proof.
  intros Hy. cbn. case_decide as Hk.
  - subst. rewrite list_lookup_alter_eq, Hy. by eexists.
  - rewrite list_lookup_alter_ne, Hy by done. by eexists.
Qed.

Lemma acct_back u t a k y' : us_nodes (acct u t a) !! k = Some y' →
  ∃ y, us_nodes u !! k = Some y ∧ st_flags y' = st_flags y ∧ st_metric y' = st_metric y.
Proof.
  cbn. destruct (decide (k = t)) as [->|].
  - rewrite list_lookup_alter_eq. destruct (us_nodes u !! t) as [y|]; [|done].
    intros [=<-]. by exists y.
  - rewrite list_lookup_alter_ne by done. intros. by exists y'.
Qed.

Lemma acct_links u t a k : pnx (acct u t a) k = pnx u k ∧ ppv (acct u t a) k = ppv u k.
Proof.
  unfold nx, pv. cbn. destruct (decide (k = t)) as [->|].
  - rewrite list_lookup_alter_eq. by destruct (us_nodes u !! t).
  - by rewrite list_lookup_alter_ne.
Qed.

Lemma acct_acct u t a b : acct (acct u t a) t b = acct u t b.
Proof.
  unfold acct, set_us_nodes. cbn. f_equal. apply list_eq. intros k. destruct (decide (k = t)) as [->|].
  - rewrite !list_lookup_alter_eq. by destruct (us_nodes u !! t).
  - by rewrite !list_lookup_alter_ne.
Qed.

Lemma acct_ok u q t a : rq_ok u q → rq_ok (acct u t a) q.
Proof.
  intros ([H1 H2 H3] & Hm & Hrd). split; [split|split]; [|done| |done|].
  - intros p Hp. eapply ring_ext; [by apply H1|]. intros k _. apply acct_links.
  - intros p k Hp Hk. destruct (H3 p k Hp Hk) as [Hl (x & Hx & Hf & Hpr)]. split; [done|].
    destruct (acct_lookup u t a k x Hx) as (x' & Hx' & Hfl & Hme & _). exists x'.
    unfold sched_thd_free in *. by rewrite Hfl, Hme.
  - intros p k x' Hp Hk Hx'. destruct (acct_back u t a k x' Hx') as (x & Hx & Hfl & _).
    pose proof (Hrd p k x Hp Hk Hx). unfold sched_thd_ready, sched_thd_blocked,
      sched_thd_inactive_evt, sched_thd_dying, sched_thd_suspended in *. by rewrite Hfl.
Qed.

(** The account of a thread. *)
Definition account (u : ustate) (t : nat) (a : sched_accounting) : Prop :=
  ∃ x, us_nodes u !! t = Some x ∧ sched_thd_free x = false ∧ st_accounting x = a.

Lemma account_acct u t a b : account u t a → account (acct u t b) t b.
Proof.
  intros (x & Hx & Hf & _). destruct (acct_lookup u t b t x Hx) as (x' & Hx' & Hfl & _ & Ha).
  rewrite decide_True in Ha by done. exists x'. unfold sched_thd_free in *. by rewrite Hfl.
Qed.

Lemma get_accounting_run u t a : account u t a → sched_get_accounting t u = Done a u.
Proof.
  intros (x & Hx & Hf & <-). unfold sched_get_accounting.
  rewrite (bind_run _ _ _ _ _ (get_node_run _ _ _ Hx)). by rewrite Hf.
Qed.

Lemma upd_accounting_run u t a f : account u t a → upd_accounting t f u = Done tt (acct u t (f a)).
Proof.
  intros Ha. unfold upd_accounting. rewrite (bind_run _ _ _ _ _ (get_accounting_run _ _ _ Ha)).
  destruct Ha as (x & Hx & Hf & <-). rewrite (upd_node_run _ _ _ _ Hx). unfold acct.
  by rewrite (alter_at _ _ x).
Qed.

(** Cycles become ticks, and fewer than a quantum remain. *)
Lemma tick_loop_run t : ∀ fuel u a, account u t a → 0 ≤ sa_cycles a →
  sa_cycles a < Z.of_nat fuel * QUANTUM →
  ∃ a', tick_loop fuel t u = Done tt (acct u t a') ∧ sa_T a' = sa_T a ∧
    0 ≤ sa_cycles a' ≤ QUANTUM ∧ sa_pol_cycles a' = sa_pol_cycles a.
Proof.
  induction fuel as [|fuel IH]; intros u a Ha H0 Hf; [lia|]. cbn [tick_loop].
  rewrite (bind_run _ _ _ _ _ (get_accounting_run _ _ _ Ha)).
  destruct (Z.ltb_spec QUANTUM (sa_cycles a)).
  - rewrite (bind_run _ _ _ _ _ (upd_accounting_run _ _ _ _ Ha)).
    set (a1 := set_sa_cycles _ a). pose proof (account_acct _ _ _ a1 Ha) as Ha1.
    rewrite (bind_run _ _ _ _ _ (upd_accounting_run _ _ _ _ Ha1)). rewrite acct_acct.
    set (a2 := set_sa_ticks _ a1). pose proof (account_acct _ _ _ a2 Ha) as Ha2.
    destruct (IH _ _ Ha2) as (a' & Hrun & HT & Hc & Hp).
    + change (0 ≤ sa_cycles a - QUANTUM). lia.
    + change (sa_cycles a - QUANTUM < Z.of_nat fuel * QUANTUM). lia.
    + rewrite acct_acct in Hrun. exists a'. rewrite Hrun. done.
  - exists a. replace (acct u t a) with u; [done|]. destruct Ha as (x & Hx & _ & <-).
    unfold acct. rewrite (alter_at _ _ x) by done.
    rewrite list_insert_id; [by destruct u|]. rewrite Hx. by destruct x.
Qed.

(** The fields of a thread that scheduling leaves alone. *)
Definition same_thd (x x' : sched_thd) : Prop :=
  st_flags x' = st_flags x ∧ st_metric x' = st_metric x ∧ st_wake_cnt x' = st_wake_cnt x ∧
  st_evt_id x' = st_evt_id x ∧ st_id x' = st_id x.

(** Only links, the mask and the accounting of [t] have changed. *)
Definition kept (t : nat) (u u' : ustate) : Prop :=
  u' = set_us_active (us_active u') (set_us_nodes (us_nodes u') u) ∧
  ∀ k y, us_nodes u !! k = Some y → ∃ y', us_nodes u' !! k = Some y' ∧ same_thd y y' ∧
    (k ≠ t → st_accounting y' = st_accounting y).

Lemma kept_refl t u : kept t u u.
Proof. split; [by destruct u|]. intros k y Hy. by exists y. Qed.

Lemma kept_trans t u1 u2 u3 : kept t u1 u2 → kept t u2 u3 → kept t u1 u3.
Proof.
  intros [E1 H1] [E2 H2]. split; [rewrite E2; by rewrite E1 at 1|]. intros k y Hy.
  destruct (H1 k y Hy) as (y1 & Hy1 & (?&?&?&?&?) & Ha1).
  destruct (H2 k y1 Hy1) as (y2 & Hy2 & (?&?&?&?&?) & Ha2).
  exists y2. split; [done|]. split; [repeat split; congruence|].
  intros Hk. by rewrite Ha2, Ha1.
Qed.

Lemma kept_acct t u a : kept t u (acct u t a).
Proof.
  split; [by destruct u|]. intros k y Hy. cbn. destruct (decide (k = t)) as [->|].
  - rewrite list_lookup_alter_eq, Hy. by eexists.
  - rewrite list_lookup_alter_ne by done. by exists y.
Qed.

Lemma kept_moved t u u' : moved u u' → kept t u u'.
Proof.
  intros Hm. split.
  - destruct Hm as [Hm _]. transitivity (set_us_active (us_active u') (set_us_active (us_active u) u'));
      [by destruct u'|]. by rewrite Hm.
  - intros k y Hy. destruct (relinked_lookup _ _ _ _ _ Hm Hy) as (y' & Hy' & Hr). exists y'.
    split; [done|]. rewrite Hr. by destruct y.
Qed.

Lemma kept_account t u u' k b : kept t u u' → k ≠ t → account u k b → account u' k b.
Proof.
  intros [_ H] Hk (x & Hx & Hf & <-). destruct (H k x Hx) as (x' & Hx' & (Hfl & _) & Ha).
  exists x'. unfold sched_thd_free in *. rewrite Hfl. by rewrite Ha.
Qed.

Lemma account_moved u u' t a : moved u u' → account u t a → account u' t a.
Proof.
  intros Hm (x & Hx & Hf & <-). destruct (moved_node _ _ _ _ Hm Hx) as (x' & Hx' & Hfl & _ & Ha).
  exists x'. unfold sched_thd_free in *. by rewrite Hfl.
Qed.

(** A thread that used its quantum goes to the end of its queue. *)
Lemma elapse_rotate u q p t l1 l2 a : rq_ok u q → 0 ≤ p < 32 → q p = l1 ++ t :: l2 →
  account u t a → 0 ≤ sa_cycles a →
  ∃ u' a', (tick_loop (S (Z.to_nat (sa_cycles a / QUANTUM))) t;;
    x ← get_node t;
    when (sched_thd_ready x && negb (sched_thd_suspended x)) (
      assert (negb (sched_thd_inactive_evt x));;
      assert (negb (sched_thd_blocked x));;
      fp_move_end_runnable t)) u = Done tt u' ∧
    account u' t a' ∧ sa_T a' = sa_T a ∧ 0 ≤ sa_cycles a' ≤ QUANTUM ∧ kept t u u' ∧
    rq_ok u' (qset p ((l1 ++ l2) ++ [t]) q) ∧ framed (t :: head_of p :: q p) u u'.
Proof.
  intros Hok Hp Hqp Ha H0.
  destruct (tick_loop_run t (S (Z.to_nat (sa_cycles a / QUANTUM))) u a Ha H0) as (a' & Hrun & HT & Hc & _).
  { unfold QUANTUM. pose proof (Z.div_pos (sa_cycles a) 16000000 ltac:(lia) ltac:(lia)).
    rewrite Nat2Z.inj_succ, Z2Nat.id by lia. pose proof (Z.mul_succ_div_gt (sa_cycles a) 16000000). lia. }
  pose proof (acct_ok u q t a' Hok) as (Hq1 & Hm1 & Hrd1).
  assert (t ∈ q p) as Hin by (rewrite Hqp; set_solver).
  pose proof (rq_thd _ _ Hq1 p t Hp Hin) as Htok. destruct Htok as [Htl (x & Hx & Hf & Hpr)].
  destruct (Hrd1 p t x Hp Hin Hx) as [Hrd Hsu].
  destruct (fp_move_end_run (acct u t a') q p t x (l1 ++ l2)) as (u' & Hrun' & Hmv & Hq' & Hm' & Hfr); try done.
  { split; [done|]. by exists x. }
  { left. by exists l1, l2. }
  pose proof (account_acct _ _ _ a' Ha) as Ha'.
  exists u', a'. split; [|split; [by eapply account_moved|]].
  - rewrite (bind_run _ _ _ _ _ Hrun), (bind_run _ _ _ _ _ (get_node_run _ _ _ Hx)), Hrd, Hsu.
    unfold sched_thd_ready in Hrd. apply andb_true_iff in Hrd as [[Hb Hi]%andb_true_iff _].
    cbn [andb negb when]. rewrite Hb, Hi. by erewrite !bind_run by reflexivity.
  - do 2 (split; [done|]). split; [|split].
    + eapply kept_trans; [apply kept_acct|by apply kept_moved].
    + eapply rq_ok_moved; try done. intros p' k Hp'. destruct (decide (p' = p)) as [->|].
      * rewrite qset_eq, Hqp. set_solver.
      * by rewrite qset_ne.
    + intros k Hk. destruct (Hfr k Hk) as [-> ->]. apply acct_links.
Qed.

(** The end of [time_elapsed] for a thread that is not a server. *)
Lemma elapse_policy u q t a : rq_ok u q → account u t a → sa_T a = 0 →
  ∃ u' a', (sa ← sched_get_accounting t;
    when (QUANTUM <? sa_pol_cycles sa) (
      upd_accounting t (λ a, set_sa_pol_cycles (sa_pol_cycles a - QUANTUM) a);;
      when (negb (sa_T sa =? 0)) (
        upd_accounting t (λ a, set_sa_C_used (u32 (sa_C_used a + 1)) a);;
        sa ← sched_get_accounting t;
        when (sa_C sa <=? sa_C_used sa) (
          sched_set_thd_urgency t (Z.of_nat NUM_PRIOS);;
          x ← get_node t;
          when (sched_thd_ready x) (fp_rem_thd t);;
          set_flag t THD_SUSPENDED)))) u = Done tt u' ∧
    account u' t a' ∧ sa_T a' = 0 ∧ sa_cycles a' = sa_cycles a ∧ kept t u u' ∧ rq_ok u' q ∧
    framed [] u u'.
Proof.
  intros Hok Ha HT. rewrite (bind_run _ _ _ _ _ (get_accounting_run _ _ _ Ha)), HT.
  destruct (QUANTUM <? sa_pol_cycles a); cbn [when negb Z.eqb].
  - rewrite (bind_run _ _ _ _ _ (upd_accounting_run _ _ _ _ Ha)). do 2 eexists. split; [reflexivity|].
    split; [by eapply account_acct|]. do 2 (split; [done|]).
    split; [apply kept_acct|]. split; [by apply acct_ok|]. intros k _. apply acct_links.
  - exists u, a. do 4 (split; [done|]). split; [apply kept_refl|done].
Qed.

(** [time_elapsed] of a thread that is not a server: once the cycles it has
    run reach a quantum, the thread goes to the end of the queue of its
    priority; before that the queues stay as they are. *)
Lemma time_elapsed_run u q p t l1 l2 a c :
  rq_ok u q → 0 ≤ p < 32 → q p = l1 ++ t :: l2 → account u t a →
  sa_T a = 0 → 0 ≤ sa_cycles a ≤ QUANTUM → 0 ≤ c < 2 ^ 32 →
  ∃ u' a', time_elapsed t c u = Done tt u' ∧
    account u' t a' ∧ sa_T a' = 0 ∧ 0 ≤ sa_cycles a' ≤ QUANTUM ∧ kept t u u' ∧
    rq_ok u' (if QUANTUM <=? sa_cycles a + c then qset p ((l1 ++ l2) ++ [t]) q else q) ∧
    framed (t :: head_of p :: q p) u u'.
Proof.
  intros Hok Hp Hqp Ha HT Hcy Hc. unfold time_elapsed.
  rewrite (bind_run _ _ _ _ _ (upd_accounting_run _ _ _ _ Ha)).
  set (a1 := set_sa_pol_cycles _ a). pose proof (account_acct _ _ _ a1 Ha) as Ha1.
  rewrite (bind_run _ _ _ _ _ (upd_accounting_run _ _ _ _ Ha1)), acct_acct.
  set (a2 := set_sa_cycles _ a1). pose proof (account_acct _ _ _ a2 Ha) as Ha2.
  rewrite (bind_run _ _ _ _ _ (get_accounting_run _ _ _ Ha2)).
  assert (sa_cycles a2 = sa_cycles a + c) as Hcy2.
  { change (u64 (sa_cycles a + c) = sa_cycles a + c). unfold u64. apply Z.mod_small.
    unfold QUANTUM in *. lia. }
  set (body := (tick_loop _ t;; _) : M ustate unit).
  assert (∃ u3 a3, when (QUANTUM <=? sa_cycles a2) body (acct u t a2) = Done tt u3 ∧
    account u3 t a3 ∧ sa_T a3 = 0 ∧ 0 ≤ sa_cycles a3 ≤ QUANTUM ∧ kept t u u3 ∧
    rq_ok u3 (if QUANTUM <=? sa_cycles a + c then qset p ((l1 ++ l2) ++ [t]) q else q) ∧
    framed (t :: head_of p :: q p) u u3)
    as (u3 & a3 & Hrun3 & Ha3 & HT3 & Hc3 & Hk3 & Hok3 & Hf3).
  { rewrite Hcy2. destruct (Z.leb_spec QUANTUM (sa_cycles a + c)); cbn [when].
    - destruct (elapse_rotate (acct u t a2) q p t l1 l2 a2) as (u3 & a3 & Hrun & Ha3 & HT3 & Hc3 & Hk & Hok3 & Hf3);
        [by apply acct_ok|done..|lia|].
      exists u3, a3. split; [done|]. split; [done|]. split; [by rewrite HT3|]. split; [done|].
      split; [|split; [done|]]; [eapply kept_trans; [apply kept_acct|done]|].
      intros k Hk'. destruct (Hf3 k Hk') as [-> ->]. apply acct_links.
    - exists (acct u t a2), a2. split; [done|]. split; [done|]. split; [done|].
      split; [lia|]. split; [apply kept_acct|]. split; [by apply acct_ok|].
      intros k _. apply acct_links. }
  rewrite (bind_run _ _ _ _ _ Hrun3).
  destruct (elapse_policy u3 _ t a3 Hok3 Ha3 HT3) as (u4 & a4 & Hrun4 & Ha4 & HT4 & Hc4 & Hk4 & Hok4 & Hf4).
  exists u4, a4. do 3 (split; [done|]). split; [by rewrite Hc4|].
  split; [by eapply kept_trans|]. split; [done|].
  eapply framed_trans; [done|]. eapply framed_sub; [done|set_solver].
Qed.

(** [time_elapsed] of a thread that is not ready only changes its account. *)
Lemma time_elapsed_idle_run u q t x a c :
  rq_ok u q → us_nodes u !! t = Some x → sched_thd_ready x = false → account u t a →
  sa_T a = 0 → 0 ≤ sa_cycles a ≤ QUANTUM → 0 ≤ c < 2 ^ 32 →
  ∃ u' a', time_elapsed t c u = Done tt u' ∧
    account u' t a' ∧ sa_T a' = 0 ∧ 0 ≤ sa_cycles a' ≤ QUANTUM ∧ kept t u u' ∧ rq_ok u' q ∧
    framed [] u u'.
Proof.
  intros Hok Hx Hrd Ha HT Hcy Hc. unfold time_elapsed.
  rewrite (bind_run _ _ _ _ _ (upd_accounting_run _ _ _ _ Ha)).
  set (a1 := set_sa_pol_cycles _ a). pose proof (account_acct _ _ _ a1 Ha) as Ha1.
  rewrite (bind_run _ _ _ _ _ (upd_accounting_run _ _ _ _ Ha1)), acct_acct.
  set (a2 := set_sa_cycles _ a1). pose proof (account_acct _ _ _ a2 Ha) as Ha2.
  rewrite (bind_run _ _ _ _ _ (get_accounting_run _ _ _ Ha2)).
  assert (sa_cycles a2 = sa_cycles a + c) as Hcy2.
  { change (u64 (sa_cycles a + c) = sa_cycles a + c). unfold u64. apply Z.mod_small.
    unfold QUANTUM in *. lia. }
  set (body := (tick_loop _ t;; _) : M ustate unit).
  assert (∃ a3, when (QUANTUM <=? sa_cycles a2) body (acct u t a2) = Done tt (acct u t a3) ∧
    sa_T a3 = 0 ∧ 0 ≤ sa_cycles a3 ≤ QUANTUM) as (a3 & Hrun3 & HT3 & Hc3).
  { destruct (Z.leb_spec QUANTUM (sa_cycles a2)); cbn [when]; [|exists a2; split; [done|split; [done|lia]]].
    destruct (tick_loop_run t (S (Z.to_nat (sa_cycles a2 / QUANTUM))) (acct u t a2) a2 Ha2 ltac:(lia))
      as (a' & Hrun & HT' & Hc' & _).
    { unfold QUANTUM. pose proof (Z.div_pos (sa_cycles a2) 16000000 ltac:(lia) ltac:(lia)).
      rewrite Nat2Z.inj_succ, Z2Nat.id by lia. pose proof (Z.mul_succ_div_gt (sa_cycles a2) 16000000). lia. }
    rewrite acct_acct in Hrun. exists a'. split; [|by rewrite HT'].
    unfold body. rewrite (bind_run _ _ _ _ _ Hrun).
    destruct (acct_lookup u t a' t x Hx) as (x' & Hx' & Hfl & _).
    rewrite (bind_run _ _ _ _ _ (get_node_run _ _ _ Hx')).
    assert (sched_thd_ready x' = false) as ->; [|done].
    unfold sched_thd_ready, sched_thd_blocked, sched_thd_inactive_evt, sched_thd_dying in *.
    by rewrite Hfl. }
  rewrite (bind_run _ _ _ _ _ Hrun3). pose proof (account_acct _ _ _ a3 Ha) as Ha3.
  destruct (elapse_policy (acct u t a3) q t a3) as (u4 & a4 & Hrun4 & Ha4 & HT4 & Hc4 & Hk4 & Hok4 & Hf4);
    [by apply acct_ok|done|done|].
  exists u4, a4. do 3 (split; [done|]). split; [by rewrite Hc4|].
  split; [eapply kept_trans; [apply kept_acct|done]|]. split; [done|].
  eapply framed_trans; [|done]. intros k _. apply acct_links.
Qed.

(** ** Round robin *)

(** The scheduler runs a thread for each of the given numbers of cycles. *)
Fixpoint slices (cs : list Z) : M ustate (list nat) :=
  match cs with
  | [] => mret []
  | c :: cs => t ← schedule None; time_elapsed t c;; ts ← slices cs; mret (t :: ts)
  end.

(** A thread that is not a server. *)
Definition plain (u : ustate) (t : nat) : Prop :=
  ∃ a, account u t a ∧ sa_T a = 0 ∧ 0 ≤ sa_cycles a ≤ QUANTUM.

Lemma schedule_first u q p n : rq_ok u q → first_of q p n → schedule None u = Done n u.
Proof.
  intros Hok Hn. unfold schedule. erewrite bind_run by reflexivity.
  rewrite (bind_run _ _ _ _ _ (fp_get_highest_run _ _ _ _ Hok Hn)). done.
Qed.

Lemma slices_run p : ∀ l1 cs u q l2, rq_ok u q → 0 ≤ p < 32 → (∀ p', 0 ≤ p' < p → q p' = []) →
  q p = l1 ++ l2 → Forall (plain u) (l1 ++ l2) → length cs = length l1 →
  Forall (λ c, QUANTUM ≤ c < 2 ^ 32) cs →
  ∃ u', slices cs u = Done l1 u' ∧ rq_ok u' (qset p (l2 ++ l1) q) ∧ Forall (plain u') (l2 ++ l1).
Proof.
  induction l1 as [|t l1 IH]; intros [|c cs] u q l2 Hok Hp Hlow Hqp Hpl Hlen Hcs; try done.
  - exists u. rewrite app_nil_r. cbn in Hqp. rewrite <-Hqp in *. by rewrite qset_id.
  - apply Forall_cons in Hcs as [Hc Hcs].
    apply Forall_cons in Hpl as [(a & Ha & HT & Hcy) Hpl].
    destruct (time_elapsed_run u q p t [] (l1 ++ l2) a c) as (u1 & a1 & Hrun & Ha1 & HT1 & Hcy1 & Hk & Hok1 & _);
      try done; [unfold QUANTUM in *; lia|].
    rewrite (proj2 (Z.leb_le _ _)) in Hok1 by lia. cbn [app] in Hok1.
    assert (t ∉ l1 ++ l2) as Htl.
    { destruct Hok as (Hq & _). pose proof (rq_nodup _ _ Hq p Hp) as Hnd. rewrite Hqp in Hnd.
      by apply NoDup_cons in Hnd as [? _]. }
    destruct (IH cs u1 (qset p ((l1 ++ l2) ++ [t]) q) (l2 ++ [t])) as (u' & Hrun' & Hok' & Hpl'); try done.
    + intros p' Hp'. rewrite qset_ne by lia. by apply Hlow.
    + by rewrite qset_eq, (assoc_L (++)).
    + rewrite (assoc_L (++)). apply Forall_app. split; [|apply Forall_singleton; by exists a1].
      rewrite Forall_forall in Hpl |- *. intros k Hkin. destruct (Hpl k Hkin) as (b & Hb & ?).
      exists b. split; [|done]. eapply kept_account; [done|by intros ->|done].
    + by injection Hlen.
    + rewrite qset_qset, <-(assoc_L (++)) in Hok'. rewrite <-(assoc_L (++)) in Hpl'.
      exists u'. split; [|done]. cbn [slices].
      rewrite (bind_run _ _ _ _ _ (schedule_first u q p t Hok ltac:(split; [done|by rewrite Hqp]))).
      by rewrite (bind_run _ _ _ _ _ Hrun), (bind_run _ _ _ _ _ Hrun').
Qed.

(** C22. Threads of one priority take turns.  When the highest priority that has
    threads has the threads [l], none of them a server, [length l] slices of a
    quantum or more run each thread of [l] once, in the order of the queue, and
    leave the queues as they were. *)
Theorem round_robin_fair u q p l cs :
  rq_ok u q → 0 ≤ p < 32 → (∀ p', 0 ≤ p' < p → q p' = []) → q p = l → Forall (plain u) l →
  length cs = length l → Forall (λ c, QUANTUM ≤ c < 2 ^ 32) cs →
  ∃ u', slices cs u = Done l u' ∧ rq_ok u' q ∧ Forall (plain u') l.
Proof.
  intros Hok Hp Hlow Hqp Hpl Hlen Hcs.
  destruct (slices_run p l cs u q []) as (u' & Hrun & Hok' & Hpl'); rewrite ?app_nil_r; try done.
  exists u'. split; [done|]. split; [|done].
  cbn [app] in Hok'. subst l. by rewrite qset_id in Hok'.
Qed.

(** ** A blocked thread is removed *)

(** The threads of a priority are passed over after a blocked thread of that
    priority is removed.  [fp_rem_thd] takes the only thread on the list of
    blocked threads for the last runnable thread of its priority [p], since
    both lists use the same links, and clears the bit of [p].  The threads of
    [p] stay in their queue, yet the next thread chosen is the one the
    scheduler would choose if the queue were empty.  So a thread must leave the
    list of blocked threads before its removal. *)
Lemma remove_blocked_starves u q p t p2 n :
  rq_ok u q → 0 ≤ p < 32 → thd_ok u p t → ring (pnx u) (ppv u) [blocked; t] →
  first_of (qset p [] q) p2 n →
  ∃ u', fp_rem_thd t u = Done tt u' ∧ rq_rings u' q ∧ rq_ready u' q ∧ schedule None u' = Done n u'.
Proof.
  intros (Hq & Hm & Hrd) Hp Hok Hr Hn. pose proof Hok as [Htl (x & Hx & Hf & Hpr)].
  assert (t ≠ blocked) as Htb by (unfold blocked; lia).
  destruct (ring_links _ _ [blocked] [] t Hr) as [Hnx Hpv]. cbn in Hnx, Hpv.
  destruct (links_node prio_links u t _ _ Hnx Hpv) as (y & Hy & Hyn & Hyp). simplify_eq.
  destruct (mask_unset_ok u q _ Hp Hm) as (a & Hrun & Hm').
  destruct (rem_ring prio_links (set_us_active a u) t [blocked] []) as (u' & Hrun' & Hrel & _ & _ & _ & Hout);
    [done|repeat constructor; set_solver|].
  assert (∀ p' k, 0 ≤ p' < 32 → k ∈ head_of p' :: q p' → k ∉ [blocked; t]) as Hdis.
  { assert (∀ p', 0 ≤ p' < 32 → blocked ∉ head_of p' :: q p') as Hb.
    { intros p' Hp'. rewrite elem_of_cons. intros [Hh|Hin]; pose proof (head_of_lt p' Hp').
      - unfold blocked, head_of in Hh. lia.
      - destruct (rq_thd _ _ Hq p' _ Hp' Hin) as [? _]. unfold blocked in *. lia. }
    intros p' k Hp' Hk. rewrite !elem_of_cons. intros [->|[->|[]%elem_of_nil]]; [by eapply Hb|].
    destruct (ring_in prio_links u _ t (rq_ring _ _ Hq p' Hp') Hk) as (n' & ? & Hn' & _ & Hin & _).
    rewrite Hnx in Hn'. simplify_eq. by eapply Hb. }
  assert (moved u u') as Hmv by by eapply moved_active.
  assert (rq_rings u' q) as Hq'.
  { split; [|apply (rq_nodup _ _ Hq)|].
    - intros p' Hp'. eapply ring_ext; [by apply (rq_ring _ _ Hq)|]. intros k Hk.
      by apply Hout, (Hdis p').
    - intros p' k Hp' Hk. eapply (thd_ok_relinked (set_us_active a u)); [done|].
      by apply (rq_thd _ _ Hq). }
  assert (rq_ready u' q) as Hrd' by by eapply ready_moved.
  exists u'. split; [|split; [done|split; [done|]]].
  - unfold fp_rem_thd. rewrite (bind_run _ _ _ _ _ (get_metric_run _ _ _ Hx Hf)).
    rewrite (bind_run _ _ _ _ _ (empty_list_run prio_links u t _ Hnx)).
    rewrite (bind_run _ _ _ _ _ (get_node_run _ _ _ Hx)).
    cbn in Hyn, Hyp. rewrite Hyn, Hyp, (bool_decide_false (blocked = t)), bool_decide_true by done.
    cbn [negb andb when]. by rewrite (bind_run _ _ _ _ _ Hrun).
  - unfold schedule. erewrite bind_run by reflexivity.
    rewrite (bind_run _ _ _ _ _ (highest_by_mask u' q _ p2 n Hq' (mask_relinked _ _ _ Hrel Hm') Hrd' Hn
      ltac:(apply qset_ne; intros ->; destruct Hn as (_ & Hn & _); by rewrite qset_eq in Hn))). done.
Qed.

(** When no thread is runnable the search for a priority does not end, with
    any number of steps: [schedule] does not return. *)
Theorem no_runnable_hangs u q fuel r :
  rq_mask u q → (∀ p, 0 ≤ p < 32 → q p = []) →
  high_loop fuel (Z.land (us_active u) (u32 (- us_active u))) r u = Fault NoFuel.
Proof.
  intros [Ha Hb] Hq. assert (us_active u = 0) as ->.
  { apply Z.bits_inj'. intros i Hi. rewrite Z.bits_0. destruct (decide (i < 32)).
    - rewrite Hb, Hq by done. by apply bool_decide_eq_false; naive_solver.
    - destruct (decide (us_active u = 0)) as [->|]; [by rewrite Z.bits_0|].
      apply Z.bits_above_log2; [lia|]. apply Z.log2_lt_pow2; [lia|].
      assert (2 ^ 32 ≤ 2 ^ i) by (apply Z.pow_le_mono_r; lia). lia. }
  change (Z.land 0 (u32 (- 0))) with 0. revert r. induction fuel as [|fuel IH]; intros r; [done|].
  cbn [high_loop]. apply IH.
Qed.

(** ** An example

    Three threads: two of priority 5 and one of priority 9. *)

#[export] Instance thd_ok_dec u p t : Decision (thd_ok u p t).
Proof.
  unfold thd_ok. apply and_dec; [apply _|].
  destruct (us_nodes u !! t) as [x|]; [|right; naive_solver].
  destruct (decide (sched_thd_free x = false ∧ sm_priority (st_metric x) = p));
    [left; naive_solver|right; naive_solver].
Defined.

(** The conditions at one priority. *)
Definition rq_at (u : ustate) (q : Z → list nat) (p : Z) : Prop :=
  ring (pnx u) (ppv u) (head_of p :: q p) ∧ NoDup (q p) ∧ Forall (thd_ok u p) (q p) ∧
  Z.testbit (us_active u) p = bool_decide (q p ≠ []) ∧
  Forall (λ t, match us_nodes u !! t with
    | Some x => sched_thd_ready x = true ∧ sched_thd_suspended x = false
    | None => True
    end) (q p).

#[export] Instance rq_at_dec u q p : Decision (rq_at u q p).
Proof.
  unfold rq_at. do 4 (apply and_dec; [apply _|]).
  apply Forall_dec. intros t. destruct (us_nodes u !! t); apply _.
Defined.

Lemma rq_ok_intro u q : 0 ≤ us_active u < 2 ^ 32 → Forall (rq_at u q) (seqZ 0 32) → rq_ok u q.
Proof.
  intros Ha Hat. rewrite Forall_forall in Hat.
  assert (∀ p, 0 ≤ p < 32 → rq_at u q p) as H by (intros p Hp; apply Hat, elem_of_seqZ; lia).
  unfold rq_at in H. split; [split|split; [split; [done|]|]].
  - intros p Hp. by apply H.
  - intros p Hp. by apply H.
  - intros p t Hp Ht. destruct (H p Hp) as (_ & _ & H3 & _). rewrite Forall_forall in H3. by apply H3.
  - intros p Hp. by apply H.
  - intros p t x Hp Ht Hx. destruct (H p Hp) as (_ & _ & _ & _ & H5).
    rewrite Forall_forall in H5. specialize (H5 t Ht). by rewrite Hx in H5.
Qed.

Definition example_boot : M ustate unit :=
  sched_ds_init;; sched_initialization false;;
  a ← sched_alloc_thd 1; b ← sched_alloc_thd 2; c ← sched_alloc_thd 3;
  fp_add_thd a 5;; fp_add_thd b 5;; fp_add_thd c 9.

Definition example_zero : ustate :=
  MkU (replicate NUM_NODES sthd0) 0 0 (replicate SCHED_NUM_THREADS None)
    (replicate NUM_SCHED_EVTS None)
    (MkSda 0 0 0 0 0 0 0 (replicate NUM_SCHED_EVTS (MkEvt 0 0 0 0))) 0
    (replicate MAX_NUM_SPDS None) 0 0 0 0 None None None None false 0.

Definition example_state : ustate :=
  match example_boot example_zero with Done _ u => u | Fault _ => example_zero end.

Definition example_queues : Z → list nat :=
  λ p, if p =? 5 then [36; 37]%nat else if p =? 9 then [38]%nat else [].

Lemma example_ok : rq_ok example_state example_queues.
Proof.
  apply rq_ok_intro; [by vm_compute|]. apply (bool_decide_unpack _). by vm_compute.
Qed.

Lemma example_low p : 0 ≤ p < 5 → example_queues p = [].
Proof. intros Hp. unfold example_queues. by rewrite !(proj2 (Z.eqb_neq p _)) by lia. Qed.

Lemma schedule_picks_witness :
  ∃ u', schedule (Some 36%nat) example_state = Done 37%nat u' ∧ moved example_state u' ∧
    rq_ok u' example_queues.
Proof.
  apply (schedule_picks example_state example_queues (Some 36%nat) 5 37%nat).
  - exact example_ok.
  - intros s [=<-]. eexists. split; [vm_compute; reflexivity|reflexivity].
  - split; [lia|]. split; [reflexivity|]. intros p' Hp'. unfold others. by rewrite example_low.
Defined.

Lemma round_robin_fair_witness :
  ∃ u', slices [QUANTUM; QUANTUM + 5] example_state = Done [36%nat; 37%nat] u' ∧
    rq_ok u' example_queues ∧ Forall (plain u') [36%nat; 37%nat].
Proof.
  apply (round_robin_fair example_state example_queues 5 [36%nat; 37%nat] [QUANTUM; QUANTUM + 5]).
  - exact example_ok.
  - lia.
  - exact example_low.
  - reflexivity.
  - repeat apply Forall_cons_2; [..|apply Forall_nil_2];
      (eexists; split; [eexists; split; [vm_compute; reflexivity|split; reflexivity]|vm_compute; done]).
  - reflexivity.
  - repeat apply Forall_cons_2; [vm_compute; done..|apply Forall_nil_2].
Defined.

Lemma no_runnable_hangs_witness :
  high_loop 1000 (Z.land (us_active example_zero) (u32 (- us_active example_zero))) 0 example_zero
    = Fault NoFuel.
Proof.
  apply (no_runnable_hangs example_zero (λ _, [])); [|done].
  split; [by vm_compute|]. intros p Hp. cbn. apply Z.bits_0.
Defined.
