(* ===== verification/SchedBase.v ===== *)
(** * The scheduler component

    Model of [components/implementation/sched/cos_sched_base.c]: blocking and
    waking of threads, the events of upcalls, the choice of the next thread and
    the switch to it, timeouts, the hierarchy of schedulers, critical sections
    of components, creation and end of threads.

    All of these run with the scheduler lock held, up to the system call
    [cos_switch_thread_release], which gives up the lock and the processor.
    That call is a parameter that may change the state in any way: other
    threads execute the functions of this file before it returns.  The lock
    itself, [report_event] and the printed text are left out. *)

From stdpp Require Import base numbers option list.
From S2P Require Import Prelude Kern Sched USched Fprr.
Local Open Scope Z_scope.
Local Open Scope array_scope.

#[local] Abbreviation W := (M ustate).

(** [cevt_t]. *)
Definition SCHED_CEVT_OTHER : Z := 1.
Definition SCHED_CEVT_WAKE : Z := 2.
Definition SCHED_CEVT_BLOCK : Z := 4.

(** [REPORT_FREQ*TIMER_FREQ], of [sched_timing.h] and [cos_config.h]. *)
Definition REPORT_TICKS : Z := 500.

Definition sched_is_root : W bool := c ← gets us_child; mret (negb c).

(** [BUG()]. *)
Definition BUG {A} : W A := fail AssertFail.

(** ** Blocking and waking *)

(** Increment the count of wakeups. *)
Definition fp_pre_wakeup (t : nat) : W unit :=
  x ← get_node t;
  assert ((0 <=? st_wake_cnt x) && (st_wake_cnt x <=? 2));;
  if st_wake_cnt x =? 2 then mret tt
  else
    upd_node t (λ x, set_st_wake_cnt (st_wake_cnt x + 1) x);;
    x ← get_node t;
    when (negb (sched_thd_dependent x) && negb (sched_thd_blocked x || (st_wake_cnt x =? 2))) BUG.

(** Decrement it. *)
Definition fp_pre_block (thd : nat) : W unit :=
  x ← get_node thd;
  assert (0 <? st_wake_cnt x);;
  assert (st_wake_cnt x <=? 2);;
  upd_node thd (λ x, set_st_wake_cnt (st_wake_cnt x - 1) x);;
  ticks ← gets us_ticks;
  upd_node thd (set_st_block_time ticks).

(** [fp_wakeup] and [activate_child_sched] for a given [fp_resume_thd], which
    calls them. *)
Definition wakeup_by (resume : nat → W unit) (thd : nat) : W unit :=
  x ← get_node thd;
  assert (st_wake_cnt x =? 1);;
  upd_node thd (set_st_blocking_component 0);;
  resume thd.

Definition activate_by (resume : nat → W unit) (g : nat) : W unit :=
  x ← get_node g;
  assert (sched_thd_grp x);;
  assert (negb (sched_thd_free x));;
  assert ((0 <=? st_wake_cnt x) && (st_wake_cnt x <=? 2));;
  when (st_wake_cnt x =? 0) (
    assert (sched_thd_blocked x);;
    fp_pre_wakeup g;;
    wakeup_by resume g);;
  x ← get_node g;
  assert (negb (sched_thd_blocked x)).

(** Each level of the recursion makes a blocked thread ready, so it is not
    deeper than the number of threads. *)
Fixpoint resume_loop (fuel : nat) (t : nat) : W unit :=
  match fuel with
  | O => fail NoFuel
  | S fuel =>
    x ← get_node t;
    assert (sched_thd_blocked x);;
    assert (negb (sched_thd_free x));;
    assert (negb (sched_thd_ready x));;
    clr_flag t THD_BLOCKED;;
    set_flag t THD_READY;;
    REM_LIST prio_links t;;
    x ← get_node t;
    if negb (sched_thd_member x)
    then
      root ← sched_is_root;
      timer ← gets us_timer;
      assert (root || (bool_decide (Some t ≠ timer) && negb (sched_thd_phantom x)));;
      thread_wakeup t
    else
      e ← EMPTY_LIST cevt_links t;
      when e (
        g ← sched_get_grp t;
        g ← deref g;
        ADD_LIST cevt_links (mret g) t;;
        activate_by (resume_loop fuel) g)
  end.

Definition fp_resume_thd (t : nat) : W unit := resume_loop (S SCHED_NUM_THREADS) t.
Definition fp_wakeup (thd : nat) : W unit := wakeup_by fp_resume_thd thd.
Definition activate_child_sched (g : nat) : W unit := activate_by fp_resume_thd g.

Definition fp_activate_upcall (uc : nat) : W unit :=
  x ← get_node uc;
  when (sched_thd_inactive_evt x) (
    clr_flag uc THD_UC_READY;;
    set_flag uc THD_READY;;
    REM_LIST prio_links uc;;
    root ← sched_is_root;
    timer ← gets us_timer;
    x ← get_node uc;
    assert (root || (bool_decide (Some uc ≠ timer) && negb (sched_thd_phantom x)));;
    thread_wakeup uc).

Definition fp_deactivate_upcall (uc : nat) : W unit :=
  clr_flag uc THD_READY;;
  set_flag uc THD_UC_READY;;
  thread_block uc;;
  e ← EMPTY_LIST prio_links uc;
  assert e;;
  ADD_LIST prio_links (mret upcall_deactive) uc.

Definition fp_block_thd (t : nat) : W unit :=
  x ← get_node t;
  assert (negb (sched_thd_free x));;
  assert (negb (sched_thd_blocked x));;
  assert (st_wake_cnt x =? 0);;
  clr_flag t THD_READY;;
  set_flag t THD_BLOCKED;;
  (if negb (sched_thd_member x)
   then
     thread_block t;;
     e ← EMPTY_LIST prio_links t;
     assert e
   else
     e ← EMPTY_LIST cevt_links t;
     when e (
       g ← sched_get_grp t;
       g ← deref g;
       ADD_LIST cevt_links (mret g) t;;
       activate_child_sched g));;
  ADD_LIST prio_links (mret blocked) t.

Definition fp_block (thd : nat) (spdid : Z) : W unit :=
  x ← get_node thd;
  assert (st_wake_cnt x =? 0);;
  upd_node thd (set_st_blocking_component spdid);;
  fp_block_thd thd.

(** ** Events *)

(** What the scheduler does for an event that the kernel has reported. *)
Definition evt_callback (t : nat) (flags cpu_usage : Z) : W unit :=
  x ← get_node t;
  assert (negb (sched_thd_member x));;
  if sched_thd_free x || sched_thd_dying x then mret tt
  else
    when (has flags (Z.lor COS_SCHED_EVT_BRAND_ACTIVE
                      (Z.lor COS_SCHED_EVT_BRAND_READY COS_SCHED_EVT_BRAND_PEND))) (
      if sched_thd_grp x then
        activate_child_sched t;;
        upd_node t (λ x, set_st_cevt_flags (bset (st_cevt_flags x) SCHED_CEVT_OTHER) x)
      else if has flags COS_SCHED_EVT_BRAND_ACTIVE then fp_activate_upcall t
      else if has flags COS_SCHED_EVT_BRAND_READY then
        c ← sched_get_current;
        assert (bool_decide (c ≠ Some t));;
        fp_deactivate_upcall t
      else when (has flags COS_SCHED_EVT_BRAND_PEND) BUG);;
    x ← get_node t;
    when (negb (sched_thd_phantom x)) (time_elapsed t cpu_usage).

(** ** Switching threads *)

Definition resolve_dependencies (next : nat) : W nat :=
  dep ← sched_thd_dependency next;
  match dep with
  | None => mret next
  | Some dep =>
    n ← get_node next;
    assert (negb (has (st_flags n) (Z.lor COS_SCHED_BRAND_WAIT COS_SCHED_TAILCALL)));;
    d ← get_node dep;
    assert (negb (sched_thd_blocked d) && sched_thd_ready d);;
    assert (negb (sched_thd_free d));;
    assert (bool_decide (dep ≠ next));;
    mret dep
  end.

(** [assert(sched_is_root() || timer != next)] and the test of the member. *)
Definition check_next (next : nat) : W unit :=
  root ← sched_is_root;
  timer ← gets us_timer;
  assert (root || bool_decide (timer ≠ Some next));;
  x ← get_node next;
  assert (negb (sched_thd_member x)).

(** The thread to switch to; none when the current one goes on. *)
Definition switch_choose (flags : Z) (current target : option nat) : W (option nat) :=
  next ← (match target with
    | Some t => mret (Some t)
    | None =>
      if has flags (Z.lor COS_SCHED_BRAND_WAIT COS_SCHED_TAILCALL)
      then
        next ← schedule current;
        root ← sched_is_root;
        timer ← gets us_timer;
        assert (root || bool_decide (timer ≠ Some next));;
        assert (bool_decide (Some next ≠ current));;
        x ← get_node next;
        assert (negb (sched_thd_member x));;
        mret (Some next)
      else
        next ← schedule None;
        check_next next;;
        if bool_decide (Some next = current)
        then d ← sched_thd_dependency next;
             mret (match d with None => None | Some _ => Some next end)
        else mret (Some next)
    end);
  match next with
  | None => mret None
  | Some next =>
    next ← resolve_dependencies next;
    if bool_decide (Some next = current) then mret None
    else
      child ← gets us_child;
      idle ← gets us_idle;
      if child && bool_decide (idle = Some next)
      then timer ← gets us_timer;
           if bool_decide (current = timer) then mret None
           else timer ← deref timer; mret (Some timer)
      else mret (Some next)
  end.

Section Env.
(** The system calls; the number of times a loop around a switch is followed. *)
Context (cos_sched_cntl : Z → Z → Z → Z).
Context (cos_switch_thread_release : Z → Z → W Z).
Context (DEFERRABLE : bool).
Context (cos_spd_id : Z).
Context (retries : nat).

Fixpoint switch_loop (fuel : nat) (flags : Z) (current target : option nat) : W Z :=
  match fuel with
  | O => fail NoFuel
  | S fuel =>
    pending ← cos_sched_pending_event;
    when (negb (pending =? 0)) (
      cos_sched_clear_events;; cos_sched_process_events evt_callback 0;; mret tt);;
    next ← switch_choose flags current target;
    match next with
    | None => mret 0
    | Some next =>
      x ← get_node next;
      let flags := if sched_thd_grp x then bset flags COS_SCHED_CHILD_EVT else flags in
      assert (negb (sched_thd_blocked x));;
      ret ← cos_switch_thread_release (st_id x) flags;
      assert (negb (ret =? COS_SCHED_RET_ERROR));;
      if (ret =? COS_SCHED_RET_SUCCESS) || (ret =? COS_SCHED_RET_CEVT) then mret 0
      else switch_loop fuel flags current target
    end
  end.

Definition sched_switch_thread_target (flags : Z) (target : option nat) : W Z :=
  current ← sched_get_current;
  switch_loop retries flags current target.

Definition sched_switch_thread (flags : Z) : W Z := sched_switch_thread_target flags None.

(** ** Blocking, as components call it *)

Definition sched_wakeup (spdid thd_id : Z) : W Z :=
  thd ← sched_get_mapping thd_id;
  match thd with
  | None => mret (-1)
  | Some thd =>
    fp_pre_wakeup thd;;
    x ← get_node thd;
    assert ((st_blocking_component x =? 0) || (st_blocking_component x =? spdid));;
    match st_dependency_thd x with
    | Some _ =>
      assert (sched_thd_dependent x);;
      assert (st_contended_component x =? 0);;
      clr_flag thd THD_DEPENDENCY;;
      upd_node thd (set_st_dependency_thd None);;
      sched_switch_thread 0;; mret 0
    | None =>
      if negb (sched_thd_blocked x) then mret 0
      else fp_wakeup thd;; sched_switch_thread 0;; mret 0
    end
  end.

(** The loop of [sched_block] that waits for the wakeup. *)
Fixpoint block_wait (fuel : nat) (thd : nat) (dep : option nat) : W unit :=
  match fuel with
  | O => fail NoFuel
  | S fuel =>
    x ← get_node thd;
    if st_wake_cnt x =? 0
    then
      (match dep with
       | Some d =>
         assert (bool_decide (st_dependency_thd x = Some d));;
         sched_switch_thread_target 0 dep
       | None => sched_switch_thread 0
       end);;
      block_wait fuel thd dep
    else mret tt
  end.

(** The thread the caller depends on, when there is one; [None] is an error. *)
Definition block_dependency (dependency_thd : Z) : W (option (option nat)) :=
  if dependency_thd =? 0 then mret (Some None)
  else
    dep ← sched_get_mapping dependency_thd;
    match dep with
    | None => mret None
    | Some d => x ← get_node d; mret (if sched_thd_blocked x then None else Some (Some d))
    end.

(** [sched_block] up to the loop: [inl] is the value returned at once. *)
Definition block_enter (spdid dependency_thd : Z) : W (Z + nat * option nat) :=
  thd ← sched_get_current;
  thd ← (match thd with Some t => mret t | None => fail AssertFail end);
  assert (negb (spdid =? 0));;
  x ← get_node thd;
  if negb (st_contended_component x =? 0) then mret (inl (-1))
  else if negb ((st_blocking_component x =? 0) || (st_blocking_component x =? spdid))
  then mret (inl (-1))
  else
    assert (negb (sched_thd_free x));;
    assert (negb (sched_thd_blocked x));;
    dep ← block_dependency dependency_thd;
    match dep with
    | None => mret (inl (-1))
    | Some dep =>
      fp_pre_block thd;;
      x ← get_node thd;
      if negb (st_wake_cnt x =? 0)
      then assert (st_wake_cnt x =? 1);; mret (inl 0)
      else
        (match dep with
         | Some d =>
           upd_node thd (set_st_dependency_thd (Some d));;
           set_flag thd THD_DEPENDENCY;;
           x ← get_node thd;
           assert (st_contended_component x =? 0)
         | None => fp_block thd spdid
         end);;
        x ← get_node thd;
        assert (st_wake_cnt x <? 2);;
        mret (inr (thd, dep))
    end.

(** The number of ticks the thread was blocked for. *)
Definition blocked_time (thd : nat) : W Z :=
  x ← get_node thd;
  assert (st_wake_cnt x =? 1);;
  ticks ← gets us_ticks;
  mret (Z.max 0 (s32 (ticks - st_block_time x - 1))).

Definition sched_block (spdid dependency_thd : Z) : W Z :=
  r ← block_enter spdid dependency_thd;
  match r with
  | inl r => mret r
  | inr (thd, dep) => block_wait retries thd dep;; blocked_time thd
  end.

(** ** Timeouts *)

(** The walk over the blocked child schedulers; the result is the time of the
    next wakeup among them. *)
Fixpoint wakeups_loop (fuel : nat) (t : nat) (lowest : Z) : W Z :=
  match fuel with
  | O => fail NoFuel
  | S fuel =>
    if decide (t = blocked) then mret lowest
    else
      next ← FIRST_LIST prio_links t;
      x ← get_node t;
      lowest ← (
        if sched_thd_grp x && negb (st_wakeup_tick x =? 0)
        then
          ticks ← gets us_ticks;
          when (st_wakeup_tick x <=? ticks) (
            when (st_tick x <? st_wakeup_tick x) (
              activate_child_sched t;;
              upd_node t (λ x, set_st_cevt_flags (bset (st_cevt_flags x) SCHED_CEVT_OTHER) x));;
            upd_node t (set_st_wakeup_tick 0));;
          x ← get_node t;
          mret (if negb (st_wakeup_tick x =? 0) &&
                   ((lowest =? 0) || (st_wakeup_tick x <? lowest))
                then st_wakeup_tick x else lowest)
        else mret lowest);
      wakeups_loop fuel next lowest
  end.

Definition wake_timeout_thd : W unit :=
  wt ← gets us_wakeup_time;
  ticks ← gets us_ticks;
  w ← gets us_wakeup_thd;
  match w with
  | None => mret tt
  | Some w =>
    when (negb (wt =? 0) && (wt <=? ticks)) (
      x ← get_node w;
      if st_wake_cnt x <? 2
      then
        modify (set_us_wakeup_time 0);;
        fp_pre_wakeup w;;
        x ← get_node w;
        when (sched_thd_blocked x) (fp_wakeup w)
      else assert (negb (sched_thd_blocked x)))
  end.

Definition sched_process_wakeups : W unit :=
  wake_timeout_thd;;
  t ← FIRST_LIST prio_links blocked;
  lowest ← wakeups_loop NUM_NODES t 0;
  modify (set_us_child_wakeup_time lowest).

Definition sched_timeout (spdid amnt : Z) : W unit :=
  if amnt =? 0 then mret tt
  else
    id ← gets us_thd_id;
    thd ← sched_get_mapping (u16 id);
    thd ← (match thd with Some t => mret t | None => fail AssertFail end);
    ticks ← gets us_ticks;
    let abs_timeout := u64 (ticks + amnt) in
    wt ← gets us_wakeup_time;
    when ((wt =? 0) || (abs_timeout <? wt)) (modify (set_us_wakeup_time abs_timeout));;
    w ← gets us_wakeup_thd;
    if negb (bool_decide (w = Some thd)) then mret tt
    else
      fp_pre_block thd;;
      x ← get_node thd;
      if negb (st_wake_cnt x =? 0) then assert (st_wake_cnt x =? 1)
      else fp_block thd cos_spd_id;; sched_switch_thread 0;; mret tt.

Definition sched_timeout_thd (spdid : Z) : W Z :=
  id ← gets us_thd_id;
  thd ← sched_get_mapping (u16 id);
  match thd with
  | None => mret (-1)
  | Some t => modify (set_us_wakeup_thd (Some t));; mret 0
  end.

(** ** Time *)

Definition report_thd_accouting : W unit :=
  runqueue_print DEFERRABLE;;
  child ← gets us_child;
  when child (
    timer ← gets us_timer;
    timer ← deref timer;
    upd_accounting timer (λ a, set_sa_prev_ticks (sa_ticks a) a));;
  t ← FIRST_LIST prio_links blocked;
  walk_list NUM_NODES prio_links blocked t report_thd;;
  t ← FIRST_LIST prio_links upcall_deactive;
  walk_list NUM_NODES prio_links upcall_deactive t report_thd.

(** One round of the loop of [sched_timer_tick]. *)
Definition sched_timer_round : W unit :=
  ticks ← gets us_ticks;
  when (ticks mod REPORT_TICKS =? REPORT_TICKS - 1) report_thd_accouting;;
  modify (λ u, set_us_ticks (u64 (us_ticks u + 1)) u);;
  sched_process_wakeups;;
  timer_tick DEFERRABLE 1;;
  sched_switch_thread COS_SCHED_BRAND_WAIT;;
  mret tt.

Definition fp_event_completion : W unit :=
  sched_switch_thread COS_SCHED_TAILCALL;; BUG.

(** ** Critical sections of components *)

Fixpoint take_loop (fuel : nat) (spdid : Z) (curr : nat) : W unit :=
  match fuel with
  | O => fail NoFuel
  | S fuel =>
    holder ← sched_take_crit_sect spdid curr;
    match holder with
    | None => mret tt
    | Some h =>
      assert (bool_decide (curr ≠ h));;
      sched_switch_thread_target 0 (Some h);;
      take_loop fuel spdid curr
    end
  end.

Definition sched_component_take (spdid : Z) : W Z :=
  curr ← sched_get_current;
  curr ← (match curr with Some t => mret t | None => fail AssertFail end);
  x ← get_node curr;
  assert (negb (sched_thd_blocked x));;
  assert (negb (spdid =? 0));;
  take_loop retries spdid curr;;
  mret 0.

(** A failure of the release is only printed. *)
Definition sched_component_release (spdid : Z) : W Z :=
  curr ← sched_get_current;
  curr ← (match curr with Some t => mret t | None => fail AssertFail end);
  sched_release_crit_sect spdid curr;;
  sched_switch_thread 0;;
  mret 0.

(** ** Threads *)

Definition fp_kill_thd (t : nat) : W Z :=
  c ← sched_get_current;
  x ← get_node t;
  assert (negb (sched_thd_grp x));;
  upd_node t (set_st_flags THD_DYING);;
  thread_remove t;;
  REM_LIST cevt_links t;;
  REM_LIST prio_links t;;
  REM_LIST grp_links t;;
  sched_switch_thread 0;;
  if bool_decide (c = Some t) then BUG else mret 0.

Definition sched_setup_thread_no_policy (tid : Z) : W nat :=
  new ← sched_alloc_thd (u16 tid);
  r ← sched_alloc_event cos_sched_cntl new;
  when (r <? 0) BUG;;
  sched_add_mapping (u16 tid) new;;
  mret new.

Definition sched_setup_thread_nocrt (tid : Z) (metric_str : list Z) : W nat :=
  new ← sched_setup_thread_no_policy tid;
  thread_params_set DEFERRABLE new metric_str;;
  mret new.

Section Create.
(** The calls that make a thread, of the kernel and of the parent scheduler. *)
Context (cos_create_thread : Z → Z → Z → W Z).
Context (parent_sched_child_thd_crt : Z → Z → W Z).
(** The address of [fp_create_spd_thd]. *)
Context (fp_create_spd_thd : Z).

Definition sched_setup_thread_arg (metric_str : list Z) (fn d : Z) : W nat :=
  root ← sched_is_root;
  tid ← (if (root : bool) then cos_create_thread fn d 0
         else parent_sched_child_thd_crt cos_spd_id (u16 d));
  assert (negb (tid =? 0));;
  sched_setup_thread_nocrt tid metric_str.

Definition sched_setup_thread (metric_str : list Z) (fn : Z) : W nat :=
  sched_setup_thread_arg metric_str fn 0.

(** The characters of a C string before its end. *)
Fixpoint c_string (s : list Z) : list Z :=
  match s with c :: s => if c =? 0 then [] else c :: c_string s | [] => [] end.

(** [data] is the array in the argument region, [ok] that it lies there. *)
Definition sched_create_thread (spdid : Z) (ok : bool) (data : list Z) : W Z :=
  if negb ok then mret (-1)
  else
    l ← bound (data.[Z.of_nat (length data) - 1]);
    if negb (l =? 0) then mret (-1)
    else
      curr ← sched_get_current;
      new ← sched_setup_thread_arg (c_string data) fp_create_spd_thd spdid;
      _ ← deref curr;
      x ← get_node new;
      mret (st_id x).

Definition sched_thread_params (spdid thd_id : Z) (a w : Z) : W Z :=
  t ← sched_get_mapping thd_id;
  match t with
  | None => mret (-1)
  | Some t => thread_resparams_set DEFERRABLE t a w
  end.

(** [config] is what [sched_comp_config_default] fills in. *)
Definition sched_create_thread_default (config : option (list Z)) (spdid target : Z) : W Z :=
  match config with
  | None => mret (-1)
  | Some data =>
    sched_setup_thread_arg (c_string data) fp_create_spd_thd target;;
    curr ← sched_get_current;
    _ ← deref curr;
    mret 0
  end.

(** ** The hierarchy of schedulers: as a parent *)

Fixpoint deactivate_wait (fuel : nat) (t : nat) : W unit :=
  match fuel with
  | O => fail NoFuel
  | S fuel =>
    x ← get_node t;
    if st_wake_cnt x =? 0
    then assert (sched_thd_blocked x);; sched_switch_thread 0;; deactivate_wait fuel t
    else mret tt
  end.

Definition deactivate_child_sched (t : nat) : W unit :=
  x ← get_node t;
  assert (sched_thd_grp x);;
  assert (negb (sched_thd_free x));;
  assert (sched_thd_ready x);;
  assert ((0 <? st_wake_cnt x) && (st_wake_cnt x <=? 2));;
  fp_pre_block t;;
  x ← get_node t;
  when (st_wake_cnt x =? 0) (fp_block t 0;; deactivate_wait retries t).

Definition sched_child_cntl_thd (spdid : Z) : W Z :=
  c ← sched_get_current;
  c ← deref c;
  sched_grp_make c spdid;;
  when (negb (cos_sched_cntl COS_SCHED_PROMOTE_CHLD 0 spdid =? 0)) BUG;;
  x ← get_node c;
  when (negb (cos_sched_cntl COS_SCHED_GRANT_SCHED (st_id x) spdid =? 0)) BUG;;
  ticks ← gets us_ticks;
  upd_node c (set_st_tick ticks);;
  mret 0.

Definition sched_child_thd_crt (spdid dest_spd : Z) : W Z :=
  t ← sched_get_current;
  t ← deref t;
  x ← get_node t;
  if negb (sched_thd_member x || sched_thd_grp x) then mret (-1)
  else
    st ← (if sched_thd_grp x then mret t else deref (st_group x));
    s ← get_node st;
    if negb (st_cid s =? spdid) then mret (-1)
    else
      root ← sched_is_root;
      tid ← (if (root : bool) then cos_create_thread fp_create_spd_thd dest_spd 0
             else parent_sched_child_thd_crt cos_spd_id dest_spd);
      assert (negb (tid =? 0));;
      new ← sched_alloc_thd (u16 tid);
      sched_add_mapping (u16 tid) new;;
      sched_share_event cos_sched_cntl new st;;
      sched_grp_add st new;;
      s ← get_node st;
      n ← get_node new;
      assert (sched_thd_grp s && sched_thd_member n);;
      when (negb (cos_sched_cntl COS_SCHED_GRANT_SCHED tid spdid =? 0)) BUG;;
      mret tid.
End Create.

(** [struct sched_child_evt]. *)
Record sched_child_evt : Type := MkCevt {
  ce_t : Z;
  ce_tid : Z;
  ce_time_elapsed : Z
}.

Definition child_ticks_stale (t : nat) : W bool :=
  x ← get_node t;
  assert (sched_thd_grp x);;
  ticks ← gets us_ticks;
  mret (negb (st_tick x =? ticks)).

Definition child_ticks_update (t : nat) (e : sched_child_evt) : W sched_child_evt :=
  x ← get_node t;
  lticks ← gets us_ticks;
  if st_tick x <? lticks
  then upd_node t (set_st_tick lticks);; mret (MkCevt (ce_t e) (ce_tid e) (lticks - st_tick x))
  else mret e.

(** The loop of [sched_child_get_evt] while there is no event of a thread; the
    result is the answer when there is another one. *)
Fixpoint get_evt_wait (fuel : nat) (t : nat) (e : sched_child_evt) (idle : bool) :
    W (option sched_child_evt) :=
  match fuel with
  | O => fail NoFuel
  | S fuel =>
    empty ← EMPTY_LIST cevt_links t;
    if negb empty then mret None
    else
      x ← get_node t;
      stale ← (if has (st_cevt_flags x) SCHED_CEVT_OTHER then mret true else child_ticks_stale t);
      if stale || negb idle
      then
        upd_node t (λ x, set_st_cevt_flags (bclr (st_cevt_flags x) SCHED_CEVT_OTHER) x);;
        e ← child_ticks_update t e;
        mret (Some e)
      else deactivate_child_sched t;; get_evt_wait fuel t e idle
  end.

(** The event of the first thread on the list. *)
Definition get_evt_thd (t : nat) (e : sched_child_evt) : W (Z * sched_child_evt) :=
  et ← FIRST_LIST cevt_links t;
  REM_LIST cevt_links et;;
  empty ← EMPTY_LIST cevt_links t;
  x ← get_node et;
  assert (sched_thd_member x);;
  ty ← (if sched_thd_blocked x then mret SCHED_CEVT_BLOCK
        else if sched_thd_ready x || sched_thd_dependent x then mret SCHED_CEVT_WAKE
        else BUG);
  mret (if (empty : bool) then 0 else 1, MkCevt ty (st_id x) (ce_time_elapsed e)).

Definition sched_child_get_evt (spdid : Z) (idle : bool) (wake_diff : Z) :
    W (Z * sched_child_evt) :=
  let e := MkCevt SCHED_CEVT_OTHER 0 0 in
  t ← sched_get_current;
  t ← deref t;
  x ← get_node t;
  r ← (if negb (sched_thd_grp x) || negb (st_cid x =? spdid) then mret (-1, e)
       else
         upd_node t (λ x, set_st_wakeup_tick (u64 (st_tick x + wake_diff)) x);;
         o ← get_evt_wait retries t e idle;
         match o with
         | Some e => mret (0, e)
         | None => e ← child_ticks_update t e; get_evt_thd t e
         end);
  upd_node t (set_st_cevt_flags 0);;
  mret r.

(** ** The hierarchy of schedulers: as a child *)

Definition sched_process_cevt (e : sched_child_evt) : W unit :=
  (if ce_t e =? SCHED_CEVT_WAKE then
     t ← sched_get_mapping (ce_tid e);
     t ← (match t with Some t => mret t | None => fail AssertFail end);
     x ← get_node t;
     assert (st_wake_cnt x =? 0);;
     when (sched_thd_blocked x) (fp_pre_wakeup t;; fp_wakeup t)
   else when (ce_t e =? SCHED_CEVT_BLOCK) (
     t ← sched_get_mapping (ce_tid e);
     t ← (match t with Some t => mret t | None => fail AssertFail end);
     fp_pre_block t;;
     x ← get_node t;
     assert (st_wake_cnt x =? 0);;
     fp_block t 0));;
  when (negb (ce_time_elapsed e =? 0)) (
    let te := ce_time_elapsed e in
    modify (λ u, set_us_ticks (u64 (us_ticks u + te)) u);;
    timer_tick DEFERRABLE (s32 te);;
    ticks ← gets us_ticks;
    pp ← gets us_prev_print;
    when (REPORT_TICKS <=? u64 (ticks - pp)) (
      report_thd_accouting;;
      modify (λ u, set_us_prev_print (u64 (us_prev_print u + REPORT_TICKS)) u));;
    sched_process_wakeups).

(** How long the child wants to sleep: the difference to the next wakeup. *)
Definition next_wakeup : W Z :=
  sched_process_wakeups;;
  wt ← gets us_wakeup_time;
  cwt ← gets us_child_wakeup_time;
  ticks ← gets us_ticks;
  let wake_tm := if cwt =? 0 then wt else if wt =? 0 then cwt
                 else if wt <? cwt then wt else cwt in
  assert ((wake_tm =? 0) || (ticks <=? wake_tm));;
  mret (if wake_tm =? 0 then 0 else u32 (wake_tm - ticks)).

(** One round of the inner loop of [sched_child_evt_thd]; the call to the parent
    scheduler is a parameter. *)
Definition child_evt_round
    (parent_sched_child_get_evt : bool → Z → W (Z * sched_child_evt)) : W Z :=
  n ← schedule None;
  timer ← gets us_timer;
  assert (bool_decide (Some n ≠ timer));;
  idle ← gets us_idle;
  let should_idle := bool_decide (idle = Some n) in
  wake_diff ← (if should_idle then next_wakeup else mret 0);
  cos_sched_clear_cevts;;
  '(cont, e) ← parent_sched_child_get_evt should_idle wake_diff;
  assert (0 <=? cont);;
  sched_process_cevt e;;
  mret cont.

(** ** Brands, start *)

Definition sched_priority (tid : Z) : W Z :=
  t ← sched_get_mapping tid;
  match t with
  | None => mret (-1)
  | Some t => x ← get_node t; mret (sm_priority (st_metric x))
  end.

Definition sched_timestamp : W Z := t ← gets us_ticks; mret (u32 t).

(** [cos_brand_cntl(COS_BRAND_ADD_THD, bid, tid, 0)] is a parameter. *)
Definition sched_add_thd_to_brand (cos_brand_add : Z → Z → W Z) (spdid bid tid : Z) : W Z :=
  t ← sched_get_mapping tid;
  match t with
  | None => mret (-1)
  | Some _ => ret ← cos_brand_add bid tid; mret (if ret <? 0 then -1 else 0)
  end.

Definition sched_init : W unit :=
  sched_init_thd blocked 0 THD_FREE;;
  sched_init_thd upcall_deactive 0 THD_FREE;;
  sched_ds_init;;
  sched_initialization DEFERRABLE.
End Env.
