(* ===== verification/SchedBaseInv.v ===== *)
(** * Every thread is on the list of its state

    The scheduler component keeps each thread on one of three kinds of lists:
    the run queue of its priority, the list of blocked threads, the list of
    inactive upcalls; the flags of the thread and the count of its wakeups say
    the same.  This is proved as the refinement of an abstract scheduler, whose
    steps are blocking, waking and the events of upcalls. *)

From stdpp Require Import base numbers option sets list.
From S2P Require Import Prelude Ring Kern Sched USched Fprr FprrInv SchedBase.
Local Open Scope Z_scope.

#[local] Abbreviation pnx := (nx prio_links).
#[local] Abbreviation ppv := (pv prio_links).

(** ** Flags *)

(** ** Nodes written *)

Definition put (u : ustate) (t : nat) (x : sched_thd) : ustate :=
  set_us_nodes (<[t := x]> (us_nodes u)) u.

Lemma put_put u t x y : put (put u t x) t y = put u t y.
Proof. unfold put, set_us_nodes. cbn. f_equal. apply list_insert_insert_eq. Qed.

Lemma put_eq u t x y : us_nodes u !! t = Some y → us_nodes (put u t x) !! t = Some x.
Proof. intros Hy. cbn. apply list_lookup_insert_eq. by eapply lookup_lt_Some. Qed.

Lemma get_put u t x y : us_nodes u !! t = Some x → get_node t (put u t y) = Done y (put u t y).
Proof. intros Hx. apply get_node_run. by eapply put_eq. Qed.

Lemma upd_put u t x y f : us_nodes u !! t = Some x →
  upd_node t f (put u t y) = Done tt (put u t (f y)).
Proof.
  intros Hx. rewrite (upd_node_run _ _ _ _ (put_eq u t y x Hx)).
  exact (f_equal (Done tt) (put_put _ _ _ _)).
Qed.

Lemma put_ne u t x k : k ≠ t → us_nodes (put u t x) !! k = us_nodes u !! k.
Proof. intros. cbn. by apply list_lookup_insert_ne. Qed.

Lemma put_links u t x y : us_nodes u !! t = Some y →
  st_prio_next x = st_prio_next y → st_prio_prev x = st_prio_prev y → framed [] u (put u t x).
Proof.
  intros Hy Hn Hp k _. unfold nx, pv. destruct (decide (k = t)) as [->|].
  - rewrite (put_eq u t x y Hy), Hy. cbn. by rewrite Hn, Hp.
  - by rewrite put_ne.
Qed.

Lemma framed_ring S u u' l : framed S u u' → (∀ k, k ∈ l → k ∉ S) →
  ring (pnx u) (ppv u) l → ring (pnx u') (ppv u') l.
Proof. intros Hf Hl Hr. eapply ring_ext; [done|]. intros k Hk. by apply Hf, Hl. Qed.

Lemma put_rings u q t x y : rq_rings u q → us_nodes u !! t = Some y →
  st_prio_next x = st_prio_next y → st_prio_prev x = st_prio_prev y →
  sched_thd_free x = sched_thd_free y → sm_priority (st_metric x) = sm_priority (st_metric y) →
  rq_rings (put u t x) q.
Proof.
  intros Hq Hy Hn Hp Hf Hpr. pose proof (put_links u t x y Hy Hn Hp) as Hfr.
  split; [|apply (rq_nodup _ _ Hq)|].
  - intros p Hp0. eapply framed_ring; [done|set_solver|by apply (rq_ring _ _ Hq)].
  - intros p k Hp0 Hk. destruct (rq_thd _ _ Hq p k Hp0 Hk) as [Hl (z & Hz & Hzf & Hzp)].
    split; [done|]. destruct (decide (k = t)) as [->|].
    + exists x. rewrite (put_eq u t x y Hy). simplify_eq. by rewrite Hf, Hpr.
    + exists z. by rewrite put_ne.
Qed.

(** What a step may do to threads other than [t]. *)
Definition upto (t : nat) (u u' : ustate) : Prop :=
  u' = set_us_sda (us_sda u') (set_us_active (us_active u') (set_us_nodes (us_nodes u') u)) ∧
  ∀ k y, k ≠ t → us_nodes u !! k = Some y →
    ∃ y', us_nodes u' !! k = Some y' ∧ same_thd y y' ∧ st_accounting y' = st_accounting y.

Lemma upto_trans t u1 u2 u3 : upto t u1 u2 → upto t u2 u3 → upto t u1 u3.
Proof.
  intros [E1 H1] [E2 H2]. split; [rewrite E2; by rewrite E1 at 1|]. intros k y Hk Hy.
  destruct (H1 k y Hk Hy) as (y1 & Hy1 & (?&?&?&?&?) & Ha1).
  destruct (H2 k y1 Hk Hy1) as (y2 & Hy2 & (?&?&?&?&?) & Ha2).
  exists y2. split; [done|]. split; [repeat split; congruence|congruence].
Qed.

Lemma upto_put t u x : upto t u (put u t x).
Proof. split; [by destruct u|]. intros k y Hk Hy. exists y. by rewrite put_ne. Qed.

Lemma upto_kept t u u' : kept t u u' → upto t u u'.
Proof.
  intros [E H]. split; [rewrite E; by destruct u|]. intros k y Hk Hy.
  destruct (H k y Hy) as (y' & Hy' & Hs & Ha). exists y'. split; [done|]. split; [done|]. by apply Ha.
Qed.

Lemma upto_moved t u u' : moved u u' → upto t u u'.
Proof. intros Hm. by apply upto_kept, kept_moved. Qed.

Lemma moved_same u u' t x : moved u u' → us_nodes u !! t = Some x →
  ∃ x', us_nodes u' !! t = Some x' ∧ same_thd x x' ∧ st_accounting x' = st_accounting x.
Proof.
  intros Hm Hx. destruct (kept_moved (S t) u u' Hm) as [_ H].
  destruct (H t x Hx) as (x' & Hx' & Hs & Ha). exists x'. split; [done|]. split; [done|]. apply Ha. lia.
Qed.

Lemma relinked_moved u u' : relinked prio_links u u' → moved u u'.
Proof.
  intros Hr. pose proof (moved_relinked u u' (us_active u') Hr) as Hm.
  by replace (set_us_active (us_active u') u') with u' in Hm by by destruct u'.
Qed.

(** ** The lists beside the run queues *)

Lemma add_side u h t l : ring (pnx u) (ppv u) (h :: l) → NoDup (h :: l) → t ∉ h :: l →
  (t < length (us_nodes u))%nat →
  ∃ u', ADD_LIST prio_links (mret h) t u = Done tt u' ∧ relinked prio_links u u' ∧
    ring (pnx u') (ppv u') (h :: t :: l) ∧ framed (t :: h :: l) u u'.
Proof.
  intros Hr Hnd Ht Hlt. assert (∃ a, head (l ++ [h]) = Some a) as [a Ha] by (destruct l; by eexists).
  destruct (add_ring prio_links u (mret h : M ustate nat) t (l ++ [h]) h a) as (u' & Hrun & Hrel & Hr' & Hout); try done.
  - by apply (ring_rotate _ _ [h] l).
  - by rewrite Permutation_app_comm.
  - set_solver.
  - by rewrite last_snoc.
  - exists u'. do 2 (split; [done|]). split; [by apply (ring_rotate _ _ (t :: l) [h])|].
    intros k Hk. apply Hout. set_solver.
Qed.

Lemma rem_side u h t l1 l2 : ring (pnx u) (ppv u) (h :: l1 ++ t :: l2) → NoDup (h :: l1 ++ t :: l2) →
  ∃ u', REM_LIST prio_links t u = Done tt u' ∧ relinked prio_links u u' ∧
    ring (pnx u') (ppv u') (h :: l1 ++ l2) ∧ alone u' t ∧ framed (h :: l1 ++ t :: l2) u u'.
Proof.
  intros Hr Hnd. destruct (rem_ring prio_links u t (h :: l1) l2) as
    (u' & Hrun & Hrel & Hr' & Hn & Hv & Hout); [done|done|].
  exists u'. by do 4 (split; [done|]).
Qed.

(** ** Putting a thread into its run queue *)

(** The fields of the thread a step is about. *)
Definition like (x x' : sched_thd) : Prop :=
  st_flags x' = st_flags x ∧ sm_priority (st_metric x') = sm_priority (st_metric x) ∧
  st_wake_cnt x' = st_wake_cnt x ∧ st_evt_id x' = st_evt_id x ∧ st_accounting x' = st_accounting x.

Lemma like_trans x y z : like x y → like y z → like x z.
Proof. intros (?&?&?&?&?) (?&?&?&?&?). repeat split; congruence. Qed.

Lemma same_like x x' : same_thd x x' → st_accounting x' = st_accounting x → like x x'.
Proof. intros (?&Hm&?&?&_) ?. unfold like. by rewrite Hm. Qed.

(** The event of a thread has an entry in the shared page. *)
Definition evt_ok (u : ustate) (x : sched_thd) : Prop :=
  u8 (st_evt_id x) < Z.of_nat NUM_SCHED_EVTS ∧
  length (sd_events (us_sda u)) = NUM_SCHED_EVTS.

Lemma set_urgency_run u t x g : us_nodes u !! t = Some x → sched_thd_free x = false → evt_ok u x →
  ∃ d, sched_set_thd_urgency t g u =
      Done tt (put (set_us_sda d u) t (set_st_metric (set_sm_urgency g (st_metric x)) x)) ∧
    length (sd_events d) = length (sd_events (us_sda u)).
Proof.
  intros Hx Hf [He Hlen]. unfold sched_set_thd_urgency.
  rewrite (bind_run _ _ _ _ _ (get_node_run _ _ _ Hx)).
  assert (∃ d, when (negb (st_evt_id x =? 0)) (cos_sched_set_evt_urgency (st_evt_id x) g) u =
    Done tt (set_us_sda d u) ∧ length (sd_events d) = length (sd_events (us_sda u))) as (d & Hrun & Hd).
  { destruct (st_evt_id x =? 0); cbn [negb when].
    - exists (us_sda u). split; [by destruct u|done].
    - destruct (zlookup_is_Some (sd_events (us_sda u)) (u8 (st_evt_id x))) as [e Hev].
      { rewrite Hlen. split; [unfold u8; apply Z.mod_pos_bound; lia|done]. }
      unfold cos_sched_set_evt_urgency. rewrite (proj2 (Z.ltb_lt _ _)) by done.
      erewrite bind_run by reflexivity.
      assert (get_event (u8 (st_evt_id x)) u = Done e u) as Hg.
      { unfold get_event. erewrite bind_run by reflexivity. by rewrite Hev. }
      rewrite (bind_run _ _ _ _ _ Hg). unfold put_event. rewrite (bind_run _ _ _ _ _ Hg).
      eexists. split; [reflexivity|]. cbn. apply length_zinsert. }
  rewrite (bind_run _ _ _ _ _ Hrun). unfold upd_metric.
  assert (us_nodes (set_us_sda d u) !! t = Some x) as Hx' by done.
  rewrite (bind_run _ _ _ _ _ (get_metric_run _ _ _ Hx' Hf)), (upd_node_run _ _ _ _ Hx').
  by exists d.
Qed.

Lemma sda_rings u q d : rq_rings u q → rq_rings (set_us_sda d u) q.
Proof. by intros [H1 H2 H3]; split. Qed.

(** A thread on no list goes to the end of the queue of its priority. *)
Lemma thread_wakeup_run u q p t x : rq_rings u q → rq_mask u q → 0 ≤ p < 32 → thd_ok u p t →
  us_nodes u !! t = Some x → sched_thd_ready x = true → sched_thd_suspended x = false →
  sched_thd_member x = false → evt_ok u x → alone u t → t ∉ q p →
  ∃ u' x', thread_wakeup t u = Done tt u' ∧ upto t u u' ∧ us_nodes u' !! t = Some x' ∧ like x x' ∧
    rq_rings u' (qset p (q p ++ [t]) q) ∧ rq_mask u' (qset p (q p ++ [t]) q) ∧
    framed (t :: head_of p :: q p) u u' ∧
    length (sd_events (us_sda u')) = length (sd_events (us_sda u)).
Proof.
  intros Hq Hm Hp Hok Hx Hrd Hsu Hmem Hev Hal Hnt.
  pose proof Hok as [Htl (y & Hy & Hf & Hpr)]. assert (y = x) as -> by congruence. clear Hy.
  set (x1 := set_st_metric (set_sm_priority p (st_metric x)) x).
  pose proof (put_eq u t x1 x Hx) as Hx1.
  destruct (set_urgency_run (put u t x1) t x1 p Hx1 Hf Hev) as (d & Hrun & Hd).
  set (x2 := set_st_metric (set_sm_urgency p (st_metric x1)) x1) in *.
  set (u2 := put (set_us_sda d (put u t x1)) t x2) in *.
  assert (u2 = put (set_us_sda d u) t x2) as Hu2 by apply (put_put (set_us_sda d u)).
  assert (us_nodes u2 !! t = Some x2) as Hx2 by (rewrite Hu2; by apply (put_eq _ _ _ x)).
  assert (framed [] u u2) as Hfr2 by (rewrite Hu2; exact (put_links (set_us_sda d u) t x2 x Hx eq_refl eq_refl)).
  assert (rq_rings u2 q) as Hq2.
  { rewrite Hu2. apply (put_rings _ _ _ _ x); try done. by apply sda_rings. }
  assert (rq_mask u2 q) as Hm2 by by rewrite Hu2.
  destruct (fp_move_end_run u2 q p t x2 (q p)) as (u3 & Hrun3 & Hmv3 & Hq3 & Hm3 & Hfr3); try done.
  { split; [done|]. by exists x2. }
  { right. split; [|done]. unfold alone. destruct (Hfr2 t) as [-> ->]; [set_solver|done]. }
  destruct (moved_same _ _ _ _ Hmv3 Hx2) as (x3 & Hx3 & Hs3 & Ha3).
  assert (upto t u u2) as Hup2.
  { rewrite Hu2. split; [by destruct u|]. intros k z Hk Hz. exists z. by rewrite put_ne. }
  exists u3, x3. split; [|split; [eapply upto_trans; [done|by apply upto_moved]|]].
  - unfold thread_wakeup. rewrite (bind_run _ _ _ _ _ (get_node_run _ _ _ Hx)), Hmem, Hsu.
    erewrite bind_run by reflexivity. cbn [negb].
    rewrite (bind_run _ _ _ _ _ (get_metric_run _ _ _ Hx Hf)), Hpr. unfold fp_add_thd.
    rewrite (proj2 (Z.ltb_lt p (Z.of_nat NUM_PRIOS))) by (unfold NUM_PRIOS; lia).
    erewrite bind_run by reflexivity. rewrite (bind_run _ _ _ _ _ (get_node_run _ _ _ Hx)), Hrd, Hsu.
    erewrite !(bind_run (assert _)) by reflexivity.
    rewrite (bind_run (upd_metric t (set_sm_priority p)) _ u tt (put u t x1)).
    2:{ unfold upd_metric. rewrite (bind_run _ _ _ _ _ (get_metric_run _ _ _ Hx Hf)). by apply upd_node_run. }
    by rewrite (bind_run _ _ _ _ _ Hrun).
  - split; [done|]. split; [eapply like_trans; [|by apply same_like]|].
    + by repeat split.
    + do 2 (split; [done|]). split; [|destruct Hmv3 as [Hmv3 _]].
      * eapply framed_trans; [eapply framed_sub; [done|set_solver]|done].
      * apply (f_equal us_sda) in Hmv3. cbn in Hmv3. rewrite Hmv3. exact Hd.
Qed.

(** ** The abstract scheduler *)

Definition without (t : nat) (l : list nat) : list nat := filter (λ k, k ≠ t) l.

Lemma elem_of_without t l k : k ∈ without t l ↔ k ≠ t ∧ k ∈ l.
Proof. unfold without. by rewrite list_elem_of_filter. Qed.

Lemma without_notin t l : t ∉ l → without t l = l.
Proof.
  intros Ht. induction l as [|k l IH]; [done|]. unfold without in *.
  rewrite filter_cons_True, IH; set_solver.
Qed.

Lemma without_split t l : NoDup l → t ∈ l →
  ∃ l1 l2, l = l1 ++ t :: l2 ∧ without t l = l1 ++ l2.
Proof.
  intros Hnd [l1 [l2 ->]]%list_elem_of_split. exists l1, l2. split; [done|].
  apply NoDup_app in Hnd as (_ & H1 & H2). apply NoDup_cons in H2 as [H2 _].
  unfold without. rewrite filter_app, filter_cons_False by naive_solver.
  fold (without t l1) (without t l2). rewrite !without_notin; [done|done|]. intros H. by apply (H1 t H), elem_of_cons; left.
Qed.

Lemma NoDup_without t l : NoDup l → NoDup (without t l).
Proof. apply NoDup_filter. Qed.

Definition cset (t : nat) (v : Z) (c : nat → Z) : nat → Z := λ k, if decide (k = t) then v else c k.

Lemma cset_eq t v c : cset t v c t = v.
Proof. unfold cset. by rewrite decide_True. Qed.
Lemma cset_ne t v c k : k ≠ t → cset t v c k = c k.
Proof. intros. unfold cset. by rewrite decide_False. Qed.

(** The runnable threads of each priority, the blocked threads, the inactive
    upcalls, and the wakeups each thread has received: 0 when it is blocked, 2
    when a wakeup came before the thread blocked. *)
Record astate : Type := MkA {
  a_run : Z → list nat;
  a_blk : list nat;
  a_ina : list nat;
  a_cnt : nat → Z
}.

Inductive op : Type :=
  | OpWake (t : nat)
  | OpBlock (t : nat) (spdid : Z)
  | OpEvent (t : nat) (flags cpu : Z).

Section Abstract.
(** The threads and their priorities. *)
Context (D : list nat) (prio : nat → Z).
Implicit Types a : astate.

(** Each thread is on one list. *)
Record a_wf a : Prop := {
  aw_prio t : t ∈ D → (35 ≤ t)%nat ∧ 0 ≤ prio t < 32;
  aw_run p t : 0 ≤ p < 32 → t ∈ a_run a p → t ∈ D ∧ prio t = p ∧ (t ∉ a_blk a) ∧ (t ∉ a_ina a);
  aw_run_nodup p : 0 ≤ p < 32 → NoDup (a_run a p);
  aw_blk t : t ∈ a_blk a → t ∈ D ∧ (t ∉ a_ina a);
  aw_blk_nodup : NoDup (a_blk a);
  aw_ina t : t ∈ a_ina a → t ∈ D;
  aw_ina_nodup : NoDup (a_ina a);
  aw_all t : t ∈ D → t ∈ a_run a (prio t) ∨ t ∈ a_blk a ∨ t ∈ a_ina a;
  aw_zero t : t ∈ a_blk a → a_cnt a t = 0;
  aw_cnt t : t ∈ D → t ∉ a_blk a → a_cnt a t = 1 ∨ a_cnt a t = 2
}.

Definition enqueue (t : nat) a : Z → list nat := qset (prio t) (a_run a (prio t) ++ [t]) (a_run a).
Definition dequeue (t : nat) a : Z → list nat := qset (prio t) (without t (a_run a (prio t))) (a_run a).
Definition rotate (t : nat) a : Z → list nat :=
  qset (prio t) (without t (a_run a (prio t)) ++ [t]) (a_run a).

(** What an event does to an upcall: it becomes active or inactive. *)
Inductive upcall (t : nat) (flags : Z) : astate → astate → Prop :=
  | up_none a : has flags 28 = false → upcall t flags a a
  | up_active a : has flags COS_SCHED_EVT_BRAND_ACTIVE = true → t ∉ a_ina a → upcall t flags a a
  | up_activate a : has flags COS_SCHED_EVT_BRAND_ACTIVE = true → t ∈ a_ina a →
      upcall t flags a (MkA (enqueue t a) (a_blk a) (without t (a_ina a)) (a_cnt a))
  | up_deactivate a : has flags COS_SCHED_EVT_BRAND_ACTIVE = false →
      has flags COS_SCHED_EVT_BRAND_READY = true → t ∈ a_run a (prio t) →
      upcall t flags a (MkA (dequeue t a) (a_blk a) (t :: a_ina a) (a_cnt a)).

(** Time passes: a runnable thread may have used its quantum. *)
Inductive aged (t : nat) : astate → astate → Prop :=
  | ag_stay a : aged t a a
  | ag_rotate a : t ∈ a_run a (prio t) → aged t a (MkA (rotate t a) (a_blk a) (a_ina a) (a_cnt a)).

Inductive astep : op → astate → astate → Prop :=
  | as_wake_pending t a : t ∈ D → a_cnt a t = 2 → astep (OpWake t) a a
  | as_wake_early t a : t ∈ D → a_cnt a t = 1 →
      astep (OpWake t) a (MkA (a_run a) (a_blk a) (a_ina a) (cset t 2 (a_cnt a)))
  | as_wake t a : t ∈ a_blk a →
      astep (OpWake t) a (MkA (enqueue t a) (without t (a_blk a)) (a_ina a) (cset t 1 (a_cnt a)))
  | as_block_pending t spdid a : t ∈ a_run a (prio t) → a_cnt a t = 2 →
      astep (OpBlock t spdid) a (MkA (a_run a) (a_blk a) (a_ina a) (cset t 1 (a_cnt a)))
  | as_block t spdid a : t ∈ a_run a (prio t) → a_cnt a t = 1 →
      astep (OpBlock t spdid) a (MkA (dequeue t a) (t :: a_blk a) (a_ina a) (cset t 0 (a_cnt a)))
  | as_event t flags cpu a a1 a2 : t ∈ D → upcall t flags a a1 → aged t a1 a2 →
      astep (OpEvent t flags cpu) a a2.

(** *** The abstract steps keep each thread on one list *)

Lemma elem_enqueue t a p k : k ∈ enqueue t a p ↔ k ∈ a_run a p ∨ (k = t ∧ p = prio t).
Proof.
  unfold enqueue, qset. case_decide; [subst|naive_solver].
  rewrite elem_of_app, list_elem_of_singleton. naive_solver.
Qed.
Lemma elem_dequeue t a p k : k ∈ dequeue t a p ↔ k ∈ a_run a p ∧ ¬ (k = t ∧ p = prio t).
Proof. unfold dequeue, qset. case_decide; [subst|naive_solver]. rewrite elem_of_without. naive_solver. Qed.
Lemma elem_rotate t a p k : t ∈ a_run a (prio t) → k ∈ rotate t a p ↔ k ∈ a_run a p.
Proof.
  intros Ht. unfold rotate, qset. case_decide; [subst|done].
  rewrite elem_of_app, elem_of_without, list_elem_of_singleton.
  destruct (decide (k = t)); naive_solver.
Qed.

Lemma nodup_enqueue t a p : 0 ≤ p < 32 → (∀ p, 0 ≤ p < 32 → NoDup (a_run a p)) →
  t ∉ a_run a (prio t) → NoDup (enqueue t a p).
Proof.
  intros Hp Hnd Ht. unfold enqueue, qset. case_decide; [subst|by apply Hnd].
  apply NoDup_app. split; [by apply Hnd|]. split; [set_solver|apply NoDup_singleton].
Qed.
Lemma nodup_dequeue t a p : 0 ≤ p < 32 → (∀ p, 0 ≤ p < 32 → NoDup (a_run a p)) → NoDup (dequeue t a p).
Proof.
  intros Hp Hnd. unfold dequeue, qset. case_decide; [subst|by apply Hnd]. by apply NoDup_without, Hnd.
Qed.
Lemma nodup_rotate t a p : 0 ≤ p < 32 → (∀ p, 0 ≤ p < 32 → NoDup (a_run a p)) → NoDup (rotate t a p).
Proof.
  intros Hp Hnd. unfold rotate, qset. case_decide; [subst|by apply Hnd].
  apply NoDup_app. split; [by apply NoDup_without, Hnd|]. split; [|apply NoDup_singleton].
  intros k Hk%elem_of_without. set_solver.
Qed.

Lemma cset_cnt a t v : a_wf a → v = 1 ∨ v = 2 → t ∉ a_blk a →
  a_wf (MkA (a_run a) (a_blk a) (a_ina a) (cset t v (a_cnt a))).
Proof.
  intros [H1 H2 H3 H4 H5 H6 H7 H8 H9 H10] Hv Ht. split; cbn; try done.
  - intros k Hk. rewrite cset_ne; [by apply H9|]. by intros ->.
  - intros k Hk Hb. destruct (decide (k = t)) as [->|]; [by rewrite cset_eq|].
    rewrite cset_ne by done. by apply H10.
Qed.

Lemma wake_wf a t : a_wf a → t ∈ a_blk a →
  a_wf (MkA (enqueue t a) (without t (a_blk a)) (a_ina a) (cset t 1 (a_cnt a))).
Proof.
  intros [H1 H2 H3 H4 H5 H6 H7 H8 H9 H10] Ht. destruct (H4 t Ht) as [HD Hi]. destruct (H1 t HD).
  split; cbn; try done.
  - intros p k Hp [Hk|[-> ->]]%elem_enqueue.
    + destruct (H2 p k Hp Hk) as (? & ? & ? & ?). rewrite elem_of_without. naive_solver.
    + rewrite elem_of_without. naive_solver.
  - intros p Hp. apply nodup_enqueue; [done|done|]. intros Hr. by destruct (H2 (prio t) t) as (_ & _ & ? & _).
  - intros k Hk%elem_of_without. naive_solver.
  - by apply NoDup_without.
  - intros k Hk. rewrite elem_enqueue, elem_of_without.
    destruct (decide (k = t)) as [->|]; [naive_solver|]. destruct (H8 k Hk) as [?|[?|?]]; naive_solver.
  - intros k [Hk ?]%elem_of_without. rewrite cset_ne by done. by apply H9.
  - intros k Hk Hb. destruct (decide (k = t)) as [->|]; [rewrite cset_eq; by left|].
    rewrite cset_ne by done. apply H10; [done|]. intros ?. apply Hb. by apply elem_of_without.
Qed.

Lemma block_wf a t : a_wf a → t ∈ a_run a (prio t) → t ∈ D →
  a_wf (MkA (dequeue t a) (t :: a_blk a) (a_ina a) (cset t 0 (a_cnt a))).
Proof.
  intros [H1 H2 H3 H4 H5 H6 H7 H8 H9 H10] Ht HD. destruct (H1 t HD) as [_ Hp].
  destruct (H2 _ _ Hp Ht) as (_ & _ & Hb & Hi). split; cbn; try done.
  - intros p k Hp' [Hk Hn]%elem_dequeue. destruct (H2 p k Hp' Hk) as (? & ? & ? & ?).
    rewrite elem_of_cons. naive_solver.
  - intros p Hp'. by apply nodup_dequeue.
  - intros k [->|Hk]%elem_of_cons; [done|by apply H4].
  - by apply NoDup_cons.
  - intros k Hk. rewrite elem_dequeue, elem_of_cons.
    destruct (decide (k = t)) as [->|]; [naive_solver|]. destruct (H8 k Hk) as [?|[?|?]]; naive_solver.
  - intros k [->|Hk]%elem_of_cons; [by rewrite cset_eq|]. rewrite cset_ne; [by apply H9|]. by intros ->.
  - intros k Hk Hn. rewrite cset_ne by set_solver. apply H10; [done|set_solver].
Qed.

Lemma upcall_wf a a' t flags : a_wf a → t ∈ D → upcall t flags a a' → a_wf a'.
Proof.
  intros Hwf HD Hup. destruct Hup as [a ?|a ? ?|a Hf Hi|a Hf Hf' Ht]; try done;
    destruct Hwf as [H1 H2 H3 H4 H5 H6 H7 H8 H9 H10]; destruct (H1 t HD) as [_ Hp].
  - assert (t ∉ a_blk a) as Hb by (intros Hb; by destruct (H4 t Hb)). split; cbn; try done.
    + intros p k Hp' [Hk|[-> ->]]%elem_enqueue; rewrite elem_of_without; [|naive_solver].
      destruct (H2 p k Hp' Hk) as (? & ? & ? & ?). naive_solver.
    + intros p Hp'. apply nodup_enqueue; [done|done|]. intros Hr. by destruct (H2 (prio t) t) as (_ & _ & _ & ?).
    + intros k Hk. destruct (H4 k Hk). rewrite elem_of_without. naive_solver.
    + intros k Hk%elem_of_without. naive_solver.
    + by apply NoDup_without.
    + intros k Hk. rewrite elem_enqueue, elem_of_without.
      destruct (decide (k = t)) as [->|]; [naive_solver|]. destruct (H8 k Hk) as [?|[?|?]]; naive_solver.
  - destruct (H2 _ _ Hp Ht) as (_ & _ & Hb & Hi). split; cbn; try done.
    + intros p k Hp' [Hk Hn]%elem_dequeue. destruct (H2 p k Hp' Hk) as (? & ? & ? & ?).
      rewrite elem_of_cons. naive_solver.
    + intros p Hp'. by apply nodup_dequeue.
    + intros k Hk. destruct (H4 k Hk). rewrite elem_of_cons. naive_solver.
    + intros k [->|Hk]%elem_of_cons; [done|by apply H6].
    + by apply NoDup_cons.
    + intros k Hk. rewrite elem_dequeue, elem_of_cons.
      destruct (decide (k = t)) as [->|]; [naive_solver|]. destruct (H8 k Hk) as [?|[?|?]]; naive_solver.
Qed.

Lemma aged_wf a a' t : a_wf a → aged t a a' → a_wf a'.
Proof.
  intros Hwf Hag. destruct Hag as [a|a Ht]; [done|].
  destruct Hwf as [H1 H2 H3 H4 H5 H6 H7 H8 H9 H10]. split; cbn; try done.
  - intros p k Hp Hk%elem_rotate; [|done]. by apply H2.
  - intros p Hp. by apply nodup_rotate.
  - intros k Hk. rewrite elem_rotate by done. by apply H8.
Qed.

(** ** The concrete state *)

(** The node of a thread agrees with the abstract state. *)
Record thd_inv a (t : nat) (x : sched_thd) : Prop := {
  ti_free : sched_thd_free x = false;
  ti_member : sched_thd_member x = false;
  ti_grp : sched_thd_grp x = false;
  ti_dying : sched_thd_dying x = false;
  ti_susp : sched_thd_suspended x = false;
  ti_prio : sm_priority (st_metric x) = prio t;
  ti_wake : st_wake_cnt x = a_cnt a t;
  ti_blk : sched_thd_blocked x = bool_decide (t ∈ a_blk a);
  ti_ina : sched_thd_inactive_evt x = bool_decide (t ∈ a_ina a);
  ti_evt : u8 (st_evt_id x) < Z.of_nat NUM_SCHED_EVTS;
  ti_T : sa_T (st_accounting x) = 0;
  ti_cyc : 0 ≤ sa_cycles (st_accounting x) ≤ QUANTUM
}.

(** The memory of a root scheduler represents the abstract state. *)
Record coupled (u : ustate) a : Prop := {
  cp_wf : a_wf a;
  cp_root : us_child u = false;
  cp_evts : length (sd_events (us_sda u)) = NUM_SCHED_EVTS;
  cp_thd t : t ∈ D → ∃ x, us_nodes u !! t = Some x ∧ thd_inv a t x;
  cp_rings : rq_rings u (a_run a);
  cp_mask : rq_mask u (a_run a);
  cp_blk : ring (pnx u) (ppv u) (blocked :: a_blk a);
  cp_ina : ring (pnx u) (ppv u) (upcall_deactive :: a_ina a)
}.

Lemma inv_ready a t x : thd_inv a t x →
  sched_thd_ready x = negb (bool_decide (t ∈ a_blk a)) && negb (bool_decide (t ∈ a_ina a)).
Proof. intros H. unfold sched_thd_ready. by rewrite (ti_blk _ _ _ H), (ti_ina _ _ _ H), (ti_dying _ _ _ H), andb_true_r. Qed.

Lemma inv_queued a t x : a_wf a → thd_inv a t x → t ∈ D →
  sched_thd_ready x = true ↔ t ∈ a_run a (prio t).
Proof.
  intros Hwf Hi HD. destruct (aw_prio _ Hwf t HD) as [_ Hp]. rewrite (inv_ready _ _ _ Hi). split.
  - intros [Hb Hn]%andb_true_iff. rewrite negb_true_iff, bool_decide_eq_false in Hb, Hn.
    destruct (aw_all _ Hwf t HD) as [?|[?|?]]; done.
  - intros Hr. destruct (aw_run _ Hwf _ _ Hp Hr) as (_ & _ & ? & ?). by rewrite !bool_decide_false.
Qed.

Lemma coupled_ok u a : coupled u a → rq_ok u (a_run a).
Proof.
  intros Hc. pose proof (cp_wf _ _ Hc) as Hwf.
  split; [apply (cp_rings _ _ Hc)|]. split; [apply (cp_mask _ _ Hc)|].
  intros p t x Hp Ht Hx. destruct (aw_run _ Hwf p t Hp Ht) as (HD & <- & _ & _).
  destruct (cp_thd _ _ Hc t HD) as (y & Hy & Hi). simplify_eq. split.
  - by apply (inv_queued a t x Hwf Hi HD).
  - apply (ti_susp _ _ _ Hi).
Qed.

Lemma sides_apart a : a_wf a →
  (∀ k, k ∈ blocked :: a_blk a → k ∉ upcall_deactive :: a_ina a) ∧
  NoDup (blocked :: a_blk a) ∧ NoDup (upcall_deactive :: a_ina a).
Proof.
  intros Hwf.
  assert (∀ k, k ∈ a_blk a → (35 ≤ k)%nat ∧ k ∉ a_ina a) as Hb.
  { intros k Hk. destruct (aw_blk _ Hwf k Hk) as [HD ?]. by destruct (aw_prio _ Hwf k HD). }
  assert (∀ k, k ∈ a_ina a → (35 ≤ k)%nat) as Hi.
  { intros k Hk. pose proof (aw_ina _ Hwf k Hk) as HD. by destruct (aw_prio _ Hwf k HD). }
  split; [|rewrite !NoDup_cons; split; (split; [|apply Hwf])].
  - intros k [->|Hk]%elem_of_cons [E|Hin]%elem_of_cons.
    + done.
    + specialize (Hi _ Hin). unfold blocked in Hi. lia.
    + destruct (Hb _ Hk) as [? _]. unfold upcall_deactive in E. lia.
    + by destruct (Hb _ Hk).
  - intros Hk. destruct (Hb _ Hk) as [H _]. unfold blocked in H. lia.
  - intros Hk. specialize (Hi _ Hk). unfold upcall_deactive in Hi. lia.
Qed.

(** The coupling after a step about the thread [t]. *)
Lemma coupled_step u u' a a' t x' : coupled u a → a_wf a' → t ∈ D → upto t u u' →
  us_nodes u' !! t = Some x' → thd_inv a' t x' →
  length (sd_events (us_sda u')) = length (sd_events (us_sda u)) →
  (∀ k, k ≠ t → a_cnt a' k = a_cnt a k ∧ (k ∈ a_blk a' ↔ k ∈ a_blk a) ∧ (k ∈ a_ina a' ↔ k ∈ a_ina a)) →
  rq_rings u' (a_run a') → rq_mask u' (a_run a') →
  ring (pnx u') (ppv u') (blocked :: a_blk a') →
  ring (pnx u') (ppv u') (upcall_deactive :: a_ina a') → coupled u' a'.
Proof.
  intros Hc Hwf HD [Hu Hup] Hx' Hi Hev Hoth Hr Hm Hb Hn. split; try done.
  - rewrite Hu. apply (cp_root _ _ Hc).
  - rewrite Hev. apply (cp_evts _ _ Hc).
  - intros k Hk. destruct (decide (k = t)) as [->|Hne]; [by exists x'|].
    destruct (cp_thd _ _ Hc k Hk) as (y & Hy & [H1 H2 H3 H4 H5 H6 H7 H8 H9 H10 H11 H12]).
    destruct (Hup k y Hne Hy) as (y' & Hy' & (Hf & Hme & Hw & He & _) & Ha). exists y'. split; [done|].
    destruct (Hoth k Hne) as (Hcnt & Hblk & Hina).
    unfold sched_thd_free, sched_thd_member, sched_thd_grp, sched_thd_dying, sched_thd_suspended,
      sched_thd_blocked, sched_thd_inactive_evt in *.
    split; unfold sched_thd_free, sched_thd_member, sched_thd_grp, sched_thd_dying,
      sched_thd_suspended, sched_thd_blocked, sched_thd_inactive_evt; rewrite ?Hf, ?Hme, ?Hw, ?He, ?Ha, ?Hcnt; try done.
    + rewrite H8. by apply bool_decide_ext.
    + rewrite H9. by apply bool_decide_ext.
Qed.

(** *** Off a run queue onto another list, and back *)

(** The list with head [h] is apart from the run queues. *)
Definition off_queues a (l : list nat) : Prop :=
  ∀ k, k ∈ l → ∀ p, 0 ≤ p < 32 → k ∉ head_of p :: a_run a p.

(** The other lists are apart from the run queues; the heads are not threads. *)
Lemma side_off a : a_wf a →
  off_queues a (blocked :: a_blk a) ∧ off_queues a (upcall_deactive :: a_ina a).
Proof.
  intros Hwf.
  assert (∀ p k, 0 ≤ p < 32 → k ∈ head_of p :: a_run a p →
    (k < 32 ∨ 35 ≤ k)%nat ∧ ((35 ≤ k)%nat → k ∈ a_run a p)) as Hr.
  { intros p k Hp [->|Hk]%elem_of_cons; [unfold head_of; lia|].
    destruct (aw_run _ Hwf p k Hp Hk) as (HD & _). destruct (aw_prio _ Hwf k HD). done || (split; [lia|done]). }
  split; intros k [->|Hk]%elem_of_cons p Hp Hin; destruct (Hr p _ Hp Hin) as [Hlt Hq];
    unfold blocked, upcall_deactive in *; try lia.
  - destruct (aw_blk _ Hwf k Hk) as [HD _]. destruct (aw_prio _ Hwf k HD) as [Hk35 _].
    by destruct (aw_run _ Hwf p k Hp (Hq Hk35)) as (_ & _ & ? & _).
  - pose proof (aw_ina _ Hwf k Hk) as HD. destruct (aw_prio _ Hwf k HD) as [Hk35 _].
    by destruct (aw_run _ Hwf p k Hp (Hq Hk35)) as (_ & _ & _ & ?).
Qed.

(** A queued thread leaves its run queue for the list with head [h]; another
    list, with head [h'], stays as it is. *)
Lemma park_run u a t x h l h' l' :
  a_wf a → rq_rings u (a_run a) → rq_mask u (a_run a) → t ∈ a_run a (prio t) →
  t ∈ D → us_nodes u !! t = Some x → sched_thd_member x = false →
  ring (pnx u) (ppv u) (h :: l) → NoDup (h :: l) → off_queues a (h :: l) →
  ring (pnx u) (ppv u) (h' :: l') → off_queues a (h' :: l') → (∀ k, k ∈ h :: l → k ∉ h' :: l') →
  ∃ u1 u', thread_block t u = Done tt u1 ∧ EMPTY_LIST prio_links t u1 = Done true u1 ∧
    ADD_LIST prio_links (mret h) t u1 = Done tt u' ∧ moved u u' ∧
    rq_rings u' (dequeue t a) ∧ rq_mask u' (dequeue t a) ∧
    ring (pnx u') (ppv u') (h :: t :: l) ∧ ring (pnx u') (ppv u') (h' :: l').
Proof.
  intros Hwf Hq Hm Ht HD Hx Hmem Hr Hnd Hoff Hr' Hoff' Hap. destruct (aw_prio _ Hwf t HD) as [_ Hp].
  destruct (without_split t (a_run a (prio t))) as (l1 & l2 & Hl & Hw); [by apply Hwf|done|].
  destruct (fp_rem_thd_run u (a_run a) (prio t) t l1 l2) as (u1 & Hrun & Hmv & Hq1 & Hm1 & [Hal _] & Hfr);
    try done. rewrite <-Hw in Hq1, Hm1.
  assert (∀ l, off_queues a l → ∀ k, k ∈ l → k ∉ t :: head_of (prio t) :: a_run a (prio t)) as Hno.
  { intros r Hoffr k Hk [->|Hin]%elem_of_cons; apply (Hoffr _ Hk (prio t) Hp); set_solver. }
  assert (t ∉ h :: l) as Htl by (intros H; apply (Hno _ Hoff t H); set_solver).
  destruct (add_side u1 h t l) as (u2 & Hrun2 & Hrel2 & Hr2 & Hfr2); try done.
  { eapply framed_ring; [exact Hfr|by apply Hno|done]. }
  { rewrite (moved_length _ _ Hmv). by eapply lookup_lt_Some. }
  exists u1, u2. split; [|split; [by rewrite (empty_list_run prio_links _ _ _ Hal), bool_decide_true|]].
  { unfold thread_block. rewrite (bind_run _ _ _ _ _ (get_node_run _ _ _ Hx)), Hmem.
    by erewrite bind_run by reflexivity. }
  split; [done|]. split; [eapply moved_trans; [done|by apply relinked_moved]|].
  split; [|split; [by apply (mask_relinked u1)|split; [done|]]].
  - split; [|apply (rq_nodup _ _ Hq1)|].
    + intros p Hp'. eapply framed_ring; [exact Hfr2| |by apply (rq_ring _ _ Hq1)].
      intros k Hk [->|Hin]%elem_of_cons.
      * apply elem_of_cons in Hk as [->|Hk].
        -- destruct (aw_prio _ Hwf _ HD). pose proof (head_of_lt p Hp'). lia.
        -- apply elem_dequeue in Hk as [Hk Hne]. destruct (aw_run _ Hwf p t Hp' Hk) as (_ & ? & _). naive_solver.
      * apply (Hoff k Hin p Hp'). apply elem_of_cons in Hk as [->|Hk]; [set_solver|].
        apply elem_dequeue in Hk as [Hk _]. set_solver.
    + intros p k Hp' Hk. eapply thd_ok_relinked; [done|]. by apply (rq_thd _ _ Hq1).
  - eapply framed_ring; [exact Hfr2| |eapply framed_ring; [exact Hfr|by apply Hno|done]].
    intros k Hk [->|Hin]%elem_of_cons; [by apply (Hno _ Hoff' t Hk); set_solver|]. by apply (Hap k Hin).
Qed.

(** A thread on the list with head [h] goes to the end of its run queue. *)
Lemma unpark_run u a t x h l1 l2 : a_wf a → rq_rings u (a_run a) → rq_mask u (a_run a) → t ∈ D →
  t ∉ a_run a (prio t) → us_nodes u !! t = Some x → sm_priority (st_metric x) = prio t →
  sched_thd_free x = false → sched_thd_ready x = true → sched_thd_suspended x = false →
  sched_thd_member x = false → evt_ok u x →
  ring (pnx u) (ppv u) (h :: l1 ++ t :: l2) → NoDup (h :: l1 ++ t :: l2) →
  off_queues a (h :: l1 ++ t :: l2) →
  ∃ u1 x1 u2 x2, REM_LIST prio_links t u = Done tt u1 ∧
    us_nodes u1 !! t = Some x1 ∧ st_flags x1 = st_flags x ∧ us_child u1 = us_child u ∧
    thread_wakeup t u1 = Done tt u2 ∧ upto t u u2 ∧ us_nodes u2 !! t = Some x2 ∧ like x x2 ∧
    rq_rings u2 (enqueue t a) ∧ rq_mask u2 (enqueue t a) ∧
    ring (pnx u2) (ppv u2) (h :: l1 ++ l2) ∧
    framed (head_of (prio t) :: a_run a (prio t) ++ h :: l1 ++ t :: l2) u u2 ∧
    length (sd_events (us_sda u2)) = length (sd_events (us_sda u)).
Proof.
  intros Hwf Hq Hm HD Hnt Hx Hpr Hf Hrd Hsu Hmem Hev Hr Hnd Hap.
  destruct (aw_prio _ Hwf t HD) as [Htl Hp].
  destruct (rem_side u h t l1 l2 Hr Hnd) as (u1 & Hrun1 & Hrel1 & Hr1 & Hal1 & Hfr1).
  pose proof (relinked_moved _ _ Hrel1) as Hmv1.
  destruct (moved_same _ _ _ _ Hmv1 Hx) as (x1 & Hx1 & Hs1 & Ha1).
  assert (like x x1) as Hlk1 by by apply same_like. destruct Hlk1 as (Hfl1 & Hpr1 & Hw1 & He1 & _).
  assert (rq_rings u1 (a_run a)) as Hq1.
  { split; [|apply (rq_nodup _ _ Hq)|].
    - intros p Hp'. eapply framed_ring; [exact Hfr1| |by apply (rq_ring _ _ Hq)].
      intros k Hk Hin. by apply (Hap k Hin p Hp').
    - intros p k Hp' Hk. eapply thd_ok_relinked; [done|]. by apply (rq_thd _ _ Hq). }
  pose proof (mask_relinked _ _ _ Hrel1 Hm) as Hm1.
  assert (us_sda u1 = us_sda u ∧ us_child u1 = us_child u) as [Hsda Hch] by (destruct Hrel1 as [-> _]; done).
  destruct (thread_wakeup_run u1 (a_run a) (prio t) t x1) as
    (u2 & x2 & Hrun2 & Hup2 & Hx2 & Hlk2 & Hq2 & Hm2 & Hfr2 & Hev2); try done.
  - split; [done|]. exists x1. unfold sched_thd_free. rewrite Hfl1, Hpr1. done.
  - unfold sched_thd_ready, sched_thd_blocked, sched_thd_inactive_evt, sched_thd_dying in *. by rewrite Hfl1.
  - unfold sched_thd_suspended in *. by rewrite Hfl1.
  - unfold sched_thd_member in *. by rewrite Hfl1.
  - unfold evt_ok in *. by rewrite He1, Hsda.
  - exists u1, x1, u2, x2. do 5 (split; [done|]).
    split; [eapply upto_trans; [by apply upto_moved|done]|]. split; [done|].
    split; [eapply like_trans; [by apply same_like|done]|]. do 2 (split; [done|]).
    assert (t ∉ h :: l1 ++ l2) as Htn.
    { change (NoDup ((h :: l1) ++ t :: l2)) in Hnd. rewrite <-Permutation_middle in Hnd.
      by apply NoDup_cons in Hnd as [? _]. }
    split; [|split; [|by rewrite Hev2, Hsda]].
    + eapply framed_ring; [exact Hfr2| |done]. intros k Hk [->|Hin]%elem_of_cons; [done|].
      apply (Hap k) in Hin; [done|set_solver|done].
    + eapply framed_trans; [eapply framed_sub; [exact Hfr1|set_solver]|].
      eapply framed_sub; [exact Hfr2|set_solver].
Qed.

(** *** Blocking *)

Lemma pre_block_run u t x : us_nodes u !! t = Some x → 0 < st_wake_cnt x ≤ 2 →
  fp_pre_block t u = Done tt (put u t (set_st_block_time (us_ticks u)
    (set_st_wake_cnt (st_wake_cnt x - 1) x))).
Proof.
  intros Hx Hw. unfold fp_pre_block. rewrite (bind_run _ _ _ _ _ (get_node_run _ _ _ Hx)).
  rewrite (proj2 (Z.ltb_lt 0 _)), (proj2 (Z.leb_le _ 2)) by lia.
  erewrite !(bind_run (assert _)) by reflexivity.
  rewrite (bind_run _ _ _ _ _ (upd_node_run _ _ _ _ Hx)).
  erewrite bind_run by reflexivity. by apply (upd_put u t x).
Qed.

(** The node of a thread that blocks. *)
Definition blocked_node (ticks spdid : Z) (x : sched_thd) : sched_thd :=
  set_st_flags (bset (bclr (st_flags x) THD_READY) THD_BLOCKED)
    (set_st_blocking_component spdid (set_st_block_time ticks
      (set_st_wake_cnt (st_wake_cnt x - 1) x))).

Lemma block_exec u a t x spdid u5 u6 : us_nodes u !! t = Some x → thd_inv a t x → t ∉ a_blk a →
  st_wake_cnt x = 1 → let x4 := blocked_node (us_ticks u) spdid x in
  thread_block t (put u t x4) = Done tt u5 → EMPTY_LIST prio_links t u5 = Done true u5 →
  ADD_LIST prio_links (mret blocked) t u5 = Done tt u6 →
  (fp_pre_block t;; y ← get_node t; when (st_wake_cnt y =? 0) (fp_block t spdid)) u = Done tt u6.
Proof.
  intros Hx Hi Hb Hw x4 Hrun5 Hem5 Hrun6.
  set (x1 := set_st_block_time (us_ticks u) (set_st_wake_cnt (st_wake_cnt x - 1) x)).
  set (x2 := set_st_blocking_component spdid x1).
  rewrite (bind_run _ _ _ _ _ (pre_block_run u t x Hx ltac:(lia))). fold x1.
  rewrite (bind_run _ _ _ _ _ (get_put u t x x1 Hx)).
  assert (st_wake_cnt x1 = 0) as Hw1 by (cbn; lia). rewrite Hw1. cbn [Z.eqb when].
  unfold fp_block. rewrite (bind_run _ _ _ _ _ (get_put u t x x1 Hx)), Hw1.
  erewrite bind_run by reflexivity. rewrite (bind_run _ _ _ _ _ (upd_put u t x x1 _ Hx)). fold x2.
  unfold fp_block_thd. rewrite (bind_run _ _ _ _ _ (get_put u t x x2 Hx)).
  change (sched_thd_free x2) with (sched_thd_free x). change (sched_thd_blocked x2) with (sched_thd_blocked x).
  change (sched_thd_member x2) with (sched_thd_member x). change (st_wake_cnt x2) with (st_wake_cnt x1).
  rewrite (ti_free _ _ _ Hi), (ti_blk _ _ _ Hi), (ti_member _ _ _ Hi), Hw1, bool_decide_false by done.
  erewrite !(bind_run (assert _)) by reflexivity. unfold clr_flag, set_flag.
  rewrite (bind_run _ _ _ _ _ (upd_put u t x _ _ Hx)), (bind_run _ _ _ _ _ (upd_put u t x _ _ Hx)).
  cbn [negb]. rewrite (bind_run (mbind _ (thread_block t)) _ _ tt u5); [done|].
  by rewrite (bind_run _ _ _ _ _ Hrun5), (bind_run _ _ _ _ _ Hem5).
Qed.

Lemma block_run u a t x spdid : coupled u a → t ∈ D → us_nodes u !! t = Some x → thd_inv a t x →
  t ∈ a_run a (prio t) → a_cnt a t = 1 →
  ∃ u' x', (fp_pre_block t;; y ← get_node t; when (st_wake_cnt y =? 0) (fp_block t spdid)) u = Done tt u' ∧
    upto t u u' ∧ us_nodes u' !! t = Some x' ∧ like (blocked_node (us_ticks u) spdid x) x' ∧
    rq_rings u' (dequeue t a) ∧ rq_mask u' (dequeue t a) ∧
    ring (pnx u') (ppv u') (blocked :: t :: a_blk a) ∧
    ring (pnx u') (ppv u') (upcall_deactive :: a_ina a) ∧ us_sda u' = us_sda u.
Proof.
  intros Hc HD Hx Hi Ht Hcnt. pose proof (cp_wf _ _ Hc) as Hwf. destruct (aw_prio _ Hwf t HD) as [Htl Hp].
  destruct (aw_run _ Hwf _ _ Hp Ht) as (_ & _ & Hb & Hn).
  pose proof (ti_wake _ _ _ Hi) as Hw. rewrite Hcnt in Hw.
  set (x4 := blocked_node (us_ticks u) spdid x).
  assert (framed [] u (put u t x4)) as Hfr4 by by eapply put_links.
  destruct (sides_apart a Hwf) as (Hap & Hndb & Hndn). destruct (side_off a Hwf) as [Hob Hon].
  destruct (park_run (put u t x4) a t x4 blocked (a_blk a) upcall_deactive (a_ina a))
    as (u5 & u6 & Hrun5 & Hem5 & Hrun6 & Hmv6 & Hq6 & Hm6 & Hb6 & Hn6); try done.
  { apply (put_rings _ _ _ _ x); try done; [apply (cp_rings _ _ Hc)|].
    unfold sched_thd_free. cbn. rewrite has_bset, has_bclr_other by done. by rewrite orb_false_r. }
  { apply (cp_mask _ _ Hc). }
  { by eapply put_eq. }
  { unfold sched_thd_member. cbn. rewrite has_bset, has_bclr_other by done. rewrite orb_false_r. apply (ti_member _ _ _ Hi). }
  { eapply framed_ring; [exact Hfr4|set_solver|apply (cp_blk _ _ Hc)]. }
  { eapply framed_ring; [exact Hfr4|set_solver|apply (cp_ina _ _ Hc)]. }
  destruct (moved_same _ _ _ _ Hmv6 (put_eq u t x4 x Hx)) as (x6 & Hx6 & Hs6 & Ha6).
  exists u6, x6. split; [|split; [eapply upto_trans; [apply upto_put|by apply upto_moved]|]].
  - by eapply block_exec.
  - split; [done|]. split; [by apply same_like|]. do 4 (split; [done|]).
    destruct Hmv6 as [Hmv6 _]. by apply (f_equal us_sda) in Hmv6.
Qed.

(** *** Waking *)

Lemma pre_wakeup_run u t x : us_nodes u !! t = Some x → 0 ≤ st_wake_cnt x < 2 →
  sched_thd_blocked x = true ∨ st_wake_cnt x = 1 →
  fp_pre_wakeup t u = Done tt (put u t (set_st_wake_cnt (st_wake_cnt x + 1) x)).
Proof.
  intros Hx Hw Hb. unfold fp_pre_wakeup. rewrite (bind_run _ _ _ _ _ (get_node_run _ _ _ Hx)).
  rewrite (proj2 (Z.leb_le 0 _)), (proj2 (Z.leb_le _ 2)), (proj2 (Z.eqb_neq _ 2)) by lia.
  erewrite bind_run by reflexivity. rewrite (bind_run _ _ _ _ _ (upd_node_run _ _ _ _ Hx)).
  change (set_us_nodes _ u) with (put u t (set_st_wake_cnt (st_wake_cnt x + 1) x)).
  rewrite (bind_run _ _ _ _ _ (get_put u t x _ Hx)). cbn [st_wake_cnt set_st_wake_cnt].
  change (sched_thd_blocked (set_st_wake_cnt _ x)) with (sched_thd_blocked x).
  destruct Hb as [->| ->]; [by rewrite andb_false_r|]. by rewrite orb_true_r, andb_false_r.
Qed.

(** The node of a thread that is woken. *)
Definition woken_node (x : sched_thd) : sched_thd :=
  set_st_flags (bset (bclr (st_flags x) THD_BLOCKED) THD_READY)
    (set_st_blocking_component 0 (set_st_wake_cnt (st_wake_cnt x + 1) x)).

(** Bits other than the ones exchanged. *)
Lemma swap_bit f m s k : Z.land m k = 0 → has s k = false → has (bset (bclr f m) s) k = has f k.
Proof. intros Hm Hs. rewrite has_bset, has_bclr_other by done. by rewrite Hs, orb_false_r. Qed.

Lemma unblocked_ready a t x : thd_inv a t x → t ∉ a_ina a → sched_thd_ready (woken_node x) = true.
Proof.
  intros Hi Hn. unfold sched_thd_ready, sched_thd_blocked, sched_thd_inactive_evt, sched_thd_dying. cbn.
  rewrite has_bset, has_bclr_same, !swap_bit by done.
  pose proof (ti_ina _ _ _ Hi) as H1. pose proof (ti_dying _ _ _ Hi) as H2.
  unfold sched_thd_inactive_evt, sched_thd_dying in *. rewrite H1, H2. by rewrite bool_decide_false.
Qed.

Lemma wake_exec u a t x u5 x5 u6 : us_nodes u !! t = Some x → thd_inv a t x →
  sched_thd_blocked x = true → st_wake_cnt x = 0 → us_child u5 = false →
  REM_LIST prio_links t (put u t (woken_node x)) = Done tt u5 →
  us_nodes u5 !! t = Some x5 → st_flags x5 = st_flags (woken_node x) →
  thread_wakeup t u5 = Done tt u6 →
  (fp_pre_wakeup t;; y ← get_node t; when (sched_thd_blocked y) (fp_wakeup t)) u = Done tt u6.
Proof.
  intros Hx Hi Hbx Hw Hch5 Hrun5 Hx5 Hfl5 Hrun6.
  set (x1 := set_st_wake_cnt (st_wake_cnt x + 1) x). set (x2 := set_st_blocking_component 0 x1).
  rewrite (bind_run _ _ _ _ _ (pre_wakeup_run u t x Hx ltac:(lia) (or_introl Hbx))). fold x1.
  rewrite (bind_run _ _ _ _ _ (get_put u t x x1 Hx)).
  change (sched_thd_blocked x1) with (sched_thd_blocked x). rewrite Hbx. cbn [when].
  unfold fp_wakeup, wakeup_by. rewrite (bind_run _ _ _ _ _ (get_put u t x x1 Hx)).
  assert (st_wake_cnt x1 = 1) as -> by (cbn; lia). erewrite bind_run by reflexivity.
  rewrite (bind_run _ _ _ _ _ (upd_put u t x x1 _ Hx)). fold x2.
  unfold fp_resume_thd. cbn [resume_loop]. rewrite (bind_run _ _ _ _ _ (get_put u t x x2 Hx)).
  assert (sched_thd_ready x2 = false) as Hr2.
  { unfold sched_thd_ready. change (sched_thd_blocked x2) with (sched_thd_blocked x). by rewrite Hbx. }
  change (sched_thd_free x2) with (sched_thd_free x). change (sched_thd_blocked x2) with (sched_thd_blocked x).
  rewrite (ti_free _ _ _ Hi), Hbx, Hr2. erewrite !(bind_run (assert _)) by reflexivity.
  unfold clr_flag, set_flag.
  rewrite (bind_run _ _ _ _ _ (upd_put u t x _ _ Hx)), (bind_run _ _ _ _ _ (upd_put u t x _ _ Hx)).
  change (set_st_flags _ (set_st_flags _ x2)) with (woken_node x).
  rewrite (bind_run _ _ _ _ _ Hrun5), (bind_run _ _ _ _ _ (get_node_run _ _ _ Hx5)).
  assert (sched_thd_member x5 = false) as ->.
  { unfold sched_thd_member. rewrite Hfl5. cbn. rewrite swap_bit by done. apply (ti_member _ _ _ Hi). }
  unfold sched_is_root. cbn [negb]. erewrite bind_run by (erewrite bind_run by reflexivity; reflexivity).
  erewrite bind_run by reflexivity. rewrite Hch5. by erewrite bind_run by reflexivity.
Qed.

Lemma wake_run u a t x : coupled u a → us_nodes u !! t = Some x → thd_inv a t x → t ∈ a_blk a →
  ∃ u' x', (fp_pre_wakeup t;; y ← get_node t; when (sched_thd_blocked y) (fp_wakeup t)) u = Done tt u' ∧
    upto t u u' ∧ us_nodes u' !! t = Some x' ∧ like (woken_node x) x' ∧
    rq_rings u' (enqueue t a) ∧ rq_mask u' (enqueue t a) ∧
    ring (pnx u') (ppv u') (blocked :: without t (a_blk a)) ∧
    ring (pnx u') (ppv u') (upcall_deactive :: a_ina a) ∧
    length (sd_events (us_sda u')) = length (sd_events (us_sda u)).
Proof.
  intros Hc Hx Hi Hb. pose proof (cp_wf _ _ Hc) as Hwf. destruct (aw_blk _ Hwf t Hb) as [HD Hn].
  destruct (aw_prio _ Hwf t HD) as [Htl Hp]. pose proof (ti_wake _ _ _ Hi) as Hw.
  rewrite (aw_zero _ Hwf t Hb) in Hw.
  assert (sched_thd_blocked x = true) as Hbx by (rewrite (ti_blk _ _ _ Hi); by apply bool_decide_eq_true).
  set (x4 := woken_node x).
  assert (framed [] u (put u t x4)) as Hfr4 by by eapply put_links.
  destruct (sides_apart a Hwf) as (Hap & Hndb & Hndn). destruct (side_off a Hwf) as [Hob Hon].
  destruct (without_split t (a_blk a)) as (l1 & l2 & Hl & Hwo); [by apply Hwf|done|].
  assert (t ∉ a_run a (prio t)) as Hnq by (intros H; by destruct (aw_run _ Hwf _ _ Hp H) as (_ & _ & ? & _)).
  destruct (unpark_run (put u t x4) a t x4 blocked l1 l2) as
    (u5 & x5 & u6 & x6 & Hrun5 & Hx5 & Hfl5 & Hch5 & Hrun6 & Hup6 & Hx6 & Hlk6 & Hq6 & Hm6 & Hb6 & Hfr6 & Hev6);
    rewrite <-?Hl; try done.
  { apply (put_rings _ _ _ _ x); try done; [apply (cp_rings _ _ Hc)|].
    unfold sched_thd_free. cbn. by rewrite swap_bit. }
  { apply (cp_mask _ _ Hc). }
  { by eapply put_eq. }
  { apply (ti_prio _ _ _ Hi). }
  { unfold sched_thd_free. cbn. rewrite swap_bit by done. apply (ti_free _ _ _ Hi). }
  { by eapply unblocked_ready. }
  { unfold sched_thd_suspended. cbn. rewrite swap_bit by done. apply (ti_susp _ _ _ Hi). }
  { unfold sched_thd_member. cbn. rewrite swap_bit by done. apply (ti_member _ _ _ Hi). }
  { split; [apply (ti_evt _ _ _ Hi)|apply (cp_evts _ _ Hc)]. }
  { eapply framed_ring; [exact Hfr4|set_solver|apply (cp_blk _ _ Hc)]. }
  exists u6, x6. split; [|split; [eapply upto_trans; [apply upto_put|done]|]].
  - eapply wake_exec; try done. rewrite Hch5. apply (cp_root _ _ Hc).
  - rewrite <-Hwo in Hb6. do 5 (split; [done|]). split; [|done].
    eapply framed_ring; [exact Hfr6| |eapply framed_ring; [exact Hfr4|set_solver|apply (cp_ina _ _ Hc)]].
    intros k Hk. rewrite <-Hl, app_comm_cons, elem_of_app. intros [Hin|Hin]; [by apply (Hon k Hk (prio t) Hp)|].
    by apply (Hap k Hin).
Qed.

(** *** Upcalls *)

Definition activated_node (x : sched_thd) : sched_thd :=
  set_st_flags (bset (bclr (st_flags x) THD_UC_READY) THD_READY) x.
Definition deactivated_node (x : sched_thd) : sched_thd :=
  set_st_flags (bset (bclr (st_flags x) THD_READY) THD_UC_READY) x.

Lemma activate_run u a t x : coupled u a → us_nodes u !! t = Some x → thd_inv a t x → t ∈ a_ina a →
  ∃ u' x', fp_activate_upcall t u = Done tt u' ∧
    upto t u u' ∧ us_nodes u' !! t = Some x' ∧ like (activated_node x) x' ∧
    rq_rings u' (enqueue t a) ∧ rq_mask u' (enqueue t a) ∧
    ring (pnx u') (ppv u') (blocked :: a_blk a) ∧
    ring (pnx u') (ppv u') (upcall_deactive :: without t (a_ina a)) ∧
    length (sd_events (us_sda u')) = length (sd_events (us_sda u)).
Proof.
  intros Hc Hx Hi Hn. pose proof (cp_wf _ _ Hc) as Hwf. pose proof (aw_ina _ Hwf t Hn) as HD.
  assert (t ∉ a_blk a) as Hb by (intros Hb; by destruct (aw_blk _ Hwf t Hb)).
  destruct (aw_prio _ Hwf t HD) as [Htl Hp].
  assert (sched_thd_inactive_evt x = true) as Hnx by (rewrite (ti_ina _ _ _ Hi); by apply bool_decide_eq_true).
  set (x4 := activated_node x).
  assert (framed [] u (put u t x4)) as Hfr4 by by eapply put_links.
  destruct (sides_apart a Hwf) as (Hap & Hndb & Hndn). destruct (side_off a Hwf) as [Hob Hon].
  destruct (without_split t (a_ina a)) as (l1 & l2 & Hl & Hwo); [by apply Hwf|done|].
  assert (t ∉ a_run a (prio t)) as Hnq by (intros H; by destruct (aw_run _ Hwf _ _ Hp H) as (_ & _ & _ & ?)).
  destruct (unpark_run (put u t x4) a t x4 upcall_deactive l1 l2) as
    (u5 & x5 & u6 & x6 & Hrun5 & Hx5 & Hfl5 & Hch5 & Hrun6 & Hup6 & Hx6 & Hlk6 & Hq6 & Hm6 & Hb6 & Hfr6 & Hev6);
    rewrite <-?Hl; try done.
  { apply (put_rings _ _ _ _ x); try done; [apply (cp_rings _ _ Hc)|].
    unfold sched_thd_free. cbn. by rewrite swap_bit. }
  { apply (cp_mask _ _ Hc). }
  { by eapply put_eq. }
  { apply (ti_prio _ _ _ Hi). }
  { unfold sched_thd_free. cbn. rewrite swap_bit by done. apply (ti_free _ _ _ Hi). }
  { unfold sched_thd_ready, sched_thd_blocked, sched_thd_inactive_evt, sched_thd_dying. cbn.
    rewrite (has_bset _ _ THD_UC_READY), has_bclr_same, !swap_bit by done.
    pose proof (ti_blk _ _ _ Hi) as H1. pose proof (ti_dying _ _ _ Hi) as H2.
    unfold sched_thd_blocked, sched_thd_dying in *. rewrite H1, H2. by rewrite bool_decide_false. }
  { unfold sched_thd_suspended. cbn. rewrite swap_bit by done. apply (ti_susp _ _ _ Hi). }
  { unfold sched_thd_member. cbn. rewrite swap_bit by done. apply (ti_member _ _ _ Hi). }
  { split; [apply (ti_evt _ _ _ Hi)|apply (cp_evts _ _ Hc)]. }
  { eapply framed_ring; [exact Hfr4|set_solver|apply (cp_ina _ _ Hc)]. }
  exists u6, x6. split; [|split; [eapply upto_trans; [apply upto_put|done]|]].
  - unfold fp_activate_upcall. rewrite (bind_run _ _ _ _ _ (get_node_run _ _ _ Hx)), Hnx. cbn [when].
    unfold clr_flag, set_flag. rewrite (bind_run _ _ _ _ _ (upd_node_run _ _ _ _ Hx)).
    change (set_us_nodes _ u) with (put u t (set_st_flags (bclr (st_flags x) THD_UC_READY) x)).
    rewrite (bind_run _ _ _ _ _ (upd_put u t x _ _ Hx)). change (set_st_flags _ (set_st_flags _ x)) with x4.
    rewrite (bind_run _ _ _ _ _ Hrun5). unfold sched_is_root.
    erewrite bind_run by (erewrite bind_run by reflexivity; reflexivity).
    erewrite bind_run by reflexivity. rewrite (bind_run _ _ _ _ _ (get_node_run _ _ _ Hx5)), Hch5.
    change (us_child (put u t x4)) with (us_child u). rewrite (cp_root _ _ Hc).
    by erewrite bind_run by reflexivity.
  - rewrite <-Hwo in Hb6. do 4 (split; [done|]). split; [|done].
    eapply framed_ring; [exact Hfr6| |eapply framed_ring; [exact Hfr4|set_solver|apply (cp_blk _ _ Hc)]].
    intros k Hk. rewrite <-Hl, app_comm_cons, elem_of_app. intros [Hin|Hin]; [by apply (Hob k Hk (prio t) Hp)|].
    by apply (Hap k Hk).
Qed.

Lemma deactivate_run u a t x : coupled u a → t ∈ D → us_nodes u !! t = Some x → thd_inv a t x →
  t ∈ a_run a (prio t) →
  ∃ u' x', fp_deactivate_upcall t u = Done tt u' ∧
    upto t u u' ∧ us_nodes u' !! t = Some x' ∧ like (deactivated_node x) x' ∧
    rq_rings u' (dequeue t a) ∧ rq_mask u' (dequeue t a) ∧
    ring (pnx u') (ppv u') (blocked :: a_blk a) ∧
    ring (pnx u') (ppv u') (upcall_deactive :: t :: a_ina a) ∧ us_sda u' = us_sda u.
Proof.
  intros Hc HD Hx Hi Ht. pose proof (cp_wf _ _ Hc) as Hwf. set (x4 := deactivated_node x).
  assert (framed [] u (put u t x4)) as Hfr4 by by eapply put_links.
  destruct (sides_apart a Hwf) as (Hap & Hndb & Hndn). destruct (side_off a Hwf) as [Hob Hon].
  destruct (park_run (put u t x4) a t x4 upcall_deactive (a_ina a) blocked (a_blk a))
    as (u5 & u6 & Hrun5 & Hem5 & Hrun6 & Hmv6 & Hq6 & Hm6 & Hb6 & Hn6); try done.
  { apply (put_rings _ _ _ _ x); try done; [apply (cp_rings _ _ Hc)|].
    unfold sched_thd_free. cbn. by rewrite swap_bit. }
  { apply (cp_mask _ _ Hc). }
  { by eapply put_eq. }
  { unfold sched_thd_member. cbn. rewrite swap_bit by done. apply (ti_member _ _ _ Hi). }
  { eapply framed_ring; [exact Hfr4|set_solver|apply (cp_ina _ _ Hc)]. }
  { eapply framed_ring; [exact Hfr4|set_solver|apply (cp_blk _ _ Hc)]. }
  { intros k Hk Hk'. by apply (Hap k Hk'). }
  destruct (moved_same _ _ _ _ Hmv6 (put_eq u t x4 x Hx)) as (x6 & Hx6 & Hs6 & Ha6).
  exists u6, x6. split; [|split; [eapply upto_trans; [apply upto_put|by apply upto_moved]|]].
  - unfold fp_deactivate_upcall, clr_flag, set_flag. rewrite (bind_run _ _ _ _ _ (upd_node_run _ _ _ _ Hx)).
    change (set_us_nodes _ u) with (put u t (set_st_flags (bclr (st_flags x) THD_READY) x)).
    rewrite (bind_run _ _ _ _ _ (upd_put u t x _ _ Hx)). change (set_st_flags _ (set_st_flags _ x)) with x4.
    rewrite (bind_run _ _ _ _ _ Hrun5), (bind_run _ _ _ _ _ Hem5). by erewrite bind_run by reflexivity.
  - split; [done|]. split; [by apply same_like|]. do 4 (split; [done|]).
    destruct Hmv6 as [Hmv6 _]. by apply (f_equal us_sda) in Hmv6.
Qed.

(** *** Each operation is a step of the abstract scheduler *)

(** The invariant of the node of [t] after a change of its flags and count. *)
Lemma inv_renode a a' t x y x' : thd_inv a t x → like y x' →
  st_metric y = st_metric x → st_evt_id y = st_evt_id x → st_accounting y = st_accounting x →
  Forall (λ k, has (st_flags y) k = has (st_flags x) k)
    [THD_FREE; THD_MEMBER; THD_GRP; THD_DYING; THD_SUSPENDED] →
  st_wake_cnt y = a_cnt a' t → sched_thd_blocked y = bool_decide (t ∈ a_blk a') →
  sched_thd_inactive_evt y = bool_decide (t ∈ a_ina a') → thd_inv a' t x'.
Proof.
  intros [H1 H2 H3 H4 H5 H6 H7 H8 H9 H10 H11 H12] (Hf & Hp & Hw & He & Ha) Hm Hev Hac Hk Hcnt Hb Hn.
  rewrite !Forall_cons in Hk. destruct Hk as (K1 & K2 & K3 & K4 & K5 & _).
  unfold sched_thd_free, sched_thd_member, sched_thd_grp, sched_thd_dying, sched_thd_suspended,
    sched_thd_blocked, sched_thd_inactive_evt in *.
  split; unfold sched_thd_free, sched_thd_member, sched_thd_grp, sched_thd_dying,
    sched_thd_suspended, sched_thd_blocked, sched_thd_inactive_evt; rewrite ?Hf, ?Ha; congruence.
Qed.

(** Only the count of wakeups changes. *)
Lemma coupled_count u a t x x1 v : coupled u a → t ∈ D → us_nodes u !! t = Some x → thd_inv a t x →
  t ∉ a_blk a → v = 1 ∨ v = 2 → like (set_st_wake_cnt v x) x1 →
  st_prio_next x1 = st_prio_next x → st_prio_prev x1 = st_prio_prev x →
  coupled (put u t x1) (MkA (a_run a) (a_blk a) (a_ina a) (cset t v (a_cnt a))).
Proof.
  intros Hc HD Hx Hi Hb Hv Hlk Hn Hp. pose proof (cp_wf _ _ Hc) as Hwf.
  pose proof (put_links u t x1 x Hx Hn Hp) as Hfr.
  eapply (coupled_step u _ a _ t x1); cbn; try done.
  - by apply cset_cnt.
  - apply upto_put.
  - by eapply put_eq.
  - eapply (inv_renode a _ t x); try done; cbn; [|by rewrite cset_eq|apply Hi..].
    repeat apply Forall_cons_2; [done..|apply Forall_nil_2].
  - intros k Hk. by rewrite cset_ne.
  - destruct Hlk as (Hf & Hpr & _). apply (put_rings _ _ _ _ x); try done; [apply (cp_rings _ _ Hc)|].
    unfold sched_thd_free. by rewrite Hf.
  - apply (cp_mask _ _ Hc).
  - eapply framed_ring; [exact Hfr|set_solver|apply (cp_blk _ _ Hc)].
  - eapply framed_ring; [exact Hfr|set_solver|apply (cp_ina _ _ Hc)].
Qed.

Lemma coupled_block u a t spdid x : coupled u a → t ∈ D → us_nodes u !! t = Some x → thd_inv a t x →
  t ∈ a_run a (prio t) →
  ∃ u' a', (fp_pre_block t;; y ← get_node t; when (st_wake_cnt y =? 0) (fp_block t spdid)) u = Done tt u' ∧
    astep (OpBlock t spdid) a a' ∧ coupled u' a'.
Proof.
  intros Hc HD Hx Hi Ht. pose proof (cp_wf _ _ Hc) as Hwf. destruct (aw_prio _ Hwf t HD) as [Htl Hp].
  destruct (aw_run _ Hwf _ _ Hp Ht) as (_ & _ & Hb & Hn). pose proof (ti_wake _ _ _ Hi) as Hw.
  destruct (aw_cnt _ Hwf t HD Hb) as [Hcnt|Hcnt]; rewrite Hcnt in Hw.
  - destruct (block_run u a t x spdid Hc HD Hx Hi Ht Hcnt) as
      (u' & x' & Hrun & Hup & Hx' & Hlk & Hq' & Hm' & Hb' & Hn' & Hs').
    exists u', (MkA (dequeue t a) (t :: a_blk a) (a_ina a) (cset t 0 (a_cnt a))).
    split; [done|]. split; [by apply as_block|].
    eapply (coupled_step u u' a _ t x'); cbn; try done; [by apply block_wf| |by rewrite Hs'|].
    + eapply (inv_renode a _ t x); try done; cbn.
      * repeat apply Forall_cons_2; [by apply swap_bit..|apply Forall_nil_2].
      * rewrite cset_eq. lia.
      * unfold sched_thd_blocked. cbn. rewrite has_bset, orb_true_r.
        symmetry. apply bool_decide_eq_true. set_solver.
      * unfold sched_thd_inactive_evt. cbn. rewrite swap_bit by done. apply (ti_ina _ _ _ Hi).
    + intros k Hk. rewrite cset_ne by done. set_solver.
  - exists (put u t (set_st_block_time (us_ticks u) (set_st_wake_cnt (st_wake_cnt x - 1) x))).
    eexists. split; [|split; [by apply as_block_pending|]].
    + rewrite (bind_run _ _ _ _ _ (pre_block_run u t x Hx ltac:(lia))), (bind_run _ _ _ _ _ (get_put u t x _ Hx)).
      cbn [st_wake_cnt set_st_block_time set_st_wake_cnt]. by rewrite (proj2 (Z.eqb_neq _ 0)) by lia.
    + apply (coupled_count u a t x); try done; [by left|]. rewrite Hw. by repeat split.
Qed.

Lemma coupled_wake u a t x : coupled u a → t ∈ D → us_nodes u !! t = Some x → thd_inv a t x →
  ∃ u' a', (fp_pre_wakeup t;; y ← get_node t; when (sched_thd_blocked y) (fp_wakeup t)) u = Done tt u' ∧
    astep (OpWake t) a a' ∧ coupled u' a'.
Proof.
  intros Hc HD Hx Hi. pose proof (cp_wf _ _ Hc) as Hwf. pose proof (ti_wake _ _ _ Hi) as Hw.
  destruct (decide (t ∈ a_blk a)) as [Hb|Hb].
  - destruct (wake_run u a t x Hc Hx Hi Hb) as (u' & x' & Hrun & Hup & Hx' & Hlk & Hq' & Hm' & Hb' & Hn' & Hs').
    exists u'. eexists. split; [done|]. split; [by apply as_wake|].
    eapply (coupled_step u u' a _ t x'); cbn; try done; [by apply wake_wf| |].
    + eapply (inv_renode a _ t x); try done; cbn.
      * repeat apply Forall_cons_2; [by apply swap_bit..|apply Forall_nil_2].
      * rewrite cset_eq, Hw, (aw_zero _ Hwf t Hb). lia.
      * unfold sched_thd_blocked. cbn. rewrite has_bset, has_bclr_same.
        symmetry. apply bool_decide_eq_false. rewrite elem_of_without. naive_solver.
      * unfold sched_thd_inactive_evt. cbn. rewrite swap_bit by done. apply (ti_ina _ _ _ Hi).
    + intros k Hk. rewrite cset_ne, elem_of_without by done. naive_solver.
  - assert (sched_thd_blocked x = false) as Hbx by (rewrite (ti_blk _ _ _ Hi); by apply bool_decide_eq_false).
    destruct (aw_cnt _ Hwf t HD Hb) as [Hcnt|Hcnt]; rewrite Hcnt in Hw.
    + exists (put u t (set_st_wake_cnt (st_wake_cnt x + 1) x)). eexists.
      split; [|split; [by apply as_wake_early|]].
      * rewrite (bind_run _ _ _ _ _ (pre_wakeup_run u t x Hx ltac:(lia) (or_intror Hw))).
        rewrite (bind_run _ _ _ _ _ (get_put u t x _ Hx)).
        change (sched_thd_blocked (set_st_wake_cnt _ x)) with (sched_thd_blocked x). by rewrite Hbx.
      * apply (coupled_count u a t x); try done; [by right|]. rewrite Hw. by repeat split.
    + exists u, a. split; [|split; [by apply as_wake_pending|done]].
      rewrite (bind_run (fp_pre_wakeup t) _ u tt u).
      * rewrite (bind_run _ _ _ _ _ (get_node_run _ _ _ Hx)). by rewrite Hbx.
      * unfold fp_pre_wakeup. rewrite (bind_run _ _ _ _ _ (get_node_run _ _ _ Hx)), Hw. done.
Qed.

Lemma coupled_activate u a t x : coupled u a → us_nodes u !! t = Some x → thd_inv a t x → t ∈ a_ina a →
  ∃ u', fp_activate_upcall t u = Done tt u' ∧
    coupled u' (MkA (enqueue t a) (a_blk a) (without t (a_ina a)) (a_cnt a)).
Proof.
  intros Hc Hx Hi Hn. pose proof (cp_wf _ _ Hc) as Hwf. pose proof (aw_ina _ Hwf t Hn) as HD.
  destruct (activate_run u a t x Hc Hx Hi Hn) as (u' & x' & Hrun & Hup & Hx' & Hlk & Hq' & Hm' & Hb' & Hn' & Hs').
  exists u'. split; [done|]. eapply (coupled_step u u' a _ t x'); cbn; try done.
  - by eapply (upcall_wf a _ t COS_SCHED_EVT_BRAND_ACTIVE), up_activate.
  - eapply (inv_renode a _ t x); try done; cbn.
    + repeat apply Forall_cons_2; [by apply swap_bit..|apply Forall_nil_2].
    + apply (ti_wake _ _ _ Hi).
    + unfold sched_thd_blocked. cbn. rewrite swap_bit by done. apply (ti_blk _ _ _ Hi).
    + unfold sched_thd_inactive_evt. cbn. rewrite has_bset, has_bclr_same.
      symmetry. apply bool_decide_eq_false. rewrite elem_of_without. naive_solver.
  - intros k Hk. rewrite elem_of_without. naive_solver.
Qed.

Lemma coupled_deactivate u a t x : coupled u a → t ∈ D → us_nodes u !! t = Some x → thd_inv a t x →
  t ∈ a_run a (prio t) →
  ∃ u', fp_deactivate_upcall t u = Done tt u' ∧
    coupled u' (MkA (dequeue t a) (a_blk a) (t :: a_ina a) (a_cnt a)).
Proof.
  intros Hc HD Hx Hi Ht. pose proof (cp_wf _ _ Hc) as Hwf.
  destruct (deactivate_run u a t x Hc HD Hx Hi Ht) as (u' & x' & Hrun & Hup & Hx' & Hlk & Hq' & Hm' & Hb' & Hn' & Hs').
  exists u'. split; [done|]. eapply (coupled_step u u' a _ t x'); cbn; try done.
  - by eapply (upcall_wf a _ t COS_SCHED_EVT_BRAND_READY), up_deactivate.
  - eapply (inv_renode a _ t x); try done; cbn.
    + repeat apply Forall_cons_2; [by apply swap_bit..|apply Forall_nil_2].
    + apply (ti_wake _ _ _ Hi).
    + unfold sched_thd_blocked. cbn. rewrite swap_bit by done. apply (ti_blk _ _ _ Hi).
    + unfold sched_thd_inactive_evt. cbn. rewrite has_bset, orb_true_r.
      symmetry. apply bool_decide_eq_true. set_solver.
  - by rewrite Hs'.
  - intros k Hk. set_solver.
Qed.

(** The coupling after time has passed. *)
Lemma coupled_time u u' a a' t x (b : sched_accounting) : coupled u a → t ∈ D →
  us_nodes u !! t = Some x → thd_inv a t x →
  account u' t b → sa_T b = 0 → 0 ≤ sa_cycles b ≤ QUANTUM → kept t u u' →
  a_blk a' = a_blk a → a_ina a' = a_ina a → a_cnt a' = a_cnt a → a_wf a' → rq_ok u' (a_run a') →
  (∀ r, off_queues a r → ring (pnx u) (ppv u) r → ring (pnx u') (ppv u') r) → coupled u' a'.
Proof.
  intros Hc HD Hx Hi (x' & Hx' & Hf' & <-) HT' Hc' Hk Eb En Ec Hwf' (Hq' & Hm' & _) Hring.
  destruct (side_off a (cp_wf _ _ Hc)) as [Hob Hon].
  pose proof Hk as [Hu Hk']. destruct (Hk' t x Hx) as (y & Hy & (Hfl & Hme & Hw & He & _) & _).
  assert (y = x') as -> by congruence.
  assert (us_sda u' = us_sda u) as Hsda by by rewrite Hu.
  eapply (coupled_step u u' a a' t x'); try done.
  - by apply upto_kept.
  - destruct Hi. split; unfold sched_thd_free, sched_thd_member, sched_thd_grp, sched_thd_dying,
      sched_thd_suspended, sched_thd_blocked, sched_thd_inactive_evt in *;
      rewrite ?Hfl, ?Hme, ?Hw, ?He, ?Eb, ?En, ?Ec; try done.
  - by rewrite Hsda.
  - intros k _. by rewrite Eb, En, Ec.
  - rewrite Eb. apply Hring; [done|apply (cp_blk _ _ Hc)].
  - rewrite En. apply Hring; [done|apply (cp_ina _ _ Hc)].
Qed.

Lemma coupled_aged u a t cpu : coupled u a → t ∈ D → 0 ≤ cpu < 2 ^ 32 →
  ∃ u' a', time_elapsed t cpu u = Done tt u' ∧ aged t a a' ∧ coupled u' a'.
Proof.
  intros Hc HD Hcpu. pose proof (cp_wf _ _ Hc) as Hwf. destruct (aw_prio _ Hwf t HD) as [Htl Hp].
  destruct (cp_thd _ _ Hc t HD) as (x & Hx & Hi). pose proof (coupled_ok _ _ Hc) as Hok.
  assert (account u t (st_accounting x)) as Hac by (exists x; split; [done|split; [apply Hi|done]]).
  destruct (decide (t ∈ a_run a (prio t))) as [Ht|Ht].
  - destruct (without_split t (a_run a (prio t))) as (l1 & l2 & Hl & Hwo); [by apply Hwf|done|].
    destruct (time_elapsed_run u (a_run a) (prio t) t l1 l2 _ cpu Hok Hp Hl Hac (ti_T _ _ _ Hi) (ti_cyc _ _ _ Hi) Hcpu)
      as (u' & b & Hrun & Hb & HTb & Hcb & Hk & Hok' & Hfr). rewrite <-Hwo in Hok'.
    assert (∀ r, off_queues a r → ring (pnx u) (ppv u) r → ring (pnx u') (ppv u') r) as Hring.
    { intros r Hr Hring. eapply framed_ring; [exact Hfr| |done].
      intros k Hkr [->|Hkin]%elem_of_cons; apply (Hr _ Hkr (prio t) Hp); set_solver. }
    destruct (QUANTUM <=? _).
    + exists u', (MkA (rotate t a) (a_blk a) (a_ina a) (a_cnt a)). split; [done|].
      split; [by apply ag_rotate|]. eapply coupled_time; try done. by eapply aged_wf, ag_rotate.
    + exists u', a. split; [done|]. split; [apply ag_stay|]. by eapply coupled_time.
  - destruct (time_elapsed_idle_run u (a_run a) t x (st_accounting x) cpu Hok Hx) as
      (u' & b & Hrun & Hb & HTb & Hcb & Hk & Hok' & Hfr); try done; [|apply Hi..|].
    { apply not_true_iff_false. by rewrite (inv_queued a t x). }
    exists u', a. split; [done|]. split; [apply ag_stay|]. eapply coupled_time; try done.
    intros r _ Hr. eapply framed_ring; [exact Hfr|set_solver|done].
Qed.

(** The guards under which the code may be called: a thread that blocks is
    running; an upcall that completes is runnable and not the current thread;
    the kernel reports no pending upcall alone. *)
Definition ready_thd (t : nat) (u : ustate) : bool :=
  match us_nodes u !! t with Some x => sched_thd_ready x | None => false end.

Definition not_current (t : nat) (u : ustate) : bool :=
  match sched_get_current u with Done c _ => bool_decide (c ≠ Some t) | Fault _ => false end.

Definition enabled (o : op) (u : ustate) : bool :=
  match o with
  | OpWake t => bool_decide (t ∈ D)
  | OpBlock t _ => bool_decide (t ∈ D) && ready_thd t u
  | OpEvent t flags cpu =>
    bool_decide (t ∈ D) && bool_decide (0 ≤ cpu < 2 ^ 32) &&
    (negb (has flags 28) || has flags COS_SCHED_EVT_BRAND_ACTIVE ||
     (has flags COS_SCHED_EVT_BRAND_READY && ready_thd t u && not_current t u))
  end.

(** What [sched_wakeup], [sched_block] and the events do before the switch. *)
Definition run_op (o : op) : M ustate unit :=
  match o with
  | OpWake t => fp_pre_wakeup t;; y ← get_node t; when (sched_thd_blocked y) (fp_wakeup t)
  | OpBlock t spdid => fp_pre_block t;; y ← get_node t; when (st_wake_cnt y =? 0) (fp_block t spdid)
  | OpEvent t flags cpu => evt_callback t flags cpu
  end.

Lemma get_current_pure u c u' : sched_get_current u = Done c u' → u' = u.
Proof.
  unfold sched_get_current, sched_get_mapping, get_node. intros H. minv.
  case_match; [by minv|]. minv. by case_match; minv.
Qed.

Lemma coupled_event u a t flags cpu : coupled u a → enabled (OpEvent t flags cpu) u = true →
  ∃ u' a', evt_callback t flags cpu u = Done tt u' ∧ astep (OpEvent t flags cpu) a a' ∧ coupled u' a'.
Proof.
  intros Hc Hen. cbn in Hen. rewrite !andb_true_iff, !bool_decide_eq_true in Hen.
  destruct Hen as [[HD Hcpu] Hg]. pose proof (cp_wf _ _ Hc) as Hwf.
  destruct (cp_thd _ _ Hc t HD) as (x & Hx & Hi).
  assert (∃ u1 a1, (when (has flags 28) (
      if sched_thd_grp x then
        activate_child_sched t;;
        upd_node t (λ x, set_st_cevt_flags (bset (st_cevt_flags x) SCHED_CEVT_OTHER) x)
      else if has flags COS_SCHED_EVT_BRAND_ACTIVE then fp_activate_upcall t
      else if has flags COS_SCHED_EVT_BRAND_READY then
        c ← sched_get_current;
        assert (bool_decide (c ≠ Some t));;
        fp_deactivate_upcall t
      else when (has flags COS_SCHED_EVT_BRAND_PEND) BUG)) u = Done tt u1 ∧
    upcall t flags a a1 ∧ coupled u1 a1) as (u1 & a1 & Hrun1 & Hup1 & Hc1).
  { destruct (has flags 28) eqn:H28; cbn [when]; [|exists u, a; by split; [|split; [apply up_none|]]].
    rewrite (ti_grp _ _ _ Hi). destruct (has flags COS_SCHED_EVT_BRAND_ACTIVE) eqn:Hact.
    - destruct (decide (t ∈ a_ina a)) as [Hn|Hn].
      + destruct (coupled_activate u a t x Hc Hx Hi Hn) as (u1 & Hrun & Hc1).
        exists u1. eexists. split; [done|]. split; [by apply up_activate|done].
      + exists u, a. split; [|split; [by apply up_active|done]].
        unfold fp_activate_upcall. rewrite (bind_run _ _ _ _ _ (get_node_run _ _ _ Hx)).
        by rewrite (ti_ina _ _ _ Hi), bool_decide_false.
    - cbn in Hg. rewrite !andb_true_iff in Hg. destruct Hg as [[Hrdy Hr] Hcur]. rewrite Hrdy.
      unfold not_current in Hcur. destruct (sched_get_current u) as [c u'|] eqn:Hcu; [|done].
      pose proof (get_current_pure _ _ _ Hcu) as ->.
      unfold ready_thd in Hr. rewrite Hx in Hr. apply (inv_queued a t x Hwf Hi HD) in Hr.
      destruct (coupled_deactivate u a t x Hc HD Hx Hi Hr) as (u1 & Hrun & Hc1).
      exists u1. eexists. split; [|split; [by apply up_deactivate|done]].
      rewrite (bind_run _ _ _ _ _ Hcu), Hcur. by erewrite bind_run by reflexivity. }
  destruct (cp_thd _ _ Hc1 t HD) as (x1 & Hx1 & Hi1).
  assert (∃ u2 a2, (when (negb (sched_thd_phantom x1)) (time_elapsed t cpu)) u1 = Done tt u2 ∧
    aged t a1 a2 ∧ coupled u2 a2) as (u2 & a2 & Hrun2 & Hag & Hc2).
  { destruct (sched_thd_phantom x1); cbn [negb when]; [|by apply coupled_aged].
    exists u1, a1. split; [done|]. split; [apply ag_stay|done]. }
  exists u2, a2. split; [|split; [by eapply as_event|done]].
  unfold evt_callback. rewrite (bind_run _ _ _ _ _ (get_node_run _ _ _ Hx)).
  rewrite (ti_member _ _ _ Hi), (ti_free _ _ _ Hi), (ti_dying _ _ _ Hi).
  erewrite bind_run by reflexivity. cbn [orb].
  change (Z.lor COS_SCHED_EVT_BRAND_ACTIVE (Z.lor COS_SCHED_EVT_BRAND_READY COS_SCHED_EVT_BRAND_PEND)) with 28.
  rewrite (bind_run _ _ _ _ _ Hrun1). by rewrite (bind_run _ _ _ _ _ (get_node_run _ _ _ Hx1)).
Qed.

(** One operation. *)
Lemma run_op_step u a o : coupled u a → enabled o u = true →
  ∃ u' a', run_op o u = Done tt u' ∧ astep o a a' ∧ coupled u' a'.
Proof.
  intros Hc Hen. destruct o as [t|t spdid|t flags cpu].
  - apply bool_decide_eq_true in Hen. destruct (cp_thd _ _ Hc t Hen) as (x & Hx & Hi).
    by eapply coupled_wake.
  - apply andb_true_iff in Hen as [HD%bool_decide_eq_true Hr].
    destruct (cp_thd _ _ Hc t HD) as (x & Hx & Hi). unfold ready_thd in Hr. rewrite Hx in Hr.
    eapply coupled_block; try done. by apply (inv_queued a t x (cp_wf _ _ Hc) Hi HD).
  - by apply coupled_event.
Qed.

(** A sequence of operations, those that are not enabled left out. *)
Fixpoint sched_run (ops : list op) : M ustate unit :=
  match ops with
  | [] => mret tt
  | o :: ops => e ← gets (enabled o); when e (run_op o);; sched_run ops
  end.

Inductive asteps : astate → astate → Prop :=
  | ass_done a : asteps a a
  | ass_step o a a1 a2 : astep o a a1 → asteps a1 a2 → asteps a a2.


(** ** A wakeup that comes first is not lost *)

Lemma get_mapping_run u id t x : Prelude.zlookup (us_thd_map u) id = Some (Some t) →
  id < Z.of_nat SCHED_NUM_THREADS → us_nodes u !! t = Some x → sched_thd_free x = false →
  sched_get_mapping id u = Done (Some t) u.
Proof.
  intros Hm Hid Hx Hf. unfold sched_get_mapping. rewrite (proj2 (Z.leb_gt _ _)) by done.
  erewrite bind_run by reflexivity. rewrite Hm. erewrite bind_run by reflexivity. cbv beta match.
  rewrite (bind_run _ _ _ _ _ (get_node_run _ _ _ Hx)). by rewrite Hf.
Qed.

Lemma coupled_ext u a cnt : (∀ k, cnt k = a_cnt a k) →
  coupled u (MkA (a_run a) (a_blk a) (a_ina a) cnt) → coupled u a.
Proof.
  intros Hcnt [[H1 H2 H3 H4 H5 H6 H7 H8 H9 H10] Hr He Ht Hq Hm Hb Hn]. split; try done.
  - split; try done; intros t; cbn in H9, H10; rewrite <-Hcnt; auto.
  - intros t HD. destruct (Ht t HD) as (x & Hx & []). exists x. split; [done|]. split; try done.
    cbn in *. by rewrite <-Hcnt.
Qed.

Lemma coupled_thd_id u a id : coupled u a → coupled (set_us_thd_id id u) a.
Proof. intros [Hwf Hr He Ht [Q1 Q2 Q3] Hm Hb Hn]. by split. Qed.

(** [sched_wakeup] of a thread that is not blocked only counts. *)
Lemma sched_wakeup_early K retries u id t x spd : Prelude.zlookup (us_thd_map u) id = Some (Some t) →
  id < Z.of_nat SCHED_NUM_THREADS → us_nodes u !! t = Some x → sched_thd_free x = false →
  sched_thd_blocked x = false → st_wake_cnt x = 1 → st_dependency_thd x = None →
  st_blocking_component x = 0 →
  sched_wakeup K retries spd id u = Done 0 (put u t (set_st_wake_cnt (st_wake_cnt x + 1) x)).
Proof.
  intros Hmap Hid Hx Hf Hbx Hw Hdep Hbc. set (x1 := set_st_wake_cnt (st_wake_cnt x + 1) x).
  unfold sched_wakeup. rewrite (bind_run _ _ _ _ _ (get_mapping_run u id t x Hmap Hid Hx Hf)).
  rewrite (bind_run _ _ _ _ _ (pre_wakeup_run u t x Hx ltac:(lia) (or_intror Hw))).
  rewrite (bind_run _ _ _ _ _ (get_put u t x _ Hx)). fold x1.
  change (st_blocking_component x1) with (st_blocking_component x). rewrite Hbc.
  erewrite bind_run by reflexivity. change (st_dependency_thd x1) with (st_dependency_thd x). rewrite Hdep.
  change (sched_thd_blocked x1) with (sched_thd_blocked x). by rewrite Hbx.
Qed.

(** [sched_block] of a thread that has been woken before returns. *)
Lemma sched_block_pending K retries u t x spd :
  sched_get_current u = Done (Some t) u → us_nodes u !! t = Some x → sched_thd_free x = false →
  sched_thd_blocked x = false → st_wake_cnt x = 2 → st_contended_component x = 0 →
  st_blocking_component x = 0 → spd ≠ 0 →
  sched_block K retries spd 0 u = Done 0 (put u t (set_st_block_time (us_ticks u)
    (set_st_wake_cnt (st_wake_cnt x - 1) x))).
Proof.
  intros Hcur Hx Hf Hbx Hw Hcc Hbc Hspd.
  set (x2 := set_st_block_time (us_ticks u) (set_st_wake_cnt (st_wake_cnt x - 1) x)).
  unfold sched_block. rewrite (bind_run (block_enter spd 0) _ u (inl 0) (put u t x2)); [done|].
  unfold block_enter. rewrite (bind_run _ _ _ _ _ Hcur).
  erewrite bind_run by reflexivity. rewrite (proj2 (Z.eqb_neq spd 0)) by done.
  erewrite bind_run by reflexivity. rewrite (bind_run _ _ _ _ _ (get_node_run _ _ _ Hx)).
  rewrite Hcc, Hbc, Hf, Hbx. cbn [Z.eqb negb orb]. erewrite !(bind_run (assert _)) by reflexivity.
  rewrite (bind_run (block_dependency 0) _ u (Some None) u) by done. cbv beta match.
  rewrite (bind_run _ _ _ _ _ (pre_block_run u t x Hx ltac:(lia))). fold x2.
  rewrite (bind_run _ _ _ _ _ (get_put u t x x2 Hx)).
  assert (st_wake_cnt x2 = 1) as -> by (cbn [x2 st_wake_cnt set_st_block_time set_st_wake_cnt]; lia).
  cbn [Z.eqb negb]. by erewrite bind_run by reflexivity.
Qed.

(** C23. A wakeup that comes before the thread blocks is not lost: when another
    thread wakes a runnable thread and the thread then calls [sched_block], the
    call returns at once, without a switch, and the state is the one before. *)
Theorem early_wakeup_kept K retries u a t x spd id :
  coupled u a → t ∈ D → t ∈ a_run a (prio t) → a_cnt a t = 1 →
  us_nodes u !! t = Some x → st_dependency_thd x = None →
  st_blocking_component x = 0 → st_contended_component x = 0 → spd ≠ 0 →
  0 ≤ id < Z.of_nat SCHED_NUM_THREADS → Prelude.zlookup (us_thd_map u) id = Some (Some t) →
  ∃ u1 u2, sched_wakeup K retries spd id u = Done 0 u1 ∧
    sched_block K retries spd 0 (set_us_thd_id id u1) = Done 0 u2 ∧ coupled u2 a.
Proof.
  intros Hc HD Ht Hcnt Hx Hdep Hbc Hcc Hspd Hid Hmap. pose proof (cp_wf _ _ Hc) as Hwf.
  destruct (aw_prio _ Hwf t HD) as [_ Hp]. destruct (aw_run _ Hwf _ _ Hp Ht) as (_ & _ & Hb & Hn).
  destruct (cp_thd _ _ Hc t HD) as (y & Hy & Hi). assert (y = x) as -> by congruence. clear Hy.
  pose proof (ti_wake _ _ _ Hi) as Hw. rewrite Hcnt in Hw. pose proof (ti_free _ _ _ Hi) as Hf.
  assert (sched_thd_blocked x = false) as Hbx by (rewrite (ti_blk _ _ _ Hi); by apply bool_decide_eq_false).
  set (x1 := set_st_wake_cnt (st_wake_cnt x + 1) x). set (u1 := put u t x1).
  set (u1' := set_us_thd_id id u1).
  assert (us_nodes u1' !! t = Some x1) as Hx1' by exact (put_eq u t x1 x Hx).
  assert (st_wake_cnt x1 = 2) as Hw1 by (cbn; lia).
  assert (coupled u1 (MkA (a_run a) (a_blk a) (a_ina a) (cset t 2 (a_cnt a)))) as Hc1.
  { apply (coupled_count u a t x x1 2 Hc HD Hx Hi Hb); [by right| |done|done].
    rewrite <-Hw1. by repeat split. }
  pose proof (coupled_thd_id _ _ id Hc1) as Hc1'. fold u1' in Hc1'.
  exists u1. eexists. split; [|split].
  - eapply sched_wakeup_early; try done. lia.
  - apply (sched_block_pending K retries u1' t x1); try done.
    unfold sched_get_current. erewrite bind_run by reflexivity. change (us_thd_id u1') with id.
    rewrite u16_id by (unfold SCHED_NUM_THREADS, MAX_NUM_THREADS in *; lia).
    apply (get_mapping_run _ _ t x1); [done|lia|done|done].
  - destruct (cp_thd _ _ Hc1' t HD) as (y & Hy & Hi1). assert (y = x1) as -> by congruence.
    apply (coupled_ext _ a (cset t 1 (cset t 2 (a_cnt a)))).
    { intros k. destruct (decide (k = t)) as [->|]; [by rewrite cset_eq|by rewrite !cset_ne]. }
    apply (coupled_count u1' _ t x1 _ 1 Hc1' HD Hx1' Hi1 Hb); [by left| |done|done].
    rewrite Hw1. by repeat split.
Qed.

(** ** The switch *)

Lemma independent_run u t x : us_nodes u !! t = Some x → sched_thd_dependent x = false →
  sched_thd_dependency t u = Done None u.
Proof.
  intros Hx Hd. unfold sched_thd_dependency.
  rewrite (bind_run (dependency_loop (S NUM_NODES) t) _ u t u); [by rewrite decide_True|].
  cbn [dependency_loop]. rewrite (bind_run (thd_dependency_once t) _ u None u); [done|].
  unfold thd_dependency_once. rewrite (bind_run _ _ _ _ _ (get_node_run _ _ _ Hx)). by rewrite Hd.
Qed.

End Abstract.

(** ** An example: three threads, two of priority 5 and one of priority 9 *)

Definition example_start : M ustate unit :=
  sched_init false;;
  t ← sched_alloc_thd 1; sched_add_mapping 1 t;; fp_add_thd t 5;;
  t ← sched_alloc_thd 2; sched_add_mapping 2 t;; fp_add_thd t 5;;
  t ← sched_alloc_thd 3; sched_add_mapping 3 t;; fp_add_thd t 9.

Definition example_sched : ustate :=
  match example_start example_zero with Done _ u => set_us_thd_id 1 u | Fault _ => example_zero end.

Definition example_threads : list nat := [36; 37; 38]%nat.
Definition example_prio (t : nat) : Z := if decide (t = 38%nat) then 9 else 5.
Definition example_abs : astate := MkA example_queues [] [] (λ _, 1).

Lemma example_wf : a_wf example_threads example_prio example_abs.
Proof.
  assert (∀ p t, t ∈ example_queues p → t ∈ example_threads ∧ example_prio t = p) as Hr.
  { intros p t. unfold example_queues. destruct (Z.eqb_spec p 5) as [->|]; [|destruct (Z.eqb_spec p 9) as [->|]];
      intros Ht; [|..]; repeat (apply elem_of_cons in Ht as [->|Ht]); try (by apply elem_of_nil in Ht);
      split; [unfold example_threads; set_solver|done|..]; try (unfold example_threads; set_solver); done. }
  split; cbn; try (intros; by apply elem_of_nil in H); try apply NoDup_nil_2.
  - intros t Ht. unfold example_threads in Ht. repeat (apply elem_of_cons in Ht as [->|Ht]);
      [by vm_compute; repeat split; try lia..|by apply elem_of_nil in Ht].
  - intros p t _ Ht. destruct (Hr p t Ht). split; [done|]. split; [done|]. set_solver.
  - intros p _. unfold example_queues. do 2 (case_match; [apply (bool_decide_unpack _); by vm_compute|]). apply NoDup_nil_2.
  - intros t Ht. left. unfold example_threads in Ht. repeat (apply elem_of_cons in Ht as [->|Ht]);
      [apply (bool_decide_unpack _); by vm_compute..|by apply elem_of_nil in Ht].
  - intros t _ _. by left.
Qed.

Lemma example_coupled : coupled example_threads example_prio example_sched example_abs.
Proof.
  assert (rq_ok example_sched example_queues) as (Hq & Hm & _).
  { apply rq_ok_intro; [by vm_compute|]. apply (bool_decide_unpack _). by vm_compute. }
  split; try done.
  - exact example_wf.
  - intros t Ht. unfold example_threads in Ht. repeat (apply elem_of_cons in Ht as [->|Ht]);
      [..|by apply elem_of_nil in Ht];
      (eexists; split; [vm_compute; reflexivity|split; try reflexivity; vm_compute; done]).
  - apply (bool_decide_unpack _). by vm_compute.
  - apply (bool_decide_unpack _). by vm_compute.
Qed.

(** The two threads of priority 5 block; one is woken, becomes an inactive
    upcall and is activated again. *)
Definition example_ops : list op :=
  [OpBlock 36 7; OpBlock 37 7; OpWake 37; OpEvent 37 8 100; OpEvent 37 4 20000000]%nat.


Lemma early_wakeup_kept_witness :
  ∃ u1 u2, sched_wakeup (λ _ _, mret 0) 1 7 2 example_sched = Done 0 u1 ∧
    sched_block (λ _ _, mret 0) 1 7 0 (set_us_thd_id 2 u1) = Done 0 u2 ∧
    coupled example_threads example_prio u2 example_abs.
Proof.
  eapply (early_wakeup_kept example_threads example_prio (λ _ _, mret 0) 1 example_sched example_abs 37%nat).
  - exact example_coupled.
  - unfold example_threads. set_solver.
  - apply (bool_decide_unpack _). by vm_compute.
  - reflexivity.
  - vm_compute. reflexivity.
  - reflexivity.
  - reflexivity.
  - reflexivity.
  - done.
  - vm_compute. done.
  - vm_compute. reflexivity.
Defined.

