(* ===== verification/Vect.v ===== *)
(** * Vectors and maps of the component library

    Model of [components/include/cos_vect.h], arrays of pointers that grow by a
    level of indirection, and of [components/include/cos_map.h], which hands
    out the indices of such an array. *)

From stdpp Require Import base list numbers option gmap.
From S2P Require Import Prelude.
Local Open Scope Z_scope.
Local Open Scope array_scope.

(** [COS_VECT_BASE], [COS_VECT_SHIFT], [COS_VECT_MASK], [COS_VECT_DEPTH_MAX] and
    [COS_MAP_BASE]: a page of 4096 bytes holds 1024 pointers. *)
Definition COS_VECT_BASE : Z := 1024.
Definition COS_VECT_SHIFT : Z := 10.
Definition COS_VECT_MASK : Z := COS_VECT_BASE - 1.
Definition COS_VECT_DEPTH_MAX : Z := 2.
Definition COS_MAP_BASE : Z := COS_VECT_BASE / 2.

(** [cos_vect_t]; [v_vect] is the address of an array of slots. *)
Record cos_vect_t : Type := MkVect {
  v_depth : Z;
  v_vect : Z;
}.

(** A vector with the memory of its arrays, by address.  A slot is a word: a
    client's pointer, or the address of another array; [NULL] is 0. *)
Record vstate : Type := MkV {
  vs_v : cos_vect_t;
  vs_mem : gmap Z (list Z);
}.

Definition set_v (v : cos_vect_t) (st : vstate) : vstate := MkV v (vs_mem st).
Definition set_mem (m : gmap Z (list Z)) (st : vstate) : vstate := MkV (vs_v st) m.

#[local] Abbreviation V := (M vstate).

(** The slot [i] of the array at [a]. *)
Definition slot : Type := Z * Z.

Definition get_slot (p : slot) : V Z :=
  m ← gets vs_mem;
  match m !! p.1 with
  | None => fail BadCast
  | Some l => bound (l.[p.2])
  end.

Definition put_slot (p : slot) (w : Z) : V unit :=
  m ← gets vs_mem;
  match m !! p.1 with
  | None => fail BadCast
  | Some l => bound (l.[p.2]);; modify (set_mem (<[p.1 := l.[p.2 := w]]> m))
  end.

(** true or false: is v a power of 2 *)
Definition cos_vect_power_2 (v : Z) : bool :=
  let smallest_set_bit := Z.land v (u32 (- v)) in
  (1 <? v) && (smallest_set_bit =? v).

Section Vect.
(** [COS_VECT_INIT_VAL], which clients may redefine, and [alloc_page], which
    gives the address and the old contents of a page, or fails. *)
Context (init : Z) (alloc_page : gmap Z (list Z) → option (Z * list Z)).

Definition COS_VECT_ALLOC : V Z :=
  m ← gets vs_mem;
  match alloc_page m with
  | None => mret 0
  | Some (a, junk) => modify (set_mem (<[a := junk]> m));; mret a
  end.

(** The loops that fill a new array. *)
Definition fill (a : Z) (w : Z) : V unit :=
  for_range 0 COS_VECT_BASE (λ i, put_slot (a, i) w).

Definition cos_vect_init_ : V Z :=
  v ← gets vs_v;
  modify (set_v (MkVect 1 (v_vect v)));;
  assert (cos_vect_power_2 COS_VECT_BASE);;
  let vs := v_vect v in
  assert (negb (vs =? 0));;
  fill vs init;;
  mret 0.

Definition cos_vect_init_static : V unit := cos_vect_init_;; mret tt.

Definition cos_vect_init (vs : Z) : V unit :=
  v ← gets vs_v;
  modify (set_v (MkVect (v_depth v) vs));;
  cos_vect_init_;;
  mret tt.

Definition cos_vect_alloc_vect_data : V Z :=
  is_ ← COS_VECT_ALLOC;
  if is_ =? 0 then mret (-1)
  else v ← gets vs_v; modify (set_v (MkVect (v_depth v) is_));; mret 0.

(** The vector of the state is the structure that [malloc] returned, with
    arbitrary contents; [mal] tells whether there was memory for it.  The result
    is whether a vector was allocated. *)
Definition cos_vect_alloc_vect (mal : bool) : V bool :=
  if negb mal then mret false
  else
    r ← cos_vect_alloc_vect_data;
    if negb (r =? 0) then mret false
    else v ← gets vs_v; cos_vect_init (v_vect v);; mret true.

Definition COS_VECT_FREE (a : Z) : V unit :=
  m ← gets vs_mem; modify (set_mem (delete a m)).

Definition cos_vect_free_vect : V unit :=
  v ← gets vs_v;
  assert (negb (v_vect v =? 0));;
  COS_VECT_FREE (v_vect v).

(** [__cos_vect_lookup]: the slot of an index. *)
Definition cos_vect_lookup_ (id : Z) : V (option slot) :=
  v ← gets vs_v;
  assert (negb (v_depth v =? 0));;
  assert (v_depth v <=? 2);;
  if id <? 0 then mret None
  else
    let case1 (is_ id : Z) : V (option slot) :=
      if COS_VECT_BASE <=? id then mret None else mret (Some (is_, id)) in
    if v_depth v =? 2 then
      let t := Z.shiftr id COS_VECT_SHIFT in
      if COS_VECT_BASE <=? t then mret None
      else
        is_ ← get_slot (v_vect v, Z.land t COS_VECT_MASK);
        if is_ =? 0 then mret None
        else case1 is_ (Z.land id COS_VECT_MASK)
    else case1 (v_vect v) id.

Definition cos_vect_lookup (id : Z) : V Z :=
  is_ ← cos_vect_lookup_ id;
  match is_ with None => mret 0 | Some p => get_slot p end.

(** The two parts of [__cos_vect_expand]: another level of indirection, and the
    array that the path to [id] lacks. *)
Definition expand_level (id : Z) : V Z :=
  v ← gets vs_v;
  if Z.shiftl 1 (COS_VECT_SHIFT * v_depth v) <=? id then
    if COS_VECT_DEPTH_MAX <=? v_depth v then mret (-1)
    else
      is_ ← COS_VECT_ALLOC;
      if is_ =? 0 then mret (-1)
      else
        fill is_ 0;;
        put_slot (is_, 0) (v_vect v);;
        modify (set_v (MkVect (u16 (v_depth v + 1)) is_));;
        mret 0
  else mret 0.

Definition expand_path (id : Z) : V Z :=
  v ← gets vs_v;
  assert (v_depth v =? 2);;
  is_ ← COS_VECT_ALLOC;
  if is_ =? 0 then mret (-1)
  else
    fill is_ init;;
    let root := (v_vect v, Z.land (Z.shiftr id COS_VECT_SHIFT) COS_VECT_MASK) in
    w ← get_slot root;
    assert (w =? 0);;
    put_slot root is_;;
    mret 0.

Definition cos_vect_expand_ (id : Z) : V Z :=
  p ← cos_vect_lookup_ id;
  assert (bool_decide (p = None));;
  r ← expand_level id;
  if negb (r =? 0) then mret r else expand_path id.

Definition cos_vect_set_ (id val : Z) : V Z :=
  is_ ← cos_vect_lookup_ id;
  match is_ with
  | None => mret (-1)
  | Some p => put_slot p val;; mret 0
  end.

Definition cos_vect_add_id (val id : Z) : V Z :=
  assert (negb (val =? 0));;
  is_ ← cos_vect_lookup_ id;
  match is_ with
  | Some p => put_slot p val;; mret id
  | None =>
      r ← cos_vect_expand_ id;
      if negb (r =? 0) then mret (-1)
      else
        is_ ← cos_vect_lookup_ id;
        assert (bool_decide (is_ ≠ None));;
        p ← deref is_;
        put_slot p val;;
        mret id
  end.

Definition cos_vect_del (id : Z) : V Z :=
  r ← cos_vect_set_ id init;
  mret (if negb (r =? 0) then 1 else 0).
End Vect.

(** ** Maps

    [cos_map_t]: the even slots of a vector hold values, the odd ones the list
    of the free indices. *)
Record mstate : Type := MkMap {
  ms_data : vstate;
  ms_free_list : Z;
  ms_id_boundary : Z;
}.

Definition set_data (d : vstate) (m : mstate) : mstate :=
  MkMap d (ms_free_list m) (ms_id_boundary m).
Definition set_free_list (f : Z) (m : mstate) : mstate :=
  MkMap (ms_data m) f (ms_id_boundary m).
Definition set_id_boundary (b : Z) (m : mstate) : mstate :=
  MkMap (ms_data m) (ms_free_list m) b.

#[local] Abbreviation P := (M mstate).

(** An operation on [m->data]. *)
Definition on_data {A} (o : V A) : P A := λ m,
  match o (ms_data m) with
  | Done a d => Done a (set_data d m)
  | Fault f => Fault f
  end.

Definition cos_vect_to_map_id (vid : Z) : Z := Z.quot vid 2.
Definition cos_map_to_vect_id (mid : Z) : Z := s32 (mid * 2).
Definition cos_map_to_vect_freeid (mid : Z) : Z := s32 (cos_map_to_vect_id mid + 1).
Definition cos_val_to_free (val : slot) : slot := (val.1, val.2 + 1).
Definition cos_free_to_val (f : slot) : slot := (f.1, f.2 - 1).

Section Map.
Context (init : Z) (alloc_page : gmap Z (list Z) → option (Z * list Z)).

(** [if (__cos_vect_set(&m->data, id, w)) BUG();] *)
Definition set_or_bug (id w : Z) : P unit :=
  r ← on_data (cos_vect_set_ id w);
  assert (r =? 0).

Definition cos_map_init_ : P unit :=
  r ← on_data (cos_vect_init_ init);
  assert (r =? 0);;
  modify (set_free_list 0);;
  modify (set_id_boundary COS_MAP_BASE);;
  for_range 0 COS_MAP_BASE (λ i, set_or_bug (cos_map_to_vect_freeid i) (u32 (i + 1)));;
  set_or_bug (cos_map_to_vect_freeid (COS_MAP_BASE - 1)) (u32 (-1)).

Definition cos_map_init_static : P unit := cos_map_init_.
Definition cos_map_init : P unit := cos_map_init_.

(** As [cos_vect_alloc_vect], for a map. *)
Definition cos_map_alloc_map (mal : bool) : P bool :=
  if negb mal then mret false
  else
    r ← on_data (cos_vect_alloc_vect_data alloc_page);
    if negb (r =? 0) then mret false
    else cos_map_init;; mret true.

Definition cos_map_free_map : P unit :=
  d ← gets ms_data; on_data (COS_VECT_FREE (v_vect (vs_v d))).

Definition cos_map_lookup (mid : Z) : P Z :=
  on_data (cos_vect_lookup (cos_map_to_vect_id mid)).

(** The branch of [cos_map_add] without free slots: the next ids, up to a new
    boundary, become the list of free ids. *)
Definition map_grow (val : Z) : P (option Z) :=
  b ← gets ms_id_boundary;
  r ← on_data (cos_vect_add_id init alloc_page val (cos_map_to_vect_id b));
  if r <? 0 then mret None
  else
    let lower := b in
    let upper := s32 (lower + COS_MAP_BASE) in
    modify (set_id_boundary upper);;
    for_range lower upper (λ i, set_or_bug (cos_map_to_vect_freeid i) (u32 (i + 1)));;
    set_or_bug (cos_map_to_vect_freeid (upper - 1)) (u32 (-1));;
    mret (Some lower).

(** The part of [cos_map_add] that takes an id off the free list. *)
Definition map_take (val free : Z) : P Z :=
  is_ ← on_data (cos_vect_lookup_ (cos_map_to_vect_id free));
  assert (bool_decide (is_ ≠ None));;
  p ← deref is_;
  on_data (put_slot p val);;
  let is_free := cos_val_to_free p in
  w ← on_data (get_slot is_free);
  modify (set_free_list (s32 w));;
  on_data (put_slot is_free (u32 (-1)));;
  mret free.

Definition cos_map_add (val : Z) : P Z :=
  free ← gets ms_free_list;
  f ← (if free =? -1 then map_grow val else mret (Some free));
  match f with
  | None => mret (-1)
  | Some free => map_take val free
  end.

Definition cos_map_del (mid : Z) : P Z :=
  is_ ← on_data (cos_vect_lookup_ (cos_map_to_vect_id mid));
  match is_ with
  | None => mret (-1)
  | Some p =>
      on_data (put_slot p init);;
      is_ ← on_data (cos_vect_lookup_ (cos_map_to_vect_freeid mid));
      assert (bool_decide (is_ ≠ None));;
      p ← deref is_;
      f ← gets ms_free_list;
      on_data (put_slot p (u32 f));;
      modify (set_free_list mid);;
      mret 0
  end.

(** The function stops at a [BUG()] before it does anything. *)
Definition cos_map_add_id (val mid : Z) : P Z := fail AssertFail.
End Map.
