(* ===== verification/VectInv.v ===== *)
(** * Correctness of vectors and maps

    A vector represents a finite map from indices below [2^20] to words,
    whatever the allocator does, and a map hands out indices that are not in
    use. *)

From stdpp Require Import base list numbers option gmap.
From S2P Require Import Prelude Vect.
Local Open Scope Z_scope.
Local Open Scope array_scope.

(** What [alloc_page] is relied on for: a page that is not in use. *)
Definition fresh_pages (alloc_page : gmap Z (list Z) → option (Z * list Z)) : Prop :=
  ∀ m a junk, alloc_page m = Some (a, junk) → a ≠ 0 ∧ m !! a = None ∧ length junk = 1024%nat.

(** ** Slots *)

Definition is_page (m : gmap Z (list Z)) (a : Z) : Prop :=
  a ≠ 0 ∧ ∃ l, m !! a = Some l ∧ length l = 1024%nat.

(** Well-formed: one page of slots, or a page of pointers to different pages. *)
Definition vwf (st : vstate) : Prop :=
  is_page (vs_mem st) (v_vect (vs_v st)) ∧
  (v_depth (vs_v st) = 1 ∨
   v_depth (vs_v st) = 2 ∧
   ∀ r, vs_mem st !! v_vect (vs_v st) = Some r →
     (∀ t a, r.[t] = Some a → a ≠ 0 → a ≠ v_vect (vs_v st) ∧ is_page (vs_mem st) a) ∧
     (∀ t t' a, r.[t] = Some a → r.[t'] = Some a → a ≠ 0 → t = t')).

(** The entry of the page of pointers that is on the path to [id]. *)
Definition leaf_of (st : vstate) (id : Z) : option Z :=
  r ← vs_mem st !! v_vect (vs_v st);
  a ← r.[id / 1024];
  if a =? 0 then None else Some a.

Definition slot_of (st : vstate) (id : Z) : option slot :=
  if id <? 0 then None
  else if v_depth (vs_v st) =? 2 then
    if 2 ^ 20 <=? id then None
    else a ← leaf_of st id; Some (a, id mod 1024)
  else if 1024 <=? id then None
  else Some (v_vect (vs_v st), id).

Definition peek (st : vstate) (p : slot) : option Z := l ← vs_mem st !! p.1; l.[p.2].
Definition poke (p : slot) (w : Z) (st : vstate) : vstate :=
  set_mem (alter (λ l, l.[p.2 := w]) p.1 (vs_mem st)) st.
Definition val_at (st : vstate) (id : Z) : option Z := p ← slot_of st id; peek st p.

Lemma base_div id : Z.shiftr id COS_VECT_SHIFT = id / 1024.
Proof. unfold COS_VECT_SHIFT. by rewrite Z.shiftr_div_pow2. Qed.

Lemma mask_mod id : Z.land id COS_VECT_MASK = id mod 1024.
Proof. change COS_VECT_MASK with (Z.ones 10). by rewrite Z.land_ones. Qed.

Lemma get_slot_run p st w : peek st p = Some w → get_slot p st = Done w st.
Proof.
  unfold peek, get_slot. intros (l & Hl & Hw)%bind_Some. mrun. by rewrite Hl, Hw.
Qed.

Lemma put_slot_run p st w w0 : peek st p = Some w0 → put_slot p w st = Done tt (poke p w st).
Proof.
  unfold peek, put_slot. intros (l & Hl & Hw)%bind_Some. mrun. rewrite Hl, Hw. mrun.
  unfold poke, modify, set_mem. do 2 f_equal. apply map_eq. intros a.
  destruct (decide (a = p.1)) as [->|].
  - by rewrite lookup_insert_eq, lookup_alter_eq, Hl.
  - by rewrite lookup_insert_ne, lookup_alter_ne.
Qed.

Lemma is_page_at m a i : is_page m a → 0 ≤ i < 1024 → ∃ l w, m !! a = Some l ∧ l.[i] = Some w.
Proof.
  intros (_ & l & Hl & Hlen) Hi. destruct (zlookup_is_Some l i) as [w Hw]; [lia|]. eauto.
Qed.

Lemma leaf_of_Some st id a :
  leaf_of st id = Some a ↔
  a ≠ 0 ∧ ∃ r, vs_mem st !! v_vect (vs_v st) = Some r ∧ r.[id / 1024] = Some a.
Proof.
  unfold leaf_of. split.
  - intros (r & Hr & (w & Hw & H)%bind_Some)%bind_Some.
    destruct (Z.eqb_spec w 0); simplify_eq. eauto.
  - intros (Hz & r & Hr & Ha). rewrite Hr. cbn. rewrite Ha. cbn.
    by destruct (Z.eqb_spec a 0).
Qed.

Lemma lookup_run st id : vwf st → cos_vect_lookup_ id st = Done (slot_of st id) st.
Proof.
  intros [Hp Hd]. unfold cos_vect_lookup_, slot_of. mrun.
  destruct Hd as [->|[-> Hd]]; cbn [negb Z.eqb Z.leb Z.compare Pos.eqb]; mrun.
  - destruct (Z.ltb_spec id 0); [done|]. unfold COS_VECT_BASE. by destruct (1024 <=? id).
  - destruct (Z.ltb_spec id 0) as [|Hid]; [done|]. rewrite base_div.
    change COS_VECT_BASE with 1024.
    destruct (Z.leb_spec 1024 (id / 1024)) as [Ht|Ht], (Z.leb_spec (2 ^ 20) id) as [H|H]; try done.
    1,2: exfalso; pose proof (Z.div_mod id 1024 ltac:(lia)); pose proof (Z.mod_pos_bound id 1024); lia.
    rewrite !mask_mod, (Z.mod_small (id / 1024)) by (split; [by apply Z.div_pos|done]).
    destruct (is_page_at _ _ (id / 1024) Hp) as (r & w & Hr & Hw); [split; [by apply Z.div_pos|done]|].
    rewrite (bind_run _ _ _ w st) by (apply get_slot_run; unfold peek; cbn; by rewrite Hr).
    unfold leaf_of. rewrite Hr. cbn. rewrite Hw. cbn. destruct (w =? 0); [done|]. cbn.
    destruct (Z.leb_spec 1024 (id mod 1024)); [|done]. pose proof (Z.mod_pos_bound id 1024). lia.
Qed.

Lemma slot_range st id p : slot_of st id = Some p → 0 ≤ id < 2 ^ 20.
Proof.
  unfold slot_of. destruct (Z.ltb_spec id 0); [done|].
  destruct (_ =? 2); [destruct (Z.leb_spec (2 ^ 20) id); [done|lia]|].
  destruct (Z.leb_spec 1024 id); [done|lia].
Qed.

(** A slot is in a page, and of two levels not in the first. *)
Lemma slot_page st id p :
  vwf st → slot_of st id = Some p →
  is_page (vs_mem st) p.1 ∧ 0 ≤ p.2 < 1024 ∧ (v_depth (vs_v st) = 2 → p.1 ≠ v_vect (vs_v st)).
Proof.
  intros [Hp Hd]. unfold slot_of. destruct (Z.ltb_spec id 0); [done|].
  destruct Hd as [->|[-> Hd]]; cbn [Z.eqb Pos.eqb].
  - destruct (Z.leb_spec 1024 id); [done|]. intros [=<-]. split; [done|]. split; [cbn; lia|done].
  - destruct (Z.leb_spec (2 ^ 20) id); [done|].
    intros (a & (Ha & r & Hr & Hra)%leaf_of_Some & [=<-])%bind_Some. cbn.
    destruct (Hd r Hr) as [Hl _]. destruct (Hl _ _ Hra Ha) as [Hne Hpg].
    split; [done|]. split; [|done]. apply Z.mod_pos_bound. lia.
Qed.

Lemma slot_peek st id p : vwf st → slot_of st id = Some p → ∃ w, peek st p = Some w.
Proof.
  intros Hwf (Hp & Hi & _)%slot_page; [|done].
  destruct (is_page_at _ _ _ Hp Hi) as (l & w & Hl & Hw). exists w. unfold peek. by rewrite Hl.
Qed.

(** Different indices have different slots. *)
Lemma slot_inj st id id' p :
  vwf st → slot_of st id = Some p → slot_of st id' = Some p → id = id'.
Proof.
  intros [Hp Hd]. unfold slot_of. destruct (Z.ltb_spec id 0), (Z.ltb_spec id' 0); try done.
  destruct Hd as [->|[-> Hd]]; cbn [Z.eqb Pos.eqb].
  - destruct (1024 <=? id), (1024 <=? id'); try done. naive_solver.
  - destruct (2 ^ 20 <=? id), (2 ^ 20 <=? id'); try done.
    intros (a & (Ha & r & Hr & Hra)%leaf_of_Some & [=<-])%bind_Some.
    intros (a' & (_ & r' & Hr' & Hra')%leaf_of_Some & [=-> Hm])%bind_Some. simplify_eq.
    destruct (Hd r Hr) as [_ Hinj]. pose proof (Hinj _ _ _ Hra Hra' Ha).
    pose proof (Z.div_mod id 1024). pose proof (Z.div_mod id' 1024). lia.
Qed.

Lemma peek_poke st p q w w0 :
  peek st p = Some w0 → peek (poke p w st) q = if decide (p = q) then Some w else peek st q.
Proof.
  unfold peek, poke. cbn. intros (l & Hl & Hw)%bind_Some.
  destruct (decide (p.1 = q.1)) as [E|E].
  - rewrite <-E, lookup_alter_eq, Hl. cbn. rewrite (zlookup_zinsert _ _ _ _ _ Hw).
    destruct p, q; cbn in *; repeat case_decide; naive_solver.
  - rewrite lookup_alter_ne by done. case_decide; [by subst|done].
Qed.

Lemma is_page_poke m p w a :
  is_page m a → is_page (alter (λ l, l.[p.2 := w]) p.1 m) a.
Proof.
  intros (Ha & l & Hl & Hlen). split; [done|]. destruct (decide (a = p.1)) as [->|].
  - exists (l.[p.2 := w]). by rewrite lookup_alter_eq, Hl, length_zinsert.
  - exists l. by rewrite lookup_alter_ne.
Qed.

(** A write to a slot changes the value at its index only. *)
Lemma leaf_of_poke st id p w :
  vwf st → slot_of st id = Some p → v_depth (vs_v st) = 2 →
  vs_mem (poke p w st) !! v_vect (vs_v st) = vs_mem st !! v_vect (vs_v st).
Proof.
  intros Hwf (_ & _ & Hne)%slot_page Hd; [|done]. cbn. by rewrite lookup_alter_ne by auto.
Qed.

Lemma slot_of_poke st id p w id' :
  vwf st → slot_of st id = Some p → slot_of (poke p w st) id' = slot_of st id'.
Proof.
  intros Hwf Hs. unfold slot_of. change (vs_v (poke p w st)) with (vs_v st).
  destruct (Z.eqb_spec (v_depth (vs_v st)) 2) as [Hd|]; [|done].
  unfold leaf_of. change (vs_v (poke p w st)) with (vs_v st). by rewrite (leaf_of_poke _ id).
Qed.

Lemma vwf_poke st id p w : vwf st → slot_of st id = Some p → vwf (poke p w st).
Proof.
  intros Hwf Hs. pose proof Hwf as [Hp Hd]. split; [by apply is_page_poke|].
  destruct Hd as [|[Hd2 Hd]]; [by left|right]. split; [done|]. intros r Hr.
  change (vs_v (poke p w st)) with (vs_v st) in *. rewrite (leaf_of_poke _ id) in Hr by done.
  destruct (Hd r Hr) as [Hl Hinj]. split; [|done]. intros t a Ht Ha.
  destruct (Hl t a Ht Ha). split; [done|]. by apply is_page_poke.
Qed.

Lemma val_at_poke st id p w id' :
  vwf st → slot_of st id = Some p →
  val_at (poke p w st) id' = if decide (id = id') then Some w else val_at st id'.
Proof.
  intros Hwf Hs. unfold val_at. rewrite (slot_of_poke _ id) by done.
  destruct (slot_peek _ _ _ Hwf Hs) as [w0 Hw0].
  destruct (slot_of st id') as [q|] eqn:Hq; cbn.
  - rewrite (peek_poke _ _ _ _ _ Hw0). repeat case_decide; simplify_eq; try done.
    exfalso. eauto using slot_inj.
  - case_decide; [|done]. naive_solver.
Qed.

(** ** Growing *)

Lemma fill_run a w st :
  is_page (vs_mem st) a →
  fill a w st = Done tt (set_mem (<[a := replicate 1024 w]> (vs_mem st)) st).
Proof.
  intros (Ha & l & Hl & Hlen).
  set (f i := set_mem (<[a := replicate (Z.to_nat i) w ++ drop (Z.to_nat i) l]> (vs_mem st)) st).
  assert (wp (fill a w) (λ _ s, s = f 1024) st) as H.
  { apply (for_range_wp (λ i s, s = f i)); [done| |].
    - unfold f, set_mem. cbn. rewrite insert_id by done. by destruct st.
    - intros i s Hi ->. unfold wp. destruct (zlookup_is_Some (drop (Z.to_nat i) l) 0) as [w0 Hw0].
      { rewrite length_drop. change COS_VECT_BASE with 1024 in Hi. lia. }
      assert ((replicate (Z.to_nat i) w ++ drop (Z.to_nat i) l).[i] = Some w0) as Hi0.
      { apply zlookup_Some. split; [lia|]. rewrite lookup_app_r by (rewrite length_replicate; lia).
        rewrite length_replicate, Nat.sub_diag. by apply zlookup_Some in Hw0 as [_ ?]. }
      rewrite (put_slot_run _ _ _ w0) by (unfold peek, f; cbn; by rewrite lookup_insert_eq).
      unfold poke, f, set_mem. cbn. f_equal. apply map_eq. intros b. destruct (decide (b = a)) as [->|].
      + rewrite lookup_alter_eq, !lookup_insert_eq. cbn. f_equal. unfold zinsert.
        destruct (Z.ltb_spec i 0); [lia|]. rewrite insert_app_r_alt by (rewrite length_replicate; lia).
        rewrite length_replicate, Nat.sub_diag. replace (Z.to_nat (i + 1)) with (S (Z.to_nat i)) by lia.
        rewrite replicate_S_end, <-app_assoc. f_equal. cbn.
        apply zlookup_Some in Hw0 as [_ Hw0]. rewrite lookup_drop, Nat.add_0_r in Hw0.
        by rewrite (drop_S _ _ _ Hw0).
      + by rewrite lookup_alter_ne, !lookup_insert_ne. }
  apply wp_Done in H as ([] & s & -> & ->). unfold f. do 3 f_equal.
  rewrite drop_ge by lia. by rewrite app_nil_r.
Qed.

Definition new_page (a w : Z) (st : vstate) : vstate :=
  set_mem (<[a := replicate 1024 w]> (vs_mem st)) st.

Lemma is_page_new a b w st : b ≠ 0 → is_page (vs_mem st) a → is_page (vs_mem (new_page b w st)) a.
Proof.
  intros Hb (Ha & l & Hl & Hlen). split; [done|]. cbn. destruct (decide (a = b)) as [->|].
  - exists (replicate 1024 w). by rewrite lookup_insert_eq.
  - exists l. by rewrite lookup_insert_ne.
Qed.

Lemma new_is_page b w st : b ≠ 0 → is_page (vs_mem (new_page b w st)) b.
Proof.
  intros Hb. split; [done|]. exists (replicate 1024 w). cbn. by rewrite lookup_insert_eq.
Qed.

(** The second level: the page becomes the first of a page of pointers. *)
Definition raised (a : Z) (st : vstate) : vstate :=
  set_v (MkVect 2 a) (poke (a, 0) (v_vect (vs_v st)) (new_page a 0 st)).

(** The page for the indices around [id]. *)
Definition attached (a w id : Z) (st : vstate) : vstate :=
  poke (v_vect (vs_v st), id / 1024) a (new_page a w st).

Lemma zlookup_replicate (w t : Z) : (replicate 1024 w).[t] = if bool_decide (0 ≤ t < 1024) then Some w else None.
Proof.
  unfold zlookup. destruct (Z.ltb_spec t 0) as [|Ht].
  - rewrite bool_decide_eq_false_2; [done|lia].
  - case_bool_decide.
    + apply lookup_replicate_2. lia.
    + apply lookup_ge_None_2. rewrite length_replicate. lia.
Qed.

Lemma raised_root a st t :
  a ≠ 0 → vs_mem st !! a = None →
  ∃ r, vs_mem (raised a st) !! a = Some r ∧
    r.[t] = if decide (t = 0) then Some (v_vect (vs_v st))
            else if bool_decide (0 ≤ t < 1024) then Some 0 else None.
Proof.
  intros Hz Hn. unfold raised, new_page, poke. cbn [fst snd vs_mem set_mem set_v].
  rewrite lookup_alter_eq, lookup_insert_eq. eexists. split; [done|].
  rewrite (zlookup_zinsert _ _ _ _ 0) by (by rewrite zlookup_replicate).
  rewrite zlookup_replicate. repeat case_decide; naive_solver.
Qed.

Lemma raised_mem a st b : b ≠ a → vs_mem (raised a st) !! b = vs_mem st !! b.
Proof.
  intros Hne. unfold raised, new_page, poke. cbn [fst snd vs_mem set_mem set_v].
  by rewrite lookup_alter_ne, lookup_insert_ne.
Qed.

Lemma raised_page a st b : b ≠ a → is_page (vs_mem st) b → is_page (vs_mem (raised a st)) b.
Proof. intros Hne (Hb & l & Hl & Hlen). split; [done|]. exists l. by rewrite raised_mem. Qed.

Lemma raised_wf a st :
  vwf st → v_depth (vs_v st) = 1 → a ≠ 0 → vs_mem st !! a = None → vwf (raised a st).
Proof.
  intros [Hp _] Hd Hz Hn. assert (v_vect (vs_v st) ≠ a) as Hne.
  { intros <-. destruct Hp as (_ & l & Hl & _). congruence. }
  split.
  - unfold raised. cbn [vs_mem set_v set_mem poke vs_v]. apply is_page_poke. by apply new_is_page.
  - right. split; [done|]. intros r Hr. change (v_vect (vs_v (raised a st))) with a in *.
    assert (∀ t b, r.[t] = Some b → b ≠ 0 → t = 0 ∧ b = v_vect (vs_v st)) as Hrt.
    { intros t b Ht Hb. destruct (raised_root a st t Hz Hn) as (r' & Hr' & Hrt). simplify_eq.
      rewrite Hrt in Ht. case_decide; [naive_solver|]. case_bool_decide; naive_solver. }
    split.
    + intros t b Ht Hb. destruct (Hrt t b Ht Hb) as [-> ->]. split; [done|]. by apply raised_page.
    + intros t t' b Ht Ht' Hb. destruct (Hrt t b Ht Hb), (Hrt t' b Ht' Hb). congruence.
Qed.

Lemma raised_val a st id :
  vwf st → v_depth (vs_v st) = 1 → a ≠ 0 → vs_mem st !! a = None →
  slot_of (raised a st) id = slot_of st id ∧ val_at (raised a st) id = val_at st id.
Proof.
  intros Hwf Hd Hz Hn. assert (slot_of (raised a st) id = slot_of st id) as Hs.
  { unfold slot_of. rewrite Hd. change (v_depth (vs_v (raised a st))) with 2. cbn [Z.eqb Pos.eqb].
    destruct (Z.ltb_spec id 0); [done|]. unfold leaf_of.
    change (v_vect (vs_v (raised a st))) with a.
    destruct (raised_root a st (id / 1024) Hz Hn) as (r & -> & Hr). cbn. rewrite Hr.
    destruct (Z.leb_spec 1024 id).
    - destruct (2 ^ 20 <=? id); [done|]. rewrite decide_False by (intros E%Z.div_small_iff; lia).
      by case_bool_decide.
    - destruct (Z.leb_spec (2 ^ 20) id); [lia|]. rewrite Z.div_small, decide_True by lia. cbn.
      destruct Hwf as [[Hv _] _]. destruct (Z.eqb_spec (v_vect (vs_v st)) 0); [done|].
      cbn. by rewrite Z.mod_small by lia. }
  split; [done|]. unfold val_at. rewrite Hs. destruct (slot_of st id) as [p|] eqn:Hp; [|done]. cbn.
  unfold peek. rewrite raised_mem; [done|]. intros E.
  destruct (slot_page _ _ _ Hwf Hp) as [(_ & l & Hl & _) _]. congruence.
Qed.

Lemma attached_mem a w id st b :
  b ≠ a → b ≠ v_vect (vs_v st) → vs_mem (attached a w id st) !! b = vs_mem st !! b.
Proof.
  intros H1 H2. unfold attached, new_page, poke. cbn [fst snd vs_mem set_mem].
  by rewrite lookup_alter_ne, lookup_insert_ne.
Qed.

Section Attached.
Context (a w id : Z) (st : vstate) (Hwf : vwf st) (Hd : v_depth (vs_v st) = 2).
Context (Hid : 0 ≤ id < 2 ^ 20) (Hleaf : leaf_of st id = None).
Context (Hz : a ≠ 0) (Hn : vs_mem st !! a = None).

#[local] Abbreviation root := (v_vect (vs_v st)).
#[local] Abbreviation st' := (attached a w id st).

Lemma id_index : 0 ≤ id / 1024 < 1024.
Proof. split; [by apply Z.div_pos; lia|]. apply Z.div_lt_upper_bound; lia. Qed.

Lemma attached_ne : root ≠ a.
Proof. intros <-. destruct Hwf as [(_ & l & Hl & _) _]. congruence. Qed.

Lemma attached_root :
  ∃ r, vs_mem st !! root = Some r ∧ r.[id / 1024] = Some 0 ∧
    vs_mem st' !! root = Some (r.[id / 1024 := a]).
Proof.
  destruct Hwf as [Hp _]. destruct (is_page_at _ _ _ Hp id_index) as (r & x & Hr & Hx).
  assert (x = 0) as ->.
  { unfold leaf_of in Hleaf. rewrite Hr in Hleaf. cbn in Hleaf. rewrite Hx in Hleaf. cbn in Hleaf.
    by destruct (Z.eqb_spec x 0). }
  exists r. split; [done|]. split; [done|]. unfold attached, new_page, poke. cbn [fst snd vs_mem set_mem].
  rewrite lookup_alter_eq, lookup_insert_ne, Hr; [done|]. apply not_eq_sym, attached_ne.
Qed.

Lemma attached_new : vs_mem st' !! a = Some (replicate 1024 w).
Proof.
  unfold attached, new_page, poke. cbn [fst snd vs_mem set_mem].
  rewrite lookup_alter_ne, lookup_insert_eq; [done|apply attached_ne].
Qed.

Lemma attached_page b : is_page (vs_mem st) b → is_page (vs_mem st') b.
Proof. intros Hb. apply is_page_poke. by apply is_page_new. Qed.

(** The entries of the page of pointers: the old ones and the new page. *)
Lemma attached_entries r' t b :
  vs_mem st' !! root = Some r' → r'.[t] = Some b → b ≠ 0 →
  (t = id / 1024 ∧ b = a) ∨
  (t ≠ id / 1024 ∧ b ≠ root ∧ is_page (vs_mem st) b ∧
   ∃ r, vs_mem st !! root = Some r ∧ r.[t] = Some b).
Proof.
  intros Hr' Ht Hb. destruct attached_root as (r & Hr & H0 & Hnew). simplify_eq.
  rewrite (zlookup_zinsert _ _ _ _ _ H0) in Ht. case_decide; [left; naive_solver|right].
  split; [done|]. destruct Hwf as [_ [|[_ Hs]]]; [lia|].
  destruct (Hs _ Hr) as [Hs1 _]. destruct (Hs1 _ _ Ht Hb). eauto.
Qed.

Lemma attached_wf : vwf st'.
Proof.
  pose proof Hwf as [Hp Hs]. split; [by apply attached_page|]. right. split; [done|]. intros r' Hr'. split.
  - intros t b Ht Hb. destruct (attached_entries _ _ _ Hr' Ht Hb) as [[-> ->]|(Ht' & Hne & Hpg & _)].
    + split; [apply not_eq_sym, attached_ne|]. split; [done|]. exists (replicate 1024 w).
      by rewrite attached_new.
    + split; [done|]. by apply attached_page.
  - intros t t' b Ht Ht' Hb.
    destruct (attached_entries _ _ _ Hr' Ht Hb) as [[-> ->]|(H1 & _ & Hpg & r & Hr & Hrt)],
      (attached_entries _ _ _ Hr' Ht' Hb) as [[-> E]|(H2 & _ & Hpg' & r2 & Hr2 & Hrt')]; simplify_eq.
    + done.
    + destruct Hpg' as (_ & l & Hl & _). congruence.
    + destruct Hpg as (_ & l & Hl & _). congruence.
    + destruct Hs as [|[_ Hs]]; [lia|]. destruct (Hs _ Hr) as [_ Hinj]. eauto.
Qed.

Lemma attached_slot id' :
  slot_of st' id' =
  if decide (0 ≤ id' < 2 ^ 20 ∧ id' / 1024 = id / 1024) then Some (a, id' mod 1024) else slot_of st id'.
Proof.
  unfold slot_of. change (vs_v st') with (vs_v st). rewrite Hd. cbn [Z.eqb Pos.eqb].
  destruct (Z.ltb_spec id' 0); [rewrite decide_False by lia; done|].
  destruct (Z.leb_spec (2 ^ 20) id'); [rewrite decide_False by lia; done|].
  destruct attached_root as (r & Hr & Hr0 & Hnew). unfold leaf_of. change (vs_v st') with (vs_v st).
  rewrite Hr, Hnew. cbn. rewrite (zlookup_zinsert _ _ _ _ _ Hr0).
  destruct (decide (id' / 1024 = id / 1024)) as [E|E].
  - rewrite (decide_True (P := id / 1024 = id' / 1024)), (decide_True (P := _ ∧ _)) by (try split; lia). cbn.
    by destruct (Z.eqb_spec a 0).
  - by rewrite (decide_False (P := id / 1024 = id' / 1024)), (decide_False (P := _ ∧ _)) by lia.
Qed.

Lemma attached_val id' :
  val_at st' id' =
  if decide (0 ≤ id' < 2 ^ 20 ∧ id' / 1024 = id / 1024) then Some w else val_at st id'.
Proof.
  unfold val_at. rewrite attached_slot. case_decide.
  - cbn. unfold peek. cbn [fst snd]. rewrite attached_new. cbn [mbind option_bind]. rewrite zlookup_replicate.
    rewrite bool_decide_eq_true_2; [done|]. apply Z.mod_pos_bound. lia.
  - destruct (slot_of st id') as [p|] eqn:Hp; [|done]. cbn. unfold peek.
    destruct (slot_page _ _ _ Hwf Hp) as ((_ & l & Hl & _) & _ & Hne).
    rewrite attached_mem; [done|congruence|auto].
Qed.
End Attached.

Section Expand.
Context (init : Z) (alloc_page : gmap Z (list Z) → option (Z * list Z)) (Ha : fresh_pages alloc_page).

(** An allocated page that is filled. *)
Lemma alloc_fill {B} w st (k : Z → M vstate B) (e : M vstate B) :
  (is_ ← COS_VECT_ALLOC alloc_page; if is_ =? 0 then e else fill is_ w;; k is_) st =
  match alloc_page (vs_mem st) with None => e st | Some (a, _) => k a (new_page a w st) end.
Proof.
  unfold COS_VECT_ALLOC. mrun. destruct (alloc_page (vs_mem st)) as [[a junk]|] eqn:E; mrun; [|done].
  destruct (Ha _ _ _ E) as (Hz & Hn & Hlen). destruct (Z.eqb_spec a 0); [done|].
  rewrite (bind_run _ _ _ tt (new_page a w st)); [done|]. rewrite fill_run.
  - unfold new_page, set_mem. cbn. by rewrite insert_insert_eq.
  - split; [done|]. exists junk. cbn. by rewrite lookup_insert_eq.
Qed.

Definition out_of_pages : Prop := ∃ m, alloc_page m = None.

(** What growing keeps: the values that are there, and new ones are [init]. *)
Definition grown (st st' : vstate) : Prop :=
  ∀ id, val_at st' id = val_at st id ∨ val_at st id = None ∧ val_at st' id = Some init.

(** The slots of the page that was added for [id]. *)
Definition opened (st : vstate) (id : Z) (st' : vstate) : Prop :=
  ∀ id', is_Some (slot_of st' id') ↔
    is_Some (slot_of st id') ∨ (0 ≤ id' < 2 ^ 20 ∧ id' / 1024 = id / 1024).

Lemma expand_path_run st id :
  vwf st → 0 ≤ id < 2 ^ 20 → v_depth (vs_v st) = 2 → slot_of st id = None →
  ∃ r st', expand_path init alloc_page id st = Done r st' ∧ vwf st' ∧ grown st st' ∧
    (r = -1 ∧ out_of_pages ∧ (∀ id', slot_of st' id' = slot_of st id') ∨ r = 0 ∧ opened st id st').
Proof.
  intros Hwf Hid Hd Hs. assert (leaf_of st id = None) as Hl.
  { unfold slot_of in Hs. rewrite Hd in Hs. cbn [Z.eqb Pos.eqb] in Hs.
    destruct (Z.ltb_spec id 0); [lia|]. destruct (Z.leb_spec (2 ^ 20) id); [lia|].
    by destruct (leaf_of st id). }
  unfold expand_path. mrun. rewrite Hd. cbn [Z.eqb Pos.eqb]. mrun.
  rewrite alloc_fill. destruct (alloc_page (vs_mem st)) as [[a junk]|] eqn:E.
  - destruct (Ha _ _ _ E) as (Hz & Hn & _). exists 0, (attached a init id st).
    destruct (attached_root a init id st Hwf Hid Hl Hz Hn) as (r & Hr & H0 & _).
    rewrite base_div, mask_mod, (Z.mod_small (id / 1024)) by (apply id_index; done).
    assert (peek (new_page a init st) (v_vect (vs_v st), id / 1024) = Some 0) as Hp.
    { unfold peek, new_page. cbn. rewrite lookup_insert_ne, Hr; [done|].
      apply not_eq_sym. by eapply attached_ne. }
    rewrite (bind_run _ _ _ _ _ (get_slot_run _ _ _ Hp)). cbn [Z.eqb]. mrun.
    rewrite (bind_run _ _ _ _ _ (put_slot_run _ _ a _ Hp)).
    split; [done|]. split; [by apply attached_wf|]. split.
    + intros id'. rewrite attached_val by done. case_decide as Hc; [|by left]. right. split; [|done].
      unfold val_at, slot_of, leaf_of. rewrite Hd. cbn [Z.eqb Pos.eqb].
      destruct (Z.ltb_spec id' 0); [done|]. destruct (2 ^ 20 <=? id'); [done|].
      rewrite Hr. cbn. destruct Hc as [_ ->]. by rewrite H0.
    + right. split; [done|]. intros id'. rewrite attached_slot by done. case_decide; naive_solver.
  - exists (-1), st. split; [done|]. split; [done|]. split; [intros ?; by left|left].
    split; [done|]. split; [by eexists|done].
Qed.

Lemma expand_level_run st id :
  vwf st → 0 ≤ id < 2 ^ 20 → slot_of st id = None →
  (out_of_pages ∧ expand_level alloc_page id st = Done (-1) st) ∨
  ∃ st', expand_level alloc_page id st = Done 0 st' ∧ vwf st' ∧ v_depth (vs_v st') = 2 ∧
    ∀ id', slot_of st' id' = slot_of st id' ∧ val_at st' id' = val_at st id'.
Proof.
  intros Hwf Hid Hs. unfold expand_level. mrun. pose proof Hwf as [_ Hd].
  destruct Hd as [Hd|[Hd _]]; rewrite Hd.
  - assert (1024 ≤ id) as Hge.
    { unfold slot_of in Hs. rewrite Hd in Hs. cbn [Z.eqb Pos.eqb] in Hs.
      destruct (Z.ltb_spec id 0); [lia|]. by destruct (Z.leb_spec 1024 id). }
    change (Z.shiftl 1 (COS_VECT_SHIFT * 1)) with 1024. change (COS_VECT_DEPTH_MAX <=? 1) with false.
    destruct (Z.leb_spec 1024 id); [|lia]. cbv iota. rewrite alloc_fill.
    destruct (alloc_page (vs_mem st)) as [[a junk]|] eqn:E; [|left; split; [by eexists|done]].
    destruct (Ha _ _ _ E) as (Hz & Hn & _). right. exists (raised a st).
    assert (peek (new_page a 0 st) (a, 0) = Some 0) as Hp.
    { unfold peek, new_page. cbn [fst snd vs_mem set_mem]. by rewrite lookup_insert_eq. }
    rewrite (bind_run _ _ _ _ _ (put_slot_run _ _ _ _ Hp)). mrun.
    split; [done|]. split; [by apply raised_wf|]. split; [done|]. intros id'. by apply raised_val.
  - right. exists st. change (Z.shiftl 1 (COS_VECT_SHIFT * 2)) with (2 ^ 20).
    destruct (Z.leb_spec (2 ^ 20) id); [lia|]. done.
Qed.

Lemma expand_run st id :
  vwf st → 0 ≤ id < 2 ^ 20 → slot_of st id = None →
  ∃ r st', cos_vect_expand_ init alloc_page id st = Done r st' ∧ vwf st' ∧ grown st st' ∧
    (r = -1 ∧ out_of_pages ∧ (∀ id', slot_of st' id' = slot_of st id') ∨ r = 0 ∧ opened st id st').
Proof.
  intros Hwf Hid Hs. unfold cos_vect_expand_.
  rewrite (bind_run _ _ _ _ _ (lookup_run _ _ Hwf)), Hs.
  rewrite bool_decide_eq_true_2 by done. mrun.
  destruct (expand_level_run st id Hwf Hid Hs) as [[Hoom E]|(st1 & E & Hwf1 & Hd1 & H1)];
    rewrite (bind_run _ _ _ _ _ E); cbn [Z.eqb negb].
  - exists (-1), st. split; [done|]. split; [done|]. split; [intros ?; by left|left; done].
  - destruct (H1 id) as [Hs1 _]. destruct (expand_path_run st1 id Hwf1 Hid Hd1) as (r & st' & E2 & Hwf' & Hg & Hr).
    { by rewrite Hs1. }
    exists r, st'. split; [done|]. split; [done|]. split.
    { intros id'. destruct (H1 id') as [_ <-]. apply Hg. }
    destruct Hr as [(-> & Ho & Hsl)|[-> Ho]].
    + left. split; [done|]. split; [done|]. intros id'. destruct (H1 id') as [<- _]. apply Hsl.
    + right. split; [done|]. intros id'. destruct (H1 id') as [<- _]. apply Ho.
Qed.
End Expand.

(** ** A vector is a finite map *)

Definition vrep (init : Z) (st : vstate) (m : gmap Z Z) : Prop :=
  vwf st ∧ ∀ id,
    match m !! id with
    | Some v => val_at st id = Some v
    | None => val_at st id = None ∨ val_at st id = Some init
    end.

(** The operations that clients call. *)
Inductive vop : Set :=
| VAdd (val id : Z)
| VDel (id : Z)
| VLookup (id : Z).

Definition vop_ok (o : vop) : Prop :=
  match o with VAdd val id => val ≠ 0 ∧ 0 ≤ id < 2 ^ 20 | _ => True end.

Section VectSpec.
Context (init : Z) (alloc_page : gmap Z (list Z) → option (Z * list Z)).

Definition vect_op (o : vop) : M vstate Z :=
  match o with
  | VAdd val id => cos_vect_add_id init alloc_page val id
  | VDel id => cos_vect_del init id
  | VLookup id => cos_vect_lookup id
  end.

Fixpoint vect_run (ops : list vop) : M vstate (list Z) :=
  match ops with
  | [] => mret []
  | o :: ops => r ← vect_op o; rs ← vect_run ops; mret (r :: rs)
  end.

(** The steps of a finite map, with the answers of the operations.  An addition
    fails only at an index without a value and for want of memory. *)
Inductive vstep (m : gmap Z Z) : vop → Z → gmap Z Z → Prop :=
| vstep_add val id : vstep m (VAdd val id) id (<[id := val]> m)
| vstep_add_nomem val id :
    m !! id = None → out_of_pages alloc_page → vstep m (VAdd val id) (-1) m
| vstep_del id : vstep m (VDel id) 0 (delete id m)
| vstep_del_absent id : m !! id = None → vstep m (VDel id) 1 m
| vstep_lookup id v : m !! id = Some v → vstep m (VLookup id) v m
| vstep_lookup_absent id v : m !! id = None → v = 0 ∨ v = init → vstep m (VLookup id) v m.

Inductive vsteps (m : gmap Z Z) : list vop → list Z → gmap Z Z → Prop :=
| vsteps_nil : vsteps m [] [] m
| vsteps_cons o r m1 os rs m2 :
    vstep m o r m1 → vsteps m1 os rs m2 → vsteps m (o :: os) (r :: rs) m2.

Lemma vrep_poke st m id p w :
  vrep init st m → slot_of st id = Some p → vrep init (poke p w st) (<[id := w]> m).
Proof.
  intros [Hwf Hv] Hs. split; [by eapply vwf_poke|]. intros id'. rewrite (val_at_poke _ id) by done.
  destruct (decide (id = id')) as [<-|].
  - by rewrite lookup_insert_eq.
  - rewrite lookup_insert_ne by done. apply Hv.
Qed.

Lemma vrep_poke_init st m id p :
  vrep init st m → slot_of st id = Some p → vrep init (poke p init st) (delete id m).
Proof.
  intros [Hwf Hv] Hs. split; [by eapply vwf_poke|]. intros id'. rewrite (val_at_poke _ id) by done.
  destruct (decide (id = id')) as [<-|].
  - rewrite lookup_delete_eq. by right.
  - rewrite lookup_delete_ne by done. apply Hv.
Qed.

Lemma vrep_absent st m id : vrep init st m → slot_of st id = None → m !! id = None.
Proof.
  intros [_ Hv] Hs. specialize (Hv id). unfold val_at in Hv. rewrite Hs in Hv.
  by destruct (m !! id).
Qed.

Lemma vrep_grown st st' m : vrep init st m → vwf st' → grown init st st' → vrep init st' m.
Proof.
  intros [Hwf Hv] Hwf' Hg. split; [done|]. intros id. specialize (Hv id).
  destruct (Hg id) as [->|[E E']]; [done|]. rewrite E in Hv. rewrite E'.
  destruct (m !! id); [done|by right].
Qed.

Lemma put_at st m id p w :
  vrep init st m → slot_of st id = Some p → put_slot p w st = Done tt (poke p w st).
Proof. intros [Hwf _] Hs. destruct (slot_peek _ _ _ Hwf Hs). by eapply put_slot_run. Qed.

(** An addition at an index that has no slot. *)
Lemma add_id_open st val id :
  fresh_pages alloc_page → vwf st → vop_ok (VAdd val id) → slot_of st id = None →
  ∃ st1, vwf st1 ∧ grown init st st1 ∧
    (cos_vect_add_id init alloc_page val id st = Done (-1) st1 ∧ out_of_pages alloc_page ∧
       (∀ id', slot_of st1 id' = slot_of st id') ∨
     ∃ p, cos_vect_add_id init alloc_page val id st = Done id (poke p val st1) ∧
       opened st id st1 ∧ slot_of st1 id = Some p).
Proof.
  intros Ha Hwf [Hval Hid] Hs. unfold cos_vect_add_id.
  destruct (Z.eqb_spec val 0); [done|]. cbn [negb]. mrun.
  rewrite !(bind_run _ _ _ _ _ (lookup_run _ _ Hwf)), !Hs.
  destruct (expand_run init alloc_page Ha st id Hwf Hid Hs) as (r & st1 & E & Hwf1 & Hg & Hc).
  exists st1. split; [done|]. split; [done|]. rewrite !(bind_run _ _ _ _ _ E).
  destruct Hc as [(-> & Hoom & Hsl)|[-> Ho]]; cbn [Z.eqb negb]; [by left|right].
  destruct (proj2 (Ho id)) as [p Hp]; [by right|]. exists p.
  rewrite (bind_run _ _ _ _ _ (lookup_run _ _ Hwf1)), Hp. rewrite bool_decide_eq_true_2 by done. mrun.
  destruct (slot_peek _ _ _ Hwf1 Hp) as [w Hw]. by rewrite (bind_run _ _ _ _ _ (put_slot_run _ _ val _ Hw)).
Qed.

Lemma add_id_run st m val id :
  fresh_pages alloc_page → vrep init st m → vop_ok (VAdd val id) →
  ∃ r st' m', cos_vect_add_id init alloc_page val id st = Done r st' ∧
    vstep m (VAdd val id) r m' ∧ vrep init st' m'.
Proof.
  intros Ha Hr Ho. pose proof Hr as [Hwf _]. destruct (slot_of st id) as [p|] eqn:Hs.
  - destruct Ho as [Hval Hid]. unfold cos_vect_add_id. destruct (Z.eqb_spec val 0); [done|]. cbn [negb]. mrun.
    rewrite (bind_run _ _ _ _ _ (lookup_run _ _ Hwf)), Hs, (bind_run _ _ _ _ _ (put_at _ _ _ _ _ Hr Hs)).
    eexists id, _, _. split; [done|]. split; [constructor|]. by apply vrep_poke.
  - destruct (add_id_open st val id Ha Hwf Ho Hs) as (st1 & Hwf1 & Hg & [(E & Hoom & _)|(p & E & _ & Hp)]);
      pose proof (vrep_grown _ _ _ Hr Hwf1 Hg) as Hr1.
    + exists (-1), st1, m. split; [done|]. split; [|done].
      constructor; [exact (vrep_absent _ _ _ Hr Hs)|done].
    + eexists id, _, _. split; [done|]. split; [constructor|]. by apply vrep_poke.
Qed.

(** An index that no vector can hold, in a vector of two levels. *)
Lemma add_id_limit st val id :
  vwf st → val ≠ 0 → v_depth (vs_v st) = 2 → 2 ^ 20 ≤ id →
  cos_vect_add_id init alloc_page val id st = Done (-1) st.
Proof.
  intros Hwf Hval Hd Hid. assert (slot_of st id = None) as Hs.
  { unfold slot_of. rewrite Hd. cbn [Z.eqb Pos.eqb]. destruct (Z.ltb_spec id 0); [done|].
    by destruct (Z.leb_spec (2 ^ 20) id); [|lia]. }
  unfold cos_vect_add_id. destruct (Z.eqb_spec val 0); [done|]. cbn [negb]. mrun.
  rewrite (bind_run _ _ _ _ _ (lookup_run _ _ Hwf)), Hs. unfold cos_vect_expand_. mrun.
  rewrite (bind_run _ _ _ _ _ (lookup_run _ _ Hwf)), Hs, bool_decide_eq_true_2 by done. mrun.
  unfold expand_level. mrun. rewrite Hd. change (Z.shiftl 1 (COS_VECT_SHIFT * 2)) with (2 ^ 20).
  by destruct (Z.leb_spec (2 ^ 20) id); [|lia].
Qed.

Lemma set_run st m id w :
  vrep init st m →
  cos_vect_set_ id w st =
    match slot_of st id with None => Done (-1) st | Some p => Done 0 (poke p w st) end.
Proof.
  intros Hr. pose proof Hr as [Hwf _]. unfold cos_vect_set_.
  rewrite (bind_run _ _ _ _ _ (lookup_run _ _ Hwf)). destruct (slot_of st id) eqn:Hs; [|done].
  by rewrite (bind_run _ _ _ _ _ (put_at _ _ _ _ _ Hr Hs)).
Qed.

Lemma lookup_val st id :
  vwf st → cos_vect_lookup id st = Done (default 0 (val_at st id)) st.
Proof.
  intros Hwf. unfold cos_vect_lookup, val_at. rewrite (bind_run _ _ _ _ _ (lookup_run _ _ Hwf)).
  destruct (slot_of st id) as [p|] eqn:Hs; [|done]. cbn.
  destruct (slot_peek _ _ _ Hwf Hs) as [w Hw]. by rewrite (get_slot_run _ _ _ Hw), Hw.
Qed.

Lemma vect_op_step st m o :
  fresh_pages alloc_page → vrep init st m → vop_ok o →
  ∃ r st' m', vect_op o st = Done r st' ∧ vstep m o r m' ∧ vrep init st' m'.
Proof.
  intros Ha Hr Ho. destruct o as [val id|id|id]; cbn [vect_op].
  - by apply add_id_run.
  - unfold cos_vect_del. pose proof (set_run _ _ id init Hr) as E.
    destruct (slot_of st id) as [p|] eqn:Hs; rewrite (bind_run _ _ _ _ _ E).
    + eexists 0, _, _. split; [done|]. split; [constructor|]. by apply vrep_poke_init.
    + exists 1, st, m. split; [done|]. split; [|done]. constructor. by eapply vrep_absent.
  - destruct Hr as [Hwf Hv]. rewrite lookup_val by done. eexists _, st, m. split; [done|].
    split; [|done]. specialize (Hv id). destruct (m !! id) as [v|] eqn:Hm.
    + rewrite Hv. by constructor.
    + apply vstep_lookup_absent; [done|]. destruct Hv as [->| ->]; [by left|by right].
Qed.

Lemma vect_run_steps ops st m :
  fresh_pages alloc_page → vrep init st m → Forall vop_ok ops →
  ∃ rs st' m', vect_run ops st = Done rs st' ∧ vsteps m ops rs m' ∧ vrep init st' m'.
Proof.
  intros Ha Hr Hops. revert st m Hr. induction Hops as [|o ops Ho _ IH]; intros st m Hr.
  - exists [], st, m. split; [done|]. split; [constructor|done].
  - destruct (vect_op_step st m o Ha Hr Ho) as (r & st1 & m1 & E & Hs & Hr1).
    destruct (IH st1 m1 Hr1) as (rs & st2 & m2 & E2 & Hs2 & Hr2).
    exists (r :: rs), st2, m2. cbn [vect_run]. rewrite (bind_run _ _ _ _ _ E), (bind_run _ _ _ _ _ E2).
    split; [done|]. split; [by econstructor|done].
Qed.

(** [cos_vect_init_static] on the static page of a vector. *)
Lemma init_run st :
  is_page (vs_mem st) (v_vect (vs_v st)) →
  ∃ st', cos_vect_init_ init st = Done 0 st' ∧ v_depth (vs_v st') = 1 ∧ vrep init st' ∅.
Proof.
  intros Hp. unfold cos_vect_init_. mrun. change (cos_vect_power_2 COS_VECT_BASE) with true. mrun.
  destruct (Z.eqb_spec (v_vect (vs_v st)) 0); [by destruct Hp|]. cbn [negb]. mrun.
  rewrite (bind_run _ _ _ tt _ (fill_run (v_vect (vs_v st)) init (set_v (MkVect 1 (v_vect (vs_v st))) st) Hp)).
  eexists. split; [done|]. split; [done|]. split.
  - split; [|by left]. by apply (new_is_page (v_vect (vs_v st)) init (set_v _ st)).
  - intros id. rewrite lookup_empty. unfold val_at, slot_of. cbn [vs_v set_mem set_v v_depth v_vect Z.eqb Pos.eqb].
    destruct (Z.ltb_spec id 0); [by left|]. destruct (Z.leb_spec 1024 id); [by left|]. right.
    cbn [mbind option_bind]. unfold peek. cbn [fst snd vs_mem set_mem]. rewrite lookup_insert_eq.
    cbn [mbind option_bind]. rewrite zlookup_replicate. by rewrite bool_decide_eq_true_2.
Qed.
End VectSpec.

(** C29. After its initialisation a vector behaves as a finite map from indices
    to words under every sequence of additions (of pointers that are not NULL,
    at indices below 2^20), deletions and lookups: no assertion fails, and each
    answer is the one of the map.  An addition can fail, which leaves the map
    as it is, only when the allocator of pages failed and the index has no
    value; the levels of indirection do not show. *)
Theorem vect_refines_map init alloc_page ops st :
  fresh_pages alloc_page → is_page (vs_mem st) (v_vect (vs_v st)) → Forall vop_ok ops →
  ∃ rs st' m,
    (cos_vect_init_static init;; vect_run init alloc_page ops) st = Done rs st' ∧
    vsteps init alloc_page ∅ ops rs m ∧ vrep init st' m.
Proof.
  intros Ha Hp Hops. destruct (init_run init st Hp) as (st1 & E & _ & Hr).
  destruct (vect_run_steps init alloc_page ops st1 ∅ Ha Hr Hops) as (rs & st' & m & E2 & Hs & Hr').
  exists rs, st', m. unfold cos_vect_init_static. mrun. rewrite (bind_run _ _ _ _ _ E). mrun. done.
Qed.

(** ** A map hands out indices *)

Lemma on_data_run {A} (o : M vstate A) ms a d :
  o (ms_data ms) = Done a d → on_data o ms = Done a (set_data d ms).
Proof. unfold on_data. by intros ->. Qed.

(** The slot of the free list is next to the one of the value. *)
Lemma slot_succ st id p :
  slot_of st (2 * id) = Some p → slot_of st (2 * id + 1) = Some (cos_val_to_free p).
Proof.
  intros Hs. pose proof (slot_range _ _ _ Hs) as Hid. revert Hs. unfold slot_of.
  destruct (Z.ltb_spec (2 * id) 0); [lia|]. destruct (Z.ltb_spec (2 * id + 1) 0); [lia|].
  destruct (_ =? 2).
  - destruct (Z.leb_spec (2 ^ 20) (2 * id)); [lia|]. destruct (Z.leb_spec (2 ^ 20) (2 * id + 1)); [lia|].
    assert ((2 * id + 1) / 1024 = 2 * id / 1024 ∧ (2 * id + 1) mod 1024 = 2 * id mod 1024 + 1) as [Hq Hm].
    { pose proof (Z.div_mod (2 * id) 1024). pose proof (Z.mod_pos_bound (2 * id) 1024).
      assert (2 * id mod 1024 ≠ 1023) as Hne by (intros E; lia).
      assert (0 ≤ 2 * id mod 1024 + 1 < 1024) by lia.
      split; [symmetry; apply (Z.div_unique _ _ _ (2 * id mod 1024 + 1)); lia|].
      symmetry. apply (Z.mod_unique _ _ (2 * id / 1024)); lia. }
    unfold leaf_of. rewrite Hq, Hm. intros (a & -> & [=<-])%bind_Some. done.
  - destruct (Z.leb_spec 1024 (2 * id)); [done|]. destruct (Z.leb_spec 1024 (2 * id + 1)); [lia|].
    by intros [=<-].
Qed.

(** The free list from [h] on. *)
Fixpoint flist (d : vstate) (h : Z) (free : list Z) : Prop :=
  match free with
  | [] => h = -1
  | f :: free => h = f ∧ ∃ w, val_at d (2 * f + 1) = Some w ∧ flist d (s32 w) free
  end.

Lemma flist_ext d d' h free :
  (∀ f, f ∈ free → val_at d' (2 * f + 1) = val_at d (2 * f + 1)) → flist d h free → flist d' h free.
Proof.
  revert h. induction free as [|f free IH]; intros h Hv; [done|]. cbn. intros (-> & w & Hw & Hf).
  split; [done|]. exists w. rewrite Hv by left. split; [done|]. apply IH; [|done].
  intros g Hg. apply Hv. by right.
Qed.

Lemma s32_u32 z : - 2 ^ 31 ≤ z < 2 ^ 31 → s32 (u32 z) = z.
Proof.
  intros Hz. unfold s32, u32. rewrite Z.add_mod_idemp_l by lia. rewrite Z.mod_small; lia.
Qed.

(** The list of the indices in a range, linked in their order. *)
Lemma flist_range d lo n :
  0 ≤ lo → lo + Z.of_nat n < 2 ^ 30 →
  (∀ j, lo ≤ j < lo + Z.of_nat n → val_at d (2 * j + 1) = Some (u32 (j + 1))) →
  val_at d (2 * (lo + Z.of_nat n) + 1) = Some (u32 (-1)) →
  flist d lo (seqZ lo (Z.of_nat n + 1)).
Proof.
  revert lo. induction n as [|n IH]; intros lo Hlo Hhi Hj Hl.
  - rewrite (seqZ_cons lo) by lia. cbn. split; [done|]. rewrite Z.add_0_r in Hl.
    exists (u32 (-1)). by rewrite Hl.
  - rewrite (seqZ_cons lo) by lia. split; [done|]. exists (u32 (lo + 1)).
    split; [apply Hj; lia|]. rewrite s32_u32 by lia.
    replace (Z.pred (Z.of_nat (S n) + 1)) with (Z.of_nat n + 1) by lia.
    rewrite <-Z.add_1_r. apply IH; [lia..| |].
    + intros j Hjn. apply Hj. lia.
    + rewrite <-Hl. f_equal. lia.
Qed.

(** [ms] represents the ids [used] and keeps the other ones on the list [free],
    which starts at [h]. *)
Record mcore (ms : mstate) (used : gmap Z Z) (h : Z) (free : list Z) : Prop := {
  mr_wf : vwf (ms_data ms);
  mr_bound : ∃ k, ms_id_boundary ms = 512 * k ∧ 1 ≤ k ≤ 1024;
  mr_slots id : is_Some (slot_of (ms_data ms) id) ↔ 0 ≤ id < 2 * ms_id_boundary ms;
  mr_nodup : NoDup free;
  mr_free f : f ∈ free ↔ 0 ≤ f < ms_id_boundary ms ∧ used !! f = None;
  mr_used id v : used !! id = Some v → val_at (ms_data ms) (2 * id) = Some v;
  mr_list : flist (ms_data ms) h free;
}.
Definition mrep_free (init : Z) (ms : mstate) (used : gmap Z Z) (free : list Z) : Prop :=
  mcore ms used (ms_free_list ms) free ∧
  ∀ f, f ∈ free → val_at (ms_data ms) (2 * f) = Some init.
Definition mrep (init : Z) (ms : mstate) (used : gmap Z Z) : Prop :=
  ∃ free, mrep_free init ms used free.

(** What the loop over the new ids does. *)
Definition linked (ms : mstate) (lo hi : Z) (ms' : mstate) : Prop :=
  ms_free_list ms' = ms_free_list ms ∧ ms_id_boundary ms' = ms_id_boundary ms ∧
  vwf (ms_data ms') ∧
  (∀ id, slot_of (ms_data ms') id = slot_of (ms_data ms) id) ∧
  (∀ id, val_at (ms_data ms') (2 * id) = val_at (ms_data ms) (2 * id)) ∧
  (∀ id, val_at (ms_data ms') (2 * id + 1) =
     if bool_decide (lo ≤ id < hi) then Some (u32 (id + 1)) else val_at (ms_data ms) (2 * id + 1)).

Lemma set_or_bug_run ms id p w :
  vwf (ms_data ms) → slot_of (ms_data ms) id = Some p →
  set_or_bug id w ms = Done tt (set_data (poke p w (ms_data ms)) ms).
Proof.
  intros Hwf Hs. unfold set_or_bug. rewrite (bind_run _ _ _ 0 (set_data (poke p w (ms_data ms)) ms)); [done|].
  apply on_data_run. unfold cos_vect_set_. rewrite (bind_run _ _ _ _ _ (lookup_run _ _ Hwf)), Hs.
  destruct (slot_peek _ _ _ Hwf Hs). by erewrite bind_run by (by eapply put_slot_run).
Qed.

Lemma freeid id : 0 ≤ id < 2 ^ 29 → cos_map_to_vect_freeid id = 2 * id + 1.
Proof.
  intros Hid. unfold cos_map_to_vect_freeid, cos_map_to_vect_id. rewrite (s32_id (id * 2)) by lia.
  rewrite s32_id by lia. lia.
Qed.

Lemma valid id : - 2 ^ 30 ≤ id < 2 ^ 30 → cos_map_to_vect_id id = 2 * id.
Proof. intros Hid. unfold cos_map_to_vect_id. rewrite s32_id by lia. lia. Qed.

Lemma link_loop ms lo hi :
  vwf (ms_data ms) → 0 ≤ lo ≤ hi → hi < 2 ^ 29 →
  (∀ id, lo ≤ id < hi → is_Some (slot_of (ms_data ms) (2 * id + 1))) →
  ∃ ms', for_range lo hi (λ i, set_or_bug (cos_map_to_vect_freeid i) (u32 (i + 1))) ms = Done tt ms' ∧
    linked ms lo hi ms'.
Proof.
  intros Hwf Hlo Hhi Hs.
  assert (wp (for_range lo hi (λ i, set_or_bug (cos_map_to_vect_freeid i) (u32 (i + 1))))
             (λ _, linked ms lo hi) ms) as H.
  { apply (for_range_wp (linked ms lo)); [lia| |].
    - do 3 (split; [done|]). split; [done|]. split; [done|]. intros id.
      rewrite bool_decide_eq_false_2; [done|lia].
    - intros i s Hi (H1 & H2 & H3 & H4 & H5 & H6). destruct (Hs i Hi) as [p Hp]. rewrite <-H4 in Hp.
      unfold wp. rewrite freeid by lia. rewrite (set_or_bug_run _ _ p) by done.
      split; [done|]. split; [done|]. split; [by eapply vwf_poke|].
      split; [intros id; cbn; rewrite (slot_of_poke _ (2 * i + 1)) by done; apply H4|].
      split; intros id; cbn [ms_data set_data]; rewrite (val_at_poke _ (2 * i + 1)) by done.
      + rewrite decide_False by lia. apply H5.
      + rewrite H6. case_decide; repeat case_bool_decide; try done; try lia. do 2 f_equal. lia. }
  apply wp_Done in H as ([] & ms' & E & H). eauto.
Qed.

Lemma link_ids ms lo hi :
  vwf (ms_data ms) → 0 ≤ lo < hi → hi < 2 ^ 29 →
  (∀ id, lo ≤ id < hi → is_Some (slot_of (ms_data ms) (2 * id + 1))) →
  ∃ ms1 ms2,
    for_range lo hi (λ i, set_or_bug (cos_map_to_vect_freeid i) (u32 (i + 1))) ms = Done tt ms1 ∧
    set_or_bug (cos_map_to_vect_freeid (hi - 1)) (u32 (-1)) ms1 = Done tt ms2 ∧
    ms_free_list ms2 = ms_free_list ms ∧ ms_id_boundary ms2 = ms_id_boundary ms ∧
    vwf (ms_data ms2) ∧ (∀ id, slot_of (ms_data ms2) id = slot_of (ms_data ms) id) ∧
    (∀ id, val_at (ms_data ms2) (2 * id) = val_at (ms_data ms) (2 * id)) ∧
    flist (ms_data ms2) lo (seqZ lo (hi - lo)).
Proof.
  intros Hwf Hlo Hhi Hs. destruct (link_loop ms lo hi Hwf) as (ms1 & E1 & H1 & H2 & H3 & H4 & H5 & H6); [lia..|done|].
  destruct (Hs (hi - 1)) as [p Hp]; [lia|]. rewrite <-H4 in Hp.
  exists ms1. eexists. split; [done|]. rewrite freeid by lia.
  rewrite (set_or_bug_run _ _ p) by done. split; [done|]. split; [done|]. split; [done|].
  split; [by eapply vwf_poke|].
  split; [intros id; cbn; rewrite (slot_of_poke _ (2 * (hi - 1) + 1)) by done; apply H4|].
  split.
  { intros id. cbn [ms_data set_data]. rewrite (val_at_poke _ (2 * (hi - 1) + 1)) by done.
    rewrite decide_False by lia. apply H5. }
  replace (hi - lo) with (Z.of_nat (Z.to_nat (hi - lo - 1)) + 1) by lia. apply flist_range; [lia..| |].
  - intros j Hj. cbn [ms_data set_data]. rewrite (val_at_poke _ (2 * (hi - 1) + 1)) by done.
    rewrite decide_False, H6, bool_decide_eq_true_2 by lia. done.
  - cbn [ms_data set_data]. rewrite (val_at_poke _ (2 * (hi - 1) + 1)) by done. by rewrite decide_True by lia.
Qed.

Lemma mcore_small ms used h free id :
  mcore ms used h free → 0 ≤ id < ms_id_boundary ms → 0 ≤ id < 2 ^ 19.
Proof. intros [_ (k & -> & Hk) _ _ _ _ _]. lia. Qed.

Lemma mcore_slot ms used h free id :
  mcore ms used h free → 0 ≤ id < ms_id_boundary ms →
  ∃ p, slot_of (ms_data ms) (2 * id) = Some p ∧
    slot_of (ms_data ms) (2 * id + 1) = Some (cos_val_to_free p).
Proof.
  intros H Hid. destruct (proj2 (mr_slots _ _ _ _ H (2 * id))) as [p Hp]; [lia|].
  exists p. split; [done|]. by apply slot_succ.
Qed.

Lemma used_bound ms used h free id v :
  mcore ms used h free → used !! id = Some v → 0 ≤ id < ms_id_boundary ms.
Proof.
  intros H Hv. pose proof (mr_used _ _ _ _ H _ _ Hv) as Hx. unfold val_at in Hx.
  apply bind_Some in Hx as (p & Hp & _).
  pose proof (proj1 (mr_slots _ _ _ _ H (2 * id)) (ex_intro _ p Hp)). lia.
Qed.

(** Writes to the two slots of an id. *)
Lemma poke_pair d id p v w :
  vwf d → slot_of d (2 * id) = Some p →
  let d2 := poke (cos_val_to_free p) w (poke p v d) in
  vwf d2 ∧ (∀ id', slot_of d2 id' = slot_of d id') ∧
  (∀ id', val_at d2 id' = if decide (2 * id + 1 = id') then Some w
                          else if decide (2 * id = id') then Some v else val_at d id').
Proof.
  intros Hwf Hp d2. pose proof (slot_succ _ _ _ Hp) as Hp1.
  assert (vwf (poke p v d)) as Hwf1 by (by eapply vwf_poke).
  assert (∀ id', slot_of (poke p v d) id' = slot_of d id') as Hs1 by (intros; by eapply slot_of_poke).
  assert (slot_of (poke p v d) (2 * id + 1) = Some (cos_val_to_free p)) as Hp1' by (by rewrite Hs1).
  split; [by eapply vwf_poke|]. split; intros id'.
  - unfold d2. rewrite (slot_of_poke _ (2 * id + 1)) by done. apply Hs1.
  - unfold d2. rewrite (val_at_poke _ (2 * id + 1)) by done. case_decide; [done|]. by eapply val_at_poke.
Qed.

Lemma take_run init val ms used f free :
  mcore ms used f (f :: free) → (∀ g, g ∈ free → val_at (ms_data ms) (2 * g) = Some init) →
  ∃ ms', map_take val f ms = Done f ms' ∧ mrep_free init ms' (<[f := val]> used) free.
Proof.
  intros H Hi. pose proof (mr_wf _ _ _ _ H) as Hwf.
  destruct (proj1 (mr_free _ _ _ _ H f) ltac:(left)) as [Hf Hu].
  pose proof (mcore_small _ _ _ _ _ H Hf) as Hsm. destruct (mcore_slot _ _ _ _ _ H Hf) as (p & Hp & Hp1).
  destruct (mr_list _ _ _ _ H) as (_ & w & Hw & Hl). unfold val_at in Hw. rewrite Hp1 in Hw. cbn in Hw.
  destruct (slot_peek _ _ _ Hwf Hp) as [w0 Hw0].
  assert (peek (poke p val (ms_data ms)) (cos_val_to_free p) = Some w) as Hw1.
  { rewrite (peek_poke _ _ _ _ _ Hw0). rewrite decide_False; [done|]. destruct p; cbn. intros [=]. lia. }
  destruct (poke_pair _ _ _ val (u32 (-1)) Hwf Hp) as (Hwf2 & Hsl & Hval).
  eexists. split.
  - unfold map_take. rewrite valid by lia.
    rewrite (bind_run _ _ _ _ _ (on_data_run _ _ _ _ (lookup_run _ _ Hwf))), Hp.
    rewrite bool_decide_eq_true_2 by done. mrun.
    rewrite (bind_run _ _ _ _ _ (on_data_run _ (set_data (ms_data ms) ms) _ _ (put_slot_run _ _ val _ Hw0))).
    rewrite (bind_run _ _ _ _ _ (on_data_run _ (set_data (poke p val (ms_data ms)) _) _ _ (get_slot_run _ _ _ Hw1))).
    mrun. erewrite bind_run; [|apply on_data_run; by apply (put_slot_run _ (poke p val (ms_data ms)) _ _ Hw1)]. done.
  - destruct H as [_ Hb Hs Hnd Hfr Hus _]. apply NoDup_cons in Hnd as [Hnf Hnd]. split; [split|]; cbn; try done.
    + intros id. rewrite Hsl. apply Hs.
    + intros g. rewrite lookup_insert. specialize (Hfr g). case_decide as E; [subst g|].
      * split; [done|naive_solver].
      * rewrite <-Hfr, elem_of_cons. naive_solver.
    + intros id v Hv. rewrite Hval. rewrite decide_False by lia. rewrite lookup_insert in Hv.
      case_decide; [subst id; rewrite decide_True by lia; congruence|]. rewrite decide_False by lia. by apply Hus.
    + eapply flist_ext; [|done]. intros g Hg. rewrite Hval. rewrite !decide_False; [done|lia|].
      intros E. assert (g = f) as -> by lia. done.
    + intros g Hg. rewrite Hval. rewrite !decide_False; [by apply Hi| |lia].
      intros E. assert (g = f) as -> by lia. done.
Qed.

(** A deletion puts the id back in front of the free list. *)
Lemma del_run init ms used free id v :
  mrep_free init ms used free → used !! id = Some v →
  ∃ ms', cos_map_del init id ms = Done 0 ms' ∧ mrep_free init ms' (delete id used) (id :: free).
Proof.
  intros [H Hi] Hv. pose proof (mr_wf _ _ _ _ H) as Hwf. pose proof (used_bound _ _ _ _ _ _ H Hv) as Hf.
  pose proof (mcore_small _ _ _ _ _ H Hf) as Hsm. destruct (mcore_slot _ _ _ _ _ H Hf) as (p & Hp & Hp1).
  destruct (slot_peek _ _ _ Hwf Hp) as [w0 Hw0].
  assert (vwf (poke p init (ms_data ms))) as Hwf1 by (by eapply vwf_poke).
  assert (slot_of (poke p init (ms_data ms)) (2 * id + 1) = Some (cos_val_to_free p)) as Hp1'.
  { by rewrite (slot_of_poke _ (2 * id)). }
  destruct (slot_peek _ _ _ Hwf1 Hp1') as [w1 Hw1].
  destruct (poke_pair _ _ _ init (u32 (ms_free_list ms)) Hwf Hp) as (Hwf2 & Hsl & Hval).
  assert (- 2 ^ 31 ≤ ms_free_list ms < 2 ^ 31) as Hfl.
  { destruct free as [|g free]; [rewrite (mr_list _ _ _ _ H); lia|].
    destruct (mr_list _ _ _ _ H) as [-> _].
    destruct (proj1 (mr_free _ _ _ _ H g) ltac:(left)) as [Hg _].
    pose proof (mcore_small _ _ _ _ _ H Hg). lia. }
  eexists. split.
  - unfold cos_map_del. rewrite valid, freeid by lia.
    rewrite (bind_run _ _ _ _ _ (on_data_run _ _ _ _ (lookup_run _ _ Hwf))), Hp.
    rewrite (bind_run _ _ _ _ _ (on_data_run _ (set_data (ms_data ms) ms) _ _ (put_slot_run _ _ init _ Hw0))).
    rewrite (bind_run _ _ _ _ _ (on_data_run _ (set_data (poke p init (ms_data ms)) _) _ _ (lookup_run _ _ Hwf1))), Hp1'.
    rewrite bool_decide_eq_true_2 by done. mrun.
    erewrite bind_run; [|apply on_data_run; by apply (put_slot_run _ (poke p init (ms_data ms)) _ _ Hw1)]. done.
  - destruct H as [_ Hb Hs Hnd Hfr Hus Hl]. assert (id ∉ free) as Hnf by (rewrite Hfr; naive_solver).
    split; [split|]; cbn; try done.
    + intros g. rewrite Hsl. apply Hs.
    + by constructor.
    + intros g. rewrite elem_of_cons, Hfr, lookup_delete. case_decide; naive_solver.
    + intros g x [Hne Hx]%lookup_delete_Some. rewrite Hval. rewrite !decide_False by lia. by apply Hus.
    + split; [done|]. rewrite Hval, decide_True by done. eexists. split; [done|]. rewrite s32_u32 by done.
      eapply flist_ext; [|done]. intros g Hg. rewrite Hval. rewrite !decide_False; [done|lia|].
      intros E. assert (g = id) as -> by lia. done.
    + intros g [->|Hg]%elem_of_cons; rewrite Hval; rewrite decide_False by lia.
      * by rewrite decide_True.
      * rewrite decide_False; [by apply Hi|]. intros E. assert (g = id) as -> by lia. done.
Qed.

Lemma val_slot st id v : val_at st id = Some v → is_Some (slot_of st id).
Proof. unfold val_at. by intros (p & -> & _)%bind_Some. Qed.

Lemma slot_val st id : vwf st → is_Some (slot_of st id) → is_Some (val_at st id).
Proof. intros Hwf [p Hp]. unfold val_at. rewrite Hp. exact (slot_peek _ _ _ Hwf Hp). Qed.

(** What growing keeps of a map. *)
Lemma mrep_grown init ms used free st1 :
  mrep_free init ms used free → vwf st1 → grown init (ms_data ms) st1 →
  (∀ id, slot_of st1 id = slot_of (ms_data ms) id) → mrep_free init (set_data st1 ms) used free.
Proof.
  intros [[Hwf Hb Hs Hnd Hfr Hus Hl] Hi] Hwf1 Hg Hsl.
  assert (∀ id, val_at st1 id = val_at (ms_data ms) id) as Hv.
  { intros id. destruct (Hg id) as [|[E1 E2]]; [done|]. apply val_slot in E2. rewrite Hsl in E2.
    apply (slot_val _ _ Hwf) in E2 as [v E2]. congruence. }
  split; [split|]; cbn; try done.
  - intros id. rewrite Hsl. apply Hs.
  - intros id v Hx. rewrite Hv. by apply Hus.
  - eapply flist_ext; [|done]. intros f _. apply Hv.
  - intros f Hf. rewrite Hv. by apply Hi.
Qed.

Section MapSpec.
Context (init : Z) (alloc_page : gmap Z (list Z) → option (Z * list Z)) (Ha : fresh_pages alloc_page).

Lemma grow_open ms used val k st1 p :
  mrep_free init ms used [] → ms_id_boundary ms = 512 * k → 1 ≤ k < 1024 →
  vwf st1 → grown init (ms_data ms) st1 → opened (ms_data ms) (1024 * k) st1 →
  slot_of st1 (1024 * k) = Some p →
  let b := 512 * k in
  let ms1 := set_id_boundary (b + 512) (set_data (poke p val st1) ms) in
  ∃ ms2 ms3,
    for_range b (b + 512) (λ i, set_or_bug (cos_map_to_vect_freeid i) (u32 (i + 1))) ms1 = Done tt ms2 ∧
    set_or_bug (cos_map_to_vect_freeid (b + 512 - 1)) (u32 (-1)) ms2 = Done tt ms3 ∧
    mcore ms3 used b (seqZ b 512) ∧ ∀ g, g ∈ seqZ (b + 1) 511 → val_at (ms_data ms3) (2 * g) = Some init.
Proof.
  intros [[Hwf _ Hs _ Hfr Hus _] _] Hb Hk Hwf1 Hg Ho Hp b ms1. rewrite Hb in Hs, Hfr.
  assert (∀ id, is_Some (slot_of (ms_data ms1) id) ↔ 0 ≤ id < 2 * (b + 512)) as Hs1.
  { intros id. cbn. rewrite (slot_of_poke _ (1024 * k)) by done. unfold opened in Ho.
    assert (1024 * k / 1024 = k) as Hq by (rewrite Z.mul_comm; apply Z.div_mul; lia).
    rewrite Ho, Hq, Hs. pose proof (Z.div_mod id 1024). pose proof (Z.mod_pos_bound id 1024). lia. }
  assert (∀ id, id ≠ b → val_at (ms_data ms1) (2 * id) = val_at st1 (2 * id)) as Hv1.
  { intros id Hne. cbn. rewrite (val_at_poke _ (1024 * k)) by done. rewrite decide_False; [done|lia]. }
  destruct (link_ids ms1 b (b + 512)) as (ms2 & ms3 & E2 & E3 & _ & Hb3 & Hwf3 & Hs3 & Hv3 & Hl3).
  - by eapply vwf_poke.
  - lia.
  - lia.
  - intros id Hid. apply Hs1. lia.
  - exists ms2, ms3. split; [done|]. split; [done|]. replace (b + 512 - b) with 512 in Hl3 by lia.
    change (ms_id_boundary ms1) with (b + 512) in Hb3. split; [split|].
    + done.
    + exists (k + 1). rewrite Hb3. lia.
    + intros id. rewrite Hs3, Hb3. apply Hs1.
    + apply NoDup_seqZ.
    + intros g. rewrite elem_of_seqZ, Hb3. specialize (Hfr g).
      destruct (used !! g) as [v|] eqn:Hug.
      * apply Hus, val_slot, Hs in Hug. split; [lia|by intros [_ ?]].
      * assert (¬ 0 ≤ g < 512 * k) by (intros Hin; by apply (not_elem_of_nil g), Hfr).
        split; [split; [lia|done]|intros [? _]; lia].
    + intros id v Hid. rewrite Hv3. pose proof (val_slot _ _ _ (Hus _ _ Hid)) as Hq%Hs. rewrite Hv1 by lia.
      destruct (Hg (2 * id)) as [->|[E _]]; [by apply Hus|]. rewrite (Hus _ _ Hid) in E. done.
    + done.
    + intros g Hgr%elem_of_seqZ. rewrite Hv3, Hv1 by lia. destruct (Hg (2 * g)) as [E|[_ E]]; [|done].
      exfalso. destruct (slot_val st1 (2 * g)) as [v Hv]; [done| |].
      * pose proof (proj2 (Hs1 (2 * g)) ltac:(lia)) as Hq. cbn in Hq.
        by rewrite (slot_of_poke _ (1024 * k)) in Hq.
      * rewrite E in Hv. apply val_slot, Hs in Hv. lia.
Qed.

Lemma grow_run ms used val :
  mrep_free init ms used [] → val ≠ 0 →
  (∃ ms', map_grow init alloc_page val ms = Done None ms' ∧ mrep_free init ms' used [] ∧
     (out_of_pages alloc_page ∨ ms_id_boundary ms = 2 ^ 19)) ∨
  (∃ ms' b, map_grow init alloc_page val ms = Done (Some b) ms' ∧ mcore ms' used b (seqZ b 512) ∧
     ∀ g, g ∈ seqZ (b + 1) 511 → val_at (ms_data ms') (2 * g) = Some init).
Proof.
  intros Hr Hval. pose proof (mr_bound _ _ _ _ (proj1 Hr)) as (k & Hb & Hk).
  pose proof (mr_wf _ _ _ _ (proj1 Hr)) as Hwf. pose proof (mr_slots _ _ _ _ (proj1 Hr)) as Hs.
  unfold map_grow. mrun. rewrite Hb, valid by lia. destruct (decide (k = 1024)) as [->|Hk'].
  - assert (v_depth (vs_v (ms_data ms)) = 2) as Hd.
    { destruct Hwf as [_ [Hd|[Hd _]]]; [|done]. exfalso. destruct (proj2 (Hs 1024)) as [p Hp]; [lia|].
      unfold slot_of in Hp. by rewrite Hd in Hp. }
    pose proof (add_id_limit init alloc_page (ms_data ms) val (2 * (512 * 1024)) Hwf Hval Hd ltac:(done)) as E.
    left. exists ms. rewrite (bind_run _ _ _ _ _ (on_data_run _ _ _ _ E)).
    destruct ms; cbn in *. split; [done|]. split; [done|by right].
  - assert (slot_of (ms_data ms) (2 * (512 * k)) = None) as Hn.
    { apply eq_None_not_Some. rewrite Hs. lia. }
    destruct (add_id_open init alloc_page (ms_data ms) val (2 * (512 * k)) Ha Hwf ltac:(split; [done|lia]) Hn)
      as (st1 & Hwf1 & Hg & [(E & Hoom & Hsl)|(p & E & Ho & Hp)]).
    + left. rewrite (bind_run _ _ _ _ _ (on_data_run _ _ _ _ E)). exists (set_data st1 ms). split; [done|].
      split; [by apply mrep_grown|by left].
    + right. rewrite (bind_run _ _ _ _ _ (on_data_run _ _ _ _ E)).
      destruct (Z.ltb_spec (2 * (512 * k)) 0); [lia|]. change COS_MAP_BASE with 512. rewrite s32_id by lia. mrun. replace (2 * (512 * k)) with (1024 * k) in Ho, Hp by lia.
      destruct (grow_open ms used val k st1 p Hr Hb) as (ms2 & ms3 & E2 & E3 & Hc & Hi); [lia|done..|].
      rewrite (bind_run _ _ _ _ _ E2), (bind_run _ _ _ _ _ E3). eauto.
Qed.

(** The operations on a map, for any client: deletions are of ids in use, and
    indices are such that their double fits into a [long]. *)
Inductive mop : Set :=
| MAdd (val : Z)
| MDel (id : Z)
| MLookup (id : Z).

Definition mop_ok (used : gmap Z Z) (o : mop) : Prop :=
  match o with
  | MAdd val => val ≠ 0
  | MDel id => is_Some (used !! id)
  | MLookup id => - 2 ^ 30 ≤ id < 2 ^ 30
  end.

Definition map_op (o : mop) : M mstate Z :=
  match o with
  | MAdd val => cos_map_add init alloc_page val
  | MDel id => cos_map_del init id
  | MLookup id => cos_map_lookup id
  end.

(** The steps of an allocator of ids: an addition chooses an id that is not in
    use, or fails when there is no memory or all [2^19] ids are in use. *)
Inductive mstep (used : gmap Z Z) : mop → Z → gmap Z Z → Prop :=
| mstep_add val id :
    used !! id = None → 0 ≤ id < 2 ^ 19 → mstep used (MAdd val) id (<[id := val]> used)
| mstep_add_full val :
    out_of_pages alloc_page ∨ (∀ id, 0 ≤ id < 2 ^ 19 → is_Some (used !! id)) →
    mstep used (MAdd val) (-1) used
| mstep_del id : mstep used (MDel id) 0 (delete id used)
| mstep_lookup id v : used !! id = Some v → mstep used (MLookup id) v used
| mstep_lookup_absent id v :
    used !! id = None → v = 0 ∨ v = init → mstep used (MLookup id) v used.

(** With a free id at hand any value can be added, [NULL] too. *)
Lemma map_add_free ms used f free val : mrep_free init ms used (f :: free) →
  ∃ ms', cos_map_add init alloc_page val ms = Done f ms' ∧ mrep_free init ms' (<[f := val]> used) free ∧
    used !! f = None ∧ 0 ≤ f < 2 ^ 19.
Proof.
  intros [Hc Hi]. unfold cos_map_add. mrun. pose proof (mr_list _ _ _ _ Hc) as [Hl _].
  destruct (proj1 (mr_free _ _ _ _ Hc f) ltac:(left)) as [Hb Hu].
  rewrite Hl in Hc |- *. destruct (Z.eqb_spec f (-1)); [lia|]. mrun.
  destruct (take_run init val ms used f free Hc) as (ms2 & E2 & Hr2); [intros g Hg; apply Hi; by right|].
  exists ms2. split_and!; try done; by eapply mcore_small.
Qed.

Lemma map_add_step ms used val :
  mrep init ms used → val ≠ 0 →
  ∃ r ms' used', cos_map_add init alloc_page val ms = Done r ms' ∧
    mstep used (MAdd val) r used' ∧ mrep init ms' used'.
Proof.
  intros [free Hr] Hval. unfold cos_map_add. mrun. destruct free as [|f free].
  - pose proof (mr_list _ _ _ _ (proj1 Hr)) as Hl. cbn in Hl. rewrite Hl. cbn [Z.eqb Pos.eqb].
    destruct (grow_run ms used val Hr Hval) as [(ms' & E & Hr' & Hc)|(ms' & b & E & Hc & Hi)];
      rewrite (bind_run _ _ _ _ _ E).
    + exists (-1), ms', used. split; [done|]. split; [|by eexists]. constructor.
      destruct Hc as [|Hb]; [by left|right]. intros id Hid. destruct (used !! id) eqn:Hu; [done|].
      exfalso. apply (not_elem_of_nil id), (mr_free _ _ _ _ (proj1 Hr)). by rewrite Hb.
    + rewrite (seqZ_cons b) in Hc by lia. rewrite <-Z.add_1_r in Hc. change (Z.pred 512) with 511 in Hc.
      destruct (take_run init val ms' used b (seqZ (b + 1) 511) Hc Hi) as (ms2 & E2 & Hr2).
      destruct (proj1 (mr_free _ _ _ _ Hc b) ltac:(left)) as [Hb Hu].
      exists b, ms2, (<[b := val]> used). split; [done|]. split; [|by eexists].
      constructor; [done|]. by eapply mcore_small.
  - destruct (map_add_free ms used f free val Hr) as (ms2 & E2 & Hr2 & Hu & Hf). unfold cos_map_add in E2.
    exists f, ms2, (<[f := val]> used). split; [done|]. split; [by constructor|by eexists].
Qed.

Lemma map_lookup_step ms used id :
  mrep init ms used → - 2 ^ 30 ≤ id < 2 ^ 30 →
  ∃ r, cos_map_lookup id ms = Done r ms ∧ mstep used (MLookup id) r used.
Proof.
  intros (free & Hc & Hi) Hid. pose proof (mr_wf _ _ _ _ Hc) as Hwf. unfold cos_map_lookup.
  rewrite valid by done. eexists. split.
  { rewrite (on_data_run _ _ _ _ (lookup_val _ _ Hwf)). by destruct ms. }
  destruct (used !! id) as [v|] eqn:Hu.
  - rewrite (mr_used _ _ _ _ Hc _ _ Hu). by constructor.
  - apply mstep_lookup_absent; [done|]. destruct (val_at (ms_data ms) (2 * id)) as [v|] eqn:Hv; [|by left].
    right. apply val_slot in Hv as Hs. apply (mr_slots _ _ _ _ Hc) in Hs.
    assert (id ∈ free) as Hf by (apply (mr_free _ _ _ _ Hc); split; [lia|done]).
    rewrite (Hi _ Hf) in Hv. by simplify_eq.
Qed.

Lemma map_init_free ms :
  is_page (vs_mem (ms_data ms)) (v_vect (vs_v (ms_data ms))) →
  ∃ ms', cos_map_init_static init ms = Done tt ms' ∧ mrep_free init ms' ∅ (seqZ 0 512).
Proof.
  intros Hp. unfold cos_map_init_static, cos_map_init_.
  destruct (init_run init (ms_data ms) Hp) as (d & E & Hd & Hwf & Hv).
  rewrite (bind_run _ _ _ _ _ (on_data_run _ _ _ _ E)). cbn [Z.eqb]. mrun.
  assert (∀ id, is_Some (slot_of d id) ↔ 0 ≤ id < 1024) as Hs.
  { intros id. unfold slot_of. rewrite Hd. cbn [Z.eqb Pos.eqb]. destruct (Z.ltb_spec id 0).
    - split; [by intros []|lia].
    - destruct (Z.leb_spec 1024 id); split; try lia; [by intros []|by eexists]. }
  change COS_MAP_BASE with 512.
  destruct (link_ids (set_id_boundary 512 (set_free_list 0 (set_data d ms))) 0 512)
    as (ms2 & ms3 & E2 & E3 & Hfl & Hb & Hwf3 & Hs3 & Hv3 & Hl); [done|lia..| |].
  { intros id Hid. apply Hs. lia. }
  rewrite (bind_run _ _ _ _ _ E2). exists ms3. split; [done|]. cbn in Hfl, Hb.
  split; [split|]; rewrite ?Hfl, ?Hb.
  - exact Hwf3.
  - exists 1. lia.
  - intros id. rewrite Hs3. cbn. apply Hs.
  - apply NoDup_seqZ.
  - intros f. rewrite elem_of_seqZ, lookup_empty. split; [intros ?; split; [lia|done]|intros [? _]; lia].
  - intros id v. by rewrite lookup_empty.
  - exact Hl.
  - intros f Hf%elem_of_seqZ. rewrite Hv3. cbn. specialize (Hv (2 * f)). rewrite lookup_empty in Hv.
    destruct Hv as [Hv|]; [|done]. destruct (slot_val d (2 * f) Hwf) as [v Hx]; [apply Hs; lia|congruence].
Qed.

Lemma map_init_run ms :
  is_page (vs_mem (ms_data ms)) (v_vect (vs_v (ms_data ms))) →
  ∃ ms', cos_map_init_static init ms = Done tt ms' ∧ mrep init ms' ∅.
Proof. intros Hp. destruct (map_init_free ms Hp) as (ms' & E & Hr). exists ms'. split; [done|by eexists]. Qed.
End MapSpec.

(** C30. A map is an allocator of ids: initialised, it has none in use, and every
    addition then returns an id that is not in use and associates the value
    with it, or fails and changes nothing, which happens only without memory or
    with all 2^19 ids in use; a deletion frees its id; a lookup returns the
    value of an id in use.  No call that a client may make fails an assertion,
    whatever was called before. *)
Theorem map_allocates_ids init alloc_page :
  fresh_pages alloc_page →
  (∀ ms, is_page (vs_mem (ms_data ms)) (v_vect (vs_v (ms_data ms))) →
     ∃ ms', cos_map_init_static init ms = Done tt ms' ∧ mrep init ms' ∅) ∧
  (∀ ms used o, mrep init ms used → mop_ok used o →
     ∃ r ms' used', map_op init alloc_page o ms = Done r ms' ∧
       mstep init alloc_page used o r used' ∧ mrep init ms' used').
Proof.
  intros Ha. split; [apply map_init_run|]. intros ms used o Hr Ho. destruct o as [val|id|id]; cbn.
  - by apply map_add_step.
  - destruct Hr as [free Hr], Ho as [v Hv].
    destruct (del_run init ms used free id v Hr Hv) as (ms' & E & Hr').
    exists 0, ms', (delete id used). split; [done|]. split; [constructor|by eexists].
  - destruct (map_lookup_step init alloc_page ms used id Hr Ho) as (r & E & Hs).
    by exists r, ms, used.
Qed.

(** ** Examples *)

(** An allocator that always finds a page. *)
Definition any_page (m : gmap Z (list Z)) : option (Z * list Z) :=
  Some (fresh ({[0]} ∪ dom m : gset Z), replicate 1024 0).

Lemma any_page_fresh : fresh_pages any_page.
Proof.
  intros m a junk [= <- <-]. pose proof (is_fresh ({[0]} ∪ dom m : gset Z)) as Hf.
  set (a := fresh _) in *. split; [set_solver|]. split; [|done]. apply not_elem_of_dom. set_solver.
Qed.

(** A static vector, before its initialisation. *)
Definition static_vect : vstate := MkV (MkVect 0 4096) {[4096 := replicate 1024 7]}.

Lemma static_page : is_page (vs_mem static_vect) (v_vect (vs_v static_vect)).
Proof. split; [done|]. exists (replicate 1024 7). split; [by apply lookup_singleton_eq|done]. Qed.

Lemma vect_refines_map_witness :
  ∃ rs st' m,
    (cos_vect_init_static 0;; vect_run 0 any_page [VAdd 5 2000; VLookup 2000; VDel 2000]) static_vect
      = Done rs st' ∧
    vsteps 0 any_page ∅ [VAdd 5 2000; VLookup 2000; VDel 2000] rs m ∧ vrep 0 st' m.
Proof.
  apply vect_refines_map; [apply any_page_fresh|apply static_page|].
  repeat constructor; cbn; lia.
Defined.

Lemma map_allocates_ids_witness :
  ∃ ms ms' r used, cos_map_init_static 0 (MkMap static_vect 0 0) = Done tt ms ∧
    map_op 0 any_page (MAdd 5) ms = Done r ms' ∧ mstep 0 any_page ∅ (MAdd 5) r used.
Proof.
  destruct (map_allocates_ids 0 any_page any_page_fresh) as [Hi Hs].
  destruct (Hi (MkMap static_vect 0 0) static_page) as (ms & E & Hr).
  destruct (Hs ms ∅ (MAdd 5) Hr ltac:(done)) as (r & ms' & used & E2 & Hst & _).
  exists ms, ms', r, used. split; [exact E|]. split; [exact E2|exact Hst].
Defined.

(** An index of [2^20] or more is refused by a vector of two levels, but stops
    one that still has one level. *)
Definition next_page (m : gmap Z (list Z)) : option (Z * list Z) :=
  Some (4096 * (1 + Z.of_nat (size m)), replicate 1024 0).

Lemma add_beyond_limit :
  (cos_vect_init_static 0;; cos_vect_add_id 0 next_page 5 (2 ^ 20)) static_vect = Fault AssertFail ∧
  ∃ st, (cos_vect_init_static 0;; cos_vect_add_id 0 next_page 5 5000;;
         cos_vect_add_id 0 next_page 5 (2 ^ 20)) static_vect = Done (-1) st.
Proof. split; [by vm_compute|]. eexists. by vm_compute. Qed.

(** Freeing a vector of two levels returns its first page only. *)
Lemma free_vect_leaks :
  ∃ st, (cos_vect_init_static 0;; cos_vect_add_id 0 next_page 5 5000;; cos_vect_free_vect) static_vect
    = Done tt st ∧ size (vs_mem st) = 2%nat.
Proof. eexists. split; by vm_compute. Qed.

(** Deleting an id twice makes the map hand it out twice. *)
Lemma double_delete_aliases :
  ∃ ms, (cos_map_init_static 0;; cos_map_add 0 next_page 5;; cos_map_del 0 0;; cos_map_del 0 0;;
         a ← cos_map_add 0 next_page 6; b ← cos_map_add 0 next_page 7; mret (a, b))
        (MkMap static_vect 0 0) = Done (0, 0) ms.
Proof. eexists. by vm_compute. Qed.
