(* ===== verification/Evt.v ===== *)
(** * Events

    Model of [components/implementation/evt/edge/evt.c] and [evt_impl.h]: the
    component through which a thread waits for one event or for any event of its
    group.  An event is on the list of idle events of its group or, once it is
    triggered, on the list of its priority.

    Structures are numbered; the links of all lists are one map, and the map of
    identifiers is the one of Vect.v.  A structure that was freed is no longer
    there, and touching it is a fault.  The lock makes an operation atomic; one
    that waits is split where the thread blocks, so that an attempt ends with a
    result or with the thread blocked. *)

From stdpp Require Import base list numbers option gmap.
From S2P Require Import Prelude CosList Vect.
Local Open Scope Z_scope.

Inductive evt_status_t : Set := EVT_TRIGGERED | EVT_BLOCKED | EVT_INACTIVE.
Inductive evt_grp_status_t : Set := EVTG_INACTIVE | EVTG_BLOCKED.
#[export] Instance evt_status_eq_dec : EqDecision evt_status_t.
Proof. solve_decision. Defined.
#[export] Instance evt_grp_status_eq_dec : EqDecision evt_grp_status_t.
Proof. solve_decision. Defined.

Definition EVT_NUM_PRIOS : Z := 2.
Definition ENOMEM : Z := 12.
Definition EINVAL : Z := 22.

(** [struct evt] and [struct evt_grp] without the links. *)
Record evt : Type := MkEvt {
  e_status : evt_status_t;
  e_prio : Z;
  e_extern_id : Z;
  e_grp : option nat;
}.

Record evt_grp : Type := MkGrp {
  g_spdid : Z;
  g_tid : Z;
  g_status : evt_grp_status_t;
}.

Definition set_e_status (v : evt_status_t) (e : evt) : evt := MkEvt v (e_prio e) (e_extern_id e) (e_grp e).
Definition set_e_prio (v : Z) (e : evt) : evt := MkEvt (e_status e) v (e_extern_id e) (e_grp e).
Definition set_e_extern_id (v : Z) (e : evt) : evt := MkEvt (e_status e) (e_prio e) v (e_grp e).
Definition set_e_grp (v : option nat) (e : evt) : evt := MkEvt (e_status e) (e_prio e) (e_extern_id e) v.
Definition set_g_status (v : evt_grp_status_t) (g : evt_grp) : evt_grp := MkGrp (g_spdid g) (g_tid g) v.

(** What is linked: the variable [grps], a group, the fields [events] and
    [triggered[p]] of a group, an event. *)
Inductive eloc : Set :=
| LGrps
| LGrp (g : nat)
| LEvents (g : nat)
| LTrig (g : nat) (p : Z)
| LEvt (e : nat).
#[export] Instance eloc_eq_dec : EqDecision eloc.
Proof. solve_decision. Defined.
#[export] Instance eloc_countable : Countable eloc.
Proof.
  refine (inj_countable' (λ l, match l with
    | LGrps => (0, 0%nat, 0) | LGrp g => (1, g, 0) | LEvents g => (2, g, 0)
    | LTrig g p => (3, g, p) | LEvt e => (4, e, 0) end)
  (λ t, match t with
    | (0, _, _) => LGrps | (1, g, _) => LGrp g | (2, g, _) => LEvents g
    | (3, g, p) => LTrig g p | (_, e, _) => LEvt e end) _).
  by intros [].
Defined.

(** The variables of the component.  [es_mem] says whether the next calls of
    [malloc] succeed (all of them at its end), [es_woken] are the threads that
    [sched_wakeup] was called for, the latest first. *)
Record estate : Type := MkEs {
  es_links : gmap eloc (eloc * eloc);
  es_evts : gmap nat evt;
  es_grps : gmap nat evt_grp;
  es_map : mstate;
  es_mem : list bool;
  es_woken : list Z;
}.

Definition set_es_links (v : gmap eloc (eloc * eloc)) (s : estate) : estate :=
  MkEs v (es_evts s) (es_grps s) (es_map s) (es_mem s) (es_woken s).
Definition set_es_evts (v : gmap nat evt) (s : estate) : estate :=
  MkEs (es_links s) v (es_grps s) (es_map s) (es_mem s) (es_woken s).
Definition set_es_grps (v : gmap nat evt_grp) (s : estate) : estate :=
  MkEs (es_links s) (es_evts s) v (es_map s) (es_mem s) (es_woken s).
Definition set_es_map (v : mstate) (s : estate) : estate :=
  MkEs (es_links s) (es_evts s) (es_grps s) v (es_mem s) (es_woken s).
Definition set_es_mem (v : list bool) (s : estate) : estate :=
  MkEs (es_links s) (es_evts s) (es_grps s) (es_map s) v (es_woken s).
Definition set_es_woken (v : list Z) (s : estate) : estate :=
  MkEs (es_links s) (es_evts s) (es_grps s) (es_map s) (es_mem s) v.

#[export] Instance es_store : LinkStore estate eloc.
Proof. refine {| ls_get := es_links; ls_set := set_es_links |}; [done..|by intros []]. Defined.

#[local] Abbreviation E := (M estate).
#[local] Abbreviation EMPTY_LIST := (EMPTY_LIST (S := estate)).
#[local] Abbreviation FIRST_LIST := (FIRST_LIST (S := estate)).

(** An operation on [evt_map]. *)
Definition on_map {A} (o : M mstate A) : E A := λ s,
  match o (es_map s) with
  | Done a m => Done a (set_es_map m s)
  | Fault f => Fault f
  end.

Definition get_evt (e : nat) : E evt := m ← gets es_evts; bound (m !! e).
Definition upd_evt (e : nat) (f : evt → evt) : E unit :=
  x ← get_evt e; modify (λ s, set_es_evts (<[e := f x]> (es_evts s)) s).
Definition get_grp (g : nat) : E evt_grp := m ← gets es_grps; bound (m !! g).
Definition upd_grp (g : nat) (f : evt_grp → evt_grp) : E unit :=
  x ← get_grp g; modify (λ s, set_es_grps (<[g := f x]> (es_grps s)) s).

(** Whether [malloc] finds memory. *)
Definition mem_avail : E bool :=
  l ← gets es_mem;
  match l with
  | [] => mret true
  | b :: l => modify (set_es_mem l);; mret b
  end.

(** The field [triggered[p]]. *)
Definition trig (g : nat) (p : Z) : E eloc :=
  if (0 <=? p) && (p <? EVT_NUM_PRIOS) then mret (LTrig g p) else fail OutOfBounds.

(** ** evt_impl.h *)

Definition evt_grp_init (eg : nat) (spdid tid : Z) : E unit :=
  upd_grp eg (λ _, MkGrp spdid tid EVTG_INACTIVE);;
  INIT_LIST (LGrp eg);;
  INIT_LIST (LEvents eg);;
  for_range 0 EVT_NUM_PRIOS (λ i, l ← trig eg i; INIT_LIST l).

(** [__evt_trigger] *)
Definition evt_trigger_ (e : nat) : E Z :=
  x ← get_evt e;
  assert (bool_decide (e_grp x ≠ None));;
  g ← deref (e_grp x);
  y ← get_grp g;
  REM_LIST (LEvt e);;
  t ← trig g (e_prio x);
  ADD_END_LIST t (LEvt e);;
  upd_evt e (set_e_status EVT_TRIGGERED);;
  upd_grp g (set_g_status EVTG_INACTIVE);;
  mret (if bool_decide (e_status x = EVT_BLOCKED) || bool_decide (g_status y = EVTG_BLOCKED)
        then g_tid y else 0).

(** The loop over the priorities in [__evt_grp_read_noblock]. *)
Fixpoint read_loop (fuel : nat) (g : nat) (i : Z) : E (option nat) :=
  match fuel with
  | O => mret None
  | S fuel =>
      t ← trig g i;
      b ← EMPTY_LIST t;
      if (b : bool) then read_loop fuel g (i + 1)
      else
        l ← FIRST_LIST t;
        assert (bool_decide (l ≠ t));;
        match l with
        | LEvt e =>
            REM_LIST l;;
            x ← get_evt e;
            assert (bool_decide (e_status x = EVT_TRIGGERED));;
            upd_evt e (set_e_status EVT_INACTIVE);;
            upd_grp g (set_g_status EVTG_INACTIVE);;
            ADD_LIST (mret (LEvents g)) l;;
            mret (Some e)
        | _ => fail BadCast
        end
  end.

(** [__evt_grp_read_noblock]: the error, and the event. *)
Definition evt_grp_read_noblock (thd : Z) (g : nat) : E (Z * option nat) :=
  y ← get_grp g;
  if negb (thd =? g_tid y) then mret (-1, None)
  else
    e ← read_loop (Z.to_nat EVT_NUM_PRIOS) g 0;
    mret (0, e).

Definition evt_grp_read (thd : Z) (g : nat) : E (Z * option nat) :=
  r ← evt_grp_read_noblock thd g;
  let '(ret, e) := (r : Z * option nat) in
  if negb (ret =? 0) then mret (ret, e)
  else
    when (bool_decide (e = None)) (upd_grp g (set_g_status EVTG_BLOCKED));;
    mret (0, e).

Definition evt_read (thd : Z) (e : nat) : E Z :=
  x ← get_evt e;
  assert (negb (bool_decide (e_status x = EVT_BLOCKED)));;
  assert (bool_decide (e_grp x ≠ None));;
  g ← deref (e_grp x);
  y ← get_grp g;
  assert (negb (bool_decide (g_status y = EVTG_BLOCKED)));;
  if negb (thd =? g_tid y) then mret (-1)
  else if bool_decide (e_status x = EVT_TRIGGERED) then
    REM_LIST (LEvt e);;
    ADD_LIST (mret (LEvents g)) (LEvt e);;
    upd_evt e (set_e_status EVT_INACTIVE);;
    mret 1
  else
    upd_evt e (set_e_status EVT_BLOCKED);;
    mret 0.

(** [__evt_free] *)
Definition evt_free_ (e : nat) : E unit :=
  upd_evt e (set_e_grp None);;
  upd_evt e (set_e_status EVT_INACTIVE);;
  REM_LIST (LEvt e);;
  modify (λ s, set_es_links (delete (LEvt e) (es_links s)) (set_es_evts (delete e (es_evts s)) s)).

(** [__evt_new]; the links of new memory hold anything. *)
Definition evt_new (g : nat) : E (option nat) :=
  b ← mem_avail;
  if negb b then mret None
  else
    m ← gets es_evts;
    let e := fresh ({[0%nat]} ∪ dom m : gset nat) in
    modify (λ s, set_es_links (<[LEvt e := (LEvt e, LEvt e)]> (es_links s))
                   (set_es_evts (<[e := MkEvt EVT_INACTIVE 0 0 (Some g)]> (es_evts s)) s));;
    ADD_LIST (mret (LEvents g)) (LEvt e);;
    mret (Some e).

(** ** evt.c *)

Section Manager.
(** The pages that the map of identifiers grows by. *)
Context (alloc_page : gmap Z (list Z) → option (Z * list Z)).

Definition mapping_create (e : Z) : E Z := on_map (cos_map_add 0 alloc_page e).

Definition mapping_find (extern_evt : Z) : E (option nat) :=
  v ← on_map (cos_map_lookup extern_evt);
  if v =? 0 then mret None
  else
    x ← get_evt (Z.to_nat v);
    assert (e_extern_id x =? extern_evt);;
    mret (Some (Z.to_nat v)).

Definition mapping_free (extern_evt : Z) : E unit :=
  r ← on_map (cos_map_del 0 extern_evt);
  assert (r =? 0).

Definition evt_grp_create (spdid tid : Z) : E (option nat) :=
  b ← mem_avail;
  if negb b then mret None
  else
    m ← gets es_grps;
    let g := fresh (dom m : gset nat) in
    modify (λ s, set_es_grps (<[g := MkGrp 0 0 EVTG_INACTIVE]> (es_grps s))
      (set_es_links (<[LGrp g := (LGrp g, LGrp g)]> (<[LEvents g := (LEvents g, LEvents g)]>
         (<[LTrig g 0 := (LTrig g 0, LTrig g 0)]> (<[LTrig g 1 := (LTrig g 1, LTrig g 1)]> (es_links s))))) s));;
    evt_grp_init g spdid tid;;
    mret (Some g).

(** [while (!EMPTY_LIST(head, next, prev))] of [evt_grp_free]; the fuel is the
    number of structures. *)
Fixpoint drain (fuel : nat) (head : eloc) : E unit :=
  b ← EMPTY_LIST head;
  if (b : bool) then mret tt
  else match fuel with
  | O => fail NoFuel
  | S fuel => l ← FIRST_LIST head; REM_LIST l;; drain fuel head
  end.

Definition evt_grp_free (g : nat) : E unit :=
  m ← gets es_links;
  let n := size m in
  b ← EMPTY_LIST (LGrp g);
  when (negb b) (REM_LIST (LGrp g));;
  drain n (LEvents g);;
  for_range 0 EVT_NUM_PRIOS (λ i, t ← trig g i; drain n t);;
  modify (λ s, set_es_grps (delete g (es_grps s))
    (set_es_links (delete (LGrp g) (delete (LEvents g) (delete (LTrig g 0) (delete (LTrig g 1) (es_links s))))) s)).

(** The loop of [evt_grp_find] from [l] on. *)
Fixpoint grp_find_loop (fuel : nat) (tid : Z) (l : eloc) : E (option nat) :=
  match l with
  | LGrps => mret None
  | LGrp g =>
      match fuel with
      | O => fail NoFuel
      | S fuel =>
          y ← get_grp g;
          if g_tid y =? tid then mret (Some g)
          else n ← FIRST_LIST l; grp_find_loop fuel tid n
      end
  | _ => fail BadCast
  end.

Definition evt_grp_find (tid : Z) : E (option nat) :=
  m ← gets es_grps;
  l ← FIRST_LIST LGrps;
  grp_find_loop (size m) tid l.

Definition evt_grp_add (g : nat) : E unit := ADD_LIST (mret LGrps) (LGrp g).

(** The group of the thread and the new event in it. *)
Definition create_event (spdid tid : Z) : E (option nat) :=
  g ← evt_grp_find tid;
  match g with
  | None =>
      g ← evt_grp_create spdid tid;
      match g with
      | None => mret None
      | Some g =>
          e ← evt_new g;
          match e with
          | None => evt_grp_free g;; mret None
          | Some e => evt_grp_add g;; mret (Some e)
          end
      end
  | Some g => evt_new g
  end.

Definition evt_create (thd spdid : Z) : E Z :=
  e ← create_event spdid (u16 thd);
  match e with
  | None => mret (- ENOMEM)
  | Some e =>
      id ← mapping_create (Z.of_nat e);
      upd_evt e (set_e_extern_id id);;
      if id <? 0 then evt_free_ e;; mret (- ENOMEM)
      else mret id
  end.

Definition evt_free (extern_evt : Z) : E unit :=
  e ← mapping_find extern_evt;
  match e with
  | None => mret tt
  | Some e => evt_free_ e;; mapping_free extern_evt
  end.

(** One round of the loop of [evt_grp_wait]: what the call returns, or [None]
    when the thread blocks. *)
Definition evt_grp_wait (thd : Z) : E (option Z) :=
  g ← evt_grp_find (u16 thd);
  match g with
  | None => mret (Some (-1))
  | Some g =>
      r ← evt_grp_read thd g;
      let '(ret, e) := (r : Z * option nat) in
      if negb (ret =? 0) then mret (Some (-1))
      else match e with
      | None => mret None
      | Some e => x ← get_evt e; mret (Some (e_extern_id x))
      end
  end.

(** The loop of [evt_grp_mult_wait] that fills the array [data]; it returns the
    error and the array. *)
Fixpoint gather (fuel : nat) (thd : Z) (g : nat) (data : list Z) (evt_max gathered : Z) : E (Z * list Z * Z) :=
  match fuel with
  | O => fail NoFuel
  | S fuel =>
      r ← evt_grp_read_noblock thd g;
      let '(ret, e) := (r : Z * option nat) in
      if negb (ret =? 0) then mret (-1, data, gathered)
      else match e with
      | None => mret (0, data, gathered)
      | Some e =>
          x ← get_evt e;
          _ ← bound (data.[gathered]);
          let data := data.[gathered := e_extern_id x] in
          if gathered + 1 <? evt_max then gather fuel thd g data evt_max (gathered + 1)
          else mret (0, data, gathered + 1)
      end
  end.

(** One round of [evt_grp_mult_wait]: the result and the array, or [None].
    [intern] says whether the array is in the argument region. *)
Definition evt_grp_mult_wait (thd : Z) (intern : bool) (data : list Z) : E (option (Z * list Z)) :=
  if negb intern then mret (Some (- EINVAL, data))
  else
  let evt_max := Z.of_nat (length data) in
  g ← evt_grp_find (u16 thd);
  match g with
  | None => mret (Some (-1, data))
  | Some g =>
      r ← gather (S (length data)) thd g data evt_max 0;
      let '(ret, data, gathered) := (r : Z * list Z * Z) in
      if negb (ret =? 0) then mret (Some (-1, data))
      else if 0 <? gathered then mret (Some (gathered, data))
      else
        r ← evt_grp_read thd g;
        let '(ret, e) := (r : Z * option nat) in
        if negb (ret =? 0) then mret (Some (-1, data))
        else assert (bool_decide (e = None));; mret None
  end.

(** One round of [evt_wait]. *)
Definition evt_wait (thd extern_evt : Z) : E (option Z) :=
  e ← mapping_find extern_evt;
  match e with
  | None => mret (Some (-1))
  | Some e =>
      ret ← evt_read thd e;
      if ret <? 0 then mret (Some (-1))
      else if ret =? 1 then
        x ← get_evt e;
        assert (extern_evt =? e_extern_id x);;
        mret (Some 0)
      else mret None
  end.

Definition evt_trigger (extern_evt : Z) : E Z :=
  e ← mapping_find extern_evt;
  match e with
  | None => mret (-1)
  | Some e =>
      ret ← evt_trigger_ e;
      when (negb (ret =? 0)) (modify (λ s, set_es_woken (ret :: es_woken s) s));;
      mret 0
  end.

Definition evt_set_prio (extern_evt prio : Z) : E Z :=
  if EVT_NUM_PRIOS <=? prio then mret (-1)
  else
    e ← mapping_find extern_evt;
    match e with
    | None => mret (-1)
    | Some e => upd_evt e (set_e_prio prio);; mret 0
    end.

Definition init_evts : E unit :=
  on_map (cos_map_init_static 0);;
  r ← mapping_create 0;
  assert (r =? 0);;
  INIT_LIST LGrps.
End Manager.
