(* ===== verification/EvtInv.v ===== *)
(** * Correctness of the event component

    The component refines queues of triggered events, one for each thread and
    priority: a trigger appends the event and wakes the thread if it waits, a
    wait takes the first event of the most urgent queue.  No wakeup is lost. *)

From stdpp Require Import base list numbers option gmap.
From S2P Require Import Prelude Ring CosList Vect VectInv Evt.
Local Open Scope Z_scope.

(** ** The specification *)

(** An event: the thread it is for, its priority, whether the thread waits for
    this event. *)
Record aevt : Type := MkAe {
  ae_tid : Z;
  ae_prio : Z;
  ae_blocked : bool;
}.

(** A thread: whether it waits for any event, and the queues of the triggered
    events by their priority. *)
Record agrp : Type := MkAg {
  ag_blocked : bool;
  ag_q : Z → list Z;
}.

Record ast : Type := MkA {
  a_evts : gmap Z aevt;
  a_grps : gmap Z agrp;
}.

Definition no_events : ast := MkA ∅ ∅.
Definition grp0 : agrp := MkAg false (λ _, []).

Definition rm (id : Z) (q : list Z) : list Z := filter (λ x, x ≠ id) q.
Definition triggered (ag : agrp) (id : Z) : Prop := id ∈ ag_q ag 0 ∨ id ∈ ag_q ag 1.
#[export] Instance triggered_dec ag id : Decision (triggered ag id).
Proof. apply _. Defined.

(** The first event of the most urgent queue, and the queues without it. *)
Definition first_event (ag : agrp) : option (Z * agrp) :=
  match ag_q ag 0, ag_q ag 1 with
  | id :: q, _ => Some (id, MkAg false (λ p, if decide (p = 0) then q else ag_q ag p))
  | [], id :: q => Some (id, MkAg false (λ p, if decide (p = 1) then q else ag_q ag p))
  | [], [] => None
  end.

Definition put_evt (id : Z) (e : aevt) (a : ast) : ast := MkA (<[id := e]> (a_evts a)) (a_grps a).
Definition put_grp (t : Z) (g : agrp) (a : ast) : ast := MkA (a_evts a) (<[t := g]> (a_grps a)).

Inductive eop : Set :=
| OCreate (thd spdid : Z)
| OFree (id : Z)
| OTrigger (id : Z)
| OWait (thd id : Z)
| OGrpWait (thd : Z)
| OSetPrio (id prio : Z).

(** What a caller has to see to: threads have ids of 16 bits, the identifiers
    can be doubled, priorities are not negative, and a thread that waits for
    one event is not marked as waiting, as it is after a wakeup by the
    component. *)
Definition eop_ok (a : ast) (o : eop) : Prop :=
  match o with
  | OCreate thd _ | OGrpWait thd => 0 < thd < 2 ^ 16
  | OFree id | OTrigger id => - 2 ^ 30 ≤ id < 2 ^ 30
  | OWait thd id => - 2 ^ 30 ≤ id < 2 ^ 30 ∧ ∀ ae, a_evts a !! id = Some ae → ae_blocked ae = false ∧
      ∀ ag, a_grps a !! ae_tid ae = Some ag → ag_blocked ag = false
  | OSetPrio id prio => - 2 ^ 30 ≤ id < 2 ^ 30 ∧ 0 ≤ prio
  end.

Section Spec.
Context (alloc_page : gmap Z (list Z) → option (Z * list Z)) (mem0 : list bool).

Definition eop_run (o : eop) : M estate (option Z) :=
  match o with
  | OCreate thd spdid => r ← evt_create alloc_page thd spdid; mret (Some r)
  | OFree id => evt_free id;; mret (Some 0)
  | OTrigger id => r ← evt_trigger id; mret (Some r)
  | OWait thd id => evt_wait thd id
  | OGrpWait thd => evt_grp_wait thd
  | OSetPrio id prio => r ← evt_set_prio id prio; mret (Some r)
  end.

(** The memory that may run out. *)
Definition no_room (a : ast) : Prop :=
  false ∈ mem0 ∨ out_of_pages alloc_page ∨ ∀ id, 0 < id < 2 ^ 19 → is_Some (a_evts a !! id).

(** [astep a o r w a'] : the operation returns [r], where [None] says that the
    thread is blocked, and wakes the threads [w]. *)
Inductive astep (a : ast) : eop → option Z → list Z → ast → Prop :=
| as_create thd spdid id : a_evts a !! id = None → 0 < id < 2 ^ 19 →
    astep a (OCreate thd spdid) (Some id) []
      (MkA (<[id := MkAe thd 0 false]> (a_evts a)) (<[thd := default grp0 (a_grps a !! thd)]> (a_grps a)))
| as_create_full thd spdid : no_room a → astep a (OCreate thd spdid) (Some (- ENOMEM)) [] a
| as_create_part thd spdid : no_room a → a_grps a !! thd = None →
    astep a (OCreate thd spdid) (Some (- ENOMEM)) [] (put_grp thd grp0 a)
| as_free id e g : a_evts a !! id = Some e → a_grps a !! ae_tid e = Some g →
    astep a (OFree id) (Some 0) []
      (MkA (delete id (a_evts a)) (<[ae_tid e := MkAg (ag_blocked g) (λ p, rm id (ag_q g p))]> (a_grps a)))
| as_free_none id : a_evts a !! id = None → astep a (OFree id) (Some 0) [] a
| as_trigger id e g : a_evts a !! id = Some e → a_grps a !! ae_tid e = Some g →
    astep a (OTrigger id) (Some 0) (if ae_blocked e || ag_blocked g then [ae_tid e] else [])
      (put_evt id (MkAe (ae_tid e) (ae_prio e) false)
        (put_grp (ae_tid e) (MkAg false (λ p, rm id (ag_q g p) ++ if decide (p = ae_prio e) then [id] else [])) a))
| as_trigger_none id : a_evts a !! id = None → astep a (OTrigger id) (Some (-1)) [] a
| as_wait id e g : a_evts a !! id = Some e → a_grps a !! ae_tid e = Some g → triggered g id →
    astep a (OWait (ae_tid e) id) (Some 0) []
      (put_grp (ae_tid e) (MkAg (ag_blocked g) (λ p, rm id (ag_q g p))) a)
| as_wait_block id e g : a_evts a !! id = Some e → a_grps a !! ae_tid e = Some g → ¬ triggered g id →
    astep a (OWait (ae_tid e) id) None [] (put_evt id (MkAe (ae_tid e) (ae_prio e) true) a)
| as_wait_none thd id : a_evts a !! id = None → astep a (OWait thd id) (Some (-1)) [] a
| as_wait_other thd id e : a_evts a !! id = Some e → ae_tid e ≠ thd → astep a (OWait thd id) (Some (-1)) [] a
| as_grp_wait thd g id g' : a_grps a !! thd = Some g → first_event g = Some (id, g') →
    astep a (OGrpWait thd) (Some id) [] (put_grp thd g' a)
| as_grp_wait_block thd g : a_grps a !! thd = Some g → first_event g = None →
    astep a (OGrpWait thd) None [] (put_grp thd (MkAg true (ag_q g)) a)
| as_grp_wait_none thd : a_grps a !! thd = None → astep a (OGrpWait thd) (Some (-1)) [] a
| as_prio id e prio : a_evts a !! id = Some e → prio < EVT_NUM_PRIOS →
    astep a (OSetPrio id prio) (Some 0) [] (put_evt id (MkAe (ae_tid e) prio (ae_blocked e)) a)
| as_prio_fail id prio : a_evts a !! id = None ∨ EVT_NUM_PRIOS ≤ prio →
    astep a (OSetPrio id prio) (Some (-1)) [] a.

(** ** The representation *)

Definition loc (X : gmap Z nat) (id : Z) : eloc := LEvt (default 0%nat (X !! id)).
Definition st (ag : agrp) (ae : aevt) (id : Z) : evt_status_t :=
  if decide (triggered ag id) then EVT_TRIGGERED else if ae_blocked ae then EVT_BLOCKED else EVT_INACTIVE.
Definition gst (ag : agrp) : evt_grp_status_t := if ag_blocked ag then EVTG_BLOCKED else EVTG_INACTIVE.

Definition lists (F : gmap eloc (list eloc)) (X : gmap Z nat) (g : nat) (idle : list Z) (ag : agrp) : Prop :=
  F !! LEvents g = Some (loc X <$> idle) ∧
  F !! LTrig g 0 = Some (loc X <$> ag_q ag 0) ∧ F !! LTrig g 1 = Some (loc X <$> ag_q ag 1).

(** [X] and [G] number the events and groups, [F] are the lists. *)
Record erel (X G : gmap Z nat) (F : gmap eloc (list eloc)) (a : ast) (s : estate) : Prop := {
  r_map : mrep 0 (es_map s) (<[0 := 0]> (Z.of_nat <$> X));
  r_X0 : X !! 0 = None;
  r_Xpos : ∀ id e, X !! id = Some e → e ≠ 0%nat;
  r_Xinj : ∀ i j e, X !! i = Some e → X !! j = Some e → i = j;
  r_Xdom : ∀ id, is_Some (X !! id) ↔ is_Some (a_evts a !! id);
  r_Ginj : ∀ t u g, G !! t = Some g → G !! u = Some g → t = u;
  r_Gdom : ∀ t, is_Some (G !! t) ↔ is_Some (a_grps a !! t);
  r_Gtid : ∀ t g, G !! t = Some g → 0 < t < 2 ^ 16;
  r_fam : fam (es_links s) F;
  r_all : ∃ gl, F !! LGrps = Some (LGrp <$> gl) ∧ ∀ g, g ∈ gl ↔ ∃ t, G !! t = Some g;
  r_heads : ∀ h l, F !! h = Some l → h = LGrps ∨ ∃ t g, G !! t = Some g ∧
    (h = LEvents g ∨ h = LTrig g 0 ∨ h = LTrig g 1);
  r_grp : ∀ t g ag, G !! t = Some g → a_grps a !! t = Some ag → ∃ sp idle,
    es_grps s !! g = Some (MkGrp sp t (gst ag)) ∧ lists F X g idle ag ∧
    ∀ id, id ∈ idle ∨ triggered ag id ↔ ∃ ae, a_evts a !! id = Some ae ∧ ae_tid ae = t;
  r_ev : ∀ id ae e, a_evts a !! id = Some ae → X !! id = Some e → ∃ g ag,
    G !! ae_tid ae = Some g ∧ a_grps a !! ae_tid ae = Some ag ∧
    es_evts s !! e = Some (MkEvt (st ag ae id) (ae_prio ae) id (Some g)) ∧ 0 ≤ ae_prio ae < EVT_NUM_PRIOS;
  r_mem : ∀ b, b ∈ es_mem s → b ∈ mem0
}.

(** ** Running the parts *)

Implicit Types (s : estate) (a : ast) (X G : gmap Z nat) (F : gmap eloc (list eloc)).

Lemma read_evt_run s e x : es_evts s !! e = Some x → get_evt e s = Done x s.
Proof. intros Hx. unfold get_evt. mrun. by rewrite Hx. Qed.

Lemma upd_evt_run s e f x : es_evts s !! e = Some x →
  upd_evt e f s = Done tt (set_es_evts (<[e := f x]> (es_evts s)) s).
Proof. intros Hx. unfold upd_evt. by rewrite (bind_run _ _ _ _ _ (read_evt_run _ _ _ Hx)). Qed.

Lemma get_grp_run s g y : es_grps s !! g = Some y → get_grp g s = Done y s.
Proof. intros Hy. unfold get_grp. mrun. by rewrite Hy. Qed.

Lemma upd_grp_run s g f y : es_grps s !! g = Some y →
  upd_grp g f s = Done tt (set_es_grps (<[g := f y]> (es_grps s)) s).
Proof. intros Hy. unfold upd_grp. by rewrite (bind_run _ _ _ _ _ (get_grp_run _ _ _ Hy)). Qed.

Lemma on_map_run {A} (o : M mstate A) s r m : o (es_map s) = Done r m → on_map o s = Done r (set_es_map m s).
Proof. intros Ho. unfold on_map. by rewrite Ho. Qed.

Lemma trig_run g p s : 0 ≤ p < EVT_NUM_PRIOS → trig g p s = Done (LTrig g p) s.
Proof.
  unfold trig, EVT_NUM_PRIOS. intros Hp. by rewrite (proj2 (Z.leb_le 0 p)), (proj2 (Z.ltb_lt p 2)) by lia.
Qed.

(** The structures of an event. *)
Lemma evt_at X G F a s id ae : erel X G F a s → a_evts a !! id = Some ae →
  ∃ e g ag sp idle, X !! id = Some e ∧ G !! ae_tid ae = Some g ∧ a_grps a !! ae_tid ae = Some ag ∧
    es_evts s !! e = Some (MkEvt (st ag ae id) (ae_prio ae) id (Some g)) ∧ 0 ≤ ae_prio ae < EVT_NUM_PRIOS ∧
    es_grps s !! g = Some (MkGrp sp (ae_tid ae) (gst ag)) ∧ lists F X g idle ag ∧
    ∀ i, i ∈ idle ∨ triggered ag i ↔ ∃ ae0, a_evts a !! i = Some ae0 ∧ ae_tid ae0 = ae_tid ae.
Proof.
  intros Hr Ha. destruct (proj2 (r_Xdom _ _ _ _ _ Hr id)) as [e He]; [by eexists|].
  destruct (r_ev _ _ _ _ _ Hr _ _ _ Ha He) as (g & ag & Hg & Hag & Hev & Hp).
  destruct (r_grp _ _ _ _ _ Hr _ _ _ Hg Hag) as (sp & idle & Hgs & Hl & Hall).
  exists e, g, ag, sp, idle. do 7 (split; [done|]). done.
Qed.

Lemma find_run X G F a s id : erel X G F a s → - 2 ^ 30 ≤ id < 2 ^ 30 →
  mapping_find id s = Done (X !! id) s.
Proof.
  intros Hr Hid. unfold mapping_find.
  destruct (map_lookup_step 0 alloc_page _ _ id (r_map _ _ _ _ _ Hr) Hid) as (r & Hrun & Hst).
  rewrite (bind_run _ _ _ _ _ (on_map_run _ _ _ _ Hrun)).
  replace (set_es_map (es_map s) s) with s by (by destruct s).
  inversion Hst as [| | |? v Hu|? v Hu Hv]; subst.
  - rewrite lookup_insert in Hu. case_decide as E; [subst; injection Hu as <-; by rewrite (r_X0 _ _ _ _ _ Hr)|].
    rewrite lookup_fmap in Hu. destruct (X !! id) as [e|] eqn:He; [|done]. cbn in Hu. injection Hu as <-.
    pose proof (r_Xpos _ _ _ _ _ Hr _ _ He) as Hpos.
    destruct (Z.eqb_spec (Z.of_nat e) 0) as [|_]; [lia|]. rewrite Nat2Z.id.
    destruct (proj1 (r_Xdom _ _ _ _ _ Hr id)) as [ae Hae]; [by eexists|].
    destruct (r_ev _ _ _ _ _ Hr _ _ _ Hae He) as (g & ag & _ & _ & Hev & _).
    rewrite (bind_run _ _ _ _ _ (read_evt_run _ _ _ Hev)). cbn [e_extern_id]. by rewrite Z.eqb_refl.
  - assert (r = 0) as -> by (by destruct Hv). cbn [Z.eqb]. rewrite lookup_insert in Hu. case_decide; [done|].
    rewrite lookup_fmap in Hu. by destruct (X !! id).
Qed.

(** ** The lists of this state *)

Lemma es_INIT s F x : fam (es_links s) F → outside F x → is_Some (es_links s !! x) →
  ∃ m', INIT_LIST x s = Done tt (set_es_links m' s) ∧ fam m' (<[x := []]> F) ∧ dom m' = dom (es_links s).
Proof. exact (fam_INIT s F x). Qed.
Lemma es_ADD s F h l x : fam (es_links s) F → F !! h = Some l → outside F x → is_Some (es_links s !! x) →
  ∃ m', ADD_LIST (mret h) x s = Done tt (set_es_links m' s) ∧ fam m' (<[h := x :: l]> F) ∧ dom m' = dom (es_links s).
Proof. exact (fam_ADD s F h l x). Qed.
Lemma es_ADD_END s F h l x : fam (es_links s) F → F !! h = Some l → outside F x → is_Some (es_links s !! x) →
  ∃ m', ADD_END_LIST h x s = Done tt (set_es_links m' s) ∧ fam m' (<[h := l ++ [x]]> F) ∧ dom m' = dom (es_links s).
Proof. exact (fam_ADD_END s F h l x). Qed.
Lemma es_REM s F h l1 x l2 : fam (es_links s) F → F !! h = Some (l1 ++ x :: l2) →
  ∃ m', REM_LIST x s = Done tt (set_es_links m' s) ∧ fam m' (<[h := l1 ++ l2]> F) ∧ dom m' = dom (es_links s) ∧
    outside (<[h := l1 ++ l2]> F) x.
Proof. exact (fam_REM s F h l1 x l2). Qed.
Lemma es_FIRST s F h l : fam (es_links s) F → F !! h = Some l → FIRST_LIST h s = Done (default h (head l)) s.
Proof. exact (fam_FIRST s F h l). Qed.
Lemma es_EMPTY s F h l : fam (es_links s) F → F !! h = Some l → EMPTY_LIST h s = Done (bool_decide (l = [])) s.
Proof. exact (fam_EMPTY s F h l). Qed.
Lemma es_next s F h l1 x l2 : fam (es_links s) F → F !! h = Some (l1 ++ x :: l2) →
  FIRST_LIST x s = Done (default h (head l2)) s.
Proof. exact (fam_next s F h l1 x l2). Qed.

(** ** Taking an event off its list *)

Lemma rm_absent id (l : list Z) : id ∉ l → rm id l = l.
Proof.
  unfold rm. induction l as [|x l IH]; intros Hn; [done|]. apply not_elem_of_cons in Hn as [Hx Hn].
  rewrite filter_cons_True by done. by rewrite IH.
Qed.

Lemma rm_split id (l1 l2 : list Z) : NoDup (l1 ++ id :: l2) → rm id (l1 ++ id :: l2) = l1 ++ l2.
Proof.
  intros Hnd. apply NoDup_app in Hnd as (_ & Hd & [Hn _]%NoDup_cons). unfold rm.
  rewrite filter_app, filter_cons_False by (intros H; by apply H). fold (rm id l1) (rm id l2).
  rewrite !rm_absent; [done|done|]. intros H. by apply (Hd id H); left.
Qed.

Lemma elem_of_rm id x (l : list Z) : x ∈ rm id l ↔ x ∈ l ∧ x ≠ id.
Proof. unfold rm. rewrite list_elem_of_filter. naive_solver. Qed.

Lemma loc_at X id e : X !! id = Some e → loc X id = LEvt e.
Proof. intros H. unfold loc. by rewrite H. Qed.

Definition unq (id : Z) (ag : agrp) : agrp := MkAg (ag_blocked ag) (λ p, rm id (ag_q ag p)).

Lemma evt_unlink X F s id e g idle ag :
  fam (es_links s) F → X !! id = Some e → lists F X g idle ag → id ∈ idle ∨ triggered ag id →
  ∃ m' F1, REM_LIST (LEvt e) s = Done tt (set_es_links m' s) ∧ fam m' F1 ∧ outside F1 (LEvt e) ∧
    is_Some (m' !! LEvt e) ∧ lists F1 X g (rm id idle) (unq id ag) ∧
    ∀ h, h ≠ LEvents g → h ≠ LTrig g 0 → h ≠ LTrig g 1 → F1 !! h = F !! h.
Proof.
  intros Hf He (Hi & H0 & H1) Hin.
  assert (Hgo : ∃ h q, F !! h = Some (loc X <$> q) ∧ id ∈ q ∧ (h = LEvents g ∧ q = idle ∨
    h = LTrig g 0 ∧ q = ag_q ag 0 ∨ h = LTrig g 1 ∧ q = ag_q ag 1)) by (destruct Hin as [?|[?|?]]; eauto 10).
  destruct Hgo as (h & q & Hh & Hq & Hwhich).
  assert (Hndq : NoDup q).
  { apply (fam_nodup _ _ _ _ Hf), NoDup_cons in Hh as [_ Hnd]. by apply NoDup_fmap_1 in Hnd. }
  assert (Hother : ∀ h' q', F !! h' = Some (loc X <$> q') → h' ≠ h → rm id q' = q').
  { intros h' q' Hh' Hne. apply rm_absent. intros Hin'. apply Hne.
    eapply (fam_disjoint _ _ _ _ _ _ (loc X id) Hf Hh' Hh); right; by apply list_elem_of_fmap_2. }
  apply list_elem_of_split in Hq as (l1 & l2 & ->). rewrite fmap_app in Hh. cbn in Hh. rewrite (loc_at _ _ _ He) in Hh.
  destruct (es_REM s F h _ _ _ Hf Hh) as (m' & Hrun & Hf' & Hd & Ho). rewrite <- fmap_app in Hf', Ho.
  eexists m', _. split; [exact Hrun|]. split; [exact Hf'|]. split; [exact Ho|]. split.
  { apply elem_of_dom. rewrite Hd. apply elem_of_dom. eapply fam_node; [exact Hf|exact Hh|].
    apply elem_of_cons. right. apply elem_of_app. right. left. }
  rewrite <- (rm_split _ _ _ Hndq). split.
  - destruct Hwhich as [[-> Eq]|[[-> Eq]|[-> Eq]]]; rewrite Eq; unfold lists, unq; cbn [ag_q];
      split_and!; rewrite ?lookup_insert_eq, ?lookup_insert_ne by done; try done;
      first [by rewrite (Hother _ _ Hi)|by rewrite (Hother _ _ H0)|by rewrite (Hother _ _ H1)].
  - intros h' Ha Hb Hc. rewrite lookup_insert_ne; [done|]. naive_solver.
Qed.

(** ** One event and its group change *)

Lemma erel_upd X G F F' a s s' id e g ae ae' ag ag' sp idle' :
  erel X G F a s → a_evts a !! id = Some ae → X !! id = Some e → G !! ae_tid ae = Some g →
  a_grps a !! ae_tid ae = Some ag → ae_tid ae' = ae_tid ae → 0 ≤ ae_prio ae' < EVT_NUM_PRIOS →
  es_evts s' = <[e := MkEvt (st ag' ae' id) (ae_prio ae') id (Some g)]> (es_evts s) →
  es_grps s' = <[g := MkGrp sp (ae_tid ae) (gst ag')]> (es_grps s) →
  es_map s' = es_map s → es_mem s' = es_mem s → fam (es_links s') F' → lists F' X g idle' ag' →
  (∀ h, h ≠ LEvents g → h ≠ LTrig g 0 → h ≠ LTrig g 1 → F' !! h = F !! h) →
  (∀ i, i ∈ idle' ∨ triggered ag' i ↔ ∃ ae0, a_evts a !! i = Some ae0 ∧ ae_tid ae0 = ae_tid ae) →
  (∀ i, i ≠ id → triggered ag' i ↔ triggered ag i) →
  erel X G F' (put_evt id ae' (put_grp (ae_tid ae) ag' a)) s'.
Proof.
  intros Hr Ha He Hg Hag Htid Hp Hev Hgr Hmap Hmem Hf Hl Hfr Hall Hoth.
  assert (Hev' : ∀ t i, (∃ ae0, <[id := ae']> (a_evts a) !! i = Some ae0 ∧ ae_tid ae0 = t) ↔
    ∃ ae0, a_evts a !! i = Some ae0 ∧ ae_tid ae0 = t).
  { intros t i. rewrite lookup_insert. case_decide as Ei; [subst i|done]. rewrite Ha. naive_solver congruence. }
  split; cbn; try apply Hr.
  - rewrite Hmap. apply Hr.
  - intros i. rewrite (r_Xdom _ _ _ _ _ Hr). rewrite lookup_insert. case_decide as Ei; [|done]. subst. rewrite Ha. split; by eexists.
  - intros t. rewrite (r_Gdom _ _ _ _ _ Hr). rewrite lookup_insert. case_decide as Ei; [|done]. subst. rewrite Hag. split; by eexists.
  - done.
  - destruct (r_all _ _ _ _ _ Hr) as (gl & Hgl & Hin). exists gl. by rewrite Hfr.
  - intros h l Hh. destruct (decide (h = LEvents g ∨ h = LTrig g 0 ∨ h = LTrig g 1)) as [Hd|Hd]; [right; eauto|].
    rewrite Hfr in Hh by naive_solver. by eapply (r_heads _ _ _ _ _ Hr).
  - intros t g1 ag1 Hg1 Hag1. rewrite lookup_insert in Hag1. case_decide as Et.
    + subst t. injection Hag1 as <-. assert (g1 = g) as -> by congruence. exists sp, idle'. rewrite Hgr.
      split; [by apply lookup_insert_eq|]. split; [done|]. intros i. rewrite Hall. by rewrite Hev'.
    + destruct (r_grp _ _ _ _ _ Hr _ _ _ Hg1 Hag1) as (sp1 & idle1 & Hs1 & (L0 & L1 & L2) & Hall1).
      assert (g1 ≠ g). { intros ->. apply Et. by eapply (r_Ginj _ _ _ _ _ Hr). }
      exists sp1, idle1. rewrite Hgr, lookup_insert_ne by done. split; [done|].
      split; [unfold lists; rewrite !Hfr by congruence; done|]. intros i. rewrite Hall1. by rewrite Hev'.
  - intros i ae1 e1 Hi He1. rewrite lookup_insert in Hi. case_decide as Ei.
    + subst i. injection Hi as <-. assert (e1 = e) as -> by congruence. exists g, ag'. rewrite Htid, Hev.
      rewrite !lookup_insert_eq. done.
    + destruct (r_ev _ _ _ _ _ Hr _ _ _ Hi He1) as (g1 & ag1 & Hg1 & Hag1 & Hx1 & Hp1).
      assert (e1 ≠ e). { intros ->. apply Ei. by eapply (r_Xinj _ _ _ _ _ Hr). }
      rewrite Hev, (lookup_insert_ne (es_evts s)) by congruence. exists g1. rewrite lookup_insert. case_decide as Et; [|by exists ag1].
      exists ag'. split; [done|]. split; [done|]. split; [|done]. rewrite Hx1. do 2 f_equal.
      assert (ag1 = ag) as -> by congruence. unfold st. by rewrite (decide_ext _ _ _ _ (Hoth i (not_eq_sym Ei))).
  - rewrite Hmem. apply Hr.
Qed.

(** ** Triggering *)

Lemma gst_blocked ag : bool_decide (gst ag = EVTG_BLOCKED) = ag_blocked ag.
Proof. unfold gst. by destruct (ag_blocked ag). Qed.

(** A waiting event is not triggered. *)
Definition calm (a : ast) : Prop :=
  (∀ id ae ag, a_evts a !! id = Some ae → a_grps a !! ae_tid ae = Some ag → ae_blocked ae = true → ¬ triggered ag id) ∧
  (∀ t ag, a_grps a !! t = Some ag → ag_blocked ag = true → ag_q ag 0 = [] ∧ ag_q ag 1 = []).

Lemma st_blocked ag ae id : (ae_blocked ae = true → ¬ triggered ag id) →
  bool_decide (st ag ae id = EVT_BLOCKED) = ae_blocked ae.
Proof. intros H. unfold st. case_decide; destruct (ae_blocked ae); try done. by destruct H. Qed.

(** The lists after an event went to the end of a queue or to the idle ones. *)
Lemma lists_queue F X g idle ag id e p b : lists F X g idle (unq id ag) → X !! id = Some e → 0 ≤ p < EVT_NUM_PRIOS →
  ∃ q, F !! LTrig g p = Some q ∧
    lists (<[LTrig g p := q ++ [LEvt e]]> F) X g idle
      (MkAg b (λ p', rm id (ag_q ag p') ++ if decide (p' = p) then [id] else [])).
Proof.
  intros (Hi & H0 & H1) He Hp. unfold EVT_NUM_PRIOS in Hp.
  assert (Happ : ∀ l, loc X <$> (l ++ [id]) = (loc X <$> l) ++ [LEvt e]) by (intros l; by rewrite fmap_app; cbn; rewrite (loc_at _ _ _ He)).
  assert (p = 0 ∨ p = 1) as [-> | ->] by lia; eexists; (split; [eassumption|]); unfold lists; cbn [ag_q unq] in *;
    split_and!; rewrite ?lookup_insert_eq, ?lookup_insert_ne by done; try done; repeat case_decide; try done;
    by rewrite ?Happ, ?app_nil_r.
Qed.

Lemma lists_idle F X g idle ag id e : lists F X g idle ag → X !! id = Some e →
  lists (<[LEvents g := LEvt e :: (loc X <$> idle)]> F) X g (id :: idle) ag.
Proof.
  intros (Hi & H0 & H1) He. unfold lists. rewrite lookup_insert_eq, !lookup_insert_ne by done. cbn.
  by rewrite (loc_at _ _ _ He).
Qed.

Lemma trigger_run X G F a s id ae :
  erel X G F a s → calm a → - 2 ^ 30 ≤ id < 2 ^ 30 → a_evts a !! id = Some ae →
  ∃ ag s' F', a_grps a !! ae_tid ae = Some ag ∧ evt_trigger id s = Done 0 s' ∧
    es_woken s' = (if ae_blocked ae || ag_blocked ag then [ae_tid ae] else []) ++ es_woken s ∧
    erel X G F' (put_evt id (MkAe (ae_tid ae) (ae_prio ae) false) (put_grp (ae_tid ae)
      (MkAg false (λ p, rm id (ag_q ag p) ++ if decide (p = ae_prio ae) then [id] else [])) a)) s'.
Proof.
  intros Hr [Hcalm _] Hid Ha.
  destruct (evt_at _ _ _ _ _ _ _ Hr Ha) as (e & g & ag & sp & idle & He & Hg & Hag & Hev & Hp & Hgs & Hl & Hall).
  exists ag. destruct (evt_unlink _ _ _ _ _ _ _ _ (r_fam _ _ _ _ _ Hr) He Hl) as (m1 & F1 & Hrem & Hf1 & Ho1 & Hm1 & Hl1 & Hfr1).
  { apply Hall. by exists ae. }
  destruct (lists_queue _ _ _ _ _ _ _ _ false Hl1 He Hp) as (q & Hq & Hl2).
  destruct (es_ADD_END (set_es_links m1 s) F1 _ _ _ Hf1 Hq Ho1 Hm1) as (m2 & Hadd & Hf2 & _).
  set (ag' := MkAg false (λ p, rm id (ag_q ag p) ++ if decide (p = ae_prio ae) then [id] else [])) in *.
  assert (Htr : triggered ag' id).
  { assert (ae_prio ae = 0 ∨ ae_prio ae = 1) as [E|E] by (unfold EVT_NUM_PRIOS in Hp; lia); [left|right];
      unfold ag'; cbn [ag_q]; rewrite decide_True, elem_of_app by done; right; left. }
  assert (Hoth : ∀ i, i ≠ id → triggered ag' i ↔ triggered ag i).
  { intros i Hne. unfold triggered, ag'. cbn [ag_q]. rewrite !elem_of_app, !elem_of_rm. repeat case_decide; set_solver. }
  pose proof (Hcalm _ _ _ Ha Hag) as Hcb.
  set (w := if ae_blocked ae || ag_blocked ag then [ae_tid ae] else []).
  pose proof (r_Gtid _ _ _ _ _ Hr _ _ Hg) as Htid.
  set (s2 := set_es_grps (<[g := MkGrp sp (ae_tid ae) EVTG_INACTIVE]> (es_grps s))
    (set_es_evts (<[e := MkEvt EVT_TRIGGERED (ae_prio ae) id (Some g)]> (es_evts s)) (set_es_links m2 s))).
  assert (Ht : evt_trigger_ e s = Done (if ae_blocked ae || ag_blocked ag then ae_tid ae else 0) s2).
  { unfold evt_trigger_. rewrite (bind_run _ _ _ _ _ (read_evt_run _ _ _ Hev)). cbn [e_grp e_prio e_status]. mrun.
    rewrite (bind_run _ _ _ _ _ (get_grp_run _ _ _ Hgs)), (bind_run _ _ _ _ _ Hrem).
    rewrite (bind_run _ _ _ _ _ (trig_run _ _ _ Hp)), (bind_run _ _ _ _ _ Hadd).
    erewrite bind_run; [|eapply upd_evt_run; exact Hev]. erewrite bind_run; [|eapply upd_grp_run; exact Hgs].
    cbn [g_status g_tid g_spdid]. by rewrite gst_blocked, st_blocked. }
  exists (set_es_woken (w ++ es_woken s) s2), (<[LTrig g (ae_prio ae) := q ++ [LEvt e]]> F1).
  split; [done|]. split; [|split; [done|]].
  - unfold evt_trigger. rewrite (bind_run _ _ _ _ _ (find_run _ _ _ _ _ _ Hr Hid)), He, (bind_run _ _ _ _ _ Ht).
    unfold w. destruct (ae_blocked ae || ag_blocked ag); cbn.
    + by destruct (Z.eqb_spec (ae_tid ae) 0); [lia|].
    + unfold s2. by destruct s.
  - eapply (erel_upd X G F _ a s _ id e g ae _ ag ag' sp (rm id idle)); try done.
    + cbn. unfold st. by rewrite decide_True.
    + intros h H1 H2 H3. rewrite lookup_insert_ne by (assert (ae_prio ae = 0 ∨ ae_prio ae = 1) as [E|E]
        by (unfold EVT_NUM_PRIOS in Hp; lia); rewrite E; congruence). by apply Hfr1.
    + intros i. rewrite <- Hall, elem_of_rm. destruct (decide (i = id)) as [->|Hne].
      * split; [intros _; apply Hall; by exists ae|by right].
      * rewrite (Hoth i Hne). naive_solver.
Qed.

(** ** Waiting for one event *)

Lemma put_evt_id id ae a : a_evts a !! id = Some ae → put_evt id ae a = a.
Proof. intros H. unfold put_evt. rewrite insert_id by done. by destruct a. Qed.

Lemma put_grp_id t ag a : a_grps a !! t = Some ag → put_grp t ag a = a.
Proof. intros H. unfold put_grp. rewrite insert_id by done. by destruct a. Qed.

Lemma triggered_unq id ag i : triggered (unq id ag) i ↔ triggered ag i ∧ i ≠ id.
Proof. unfold triggered, unq. cbn. rewrite !elem_of_rm. tauto. Qed.

(** An event goes back to the idle ones. *)
Lemma evt_idle X G F a s id e g idle ag :
  erel X G F a s → X !! id = Some e → lists F X g idle ag → id ∈ idle ∨ triggered ag id →
  ∃ m1 m2 F2, REM_LIST (LEvt e) s = Done tt (set_es_links m1 s) ∧
    ADD_LIST (mret (LEvents g)) (LEvt e) (set_es_links m1 s) = Done tt (set_es_links m2 s) ∧ fam m2 F2 ∧
    lists F2 X g (id :: rm id idle) (unq id ag) ∧
    ∀ h, h ≠ LEvents g → h ≠ LTrig g 0 → h ≠ LTrig g 1 → F2 !! h = F !! h.
Proof.
  intros Hr He Hl Hin. destruct (evt_unlink _ _ _ _ _ _ _ _ (r_fam _ _ _ _ _ Hr) He Hl Hin) as (m1 & F1 & Hrem & Hf1 & Ho1 & Hm1 & Hl1 & Hfr1).
  destruct (es_ADD (set_es_links m1 s) F1 _ _ _ Hf1 (proj1 Hl1) Ho1 Hm1) as (m2 & Hadd & Hf2 & _).
  eexists m1, m2, _. split; [done|]. split; [exact Hadd|]. split; [exact Hf2|]. split; [by apply lists_idle|].
  intros h H1 H2 H3. rewrite lookup_insert_ne by done. by apply Hfr1.
Qed.

Lemma idle_all a id t idle ag : (∀ i, i ∈ idle ∨ triggered ag i ↔ ∃ ae0, a_evts a !! i = Some ae0 ∧ ae_tid ae0 = t) →
  id ∈ idle ∨ triggered ag id →
  ∀ i, i ∈ id :: rm id idle ∨ triggered (unq id ag) i ↔ ∃ ae0, a_evts a !! i = Some ae0 ∧ ae_tid ae0 = t.
Proof.
  intros Hall Hin i. rewrite <- Hall, elem_of_cons, elem_of_rm, triggered_unq.
  destruct (decide (i = id)) as [->|Hne]; naive_solver.
Qed.

(** [evt_read] up to its decision. *)
Lemma evt_read_run s e x g y thd : es_evts s !! e = Some x → e_grp x = Some g → es_grps s !! g = Some y →
  e_status x ≠ EVT_BLOCKED → g_status y = EVTG_INACTIVE →
  evt_read thd e s = (if negb (thd =? g_tid y) then mret (-1)
    else if bool_decide (e_status x = EVT_TRIGGERED) then
      REM_LIST (LEvt e);; ADD_LIST (mret (LEvents g)) (LEvt e);; upd_evt e (set_e_status EVT_INACTIVE);; mret 1
    else upd_evt e (set_e_status EVT_BLOCKED);; mret 0) s.
Proof.
  intros Hx Hg Hy Hst Hgst. unfold evt_read. rewrite (bind_run _ _ _ _ _ (read_evt_run _ _ _ Hx)), Hg.
  rewrite (bool_decide_eq_false_2 (e_status x = EVT_BLOCKED)) by done. mrun. rewrite (bind_run _ _ _ _ _ (get_grp_run _ _ _ Hy)), Hgst. by mrun.
Qed.

Lemma st_idle ag ae id : ae_blocked ae = false →
  st ag ae id = if decide (triggered ag id) then EVT_TRIGGERED else EVT_INACTIVE.
Proof. intros H. unfold st. by rewrite H. Qed.

Lemma wait_run X G F a s id ae ag :
  erel X G F a s → - 2 ^ 30 ≤ id < 2 ^ 30 → a_evts a !! id = Some ae → a_grps a !! ae_tid ae = Some ag →
  ae_blocked ae = false → ag_blocked ag = false →
  ∃ s' F', es_woken s' = es_woken s ∧
    if decide (triggered ag id)
    then evt_wait (ae_tid ae) id s = Done (Some 0) s' ∧ erel X G F' (put_grp (ae_tid ae) (unq id ag) a) s'
    else evt_wait (ae_tid ae) id s = Done None s' ∧ erel X G F' (put_evt id (MkAe (ae_tid ae) (ae_prio ae) true) a) s'.
Proof.
  intros Hr Hid Ha Hag0 Hb Hgb.
  destruct (evt_at _ _ _ _ _ _ _ Hr Ha) as (e & g & ag1 & sp & idle & He & Hg & Hag & Hev & Hp & Hgs & Hl & Hall).
  assert (ag1 = ag) as -> by congruence. clear Hag0.
  assert (Hin : id ∈ idle ∨ triggered ag id) by (apply Hall; by exists ae).
  pose proof (st_idle ag ae id Hb) as Hst.
  assert (Hrd := evt_read_run _ _ _ _ _ (ae_tid ae) Hev eq_refl Hgs).
  cbn [e_status g_status g_tid] in Hrd. rewrite Z.eqb_refl in Hrd. cbn [negb] in Hrd.
  unfold evt_wait. rewrite (bind_run _ _ _ _ _ (find_run _ _ _ _ _ _ Hr Hid)), He.
  case_decide as Ht; rewrite Hst in Hrd, Hev.
  - destruct (evt_idle _ _ _ _ _ _ _ _ _ _ Hr He Hl Hin) as (m1 & m2 & F2 & Hrem & Hadd & Hf2 & Hl2 & Hfr2).
    exists (set_es_evts (<[e := MkEvt EVT_INACTIVE (ae_prio ae) id (Some g)]> (es_evts s)) (set_es_links m2 s)), F2.
    split; [done|]. split.
    + erewrite bind_run; [|rewrite Hrd, bool_decide_true by (done || (unfold gst; by rewrite Hgb));
        rewrite (bind_run _ _ _ _ _ Hrem), (bind_run _ _ _ _ _ Hadd);
        erewrite bind_run; [reflexivity|eapply upd_evt_run; exact Hev]].
      cbn. erewrite bind_run; [|apply read_evt_run, lookup_insert_eq]. cbn. by rewrite Z.eqb_refl.
    + rewrite <- (put_evt_id id ae (put_grp _ _ a)) by done.
      eapply (erel_upd X G F _ a s _ id e g ae ae ag (unq id ag) sp); try done.
      * cbn. rewrite st_idle, decide_False by (done || (rewrite triggered_unq; naive_solver)). done.
      * cbn. by rewrite insert_id.
      * by apply idle_all.
      * intros i Hne. rewrite triggered_unq. naive_solver.
  - exists (set_es_evts (<[e := MkEvt EVT_BLOCKED (ae_prio ae) id (Some g)]> (es_evts s)) s), F. split; [done|]. split.
    + erewrite bind_run; [|rewrite Hrd, bool_decide_false by (done || (unfold gst; by rewrite Hgb));
        erewrite bind_run; [reflexivity|eapply upd_evt_run; exact Hev]].
      done.
    + rewrite <- (put_grp_id (ae_tid ae) ag a) by done.
      eapply (erel_upd X G F _ a s _ id e g ae _ ag ag sp idle); try done.
      * cbn. unfold st. by rewrite decide_False.
      * cbn. by rewrite insert_id.
      * apply Hr.
Qed.

(** ** Waiting for any event *)

Lemma lists_ext F X g idle ag ag' : (∀ p, p = 0 ∨ p = 1 → ag_q ag' p = ag_q ag p) →
  lists F X g idle ag → lists F X g idle ag'.
Proof. intros H. unfold lists. by rewrite !H by auto. Qed.

Lemma queue_at F X g idle ag p : lists F X g idle ag → p = 0 ∨ p = 1 → F !! LTrig g p = Some (loc X <$> ag_q ag p).
Proof. intros (_ & H0 & H1) [-> | ->]; done. Qed.

Lemma trig_nodup m F X g idle ag p : fam m F → lists F X g idle ag → p = 0 ∨ p = 1 → NoDup (ag_q ag p).
Proof.
  intros Hf Hl Hp. pose proof (queue_at _ _ _ _ _ _ Hl Hp) as Hq.
  apply (fam_nodup _ _ _ _ Hf), NoDup_cons in Hq as [_ Hnd]. by apply NoDup_fmap_1 in Hnd.
Qed.

Lemma queue_other m F X g idle ag p p' id : fam m F → lists F X g idle ag → p = 0 ∨ p = 1 → p' = 0 ∨ p' = 1 →
  id ∈ ag_q ag p → id ∈ ag_q ag p' → p = p'.
Proof.
  intros Hf Hl Hp Hp' H1 H2. enough (LTrig g p = LTrig g p') by congruence.
  eapply (fam_disjoint _ _ _ _ _ _ (loc X id) Hf); [by eapply queue_at|by eapply queue_at|right; by apply list_elem_of_fmap_2..].
Qed.

(** The queues without the first event of one. *)
Lemma pop_unq m F X g idle ag p id q b : fam m F → lists F X g idle ag → p = 0 ∨ p = 1 → ag_q ag p = id :: q →
  ∀ p', p' = 0 ∨ p' = 1 → ag_q (MkAg b (λ p', if decide (p' = p) then q else ag_q ag p')) p' = ag_q (unq id ag) p'.
Proof.
  intros Hf Hl Hp Hq p' Hp'. cbn. assert (Hin : id ∈ ag_q ag p) by (rewrite Hq; left). case_decide as E.
  - subst. pose proof (trig_nodup _ _ _ _ _ _ _ Hf Hl Hp) as Hnd. rewrite Hq in Hnd |- *. symmetry. exact (rm_split id [] q Hnd).
  - rewrite rm_absent; [done|]. intros Hin'. apply E. by eapply queue_other.
Qed.

(** The loop finds the first event of a queue. *)
Lemma read_at X G F a s t g ag sp idle p id q n :
  erel X G F a s → G !! t = Some g → a_grps a !! t = Some ag → es_grps s !! g = Some (MkGrp sp t (gst ag)) →
  lists F X g idle ag → (∀ i, i ∈ idle ∨ triggered ag i ↔ ∃ ae, a_evts a !! i = Some ae ∧ ae_tid ae = t) →
  p = 0 ∨ p = 1 → ag_q ag p = id :: q → calm a →
  ∃ e x s' F', read_loop (S n) g p s = Done (Some e) s' ∧ es_woken s' = es_woken s ∧
    es_evts s' !! e = Some x ∧ e_extern_id x = id ∧
    erel X G F' (put_grp t (MkAg false (λ p', if decide (p' = p) then q else ag_q ag p')) a) s'.
Proof.
  intros Hr Hg Hag Hgs Hl Hall Hp Hq Hcalm. set (ag' := MkAg false _).
  assert (Ht : triggered ag id) by (destruct Hp as [-> | ->]; [left|right]; rewrite Hq; left).
  destruct (proj1 (Hall id) (or_intror Ht)) as (ae & Ha & <-).
  destruct (proj2 (r_Xdom _ _ _ _ _ Hr id)) as [e He]; [by eexists|].
  destruct (r_ev _ _ _ _ _ Hr _ _ _ Ha He) as (g1 & ag1 & Hg1 & Hag1 & Hev & Hpr).
  assert (g1 = g) as -> by congruence. assert (ag1 = ag) as -> by congruence.
  assert (Hst : st ag ae id = EVT_TRIGGERED) by (unfold st; by rewrite decide_True). rewrite Hst in Hev.
  pose proof (r_fam _ _ _ _ _ Hr) as Hf. pose proof (queue_at _ _ _ _ _ _ Hl Hp) as HF.
  pose proof (pop_unq _ _ _ _ _ _ _ _ _ false Hf Hl Hp Hq) as Hpop. fold ag' in Hpop.
  assert (Hun : ∀ i, triggered ag' i ↔ triggered (unq id ag) i) by (intros i; unfold triggered; by rewrite !Hpop by auto).
  rewrite Hq in HF. cbn in HF. rewrite (loc_at _ _ _ He) in HF.
  destruct (evt_unlink _ _ _ _ _ _ _ _ (r_fam _ _ _ _ _ Hr) He Hl (or_intror Ht)) as (m1 & F1 & Hrem & Hf1 & Ho1 & Hm1 & Hl1 & Hfr1).
  set (s1 := set_es_grps (<[g := MkGrp sp (ae_tid ae) EVTG_INACTIVE]> (es_grps s))
    (set_es_evts (<[e := MkEvt EVT_INACTIVE (ae_prio ae) id (Some g)]> (es_evts s)) (set_es_links m1 s))).
  destruct (es_ADD s1 F1 _ _ _ Hf1 (proj1 Hl1) Ho1 Hm1) as (m2 & Hadd & Hf2 & _).
  eexists e, (MkEvt EVT_INACTIVE (ae_prio ae) id (Some g)), (set_es_links m2 s1), _.
  split; [|split; [done|split; [apply lookup_insert_eq|split; [done|]]]].
  - cbn [read_loop]. rewrite (bind_run _ _ _ _ _ (trig_run g p s ltac:(unfold EVT_NUM_PRIOS; lia))).
    rewrite (bind_run _ _ _ _ _ (es_EMPTY _ _ _ _ Hf HF)), bool_decide_false by done.
    rewrite (bind_run _ _ _ _ _ (es_FIRST _ _ _ _ Hf HF)). cbn [default head Datatypes.id from_option]. rewrite bool_decide_true by done. mrun.
    rewrite (bind_run _ _ _ _ _ Hrem). erewrite bind_run; [|apply read_evt_run; exact Hev]. cbn [e_status]. mrun.
    erewrite bind_run; [|eapply upd_evt_run; exact Hev]. erewrite bind_run; [|eapply upd_grp_run; exact Hgs].
    by rewrite (bind_run _ _ _ _ _ Hadd).
  - rewrite <- (put_evt_id id ae (put_grp _ _ a)) by done.
    eapply (erel_upd X G F _ a s _ id e g ae ae ag ag' sp); try done.
    + cbn. unfold st. rewrite decide_False by (rewrite Hun, triggered_unq; naive_solver).
      destruct (ae_blocked ae) eqn:Hb; [|done]. by destruct (proj1 Hcalm _ _ _ Ha Hag Hb).
    + eapply lists_ext; [exact Hpop|]. by apply (lists_idle _ _ _ _ _ _ _ Hl1 He).
    + intros h H1 H2 H3. rewrite lookup_insert_ne by done. by apply Hfr1.
    + intros i. rewrite Hun. apply idle_all; [done|by right].
    + intros i Hne. rewrite Hun, triggered_unq. naive_solver.
Qed.

Lemma read_run X G F a s t g ag sp idle :
  erel X G F a s → G !! t = Some g → a_grps a !! t = Some ag → es_grps s !! g = Some (MkGrp sp t (gst ag)) →
  lists F X g idle ag → (∀ i, i ∈ idle ∨ triggered ag i ↔ ∃ ae, a_evts a !! i = Some ae ∧ ae_tid ae = t) →
  calm a →
  match first_event ag with
  | None => read_loop 2 g 0 s = Done None s
  | Some (id, ag') => ∃ e x s' F', read_loop 2 g 0 s = Done (Some e) s' ∧ es_woken s' = es_woken s ∧
      es_evts s' !! e = Some x ∧ e_extern_id x = id ∧ erel X G F' (put_grp t ag' a) s'
  end.
Proof.
  intros Hr Hg Hag Hgs Hl Hall Hcalm. pose proof (r_fam _ _ _ _ _ Hr) as Hf.
  assert (Hskip : ∀ p n, p = 0 ∨ p = 1 → ag_q ag p = [] → read_loop (S n) g p s = read_loop n g (p + 1) s).
  { intros p n Hp E. cbn [read_loop]. rewrite (bind_run _ _ _ _ _ (trig_run g p s ltac:(unfold EVT_NUM_PRIOS; lia))).
    pose proof (queue_at _ _ _ _ _ _ Hl Hp) as HF. rewrite E in HF.
    by rewrite (bind_run _ _ _ _ _ (es_EMPTY _ _ _ _ Hf HF)), bool_decide_true by done. }
  unfold first_event. destruct (ag_q ag 0) as [|id q] eqn:E0.
  - rewrite Hskip by auto. destruct (ag_q ag 1) as [|id q] eqn:E1; [by rewrite Hskip by auto|].
    eapply (read_at X G F a s t g ag sp idle 1); eauto.
  - eapply (read_at X G F a s t g ag sp idle 0); eauto.
Qed.

(** The group of a thread. *)
Lemma find_loop_run X G F a s tid : erel X G F a s → ∀ l2 l1 fuel,
  F !! LGrps = Some (LGrp <$> (l1 ++ l2)) → (∀ g, g ∈ l1 ++ l2 ↔ ∃ t, G !! t = Some g) →
  (∀ g, G !! tid = Some g → g ∉ l1) → (length l2 ≤ fuel)%nat →
  grp_find_loop fuel tid (default LGrps (head (LGrp <$> l2))) s = Done (G !! tid) s.
Proof.
  intros Hr. induction l2 as [|g l2 IH]; intros l1 fuel HF Hin Hn Hfuel.
  - replace (grp_find_loop fuel tid _) with (mret None : M estate (option nat)) by (by destruct fuel).
    destruct (G !! tid) as [g|] eqn:Hg; [|done]. exfalso. apply (Hn g eq_refl). rewrite app_nil_r in Hin. apply Hin. by exists tid.
  - destruct fuel as [|fuel]; [cbn in Hfuel; lia|]. destruct (proj1 (Hin g)) as [t Ht]; [apply elem_of_app; right; left|].
    destruct (proj1 (r_Gdom _ _ _ _ _ Hr t)) as [ag Hag]; [by eexists|].
    destruct (r_grp _ _ _ _ _ Hr _ _ _ Ht Hag) as (sp & idle & Hgs & _).
    cbn. rewrite (bind_run _ _ _ _ _ (get_grp_run _ _ _ Hgs)). cbn [g_tid].
    destruct (Z.eqb_spec t tid) as [->|Hne]; [by rewrite Ht|].
    rewrite fmap_app in HF. erewrite bind_run; [|exact (es_next _ _ _ _ _ _ (r_fam _ _ _ _ _ Hr) HF)].
    apply (IH (l1 ++ [g])); rewrite <- ?app_assoc; [by rewrite fmap_app|done| |cbn in Hfuel; lia].
    intros g1 Hg1 [H|H%list_elem_of_singleton]%elem_of_app; [by apply (Hn g1)|].
    subst g1. apply Hne. by eapply (r_Ginj _ _ _ _ _ Hr).
Qed.

Lemma grp_find_run X G F a s tid : erel X G F a s → evt_grp_find tid s = Done (G !! tid) s.
Proof.
  intros Hr. destruct (r_all _ _ _ _ _ Hr) as (gl & HF & Hin). unfold evt_grp_find. mrun.
  rewrite (bind_run _ _ _ _ _ (es_FIRST _ _ _ _ (r_fam _ _ _ _ _ Hr) HF)).
  apply (find_loop_run X G F a s tid Hr gl []); [done|done|set_solver|].
  assert (Hnd : NoDup gl).
  { apply (fam_nodup _ _ _ _ (r_fam _ _ _ _ _ Hr)), NoDup_cons in HF as [_ Hnd]. by apply NoDup_fmap_1 in Hnd. }
  rewrite <- (size_list_to_set (C := gset nat) gl) by done. rewrite <- size_dom. apply subseteq_size. intros g Hg.
  apply elem_of_list_to_set, Hin in Hg as [t Ht]. destruct (proj1 (r_Gdom _ _ _ _ _ Hr t)) as [ag Hag]; [by eexists|].
  destruct (r_grp _ _ _ _ _ Hr _ _ _ Ht Hag) as (sp & idle & Hgs & _). apply elem_of_dom. by eexists.
Qed.

(** A thread starts to wait for any of its events. *)
Lemma erel_block X G F a s t g ag sp : erel X G F a s → G !! t = Some g → a_grps a !! t = Some ag →
  erel X G F (put_grp t (MkAg true (ag_q ag)) a) (set_es_grps (<[g := MkGrp sp t EVTG_BLOCKED]> (es_grps s)) s).
Proof.
  intros Hr Hg Hag. split; cbn; try apply Hr.
  - intros u. rewrite (r_Gdom _ _ _ _ _ Hr). rewrite lookup_insert. case_decide; [|done]. subst. rewrite Hag. split; by eexists.
  - intros u g1 ag1 Hg1 Hag1. rewrite lookup_insert in Hag1. case_decide as Et.
    + subst u. injection Hag1 as <-. assert (g1 = g) as -> by congruence.
      destruct (r_grp _ _ _ _ _ Hr _ _ _ Hg Hag) as (sp0 & idle & _ & Hl & Hall).
      exists sp, idle. split; [by apply lookup_insert_eq|]. by split; [by apply (lists_ext _ _ _ _ ag)|].
    + destruct (r_grp _ _ _ _ _ Hr _ _ _ Hg1 Hag1) as (sp1 & idle1 & Hs1 & Hl1 & Hall1).
      exists sp1, idle1. split; [|done]. rewrite lookup_insert_ne; [done|]. intros ->. apply Et. by eapply (r_Ginj _ _ _ _ _ Hr).
  - intros i ae e Hi He. destruct (r_ev _ _ _ _ _ Hr _ _ _ Hi He) as (g1 & ag1 & Hg1 & Hag1 & Hx1 & Hp1).
    exists g1. rewrite lookup_insert. case_decide as Et; [|by exists ag1].
    eexists. split; [done|]. split; [done|]. assert (ag1 = ag) as -> by congruence. by rewrite Hx1.
Qed.

Lemma grp_wait_run X G F a s thd ag :
  erel X G F a s → calm a → 0 < thd < 2 ^ 16 → a_grps a !! thd = Some ag →
  ∃ s' F', es_woken s' = es_woken s ∧
    match first_event ag with
    | Some (id, ag') => evt_grp_wait thd s = Done (Some id) s' ∧ erel X G F' (put_grp thd ag' a) s'
    | None => evt_grp_wait thd s = Done None s' ∧ erel X G F' (put_grp thd (MkAg true (ag_q ag)) a) s'
    end.
Proof.
  intros Hr Hcalm Hthd Hag. destruct (proj2 (r_Gdom _ _ _ _ _ Hr thd)) as [g Hg]; [by eexists|].
  destruct (r_grp _ _ _ _ _ Hr _ _ _ Hg Hag) as (sp & idle & Hgs & Hl & Hall).
  pose proof (read_run _ _ _ _ _ _ _ _ _ _ Hr Hg Hag Hgs Hl Hall Hcalm) as Hread.
  assert (Hu : u16 thd = thd) by (unfold u16; apply Z.mod_small; lia).
  unfold evt_grp_wait. rewrite Hu, (bind_run _ _ _ _ _ (grp_find_run _ _ _ _ _ _ Hr)), Hg.
  unfold evt_grp_read, evt_grp_read_noblock. change (Z.to_nat EVT_NUM_PRIOS) with 2%nat.
  assert (Hnb : ∀ e s1, read_loop 2 g 0 s = Done e s1 →
    (y ← get_grp g; if negb (thd =? g_tid y) then mret (-1, None) else e ← read_loop 2 g 0; mret (0, e)) s = Done (0, e) s1).
  { intros e s1 Hrd. rewrite (bind_run _ _ _ _ _ (get_grp_run _ _ _ Hgs)). cbn [g_tid]. rewrite Z.eqb_refl. cbn [negb].
    by rewrite (bind_run _ _ _ _ _ Hrd). }
  destruct (first_event ag) as [[id ag']|].
  - destruct Hread as (e & x & s' & F' & Hrd & Hw & Hx & Hid & Hr'). exists s', F'. split; [done|]. split; [|done].
    erewrite bind_run; [|rewrite (bind_run _ _ _ _ _ (Hnb _ _ Hrd)); reflexivity].
    cbn. rewrite (bind_run _ _ _ _ _ (read_evt_run _ _ _ Hx)). by rewrite Hid.
  - eexists _, F. split; [|split; [|exact (erel_block _ _ _ _ _ _ _ _ sp Hr Hg Hag)]]; [done|].
    erewrite bind_run; [|rewrite (bind_run _ _ _ _ _ (Hnb _ _ Hread)); cbn;
      erewrite bind_run; [reflexivity|eapply upd_grp_run; exact Hgs]].
    done.
Qed.

(** ** The priority *)

Lemma set_prio_run X G F a s id ae prio :
  erel X G F a s → - 2 ^ 30 ≤ id < 2 ^ 30 → 0 ≤ prio < EVT_NUM_PRIOS → a_evts a !! id = Some ae →
  ∃ s', evt_set_prio id prio s = Done 0 s' ∧ es_woken s' = es_woken s ∧
    erel X G F (put_evt id (MkAe (ae_tid ae) prio (ae_blocked ae)) a) s'.
Proof.
  intros Hr Hid Hp Ha.
  destruct (evt_at _ _ _ _ _ _ _ Hr Ha) as (e & g & ag & sp & idle & He & Hg & Hag & Hev & _ & Hgs & Hl & Hall).
  eexists. split; [|split].
  - unfold evt_set_prio. rewrite (proj2 (Z.leb_gt _ _)) by lia.
    rewrite (bind_run _ _ _ _ _ (find_run _ _ _ _ _ _ Hr Hid)), He.
    erewrite bind_run; [reflexivity|]. by eapply upd_evt_run.
  - done.
  - rewrite <- (put_grp_id (ae_tid ae) ag a) by done.
    eapply (erel_upd X G F _ a s _ id e g ae _ ag ag sp idle); try done.
    + cbn. by rewrite insert_id.
    + apply Hr.
Qed.

(** ** Freeing an event *)

Lemma lists_loc F X X' g idle ag : (∀ i, i ∈ idle ∨ triggered ag i → X' !! i = X !! i) →
  lists F X g idle ag → lists F X' g idle ag.
Proof.
  intros HX (Hi & H0 & H1).
  assert (Hl : ∀ l : list Z, (∀ i, i ∈ l → X' !! i = X !! i) → loc X' <$> l = loc X <$> l).
  { intros l Hl. apply list_fmap_ext. intros k i Hk. unfold loc. rewrite Hl; [done|]. by eapply list_elem_of_lookup_2. }
  unfold triggered in HX. split_and!; rewrite Hl; auto.
Qed.

Lemma fmap_delete_map X id : id ≠ 0 → <[0 := 0]> (Z.of_nat <$> delete id X) = delete id (<[0 := 0]> (Z.of_nat <$> X)).
Proof. intros Hid. by rewrite fmap_delete, delete_insert_ne. Qed.

Lemma erel_free X G F F' a s s' id g ae ag idle :
  erel X G F a s → a_evts a !! id = Some ae → G !! ae_tid ae = Some g →
  a_grps a !! ae_tid ae = Some ag → es_grps s' = es_grps s →
  (∀ i e, i ≠ id → X !! i = Some e → es_evts s' !! e = es_evts s !! e) →
  mrep 0 (es_map s') (delete id (<[0 := 0]> (Z.of_nat <$> X))) → es_mem s' = es_mem s →
  fam (es_links s') F' → lists F' X g (rm id idle) (unq id ag) →
  (∀ h, h ≠ LEvents g → h ≠ LTrig g 0 → h ≠ LTrig g 1 → F' !! h = F !! h) →
  (∀ i, i ∈ idle ∨ triggered ag i ↔ ∃ ae0, a_evts a !! i = Some ae0 ∧ ae_tid ae0 = ae_tid ae) →
  erel (delete id X) G F' (MkA (delete id (a_evts a)) (<[ae_tid ae := unq id ag]> (a_grps a))) s'.
Proof.
  intros Hr Ha Hg Hag Hgr Hev Hmap Hmem Hf Hl Hfr Hall.
  assert (Hid0 : id ≠ 0).
  { intros ->. destruct (proj2 (r_Xdom _ _ _ _ _ Hr 0)) as [e He]; [by eexists|]. by rewrite (r_X0 _ _ _ _ _ Hr) in He. }
  split; cbn; try apply Hr.
  - by rewrite fmap_delete_map.
  - by rewrite lookup_delete_ne, (r_X0 _ _ _ _ _ Hr).
  - intros i e [_ Hi]%lookup_delete_Some. by eapply (r_Xpos _ _ _ _ _ Hr).
  - intros i j e [_ Hi]%lookup_delete_Some [_ Hj]%lookup_delete_Some. by eapply (r_Xinj _ _ _ _ _ Hr).
  - intros i. rewrite !lookup_delete. case_decide; [done|]. apply Hr.
  - intros t. rewrite (r_Gdom _ _ _ _ _ Hr). rewrite lookup_insert. case_decide as Ei; [|done]. subst. rewrite Hag. split; by eexists.
  - done.
  - destruct (r_all _ _ _ _ _ Hr) as (gl & Hgl & Hin). exists gl. by rewrite Hfr.
  - intros h l Hh. destruct (decide (h = LEvents g ∨ h = LTrig g 0 ∨ h = LTrig g 1)) as [Hd|Hd]; [right; eauto|].
    rewrite Hfr in Hh by naive_solver. by eapply (r_heads _ _ _ _ _ Hr).
  - intros t g1 ag1 Hg1 Hag1. rewrite lookup_insert in Hag1. rewrite Hgr. case_decide as Et.
    + subst t. injection Hag1 as <-. assert (g1 = g) as -> by congruence.
      destruct (r_grp _ _ _ _ _ Hr _ _ _ Hg Hag) as (sp & _ & Hgs & _). exists sp, (rm id idle). split; [done|]. split.
      * eapply lists_loc; [|exact Hl]. intros i Hi. rewrite lookup_delete_ne; [done|].
        rewrite elem_of_rm, triggered_unq in Hi. naive_solver.
      * intros i. rewrite elem_of_rm, triggered_unq. specialize (Hall i). rewrite lookup_delete. case_decide; naive_solver.
    + destruct (r_grp _ _ _ _ _ Hr _ _ _ Hg1 Hag1) as (sp1 & idle1 & Hs1 & (L0 & L1 & L2) & Hall1).
      assert (g1 ≠ g). { intros ->. apply Et. by eapply (r_Ginj _ _ _ _ _ Hr). }
      exists sp1, idle1. split; [done|]. split.
      * eapply (lists_loc _ X); [|unfold lists; rewrite !Hfr by congruence; done].
        intros i Hi. rewrite lookup_delete_ne; [done|]. intros <-. apply Hall1 in Hi as (? & ? & ?). congruence.
      * intros i. rewrite Hall1, lookup_delete. case_decide as Ei; [|done]. subst i. rewrite Ha. naive_solver congruence.
  - intros i ae1 e1 [Hi Hi1]%lookup_delete_Some [_ He1]%lookup_delete_Some.
    destruct (r_ev _ _ _ _ _ Hr _ _ _ Hi1 He1) as (g1 & ag1 & Hg1 & Hag1 & Hx1 & Hp1).
    rewrite (Hev i e1) by done. exists g1. rewrite lookup_insert. case_decide as Et; [|by exists ag1].
    eexists. split; [done|]. split; [done|]. assert (ag1 = ag) as -> by congruence. rewrite Hx1.
    split; [|done]. do 2 f_equal. unfold st. rewrite (decide_ext _ _ _ _ (triggered_unq id ag i)).
    repeat case_decide; naive_solver.
  - rewrite Hmem. apply Hr.
Qed.

Lemma evt_free_run s e x f m' : es_evts s !! e = Some x → f = set_e_status EVT_INACTIVE (set_e_grp None x) →
  (let s1 := set_es_evts (<[e := f]> (es_evts s)) s in REM_LIST (LEvt e) s1 = Done tt (set_es_links m' s1)) →
  evt_free_ e s = Done tt (set_es_links (delete (LEvt e) m') (set_es_evts (delete e (es_evts s)) s)).
Proof.
  intros Hx -> Hrem. unfold evt_free_. rewrite (bind_run _ _ _ _ _ (upd_evt_run _ _ _ _ Hx)).
  erewrite bind_run; [|apply upd_evt_run; apply lookup_insert_eq]. cbn [es_evts set_es_evts]. rewrite insert_insert_eq.
  erewrite bind_run; [|exact Hrem]. unfold modify. cbn [es_links es_evts set_es_links set_es_evts]. by rewrite delete_insert_eq.
Qed.

Lemma free_run X G F a s id ae : erel X G F a s → - 2 ^ 30 ≤ id < 2 ^ 30 → a_evts a !! id = Some ae →
  ∃ ag s' F', a_grps a !! ae_tid ae = Some ag ∧ evt_free id s = Done tt s' ∧ es_woken s' = es_woken s ∧
    erel (delete id X) G F' (MkA (delete id (a_evts a)) (<[ae_tid ae := unq id ag]> (a_grps a))) s'.
Proof.
  intros Hr Hid Ha.
  destruct (evt_at _ _ _ _ _ _ _ Hr Ha) as (e & g & ag & sp & idle & He & Hg & Hag & Hev & Hp & Hgs & Hl & Hall).
  set (s1 := set_es_evts (<[e := MkEvt EVT_INACTIVE (ae_prio ae) id None]> (es_evts s)) s).
  destruct (evt_unlink X F s1 id e g idle ag (r_fam _ _ _ _ _ Hr) He Hl) as (m1 & F1 & Hrem & Hf1 & Ho1 & Hm1 & Hl1 & Hfr1).
  { apply Hall. by exists ae. }
  assert (Hfree := evt_free_run s e _ _ m1 Hev eq_refl Hrem).
  destruct (r_map _ _ _ _ _ Hr) as [fl Hmap].
  destruct (del_run 0 (es_map s) _ fl id (Z.of_nat e) Hmap) as (ms' & Hdel & Hmap').
  { assert (id ≠ 0) by (intros ->; by rewrite (r_X0 _ _ _ _ _ Hr) in He).
    by rewrite lookup_insert_ne, lookup_fmap, He. }
  eexists ag, _, F1. split; [done|]. split; [|split].
  - unfold evt_free. rewrite (bind_run _ _ _ _ _ (find_run _ _ _ _ _ _ Hr Hid)), He, (bind_run _ _ _ _ _ Hfree).
    unfold mapping_free. erewrite bind_run; [|apply on_map_run; exact Hdel]. done.
  - done.
  - eapply (erel_free X G F F1 a s _ id g ae ag idle); try done; cbn.
    + intros i e' Hne Hi. rewrite lookup_delete_ne; [done|]. intros <-. apply Hne. by eapply (r_Xinj _ _ _ _ _ Hr).
    + by eexists.
    + by apply fam_free.
Qed.

(** ** Creating an event *)

Lemma elem_of_loc X (l : list Z) x : x ∈ loc X <$> l → ∃ i, i ∈ l ∧ x = loc X i.
Proof. intros (i & -> & Hi)%list_elem_of_fmap. by exists i. Qed.

(** What the lists link. *)
Lemma fam_shape X G F a s h l x : erel X G F a s → F !! h = Some l → x ∈ h :: l →
  x = LGrps ∨ (∃ t g, G !! t = Some g ∧ (x = LGrp g ∨ x = LEvents g ∨ x = LTrig g 0 ∨ x = LTrig g 1)) ∨
  ∃ id e, X !! id = Some e ∧ x = LEvt e.
Proof.
  intros Hr Hh Hx. destruct (r_heads _ _ _ _ _ Hr _ _ Hh) as [->|(t & g & Hg & Hwhich)].
  - destruct (r_all _ _ _ _ _ Hr) as (gl & HF & Hin). apply elem_of_cons in Hx as [->|Hx]; [by left|].
    assert (l = LGrp <$> gl) as -> by congruence. apply list_elem_of_fmap in Hx as (g & -> & [t Ht]%Hin). eauto 8.
  - apply elem_of_cons in Hx as [->|Hx]; [destruct Hwhich as [->|[->| ->]]; eauto 10|].
    destruct (proj1 (r_Gdom _ _ _ _ _ Hr t)) as [ag Hag]; [by eexists|].
    destruct (r_grp _ _ _ _ _ Hr _ _ _ Hg Hag) as (sp & idle & _ & (H0 & H1 & H2) & Hall).
    assert (∃ i, (i ∈ idle ∨ triggered ag i) ∧ x = loc X i) as (i & Hi & ->).
    { destruct Hwhich as [->|[->| ->]]; simplify_map_eq; apply elem_of_loc in Hx as (i & Hi & ->); exists i; split; try done.
      - by left. - right. by left. - right. by right. }
    apply Hall in Hi as (ae & Hae & _). destruct (proj2 (r_Xdom _ _ _ _ _ Hr i)) as [e He]; [by eexists|].
    right. right. exists i, e. by rewrite (loc_at _ _ _ He).
Qed.

Lemma new_evt_outside X G F a s e : erel X G F a s → es_evts s !! e = None → outside F (LEvt e).
Proof.
  intros Hr He h l Hh Hin. destruct (fam_shape _ _ _ _ _ _ _ _ Hr Hh Hin) as [?|[(t & g & _ & ?)|(id & e' & Hi & E)]]; [done|naive_solver|].
  injection E as <-. destruct (proj1 (r_Xdom _ _ _ _ _ Hr id)) as [ae Hae]; [by eexists|].
  destruct (r_ev _ _ _ _ _ Hr _ _ _ Hae Hi) as (? & ? & _ & _ & ? & _). congruence.
Qed.

Lemma new_grp_outside X G F a s g x : erel X G F a s → es_grps s !! g = None →
  x = LGrp g ∨ x = LEvents g ∨ x = LTrig g 0 ∨ x = LTrig g 1 → outside F x.
Proof.
  intros Hr Hg Hx h l Hh Hin. destruct (fam_shape _ _ _ _ _ _ _ _ Hr Hh Hin) as [?|[(t & g' & Ht & ?)|(id & e' & Hi & E)]]; [naive_solver| |naive_solver].
  assert (g' = g) as -> by naive_solver. destruct (proj1 (r_Gdom _ _ _ _ _ Hr t)) as [ag Hag]; [by eexists|].
  destruct (r_grp _ _ _ _ _ Hr _ _ _ Ht Hag) as (? & ? & ? & _). congruence.
Qed.

Lemma erel_frame X G F a s s' : erel X G F a s → mrep 0 (es_map s') (<[0 := 0]> (Z.of_nat <$> X)) →
  (∀ t g, G !! t = Some g → es_grps s' !! g = es_grps s !! g) →
  (∀ i e, X !! i = Some e → es_evts s' !! e = es_evts s !! e) →
  (∀ b, b ∈ es_mem s' → b ∈ mem0) → fam (es_links s') F → erel X G F a s'.
Proof.
  intros Hr Hmap Hgr Hev Hmem Hf. split; try apply Hr; try done.
  - intros t g ag Hg Hag. rewrite (Hgr t g Hg). by apply (r_grp _ _ _ _ _ Hr).
  - intros id ae e Ha He. rewrite (Hev id e He). by apply (r_ev _ _ _ _ _ Hr).
Qed.

(** A new event in a group that is there. *)
Lemma erel_new X G F a s s' id e t g ag idle :
  erel X G F a s → G !! t = Some g → a_grps a !! t = Some ag → lists F X g idle ag →
  (∀ i, i ∈ idle ∨ triggered ag i ↔ ∃ ae, a_evts a !! i = Some ae ∧ ae_tid ae = t) →
  X !! id = None → id ≠ 0 → e ≠ 0%nat → es_evts s !! e = None →
  es_evts s' = <[e := MkEvt EVT_INACTIVE 0 id (Some g)]> (es_evts s) → es_grps s' = es_grps s →
  mrep 0 (es_map s') (<[0 := 0]> (Z.of_nat <$> <[id := e]> X)) → (∀ b, b ∈ es_mem s' → b ∈ mem0) →
  fam (es_links s') (<[LEvents g := LEvt e :: (loc X <$> idle)]> F) →
  erel (<[id := e]> X) G (<[LEvents g := LEvt e :: (loc X <$> idle)]> F) (put_evt id (MkAe t 0 false) a) s'.
Proof.
  intros Hr Hg Hag Hl Hall Hid Hid0 He0 He Hev Hgr Hmap Hmem Hf.
  assert (Hfr : ∀ i e', X !! i = Some e' → e' ≠ e).
  { intros i e' Hi ->. destruct (proj1 (r_Xdom _ _ _ _ _ Hr i)) as [ae Hae]; [by eexists|].
    destruct (r_ev _ _ _ _ _ Hr _ _ _ Hae Hi) as (? & ? & _ & _ & ? & _). congruence. }
  assert (Ha : a_evts a !! id = None).
  { destruct (a_evts a !! id) eqn:E; [|done]. destruct (proj2 (r_Xdom _ _ _ _ _ Hr id)) as [? ?]; [by eexists|congruence]. }
  split; cbn; try apply Hr; try done.
  - by rewrite lookup_insert_ne, (r_X0 _ _ _ _ _ Hr).
  - intros i e' [[_ <-]|[_ Hi]]%lookup_insert_Some; [done|]. by eapply (r_Xpos _ _ _ _ _ Hr).
  - intros i j e' [[<- <-]|[_ Hi]]%lookup_insert_Some [[<- E]|[_ Hj]]%lookup_insert_Some; try done.
    + by destruct (Hfr _ _ Hj). + subst. by destruct (Hfr _ _ Hi). + by eapply (r_Xinj _ _ _ _ _ Hr).
  - intros i. rewrite !lookup_insert. case_decide; [split; by eexists|apply Hr].
  - destruct (r_all _ _ _ _ _ Hr) as (gl & Hgl & Hin). exists gl. by rewrite lookup_insert_ne.
  - intros h l [[<- _]|[_ Hh]]%lookup_insert_Some; [right; eauto|]. by eapply (r_heads _ _ _ _ _ Hr).
  - intros u g1 ag1 Hg1 Hag1. rewrite Hgr. destruct (r_grp _ _ _ _ _ Hr _ _ _ Hg1 Hag1) as (sp1 & idle1 & Hs1 & L1 & Hall1).
    destruct (decide (u = t)) as [->|Hne].
    + assert (g1 = g) as -> by congruence. assert (ag1 = ag) as -> by congruence. exists sp1, (id :: idle). split; [done|]. split.
      * apply (lists_loc _ (<[id := e]> X)); [done|]. eapply lists_ext; [done|].
        destruct (lists_loc F X (<[id := e]> X) g idle ag) as (H0 & H1 & H2); [|done|].
        { intros i Hi. apply Hall in Hi as (? & ? & _). rewrite lookup_insert_ne; [done|]. congruence. }
        unfold lists. rewrite lookup_insert_eq, !lookup_insert_ne by done. split; [|done]. cbn.
        rewrite (loc_at _ _ _ (lookup_insert_eq X id e)). destruct Hl as (Hl & _). congruence.
      * intros i. rewrite elem_of_cons, lookup_insert. specialize (Hall i). case_decide as Ei; [subst|naive_solver].
        split; [eauto|by auto].
    + exists sp1, idle1. split; [done|]. split.
      * apply (lists_loc _ X).
        { intros i Hi. apply Hall1 in Hi as (? & ? & _). rewrite lookup_insert_ne; [done|]. congruence. }
        assert (g1 ≠ g). { intros ->. apply Hne. by eapply (r_Ginj _ _ _ _ _ Hr). }
        unfold lists. by rewrite !lookup_insert_ne by congruence.
      * intros i. rewrite Hall1, lookup_insert. case_decide as Ei; [subst; rewrite Ha|done]. naive_solver.
  - intros i ae1 e1 Hi He1. rewrite Hev. rewrite lookup_insert in Hi. rewrite lookup_insert in He1. case_decide as Ei.
    + subst i. injection Hi as <-. injection He1 as <-. exists g, ag. rewrite lookup_insert_eq. do 2 (split; [done|]). split; [|done].
      do 2 f_equal. unfold st. rewrite decide_False; [done|]. intros Ht. destruct (proj1 (Hall id)) as (? & ? & _); [by right|congruence].
    + rewrite lookup_insert_ne by (intros <-; by destruct (Hfr _ _ He1)). by apply (r_ev _ _ _ _ _ Hr).
Qed.

Lemma mem_run s : (∀ b, b ∈ es_mem s → b ∈ mem0) → ∃ mem', (∀ b, b ∈ mem' → b ∈ mem0) ∧
  (mem_avail s = Done true (set_es_mem mem' s) ∨ false ∈ mem0 ∧ mem_avail s = Done false (set_es_mem mem' s)).
Proof.
  intros Hm. unfold mem_avail. mrun. destruct (es_mem s) as [|[] l] eqn:E.
  - exists []. split; [by intros b ?%elem_of_nil|]. left. rewrite <- E. by destruct s.
  - exists l. split; [intros b Hb; apply Hm; by right|by left].
  - exists l. split; [intros b Hb; apply Hm; by right|right]. split; [apply Hm; by left|done].
Qed.

Lemma evt_new_run s F g l : fam (es_links s) F → F !! LEvents g = Some l → (∀ b, b ∈ es_mem s → b ∈ mem0) →
  (∀ e, es_evts s !! e = None → outside F (LEvt e)) → ∃ mem', (∀ b, b ∈ mem' → b ∈ mem0) ∧
  ((false ∈ mem0 ∧ evt_new g s = Done None (set_es_mem mem' s)) ∨
   ∃ e m', e ≠ 0%nat ∧ es_evts s !! e = None ∧ fam m' (<[LEvents g := LEvt e :: l]> F) ∧
     evt_new g s = Done (Some e) (set_es_links m' (set_es_evts (<[e := MkEvt EVT_INACTIVE 0 0 (Some g)]> (es_evts s)) (set_es_mem mem' s)))).
Proof.
  intros Hf Hl Hm Ho. unfold evt_new. destruct (mem_run s Hm) as (mem' & Hm' & [Hrun|[Hno Hrun]]);
    exists mem'; (split; [done|]); rewrite (bind_run _ _ _ _ _ Hrun); cbn [negb]; [right|by left].
  mrun. cbn [es_evts set_es_mem]. set (e := fresh _).
  assert (He : e ∉ ({[0%nat]} ∪ dom (es_evts s) : gset nat)) by apply is_fresh.
  apply not_elem_of_union in He as [He0 He]. apply not_elem_of_dom in He. clearbody e.
  set (s1 := set_es_links (<[LEvt e := (LEvt e, LEvt e)]> (es_links s))
    (set_es_evts (<[e := MkEvt EVT_INACTIVE 0 0 (Some g)]> (es_evts s)) (set_es_mem mem' s))).
  destruct (es_ADD s1 F _ _ (LEvt e) (fam_alloc _ _ _ _ (Ho _ He) Hf) Hl (Ho _ He)) as (m' & Hadd & Hf' & _).
  { cbn. rewrite lookup_insert_eq. by eexists. }
  exists e, m'. split; [set_solver|]. do 2 (split; [done|]). by erewrite bind_run; [|exact Hadd].
Qed.

Lemma outside_nil F h x : outside F x → x ≠ h → outside (<[h := []]> F) x.
Proof. intros Ho Hne h' l [[<- <-]|[_ Hh]]%lookup_insert_Some; [set_solver|by apply Ho]. Qed.

Definition gheads (g : nat) (F : gmap eloc (list eloc)) : gmap eloc (list eloc) :=
  <[LTrig g 1 := []]> (<[LTrig g 0 := []]> (<[LEvents g := []]> F)).

Lemma es_INIT_next s0 m F x : fam m F → outside F x → is_Some (m !! x) →
  ∃ m', INIT_LIST x (set_es_links m s0) = Done tt (set_es_links m' s0) ∧ fam m' (<[x := []]> F) ∧ dom m' = dom m.
Proof. apply (es_INIT (set_es_links m s0)). Qed.

Lemma for_prios (body : Z → M estate unit) : for_range 0 EVT_NUM_PRIOS body = (body 0;; body 1;; mret tt).
Proof. done. Qed.
Lemma prio0 : 0 ≤ 0 < EVT_NUM_PRIOS.
Proof. done. Qed.
Lemma prio1 : 0 ≤ 1 < EVT_NUM_PRIOS.
Proof. done. Qed.

(** The four lists of a new group. *)
Lemma grp_init_run s F g sp t y : fam (es_links s) F → es_grps s !! g = Some y →
  (∀ x, x = LGrp g ∨ x = LEvents g ∨ x = LTrig g 0 ∨ x = LTrig g 1 → outside F x ∧ is_Some (es_links s !! x)) →
  ∃ m', evt_grp_init g sp t s = Done tt (set_es_links m' (set_es_grps (<[g := MkGrp sp t EVTG_INACTIVE]> (es_grps s)) s)) ∧
    fam m' (gheads g (<[LGrp g := []]> F)).
Proof.
  intros Hf Hg Hx. set (s0 := set_es_grps (<[g := MkGrp sp t EVTG_INACTIVE]> (es_grps s)) s).
  assert (Hd : ∀ (m : gmap eloc (eloc * eloc)) x, dom m = dom (es_links s) → x = LGrp g ∨ x = LEvents g ∨ x = LTrig g 0 ∨ x = LTrig g 1 → is_Some (m !! x)).
  { intros m x Hm Hw. apply elem_of_dom. rewrite Hm. apply elem_of_dom. by apply Hx. }
  destruct (es_INIT_next s0 (es_links s) F (LGrp g)) as (m1 & E1 & Hf1 & D1); [done|apply Hx; auto|apply Hd; auto|].
  destruct (es_INIT_next s0 m1 _ (LEvents g) Hf1) as (m2 & E2 & Hf2 & D2); [apply outside_nil; [apply Hx; auto|done]|apply Hd; auto|].
  destruct (es_INIT_next s0 m2 _ (LTrig g 0) Hf2) as (m3 & E3 & Hf3 & D3);
    [do 2 (apply outside_nil; [|done]); apply Hx; auto|apply Hd; [congruence|auto]|].
  destruct (es_INIT_next s0 m3 _ (LTrig g 1) Hf3) as (m4 & E4 & Hf4 & _);
    [do 3 (apply outside_nil; [|done]); apply Hx; auto|apply Hd; [congruence|auto]|].
  exists m4. split; [|done]. unfold evt_grp_init.
  rewrite (bind_run _ _ _ _ _ (upd_grp_run _ _ _ _ Hg)). fold s0.
  replace s0 with (set_es_links (es_links s) s0) at 1 by (by destruct s).
  rewrite (bind_run _ _ _ _ _ E1), (bind_run _ _ _ _ _ E2). rewrite for_prios.
  erewrite bind_run; [|rewrite (bind_run _ _ _ _ _ (trig_run _ _ _ prio0)); exact E3].
  erewrite bind_run; [|rewrite (bind_run _ _ _ _ _ (trig_run _ _ _ prio1)); exact E4]. done.
Qed.

Lemma grp_create_run X G F a s sp t : erel X G F a s → ∃ mem', (∀ b, b ∈ mem' → b ∈ mem0) ∧
  ((false ∈ mem0 ∧ evt_grp_create sp t s = Done None (set_es_mem mem' s)) ∨
   ∃ g m', es_grps s !! g = None ∧ fam m' (gheads g (<[LGrp g := []]> F)) ∧
     evt_grp_create sp t s = Done (Some g)
       (set_es_links m' (set_es_grps (<[g := MkGrp sp t EVTG_INACTIVE]> (es_grps s)) (set_es_mem mem' s)))).
Proof.
  intros Hr. unfold evt_grp_create. destruct (mem_run s (r_mem _ _ _ _ _ Hr)) as (mem' & Hm' & [Hrun|[Hno Hrun]]);
    exists mem'; (split; [done|]); rewrite (bind_run _ _ _ _ _ Hrun); cbn [negb]; [right|by left].
  mrun. cbn [es_grps set_es_mem]. set (g := fresh _).
  assert (Hg : g ∉ (dom (es_grps s) : gset nat)) by apply is_fresh.
  apply not_elem_of_dom in Hg. clearbody g.
  set (s1 := set_es_grps _ _).
  destruct (grp_init_run s1 F g sp t (MkGrp 0 0 EVTG_INACTIVE)) as (m' & Hi & Hf').
  - cbn. repeat (apply fam_alloc; [by eapply new_grp_outside; auto|]). apply Hr.
  - cbn. by rewrite lookup_insert_eq.
  - intros x Hx. split; [by eapply new_grp_outside|]. cbn.
    destruct Hx as [->|[->|[->| ->]]]; rewrite ?lookup_insert_ne, ?lookup_insert_eq by done; by eexists.
  - exists g, m'. do 2 (split; [done|]). erewrite bind_run; [|exact Hi]. cbn. by rewrite insert_insert_eq.
Qed.

Lemma outside_none F x : outside F x → F !! x = None.
Proof. intros Ho. destruct (F !! x) as [l|] eqn:E; [|done]. exfalso. by eapply (Ho x l); [|left]. Qed.

Lemma drain_empty fuel s F h : fam (es_links s) F → F !! h = Some [] → drain fuel h s = Done tt s.
Proof. intros Hf Hh. destruct fuel; cbn [drain]; by rewrite (bind_run _ _ _ _ _ (es_EMPTY _ _ _ _ Hf Hh)). Qed.

(** A group that was just created is freed. *)
Lemma grp_free_run s F g : fam (es_links s) (gheads g (<[LGrp g := []]> F)) →
  (∀ x, x = LGrp g ∨ x = LEvents g ∨ x = LTrig g 0 ∨ x = LTrig g 1 → outside F x) →
  ∃ m', evt_grp_free g s = Done tt (set_es_grps (delete g (es_grps s)) (set_es_links m' s)) ∧ fam m' F.
Proof.
  intros Hf Ho. eexists. split.
  - unfold evt_grp_free. mrun. erewrite bind_run; [|eapply es_EMPTY; [exact Hf|]; unfold gheads; by simplify_map_eq].
    rewrite bool_decide_true by done. cbn [negb when]. mrun.
    erewrite bind_run; [|eapply drain_empty; [exact Hf|]; unfold gheads; by simplify_map_eq].
    erewrite bind_run; [|rewrite for_prios;
      erewrite bind_run; [|rewrite (bind_run _ _ _ _ _ (trig_run _ _ _ prio0)); eapply drain_empty; [exact Hf|unfold gheads; by simplify_map_eq]];
      erewrite bind_run; [|rewrite (bind_run _ _ _ _ _ (trig_run _ _ _ prio1)); eapply drain_empty; [exact Hf|unfold gheads; by simplify_map_eq]];
      reflexivity].
    unfold modify. reflexivity.
  - assert (HF : F = delete (LGrp g) (delete (LEvents g) (delete (LTrig g 0) (delete (LTrig g 1) (gheads g (<[LGrp g := []]> F)))))).
    { unfold gheads. rewrite delete_insert_id by (simplify_map_eq; apply outside_none, Ho; auto).
      rewrite delete_insert_id by (simplify_map_eq; apply outside_none, Ho; auto).
      rewrite delete_insert_id by (simplify_map_eq; apply outside_none, Ho; auto).
      by rewrite delete_insert_id by (apply outside_none, Ho; auto). }
    repeat (apply fam_free; [apply Ho; auto|]). rewrite HF. repeat apply fam_drop. exact Hf.
Qed.

(** A new group without events. *)
Lemma erel_newgrp X G F a s s' t g sp gl :
  erel X G F a s → G !! t = None → 0 < t < 2 ^ 16 → es_grps s !! g = None →
  F !! LGrps = Some (LGrp <$> gl) → (∀ g, g ∈ gl ↔ ∃ t, G !! t = Some g) →
  es_grps s' = <[g := MkGrp sp t EVTG_INACTIVE]> (es_grps s) → es_evts s' = es_evts s → es_map s' = es_map s →
  (∀ b, b ∈ es_mem s' → b ∈ mem0) → fam (es_links s') (<[LGrps := LGrp g :: (LGrp <$> gl)]> (gheads g F)) →
  erel X (<[t := g]> G) (<[LGrps := LGrp g :: (LGrp <$> gl)]> (gheads g F)) (put_grp t grp0 a) s'.
Proof.
  intros Hr Ht Htb Hg HF Hgl Hgr Hev Hmap Hmem Hf.
  assert (Hfr : ∀ u g', G !! u = Some g' → g' ≠ g).
  { intros u g' Hu ->. destruct (proj1 (r_Gdom _ _ _ _ _ Hr u)) as [ag Hag]; [by eexists|].
    destruct (r_grp _ _ _ _ _ Hr _ _ _ Hu Hag) as (? & ? & ? & _). congruence. }
  assert (Hat : a_grps a !! t = None).
  { destruct (a_grps a !! t) eqn:E; [|done]. destruct (proj2 (r_Gdom _ _ _ _ _ Hr t)) as [? ?]; [by eexists|congruence]. }
  assert (Hnt : ∀ id ae, a_evts a !! id = Some ae → ae_tid ae ≠ t).
  { intros id ae Ha <-. destruct (evt_at _ _ _ _ _ _ _ Hr Ha) as (? & ? & ? & ? & ? & _ & ? & _). congruence. }
  split; cbn; try apply Hr; try done.
  - rewrite Hmap. apply Hr.
  - intros u v g' [[<- <-]|[_ Hu]]%lookup_insert_Some [[<- E]|[_ Hv]]%lookup_insert_Some; try done.
    + by destruct (Hfr _ _ Hv). + subst. by destruct (Hfr _ _ Hu). + by eapply (r_Ginj _ _ _ _ _ Hr).
  - intros u. rewrite !lookup_insert. case_decide; [split; by eexists|apply Hr].
  - intros u g' [[<- _]|[_ Hu]]%lookup_insert_Some; [done|]. by eapply (r_Gtid _ _ _ _ _ Hr).
  - exists (g :: gl). rewrite lookup_insert_eq. split; [done|]. intros g'. rewrite elem_of_cons, Hgl. split.
    + intros [->|[u Hu]]; [exists t; apply lookup_insert_eq|]. exists u. rewrite lookup_insert_ne; [done|]. congruence.
    + intros [u [[<- <-]|[_ Hu]]%lookup_insert_Some]; [by left|right; by exists u].
  - intros h l [[<- _]|[_ Hh]]%lookup_insert_Some; [by left|]. unfold gheads in Hh.
    pose proof (lookup_insert_eq G t g) as Hgt.
    apply lookup_insert_Some in Hh as [[<- _]|[_ Hh]]; [right; eauto 10|].
    apply lookup_insert_Some in Hh as [[<- _]|[_ Hh]]; [right; eauto 10|].
    apply lookup_insert_Some in Hh as [[<- _]|[_ Hh]]; [right; eauto 10|].
    destruct (r_heads _ _ _ _ _ Hr _ _ Hh) as [|(u & g' & Hu & Hw)]; [by left|]. right. exists u, g'.
    split; [|done]. rewrite lookup_insert_ne; [done|]. congruence.
  - intros u g1 ag1 Hg1 Hag1. rewrite Hgr. rewrite lookup_insert in Hg1. rewrite lookup_insert in Hag1. case_decide as Eu.
    + subst u. injection Hg1 as <-. injection Hag1 as <-. exists sp, []. split; [by rewrite lookup_insert_eq|].
      split; [unfold lists, gheads; by simplify_map_eq|]. intros i. unfold triggered. cbn. rewrite !elem_of_nil. naive_solver.
    + destruct (r_grp _ _ _ _ _ Hr _ _ _ Hg1 Hag1) as (sp1 & idle1 & Hs1 & (H0 & H1 & H2) & Hall1).
      pose proof (Hfr _ _ Hg1). exists sp1, idle1. rewrite lookup_insert_ne by done. split; [done|]. split; [|done].
      unfold lists, gheads. by rewrite !lookup_insert_ne by congruence.
  - intros id ae e Ha He. rewrite Hev. destruct (r_ev _ _ _ _ _ Hr _ _ _ Ha He) as (g1 & ag1 & Hg1 & Hag1 & Hx1 & Hp1).
    exists g1, ag1. rewrite !lookup_insert_ne by (intros E; by destruct (Hnt _ _ Ha)). done.
Qed.

(** An event without an identifier was added to the group of [t] of a state
    [s0] of the relation. *)
Record made X G F a (s0 : estate) (t : Z) (g e : nat) (ag : agrp) (idle : list Z) (s' : estate) : Prop := {
  md_rel : erel X G F a s0;
  md_g : G !! t = Some g;
  md_ag : a_grps a !! t = Some ag;
  md_lists : lists F X g idle ag;
  md_all : ∀ i, i ∈ idle ∨ triggered ag i ↔ ∃ ae, a_evts a !! i = Some ae ∧ ae_tid ae = t;
  md_e0 : e ≠ 0%nat;
  md_e : es_evts s0 !! e = None;
  md_evts : es_evts s' = <[e := MkEvt EVT_INACTIVE 0 0 (Some g)]> (es_evts s0);
  md_grps : es_grps s' = es_grps s0;
  md_map : es_map s' = es_map s0;
  md_mem : ∀ b, b ∈ es_mem s' → b ∈ mem0;
  md_fam : fam (es_links s') (<[LEvents g := LEvt e :: (loc X <$> idle)]> F)
}.

(** In the group that the thread has. *)
Lemma create_in_run X G F a s t g ag : erel X G F a s → G !! t = Some g → a_grps a !! t = Some ag →
  ∃ s', es_woken s' = es_woken s ∧
  ((evt_new g s = Done None s' ∧ false ∈ mem0 ∧ erel X G F a s') ∨
   ∃ e idle, evt_new g s = Done (Some e) s' ∧ made X G F a s t g e ag idle s').
Proof.
  intros Hr Hg Hag. destruct (r_grp _ _ _ _ _ Hr _ _ _ Hg Hag) as (sp & idle & Hgs & Hl & Hall).
  destruct (evt_new_run s F g _ (r_fam _ _ _ _ _ Hr) (proj1 Hl) (r_mem _ _ _ _ _ Hr)) as (mem' & Hm & [[Hno E]|(e & m' & He0 & He & Hf & E)]).
  - intros e. by apply (new_evt_outside X G F a s).
  - eexists. split; [|left; split; [exact E|]; split; [done|]]; [done|]. by apply (erel_frame _ _ _ _ s); try apply Hr.
  - eexists. split; [|right; exists e, idle; split; [exact E|]]; [done|]. by split.
Qed.

(** A group with the list [l] of events joins the groups. *)
Lemma grp_add_run s F g l gl : fam (es_links s) (<[LEvents g := l]> (gheads g (<[LGrp g := []]> F))) →
  outside F (LGrp g) → LGrp g ∉ l → F !! LGrps = Some (LGrp <$> gl) →
  ∃ m', evt_grp_add g s = Done tt (set_es_links m' s) ∧
    fam m' (<[LEvents g := l]> (<[LGrps := LGrp g :: (LGrp <$> gl)]> (gheads g F))).
Proof.
  intros Hf Ho Hl HF.
  assert (Hsome : is_Some (es_links s !! LGrp g)).
  { eapply (fam_node _ _ (LGrp g) []); [exact Hf|unfold gheads; by simplify_map_eq|left]. }
  apply (fam_drop _ _ (LGrp g)) in Hf. unfold gheads in Hf. rewrite !delete_insert_ne in Hf by done.
  rewrite delete_insert_id in Hf by (by apply outside_none). fold (gheads g F) in Hf.
  destruct (es_ADD s _ LGrps (LGrp <$> gl) (LGrp g) Hf) as (m' & E & Hf' & _); [unfold gheads; by simplify_map_eq| |done|].
  - intros h l' [[<- <-]|[_ Hh]]%lookup_insert_Some; [set_solver|]. revert h l' Hh. change (outside (gheads g F) (LGrp g)).
    unfold gheads. by do 3 (apply outside_nil; [|done]).
  - exists m'. split; [exact E|]. by rewrite insert_insert_ne.
Qed.

(** In a group of its own. *)
Lemma create_grp_run X G F a s sp t : erel X G F a s → G !! t = None → 0 < t < 2 ^ 16 →
  ∃ s', es_woken s' = es_woken s ∧
  ((create_event sp t s = Done None s' ∧ false ∈ mem0 ∧ erel X G F a s') ∨
   ∃ e g F' s0, create_event sp t s = Done (Some e) s' ∧ made X (<[t := g]> G) F' (put_grp t grp0 a) s0 t g e grp0 [] s').
Proof.
  intros Hr Ht Htb. unfold create_event. rewrite (bind_run _ _ _ _ _ (grp_find_run _ _ _ _ _ _ Hr)), Ht.
  destruct (grp_create_run X G F a s sp t Hr) as (mem1 & Hm1 & [[Hno E]|(g & m1 & Hg & Hf1 & E)]); rewrite (bind_run _ _ _ _ _ E).
  { eexists. split; [|left; split; [reflexivity|]; split; [done|]]; [done|]. by apply (erel_frame _ _ _ _ s); try apply Hr. }
  set (s1 := set_es_links m1 _). pose proof (λ x, new_grp_outside X G F a s g x Hr Hg) as Hog.
  assert (Hoe : ∀ e, es_evts s1 !! e = None → outside (gheads g (<[LGrp g := []]> F)) (LEvt e)).
  { intros e He. unfold gheads. do 4 (apply outside_nil; [|done]). by apply (new_evt_outside X G F a s). }
  destruct (evt_new_run s1 _ g [] Hf1 ltac:(unfold gheads; by simplify_map_eq) Hm1 Hoe)
    as (mem2 & Hm2 & [[Hno E2]|(e & m2 & He0 & He & Hf2 & E2)]); rewrite (bind_run _ _ _ _ _ E2).
  - destruct (grp_free_run (set_es_mem mem2 s1) F g Hf1 Hog) as (m3 & E3 & Hf3).
    eexists. split; [|left; split; [by rewrite (bind_run _ _ _ _ _ E3)|]; split; [done|]]; [done|].
    apply (erel_frame _ _ _ _ s); try done; try apply Hr. intros u g' Hu. cbn. rewrite delete_insert_id by done. done.
  - destruct (r_all _ _ _ _ _ Hr) as (gl & HF & Hgl).
    assert (Hnil : <[LEvents g := []]> (gheads g (<[LGrp g := []]> F)) = gheads g (<[LGrp g := []]> F))
      by (apply insert_id; unfold gheads; by simplify_map_eq).
    destruct (grp_add_run s1 F g [] gl) as (m0 & _ & Hf0); [by rewrite Hnil|apply Hog; auto|set_solver|done|].
    rewrite insert_id in Hf0 by (unfold gheads; by simplify_map_eq).
    set (s2 := set_es_links m2 _) in *.
    destruct (grp_add_run s2 F g [LEvt e] gl Hf2) as (m3 & E3 & Hf3); [apply Hog; auto|set_solver|done|].
    eexists. split; [|right; exists e, g, (<[LGrps := LGrp g :: (LGrp <$> gl)]> (gheads g F)), (set_es_links m0 s1); split; [by rewrite (bind_run _ _ _ _ _ E3)|]]; [done|].
    split; try done; cbn.
    + by eapply (erel_newgrp X G F a s).
    + apply lookup_insert_eq.
    + apply lookup_insert_eq.
    + unfold lists, gheads. by simplify_map_eq.
    + intros i. unfold triggered. cbn. rewrite !elem_of_nil. split; [naive_solver|]. intros (ae & Ha & <-).
      destruct (evt_at _ _ _ _ _ _ _ Hr Ha) as (? & ? & ? & ? & ? & _ & ? & _). congruence.
Qed.

(** The new event gets an identifier, or is freed. *)
Definition publish (e : nat) : M estate Z :=
  id ← mapping_create alloc_page (Z.of_nat e);
  upd_evt e (set_e_extern_id id);;
  if id <? 0 then evt_free_ e;; mret (- ENOMEM) else mret id.

Lemma publish_run X G F a s0 t g e ag idle s : fresh_pages alloc_page → made X G F a s0 t g e ag idle s →
  ∃ s', es_woken s' = es_woken s ∧
  ((∃ id X' F', publish e s = Done id s' ∧ a_evts a !! id = None ∧ 0 < id < 2 ^ 19 ∧
      erel X' G F' (put_evt id (MkAe t 0 false) a) s') ∨
   publish e s = Done (- ENOMEM) s' ∧ no_room a ∧ erel X G F a s').
Proof.
  intros Hfp [Hr Hg Hag Hl Hall He0 He Hev Hgr Hmap Hmem Hf]. unfold publish.
  pose proof (r_map _ _ _ _ _ Hr) as Hrep. rewrite <- Hmap in Hrep.
  destruct (map_add_step 0 alloc_page Hfp _ _ (Z.of_nat e) Hrep) as (r & ms' & used & E & Hst & Hrep'); [lia|].
  unfold mapping_create. rewrite (bind_run _ _ _ _ _ (on_map_run _ _ _ _ E)).
  erewrite bind_run; [|apply upd_evt_run; cbn; rewrite Hev; apply lookup_insert_eq].
  inversion Hst as [? id Hu Hid|? Hfull| | |]; subst.
  - apply lookup_insert_None in Hu as [Hu Hr0]. rewrite lookup_fmap, fmap_None in Hu.
    rewrite (proj2 (Z.ltb_ge _ _)) by lia. eexists. split; [|left; eexists _, (<[r := e]> X), _; split; [reflexivity|]; split; [|split; [lia|]]].
    + done.
    + destruct (a_evts a !! r) eqn:Ea; [|done]. destruct (proj2 (r_Xdom _ _ _ _ _ Hr r)) as [? ?]; [by eexists|congruence].
    + eapply (erel_new X G F a s0 _ r e t g ag idle); try done; try congruence; cbn.
      * by rewrite Hev, insert_insert_eq.
      * by rewrite fmap_insert, insert_insert_ne by congruence.
  - cbn [Z.ltb Z.compare]. set (s1 := set_es_evts _ _).
    destruct (es_REM (set_es_evts (<[e := MkEvt EVT_INACTIVE 0 (-1) None]> (es_evts s1)) s1) _ (LEvents g) [] (LEvt e) (loc X <$> idle) Hf)
      as (m' & Hrem & Hf' & _ & Ho); [by rewrite lookup_insert_eq|]. cbn [app] in Hf', Ho.
    rewrite insert_insert_eq, insert_id in Hf', Ho by apply Hl.
    erewrite bind_run; [|eapply evt_free_run; [cbn; rewrite Hev; apply lookup_insert_eq|reflexivity|exact Hrem]].
    eexists. split; [|right; split; [reflexivity|]; split]; [done| |].
    + destruct Hfull as [|Hall']; [right; by left|right; right]. intros id Hid. apply (r_Xdom _ _ _ _ _ Hr).
      destruct (Hall' id) as [v Hv]; [lia|]. rewrite lookup_insert_ne, lookup_fmap in Hv by lia.
      destruct (X !! id); [by eexists|done].
    + apply (erel_frame X G F a s0); cbn; try done.
      * by intros ? ? _; rewrite Hgr.
      * intros i e' Hi. rewrite Hev, !insert_insert_eq, delete_insert_id by done. done.
      * by apply fam_free.
Qed.

Lemma create_run X G F a s thd sp : fresh_pages alloc_page → erel X G F a s → 0 < thd < 2 ^ 16 →
  ∃ r w s' a' X' G' F', evt_create alloc_page thd sp s = Done r s' ∧ es_woken s' = w ++ es_woken s ∧
    astep a (OCreate thd sp) (Some r) w a' ∧ erel X' G' F' a' s'.
Proof.
  intros Hfp Hr Hthd. unfold evt_create. assert (u16 thd = thd) as -> by (unfold u16; apply Z.mod_small; lia).
  destruct (a_grps a !! thd) as [ag|] eqn:Hag.
  - destruct (proj2 (r_Gdom _ _ _ _ _ Hr thd)) as [g Hg]; [by eexists|].
    destruct (create_in_run _ _ _ _ _ _ _ _ Hr Hg Hag) as (s1 & Hw1 & [(E1 & Hno & Hr1)|(e & idle & E1 & Hm)]);
      (erewrite bind_run; [|unfold create_event; rewrite (bind_run _ _ _ _ _ (grp_find_run _ _ _ _ _ _ Hr)), Hg; exact E1]).
    + exists (- ENOMEM), [], s1, a, X, G, F. repeat (split; [done|]). split; [constructor; by left|done].
    + destruct (publish_run _ _ _ _ _ _ _ _ _ _ _ Hfp Hm) as (s2 & Hw2 & [(id & X' & F' & E2 & Hn & Hid & Hr2)|(E2 & Hno & Hr2)]).
      * exists id, [], s2. eexists _, X', G, F'. split; [exact E2|]. split; [by rewrite Hw2|]. split; [by constructor|].
        rewrite Hag. unfold put_evt in Hr2. cbn. by rewrite (insert_id (a_grps a)).
      * exists (- ENOMEM), [], s2, a, X, G, F. split; [exact E2|]. split; [by rewrite Hw2|]. split; [by constructor|done].
  - destruct (G !! thd) as [g|] eqn:Hg. { destruct (proj1 (r_Gdom _ _ _ _ _ Hr thd)); [by eexists|congruence]. }
    destruct (create_grp_run _ _ _ _ _ sp _ Hr Hg Hthd) as (s1 & Hw1 & [(E1 & Hno & Hr1)|(e & g & F1 & s0 & E1 & Hm)]);
      rewrite (bind_run _ _ _ _ _ E1).
    + exists (- ENOMEM), [], s1, a, X, G, F. repeat (split; [done|]). split; [constructor; by left|done].
    + destruct (publish_run _ _ _ _ _ _ _ _ _ _ _ Hfp Hm) as (s2 & Hw2 & [(id & X' & F' & E2 & Hn & Hid & Hr2)|(E2 & Hno & Hr2)]).
      * exists id, [], s2. eexists _, X', _, F'. split; [exact E2|]. split; [by rewrite Hw2|]. split; [by constructor|].
        by rewrite Hag.
      * exists (- ENOMEM), [], s2. eexists _, X, _, F1. split; [exact E2|]. split; [by rewrite Hw2|]. split; [by apply as_create_part|done].
Qed.

(** ** The component *)

Lemma init_run_ev s : is_page (vs_mem (ms_data (es_map s))) (v_vect (vs_v (ms_data (es_map s)))) →
  is_Some (es_links s !! LGrps) → es_mem s = mem0 →
  ∃ s', init_evts alloc_page s = Done tt s' ∧ es_woken s' = es_woken s ∧ erel ∅ ∅ {[LGrps := []]} no_events s'.
Proof.
  intros Hp Hl Hm. unfold init_evts. destruct (map_init_free 0 _ Hp) as (m1 & E1 & Hr1).
  rewrite (bind_run _ _ _ _ _ (on_map_run _ _ _ _ E1)). rewrite seqZ_cons in Hr1 by lia.
  destruct (map_add_free 0 alloc_page _ _ _ _ 0 Hr1) as (m2 & E2 & Hr2 & _).
  unfold mapping_create. erewrite bind_run; [|apply on_map_run; exact E2]. cbn [Z.eqb]. mrun.
  destruct (es_INIT (set_es_map m2 (set_es_map m1 s)) ∅ LGrps) as (m' & E3 & Hf & _); [|done|done|].
  { split; [by rewrite map_to_list_empty; constructor|by rewrite map_to_list_empty; constructor]. }
  eexists. split; [exact E3|]. split; [done|]. split; cbn; try done.
  - eexists. rewrite fmap_empty. exact Hr2.
  - intros id. rewrite !lookup_empty. split; by intros [].
  - intros t. rewrite !lookup_empty. split; by intros [].
  - exists []. rewrite lookup_singleton_eq. split; [done|]. intros g. rewrite elem_of_nil. split; [done|by intros []].
  - intros h l [<- _]%lookup_singleton_Some. by left.
  - by rewrite Hm.
Qed.

Lemma put_Some {A} (m : gmap Z A) i j x y : <[i := x]> m !! j = Some y → (i = j ∧ x = y) ∨ (i ≠ j ∧ m !! j = Some y).
Proof. apply lookup_insert_Some. Qed.

Lemma first_event_sub g id g' : first_event g = Some (id, g') →
  ag_blocked g' = false ∧ triggered g id ∧ ∀ i, triggered g' i → triggered g i.
Proof.
  unfold first_event, triggered. destruct (ag_q g 0) as [|i q] eqn:E0; [destruct (ag_q g 1) as [|i q] eqn:E1; [done|]|];
    intros [= <- <-]; cbn; (split; [done|]); repeat case_decide; rewrite ?E0, ?E1; set_solver.
Qed.

(** The first clause of [calm] at one event and group. *)
Lemma calm_queues a t ag' : calm a → (∀ ag, a_grps a !! t = Some ag → ∀ i ae, a_evts a !! i = Some ae → ae_tid ae = t →
    ae_blocked ae = true → triggered ag' i → triggered ag i) → is_Some (a_grps a !! t) ∨ (∀ i, ¬ triggered ag' i) →
  (ag_blocked ag' = true → ag_q ag' 0 = [] ∧ ag_q ag' 1 = []) → calm (put_grp t ag' a).
Proof.
  intros [H1 H2] Hsub Hsome Hb. split; cbn.
  - intros id ae ag Ha [[Et <-]|[_ Hg]]%put_Some Hbl; [|by eapply H1]. intros Ht. symmetry in Et.
    destruct Hsome as [[ag0 Hg0]|Hn]; [|by eapply Hn]. eapply (H1 id ae ag0); [done|by rewrite Et|done|]. by eapply Hsub.
  - intros u ag [[<- <-]|[_ Hg]]%put_Some; [done|]. by eapply H2.
Qed.

Lemma calm_evt a id ae' : calm a → (ae_blocked ae' = true → ∀ ag, a_grps a !! ae_tid ae' = Some ag → ¬ triggered ag id) →
  calm (put_evt id ae' a).
Proof.
  intros [H1 H2] He. split; cbn; [|done]. intros i ae ag [[<- <-]|[_ Ha]]%put_Some Hg Hb; [by apply He|by eapply H1].
Qed.

Lemma calm_step a o r w a' : astep a o r w a' → calm a → calm a'.
Proof.
  intros Hs Hc. pose proof Hc as [H1 H2]. destruct Hs as [thd sp id Hn Hid| | |id e g He Hg| |id e g He Hg| |id e g He Hg Ht|id e g He Hg Ht
    | | |thd g id g' Hg Hf|thd g Hg Hf| |id e prio He Hp|]; try done.
  - apply (calm_evt (put_grp thd (default grp0 (a_grps a !! thd)) a)); [|done]. apply calm_queues; [done| | |].
    + intros ag Hag i ae _ _ _. by rewrite Hag.
    + destruct (a_grps a !! thd); [left; by eexists|right]. intros i. unfold triggered. cbn. rewrite !elem_of_nil. tauto.
    + destruct (a_grps a !! thd) eqn:E; cbn; [by eapply H2|done].
  - apply calm_queues; [done|..]; unfold triggered; cbn; [|right|done]; intros; rewrite !elem_of_nil in *; tauto.
  - change (MkAg (ag_blocked g) _) with (unq id g). assert (Hc' : calm (put_grp (ae_tid e) (unq id g) a)).
    { apply calm_queues; [done| |left; by eexists|].
      - intros ag Hag i ae _ _ _. rewrite triggered_unq. naive_solver congruence.
      - cbn. intros Hb. destruct (H2 _ _ Hg Hb) as [-> ->]. done. }
    destruct Hc' as [H1' H2']. split; cbn in *; [|done]. intros i ae ag [_ Hi]%lookup_delete_Some. by apply H1'.
  - set (e' := MkAe _ _ false). change (calm (put_grp (ae_tid e) (MkAg false (λ p, rm id (ag_q g p) ++ if decide (p = ae_prio e) then [id] else [])) (put_evt id e' a))).
    apply calm_queues; [by apply calm_evt| |left; by eexists|done]. cbn.
    intros ag Hag i ae [[<- <-]|[Hne Hi]]%put_Some _ Hb; [done|]. unfold triggered. cbn.
    rewrite !elem_of_app, !elem_of_rm. assert (ag = g) as -> by congruence. repeat case_decide; set_solver.
  - change (MkAg (ag_blocked g) _) with (unq id g). apply calm_queues; [done| |left; by eexists|].
    + intros ag Hag i ae _ _ _. rewrite triggered_unq. naive_solver congruence.
    + cbn. intros Hb. destruct (H2 _ _ Hg Hb) as [-> ->]. done.
  - apply calm_evt; [done|]. cbn. intros _ ag Hag. congruence.
  - destruct (first_event_sub _ _ _ Hf) as (Hb & _ & Hsub). apply calm_queues; [done| |left; by eexists|congruence].
    intros ag Hag i ae _ _ _. assert (ag = g) as -> by congruence. apply Hsub.
  - apply calm_queues; [done| |left; by eexists|].
    + intros ag Hag i ae _ _ _. unfold triggered. cbn. congruence.
    + cbn. intros _. unfold first_event in Hf. by destruct (ag_q g 0), (ag_q g 1).
  - apply calm_evt; [done|]. cbn. intros Hb ag Hag. by eapply H1.
Qed.

Definition evt_rep a s : Prop := calm a ∧ ∃ X G F, erel X G F a s.

Definition simulated a s (o : eop) : Prop := ∃ r w s' a' X G F,
  eop_run o s = Done r s' ∧ es_woken s' = w ++ es_woken s ∧ astep a o r w a' ∧ erel X G F a' s'.

Lemma X_none X G F a s id : erel X G F a s → a_evts a !! id = None → X !! id = None.
Proof.
  intros Hr Ha. destruct (X !! id) eqn:E; [|done]. destruct (proj1 (r_Xdom _ _ _ _ _ Hr id)); [by eexists|congruence].
Qed.

Lemma nothing a s o r X G F : erel X G F a s → eop_run o s = Done r s → astep a o r [] a → simulated a s o.
Proof. intros Hr E Hs. exists r, [], s, a, X, G, F. done. Qed.

Lemma trigger_sim X G F a s id : erel X G F a s → calm a → - 2 ^ 30 ≤ id < 2 ^ 30 → simulated a s (OTrigger id).
Proof.
  intros Hr Hc Hid. destruct (a_evts a !! id) as [ae|] eqn:Ha.
  - destruct (trigger_run _ _ _ _ _ _ _ Hr Hc Hid Ha) as (ag & s' & F' & Hag & E & Hw & Hr').
    eexists _, _, s', _, X, G, F'. split; [cbn; by rewrite (bind_run _ _ _ _ _ E)|]. split; [exact Hw|].
    split; [by constructor|done].
  - apply (nothing a s _ (Some (-1)) _ _ _ Hr); [|by constructor]. cbn. unfold evt_trigger.
    erewrite bind_run; [|by rewrite (bind_run _ _ _ _ _ (find_run _ _ _ _ _ _ Hr Hid)), (X_none _ _ _ _ _ _ Hr Ha)]. done.
Qed.

Lemma free_sim X G F a s id : erel X G F a s → - 2 ^ 30 ≤ id < 2 ^ 30 → simulated a s (OFree id).
Proof.
  intros Hr Hid. destruct (a_evts a !! id) as [ae|] eqn:Ha.
  - destruct (free_run _ _ _ _ _ _ _ Hr Hid Ha) as (ag & s' & F' & Hag & E & Hw & Hr').
    eexists _, [], s', _, _, G, F'. split; [cbn; by rewrite (bind_run _ _ _ _ _ E)|]. split; [exact Hw|].
    split; [by apply (as_free a id ae ag)|done].
  - apply (nothing a s _ (Some 0) _ _ _ Hr); [|by constructor]. cbn. unfold evt_free.
    erewrite bind_run; [|by rewrite (bind_run _ _ _ _ _ (find_run _ _ _ _ _ _ Hr Hid)), (X_none _ _ _ _ _ _ Hr Ha)]. done.
Qed.

Lemma wait_sim X G F a s thd id : erel X G F a s → eop_ok a (OWait thd id) → simulated a s (OWait thd id).
Proof.
  intros Hr [Hid Hb]. destruct (a_evts a !! id) as [ae|] eqn:Ha.
  - destruct (evt_at _ _ _ _ _ _ _ Hr Ha) as (e & g & ag & sp & idle & He & Hg & Hag & Hev & Hp & Hgs & Hl & Hall).
    destruct (Hb ae eq_refl) as [Hb1 Hb2]. specialize (Hb2 _ Hag). destruct (decide (ae_tid ae = thd)) as [<-|Hne].
    + destruct (wait_run _ _ _ _ _ _ _ _ Hr Hid Ha Hag Hb1 Hb2) as (s' & F' & Hw & Hcase). case_decide as Ht; destruct Hcase as [E Hr'].
      * exists (Some 0), [], s'. eexists _, X, G, F'. do 2 (split; [done|]). split; [by apply (as_wait a id ae ag)|done].
      * exists None, [], s'. eexists _, X, G, F'. do 2 (split; [done|]). split; [by apply (as_wait_block a id ae ag)|done].
    + apply (nothing a s _ (Some (-1)) _ _ _ Hr); [|by eapply as_wait_other]. cbn. unfold evt_wait.
      rewrite (bind_run _ _ _ _ _ (find_run _ _ _ _ _ _ Hr Hid)), He. erewrite bind_run; [|erewrite evt_read_run;
        [|exact Hev|done|exact Hgs|cbn; rewrite st_idle by done; by case_decide|cbn; unfold gst; by rewrite Hb2];
        cbn [g_tid]; rewrite (proj2 (Z.eqb_neq thd (ae_tid ae))) by congruence; reflexivity]. done.
  - apply (nothing a s _ (Some (-1)) _ _ _ Hr); [|by constructor]. cbn. unfold evt_wait.
    by rewrite (bind_run _ _ _ _ _ (find_run _ _ _ _ _ _ Hr Hid)), (X_none _ _ _ _ _ _ Hr Ha).
Qed.

Lemma grp_wait_sim X G F a s thd : erel X G F a s → calm a → 0 < thd < 2 ^ 16 → simulated a s (OGrpWait thd).
Proof.
  intros Hr Hc Hthd. destruct (a_grps a !! thd) as [ag|] eqn:Hag.
  - destruct (grp_wait_run _ _ _ _ _ _ _ Hr Hc Hthd Hag) as (s' & F' & Hw & Hcase).
    destruct (first_event ag) as [[id ag']|] eqn:Hf; destruct Hcase as [E Hr'].
    + exists (Some id), [], s'. eexists _, X, G, F'. do 2 (split; [done|]). split; [by eapply as_grp_wait|done].
    + exists None, [], s'. eexists _, X, G, F'. do 2 (split; [done|]). split; [by eapply as_grp_wait_block|done].
  - apply (nothing a s _ (Some (-1)) _ _ _ Hr); [|by constructor]. cbn. unfold evt_grp_wait.
    assert (u16 thd = thd) as -> by (unfold u16; apply Z.mod_small; lia).
    rewrite (bind_run _ _ _ _ _ (grp_find_run _ _ _ _ _ _ Hr)). destruct (G !! thd) eqn:Hg; [|done].
    destruct (proj1 (r_Gdom _ _ _ _ _ Hr thd)); [by eexists|congruence].
Qed.

Lemma prio_sim X G F a s id prio : erel X G F a s → - 2 ^ 30 ≤ id < 2 ^ 30 → 0 ≤ prio → simulated a s (OSetPrio id prio).
Proof.
  intros Hr Hid Hp. destruct (Z.leb_spec EVT_NUM_PRIOS prio) as [Hge|Hlt].
  { apply (nothing a s _ (Some (-1)) _ _ _ Hr); [|constructor; by right]. cbn. unfold evt_set_prio. by rewrite (proj2 (Z.leb_le _ _)). }
  destruct (a_evts a !! id) as [ae|] eqn:Ha.
  - destruct (set_prio_run _ _ _ _ _ _ _ prio Hr Hid (conj Hp Hlt) Ha) as (s' & E & Hw & Hr').
    eexists _, [], s', _, X, G, F. split; [cbn; by rewrite (bind_run _ _ _ _ _ E)|]. split; [exact Hw|]. split; [by constructor|done].
  - apply (nothing a s _ (Some (-1)) _ _ _ Hr); [|constructor; by left]. cbn. unfold evt_set_prio. rewrite (proj2 (Z.leb_gt _ _)) by lia.
    erewrite bind_run; [|by rewrite (bind_run _ _ _ _ _ (find_run _ _ _ _ _ _ Hr Hid)), (X_none _ _ _ _ _ _ Hr Ha)]. done.
Qed.

Lemma eop_step a s o : fresh_pages alloc_page → evt_rep a s → eop_ok a o →
  ∃ r w s' a', eop_run o s = Done r s' ∧ es_woken s' = w ++ es_woken s ∧ astep a o r w a' ∧ evt_rep a' s'.
Proof.
  intros Hfp (Hc & X & G & F & Hr) Hok. assert (Hsim : simulated a s o).
  { destruct o as [thd sp|id|id|thd id|thd|id prio]; cbn in Hok.
    - destruct (create_run _ _ _ _ _ _ sp Hfp Hr Hok) as (r & w & s' & a' & X' & G' & F' & E & Hw & Hs & Hr').
      exists (Some r), w, s', a', X', G', F'. split; [cbn; by rewrite (bind_run _ _ _ _ _ E)|done].
    - by eapply free_sim. - by eapply trigger_sim. - by eapply wait_sim. - by eapply grp_wait_sim. - by eapply prio_sim; naive_solver. }
  destruct Hsim as (r & w & s' & a' & X' & G' & F' & E & Hw & Hs & Hr'). exists r, w, s', a'. do 3 (split; [done|]).
  split; [by eapply calm_step|by exists X', G', F'].
Qed.

(** A thread that waits for any of its events is woken by the first trigger. *)
Lemma blocked_step a o r w a' t ag : astep a o r w a' → calm a → a_grps a !! t = Some ag → ag_blocked ag = true →
  (∃ ag', a_grps a' !! t = Some ag' ∧ ag_blocked ag' = true ∧ t ∉ w) ∨
  ∃ id ae, o = OTrigger id ∧ a_evts a !! id = Some ae ∧ ae_tid ae = t ∧ w = [t].
Proof.
  intros Hs Hc Ht Hb. pose proof (proj2 Hc _ _ Ht Hb) as [Hq0 Hq1].
  assert (Hstay : ∀ ev u g', (u = t → ag_blocked g' = true) →
    ∃ ag', a_grps (MkA ev (<[u := g']> (a_grps a))) !! t = Some ag' ∧ ag_blocked ag' = true ∧ t ∉ []).
  { intros ev u g' Hu. cbn. rewrite lookup_insert. case_decide; [subst|]; eexists; (split; [done|]); (split; [auto|apply not_elem_of_nil]). }
  destruct Hs as [thd sp id Hn Hid| | |id e g He Hg| |id e g He Hg| |id e g He Hg Htr|id e g He Hg Htr
    | | |thd g id g' Hg Hf|thd g Hg Hf| |id e prio He Hp|];
    try (left; exists ag; split; [done|]; split; [done|apply not_elem_of_nil]).
  - left. apply Hstay. intros ->. by rewrite Ht.
  - left. apply Hstay. congruence.
  - left. apply Hstay. intros <-. cbn. congruence.
  - destruct (decide (ae_tid e = t)) as [<-|Hne].
    + right. exists id, e. assert (g = ag) as -> by congruence. by rewrite Hb, orb_true_r.
    + left. exists ag. cbn. rewrite lookup_insert_ne by done. do 2 (split; [done|]).
      destruct (ae_blocked e || ag_blocked g); set_solver.
  - left. apply Hstay. intros <-. cbn. congruence.
  - left. apply Hstay. intros ->. assert (g = ag) as -> by congruence. unfold first_event in Hf. by rewrite Hq0, Hq1 in Hf.
  - left. by apply Hstay.
Qed.

Lemma only_event ag id p : p = 0 ∨ p = 1 → ag_q ag 0 = [] → ag_q ag 1 = [] →
  ∃ ag', first_event (MkAg false (λ p', rm id (ag_q ag p') ++ if decide (p' = p) then [id] else [])) = Some (id, ag').
Proof.
  intros Hp H0 H1. unfold first_event. cbn [ag_q]. rewrite H0, H1. cbn [rm filter list_filter app].
  destruct Hp as [-> | ->]; eexists; reflexivity.
Qed.

Lemma trigger_wakes a s id ae ag : evt_rep a s → - 2 ^ 30 ≤ id < 2 ^ 30 → a_evts a !! id = Some ae →
  a_grps a !! ae_tid ae = Some ag → ag_blocked ag = true →
  ∃ s1 s2 a1, eop_run (OTrigger id) s = Done (Some 0) s1 ∧ evt_rep a1 s1 ∧ es_woken s1 = ae_tid ae :: es_woken s ∧
    evt_grp_wait (ae_tid ae) s1 = Done (Some id) s2.
Proof.
  intros (Hc & X & G & F & Hr) Hid Ha Hag Hb.
  destruct (trigger_run _ _ _ _ _ _ _ Hr Hc Hid Ha) as (ag1 & s1 & F1 & Hag1 & E & Hw & Hr1).
  assert (ag1 = ag) as -> by congruence. rewrite Hb, orb_true_r in Hw.
  destruct (evt_at _ _ _ _ _ _ _ Hr Ha) as (e & g & ag1 & sp & idle & _ & Hg & _ & _ & Hp & _).
  destruct (only_event ag id (ae_prio ae)) as [ag' Hf]; [unfold EVT_NUM_PRIOS in Hp; lia|by eapply (proj2 Hc)..|].
  pose proof (calm_step _ _ _ _ _ (as_trigger a id ae ag Ha Hag) Hc) as Hc1.
  destruct (grp_wait_run _ _ _ _ _ (ae_tid ae) _ Hr1 Hc1 (r_Gtid _ _ _ _ _ Hr _ _ Hg) (lookup_insert_eq _ _ _)) as (s2 & F2 & _ & Hcase).
  rewrite Hf in Hcase. destruct Hcase as [E2 _].
  exists s1, s2. eexists. split; [cbn; by rewrite (bind_run _ _ _ _ _ E)|]. split; [split; [exact Hc1|by exists X, G, F1]|done].
Qed.

(** ** Taking several events *)

(** The first [n] events, and the queues without them. *)
Fixpoint take_events (n : nat) (ag : agrp) : list Z * agrp :=
  match n with
  | O => ([], ag)
  | S n => match first_event ag with
           | None => ([], ag)
           | Some (id, ag') => let '(ids, ag'') := take_events n ag' in (id :: ids, ag'')
           end
  end.

Lemma take_events_S n ag : take_events (S n) ag =
  match first_event ag with
  | None => ([], ag)
  | Some (id, ag') => let '(ids, ag'') := take_events n ag' in (id :: ids, ag'')
  end.
Proof. done. Qed.

Lemma take_events_none n ag : (0 < n)%nat → take_events n ag = ([], ag) ↔ first_event ag = None.
Proof. destruct n; [lia|]. intros _. cbn. destruct (first_event ag) as [[id ag']|]; [|done]. by destruct (take_events n ag'). Qed.

Lemma noblock_run X G F a s t ag : erel X G F a s → calm a → a_grps a !! t = Some ag → ∃ g, G !! t = Some g ∧
  match first_event ag with
  | None => evt_grp_read_noblock t g s = Done (0, None) s
  | Some (id, ag') => ∃ e x s' F', evt_grp_read_noblock t g s = Done (0, Some e) s' ∧ es_woken s' = es_woken s ∧
      es_evts s' !! e = Some x ∧ e_extern_id x = id ∧ erel X G F' (put_grp t ag' a) s' ∧ calm (put_grp t ag' a)
  end.
Proof.
  intros Hr Hc Hag. destruct (proj2 (r_Gdom _ _ _ _ _ Hr t)) as [g Hg]; [by eexists|]. exists g. split; [done|].
  destruct (r_grp _ _ _ _ _ Hr _ _ _ Hg Hag) as (sp & idle & Hgs & Hl & Hall).
  pose proof (read_run _ _ _ _ _ _ _ _ _ _ Hr Hg Hag Hgs Hl Hall Hc) as Hread.
  unfold evt_grp_read_noblock. rewrite (bind_run _ _ _ _ _ (get_grp_run _ _ _ Hgs)). cbn [g_tid].
  rewrite Z.eqb_refl. cbn [negb]. change (Z.to_nat EVT_NUM_PRIOS) with 2%nat. destruct (first_event ag) as [[id ag']|] eqn:Hf.
  - destruct Hread as (e & x & s' & F' & Hrd & Hw & Hx & Hid & Hr'). exists e, x, s', F'.
    split; [by rewrite (bind_run _ _ _ _ _ Hrd)|]. do 4 (split; [done|]). eapply calm_step; [|exact Hc]. by eapply (as_grp_wait a t ag).
  - by rewrite (bind_run _ _ _ _ _ Hread).
Qed.

Lemma filled (data : list Z) k id ids : (k < length data)%nat →
  take (S k) (<[k := id]> data) ++ ids ++ drop (S k + length ids) (<[k := id]> data) =
  take k data ++ (id :: ids) ++ drop (k + length (id :: ids)) data.
Proof.
  intros Hk. rewrite (take_S_r _ _ id) by (by apply list_lookup_insert_eq).
  rewrite take_insert_ge by lia. rewrite drop_insert_lt by lia. rewrite <- app_assoc. cbn [app length].
  by replace (k + S (length ids))%nat with (S k + length ids)%nat by lia.
Qed.

(** One round of the loop that finds an event. *)
Lemma gather_found fuel t g data k s e x s1 : (k < length data)%nat →
  evt_grp_read_noblock t g s = Done (0, Some e) s1 → es_evts s1 !! e = Some x →
  gather (S fuel) t g data (Z.of_nat (length data)) (Z.of_nat k) s =
    (if decide (S k = length data) then Done (0, <[k := e_extern_id x]> data, Z.of_nat (S k)) s1
     else gather fuel t g (<[k := e_extern_id x]> data) (Z.of_nat (length data)) (Z.of_nat (S k)) s1).
Proof.
  intros Hk E Hx. cbn [gather]. rewrite (bind_run _ _ _ _ _ E). cbn [Z.eqb negb].
  rewrite (bind_run _ _ _ _ _ (read_evt_run _ _ _ Hx)). unfold zlookup, zinsert.
  rewrite (proj2 (Z.ltb_ge (Z.of_nat k) 0)) by lia. rewrite Nat2Z.id.
  destruct (lookup_lt_is_Some_2 data k Hk) as [v ->]. mrun. replace (Z.of_nat k + 1) with (Z.of_nat (S k)) by lia.
  destruct (Z.ltb_spec (Z.of_nat (S k)) (Z.of_nat (length data))); case_decide; done || lia.
Qed.

Lemma gather_run X G t g n : G !! t = Some g → ∀ F a s ag data k,
  erel X G F a s → calm a → a_grps a !! t = Some ag → length data = (k + S n)%nat →
  ∃ s' F' ids ag', take_events (S n) ag = (ids, ag') ∧ es_woken s' = es_woken s ∧
    gather (S (S n)) t g data (Z.of_nat (length data)) (Z.of_nat k) s =
      Done (0, take k data ++ ids ++ drop (k + length ids) data, Z.of_nat (k + length ids)) s' ∧
    erel X G F' (put_grp t ag' a) s' ∧ calm (put_grp t ag' a).
Proof.
  intros Hg. induction n as [|n IH]; intros F a s ag data k Hr Hc Hag Hlen;
    (destruct (noblock_run _ _ _ _ _ _ _ Hr Hc Hag) as (g1 & Hg1 & Hread); assert (g1 = g) as -> by congruence);
    (destruct (first_event ag) as [[id ag1]|] eqn:Hf;
      [|exists s, F, [], ag; rewrite take_events_S, Hf; do 2 (split; [done|]); split; [|by rewrite put_grp_id];
        cbn [gather]; rewrite (bind_run _ _ _ _ _ Hread); cbn; by rewrite Nat.add_0_r, take_drop]);
    destruct Hread as (e & x & s1 & F1 & Hrd & Hw & Hx & Hid & Hr1 & Hc1);
    (assert (Hk : (k < length data)%nat) by lia); rewrite (gather_found _ _ _ _ _ _ _ _ _ Hk Hrd Hx), Hid.
  - exists s1, F1, [id], ag1. rewrite take_events_S, Hf. do 2 (split; [done|]). split; [|done]. rewrite decide_True by lia.
    rewrite <- (filled data k id []) by lia. rewrite app_nil_l, Nat.add_0_r, take_drop. cbn [length]. do 2 f_equal. lia.
  - rewrite decide_False by lia.
    destruct (IH F1 _ s1 ag1 (<[k := id]> data) (S k) Hr1 Hc1) as (s2 & F2 & ids & ag2 & Ht & Hw2 & E2 & Hr2 & Hc2).
    { apply lookup_insert_eq. } { rewrite length_insert. lia. }
    exists s2, F2, (id :: ids), ag2. rewrite take_events_S, Hf, Ht. split; [done|]. split; [by rewrite Hw2|].
    rewrite length_insert in E2. rewrite E2, filled by lia. unfold put_grp in Hr2, Hc2 |- *. cbn in Hr2, Hc2.
    rewrite insert_insert_eq in Hr2, Hc2. split; [|done]. cbn [length]. do 2 f_equal. lia.
Qed.

Lemma mult_wait_run a s thd ag data : evt_rep a s → 0 < thd < 2 ^ 16 → a_grps a !! thd = Some ag → data ≠ [] →
  ∃ s' ids ag', take_events (length data) ag = (ids, ag') ∧ es_woken s' = es_woken s ∧
    if decide (ids = [])
    then evt_grp_mult_wait thd true data s = Done None s' ∧ evt_rep (put_grp thd (MkAg true (ag_q ag)) a) s'
    else evt_grp_mult_wait thd true data s = Done (Some (Z.of_nat (length ids), ids ++ drop (length ids) data)) s' ∧
         evt_rep (put_grp thd ag' a) s'.
Proof.
  intros (Hc & X & G & F & Hr) Hthd Hag Hdata. destruct (proj2 (r_Gdom _ _ _ _ _ Hr thd)) as [g Hg]; [by eexists|].
  destruct data as [|v vs] eqn:Ed; [done|]. rewrite <- Ed.
  destruct (gather_run X G thd g (length vs) Hg F a s ag data 0 Hr Hc Hag) as (s1 & F1 & ids & ag1 & Ht & Hw & E & Hr1 & Hc1);
    [by subst data|].
  assert (Hln : length data = S (length vs)) by (by subst data). rewrite <- Hln in Ht, E.
  unfold evt_grp_mult_wait. cbn [negb]. assert (u16 thd = thd) as -> by (unfold u16; apply Z.mod_small; lia).
  rewrite (bind_run _ _ _ _ _ (grp_find_run _ _ _ _ _ _ Hr)), Hg. change (Z.of_nat 0) with 0 in E. cbn [take app Nat.add] in E.
  rewrite (bind_run _ _ _ _ _ E). cbn [Z.eqb negb]. destruct (decide (ids = [])) as [->|Hne].
  - change (0 <? Z.of_nat (length [])) with false. cbn match.
    assert (first_event ag = None ∧ ag1 = ag) as [Hf ->].
    { rewrite Hln, take_events_S in Ht. destruct (first_event ag) as [[id ag2]|]; [by destruct (take_events _ ag2)|]. by injection Ht. }
    rewrite put_grp_id in Hr1, Hc1 by done. destruct (noblock_run _ _ _ _ _ _ _ Hr1 Hc1 Hag) as (g1 & Hg1 & Hread).
    assert (g1 = g) as -> by congruence. rewrite Hf in Hread.
    destruct (r_grp _ _ _ _ _ Hr1 _ _ _ Hg Hag) as (sp & idle & Hgs & _).
    eexists _, [], ag. split; [done|]. split; [|rewrite decide_True by done; split].
    2: { erewrite bind_run; [|unfold evt_grp_read; rewrite (bind_run _ _ _ _ _ Hread); cbn;
           erewrite bind_run; [reflexivity|eapply upd_grp_run; exact Hgs]]. reflexivity. }
    + exact Hw.
    + split; [|exists X, G, F1; by apply (erel_block _ _ _ _ _ _ _ _ _ Hr1 Hg Hag)].
      eapply calm_step; [|exact Hc]. by eapply (as_grp_wait_block a thd ag).
  - exists s1, ids, ag1. do 2 (split; [done|]). rewrite decide_False by done. split; [|split; [done|by exists X, G, F1]].
    rewrite (proj2 (Z.ltb_lt _ _)) by (destruct ids; [done|cbn; lia]). done.
Qed.
End Spec.

(** The state before [init_evts]: the pages of the map, the memory there will be. *)
Definition evt_start (s : estate) (mem : list bool) : Prop :=
  is_page (vs_mem (ms_data (es_map s))) (v_vect (vs_v (ms_data (es_map s)))) ∧
  is_Some (es_links s !! LGrps) ∧ es_mem s = mem.


(** C9. No wakeup is lost: as long as a thread waits for any of its events none
    of them is queued, and each operation leaves it waiting, or triggers one of
    its events; then the thread is woken and its next attempt to wait returns
    that event. *)
Theorem evt_no_lost_wakeup alloc_page mem0 a s o t ag : fresh_pages alloc_page → evt_rep mem0 a s → eop_ok a o →
  a_grps a !! t = Some ag → ag_blocked ag = true →
  ∃ r s' a', eop_run alloc_page o s = Done r s' ∧ evt_rep mem0 a' s' ∧
    ((∃ ag', a_grps a' !! t = Some ag' ∧ ag_blocked ag' = true ∧ ∀ id, ¬ triggered ag' id) ∨
     ∃ id s2, o = OTrigger id ∧ es_woken s' = t :: es_woken s ∧ evt_grp_wait t s' = Done (Some id) s2).
Proof.
  intros Hfp Hrep Hok Ht Hb. destruct (eop_step alloc_page mem0 a s o Hfp Hrep Hok) as (r & w & s' & a' & E & Hw & Hst & Hrep').
  destruct (blocked_step alloc_page mem0 a o r w a' t ag Hst (proj1 Hrep) Ht Hb) as [(ag' & Hag' & Hb' & _)|(id & ae & -> & Ha & <- & ->)].
  - exists r, s', a'. do 2 (split; [done|]). left. exists ag'. do 2 (split; [done|]). intros id.
    unfold triggered. destruct (proj2 (proj1 Hrep') _ _ Hag' Hb') as [-> ->]. rewrite !elem_of_nil. tauto.
  - destruct (trigger_wakes alloc_page mem0 a s id ae ag Hrep Hok Ha Ht Hb) as (s1 & s2 & a1 & E1 & Hr1 & Hw1 & Hg1).
    exists (Some 0), s1, a1. do 2 (split; [done|]). right. by exists id, s2.
Qed.

(** C34. Waiting for several events fills the array with the queued events, the
    most urgent ones first and each in the order of its triggers, until the
    array is full or no event is left; it leaves the rest of the array and of
    the queues, and blocks only when no event is queued. *)
Theorem evt_mult_wait_gathers mem0 a s thd ag data :
  evt_rep mem0 a s → 0 < thd < 2 ^ 16 → a_grps a !! thd = Some ag → data ≠ [] →
  ∃ s' ids ag', take_events (length data) ag = (ids, ag') ∧ es_woken s' = es_woken s ∧
    if decide (ids = [])
    then evt_grp_mult_wait thd true data s = Done None s' ∧ evt_rep mem0 (put_grp thd (MkAg true (ag_q ag)) a) s'
    else evt_grp_mult_wait thd true data s = Done (Some (Z.of_nat (length ids), ids ++ drop (length ids) data)) s' ∧
         evt_rep mem0 (put_grp thd ag' a) s'.
Proof. apply (mult_wait_run (λ _, None)). Qed.

(** ** Examples *)

Definition evt0 : estate := MkEs {[LGrps := (LGrps, LGrps)]} ∅ ∅ (MkMap static_vect 0 0) [] [].

Lemma evt0_start : evt_start evt0 [].
Proof. split; [apply static_page|]. split; [by eexists|done]. Qed.

Lemma any_page_some : ¬ out_of_pages any_page.
Proof. by intros [m Hm]. Qed.

(** A thread created an event and waits. *)
Lemma evt_waiting : ∃ a s id ae ag, evt_rep [] a s ∧ a_evts a !! id = Some ae ∧ ae_tid ae = 5 ∧ 0 < id < 2 ^ 19 ∧
  a_grps a !! 5 = Some ag ∧ ag_blocked ag = true.
Proof.
  destruct evt0_start as (Hp & Hl & Hm). destruct (init_run_ev any_page [] evt0 Hp Hl Hm) as (s0 & _ & _ & Hr0).
  assert (Hrep : evt_rep [] no_events s0).
  { split; [split; cbn; intros *; by rewrite lookup_empty|by eexists _, _, _]. }
  assert (Hnr : ¬ no_room any_page [] no_events).
  { intros [H|[H|H]]; [by apply not_elem_of_nil in H|by apply any_page_some|]. destruct (H 1) as [? Hx]; [lia|]. by cbn in Hx; rewrite lookup_empty in Hx. }
  destruct (eop_step any_page [] no_events s0 (OCreate 5 1) any_page_fresh Hrep) as (r & w & s1 & a1 & _ & _ & Hs1 & Hrep1); [cbn; lia|].
  inversion Hs1 as [? ? id Hn Hid| | | | | | | | | | | | | | |]; subst; [|by destruct Hnr..].
  destruct (eop_step any_page [] _ s1 (OGrpWait 5) any_page_fresh Hrep1) as (r & w & s2 & a2 & _ & _ & Hs2 & Hrep2); [cbn; lia|].
  inversion Hs2 as [| | | | | | | | | | |? g id' g' Hg Hf|? g Hg Hf|? Hg| |]; subst; cbn in Hg; rewrite lookup_insert_eq in Hg;
    try done; injection Hg as <-; [done|].
  eexists _, s2, id, _, _. split; [exact Hrep2|]. cbn. rewrite !lookup_insert_eq. done.
Qed.


Lemma evt_no_lost_wakeup_witness : ∃ a s id r s' a', evt_rep [] a s ∧
  eop_run any_page (OTrigger id) s = Done r s' ∧ evt_rep [] a' s'.
Proof.
  destruct evt_waiting as (a & s & id & ae & ag & Hr & Ha & Ht & Hid & Hag & Hb).
  destruct (evt_no_lost_wakeup any_page [] a s (OTrigger id) 5 ag any_page_fresh Hr) as (r & s' & a' & E & Hr' & _);
    [cbn; lia|done|done|]. exists a, s, id, r, s', a'. exact (conj Hr (conj E Hr')).
Defined.

Lemma evt_mult_wait_gathers_witness : ∃ a s s' r, evt_rep [] a s ∧ evt_grp_mult_wait 5 true [0; 0] s = Done r s'.
Proof.
  destruct evt_waiting as (a & s & id & ae & ag & Hr & Ha & Ht & Hid & Hag & Hb).
  destruct (evt_mult_wait_gathers [] a s 5 ag [0; 0] Hr) as (s' & ids & ag' & _ & _ & Hcase); [lia|done|done|].
  destruct (decide (ids = [])); destruct Hcase as [E _]; eexists a, s, s', _; exact (conj Hr E).
Defined.

(** A negative priority is accepted, and the next trigger of the event indexes
    outside of the lists of its group. *)
Lemma negative_prio_kept s id e x p : mapping_find id s = Done (Some e) s → es_evts s !! e = Some x → p < 0 →
  evt_set_prio id p s = Done 0 (set_es_evts (<[e := set_e_prio p x]> (es_evts s)) s).
Proof.
  intros Hf Hx Hp. unfold evt_set_prio. rewrite (proj2 (Z.leb_gt _ _)) by (unfold EVT_NUM_PRIOS; lia).
  rewrite (bind_run _ _ _ _ _ Hf). by rewrite (bind_run _ _ _ _ _ (upd_evt_run _ _ _ _ Hx)).
Qed.

Lemma negative_prio_faults s e x g y s1 : es_evts s !! e = Some x → e_grp x = Some g → es_grps s !! g = Some y →
  REM_LIST (LEvt e) s = Done tt s1 → e_prio x < 0 → evt_trigger_ e s = Fault OutOfBounds.
Proof.
  intros Hx Hg Hy Hrem Hp. unfold evt_trigger_. rewrite (bind_run _ _ _ _ _ (read_evt_run _ _ _ Hx)), Hg. mrun.
  rewrite (bind_run _ _ _ _ _ (get_grp_run _ _ _ Hy)), (bind_run _ _ _ _ _ Hrem). unfold trig.
  by rewrite (proj2 (Z.leb_gt 0 (e_prio x))) by lia.
Qed.

(** An array without room for one identifier is written to all the same. *)
Lemma no_room_written t g s e x s1 : evt_grp_read_noblock t g s = Done (0, Some e) s1 → es_evts s1 !! e = Some x →
  gather 1 t g [] 0 0 s = Fault OutOfBounds.
Proof.
  intros E Hx. cbn [gather]. rewrite (bind_run _ _ _ _ _ E). cbn [Z.eqb negb].
  by rewrite (bind_run _ _ _ _ _ (read_evt_run _ _ _ Hx)).
Qed.
