(* ===== verification/Lock.v ===== *)
(** * Locks

    Model of the two-phase lock component
    [components/implementation/lock/two_phase/lock.c] and of the client side in
    [components/interface/lock/cos_synchronization.c] and
    [components/include/cos_synchronization.h].  A free lock is taken and
    released in the client's memory with compare-and-exchange; the component is
    invoked to block on a lock that is held and to wake the threads that do.

    The functions of the component run in a critical section of the scheduler,
    so each is one step, up to the point where it blocks.  A client can be
    preempted between any two accesses of the lock's word: its functions are
    given by their steps, and the system is the interleaving of the steps of
    its threads.  Circular lists are lists here, the first element first. *)

From stdpp Require Import base list numbers option gmap.
From S2P Require Import Prelude.
Local Open Scope Z_scope.

Definition TIMER_EVENT_INF : Z := 2 ^ 32 - 1.
Definition TIMER_EXPIRED : Z := -2.

(** ** The component *)

(** [struct blocked_thds], on the stack of the thread that blocks. *)
Record blocked_thds : Type := MkBlk {
  b_thd_id : Z;
  b_timed : bool;
}.

Record meta_lock : Type := MkLock {
  l_owner : Z;
  l_spd : Z;
  l_lock_id : Z;
  l_b_thds : list blocked_thds;
  l_gen_num : Z;
}.

(** The variables [lock_id], [locks] and [generation]. *)
Record lstate : Type := MkL {
  lc_lock_id : Z;
  lc_locks : list meta_lock;
  lc_generation : Z;
}.

Definition set_b_thds (b : list blocked_thds) (m : meta_lock) : meta_lock :=
  MkLock (l_owner m) (l_spd m) (l_lock_id m) b (l_gen_num m).
Definition set_gen_num (g : Z) (m : meta_lock) : meta_lock :=
  MkLock (l_owner m) (l_spd m) (l_lock_id m) (l_b_thds m) g.
Definition set_locks (l : list meta_lock) (s : lstate) : lstate :=
  MkL (lc_lock_id s) l (lc_generation s).
Definition bump (s : lstate) : lstate :=
  MkL (lc_lock_id s) (lc_locks s) (u64 (lc_generation s + 1)).

#[local] Abbreviation L := (M lstate).

(** The loop of [lock_find], which gives the position of the lock. *)
Definition is_lock (id spd : Z) (m : meta_lock) : bool := (l_lock_id m =? id) && (l_spd m =? spd).
Definition find_lock (id spd : Z) (s : lstate) : option nat :=
  fst <$> list_find (λ m, is_lock id spd m = true) (lc_locks s).
Definition lock_find (id spd : Z) : L (option nat) := gets (find_lock id spd).

Definition get_lock (i : nat) : L meta_lock := l ← gets lc_locks; deref (l !! i).
Definition upd_lock (i : nat) (f : meta_lock → meta_lock) : L unit :=
  modify (λ s, set_locks (alter f i (lc_locks s)) s).

Definition lock_is_thd_blocked (m : meta_lock) (thd : Z) : bool :=
  existsb (λ b, b_thd_id b =? thd) (l_b_thds m).

(** [mal]: whether [malloc] has memory. *)
Definition lock_alloc (mal : bool) (spd : Z) : L (option Z) :=
  if negb mal then mret None
  else
    s ← gets id;
    let l := MkLock 0 spd (lc_lock_id s) [] 0 in
    modify (λ s, MkL (u32 (lc_lock_id s + 1)) (l :: lc_locks s) (lc_generation s));;
    mret (Some (l_lock_id l)).

Definition lock_free (i : nat) : L unit :=
  get_lock i;;
  modify (λ s, set_locks (delete i (lc_locks s)) s).

Definition lock_component_pretake (spd id thd : Z) : L Z :=
  ml ← lock_find id spd;
  match ml with
  | None => mret (-1)
  | Some i => g ← gets lc_generation; upd_lock i (set_gen_num g);; mret 0
  end.

(** What [lock_component_take] does before it may block: it returns, or the
    caller is on the list of the lock and calls [sched_block]. *)
Inductive take_result : Set :=
| TakeRet (ret : Z)
| TakeBlock.

Definition lock_component_take (curr spd id thd_id microsec : Z) : L take_result :=
  if microsec =? 0 then mret (TakeRet TIMER_EXPIRED)
  else
    ml ← lock_find id spd;
    match ml with
    | None => mret (TakeRet (-1))
    | Some i =>
        m ← get_lock i;
        if lock_is_thd_blocked m curr then mret (TakeRet 0)
        else
          g ← gets lc_generation;
          if negb (l_gen_num m =? g) then upd_lock i (set_gen_num g);; mret (TakeRet 0)
          else
            modify bump;;
            let timed := negb (microsec =? TIMER_EVENT_INF) in
            upd_lock i (λ m, set_b_thds (MkBlk curr timed :: l_b_thds m) m);;
            if timed then fail AssertFail
            else mret TakeBlock
    end.

(** The threads that [lock_component_release] takes off the list and then wakes,
    in this order; [None] is the error. *)
Definition lock_component_release (spd id : Z) : L (option (list blocked_thds)) :=
  modify bump;;
  ml ← lock_find id spd;
  match ml with
  | None => mret None
  | Some i =>
      m ← get_lock i;
      upd_lock i (set_b_thds []);;
      mret (Some (l_b_thds m))
  end.

Definition lock_component_alloc (mal : bool) (spd : Z) : L Z :=
  l ← lock_alloc mal spd;
  mret (default 0 l).

Definition lock_component_free (spd id : Z) : L unit :=
  l ← lock_find id spd;
  match l with None => mret tt | Some i => lock_free i end.

(** ** The client *)

(** [struct cos_lock_atomic_struct], one word. *)
Record atom : Type := MkAtom {
  a_owner : Z;
  a_contested : Z;
}.

#[export] Instance atom_eq_dec : EqDecision atom.
Proof. solve_decision. Defined.

(** What the threads that use one lock share: its word, the lock component, and
    the threads for which [sched_wakeup] was called and that have not yet
    returned from [sched_block]. *)
Record shared : Type := MkSh {
  sh_atom : atom;
  sh_lc : lstate;
  sh_woken : gset Z;
}.

Definition set_atom (a : atom) (s : shared) : shared := MkSh a (sh_lc s) (sh_woken s).
Definition set_lc (l : lstate) (s : shared) : shared := MkSh (sh_atom s) l (sh_woken s).
Definition set_woken (w : gset Z) (s : shared) : shared := MkSh (sh_atom s) (sh_lc s) w.

#[local] Abbreviation W := (M shared).

(** An invocation of the lock component. *)
Definition invoke {A} (o : L A) : W A := λ s,
  match o (sh_lc s) with
  | Done a l => Done a (set_lc l s)
  | Fault f => Fault f
  end.

(** The restartable sequence [cos_atomic_cmpxchg]: the new value on success, the
    anticipated one on failure. *)
Definition cos_cmpxchg (anticipated result : atom) : W atom :=
  a ← gets sh_atom;
  if decide (a = anticipated) then modify (set_atom result);; mret result
  else mret anticipated.

Definition lock_init : W unit := modify (set_atom (MkAtom 0 0)).

(** [sched_wakeup], [sched_block]: a wakeup before the thread blocks is kept, so
    the thread returns from [sched_block] once it is among the woken ones. *)
Definition sched_wakeup (thd : Z) : W unit := modify (λ s, set_woken ({[thd]} ∪ sh_woken s) s).

(** The points of [lock_take_timed] between two accesses of what is shared, with
    the local variable [prev_val]. *)
Inductive take_pc : Set :=
| TRestart
| TPretake (prev : atom)
| TOwner (prev : atom)
| TContested (prev : atom)
| TMark (prev : atom)
| TAssert (prev : atom)
| TTake (prev : atom)
| TBlocked
| TCommit (prev : atom).

(** And of [lock_release]; [RWake] has the threads still to be woken. *)
Inductive release_pc : Set :=
| RRead
| RCommitContested (prev : atom)
| RComponent
| RWake (thds : list blocked_thds)
| RCommit (prev : atom).

(** A step ends in the next point or in a return value. *)
Inductive next (pc : Set) : Set :=
| Goto (p : pc)
| Return (ret : Z).
Arguments Goto {pc} p.
Arguments Return {pc} ret.

Section Client.
(** The component and id of the lock and the current thread. *)
Context (spd lock_id curr : Z).

(** [lock_take_timed] with an infinite timeout, as called by [lock_take]. *)
Definition lock_take_timed (pc : take_pc) : W (next take_pc) :=
  match pc with
  | TRestart =>
      prev ← gets sh_atom;
      if a_owner prev =? 0 then
        assert (a_contested prev =? 0);; mret (Goto (TCommit prev))
      else if negb (a_owner prev =? curr) then mret (Goto (TPretake prev))
      else fail AssertFail
  | TPretake prev =>
      r ← invoke (lock_component_pretake spd lock_id (a_owner prev));
      mret (if r =? 0 then Goto (TOwner prev) else Return (-1))
  | TOwner prev =>
      a ← gets sh_atom;
      mret (Goto (if a_owner a =? a_owner prev then TContested prev else TRestart))
  | TContested prev =>
      a ← gets sh_atom;
      mret (Goto (if a_contested a =? 0 then TMark prev else TAssert prev))
  | TMark prev =>
      let new := MkAtom (a_owner prev) 1 in
      r ← cos_cmpxchg prev new;
      mret (Goto (if decide (r = new) then TAssert prev else TRestart))
  | TAssert prev =>
      a ← gets sh_atom;
      assert (negb (a_contested a =? 0));;
      mret (Goto (TTake prev))
  | TTake prev =>
      r ← invoke (lock_component_take curr spd lock_id (a_owner prev) TIMER_EVENT_INF);
      match r with
      | TakeBlock => mret (Goto TBlocked)
      | TakeRet ret =>
          if negb (ret =? -1) && negb (ret =? TIMER_EXPIRED) then mret (Goto TRestart)
          else
            a ← gets sh_atom;
            assert (negb (a_owner a =? curr));;
            mret (Return ret)
      end
  | TBlocked =>
      w ← gets sh_woken;
      if decide (curr ∈ w) then
        modify (set_woken (w ∖ {[curr]}));;
        l ← gets sh_lc;
        assert (negb (existsb (λ m, lock_is_thd_blocked m curr) (lc_locks l)));;
        mret (Goto TRestart)
      else mret (Goto TBlocked)
  | TCommit prev =>
      let new := MkAtom curr (a_contested prev) in
      r ← cos_cmpxchg prev new;
      if decide (r = new) then
        a ← gets sh_atom;
        assert (a_owner a =? curr);;
        mret (Return 0)
      else mret (Goto TRestart)
  end.

Definition lock_release (pc : release_pc) : W (next release_pc) :=
  match pc with
  | RRead =>
      prev ← gets sh_atom;
      assert (a_owner prev =? curr);;
      mret (Goto (if negb (a_contested prev =? 0) then RCommitContested prev else RCommit prev))
  | RCommitContested prev =>
      let new := MkAtom 0 0 in
      r ← cos_cmpxchg prev new;
      assert (bool_decide (r = new));;
      mret (Goto RComponent)
  | RComponent =>
      r ← invoke (lock_component_release spd lock_id);
      mret (match r with None => Return (-1) | Some l => Goto (RWake l) end)
  | RWake [] => mret (Return 0)
  | RWake (b :: l) =>
      if b_timed b then fail AssertFail
      else
        assert (negb (b_thd_id b =? curr));;
        sched_wakeup (b_thd_id b);;
        mret (Goto (RWake l))
  | RCommit prev =>
      let new := MkAtom 0 (a_contested prev) in
      r ← cos_cmpxchg prev new;
      if decide (r = new) then
        a ← gets sh_atom;
        assert (negb (a_owner a =? curr));;
        mret (Return 0)
      else mret (Goto RRead)
  end.
End Client.

(** ** Threads that use one lock *)

(** What a thread is doing. *)
Inductive thread : Set :=
| Outside
| Taking (pc : take_pc)
| Holding
| Releasing (pc : release_pc)
| Failed (ret : Z)
| CrashedTaking (pc : take_pc)
| CrashedReleasing (pc : release_pc).

Record sys : Type := MkSys {
  sy_shared : shared;
  sy_thds : gmap Z thread;
}.

(** One step of a thread: it calls [lock_take] when it is outside, [lock_release]
    when it holds the lock, and runs the next step of the function it is in. *)
Definition thread_step (spd lock_id curr : Z) (t : thread) (s : shared) : thread * shared :=
  match t with
  | Outside => (Taking TRestart, s)
  | Holding => (Releasing RRead, s)
  | Taking pc =>
      match lock_take_timed spd lock_id curr pc s with
      | Done (Goto pc) s => (Taking pc, s)
      | Done (Return r) s => (if r =? 0 then Holding else Failed r, s)
      | Fault _ => (CrashedTaking pc, s)
      end
  | Releasing pc =>
      match lock_release spd lock_id curr pc s with
      | Done (Goto pc) s => (Releasing pc, s)
      | Done (Return r) s => (if r =? 0 then Outside else Failed r, s)
      | Fault _ => (CrashedReleasing pc, s)
      end
  | Failed _ | CrashedTaking _ | CrashedReleasing _ => (t, s)
  end.

(** The scheduler runs a thread, or a thread that uses another lock, which
    shows in the number of the generation. *)
Inductive label : Set :=
| Run (t : Z)
| OtherLock.

Definition sys_step (spd lock_id : Z) (lb : label) (s : sys) : sys :=
  match lb with
  | OtherLock =>
      MkSys (set_lc (bump (sh_lc (sy_shared s))) (sy_shared s)) (sy_thds s)
  | Run t =>
      match sy_thds s !! t with
      | None => s
      | Some th =>
          let '(th', sh) := thread_step spd lock_id t th (sy_shared s) in
          MkSys sh (<[t := th']> (sy_thds s))
      end
  end.

Definition sys_run (spd lock_id : Z) (ls : list label) (s : sys) : sys :=
  foldl (λ s lb, sys_step spd lock_id lb s) s ls.

(** The lock after [lock_static_init], with no other lock allocated before it,
    and the threads that are going to use it. *)
Definition init_sys (spd : Z) (tids : gset Z) : sys :=
  MkSys (MkSh (MkAtom 0 0) (MkL 2 [MkLock 0 spd 1 [] 0] 0) ∅) (gset_to_gmap Outside tids).

Definition lock_static_init (spd : Z) : W Z :=
  lock_init;; invoke (lock_component_alloc true spd).
