(* ===== verification/LockInv.v ===== *)
(** * Correctness of locks

    Mutual exclusion for any number of threads under every interleaving, which
    assertions can fail, and when a thread that waits is sure to be woken. *)

From stdpp Require Import base list numbers option gmap.
From S2P Require Import Prelude Lock.
Local Open Scope Z_scope.

#[local] Abbreviation atm s := (sh_atom (sy_shared s)).

(** ** Mutual exclusion *)

(** From its successful exchange in [lock_take_timed] to the one in
    [lock_release] a thread owns the lock. *)
Definition owns (th : thread) : bool :=
  match th with
  | Holding | Releasing RRead | Releasing (RCommitContested _) | Releasing (RCommit _) => true
  | _ => false
  end.

(** The value of the word that a thread waiting for an owner has read. *)
Definition seen (th : thread) : option atom :=
  match th with
  | Taking (TPretake p) | Taking (TOwner p) | Taking (TContested p) | Taking (TMark p)
  | Taking (TAssert p) | Taking (TTake p) => Some p
  | _ => None
  end.

(** What a thread relies on about the word [a]. *)
Definition tinv (a : atom) (t : Z) (th : thread) : Prop :=
  (owns th = true → a_owner a = t) ∧
  (∀ p, seen th = Some p → a_owner p ≠ 0 ∧ a_owner p ≠ t) ∧
  match th with
  | Taking (TCommit p) => p = MkAtom 0 0
  | Releasing (RCommitContested p) => a = p ∧ a_contested p ≠ 0
  | Releasing (RCommit p) => p = MkAtom t 0
  | CrashedTaking pc => ∃ p, pc = TAssert p
  | CrashedReleasing _ => False
  | _ => True
  end.

Definition atom_ok (a : atom) : Prop :=
  (a_contested a = 0 ∨ a_contested a = 1) ∧ (a_owner a = 0 → a_contested a = 0).

Record ainv (s : sys) : Prop := {
  ai_atom : atom_ok (atm s);
  ai_ids : sy_thds s !! 0 = None;
  ai_thd t th : sy_thds s !! t = Some th → tinv (atm s) t th;
  ai_owner : a_owner (atm s) ≠ 0 → ∃ th, sy_thds s !! a_owner (atm s) = Some th ∧ owns th = true;
}.

Lemma not_owner s t th : ainv s → sy_thds s !! t = Some th → owns th = false → a_owner (atm s) ≠ t.
Proof.
  intros Ha Ht Ho E. destruct (ai_owner _ Ha) as (th' & Ht' & Ho').
  - rewrite E. intros ->. rewrite (ai_ids _ Ha) in Ht. done.
  - rewrite E, Ht in Ht'. simplify_eq. congruence.
Qed.

(** A step of a thread [t] that leaves the word as it is. *)
Lemma ainv_same s t th' sh :
  ainv s → is_Some (sy_thds s !! t) → sh_atom sh = atm s → tinv (atm s) t th' →
  (a_owner (atm s) = t → owns th' = true) → ainv (MkSys sh (<[t := th']> (sy_thds s))).
Proof.
  intros [Ha H0 Ht Ho] [th Hth] Hs Hth' Hown. split; cbn; rewrite ?Hs; [done| | |].
  - rewrite lookup_insert_ne; [done|]. congruence.
  - intros u thu [[-> <-]|[Hne Hu]]%lookup_insert_Some; [done|eauto].
  - intros Hne. destruct (decide (a_owner (atm s) = t)) as [E|].
    + exists th'. rewrite E, lookup_insert_eq. eauto.
    + rewrite lookup_insert_ne by done. eauto.
Qed.

(** A step that changes the word from an owner to [t] or from [t] to none. *)
Lemma ainv_change s t th' sh a :
  ainv s → is_Some (sy_thds s !! t) → sh_atom sh = a → atom_ok a → tinv a t th' →
  a_owner (atm s) = 0 ∨ a_owner (atm s) = t → a_owner a = 0 ∨ (a_owner a = t ∧ owns th' = true) →
  ainv (MkSys sh (<[t := th']> (sy_thds s))).
Proof.
  intros [_ H0 Ht _] [th Hth] Hs Ha Hth' Hold Hnew. split; cbn; rewrite ?Hs; [done| | |].
  - rewrite lookup_insert_ne; [done|]. congruence.
  - intros u thu [[-> <-]|[Hne Hu]]%lookup_insert_Some; [done|].
    destruct (Ht u thu Hu) as (H1 & H2 & H3). assert (owns thu = false) as Hf.
    { destruct (owns thu) eqn:E; [|done]. pose proof (H1 eq_refl) as E1.
      destruct Hold as [E2|E2]; [|congruence]. rewrite E2 in E1. subst u. congruence. }
    split; [by rewrite Hf|]. split; [done|].
    destruct thu as [|[]| |[]| | |]; cbn in Hf |- *; done.
  - intros Hne. destruct Hnew as [|[E Ho]]; [done|]. exists th'. by rewrite E, lookup_insert_eq.
Qed.

Lemma tinv_mark a t th c :
  atom_ok a → (c = 0 ∨ c = 1) → (a_contested a = 1 → c = 1) →
  tinv a t th → tinv (MkAtom (a_owner a) c) t th.
Proof.
  intros [Hc _] Hc1 Hc2 (H1 & H2 & H3). split; [done|]. split; [done|].
  destruct th as [|[]| |[| | | |]| | |]; try done. destruct H3 as [<- Hp]. split; [|done].
  destruct a as [o c']; cbn in *. f_equal. destruct Hc; [done|]. subst. auto.
Qed.

(** The exchange that marks the lock as contested. *)
Lemma ainv_mark s t th' sh :
  ainv s → is_Some (sy_thds s !! t) → sh_atom sh = MkAtom (a_owner (atm s)) 1 → a_owner (atm s) ≠ 0 →
  a_owner (atm s) ≠ t → tinv (atm s) t th' → ainv (MkSys sh (<[t := th']> (sy_thds s))).
Proof.
  intros [Ha H0 Ht Ho] [th Hth] Hs Hz Hne Hth'. split; cbn; rewrite ?Hs.
  - split; cbn; [by right|done].
  - rewrite lookup_insert_ne; [done|]. congruence.
  - intros u thu [[-> <-]|[Hu Hu']]%lookup_insert_Some; apply tinv_mark; auto.
  - cbn. intros _. rewrite lookup_insert_ne by done. auto.
Qed.

(** ** Where the blocked threads are

    A thread in [sched_block] is on the list of the lock, or in the hands of a
    thread that is waking the ones it took off that list, or woken. *)

Inductive place : Set := InList | Waking (u : Z) | Woken.

#[local] Abbreviation ids := (map b_thd_id).
#[local] Abbreviation untimed := (Forall (λ b, b_timed b = false)).

Record winv (spd : Z) (s : sys) (g : gmap Z place) (m : meta_lock) : Prop := {
  wi_lc : lc_locks (sh_lc (sy_shared s)) = [m];
  wi_id : is_lock 1 spd m = true;
  wi_untimed : untimed (l_b_thds m);
  wi_nodup : NoDup (ids (l_b_thds m));
  wi_list t : t ∈ ids (l_b_thds m) ↔ g !! t = Some InList;
  wi_woken t : t ∈ sh_woken (sy_shared s) ↔ g !! t = Some Woken;
  wi_wake u l : sy_thds s !! u = Some (Releasing (RWake l)) →
    untimed l ∧ NoDup (ids l) ∧ ∀ t, t ∈ ids l ↔ g !! t = Some (Waking u);
  wi_waker t u : g !! t = Some (Waking u) → ∃ l, sy_thds s !! u = Some (Releasing (RWake l));
  wi_blk t : is_Some (g !! t) ↔ sy_thds s !! t = Some (Taking TBlocked);
}.

(** Neither blocked nor waking others. *)
Definition quiet (th : thread) : bool :=
  match th with Taking TBlocked | Releasing (RWake _) => false | _ => true end.

Lemma quiet_neq th th' : quiet th = true → quiet th' = false → th ≠ th'.
Proof. by intros H1 H2 ->; rewrite H1 in H2. Qed.

Section Places.
Context (spd : Z) (s : sys) (g : gmap Z place) (m : meta_lock) (Hw : winv spd s g m).
Context (t : Z) (th : thread) (Ht : sy_thds s !! t = Some th).

Lemma quiet_place : quiet th = true → g !! t = None ∧ ∀ u, g !! u ≠ Some (Waking t).
Proof.
  intros Hq. split.
  - apply eq_None_not_Some. rewrite (wi_blk _ _ _ _ Hw), Ht. intros [= ->]. done.
  - intros u [l Hl]%(wi_waker _ _ _ _ Hw). rewrite Ht in Hl. by simplify_eq.
Qed.

(** A step between two quiet points. *)
Lemma winv_quiet th' sh m' :
  quiet th = true → quiet th' = true →
  lc_locks (sh_lc sh) = [m'] → is_lock 1 spd m' = true → l_b_thds m' = l_b_thds m →
  sh_woken sh = sh_woken (sy_shared s) →
  winv spd (MkSys sh (<[t := th']> (sy_thds s))) g m'.
Proof.
  intros Hq Hq' Hl Hid Hb Hwk. destruct (quiet_place Hq) as [Hg Hgw].
  destruct Hw as [_ _ H3 H4 H5 H6 H7 H8 H9]. split; cbn; rewrite ?Hb, ?Hwk; try done.
  - intros u l [[-> E]|[Hne Hu]]%lookup_insert_Some; [by subst|eauto].
  - intros v u Hv. destruct (H8 v u Hv) as [l Hl']. exists l.
    rewrite lookup_insert_ne; [done|]. intros <-. by apply (Hgw v).
  - intros v. rewrite H9. destruct (decide (t = v)) as [<-|]; [|by rewrite lookup_insert_ne].
    rewrite lookup_insert_eq, Ht. split; intros [= ->]; done.
Qed.

(** The thread puts itself on the list and blocks. *)
Lemma winv_block sh m' :
  quiet th = true → lc_locks (sh_lc sh) = [m'] → is_lock 1 spd m' = true →
  l_b_thds m' = MkBlk t false :: l_b_thds m → sh_woken sh = sh_woken (sy_shared s) →
  winv spd (MkSys sh (<[t := Taking TBlocked]> (sy_thds s))) (<[t := InList]> g) m'.
Proof.
  intros Hq Hl Hid Hb Hwk. destruct (quiet_place Hq) as [Hg Hgw].
  destruct Hw as [_ _ H3 H4 H5 H6 H7 H8 H9]. split; cbn; rewrite ?Hb, ?Hwk; try done.
  - by constructor.
  - cbn. constructor; [|done]. rewrite H5, Hg. done.
  - intros v. cbn. rewrite elem_of_cons, H5, lookup_insert. case_decide; naive_solver.
  - intros v. rewrite H6, lookup_insert. case_decide; naive_solver.
  - intros u l [[-> E]|[Hne Hu]]%lookup_insert_Some; [done|].
    destruct (H7 u l Hu) as (U1 & U2 & U3). split; [done|]. split; [done|].
    intros v. rewrite U3, lookup_insert. case_decide; naive_solver.
  - intros v u [[-> E]|[Hne Hv]]%lookup_insert_Some; [done|]. destruct (H8 v u Hv) as [l Hl'].
    exists l. rewrite lookup_insert_ne; [done|]. intros <-. by apply (Hgw v).
  - intros v. destruct (decide (t = v)) as [<-|]; [by rewrite !lookup_insert_eq|].
    rewrite !lookup_insert_ne by done. apply H9.
Qed.

(** The thread takes the list of the lock to wake the threads on it. *)
Definition taken_over (p : place) : place := match p with InList => Waking t | _ => p end.

Lemma winv_release sh m' :
  quiet th = true → lc_locks (sh_lc sh) = [m'] → is_lock 1 spd m' = true →
  l_b_thds m' = [] → sh_woken sh = sh_woken (sy_shared s) →
  winv spd (MkSys sh (<[t := Releasing (RWake (l_b_thds m))]> (sy_thds s))) (taken_over <$> g) m'.
Proof.
  intros Hq Hl Hid Hb Hwk. destruct (quiet_place Hq) as [Hg Hgw].
  destruct Hw as [_ _ H3 H4 H5 H6 H7 H8 H9]. split; cbn; rewrite ?Hb, ?Hwk; try done.
  - constructor.
  - intros v. rewrite lookup_fmap. destruct (g !! v) as [[]|]; cbn; set_solver.
  - intros v. rewrite H6, lookup_fmap. destruct (g !! v) as [[]|]; cbn; naive_solver.
  - intros u l [[-> [= <-]]|[Hne Hu]]%lookup_insert_Some.
    + split; [done|]. split; [done|]. intros v. rewrite H5, lookup_fmap. specialize (Hgw v).
      destruct (g !! v) as [[]|]; cbn; naive_solver.
    + destruct (H7 u l Hu) as (U1 & U2 & U3). split; [done|]. split; [done|].
      intros v. rewrite U3, lookup_fmap. destruct (g !! v) as [[]|]; cbn; naive_solver.
  - intros v u. rewrite lookup_fmap. destruct (g !! v) as [[]|] eqn:Hv; cbn; intros [=]; subst.
    + exists (l_b_thds m). by rewrite lookup_insert_eq.
    + destruct (H8 v u Hv) as [l Hl']. exists l. rewrite lookup_insert_ne; [done|].
      intros <-. by apply (Hgw v).
  - intros v. rewrite lookup_fmap, fmap_is_Some, H9. destruct (decide (t = v)) as [<-|].
    + rewrite lookup_insert_eq, Ht. split; intros [= ->]; done.
    + by rewrite lookup_insert_ne.
Qed.

(** It wakes the first of them, and ends. *)
Lemma winv_wake b l sh :
  th = Releasing (RWake (b :: l)) → sh_lc sh = sh_lc (sy_shared s) →
  sh_woken sh = {[b_thd_id b]} ∪ sh_woken (sy_shared s) →
  winv spd (MkSys sh (<[t := Releasing (RWake l)]> (sy_thds s))) (<[b_thd_id b := Woken]> g) m.
Proof.
  intros -> Hl Hwk. destruct Hw as [H1 H2 H3 H4 H5 H6 H7 H8 H9].
  destruct (H7 _ _ Ht) as (U1 & U2 & U3). apply Forall_cons in U1 as [_ U1]. cbn in U2, U3.
  apply NoDup_cons in U2 as [Hnb U2]. assert (g !! b_thd_id b = Some (Waking t)) as Hb by (apply U3; left).
  split; cbn; rewrite ?Hl, ?Hwk; try done.
  - intros v. rewrite H5, lookup_insert. case_decide; naive_solver.
  - intros v. rewrite elem_of_union, elem_of_singleton, H6, lookup_insert. case_decide; naive_solver.
  - intros u l' [[-> [= <-]]|[Hne Hu]]%lookup_insert_Some.
    + split; [done|]. split; [done|]. intros v. specialize (U3 v). rewrite elem_of_cons in U3.
      rewrite lookup_insert. case_decide; [subst v|]; naive_solver.
    + destruct (H7 u l' Hu) as (V1 & V2 & V3). split; [done|]. split; [done|].
      intros v. rewrite V3, lookup_insert. case_decide; naive_solver.
  - intros v u [[_ [=]]|[Hne Hv]]%lookup_insert_Some. destruct (H8 v u Hv) as [l' Hl'].
    destruct (decide (t = u)) as [<-|]; [exists l; by rewrite lookup_insert_eq|].
    exists l'. by rewrite lookup_insert_ne.
  - intros v. destruct (decide (t = v)) as [<-|].
    + rewrite lookup_insert_eq. split; [|done]. intros [p Hp]. exfalso.
      assert (is_Some (g !! t)) as E%H9; [|by rewrite Ht in E].
      apply lookup_insert_Some in Hp as [[<- _]|[_ ?]]; eauto.
    + rewrite (lookup_insert_ne (sy_thds s)), <-H9 by done. rewrite lookup_insert.
      case_decide; [subst v|done]. split; eauto.
Qed.

Lemma winv_woke_all th' sh :
  th = Releasing (RWake []) → quiet th' = true → sh_lc sh = sh_lc (sy_shared s) →
  sh_woken sh = sh_woken (sy_shared s) →
  winv spd (MkSys sh (<[t := th']> (sy_thds s))) g m.
Proof.
  intros -> Hq Hl Hwk. destruct Hw as [H1 H2 H3 H4 H5 H6 H7 H8 H9].
  destruct (H7 _ _ Ht) as (_ & _ & U3). split; cbn; rewrite ?Hl, ?Hwk; try done.
  - intros u l' [[-> E]|[Hne Hu]]%lookup_insert_Some; [by subst|eauto].
  - intros v u Hv. destruct (H8 v u Hv) as [l' Hl']. exists l'. rewrite lookup_insert_ne; [done|].
    intros <-. apply U3 in Hv. by apply not_elem_of_nil in Hv.
  - intros v. rewrite H9. destruct (decide (t = v)) as [<-|]; [|by rewrite lookup_insert_ne].
    rewrite lookup_insert_eq, Ht. split; intros [= ->]; done.
Qed.

(** A woken thread returns from [sched_block]. *)
Lemma winv_unblock th' sh :
  th = Taking TBlocked → quiet th' = true → g !! t = Some Woken →
  sh_lc sh = sh_lc (sy_shared s) → sh_woken sh = sh_woken (sy_shared s) ∖ {[t]} →
  winv spd (MkSys sh (<[t := th']> (sy_thds s))) (delete t g) m.
Proof.
  intros -> Hq Hg Hl Hwk. destruct Hw as [H1 H2 H3 H4 H5 H6 H7 H8 H9].
  split; cbn; rewrite ?Hl, ?Hwk; try done.
  - intros v. rewrite H5, lookup_delete. case_decide; naive_solver.
  - intros v. rewrite elem_of_difference, elem_of_singleton, H6, lookup_delete. case_decide; naive_solver.
  - intros u l [[-> E]|[Hne Hu]]%lookup_insert_Some; [by subst|].
    destruct (H7 u l Hu) as (U1 & U2 & U3). split; [done|]. split; [done|].
    intros v. rewrite U3, lookup_delete. case_decide; naive_solver.
  - intros v u [Hne Hv]%lookup_delete_Some. destruct (H8 v u Hv) as [l' Hl']. exists l'.
    rewrite lookup_insert_ne; [done|]. intros <-. by rewrite Ht in Hl'.
  - intros v. destruct (decide (t = v)) as [<-|].
    + rewrite lookup_delete_eq, lookup_insert_eq. split; [by intros []|]. by intros [= ->].
    + rewrite lookup_delete_ne, lookup_insert_ne by done. apply H9.
Qed.
End Places.

(** ** The calls of the component *)

Lemma find_the_lock spd l m :
  lc_locks l = [m] → is_lock 1 spd m = true → lock_find 1 spd l = Done (Some 0%nat) l.
Proof. intros Hl Hm. unfold lock_find, find_lock, gets. rewrite Hl. cbn. by rewrite decide_True. Qed.

Section Component.
Context (spd : Z) (l : lstate) (m : meta_lock).
Context (Hl : lc_locks l = [m]) (Hm : is_lock 1 spd m = true).

Lemma comp_pretake_run thd :
  lock_component_pretake spd 1 thd l = Done 0 (set_locks [set_gen_num (lc_generation l) m] l).
Proof.
  unfold lock_component_pretake. rewrite (bind_run _ _ _ _ _ (find_the_lock _ _ _ Hl Hm)). mrun.
  unfold upd_lock. mrun. by rewrite Hl.
Qed.

Lemma comp_release_run :
  lock_component_release spd 1 l = Done (Some (l_b_thds m)) (set_locks [set_b_thds [] m] (bump l)).
Proof.
  unfold lock_component_release. mrun. rewrite (bind_run _ _ _ _ _ (find_the_lock _ (bump l) _ Hl Hm)).
  unfold get_lock, upd_lock. mrun. change (lc_locks (bump l)) with (lc_locks l). rewrite Hl. cbn. mrun.
  unfold set_locks. cbn. by rewrite Hl.
Qed.

Lemma comp_take_run curr thd :
  lock_component_take curr spd 1 thd TIMER_EVENT_INF l =
  if lock_is_thd_blocked m curr then Done (TakeRet 0) l
  else if l_gen_num m =? lc_generation l
       then Done TakeBlock (set_locks [set_b_thds (MkBlk curr false :: l_b_thds m) m] (bump l))
       else Done (TakeRet 0) (set_locks [set_gen_num (lc_generation l) m] l).
Proof.
  unfold lock_component_take. change (TIMER_EVENT_INF =? 0) with false. cbv iota.
  rewrite (bind_run _ _ _ _ _ (find_the_lock _ _ _ Hl Hm)). unfold get_lock, upd_lock. mrun. rewrite Hl. cbn. mrun.
  destruct (lock_is_thd_blocked m curr); [done|]. mrun.
  destruct (l_gen_num m =? lc_generation l); cbn; mrun; cbn; by rewrite Hl.
Qed.
End Component.

Lemma is_blocked_iff m t : lock_is_thd_blocked m t = true ↔ t ∈ ids (l_b_thds m).
Proof.
  unfold lock_is_thd_blocked. rewrite existsb_exists, list_elem_of_fmap.
  setoid_rewrite Z.eqb_eq. setoid_rewrite list_elem_of_In. naive_solver.
Qed.

(** ** The steps *)

Definition linv (spd : Z) (s : sys) : Prop := ainv s ∧ ∃ g m, winv spd s g m.

#[local] Abbreviation stepped s t th' sh := (MkSys sh (<[t := th']> (sy_thds s))).

(** A step that neither changes the word nor blocks or wakes anybody. *)
Lemma linv_quiet spd s t th th' :
  linv spd s → sy_thds s !! t = Some th → quiet th = true → quiet th' = true →
  tinv (atm s) t th' → (owns th = true → owns th' = true) → linv spd (stepped s t th' (sy_shared s)).
Proof.
  intros (Ha & g & m & Hw) Ht Hq Hq' Hti Ho. split.
  - eapply ainv_same; eauto. intros E. apply Ho. destruct (owns th) eqn:Hn; [done|].
    by destruct (not_owner _ _ _ Ha Ht Hn).
  - exists g, m. eapply winv_quiet; eauto; apply Hw.
Qed.

(** As before, but the component records another generation. *)
Lemma linv_gen spd s t th th' l :
  linv spd s → sy_thds s !! t = Some th → quiet th = true → quiet th' = true →
  owns th = false → tinv (atm s) t th' →
  (∀ m, lc_locks (sh_lc (sy_shared s)) = [m] →
     ∃ m', lc_locks l = [m'] ∧ l_b_thds m' = l_b_thds m ∧ ∀ i p, is_lock i p m' = is_lock i p m) →
  linv spd (stepped s t th' (set_lc l (sy_shared s))).
Proof.
  intros (Ha & g & m & Hw) Ht Hq Hq' Ho Hti Hl. split.
  - eapply ainv_same; eauto. intros E. by destruct (not_owner _ _ _ Ha Ht Ho).
  - destruct (Hl m (wi_lc _ _ _ _ Hw)) as (m' & E1 & E2 & E3). exists g, m'.
    eapply winv_quiet; eauto. rewrite E3. apply Hw.
Qed.

Lemma step_take_quiet spd s t pc :
  linv spd s → sy_thds s !! t = Some (Taking pc) →
  match pc with TRestart | TOwner _ | TContested _ | TAssert _ | TPretake _ => True | _ => False end →
  let '(th', sh) := thread_step spd 1 t (Taking pc) (sy_shared s) in linv spd (stepped s t th' sh).
Proof.
  intros Hi Ht Hpc. pose proof Hi as (Ha & g & m & Hw).
  pose proof (ai_thd _ Ha _ _ Ht) as (H1 & H2 & H3).
  destruct pc as [|p|p|p| |p| | |]; try done; cbn [thread_step lock_take_timed]; mrun.
  - destruct (Z.eqb_spec (a_owner (atm s)) 0) as [E|E].
    + rewrite (proj2 (ai_atom _ Ha) E). cbn. mrun. apply (linv_quiet _ _ _ _ _ Hi Ht); [done..| |done].
      split; [done|]. split; [done|]. cbn. pose proof (proj2 (ai_atom _ Ha) E).
      destruct (atm s); cbn in *. by subst.
    + destruct (Z.eqb_spec (a_owner (atm s)) t) as [E'|E']; cbn.
      * exfalso. destruct (ai_owner _ Ha E) as (th & Hth & Ho). rewrite E', Ht in Hth. by simplify_eq.
      * apply (linv_quiet _ _ _ _ _ Hi Ht); [done..| |done]. split; [done|]. split; [|done]. by intros p [= <-].
  - unfold mbind, M_bind, invoke. rewrite (comp_pretake_run spd _ m) by apply Hw. cbn.
    apply (linv_gen _ _ _ _ _ _ Hi Ht); [done..|by split|]. intros m' Hm'.
    rewrite (wi_lc _ _ _ _ Hw) in Hm'. simplify_eq. by eexists.
  - destruct (_ =? _); apply (linv_quiet _ _ _ _ _ Hi Ht); try done; by split.
  - destruct (_ =? _); apply (linv_quiet _ _ _ _ _ Hi Ht); try done; by split.
  - destruct (negb _); mrun; apply (linv_quiet _ _ _ _ _ Hi Ht); try done;
      (split; [done|]; split; [done|]); cbn; eauto.
Qed.

Lemma cmpxchg_run s p q :
  cos_cmpxchg p q s = if decide (sh_atom s = p) then Done q (set_atom q s) else Done p s.
Proof. unfold cos_cmpxchg. mrun. by case_decide. Qed.

(** A change of the word by a thread that is not blocked before and after. *)
Lemma linv_atom spd s t th th' a :
  linv spd s → sy_thds s !! t = Some th → quiet th = true → quiet th' = true →
  ainv (stepped s t th' (set_atom a (sy_shared s))) →
  linv spd (stepped s t th' (set_atom a (sy_shared s))).
Proof.
  intros (Ha & g & m & Hw) Ht Hq Hq' Ha'. split; [done|]. exists g, m.
  eapply winv_quiet; eauto; apply Hw.
Qed.

Lemma step_mark spd s t p :
  linv spd s → sy_thds s !! t = Some (Taking (TMark p)) →
  let '(th', sh) := thread_step spd 1 t (Taking (TMark p)) (sy_shared s) in linv spd (stepped s t th' sh).
Proof.
  intros Hi Ht. pose proof Hi as (Ha & g & m & Hw).
  pose proof (ai_thd _ Ha _ _ Ht) as (H1 & H2 & H3). destruct (H2 p eq_refl) as [Hz Hne].
  cbn [thread_step lock_take_timed]. unfold mbind, M_bind. rewrite cmpxchg_run.
  destruct (decide (atm s = p)) as [<-|Hp].
  - cbn. rewrite decide_True by done. apply (linv_atom _ _ _ _ _ _ Hi Ht); [done..|].
    eapply ainv_mark; eauto. split; [done|]. split; [|done]. by intros q [= <-].
  - cbn. case_decide; apply (linv_quiet _ _ _ _ _ Hi Ht); try done; by split.
Qed.

Lemma step_commit spd s t p :
  linv spd s → sy_thds s !! t = Some (Taking (TCommit p)) →
  let '(th', sh) := thread_step spd 1 t (Taking (TCommit p)) (sy_shared s) in linv spd (stepped s t th' sh).
Proof.
  intros Hi Ht. pose proof Hi as (Ha & g & m & Hw).
  pose proof (ai_thd _ Ha _ _ Ht) as (_ & _ & ->). assert (t ≠ 0) as Hz.
  { intros ->. pose proof (ai_ids _ Ha). congruence. }
  cbn [thread_step lock_take_timed a_contested]. unfold mbind, M_bind. rewrite cmpxchg_run.
  destruct (decide (atm s = MkAtom 0 0)) as [E|Hp]; cbn.
  - rewrite decide_True by done. rewrite Z.eqb_refl. cbn. apply (linv_atom _ _ _ _ _ _ Hi Ht); [done..|].
    eapply ainv_change; eauto; cbn.
    + split; cbn; [by left|done].
    + by split.
    + rewrite E. by left.
  - rewrite decide_False by congruence. apply (linv_quiet _ _ _ _ _ Hi Ht); try done; by split.
Qed.

Lemma step_take spd s t p :
  linv spd s → sy_thds s !! t = Some (Taking (TTake p)) →
  let '(th', sh) := thread_step spd 1 t (Taking (TTake p)) (sy_shared s) in linv spd (stepped s t th' sh).
Proof.
  intros Hi Ht. pose proof Hi as (Ha & g & m & Hw). pose proof (ai_thd _ Ha _ _ Ht) as (H1 & H2 & H3).
  cbn [thread_step lock_take_timed]. unfold mbind, M_bind, invoke.
  rewrite (comp_take_run spd _ m) by apply Hw. destruct (lock_is_thd_blocked m t) eqn:Hb.
  { exfalso. apply is_blocked_iff, (wi_list _ _ _ _ Hw) in Hb.
    rewrite (proj1 (quiet_place _ _ _ _ Hw _ _ Ht eq_refl)) in Hb. done. }
  destruct (l_gen_num m =? lc_generation (sh_lc (sy_shared s))); cbn.
  - split.
    + eapply ainv_same; eauto; [by split|]. intros E.
      by destruct (not_owner _ _ _ Ha Ht eq_refl).
    + eexists _, _. eapply winv_block; eauto; apply Hw.
  - apply (linv_gen _ _ _ _ _ _ Hi Ht); [done..|by split|]. intros m' Hm'.
    rewrite (wi_lc _ _ _ _ Hw) in Hm'. simplify_eq. by eexists.
Qed.

Lemma step_blocked spd s t :
  linv spd s → sy_thds s !! t = Some (Taking TBlocked) →
  let '(th', sh) := thread_step spd 1 t (Taking TBlocked) (sy_shared s) in linv spd (stepped s t th' sh).
Proof.
  intros Hi Ht. pose proof Hi as (Ha & g & m & Hw). cbn [thread_step lock_take_timed]. mrun.
  case_decide as Hwk.
  - assert (g !! t = Some Woken) as Hg by (by apply Hw). mrun. cbn.
    rewrite (wi_lc _ _ _ _ Hw). cbn. destruct (lock_is_thd_blocked m t) eqn:Hb.
    { exfalso. apply is_blocked_iff, (wi_list _ _ _ _ Hw) in Hb. congruence. }
    cbn. mrun. split.
    + eapply ainv_same; eauto; [by split|]. intros E.
      by destruct (not_owner _ _ _ Ha Ht eq_refl).
    + eexists _, _. eapply winv_unblock; eauto.
  - cbn. rewrite insert_id by done. by destruct s.
Qed.

Lemma step_release spd s t pc :
  linv spd s → sy_thds s !! t = Some (Releasing pc) →
  let '(th', sh) := thread_step spd 1 t (Releasing pc) (sy_shared s) in linv spd (stepped s t th' sh).
Proof.
  intros Hi Ht. pose proof Hi as (Ha & g & m & Hw). pose proof (ai_thd _ Ha _ _ Ht) as (H1 & H2 & H3).
  assert (t ≠ 0) as Hz by (intros ->; pose proof (ai_ids _ Ha); congruence).
  destruct pc as [|p| |[|b l]|p]; cbn [thread_step lock_release]; mrun.
  - rewrite H1, Z.eqb_refl by done. mrun. pose proof (ai_atom _ Ha) as [Hc _].
    specialize (H1 eq_refl).
    destruct (Z.eqb_spec (a_contested (atm s)) 0) as [E|E]; cbn; apply (linv_quiet _ _ _ _ _ Hi Ht); try done.
    split; [done|]. split; [done|]. cbn. destruct (atm s); cbn in *. by subst.
  - destruct H3 as [<- Hc]. unfold mbind, M_bind. rewrite cmpxchg_run. rewrite decide_True by done. cbn.
    rewrite bool_decide_eq_true_2 by done. cbn. apply (linv_atom _ _ _ _ _ _ Hi Ht); [done..|].
    eapply ainv_change; eauto; [|by split]. split; cbn; [by left|done].
  - unfold mbind, M_bind, invoke. rewrite (comp_release_run spd _ m) by apply Hw. cbn. split.
    + eapply ainv_same; eauto; [by split|]. intros E. by destruct (not_owner _ _ _ Ha Ht eq_refl).
    + eexists _, _. eapply winv_release; eauto; apply Hw.
  - cbn. split.
    + eapply ainv_same; eauto; [by split|]. intros E. by destruct (not_owner _ _ _ Ha Ht eq_refl).
    + exists g, m. eapply winv_woke_all; eauto.
  - destruct (wi_wake _ _ _ _ Hw _ _ Ht) as (U1 & _ & U3). apply Forall_cons in U1 as [-> _].
    assert (b_thd_id b ≠ t) as Hbt.
    { intros E. assert (g !! t = Some (Waking t)) as Hg by (apply U3; rewrite <-E; left).
      assert (sy_thds s !! t = Some (Taking TBlocked)) as E' by (apply Hw; eauto). congruence. }
    destruct (Z.eqb_spec (b_thd_id b) t); [done|]. cbn. mrun. split.
    + eapply ainv_same; eauto; [by split|]. intros E. by destruct (not_owner _ _ _ Ha Ht eq_refl).
    + eexists _, _. eapply winv_wake; eauto.
  - subst p. unfold mbind, M_bind. rewrite cmpxchg_run. cbn. case_decide as E; cbn -[Z.eqb].
    + rewrite decide_True by done. cbn -[Z.eqb]. destruct (Z.eqb_spec 0 t); [done|]. cbn.
      apply (linv_atom _ _ _ _ _ _ Hi Ht); [done..|].
      eapply ainv_change; eauto; [split; cbn; [by left|done]|by split].
    + rewrite decide_False by congruence. apply (linv_quiet _ _ _ _ _ Hi Ht); done.
Qed.

Lemma linv_step spd s lb : linv spd s → linv spd (sys_step spd 1 lb s).
Proof.
  intros Hi. destruct lb as [t|]; cbn [sys_step].
  - destruct (sy_thds s !! t) as [th|] eqn:Ht; [|done].
    assert (let '(th', sh) := thread_step spd 1 t th (sy_shared s) in linv spd (stepped s t th' sh)) as H.
    { destruct th as [|pc| |pc| | |].
      - cbn. apply (linv_quiet _ _ _ _ _ Hi Ht); done.
      - destruct pc; [by apply step_take_quiet..|by apply step_mark|by apply step_take_quiet|
          by apply step_take|by apply step_blocked|by apply step_commit].
      - cbn. apply (linv_quiet _ _ _ _ _ Hi Ht); try done. split; [|done]. intros _.
        by apply (ai_thd _ (proj1 Hi) _ _ Ht).
      - by apply step_release.
      - cbn. rewrite insert_id by done. by destruct s.
      - cbn. rewrite insert_id by done. by destruct s.
      - cbn. rewrite insert_id by done. by destruct s. }
    by destruct (thread_step spd 1 t th (sy_shared s)).
  - destruct Hi as ([Ha H0 Ht Ho] & g & m & Hw). split; [by split|].
    exists g, m. destruct Hw. by split.
Qed.

Lemma linv_init spd tids : 0 ∉ tids → linv spd (init_sys spd tids).
Proof.
  intros H0. split; [split|exists ∅, (MkLock 0 spd 1 [] 0); split]; cbn; try done.
  - split; [by left|done].
  - by rewrite lookup_gset_to_gmap_None.
  - intros t th [_ <-]%lookup_gset_to_gmap_Some. by split.
  - unfold is_lock. cbn. apply Z.eqb_refl.
  - constructor.
  - intros t. rewrite lookup_empty. split; [by intros ?%not_elem_of_nil|done].
  - intros u l [_ [=]]%lookup_gset_to_gmap_Some.
  - intros t. rewrite lookup_empty, lookup_gset_to_gmap_Some. split; [by intros []|by intros [_ [=]]].
Qed.

Lemma linv_run spd ls s : linv spd s → linv spd (sys_run spd 1 ls s).
Proof. revert s. induction ls as [|lb ls IH]; intros s Hi; [done|]. cbn. by apply IH, linv_step. Qed.

(** C12. Any number of threads take and release a lock, preempting each other
    between any two accesses of the lock's word: at most one of them is between
    the end of its [lock_take] and the release, and the word names it.  No
    assertion or BUG of [lock_release] fails, and of [lock_take_timed] only the
    one whose comment says that a preemption makes it incorrect. *)
Theorem lock_mutual_exclusion spd tids ls :
  0 ∉ tids →
  let s := sys_run spd 1 ls (init_sys spd tids) in
  (∀ t th, sy_thds s !! t = Some th → owns th = true → a_owner (atm s) = t) ∧
  (∀ t u th th', sy_thds s !! t = Some th → sy_thds s !! u = Some th' →
     owns th = true → owns th' = true → t = u) ∧
  (∀ t pc, sy_thds s !! t ≠ Some (CrashedReleasing pc)) ∧
  (∀ t pc, sy_thds s !! t = Some (CrashedTaking pc) → ∃ p, pc = TAssert p).
Proof.
  intros H0 s. assert (ainv s) as Ha by (by apply linv_run, linv_init).
  assert (∀ t th, sy_thds s !! t = Some th → owns th = true → a_owner (atm s) = t) as Ho.
  { intros t th Ht. by apply (ai_thd _ Ha). }
  split; [done|]. split; [intros; by transitivity (a_owner (atm s)); [symmetry|]; eauto|].
  split; intros t pc Ht; pose proof (ai_thd _ Ha _ _ Ht) as (_ & _ & H3); done.
Qed.

(** ** Waiting threads are not forgotten by two threads *)

(** Between reading the owner and being woken. *)
Definition slow (th : thread) : bool :=
  match th with
  | Taking TBlocked => true
  | _ => bool_decide (is_Some (seen th))
  end.

(** Somebody is going to wake the threads on the list: the owner finds the lock
    contested, or a thread is about to invoke the component. *)
Definition covered (s : sys) : Prop :=
  a_contested (atm s) = 1 ∨ ∃ u, sy_thds s !! u = Some (Releasing RComponent).

#[local] Abbreviation gen s := (lc_generation (sh_lc (sy_shared s))).

Record two (s : sys) (n : Z) (m : meta_lock) : Prop := {
  tw_lc : lc_locks (sh_lc (sy_shared s)) = [m];
  tw_slow t u th th' : sy_thds s !! t = Some th → sy_thds s !! u = Some th' →
    slow th = true → slow th' = true → t = u;
  tw_gen : 0 ≤ l_gen_num m ≤ gen s ∧ gen s ≤ n;
  tw_take t p : sy_thds s !! t = Some (Taking (TTake p)) → l_gen_num m ≠ gen s ∨ covered s;
  tw_blk t : t ∈ ids (l_b_thds m) → covered s;
}.

Lemma covered_step s t th th' sh :
  covered s → sy_thds s !! t = Some th → th ≠ Releasing RComponent →
  (a_contested (atm s) = 1 → a_contested (sh_atom sh) = 1) ∨ th' = Releasing RComponent →
  covered (stepped s t th' sh).
Proof.
  intros Hc Ht Hne [Ha| ->].
  - destruct Hc as [Hc|[u Hu]]; [left; by apply Ha|right]. exists u. cbn.
    rewrite lookup_insert_ne; [done|]. intros <-. congruence.
  - right. exists t. cbn. by rewrite lookup_insert_eq.
Qed.

(** Only one thread is slow after a step of [t], if it was so before or none of
    the others is. *)
Lemma slow_step s t th th' n m :
  two s n m → sy_thds s !! t = Some th →
  (slow th' = true → slow th = true ∨ ∀ u thu, sy_thds s !! u = Some thu → slow thu = true → u = t) →
  ∀ v u thv thu, <[t := th']> (sy_thds s) !! v = Some thv → <[t := th']> (sy_thds s) !! u = Some thu →
    slow thv = true → slow thu = true → v = u.
Proof.
  intros Hw Ht Hs v u thv thu [[<- <-]|[Hv Hv']]%lookup_insert_Some [[<- <-]|[Hu Hu']]%lookup_insert_Some Sv Su.
  - done.
  - destruct (Hs Sv) as [St|Hx]; [by eapply (tw_slow _ _ _ Hw)|]. symmetry. eauto.
  - destruct (Hs Su) as [St|Hx]; [by eapply (tw_slow _ _ _ Hw)|]. eauto.
  - by eapply (tw_slow _ _ _ Hw).
Qed.

(** A step that does not invoke the component. *)
Lemma two_plain s n m t th th' sh :
  two s n m → sy_thds s !! t = Some th → th ≠ Releasing RComponent →
  sh_lc sh = sh_lc (sy_shared s) →
  (a_contested (atm s) = 1 → a_contested (sh_atom sh) = 1) ∨ th' = Releasing RComponent →
  (slow th' = true → slow th = true ∨ ∀ u thu, sy_thds s !! u = Some thu → slow thu = true → u = t) →
  (∀ p, th' = Taking (TTake p) → a_contested (sh_atom sh) = 1) →
  two (stepped s t th' sh) (n + 1) m.
Proof.
  intros Hw Ht Hne Hlc Ha Hs Htk.
  assert (covered s → covered (stepped s t th' sh)) as Hc by (intros; by eapply covered_step).
  split; cbn; rewrite ?Hlc.
  - apply Hw.
  - by eapply slow_step.
  - destruct (tw_gen _ _ _ Hw). lia.
  - intros u p [[-> E]|[Hu Hu']]%lookup_insert_Some.
    + right. left. cbn. by apply (Htk p).
    + destruct (tw_take _ _ _ Hw u p Hu'); auto.
  - intros u Hu. apply Hc. by eapply (tw_blk _ _ _ Hw).
Qed.

(** An invocation of the component by a slow thread, the only one. *)
Lemma two_invoke s n m m' t th th' l :
  two s n m → n + 1 < 2 ^ 64 → sy_thds s !! t = Some th → slow th = true →
  lc_locks l = [m'] → lc_generation l = gen s ∨ lc_generation l = gen s + 1 →
  0 ≤ l_gen_num m' ≤ lc_generation l → (∀ p, th' ≠ Taking (TTake p)) →
  (∀ u, u ∈ ids (l_b_thds m') → u ∈ ids (l_b_thds m) ∨ covered s) →
  two (stepped s t th' (set_lc l (sy_shared s))) (n + 1) m'.
Proof.
  intros Hw Hn Ht Hs Hl Hg Hgn Htk Hb.
  assert (covered s → covered (stepped s t th' (set_lc l (sy_shared s)))) as Hc.
  { intros Hc. eapply covered_step; eauto. by intros ->. }
  split; cbn; [done|eapply slow_step; eauto| | |].
  - destruct (tw_gen _ _ _ Hw). lia.
  - intros u p [[-> E]|[Hu Hu']]%lookup_insert_Some; [by apply Htk in E|].
    exfalso. apply Hu. by eapply (tw_slow _ _ _ Hw).
  - intros u [Hu|Hu]%Hb; [|auto]. apply Hc. by eapply (tw_blk _ _ _ Hw).
Qed.

#[local] Ltac two_plain := eexists; eapply two_plain; eauto; try done; eauto.

Lemma two_take spd s n m t pc a b :
  linv spd s → two s n m → n + 1 < 2 ^ 64 → sy_thds s !! t = Some (Taking pc) →
  (∀ u th, sy_thds s !! u = Some th → u = a ∨ u = b) →
  let '(th', sh) := thread_step spd 1 t (Taking pc) (sy_shared s) in
  ∃ m', two (stepped s t th' sh) (n + 1) m'.
Proof.
  intros Hi Hw Hn Ht Hab. pose proof Hi as (Ha & g & m0 & Hwi).
  assert (m0 = m) as -> by (pose proof (wi_lc _ _ _ _ Hwi); pose proof (tw_lc _ _ _ Hw); congruence).
  pose proof (tw_gen _ _ _ Hw) as Hgen.
  destruct pc as [|p|p|p|p|p|p| |p]; cbn [thread_step lock_take_timed]; mrun.
  - destruct (Z.eqb_spec (a_owner (atm s)) 0) as [E|E].
    + rewrite (proj2 (ai_atom _ Ha) E). cbn. mrun. two_plain.
    + destruct (Z.eqb_spec (a_owner (atm s)) t) as [E'|E']; cbn; [two_plain|].
      eexists; eapply two_plain; eauto; try done. intros _. right. intros u thu Hu Hs. destruct (ai_owner _ Ha E) as (tho & Hto & Hoo).
      destruct (Hab _ _ Hu), (Hab _ _ Ht), (Hab _ _ Hto); subst; try congruence;
        rewrite Hto in Hu; simplify_eq; by destruct thu as [|[]| |[]| | |].
  - unfold mbind, M_bind, invoke. rewrite (comp_pretake_run spd _ m) by apply Hwi. cbn.
    eexists. eapply two_invoke; eauto; cbn; try done; try lia; eauto.
  - destruct (_ =? _); two_plain.
  - destruct (_ =? _); two_plain.
  - unfold mbind, M_bind. rewrite cmpxchg_run. case_decide; cbn.
    + rewrite decide_True by done. two_plain.
    + case_decide; two_plain.
  - destruct (Z.eqb_spec (a_contested (atm s)) 0) as [E|E]; cbn; mrun.
    + two_plain.
    + eexists; eapply two_plain; eauto; try done; eauto. intros _ _. by destruct (ai_atom _ Ha) as [[|] _].
  - unfold mbind, M_bind, invoke. rewrite (comp_take_run spd _ m) by apply Hwi.
    destruct (lock_is_thd_blocked m t); cbn.
    { eexists; eapply two_invoke; eauto; try done; [apply Hw|apply Hgen]. }
    destruct (Z.eqb_spec (l_gen_num m) (gen s)) as [E|E]; cbn; eexists; eapply two_invoke; eauto; cbn; try done.
    + right. unfold u64. rewrite Z.mod_small; lia.
    + unfold u64. rewrite Z.mod_small; lia.
    + intros u [->|Hu]%elem_of_cons; [right|by left].
      by destruct (tw_take _ _ _ Hw _ _ Ht) as [|].
    + lia.
  - case_decide; cbn; [|two_plain]. mrun. cbn.
    destruct (negb _); mrun; two_plain.
  - unfold mbind, M_bind. rewrite cmpxchg_run. case_decide as E; cbn.
    + rewrite decide_True by done. rewrite Z.eqb_refl. cbn. eexists; eapply two_plain; eauto; try done.
      left. cbn. by rewrite E.
    + case_decide; [|two_plain]. cbn.
      destruct (_ =? _); cbn; two_plain.
Qed.

Lemma two_release spd s n m t pc :
  linv spd s → two s n m → n + 1 < 2 ^ 64 → sy_thds s !! t = Some (Releasing pc) →
  let '(th', sh) := thread_step spd 1 t (Releasing pc) (sy_shared s) in
  ∃ m', two (stepped s t th' sh) (n + 1) m'.
Proof.
  intros Hi Hw Hn Ht. pose proof Hi as (Ha & g & m0 & Hwi).
  assert (m0 = m) as -> by (pose proof (wi_lc _ _ _ _ Hwi); pose proof (tw_lc _ _ _ Hw); congruence).
  pose proof (tw_gen _ _ _ Hw) as Hgen. pose proof (ai_thd _ Ha _ _ Ht) as (_ & _ & H3).
  destruct pc as [|p| |[|b l]|p]; cbn [thread_step lock_release]; mrun.
  - destruct (_ =? t); mrun; [destruct (negb _); two_plain|two_plain].
  - destruct H3 as [<- _]. unfold mbind, M_bind. rewrite cmpxchg_run, decide_True by done. cbn.
    rewrite bool_decide_eq_true_2 by done. two_plain.
  - unfold mbind, M_bind, invoke. rewrite (comp_release_run spd _ m) by apply Hwi. cbn. eexists. split; cbn.
    + done.
    + eapply slow_step; [exact Hw|exact Ht|done].
    + unfold u64. rewrite Z.mod_small by lia. cbn. lia.
    + intros u p _. left. unfold u64. rewrite Z.mod_small by lia. cbn. lia.
    + intros u Hu. by apply not_elem_of_nil in Hu.
  - two_plain.
  - destruct (b_timed b); [two_plain|]. destruct (negb _); mrun; two_plain.
  - unfold mbind, M_bind. rewrite cmpxchg_run. subst p. cbn. case_decide as E; cbn -[Z.eqb].
    + rewrite decide_True by done. cbn -[Z.eqb].
      destruct (negb _); cbn; eexists; eapply two_plain; eauto; try done; left; cbn; by rewrite E.
    + case_decide; [|two_plain]. cbn -[Z.eqb]. destruct (negb _); cbn; two_plain.
Qed.

Lemma two_step spd s n m lb a b :
  linv spd s → two s n m → n + 1 < 2 ^ 64 → (∀ u th, sy_thds s !! u = Some th → u = a ∨ u = b) →
  ∃ m', two (sys_step spd 1 lb s) (n + 1) m'.
Proof.
  intros Hi Hw Hn Hab. pose proof (tw_gen _ _ _ Hw) as Hgen. destruct lb as [t|]; cbn [sys_step].
  - destruct (sy_thds s !! t) as [th|] eqn:Ht; [|exists m; destruct Hw; split; try done; lia].
    assert (let '(th', sh) := thread_step spd 1 t th (sy_shared s) in
            ∃ m', two (stepped s t th' sh) (n + 1) m') as H.
    { destruct th as [|pc| |pc| | |]; cbn [thread_step]; try two_plain.
      - eapply two_take; eauto.
      - eapply two_release; eauto. }
    by destruct (thread_step spd 1 t th (sy_shared s)).
  - exists m. destruct Hw as [H1 H2 H3 H4 H5].
    assert (u64 (gen s + 1) = gen s + 1) as E by (unfold u64; rewrite Z.mod_small; lia).
    split; cbn; rewrite ?E; try done; [lia|]. intros t p _. left. lia.
Qed.

Lemma step_dom spd s lb u : is_Some (sy_thds (sys_step spd 1 lb s) !! u) → is_Some (sy_thds s !! u).
Proof.
  destruct lb as [t|]; cbn; [|done]. destruct (sy_thds s !! t) as [th|] eqn:Ht; [|done].
  destruct (thread_step spd 1 t th (sy_shared s)) as [th' sh]. cbn.
  rewrite lookup_insert_is_Some. intros [<-|[_ ?]]; eauto.
Qed.

Lemma two_run spd s n m ls a b :
  linv spd s → two s n m → n + Z.of_nat (length ls) < 2 ^ 64 →
  (∀ u th, sy_thds s !! u = Some th → u = a ∨ u = b) →
  ∃ m', two (sys_run spd 1 ls s) (n + Z.of_nat (length ls)) m'.
Proof.
  revert s n m. induction ls as [|lb ls IH]; intros s n m Hi Hw Hn Hab.
  - exists m. cbn. by rewrite Z.add_0_r.
  - cbn [length] in Hn. destruct (two_step spd s n m lb a b Hi Hw) as [m' Hw']; [lia|done|].
    destruct (IH (sys_step spd 1 lb s) (n + 1) m') as [m2 H2]; [by apply linv_step|done|lia| |].
    + intros u th Hu. destruct (step_dom spd s lb u) as [th0 H0]; eauto.
    + exists m2. cbn [length sys_run foldl]. by replace (n + Z.of_nat (S (length ls))) with (n + 1 + Z.of_nat (length ls)) by lia.
Qed.

(** C14. With two threads nobody waits in vain: whenever a thread is blocked on
    the lock, the other one owns the lock and is going to find it contested at
    its release, or it is about to invoke the component, or to wake the thread,
    or the thread was woken already.  (For fewer than 2^64 steps, after which
    the number of the generation repeats.) *)
Theorem lock_two_threads_wake spd a b ls t :
  a ≠ 0 → b ≠ 0 → Z.of_nat (length ls) < 2 ^ 64 →
  let s := sys_run spd 1 ls (init_sys spd {[a; b]}) in
  sy_thds s !! t = Some (Taking TBlocked) →
  (∃ th, a_contested (atm s) = 1 ∧ a_owner (atm s) ≠ t ∧
     sy_thds s !! a_owner (atm s) = Some th ∧ owns th = true) ∨
  (∃ u, sy_thds s !! u = Some (Releasing RComponent)) ∨
  (∃ u l, sy_thds s !! u = Some (Releasing (RWake l)) ∧ t ∈ ids l) ∨
  t ∈ sh_woken (sy_shared s).
Proof.
  intros Hza Hzb Hlen s Ht. assert (linv spd (init_sys spd {[a; b]})) as Hi0 by (apply linv_init; set_solver).
  destruct (two_run spd (init_sys spd {[a; b]}) 0 (MkLock 0 spd 1 [] 0) ls a b Hi0) as [m Hw].
  { split; cbn; try done.
    - intros v u th th' [_ <-]%lookup_gset_to_gmap_Some. done.
    - intros v p [_ [=]]%lookup_gset_to_gmap_Some.
    - intros v Hv. by apply not_elem_of_nil in Hv. }
  { lia. }
  { intros u th [Hu _]%lookup_gset_to_gmap_Some. set_solver. }
  pose proof (linv_run spd ls _ Hi0) as (Ha & g & m0 & Hwi). fold s in Hw, Ha, Hwi.
  assert (m0 = m) as -> by (pose proof (wi_lc _ _ _ _ Hwi); pose proof (tw_lc _ _ _ Hw); congruence).
  destruct (proj2 (wi_blk _ _ _ _ Hwi t) Ht) as [[|u|] Hg].
  - destruct (tw_blk _ _ _ Hw t) as [Hc|Hc]; [by apply Hwi| |by right; left]. left.
    destruct (ai_owner _ Ha) as (th & Hth & Ho).
    { intros E. by rewrite (proj2 (ai_atom _ Ha) E) in Hc. }
    exists th. split; [done|]. split; [|done]. intros E. rewrite E, Ht in Hth. by simplify_eq.
  - destruct (wi_waker _ _ _ _ Hwi t u Hg) as [l Hl]. right; right; left. exists u, l. split; [done|].
    by apply (wi_wake _ _ _ _ Hwi u l Hl).
  - right; right; right. by apply Hwi.
Qed.

(** ** Three threads *)

#[local] Abbreviation runs n t := (replicate n (Run t)).

(** Thread 2 is preempted between its assertion and its call of the component;
    thread 1 releases the lock and takes it again; thread 3, which finds it
    taken, records the new generation for the lock and is preempted; now the
    call of thread 2 blocks, though nobody marked the lock as contested; threads
    1 and 3 release it without a call. *)
Definition forgetful : list label :=
  runs 3 1 ++ runs 7 2 ++ runs 5 1 ++ runs 3 1 ++ runs 3 3 ++ runs 1 2 ++ runs 3 1 ++ runs 6 3.


(** The assertion that fails: the owner releases between the mark and the
    check. *)
Lemma contested_assert_fails :
  ∃ p, sy_thds (sys_run 7 1 (runs 3 1 ++ runs 6 2 ++ runs 4 1 ++ runs 1 2) (init_sys 7 {[1; 2]})) !! 2
    = Some (CrashedTaking (TAssert p)).
Proof. eexists. by vm_compute. Qed.

Lemma lock_mutual_exclusion_witness :
  (0 ∉ ({[1; 2; 3]} : gset Z)) ∧
  (∀ t u th th', sy_thds (sys_run 7 1 forgetful (init_sys 7 {[1; 2; 3]})) !! t = Some th →
     sy_thds (sys_run 7 1 forgetful (init_sys 7 {[1; 2; 3]})) !! u = Some th' →
     owns th = true → owns th' = true → t = u).
Proof. split; [by vm_compute|]. apply (lock_mutual_exclusion 7 {[1; 2; 3]} forgetful). by vm_compute. Defined.

(** Thread 2 blocks while thread 1 has the lock. *)
Lemma lock_two_threads_wake_witness :
  let s := sys_run 7 1 (runs 3 1 ++ runs 8 2) (init_sys 7 {[1; 2]}) in
  sy_thds s !! 2 = Some (Taking TBlocked) ∧
  ((∃ th, a_contested (atm s) = 1 ∧ a_owner (atm s) ≠ 2 ∧
      sy_thds s !! a_owner (atm s) = Some th ∧ owns th = true) ∨
   (∃ u, sy_thds s !! u = Some (Releasing RComponent)) ∨
   (∃ u l, sy_thds s !! u = Some (Releasing (RWake l)) ∧ 2 ∈ ids l) ∨
   2 ∈ sh_woken (sy_shared s)).
Proof.
  assert (sy_thds (sys_run 7 1 (runs 3 1 ++ runs 8 2) (init_sys 7 {[1; 2]})) !! 2
          = Some (Taking TBlocked)) as Ht by (by vm_compute).
  split; [exact Ht|].
  apply (lock_two_threads_wake 7 1 2 (runs 3 1 ++ runs 8 2) 2); [done|done|by vm_compute|exact Ht].
Defined.
