(* ===== verification/TimedEvt.v ===== *)
(** * Timed and periodic events

    Model of [components/implementation/timed_blk/timed_evt/timed_event.c]: the
    component that puts threads to sleep for a number of clock ticks, wakes
    periodic threads, and counts the deadlines they miss.

    The two circular lists are lists of structures here, the first element
    first; a structure is on a list exactly when it is an element of it.  The
    vectors from thread ids to structures are finite maps, which is what
    VectInv.v proves of them.  Calls of the scheduler are recorded in the state
    in their order; the scheduler lock around an operation is taken without a
    failure. *)

From stdpp Require Import base list numbers option gmap.
From S2P Require Import Prelude.
Local Open Scope Z_scope.

Definition TIMER_NO_EVENTS : Z := 2 ^ 64 - 1.
Definition TE_TIMED_OUT : Z := 0x1.
Definition TE_BLOCKED : Z := 0x2.
Definition TE_PERIODIC : Z := 0x4.
Definition TIMER_EXPIRED : Z := -2.

(** [struct thread_event]. *)
Record thread_event : Type := MkTe {
  te_event_expiration : Z;
  te_thread_id : Z;
  te_flags : Z;
  te_period : Z;
  te_missed : Z;
  te_dl : Z;
  te_dl_missed : Z;
  te_samples : Z;
  te_miss_samples : Z;
  te_lateness_tot : Z;
  te_miss_lateness_tot : Z;
  te_completion : Z
}.

Definition set_te_event_expiration (v : Z) (r : thread_event) : thread_event :=
  MkTe v (te_thread_id r) (te_flags r) (te_period r) (te_missed r) (te_dl r)
    (te_dl_missed r) (te_samples r) (te_miss_samples r) (te_lateness_tot r)
    (te_miss_lateness_tot r) (te_completion r).
Definition set_te_thread_id (v : Z) (r : thread_event) : thread_event :=
  MkTe (te_event_expiration r) v (te_flags r) (te_period r) (te_missed r)
    (te_dl r) (te_dl_missed r) (te_samples r) (te_miss_samples r)
    (te_lateness_tot r) (te_miss_lateness_tot r) (te_completion r).
Definition set_te_flags (v : Z) (r : thread_event) : thread_event :=
  MkTe (te_event_expiration r) (te_thread_id r) v (te_period r) (te_missed r)
    (te_dl r) (te_dl_missed r) (te_samples r) (te_miss_samples r)
    (te_lateness_tot r) (te_miss_lateness_tot r) (te_completion r).
Definition set_te_period (v : Z) (r : thread_event) : thread_event :=
  MkTe (te_event_expiration r) (te_thread_id r) (te_flags r) v (te_missed r)
    (te_dl r) (te_dl_missed r) (te_samples r) (te_miss_samples r)
    (te_lateness_tot r) (te_miss_lateness_tot r) (te_completion r).
Definition set_te_missed (v : Z) (r : thread_event) : thread_event :=
  MkTe (te_event_expiration r) (te_thread_id r) (te_flags r) (te_period r) v
    (te_dl r) (te_dl_missed r) (te_samples r) (te_miss_samples r)
    (te_lateness_tot r) (te_miss_lateness_tot r) (te_completion r).
Definition set_te_dl (v : Z) (r : thread_event) : thread_event :=
  MkTe (te_event_expiration r) (te_thread_id r) (te_flags r) (te_period r)
    (te_missed r) v (te_dl_missed r) (te_samples r) (te_miss_samples r)
    (te_lateness_tot r) (te_miss_lateness_tot r) (te_completion r).
Definition set_te_dl_missed (v : Z) (r : thread_event) : thread_event :=
  MkTe (te_event_expiration r) (te_thread_id r) (te_flags r) (te_period r)
    (te_missed r) (te_dl r) v (te_samples r) (te_miss_samples r)
    (te_lateness_tot r) (te_miss_lateness_tot r) (te_completion r).
Definition set_te_samples (v : Z) (r : thread_event) : thread_event :=
  MkTe (te_event_expiration r) (te_thread_id r) (te_flags r) (te_period r)
    (te_missed r) (te_dl r) (te_dl_missed r) v (te_miss_samples r)
    (te_lateness_tot r) (te_miss_lateness_tot r) (te_completion r).
Definition set_te_miss_samples (v : Z) (r : thread_event) : thread_event :=
  MkTe (te_event_expiration r) (te_thread_id r) (te_flags r) (te_period r)
    (te_missed r) (te_dl r) (te_dl_missed r) (te_samples r) v
    (te_lateness_tot r) (te_miss_lateness_tot r) (te_completion r).
Definition set_te_lateness_tot (v : Z) (r : thread_event) : thread_event :=
  MkTe (te_event_expiration r) (te_thread_id r) (te_flags r) (te_period r)
    (te_missed r) (te_dl r) (te_dl_missed r) (te_samples r)
    (te_miss_samples r) v (te_miss_lateness_tot r) (te_completion r).
Definition set_te_miss_lateness_tot (v : Z) (r : thread_event) : thread_event :=
  MkTe (te_event_expiration r) (te_thread_id r) (te_flags r) (te_period r)
    (te_missed r) (te_dl r) (te_dl_missed r) (te_samples r)
    (te_miss_samples r) (te_lateness_tot r) v (te_completion r).
Definition set_te_completion (v : Z) (r : thread_event) : thread_event :=
  MkTe (te_event_expiration r) (te_thread_id r) (te_flags r) (te_period r)
    (te_missed r) (te_dl r) (te_dl_missed r) (te_samples r)
    (te_miss_samples r) (te_lateness_tot r) (te_miss_lateness_tot r) v.

(** The variables of the component; [ts_te] are the structures that were
    allocated.  The last three components are outside of it: the threads for
    which [sched_wakeup] was called, the arguments of [sched_timeout], each
    the latest first, and what [rdtscll] is going to read. *)
Record tstate : Type := MkTs {
  ts_ticks : Z;
  ts_cyc_per_tick : Z;
  ts_te : list thread_event;
  ts_events : list nat;
  ts_periodic : list nat;
  ts_thd_evts : gmap Z nat;
  ts_thd_periodic : gmap Z nat;
  ts_woken : list Z;
  ts_timeouts : list Z;
  ts_tsc : list Z
}.

Definition set_ts_ticks (v : Z) (r : tstate) : tstate :=
  MkTs v (ts_cyc_per_tick r) (ts_te r) (ts_events r) (ts_periodic r)
    (ts_thd_evts r) (ts_thd_periodic r) (ts_woken r) (ts_timeouts r)
    (ts_tsc r).
Definition set_ts_cyc_per_tick (v : Z) (r : tstate) : tstate :=
  MkTs (ts_ticks r) v (ts_te r) (ts_events r) (ts_periodic r) (ts_thd_evts r)
    (ts_thd_periodic r) (ts_woken r) (ts_timeouts r) (ts_tsc r).
Definition set_ts_te (v : list thread_event) (r : tstate) : tstate :=
  MkTs (ts_ticks r) (ts_cyc_per_tick r) v (ts_events r) (ts_periodic r)
    (ts_thd_evts r) (ts_thd_periodic r) (ts_woken r) (ts_timeouts r)
    (ts_tsc r).
Definition set_ts_events (v : list nat) (r : tstate) : tstate :=
  MkTs (ts_ticks r) (ts_cyc_per_tick r) (ts_te r) v (ts_periodic r)
    (ts_thd_evts r) (ts_thd_periodic r) (ts_woken r) (ts_timeouts r)
    (ts_tsc r).
Definition set_ts_periodic (v : list nat) (r : tstate) : tstate :=
  MkTs (ts_ticks r) (ts_cyc_per_tick r) (ts_te r) (ts_events r) v
    (ts_thd_evts r) (ts_thd_periodic r) (ts_woken r) (ts_timeouts r)
    (ts_tsc r).
Definition set_ts_thd_evts (v : gmap Z nat) (r : tstate) : tstate :=
  MkTs (ts_ticks r) (ts_cyc_per_tick r) (ts_te r) (ts_events r)
    (ts_periodic r) v (ts_thd_periodic r) (ts_woken r) (ts_timeouts r)
    (ts_tsc r).
Definition set_ts_thd_periodic (v : gmap Z nat) (r : tstate) : tstate :=
  MkTs (ts_ticks r) (ts_cyc_per_tick r) (ts_te r) (ts_events r)
    (ts_periodic r) (ts_thd_evts r) v (ts_woken r) (ts_timeouts r) (ts_tsc r).
Definition set_ts_woken (v : list Z) (r : tstate) : tstate :=
  MkTs (ts_ticks r) (ts_cyc_per_tick r) (ts_te r) (ts_events r)
    (ts_periodic r) (ts_thd_evts r) (ts_thd_periodic r) v (ts_timeouts r)
    (ts_tsc r).
Definition set_ts_timeouts (v : list Z) (r : tstate) : tstate :=
  MkTs (ts_ticks r) (ts_cyc_per_tick r) (ts_te r) (ts_events r)
    (ts_periodic r) (ts_thd_evts r) (ts_thd_periodic r) (ts_woken r) v
    (ts_tsc r).
Definition set_ts_tsc (v : list Z) (r : tstate) : tstate :=
  MkTs (ts_ticks r) (ts_cyc_per_tick r) (ts_te r) (ts_events r)
    (ts_periodic r) (ts_thd_evts r) (ts_thd_periodic r) (ts_woken r)
    (ts_timeouts r) v.

#[local] Abbreviation T := (M tstate).

Definition get_te (n : nat) : T thread_event := l ← gets ts_te; deref (l !! n).
Definition upd_te (n : nat) (f : thread_event → thread_event) : T unit :=
  get_te n;; modify (λ s, set_ts_te (alter f n (ts_te s)) s).

(** The list [events] or [periodic], with the vector that belongs to it. *)
Inductive queue : Set := Events | Periodic.

Definition queue_of (q : queue) (s : tstate) : list nat :=
  match q with Events => ts_events s | Periodic => ts_periodic s end.
Definition set_queue (q : queue) (l : list nat) (s : tstate) : tstate :=
  match q with Events => set_ts_events l s | Periodic => set_ts_periodic l s end.
Definition vect_of (q : queue) (s : tstate) : gmap Z nat :=
  match q with Events => ts_thd_evts s | Periodic => ts_thd_periodic s end.
Definition set_vect (q : queue) (v : gmap Z nat) (s : tstate) : tstate :=
  match q with Events => set_ts_thd_evts v s | Periodic => set_ts_thd_periodic v s end.

(** [EMPTY_LIST(te, next, prev)]: on no list. *)
Definition off_list (n : nat) (s : tstate) : bool :=
  bool_decide (n ∉ ts_events s) && bool_decide (n ∉ ts_periodic s).

(** [REM_LIST(te, next, prev)]. *)
Definition rem_list (n : nat) : T unit :=
  modify (λ s, set_ts_events (filter (.≠ n) (ts_events s))
                 (set_ts_periodic (filter (.≠ n) (ts_periodic s)) s)).

(** Reading the time stamp counter. *)
Definition rdtscll : T Z :=
  l ← gets ts_tsc;
  match l with
  | [] => mret 0
  | t :: l => modify (set_ts_tsc l);; mret t
  end.

Definition sched_wakeup (tid : Z) : T unit := modify (λ s, set_ts_woken (tid :: ts_woken s) s).
Definition sched_timeout (amnt : Z) : T unit := modify (λ s, set_ts_timeouts (amnt :: ts_timeouts s) s).

(** [__te_get]: the structure of a thread.  [mal]: [malloc] has memory; [add]:
    [cos_vect_add_id] succeeds. *)
Definition te_get_ (mal add : bool) (tid : Z) (q : queue) : T (option nat) :=
  v ← gets (vect_of q);
  match v !! tid with
  | Some n => mret (Some n)
  | None =>
      if negb mal then mret None
      else
        l ← gets ts_te;
        modify (set_ts_te (l ++ [MkTe 0 tid 0 0 0 0 0 0 0 0 0 0]));;
        if negb add then mret None
        else modify (set_vect q (<[tid := length l]> v));; mret (Some (length l))
  end.

Definition te_pget (mal add : bool) (tid : Z) : T (option nat) := te_get_ mal add tid Periodic.
Definition te_get (mal add : bool) (tid : Z) : T (option nat) := te_get_ mal add tid Events.

(** The loop of [__insert_event] from the structure [tmp] on, which is [None] at
    the head of the list: the place is before the first later event. *)
Fixpoint insert_loop (te : nat) (rest : list nat) : T (list nat) :=
  match rest with
  | [] => mret [te]
  | tmp :: rest =>
      x ← get_te tmp;
      y ← get_te te;
      if te_event_expiration y <? te_event_expiration x then mret (te :: tmp :: rest)
      else l ← insert_loop te rest; mret (tmp :: l)
  end.

Definition insert_event_ (te : nat) (q : queue) : T Z :=
  x ← get_te te;
  assert (negb (te_event_expiration x =? 0));;
  e ← gets (off_list te);
  assert e;;
  l ← gets (queue_of q);
  l ← insert_loop te l;
  modify (set_queue q l);;
  mret 0.

Definition insert_event (te : nat) : T Z := insert_event_ te Events.
Definition insert_pevent (te : nat) : T Z := insert_event_ te Periodic.

(** The loop of [find_remove_event]. *)
Fixpoint find_remove_loop (thdid : Z) (rest : list nat) : T (option nat) :=
  match rest with
  | [] => mret None
  | tmp :: rest =>
      x ← get_te tmp;
      if te_thread_id x =? thdid then rem_list tmp;; mret (Some tmp)
      else find_remove_loop thdid rest
  end.

Definition find_remove_event (thdid : Z) : T (option nat) :=
  l ← gets ts_events; find_remove_loop thdid l.

(** The branch of [__event_expiration] for a periodic thread; [b]: the thread
    had blocked before its deadline. *)
Definition missed_deadline (tmp : nat) : T unit :=
  upd_te tmp (λ x, set_te_dl_missed (u16 (te_dl_missed x + 1)) x);;
  x ← get_te tmp;
  if te_missed x =? 0 then
    upd_te tmp (set_te_missed 1);;
    assert (te_completion x =? 0);;
    t ← rdtscll;
    upd_te tmp (set_te_completion t);;
    upd_te tmp (λ x, set_te_miss_samples (u32 (te_miss_samples x + 1)) x);;
    upd_te tmp (λ x, set_te_samples (u32 (te_samples x + 1)) x)
  else
    cyc ← gets ts_cyc_per_tick;
    let period_cyc := u32 (te_period x * cyc) in
    assert (cyc <? period_cyc);;
    upd_te tmp (λ x, set_te_lateness_tot (s64 (te_lateness_tot x + period_cyc)) x);;
    upd_te tmp (λ x, set_te_miss_lateness_tot (s64 (te_miss_lateness_tot x + period_cyc)) x);;
    t ← rdtscll;
    upd_te tmp (set_te_completion t).

Definition met_deadline (tmp : nat) : T unit :=
  x ← get_te tmp;
  when (te_missed x =? 0) (
    assert (negb (te_completion x =? 0));;
    t ← rdtscll;
    upd_te tmp (λ x, set_te_lateness_tot (s64 (te_lateness_tot x + - (t - te_completion x))) x);;
    upd_te tmp (λ x, set_te_samples (u32 (te_samples x + 1)) x);;
    upd_te tmp (set_te_completion 0));;
  upd_te tmp (set_te_missed 0).

Definition next_period (tmp : nat) (b : bool) : T unit :=
  (if b then met_deadline tmp else missed_deadline tmp);;
  upd_te tmp (λ x, set_te_dl (u16 (te_dl x + 1)) x);;
  upd_te tmp (λ x, set_te_event_expiration (u64 (te_event_expiration x + te_period x)) x);;
  insert_pevent tmp;;
  mret tt.

(** [FIRST_LIST(tmp, next, prev)]: the structure after [tmp] on its list. *)
Fixpoint after (tmp : nat) (l : list nat) : option nat :=
  match l with
  | [] => None
  | x :: l => if decide (x = tmp) then head l else after tmp l
  end.

(** One event that is due; the result is the one that was next before. *)
Definition expire_one (tmp : nat) (q : queue) : T (option nat) :=
  l ← gets (queue_of q);
  let next_te := after tmp l in
  upd_te tmp (λ x, set_te_flags (bset (te_flags x) TE_TIMED_OUT) x);;
  rem_list tmp;;
  x ← get_te tmp;
  let b := has (te_flags x) TE_BLOCKED in
  upd_te tmp (λ x, set_te_flags (bclr (te_flags x) TE_BLOCKED) x);;
  when (has (te_flags x) TE_PERIODIC) (next_period tmp b);;
  when b (sched_wakeup (te_thread_id x));;
  mret next_te.

Fixpoint expiration_loop (fuel : nat) (time : Z) (q : queue) (tmp : option nat) : T unit :=
  match fuel with
  | O => fail NoFuel
  | S fuel =>
      match tmp with
      | None => mret tt
      | Some tmp =>
          x ← get_te tmp;
          if time <? te_event_expiration x then mret tt
          else next_te ← expire_one tmp q; expiration_loop fuel time q next_te
      end
  end.

(** Each round moves one event at least one tick into the future, so this is
    enough fuel. *)
Definition expire_fuel (time : Z) (q : queue) (s : tstate) : nat :=
  S (sum_list_with (λ n, match ts_te s !! n with
                         | Some x => Z.to_nat (time - te_event_expiration x + 1)
                         | None => 0%nat
                         end) (queue_of q s)).

Definition event_expiration_ (time : Z) (q : queue) : T unit :=
  assert (negb (time =? TIMER_NO_EVENTS));;
  l ← gets (queue_of q);
  fuel ← gets (expire_fuel time q);
  expiration_loop fuel time q (head l).

Definition event_expiration (time : Z) : T unit :=
  event_expiration_ time Periodic;;
  event_expiration_ time Events.

(** The expiration of the first event of a list. *)
Definition first_expiration (q : queue) : T Z :=
  l ← gets (queue_of q);
  match head l with
  | None => mret TIMER_NO_EVENTS
  | Some n => x ← get_te n; mret (te_event_expiration x)
  end.

Definition next_event_time : T Z :=
  e ← first_expiration Events;
  p ← first_expiration Periodic;
  mret (Z.min e p).

(** ** The interface *)

(** [timed_event_block] up to the call of [sched_block].  [tid]: the current
    thread; [now]: what [sched_timestamp] returns.  The result is the structure
    of the thread and [block_time], or [None] when the function returns 0. *)
Definition timed_event_block (mal add : bool) (tid now amnt : Z) : T (option (nat * Z)) :=
  if amnt =? 0 then mret None
  else
    let amnt := u32 (amnt + 1) in
    te ← te_get mal add tid;
    assert (bool_decide (te ≠ None));;
    te ← deref te;
    e ← gets (off_list te);
    assert e;;
    upd_te te (set_te_thread_id tid);;
    upd_te te (λ x, set_te_flags (bclr (te_flags x) TE_TIMED_OUT) x);;
    upd_te te (λ x, set_te_flags (bset (te_flags x) TE_BLOCKED) x);;
    modify (set_ts_ticks now);;
    upd_te te (set_te_event_expiration (u64 (now + amnt)));;
    let block_time := s32 now in
    x ← get_te te;
    assert (now <? te_event_expiration x);;
    t ← next_event_time;
    insert_event te;;
    e ← gets (off_list te);
    assert (negb e);;
    t' ← next_event_time;
    when (negb (t =? t')) (sched_timeout amnt);;
    mret (Some (te, block_time)).

(** And from the return of [sched_block] on. *)
Definition timed_event_block_return (te : nat) (block_time : Z) : T Z :=
  e ← gets (off_list te);
  assert e;;
  x ← get_te te;
  if has (te_flags x) TE_TIMED_OUT then mret TIMER_EXPIRED
  else t ← gets ts_ticks; mret (s32 (s32 t - block_time - 1)).

(** [ret]: what [sched_wakeup] returns. *)
Definition timed_event_wakeup (now thd_id ret : Z) : T Z :=
  modify (set_ts_ticks now);;
  evt ← find_remove_event thd_id;
  match evt with
  | None => mret 1
  | Some n =>
      x ← get_te n;
      assert (te_thread_id x =? thd_id);;
      sched_wakeup thd_id;;
      mret ret
  end.

Definition LONG_MAX : Z := 2 ^ 31 - 1.
Definition LONG_MIN : Z := - 2 ^ 31.

(** The quotients are of 64-bit integers: the number of samples is positive. *)
Definition te_get_reset_lateness (n : nat) : T Z :=
  x ← get_te n;
  if te_samples x =? 0 then mret 0
  else
    let q := Z.quot (te_lateness_tot x) (te_samples x) in
    let avg := if te_lateness_tot x <? 0
               then (if q <=? LONG_MIN then LONG_MIN else q)
               else (if LONG_MAX <=? q then LONG_MAX else q) in
    upd_te n (set_te_lateness_tot 0);;
    upd_te n (set_te_samples 0);;
    mret (s32 avg).

Definition te_get_reset_miss_lateness (n : nat) : T Z :=
  x ← get_te n;
  if te_miss_samples x =? 0 then mret 0
  else
    let q := Z.quot (te_miss_lateness_tot x) (te_miss_samples x) in
    let avg := if LONG_MAX <=? q then LONG_MAX else q in
    upd_te n (set_te_miss_lateness_tot 0);;
    upd_te n (set_te_miss_samples 0);;
    mret (s32 avg).

(** The common part of the functions about a periodic thread: its structure, and
    [other] when it is not periodic. *)
Definition for_periodic {A} (mal add : bool) (tid : Z) (other : A) (f : nat → T A) : T A :=
  te ← te_pget mal add tid;
  assert (bool_decide (te ≠ None));;
  te ← deref te;
  x ← get_te te;
  if negb (has (te_flags x) TE_PERIODIC) then mret other else f te.

Definition periodic_wake_get_lateness (mal add : bool) (tid : Z) : T Z :=
  for_periodic mal add tid 0 te_get_reset_lateness.

Definition periodic_wake_get_miss_lateness (mal add : bool) (tid : Z) : T Z :=
  for_periodic mal add tid 0 te_get_reset_miss_lateness.

Definition periodic_wake_get_misses (mal add : bool) (tid : Z) : T Z :=
  for_periodic mal add tid (-1) (λ te,
    x ← get_te te; upd_te te (set_te_dl_missed 0);; mret (te_dl_missed x)).

Definition periodic_wake_get_deadlines (mal add : bool) (tid : Z) : T Z :=
  for_periodic mal add tid (-1) (λ te,
    x ← get_te te; upd_te te (set_te_dl 0);; mret (te_dl x)).

Definition periodic_wake_get_period (mal add : bool) (tid : Z) : T Z :=
  for_periodic mal add tid (-1) (λ te, x ← get_te te; mret (s32 (te_period x))).

Definition periodic_wake_create (mal add : bool) (tid now period : Z) : T Z :=
  if period <? 1 then mret (-1)
  else
    te ← te_pget mal add tid;
    assert (bool_decide (te ≠ None));;
    te ← deref te;
    x ← get_te te;
    when (has (te_flags x) TE_PERIODIC) (
      e ← gets (off_list te);
      assert (negb e);;
      rem_list te);;
    e ← gets (off_list te);
    assert e;;
    upd_te te (λ x, set_te_flags (bset (te_flags x) TE_PERIODIC) x);;
    upd_te te (set_te_period period);;
    modify (set_ts_ticks now);;
    let n := u64 (now + period) in
    upd_te te (set_te_event_expiration n);;
    assert (now <? n);;
    t ← next_event_time;
    assert (now <? t);;
    insert_pevent te;;
    when (n <? t) (sched_timeout (u32 (n - now)));;
    mret 0.

Definition periodic_wake_remove (mal add : bool) (tid : Z) : T Z :=
  for_periodic mal add tid (-1) (λ te,
    e ← gets (off_list te);
    assert (negb e);;
    rem_list te;;
    upd_te te (set_te_flags 0);;
    mret 0).

(** [periodic_wake_wait] up to the call of [sched_block], after which it returns
    0. *)
Definition periodic_wake_wait (mal add : bool) (tid : Z) : T Z :=
  for_periodic mal add tid (-1) (λ te,
    e ← gets (off_list te);
    assert (negb e);;
    upd_te te (λ x, set_te_flags (bset (te_flags x) TE_BLOCKED) x);;
    t ← rdtscll;
    x ← get_te te;
    (if negb (te_missed x =? 0) then
       assert (negb (te_completion x =? 0));;
       let diff := t - te_completion x in
       upd_te te (λ x, set_te_lateness_tot (s64 (te_lateness_tot x + diff)) x);;
       upd_te te (λ x, set_te_miss_lateness_tot (s64 (te_miss_lateness_tot x + diff)) x);;
       upd_te te (set_te_completion 0)
     else upd_te te (set_te_completion t));;
    mret 0).

(** ** The timer thread *)

(** [start_timer_thread] up to its loop, where it blocks for the first time;
    [now], [freq] and [cyc] are the answers of the scheduler. *)
Definition timer_init (now freq cyc : Z) : T unit :=
  modify (set_ts_events []);;
  modify (set_ts_periodic []);;
  modify (set_ts_thd_evts ∅);;
  modify (set_ts_thd_periodic ∅);;
  assert (freq =? 100);;
  modify (set_ts_ticks now);;
  modify (set_ts_cyc_per_tick cyc).

(** One round of the loop: [true] when the thread blocks without a timeout. *)
Definition timer_round (now : Z) : T bool :=
  modify (set_ts_ticks now);;
  event_expiration now;;
  next_wakeup ← next_event_time;
  if next_wakeup =? TIMER_NO_EVENTS then mret true
  else
    assert (now <? next_wakeup);;
    sched_timeout (u32 (next_wakeup - now));;
    mret false.
