(* ===== verification/TimedEvtInv.v ===== *)
(** * Correctness of timed and periodic events

    The lists are sorted by expiration; a round of the timer thread wakes
    exactly the threads that are due and sleeps until the next event. *)

From stdpp Require Import base list numbers option gmap sorting.
From S2P Require Import Prelude TimedEvt.
Local Open Scope Z_scope.

(** ** Structures and lists *)

Definition put (n : nat) (x : thread_event) (s : tstate) : tstate :=
  set_ts_te (<[n := x]> (ts_te s)) s.

Definition expo (s : tstate) (n : nat) : Z :=
  default 0 (te_event_expiration <$> ts_te s !! n).

(** Earlier events first. *)
Definition sorted (s : tstate) (l : list nat) : Prop :=
  StronglySorted (λ a b, expo s a ≤ expo s b) l.

Lemma get_te_run n x s : ts_te s !! n = Some x → get_te n s = Done x s.
Proof. intros Hx. unfold get_te. mrun. by rewrite Hx. Qed.

Lemma upd_te_run n f x s : ts_te s !! n = Some x → upd_te n f s = Done tt (put n (f x) s).
Proof.
  intros Hx. unfold upd_te. rewrite (bind_run _ _ _ _ _ (get_te_run _ _ _ Hx)).
  unfold modify, put. do 2 f_equal. by apply alter_at.
Qed.

Lemma put_lookup n x x' s : ts_te s !! n = Some x → ts_te (put n x' s) !! n = Some x'.
Proof. intros Hx. cbn. apply list_lookup_insert_eq. by eapply lookup_lt_Some. Qed.

Lemma put_other n m x s : n ≠ m → ts_te (put n x s) !! m = ts_te s !! m.
Proof. intros Hne. cbn. by apply list_lookup_insert_ne. Qed.

Lemma te_put_put n x y s : put n y (put n x s) = put n y s.
Proof. unfold put. cbn. by rewrite list_insert_insert_eq. Qed.

Lemma put_id n x s : ts_te s !! n = Some x → put n x s = s.
Proof. intros Hx. unfold put. rewrite list_insert_id by done. by destruct s. Qed.

(** Updates of one structure follow each other. *)
Lemma te_upd_put n f x s x0 :
  ts_te s !! n = Some x0 → upd_te n f (put n x s) = Done tt (put n (f x) s).
Proof. intros Hx. by rewrite (upd_te_run _ _ _ _ (put_lookup _ _ x _ Hx)), te_put_put. Qed.

Lemma te_get_put n x s x0 : ts_te s !! n = Some x0 → get_te n (put n x s) = Done x (put n x s).
Proof. intros Hx. apply get_te_run. by eapply put_lookup. Qed.

Lemma expo_at s n x : ts_te s !! n = Some x → expo s n = te_event_expiration x.
Proof. unfold expo. by intros ->. Qed.

Lemma expo_ext s s' l : (∀ n, n ∈ l → expo s' n = expo s n) → sorted s l → sorted s' l.
Proof.
  intros Hx Hs. induction Hs as [|a l _ IH Ha]; constructor.
  - apply IH. intros n Hn. apply Hx. by right.
  - apply Forall_forall. intros b Hb. rewrite !Hx by (by (left || right)).
    by apply (proj1 (Forall_forall _ _) Ha).
Qed.

Lemma sorted_filter s l P `{!∀ n, Decision (P n)} : sorted s l → sorted s (filter P l).
Proof.
  induction 1 as [|a l _ IH Ha]; [constructor|]. rewrite filter_cons. case_decide; [|done].
  constructor; [done|]. apply Forall_forall. intros b [_ Hb]%list_elem_of_filter.
  by apply (proj1 (Forall_forall _ _) Ha).
Qed.

(** ** Insertion *)

(** The place of [te] in a list: after the events that are not later. *)
Fixpoint place (s : tstate) (te : nat) (l : list nat) : list nat :=
  match l with
  | [] => [te]
  | tmp :: l => if expo s te <? expo s tmp then te :: tmp :: l else tmp :: place s te l
  end.

Lemma insert_loop_run s te l :
  is_Some (ts_te s !! te) → Forall (λ n, is_Some (ts_te s !! n)) l →
  insert_loop te l s = Done (place s te l) s.
Proof.
  intros [x Hx] Hl. induction Hl as [|tmp l [y Hy] _ IH]; [done|]. cbn [insert_loop place].
  rewrite (bind_run _ _ _ _ _ (get_te_run _ _ _ Hy)), (bind_run _ _ _ _ _ (get_te_run _ _ _ Hx)).
  rewrite (expo_at _ _ _ Hx), (expo_at _ _ _ Hy). destruct (_ <? _); [done|].
  by rewrite (bind_run _ _ _ _ _ IH).
Qed.

Lemma place_perm s te l : place s te l ≡ₚ te :: l.
Proof.
  induction l as [|tmp l IH]; [done|]. cbn. destruct (_ <? _); [done|]. rewrite IH. constructor.
Qed.

Lemma place_sorted s te l : sorted s l → sorted s (place s te l).
Proof.
  induction 1 as [|tmp l Hs IH Ha]; cbn; [by repeat constructor|].
  destruct (Z.ltb_spec (expo s te) (expo s tmp)) as [Hlt|Hge].
  - constructor; [by constructor|]. constructor; [lia|].
    eapply Forall_impl; [exact Ha|]. intros b Hb. cbn in Hb. lia.
  - constructor; [done|]. apply Forall_forall. intros b. rewrite place_perm.
    intros [->|Hb]%elem_of_cons; [lia|]. by apply (proj1 (Forall_forall _ _) Ha).
Qed.

(** It goes behind the events that are not later than it. *)
Lemma place_app s te l1 l2 :
  (∀ n, n ∈ l1 → expo s n ≤ expo s te) → place s te (l1 ++ l2) = l1 ++ place s te l2.
Proof.
  induction l1 as [|a l1 IH]; intros Hl; [done|]. cbn.
  destruct (Z.ltb_spec (expo s te) (expo s a)) as [Hlt|]; [specialize (Hl a ltac:(left)); lia|].
  rewrite IH; [done|]. intros n Hn. apply Hl. by right.
Qed.

Lemma place_ext s s' te l :
  (∀ n, n ∈ te :: l → expo s' n = expo s n) → place s' te l = place s te l.
Proof.
  induction l as [|a l IH]; intros Hx; [done|]. cbn. rewrite (Hx te), (Hx a) by set_solver.
  rewrite IH; [done|]. set_solver.
Qed.

Lemma insert_run s te q x :
  ts_te s !! te = Some x → te_event_expiration x ≠ 0 →
  te ∉ ts_events s → te ∉ ts_periodic s → Forall (λ n, is_Some (ts_te s !! n)) (queue_of q s) →
  insert_event_ te q s = Done 0 (set_queue q (place s te (queue_of q s)) s).
Proof.
  intros Hx Hz He Hp Hq. unfold insert_event_. rewrite (bind_run _ _ _ _ _ (get_te_run _ _ _ Hx)).
  destruct (Z.eqb_spec (te_event_expiration x) 0); [done|]. cbn [negb]. mrun.
  unfold off_list. rewrite !bool_decide_eq_true_2 by done. cbn [andb]. mrun.
  rewrite (bind_run _ _ _ _ _ (insert_loop_run _ _ _ ltac:(eauto) Hq)). by mrun.
Qed.

(** ** The invariant *)

Definition is_periodic (x : thread_event) : bool := has (te_flags x) TE_PERIODIC.

Instance queue_eq_dec : EqDecision queue.
Proof. solve_decision. Defined.

(** [h]: a periodic structure that is off its list for the moment. *)
Record tinv_ (h : option nat) (s : tstate) : Prop := {
  ti_dup : NoDup (ts_events s ++ ts_periodic s);
  ti_sorted : ∀ q, sorted s (queue_of q s);
  ti_on : ∀ q n, n ∈ queue_of q s → ∃ x,
    ts_te s !! n = Some x ∧ vect_of q s !! te_thread_id x = Some n ∧
    0 < te_event_expiration x ∧ is_periodic x = bool_decide (q = Periodic);
  ti_vect : ∀ q tid n, vect_of q s !! tid = Some n → ∃ x,
    ts_te s !! n = Some x ∧ te_thread_id x = tid ∧
    (is_periodic x = true → q = Periodic ∧ 1 ≤ te_period x ∧ (h = Some n ∨ n ∈ ts_periodic s));
  ti_disj : ∀ a b n, ts_thd_evts s !! a = Some n → ts_thd_periodic s !! b = Some n → False
}.

(** Between two operations every periodic thread is on its list. *)
Definition tinv : tstate → Prop := tinv_ None.

Lemma queue_dup s q n l1 l2 :
  NoDup (ts_events s ++ ts_periodic s) → queue_of q s = l1 ++ n :: l2 → (n ∉ l1) ∧ (n ∉ l2).
Proof.
  intros (He & _ & Hp)%NoDup_app Hq. assert (Hnd : NoDup (queue_of q s)) by (by destruct q).
  rewrite Hq in Hnd. apply NoDup_app in Hnd as (_ & Hd & Hn). apply NoDup_cons in Hn as [Hn _].
  split; [|done]. intros H. by apply (Hd _ H); left.
Qed.

Lemma queues_apart s n :
  NoDup (ts_events s ++ ts_periodic s) → n ∈ ts_events s → n ∈ ts_periodic s → False.
Proof. intros (_ & Hd & _)%NoDup_app. apply Hd. Qed.

Lemma upd_te_inv n f s u s' :
  upd_te n f s = Done u s' → ∃ x, ts_te s !! n = Some x ∧ s' = put n (f x) s.
Proof.
  unfold upd_te, get_te. intros H. minv. eexists. split; [eassumption|].
  unfold put. f_equal. by apply alter_at.
Qed.

Lemma get_te_inv n s x s' : get_te n s = Done x s' → ts_te s !! n = Some x ∧ s' = s.
Proof. unfold get_te. intros H. by minv. Qed.

(** A structure changes; its expiration does not while it is on a list. *)
Lemma tinv_put h s n x x' :
  tinv_ h s → ts_te s !! n = Some x → te_thread_id x' = te_thread_id x →
  (n ∈ ts_events s ∨ n ∈ ts_periodic s →
     te_event_expiration x' = te_event_expiration x ∧ is_periodic x' = is_periodic x) →
  (is_periodic x' = true → is_periodic x = true ∧ te_period x' = te_period x ∨
     1 ≤ te_period x' ∧ h = Some n ∧ ∀ t, ts_thd_evts s !! t ≠ Some n) →
  tinv_ h (put n x' s).
Proof.
  intros [Hd Hs Ho Hv Hj] Hx Ht Hl Hf. split; [done|..|done].
  - intros q. assert (Hqs : queue_of q (put n x' s) = queue_of q s) by (by destruct q).
    rewrite Hqs. eapply expo_ext; [|apply Hs]. intros m Hm. destruct (decide (m = n)) as [->|Hne].
    + rewrite (expo_at _ _ _ Hx), (expo_at _ _ _ (put_lookup _ _ x' _ Hx)).
      apply Hl. destruct q; auto.
    + unfold expo. by rewrite put_other.
  - intros q m Hm. assert (Hm' : m ∈ queue_of q s) by (by destruct q).
    destruct (Ho q m Hm') as (y & Hy & Hvy & Hpy). destruct (decide (m = n)) as [->|Hne].
    + simplify_eq. exists x'. rewrite (put_lookup _ _ x' _ Hx), Ht.
      destruct Hl as [-> ->]; [destruct q; auto|]. by destruct q.
    + exists y. rewrite put_other by done. by destruct q.
  - intros q t m Hm. assert (Hm' : vect_of q s !! t = Some m) by (by destruct q).
    destruct (Hv q t m Hm') as (y & Hy & Hty & Hpy). destruct (decide (m = n)) as [->|Hne].
    + simplify_eq. exists x'. rewrite (put_lookup _ _ x' _ Hx). split_and!; [done..|].
      intros Hp. destruct (Hf Hp) as [[Hq ->]|(Hper & -> & Hq)].
      * destruct (Hpy Hq) as (? & ? & ?). done.
      * split_and!; [|done|by left]. by destruct q; [destruct (Hq _ Hm')|].
    + exists y. rewrite put_other by done. done.
Qed.

Lemma tinv_open h s : tinv s → tinv_ h s.
Proof.
  intros [Hd Hs Ho Hv Hj]. split; try done. intros q t n Hn.
  destruct (Hv q t n Hn) as (x & ? & ? & Hp). exists x. split_and!; [done..|].
  intros (? & ? & [|])%Hp; [done|]. eauto.
Qed.

Lemma tinv_close n s x :
  tinv_ (Some n) s → ts_te s !! n = Some x → is_periodic x = false ∨ n ∈ ts_periodic s → tinv s.
Proof.
  intros [Hd Hs Ho Hv Hj] Hx Hc. split; try done. intros q t m Hm.
  destruct (Hv q t m Hm) as (y & Hy & ? & Hp). exists y. split_and!; [done..|].
  intros Hpy. destruct (Hp Hpy) as (? & ? & [?|?]); [|by eauto].
  simplify_eq. destruct Hc; [congruence|by eauto].
Qed.

(** Fields that the invariant does not mention. *)
Lemma tinv_outside h s a b c d e :
  tinv_ h s → tinv_ h (MkTs a b (ts_te s) (ts_events s) (ts_periodic s) (ts_thd_evts s)
                         (ts_thd_periodic s) c d e).
Proof.
  intros [Hd Hs Ho Hv Hj]. split; [done|..|done]; intros [].
  - apply (Hs Events).
  - apply (Hs Periodic).
  - apply (Ho Events).
  - apply (Ho Periodic).
  - apply (Hv Events).
  - apply (Hv Periodic).
Qed.

Lemma tinv_rem s n u s' : tinv s → rem_list n s = Done u s' →
  tinv_ (Some n) s' ∧ (n ∉ ts_events s') ∧ (n ∉ ts_periodic s') ∧ ts_te s' = ts_te s ∧
  (∀ q, vect_of q s' = vect_of q s) ∧
  (∀ q m, m ∈ queue_of q s → m ≠ n → m ∈ queue_of q s').
Proof.
  intros [Hd Hs Ho Hv Hj] H. unfold rem_list in H. minv. cbn. split_and!; [split|..]; cbn; try done.
  - apply NoDup_app in Hd as (? & Hd & ?). apply NoDup_app. split_and!; [by apply NoDup_filter| |by apply NoDup_filter].
    intros m [_ Hm]%list_elem_of_filter [_ Hm']%list_elem_of_filter. by apply (Hd m).
  - intros []; apply (sorted_filter s); [apply (Hs Events)|apply (Hs Periodic)].
  - intros [] m [_ Hm]%list_elem_of_filter; [apply (Ho Events m Hm)|apply (Ho Periodic m Hm)].
  - intros q t m Hm. assert (Hm' : vect_of q s !! t = Some m) by (by destruct q).
    destruct (Hv q t m Hm') as (x & ? & ? & Hp). exists x. split_and!; [done..|].
    intros (? & ? & [|?])%Hp; [done|]. split_and!; [done..|].
    destruct (decide (m = n)) as [->|]; [by left|right]. by apply list_elem_of_filter.
  - by intros [? _]%list_elem_of_filter.
  - by intros [? _]%list_elem_of_filter.
  - intros [] m Hm Hne; by apply list_elem_of_filter.
Qed.

Lemma insert_loop_inv te l s l' s' : insert_loop te l s = Done l' s' → l' = place s te l ∧ s' = s.
Proof.
  revert l'. induction l as [|tmp l IH]; intros l' H; cbn in H |- *; [by minv|].
  minv. apply get_te_inv in Hm as [Hy ->]. apply get_te_inv in Hm0 as [Hx ->].
  rewrite (expo_at _ _ _ Hx), (expo_at _ _ _ Hy). destruct (_ <? _); minv; [done|].
  apply IH in Hm as [-> ->]. done.
Qed.

Lemma insert_inv te q s r s' : insert_event_ te q s = Done r s' →
  r = 0 ∧ (te ∉ ts_events s) ∧ (te ∉ ts_periodic s) ∧ expo s te ≠ 0 ∧
  s' = set_queue q (place s te (queue_of q s)) s.
Proof.
  unfold insert_event_. intros H. minv. apply get_te_inv in Hm as [Hx ->].
  match goal with H : insert_loop _ _ _ = _ |- _ => apply insert_loop_inv in H as [-> ->] end. rewrite (expo_at _ _ _ Hx).
  unfold off_list in *.
  repeat match goal with
         | H : true = _ |- _ => symmetry in H
         | H : _ && _ = true |- _ => apply andb_true_iff in H as []
         end.
  repeat match goal with H : bool_decide _ = true |- _ => apply bool_decide_eq_true in H end.
  split_and!; try done. by apply Z.eqb_neq, negb_true_iff.
Qed.

Lemma tinv_placed te q s x :
  tinv_ (Some te) s → ts_te s !! te = Some x → 0 < te_event_expiration x →
  vect_of q s !! te_thread_id x = Some te → is_periodic x = bool_decide (q = Periodic) →
  te ∉ ts_events s → te ∉ ts_periodic s → tinv (set_queue q (place s te (queue_of q s)) s).
Proof.
  intros [Hd Hs Ho Hv Hj] Hx Hz Hq Hp He Hpe.
  assert (Hin : ∀ q' m, m ∈ queue_of q' (set_queue q (place s te (queue_of q s)) s) →
                 m = te ∧ q' = q ∨ m ∈ queue_of q' s).
  { intros q' m. destruct q, q'; cbn; rewrite ?place_perm, ?elem_of_cons; naive_solver. }
  assert (Hc : tinv_ (Some te) (set_queue q (place s te (queue_of q s)) s)).
  { split.
    - destruct q; cbn; rewrite place_perm; [by constructor; [rewrite elem_of_app; naive_solver|]|].
      rewrite <- Permutation_middle. by constructor; [rewrite elem_of_app; naive_solver|].
    - intros q'. apply (expo_ext s); [by destruct q|].
      destruct q, q'; try apply place_sorted; first [apply (Hs Events)|apply (Hs Periodic)].
    - intros q' m [[-> ->]|Hm]%Hin; [|destruct (Ho q' m Hm) as (y & ?); exists y; by destruct q, q'].
      exists x. by destruct q; (split_and!; [..|lia|]).
    - intros q' t m Hm. assert (Hm' : vect_of q' s !! t = Some m) by (by destruct q, q').
      destruct (Hv q' t m Hm') as (y & Hy & ? & Hpy). exists y. split_and!; [by destruct q|done|].
      intros (-> & ? & Ho')%Hpy. split_and!; [done..|]. destruct Ho' as [|Hm2]; [by left|right].
      destruct q; cbn; [done|]. rewrite place_perm. by right.
    - by destruct q. }
  eapply tinv_close; [exact Hc|by destruct q|]. destruct q; [by left|right].
  cbn. rewrite place_perm. by left.
Qed.

Lemma tinv_insert te q s x r s' :
  tinv_ (Some te) s → ts_te s !! te = Some x → 0 ≤ te_event_expiration x →
  vect_of q s !! te_thread_id x = Some te → is_periodic x = bool_decide (q = Periodic) →
  insert_event_ te q s = Done r s' → tinv s'.
Proof.
  intros Hi Hx Hz Hq Hp (_ & He & Hpe & Hne & ->)%insert_inv.
  rewrite (expo_at _ _ _ Hx) in Hne. eapply tinv_placed; try done. lia.
Qed.

(** ** Expiration *)

(** What the counting of deadlines leaves alone. *)
Definition core (x : thread_event) : Z * Z * Z * Z :=
  (te_event_expiration x, te_thread_id x, te_flags x, te_period x).

(** The assertions of the counting hold; [b]: the thread had blocked. *)
Definition accounted (cyc : Z) (b : bool) (x : thread_event) : bool :=
  if b then negb (te_missed x =? 0) || negb (te_completion x =? 0)
  else if te_missed x =? 0 then te_completion x =? 0 else cyc <? u32 (te_period x * cyc).

Lemma rdtscll_run s : ∃ t l, rdtscll s = Done t (set_ts_tsc l s).
Proof.
  unfold rdtscll. mrun. destruct (ts_tsc s) as [|t l] eqn:E; [|by eexists _, _].
  exists 0, []. rewrite <- E. by destruct s.
Qed.

Lemma set_tsc_put l n x s : set_ts_tsc l (put n x s) = put n x (set_ts_tsc l s).
Proof. done. Qed.

(** Runs steps on the structure [n], which is there. *)
Lemma upd_bind {B} n f x s x0 (k : unit → M tstate B) :
  ts_te s !! n = Some x0 → (upd_te n f ≫= k) (put n x s) = k tt (put n (f x) s).
Proof. intros Hx. by rewrite (bind_run _ _ _ _ _ (te_upd_put _ _ _ _ _ Hx)). Qed.

Lemma get_bind {B} n x s x0 (k : thread_event → M tstate B) :
  ts_te s !! n = Some x0 → (get_te n ≫= k) (put n x s) = k x (put n x s).
Proof. intros Hx. by rewrite (bind_run _ _ _ _ _ (te_get_put _ _ _ _ Hx)). Qed.

Ltac trun :=
  repeat first
    [ rewrite bind_bind | erewrite upd_bind by eassumption | erewrite get_bind by eassumption
    | erewrite te_upd_put by eassumption
    | match goal with H : ∀ x, rdtscll (put _ x _) = _ |- _ => rewrite (bind_run _ _ _ _ _ (H _)) end
    | progress mrun ].

(** The counting of a deadline. *)
Lemma deadline_run n (b : bool) x x0 s :
  ts_te s !! n = Some x0 →
  ∃ x' l, core x' = core x ∧
  (if b then met_deadline n else missed_deadline n) (put n x s) =
  if accounted (ts_cyc_per_tick s) b x then Done tt (put n x' (set_ts_tsc l s)) else Fault AssertFail.
Proof.
  intros Hx. destruct (rdtscll_run s) as (t & l & Ht).
  assert (Hr : ∀ y, rdtscll (put n y s) = Done t (put n y (set_ts_tsc l s))).
  { intros y. revert Ht. unfold rdtscll. mrun. cbn. destruct (ts_tsc s) eqn:E.
    - intros [= -> Hs]. by rewrite <- Hs.
    - intros [= -> ->]. done. }
  assert (Hx' : ts_te (set_ts_tsc l s) !! n = Some x0) by done.
  assert (Hs : s = set_ts_tsc (ts_tsc s) s) by (by destruct s).
  unfold accounted. destruct b.
  - unfold met_deadline. trun. destruct (te_missed x =? 0); cbn [when negb orb]; trun.
    + destruct (te_completion x =? 0); cbn [negb]; [by exists x, l|]. trun.
      eexists _, l. by split; cycle 1.
    + eexists _, (ts_tsc s). rewrite <- Hs. by split; cycle 1.
  - unfold missed_deadline. trun. cbn [te_missed set_te_dl_missed].
    destruct (te_missed x =? 0); trun; cbn [te_completion te_period set_te_dl_missed ts_cyc_per_tick put set_ts_te].
    + destruct (te_completion x =? 0); cbn [negb]; [|by exists x, l]. trun.
      eexists _, l. by split; cycle 1.
    + destruct (_ <? _); [|by exists x, l]. trun. eexists _, l. by split; cycle 1.
Qed.

(** ** One event that is due *)

Definition remd (n : nat) (s : tstate) : tstate :=
  set_ts_events (filter (.≠ n) (ts_events s)) (set_ts_periodic (filter (.≠ n) (ts_periodic s)) s).

(** No assertion fails when it is due. *)
Definition fine (cyc : Z) (q : queue) (b : bool) (x : thread_event) : bool :=
  match q with
  | Events => true
  | Periodic => accounted cyc b x && negb (u64 (te_event_expiration x + te_period x) =? 0)
  end.

(** When it is due the next time. *)
Definition next_due (q : queue) (x : thread_event) : Z :=
  match q with Events => te_event_expiration x | Periodic => u64 (te_event_expiration x + te_period x) end.

Definition blocked (x : thread_event) : bool := has (te_flags x) TE_BLOCKED.

Definition expired_flags (f : Z) : Z := bclr (bset f TE_TIMED_OUT) TE_BLOCKED.

(** The state after it, where [x'] is its structure then. *)
Definition expired (n : nat) (q : queue) (x x' : thread_event) (l : list Z) (s : tstate) : tstate :=
  let s1 := put n x' (remd n s) in
  let s2 := match q with
            | Events => s1
            | Periodic => set_ts_periodic (place s1 n (filter (.≠ n) (ts_periodic s))) s1
            end in
  set_ts_woken (if blocked x then te_thread_id x :: ts_woken s else ts_woken s) (set_ts_tsc l s2).

Lemma expired_flags_periodic f : has (expired_flags f) TE_PERIODIC = has f TE_PERIODIC.
Proof.
  unfold expired_flags. rewrite has_bclr_other by done. rewrite has_bset. by rewrite orb_false_r.
Qed.

Lemma next_period_run n (b : bool) x x0 s :
  ts_te s !! n = Some x0 → n ∉ ts_events s → n ∉ ts_periodic s →
  Forall (λ m, is_Some (ts_te s !! m)) (ts_periodic s) →
  ∃ x' l, core x' = (next_due Periodic x, te_thread_id x, te_flags x, te_period x) ∧
  next_period n b (put n x s) =
  if fine (ts_cyc_per_tick s) Periodic b x
  then Done tt (set_ts_tsc l (set_ts_periodic (place (put n x' s) n (ts_periodic s)) (put n x' s)))
  else Fault AssertFail.
Proof.
  intros Hx He Hp Hall. destruct (deadline_run n b x x0 s Hx) as (x1 & l & Hc & Hd).
  unfold core in Hc. injection Hc as Hc1 Hc2 Hc3 Hc4.
  exists (set_te_event_expiration (next_due Periodic x) (set_te_dl (u16 (te_dl x1 + 1)) x1)), l.
  unfold core. cbn -[Z.pow next_due]. split; [congruence|]. unfold next_period, fine.
  destruct (accounted _ _ _); [|by rewrite (bind_Fault _ _ _ _ Hd)].
  rewrite (bind_run _ _ _ _ _ Hd). cbn [andb].
  assert (Hx' : ts_te (set_ts_tsc l s) !! n = Some x0) by done. trun.
  cbn [te_event_expiration te_period set_te_dl]. rewrite Hc1, Hc4.
  change (u64 (te_event_expiration x + te_period x)) with (next_due Periodic x).
  set (y := set_te_event_expiration _ _). destruct (Z.eqb_spec (next_due Periodic x) 0) as [Hz|Hz].
  - unfold insert_pevent, insert_event_. trun. subst y. cbn [te_event_expiration set_te_event_expiration].
    by rewrite Hz.
  - unfold insert_pevent. erewrite bind_run; [|apply (insert_run _ _ _ y)]; cbn [negb]; try done.
    + unfold mret, M_ret. do 2 f_equal. cbn [set_queue queue_of].
      by rewrite (place_ext (put n y s) (put n y (set_ts_tsc l s))).
    + by apply (put_lookup _ _ y _ Hx').
    + cbn [queue_of]. apply (Forall_impl _ _ _ Hall). intros m Hm. destruct (decide (m = n)) as [->|].
      * eexists. by apply (put_lookup _ _ y _ Hx').
      * by rewrite put_other.
Qed.

Lemma not_in_remd (n : nat) (l : list nat) : n ∉ filter (.≠ n) l.
Proof. by intros [? _]%list_elem_of_filter. Qed.

Lemma expire_one_run n q x s :
  tinv s → n ∈ queue_of q s → ts_te s !! n = Some x →
  ∃ x' l, core x' = (next_due q x, te_thread_id x, expired_flags (te_flags x), te_period x) ∧
  expire_one n q s =
  if fine (ts_cyc_per_tick s) q (blocked x) x
  then Done (after n (queue_of q s)) (expired n q x x' l s)
  else Fault AssertFail.
Proof.
  intros Hi Hn Hx. destruct (ti_on _ _ Hi q n Hn) as (y & Hy & _ & _ & Hper). simplify_eq.
  assert (Hx' : ts_te (remd n s) !! n = Some x) by done.
  assert (Hall : Forall (λ m, is_Some (ts_te (remd n s) !! m)) (ts_periodic (remd n s))).
  { apply Forall_forall. intros m [_ Hm]%list_elem_of_filter.
    destruct (ti_on _ _ Hi Periodic m Hm) as (z & Hz & _). by exists z. }
  unfold expire_one. mrun. rewrite (bind_run _ _ _ _ _ (upd_te_run _ _ _ _ Hx)).
  unfold rem_list. mrun.
  set (x1 := set_te_flags (bset (te_flags x) TE_TIMED_OUT) x).
  change (set_ts_events _ _) with (put n x1 (remd n s)). trun.
  assert (Hb : has (te_flags x1) TE_BLOCKED = blocked x).
  { unfold x1. cbn [te_flags set_te_flags]. rewrite has_bset. by rewrite orb_false_r. }
  assert (Hp : has (te_flags x1) TE_PERIODIC = bool_decide (q = Periodic)).
  { rewrite <- Hper. unfold x1. cbn [te_flags set_te_flags]. rewrite has_bset. by rewrite orb_false_r. }
  rewrite Hb, Hp. set (x2 := set_te_flags (bclr (te_flags x1) TE_BLOCKED) x1).
  unfold expired. destruct q.
  - exists x2, (ts_tsc s). split; [done|]. cbn [bool_decide decide when fine]. mrun.
    by destruct (blocked x); destruct s.
  - destruct (next_period_run n (blocked x) x2 x (remd n s) Hx' (not_in_remd _ _) (not_in_remd _ _) Hall)
      as (x' & l & Hc & Hr).
    exists x', l. split; [done|]. cbn [when].
    replace (bool_decide (Periodic = Periodic)) with true by done. cbn [when].
    change (fine (ts_cyc_per_tick s) Periodic (blocked x) x)
      with (fine (ts_cyc_per_tick (remd n s)) Periodic (blocked x) x2).
    destruct (fine _ _ _ _); [|by rewrite (bind_Fault _ _ _ _ Hr)].
    rewrite (bind_run _ _ _ _ _ Hr). by destruct (blocked x).
Qed.

Lemma u64_range z : 0 ≤ u64 z < 2 ^ 64.
Proof. apply Z.mod_pos_bound. done. Qed.

Lemma remd_tinv n s : tinv s → tinv_ (Some n) (remd n s).
Proof. intros Hi. by destruct (tinv_rem s n tt (remd n s) Hi eq_refl) as [? _]. Qed.

Lemma tinv_expired n q x x' l s :
  tinv s → n ∈ queue_of q s → ts_te s !! n = Some x →
  core x' = (next_due q x, te_thread_id x, expired_flags (te_flags x), te_period x) →
  fine (ts_cyc_per_tick s) q (blocked x) x = true → tinv (expired n q x x' l s).
Proof.
  intros Hi Hn Hx Hc Hf. injection Hc as He Ht Hfl Hper.
  destruct (ti_on _ _ Hi q n Hn) as (y & Hy & Hv & Hex & Hp). simplify_eq.
  assert (Hp' : is_periodic x' = is_periodic x).
  { unfold is_periodic. rewrite Hfl. apply expired_flags_periodic. }
  assert (Hx' : ts_te (remd n s) !! n = Some x) by done.
  assert (Hi1 : tinv_ (Some n) (put n x' (remd n s))).
  { apply (tinv_put _ _ _ x); [by apply remd_tinv|done|done|..].
    - intros [[]%not_in_remd|[]%not_in_remd].
    - rewrite Hp'. by left. }
  unfold expired. do 2 apply tinv_outside. destruct q.
  - eapply (tinv_close n _ x'); [exact Hi1|by eapply put_lookup|left]. by rewrite Hp', Hp.
  - apply (tinv_placed n Periodic (put n x' (remd n s)) x'); try done.
    + by eapply put_lookup.
    + rewrite He. cbn [fine] in Hf. apply andb_true_iff in Hf as [_ Hf%negb_true_iff%Z.eqb_neq].
      pose proof (u64_range (te_event_expiration x + te_period x)). cbn [next_due]. lia.
    + rewrite Ht. exact Hv.
    + by rewrite Hp', Hp.
    + apply not_in_remd.
    + apply not_in_remd.
Qed.

Lemma after_in n m l : NoDup l → after n l = Some m → m ∈ l ∧ m ≠ n.
Proof.
  induction 1 as [|a l Ha Hl IH]; cbn; [done|]. case_decide as Ea.
  - subst. intros Hm%head_Some_elem_of. split; [by right|]. by intros ->.
  - intros [??]%IH. split; [by right|done].
Qed.

Lemma queue_nodup s q : NoDup (ts_events s ++ ts_periodic s) → NoDup (queue_of q s).
Proof. intros (He & _ & Hp)%NoDup_app. by destruct q. Qed.

Lemma expired_queue n q x x' l s m :
  m ∈ queue_of q s → m ≠ n → m ∈ queue_of q (expired n q x x' l s).
Proof.
  intros Hm Hne. assert (Hf : m ∈ filter (.≠ n) (queue_of q s)) by (by apply list_elem_of_filter).
  destruct q; cbn in *; [done|]. rewrite place_perm. by right.
Qed.

(** The loop of the expirations keeps the invariant, also when it is late. *)
Lemma expiration_loop_tinv fuel time q tmp s u s' :
  tinv s → (∀ n, tmp = Some n → n ∈ queue_of q s) →
  expiration_loop fuel time q tmp s = Done u s' → tinv s'.
Proof.
  revert tmp s. induction fuel as [|fuel IH]; intros tmp s Hi Ht H; cbn in H; [done|].
  destruct tmp as [n|]; [|by minv]. specialize (Ht n eq_refl). minv.
  apply get_te_inv in Hm as [Hx ->]. destruct (_ <? _); minv; [done|].
  destruct (expire_one_run n q a s Hi Ht Hx) as (x' & l & Hc & Hr).
  rewrite Hr in Hm. destruct (fine _ _ _ _) eqn:Hf; [|done]. simplify_eq.
  apply IH in H; [done|by eapply tinv_expired|].
  intros m [Hm Hne]%after_in; [by apply expired_queue|apply queue_nodup, Hi].
Qed.

Lemma expiration_tinv time q s u s' : tinv s → event_expiration_ time q s = Done u s' → tinv s'.
Proof.
  intros Hi H. unfold event_expiration_ in H. minv. eapply expiration_loop_tinv; [exact Hi| |exact H].
  intros n. apply head_Some_elem_of.
Qed.

(** ** The operations *)

Inductive top : Type :=
| TBlock (mal add : bool) (tid now amnt : Z)
| TBlockReturn (te : nat) (block_time : Z)
| TWakeup (now thd_id ret : Z)
| TCreate (mal add : bool) (tid now period : Z)
| TRemove (mal add : bool) (tid : Z)
| TWait (mal add : bool) (tid : Z)
| TLateness (mal add : bool) (tid : Z)
| TMissLateness (mal add : bool) (tid : Z)
| TMisses (mal add : bool) (tid : Z)
| TDeadlines (mal add : bool) (tid : Z)
| TPeriod (mal add : bool) (tid : Z)
| TRound (now : Z).

Definition top_run (o : top) : M tstate unit :=
  match o with
  | TBlock mal add tid now amnt => timed_event_block mal add tid now amnt;; mret tt
  | TBlockReturn te b => timed_event_block_return te b;; mret tt
  | TWakeup now thd ret => timed_event_wakeup now thd ret;; mret tt
  | TCreate mal add tid now period => periodic_wake_create mal add tid now period;; mret tt
  | TRemove mal add tid => periodic_wake_remove mal add tid;; mret tt
  | TWait mal add tid => periodic_wake_wait mal add tid;; mret tt
  | TLateness mal add tid => periodic_wake_get_lateness mal add tid;; mret tt
  | TMissLateness mal add tid => periodic_wake_get_miss_lateness mal add tid;; mret tt
  | TMisses mal add tid => periodic_wake_get_misses mal add tid;; mret tt
  | TDeadlines mal add tid => periodic_wake_get_deadlines mal add tid;; mret tt
  | TPeriod mal add tid => periodic_wake_get_period mal add tid;; mret tt
  | TRound now => timer_round now;; mret tt
  end.

(** A structure that is in no vector yet. *)
Lemma tinv_grow s x : tinv s → tinv (set_ts_te (ts_te s ++ [x]) s).
Proof.
  intros [Hd Hs Ho Hv Hj].
  assert (Hold : ∀ n y, ts_te s !! n = Some y → (ts_te s ++ [x]) !! n = Some y)
    by (intros; by apply lookup_app_l_Some).
  split; [done|..|done].
  - intros q. apply (expo_ext s); [|by destruct q; [apply (Hs Events)|apply (Hs Periodic)]].
    intros n Hn. assert (Hn' : n ∈ queue_of q s) by (by destruct q).
    destruct (Ho q n Hn') as (y & Hy & _). rewrite (expo_at _ _ _ Hy). apply expo_at. by apply Hold.
  - intros q n Hn. assert (Hn' : n ∈ queue_of q s) by (by destruct q).
    destruct (Ho q n Hn') as (y & Hy & ?). exists y. split; [by apply Hold|by destruct q].
  - intros q t n Hn. assert (Hn' : vect_of q s !! t = Some n) by (by destruct q).
    destruct (Hv q t n Hn') as (y & Hy & ?). exists y. split; [by apply Hold|done].
Qed.

Lemma tinv_add q tid s n x :
  tinv s → vect_of q s !! tid = None → ts_te s !! n = Some x → te_thread_id x = tid →
  is_periodic x = false → (∀ q' t, vect_of q' s !! t ≠ Some n) →
  tinv (set_vect q (<[tid := n]> (vect_of q s)) s).
Proof.
  intros [Hd Hs Ho Hv Hj] Hq Hx Ht Hp Hn.
  assert (Hvq : ∀ q' t m, vect_of q' (set_vect q (<[tid := n]> (vect_of q s)) s) !! t = Some m →
                 vect_of q' s !! t = Some m ∨ q' = q ∧ t = tid ∧ m = n).
  { intros q' t m. destruct (decide (q' = q)) as [->|Hne]; [|by destruct q, q'; auto].
    destruct q; cbn; intros [[-> ->]|[_ ?]]%lookup_insert_Some; auto. }
  assert (Hvo : ∀ q' t m, vect_of q' s !! t = Some m →
                 vect_of q' (set_vect q (<[tid := n]> (vect_of q s)) s) !! t = Some m).
  { intros q' t m Hm. destruct (decide (q' = q)) as [->|Hne]; [|by destruct q, q'].
    destruct q; cbn; rewrite lookup_insert_ne; try done; intros ->; cbn in *; congruence. }
  split.
  - by destruct q.
  - intros q'. apply (expo_ext s); [by destruct q|].
    destruct q, q'; first [apply (Hs Events)|apply (Hs Periodic)].
  - intros q' m Hm. assert (Hm' : m ∈ queue_of q' s) by (by destruct q, q').
    destruct (Ho q' m Hm') as (y & ? & ? & ?). exists y. split_and!; try tauto; [by destruct q|by apply Hvo].
  - intros q' t m [Hm|(-> & -> & ->)]%Hvq.
    + destruct (Hv q' t m Hm) as (y & ? & ? & ?). exists y. by destruct q.
    + exists x. split_and!; [by destruct q|done|]. by rewrite Hp.
  - intros a b m Ha%(Hvq Events) Hb%(Hvq Periodic).
    destruct Ha as [Ha|(? & ? & ?)], Hb as [Hb|(? & ? & ?)]; simplify_eq; [by eapply Hj|..].
    + by apply (Hn Events a).
    + by apply (Hn Periodic b).
Qed.

(** Getting the structure of a thread, which may make a new one. *)
Lemma te_get_tinv mal add tid q s r s' :
  tinv s → te_get_ mal add tid q s = Done r s' →
  tinv s' ∧ ts_events s' = ts_events s ∧ ts_periodic s' = ts_periodic s ∧
  ∀ n, r = Some n → vect_of q s' !! tid = Some n.
Proof.
  intros Hi H. unfold te_get_ in H. minv. destruct (vect_of q s !! tid) as [n|] eqn:En; minv.
  { split_and!; try done. by intros ? [= ->]. }
  destruct mal; cbn [negb] in H; minv; [|by split_and!].
  set (x := MkTe 0 tid 0 0 0 0 0 0 0 0 0 0) in *. pose proof (tinv_grow s x Hi) as Hi'.
  destruct add; cbn [negb] in H; minv; [|by split_and!].
  split_and!; [|by destruct q..|].
  - replace (vect_of q s) with (vect_of q (set_ts_te (ts_te s ++ [x]) s)) by (by destruct q).
    apply (tinv_add _ _ _ _ x); [done|by destruct q| |done..|].
    + cbn. by rewrite lookup_app_r, Nat.sub_diag.
    + intros q' t Ht. assert (Ht' : vect_of q' s !! t = Some (length (ts_te s))) by (by destruct q').
      destruct (ti_vect _ _ Hi _ _ _ Ht') as (y & Hy%lookup_lt_Some & _). lia.
  - intros n [= <-]. destruct q; cbn; apply lookup_insert_eq.
Qed.

(** Updates that do not matter to the invariant. *)
Definition neutral (f : thread_event → thread_event) : Prop := ∀ x,
  te_thread_id (f x) = te_thread_id x ∧ te_event_expiration (f x) = te_event_expiration x ∧
  is_periodic (f x) = is_periodic x ∧ te_period (f x) = te_period x.

Lemma tinv_upd h n f s u s' : neutral f → tinv_ h s → upd_te n f s = Done u s' → tinv_ h s'.
Proof.
  intros Hf Hi (x & Hx & ->)%upd_te_inv. destruct (Hf x) as (H1 & H2 & H3 & H4).
  apply (tinv_put _ _ _ x); [done..|]. rewrite H3, H4. by left.
Qed.

Lemma next_event_inv s t s' : next_event_time s = Done t s' → s' = s.
Proof.
  unfold next_event_time, first_expiration, get_te. intros H. minv.
  repeat (case_match; minv); done.
Qed.

Ltac neutral := by intros ?; (split_and!; [done..| |]); unfold is_periodic; cbn [te_flags set_te_flags];
  rewrite ?has_bset, ?has_bclr_other, ?orb_false_r by done.

(** The functions about a periodic thread. *)
Lemma for_periodic_tinv {A} mal add tid (o : A) f s r s' :
  tinv s →
  (∀ n x s1 r s2, tinv s1 → vect_of Periodic s1 !! tid = Some n → ts_te s1 !! n = Some x →
     is_periodic x = true → f n s1 = Done r s2 → tinv s2) →
  for_periodic mal add tid o f s = Done r s' → tinv s'.
Proof.
  intros Hi Hf H. unfold for_periodic, te_pget in H. minv.
  apply te_get_tinv in Hm as (Hi' & _ & _ & Hv); [|done]. apply get_te_inv in Hm2 as [Hx ->].
  destruct (has _ _) eqn:Hp; cbn [negb] in H; minv; [|done].
  eapply Hf; [exact Hi'|by apply Hv|done..].
Qed.

(** Steps through a run backwards, with the updates that do not matter. *)
Ltac tinv_steps :=
  repeat first
    [ progress minv
    | match goal with
      | H : _ = Done _ _ |- _ => progress cbv beta zeta in H
      | H : get_te _ _ = Done _ _ |- _ => apply get_te_inv in H as [? ->]
      | H : next_event_time _ = Done _ _ |- _ => apply next_event_inv in H as ->
      | Hi : tinv ?s, H : upd_te _ _ ?s = Done _ _ |- _ =>
          apply (tinv_upd None) in H; [|neutral|exact Hi]; clear Hi; rename H into Hi
      | Hi : tinv_ ?h ?s, H : upd_te _ _ ?s = Done _ _ |- _ =>
          apply (tinv_upd h) in H; [|neutral|exact Hi]; clear Hi; rename H into Hi
      end ].

Lemma rdtscll_tinv h s t s' : tinv_ h s → rdtscll s = Done t s' → tinv_ h s'.
Proof.
  intros Hi H. unfold rdtscll in H. minv. case_match; minv; [done|]. by apply tinv_outside.
Qed.

Lemma reads_tinv mal add tid s r s' : tinv s →
  periodic_wake_get_lateness mal add tid s = Done r s' ∨
  periodic_wake_get_miss_lateness mal add tid s = Done r s' ∨
  periodic_wake_get_misses mal add tid s = Done r s' ∨
  periodic_wake_get_deadlines mal add tid s = Done r s' ∨
  periodic_wake_get_period mal add tid s = Done r s' → tinv s'.
Proof.
  intros Hi [H|[H|[H|[H|H]]]]; (eapply for_periodic_tinv; [exact Hi| |exact H]);
    clear; intros n x s1 r s2 Hi _ Hx _ H;
    unfold te_get_reset_lateness, te_get_reset_miss_lateness in H; tinv_steps; try done;
    case_match; tinv_steps; done.
Qed.

Lemma wait_tinv mal add tid s r s' :
  tinv s → periodic_wake_wait mal add tid s = Done r s' → tinv s'.
Proof.
  intros Hi H. eapply for_periodic_tinv; [exact Hi| |exact H].
  clear. intros n x s1 r s2 Hi _ Hx _ H. cbv beta in H. tinv_steps.
  match goal with H : rdtscll _ = _ |- _ => apply (rdtscll_tinv None) in H; [|done] end.
  case_match; tinv_steps; done.
Qed.

Lemma remove_tinv mal add tid s r s' :
  tinv s → periodic_wake_remove mal add tid s = Done r s' → tinv s'.
Proof.
  intros Hi H. eapply for_periodic_tinv; [exact Hi| |exact H].
  clear. intros n x s1 r s2 Hi Hv Hx Hp H. cbv beta in H. minv.
  match goal with H : rem_list _ _ = _ |- _ => apply tinv_rem in H as (Hi' & He & Hpe & Hte & _); [|done] end.
  match goal with H : upd_te _ _ _ = _ |- _ => apply upd_te_inv in H as (y & Hy & ->) end.
  eapply (tinv_close n); [|by eapply put_lookup|by left].
  apply (tinv_put _ _ _ y); [done..|tauto|done].
Qed.

Lemma find_remove_inv thd l s r s' : tinv s → (∀ n, n ∈ l → n ∈ ts_events s) →
  find_remove_loop thd l s = Done r s' → tinv s'.
Proof.
  intros Hi. induction l as [|n l IH]; intros Hl H; cbn in H; [by minv|]. minv.
  apply get_te_inv in Hm as [Hx ->].
  destruct (_ =? _); [|by apply IH; [intros m Hm; apply Hl; right|]]. minv.
  destruct (ti_on _ _ Hi Events n (Hl n ltac:(left))) as (y & Hy & _ & _ & Hp). simplify_eq.
  match goal with H : rem_list _ _ = _ |- _ => apply tinv_rem in H as (Hi' & _ & _ & Hte & _); [|done] end.
  eapply (tinv_close n); [exact Hi'|by rewrite Hte|by left].
Qed.

Lemma wakeup_tinv now thd ret s r s' :
  tinv s → timed_event_wakeup now thd ret s = Done r s' → tinv s'.
Proof.
  intros Hi H. unfold timed_event_wakeup, find_remove_event, sched_wakeup in H. minv.
  match goal with H : find_remove_loop _ _ _ = _ |- _ =>
    apply find_remove_inv in H; [|by apply tinv_outside|done] end.
  case_match; tinv_steps; [|done]. by apply tinv_outside.
Qed.

Lemma off_list_true n s : off_list n s = true → (n ∉ ts_events s) ∧ (n ∉ ts_periodic s).
Proof. unfold off_list. rewrite andb_true_iff, !bool_decide_eq_true. done. Qed.

(** A new expiration for a structure that is on no list. *)
Lemma upd_expiration h n v s u s' :
  tinv_ h s → off_list n s = true → upd_te n (set_te_event_expiration v) s = Done u s' → tinv_ h s'.
Proof.
  intros Hi [He Hp]%off_list_true (x & Hx & ->)%upd_te_inv.
  apply (tinv_put _ _ _ x); [done..|tauto|]. by left.
Qed.

Lemma upd_put_inv n f x s x0 u s' :
  ts_te s !! n = Some x0 → upd_te n f (put n x s) = Done u s' → s' = put n (f x) s.
Proof. intros Hx H. rewrite (te_upd_put _ _ _ _ _ Hx) in H. by simplify_eq. Qed.

Lemma get_put_inv n x s x0 y s' :
  ts_te s !! n = Some x0 → get_te n (put n x s) = Done y s' → y = x ∧ s' = put n x s.
Proof. intros Hx H. rewrite (te_get_put _ _ _ _ Hx) in H. by simplify_eq. Qed.

(** Steps on the structure [n] of a state [put n x s], where [Hx] says that it is
    there. *)
Ltac put_steps Hx :=
  repeat match goal with
  | H : upd_te ?n _ (put ?n _ _) = Done _ _ |- _ => eapply upd_put_inv in H; [|exact Hx]; subst
  | H : get_te ?n (put ?n _ _) = Done _ _ |- _ => eapply get_put_inv in H; [|exact Hx]; destruct H as [-> ->]
  | H : next_event_time _ = Done _ _ |- _ => apply next_event_inv in H as ->
  | H : context [set_ts_ticks ?v (put ?n ?x ?s)] |- _ =>
      change (set_ts_ticks v (put n x s)) with (put n x (set_ts_ticks v s)) in H
  end.

Lemma timeout_tinv b v s u s' : tinv s → when b (sched_timeout v) s = Done u s' → tinv s'.
Proof. intros Hi H. unfold sched_timeout in H. destruct b; cbn in H; minv; [by apply tinv_outside|done]. Qed.

Lemma block_tinv mal add tid now amnt s r s' :
  tinv s → timed_event_block mal add tid now amnt s = Done r s' → tinv s'.
Proof.
  intros Hi H. unfold timed_event_block, te_get, insert_event in H.
  case_match; [by minv|]. cbv zeta in H. minv.
  apply te_get_tinv in Hm as (Hi' & _ & _ & Hv); [|done]. specialize (Hv _ eq_refl).
  destruct (ti_vect _ _ Hi' Events _ _ Hv) as (x & Hx & Ht & Hp).
  rewrite <- (put_id _ _ _ Hx) in Hm4. put_steps Hx.
  assert (Hper : is_periodic x = false) by (destruct (is_periodic x); [by destruct Hp|done]).
  match goal with H : true = off_list _ _ |- _ => symmetry in H; apply off_list_true in H as [He Hpe] end.
  match goal with H : insert_event_ _ _ (put _ ?y ?s0) = _ |- _ =>
    assert (Hpy : is_periodic y = false) by
      (rewrite <- Hper; unfold is_periodic; cbn [te_flags set_te_flags set_te_event_expiration set_te_thread_id];
       by rewrite has_bset, has_bclr_other, orb_false_r by done);
    apply (tinv_insert _ _ _ y) in H; [..|by eapply put_lookup|apply u64_range|done|done]
  end.
  2: { apply (tinv_put _ _ _ x); [|done..|tauto|by rewrite Hpy]. by apply tinv_outside, tinv_open. }
  by eapply timeout_tinv.
Qed.

(** A thread that is periodic already is taken off its list first. *)
Lemma unlist_tinv b n s u s' : tinv s →
  when b (e ← gets (off_list n); assert (negb e);; rem_list n) s = Done u s' →
  tinv_ (Some n) s' ∧ ts_te s' = ts_te s ∧ ∀ q, vect_of q s' = vect_of q s.
Proof.
  intros Hi H. destruct b; cbn [when] in H; minv; [|split; [by apply tinv_open|done]].
  match goal with H : rem_list _ _ = _ |- _ => apply tinv_rem in H as (? & _ & _ & ? & ? & _) end; done.
Qed.

Lemma create_tinv mal add tid now period s r s' :
  tinv s → periodic_wake_create mal add tid now period s = Done r s' → tinv s'.
Proof.
  intros Hi H. unfold periodic_wake_create, te_pget, insert_pevent in H.
  destruct (Z.ltb_spec period 1) as [|Hper]; [by minv|]. cbv zeta in H. minv.
  apply te_get_tinv in Hm as (Hi' & _ & _ & Hv); [|done]. specialize (Hv _ eq_refl).
  destruct (ti_vect _ _ Hi' Periodic _ _ Hv) as (x & Hx & Ht & _).
  apply get_te_inv in Hm2 as [_ ->]. apply unlist_tinv in Hm3 as (Hi4 & Hte & Hv4); [|done].
  rewrite <- Hte in Hx. rewrite <- (put_id _ _ _ Hx) in Hm6. put_steps Hx.
  match goal with H : true = off_list _ _ |- _ => symmetry in H; apply off_list_true in H as [He Hpe] end.
  match goal with H : insert_event_ _ _ (put _ ?y ?s0) = _ |- _ =>
    assert (Hpy : is_periodic y = true) by
      (unfold is_periodic; cbn [te_flags set_te_flags set_te_event_expiration set_te_period];
       by rewrite has_bset, orb_true_r);
    apply (tinv_insert _ _ _ y) in H;
      [..|by eapply put_lookup|apply u64_range|by rewrite <- (Hv4 Periodic) in Hv|done]
  end.
  { by eapply timeout_tinv. }
  apply (tinv_put _ _ _ x); [by apply tinv_outside|done..|tauto|]. intros _. right.
  split_and!; [done..|]. intros t Ht'. change (vect_of Events s4 !! t = Some a1) in Ht'.
  rewrite (Hv4 Events) in Ht'. by apply (ti_disj _ _ Hi' t (te_thread_id x) a1).
Qed.

Lemma round_tinv now s r s' : tinv s → timer_round now s = Done r s' → tinv s'.
Proof.
  intros Hi H. unfold timer_round, event_expiration in H. minv.
  assert (Hi' : tinv (set_ts_ticks now s)) by (by apply tinv_outside).
  match goal with H : event_expiration_ _ Periodic _ = _ |- _ => apply expiration_tinv in H; [|done] end.
  match goal with H : event_expiration_ _ Events _ = _ |- _ => apply expiration_tinv in H; [|done] end.
  match goal with H : next_event_time _ = _ |- _ => apply next_event_inv in H as -> end.
  destruct (_ =? _); minv; [done|].
  match goal with H : sched_timeout _ _ = _ |- _ => by apply (timeout_tinv true) in H end.
Qed.

(** The first state, before any thread uses the component. *)
Definition init_ts (te : list thread_event) (tsc : list Z) : tstate := MkTs 0 0 te [] [] ∅ ∅ [] [] tsc.

Lemma init_tinv now freq cyc te tsc u s' :
  timer_init now freq cyc (init_ts te tsc) = Done u s' → tinv s'.
Proof.
  unfold timer_init. intros H. minv. split; cbn; [constructor|..].
  - intros []; constructor.
  - intros [] n Hn; by apply elem_of_nil in Hn.
  - intros [] t n; cbn; by rewrite lookup_empty.
  - intros a b n; by rewrite lookup_empty.
Qed.

Fixpoint top_runs (os : list top) : M tstate unit :=
  match os with [] => mret tt | o :: os => top_run o;; top_runs os end.

Lemma top_tinv o s u s' : tinv s → top_run o s = Done u s' → tinv s'.
Proof.
  intros Hi H. destruct o; cbn [top_run] in H;
    apply bind_Done in H as (r & s1 & H & [_ ->]%ret_Done).
  - exact (block_tinv _ _ _ _ _ _ _ _ Hi H).
  - unfold timed_event_block_return in H. tinv_steps. case_match; minv; done.
  - exact (wakeup_tinv _ _ _ _ _ _ Hi H).
  - exact (create_tinv _ _ _ _ _ _ _ _ Hi H).
  - exact (remove_tinv _ _ _ _ _ _ Hi H).
  - exact (wait_tinv _ _ _ _ _ _ Hi H).
  - eapply reads_tinv; [exact Hi|left; exact H].
  - eapply reads_tinv; [exact Hi|right; left; exact H].
  - eapply reads_tinv; [exact Hi|do 2 right; left; exact H].
  - eapply reads_tinv; [exact Hi|do 3 right; left; exact H].
  - eapply reads_tinv; [exact Hi|do 4 right; exact H].
  - exact (round_tinv _ _ _ _ Hi H).
Qed.

Lemma runs_tinv os s u s' : tinv s → top_runs os s = Done u s' → tinv s'.
Proof.
  revert s. induction os as [|o os IH]; intros s Hi H; cbn [top_runs] in H; minv; [done|].
  eauto using top_tinv.
Qed.

(** ** A round of the timer thread that is on time *)

(** The threads that are woken when the structures [l] are due, in their order. *)
Definition sleepers (s : tstate) (l : list nat) : list Z :=
  omap (λ n, x ← ts_te s !! n; if blocked x then Some (te_thread_id x) else None) l.

(** What the expiration of the structures [E] does: their flags change, the
    periodic ones get their next time, and the rest of the state stays. *)
Record expiration_post (q : queue) (E : list nat) (s s' : tstate) : Prop := {
  ep_due : ∀ n x, n ∈ E → ts_te s !! n = Some x → ∃ x', ts_te s' !! n = Some x' ∧
    core x' = (next_due q x, te_thread_id x, expired_flags (te_flags x), te_period x);
  ep_rest : ∀ n, n ∉ E → ts_te s' !! n = ts_te s !! n;
  ep_woken : ts_woken s' = reverse (sleepers s E) ++ ts_woken s;
  ep_other : ∀ q', q' ≠ q → queue_of q' s' = queue_of q' s;
  ep_vect : ∀ q', vect_of q' s' = vect_of q' s;
  ep_ticks : ts_ticks s' = ts_ticks s;
  ep_cyc : ts_cyc_per_tick s' = ts_cyc_per_tick s;
  ep_timeouts : ts_timeouts s' = ts_timeouts s
}.

(** Every due structure passes its assertions and is later the next time. *)
Definition timely (time : Z) (q : queue) (s : tstate) (E : list nat) : Prop :=
  ∀ n x, n ∈ E → ts_te s !! n = Some x →
    fine (ts_cyc_per_tick s) q (blocked x) x = true ∧ (q = Periodic → time < next_due q x).

Lemma expired_te n q x x' l s : ts_te (expired n q x x' l s) = <[n := x']> (ts_te s).
Proof. by destruct q. Qed.

Lemma expired_same n q x x' l s y : ts_te s !! n = Some y → ts_te (expired n q x x' l s) !! n = Some x'.
Proof. intros Hy. rewrite expired_te. by apply (put_lookup n y x' s). Qed.

Lemma expired_ne n q x x' l s m : m ≠ n → ts_te (expired n q x x' l s) !! m = ts_te s !! m.
Proof. intros Hne. rewrite expired_te. by apply list_lookup_insert_ne. Qed.

Lemma filter_absent (n : nat) (l : list nat) : n ∉ l → filter (.≠ n) l = l.
Proof.
  induction l as [|m l IH]; intros Hn; [done|]. apply not_elem_of_cons in Hn as [Hne Hn].
  rewrite filter_cons_True by auto. by rewrite IH.
Qed.

Lemma filter_head (n : nat) (l : list nat) : n ∉ l → filter (.≠ n) (n :: l) = l.
Proof. intros Hn. rewrite filter_cons_False by auto. by apply filter_absent. Qed.

(** The list after the first structure expired. *)
Lemma expired_list n q x x' l s E R time :
  NoDup (n :: E ++ R) → queue_of q s = n :: E ++ R → ts_te s !! n = Some x →
  te_event_expiration x' = next_due q x → (q = Periodic → time < next_due q x) →
  (∀ m, m ∈ E → expo s m ≤ time) →
  ∃ R1, queue_of q (expired n q x x' l s) = E ++ R1 ∧
    R1 ≡ₚ match q with Events => R | Periodic => n :: R end.
Proof.
  intros [Hn Hnd]%NoDup_cons Hq Hx Hx' Ht HE. destruct q; cbn in *; rewrite Hq, filter_head by done.
  { by exists R. }
  rewrite place_app; [by eexists; split; [done|apply place_perm]|].
  intros m Hm. rewrite (expo_at (put _ _ _) n x') by (by eapply put_lookup).
  assert (m ≠ n) by (intros ->; apply Hn, elem_of_app; by left).
  unfold expo. rewrite put_other by done. specialize (HE m Hm). specialize (Ht eq_refl).
  unfold expo in HE. cbn. lia.
Qed.

Lemma sleepers_cons s n x E : ts_te s !! n = Some x →
  sleepers s (n :: E) = (if blocked x then [te_thread_id x] else []) ++ sleepers s E.
Proof. intros Hx. unfold sleepers. cbn. rewrite Hx. cbn. by destruct (blocked x). Qed.

Lemma expired_post n q x x' l s E s' :
  n ∉ E → ts_te s !! n = Some x →
  core x' = (next_due q x, te_thread_id x, expired_flags (te_flags x), te_period x) →
  (∀ q', q' ≠ q → queue_of q' (expired n q x x' l s) = queue_of q' s) →
  expiration_post q E (expired n q x x' l s) s' → expiration_post q (n :: E) s s'.
Proof.
  intros Hn Hx Hc Ho [Hd Hr Hw Hq Hv Ht Hcy Hto]. split.
  - intros m y [->|Hm]%elem_of_cons Hy.
    + simplify_eq. exists x'. rewrite Hr by done. by rewrite (expired_same _ _ _ _ _ _ _ Hx).
    + apply Hd; [done|]. rewrite expired_ne; [done|]. by intros ->.
  - intros m [Hne Hm]%not_elem_of_cons. rewrite Hr by done. by apply expired_ne.
  - rewrite Hw. replace (sleepers (expired n q x x' l s) E) with (sleepers s E).
    + rewrite (sleepers_cons _ _ _ _ Hx), reverse_app, <- app_assoc. unfold expired. by destruct q, (blocked x).
    + unfold sleepers. apply list_omap_ext, Forall_Forall2_diag, Forall_forall. intros m Hm.
      rewrite expired_ne; [done|]. by intros ->.
  - intros q' Hq'. rewrite Hq by done. by apply Ho.
  - intros q'. rewrite Hv. by destruct q, q'.
  - rewrite Ht. by destruct q.
  - rewrite Hcy. by destruct q.
  - rewrite Hto. by destruct q.
Qed.

Lemma expired_other n q x x' l s q' :
  tinv s → n ∈ queue_of q s → q' ≠ q → queue_of q' (expired n q x x' l s) = queue_of q' s.
Proof.
  intros Hi Hn Hq. assert (Hn' : n ∉ queue_of q' s).
  { intros Hn'. destruct q, q'; try done; by eapply queues_apart; [apply Hi|..]. }
  destruct q, q'; try done; by apply filter_absent.
Qed.

(** The first structure [n] of the list is due. *)
Lemma expire_step time q n E R s :
  tinv s → queue_of q s = n :: E ++ R → (∀ m, m ∈ n :: E → expo s m ≤ time) →
  (∀ m, m ∈ R → time < expo s m) → timely time q s (n :: E) →
  ∃ s1 R1, expire_one n q s = Done (head (E ++ R)) s1 ∧ tinv s1 ∧ queue_of q s1 = E ++ R1 ∧
    R1 ≡ₚ (match q with Events => R | Periodic => n :: R end) ∧
    (∀ m, m ∈ E → expo s1 m ≤ time) ∧ (∀ m, m ∈ R1 → time < expo s1 m) ∧ timely time q s1 E ∧
    ∀ s', expiration_post q E s1 s' → expiration_post q (n :: E) s s'.
Proof.
  intros Hi Hq HE HR Ht. assert (Hnq : n ∈ queue_of q s) by (rewrite Hq; left).
  destruct (ti_on _ _ Hi q n Hnq) as (x & Hx & _ & _ & _).
  pose proof (queue_nodup _ q (ti_dup _ _ Hi)) as Hnd. rewrite Hq in Hnd.
  destruct (Ht n x ltac:(left) Hx) as [Hf Hnx].
  destruct (expire_one_run n q x s Hi Hnq Hx) as (x' & l & Hc & Hr). rewrite Hf, Hq in Hr.
  pose proof Hc as Hc'. injection Hc' as Hex _ _ _.
  destruct (expired_list n q x x' l s E R time Hnd Hq Hx Hex Hnx) as (R1 & Hq1 & HR1).
  { intros m Hm. apply HE. by right. }
  apply NoDup_cons in Hnd as [[Hn1 Hn2]%not_elem_of_app Hnd].
  assert (Hex' : ∀ m, m ≠ n → expo (expired n q x x' l s) m = expo s m).
  { intros m Hm. unfold expo. by rewrite expired_ne. }
  exists (expired n q x x' l s), R1. split_and!; try done.
  - rewrite Hr. cbn [after]. by rewrite decide_True.
  - by eapply tinv_expired.
  - intros m Hm. rewrite Hex' by (by intros ->). apply HE. by right.
  - intros m. rewrite HR1. intros Hm. destruct (decide (m = n)) as [->|Hne].
    + destruct q; [done|]. rewrite (expo_at _ _ _ (expired_same _ _ _ _ _ _ _ Hx)), Hex. by apply Hnx.
    + rewrite Hex' by done. apply HR. destruct q; [done|]. by apply elem_of_cons in Hm as [->|].
  - intros m y Hm Hy. rewrite expired_ne in Hy by (by intros ->).
    replace (ts_cyc_per_tick (expired n q x x' l s)) with (ts_cyc_per_tick s) by (by destruct q).
    apply (Ht m y); [by right|done].
  - intros s'. apply expired_post; try done. intros q' Hq'. by apply expired_other.
Qed.

Lemma expiration_loop_run time q E : ∀ fuel R R0 s,
  tinv s → queue_of q s = E ++ R → (∀ n, n ∈ E → expo s n ≤ time) →
  (∀ n, n ∈ R → time < expo s n) → (∀ n, head R0 = Some n → n ∈ R) →
  timely time q s E → (length E < fuel)%nat →
  ∃ s', expiration_loop fuel time q (head (E ++ R0)) s = Done tt s' ∧ tinv s' ∧
    expiration_post q E s s' ∧
    queue_of q s' ≡ₚ (match q with Events => R | Periodic => E ++ R end) ∧
    (∀ n, n ∈ queue_of q s' → time < expo s' n).
Proof.
  induction E as [|n E IH]; intros [|fuel] R R0 s Hi Hq HE HR HR0 Ht Hl; try (cbn in Hl; lia).
  - exists s. split_and!; [|done| |by rewrite Hq; destruct q|by rewrite Hq].
    + cbn. destruct (head R0) as [n|]; [|done]. specialize (HR0 n eq_refl).
      destruct (ti_on _ _ Hi q n) as (x & Hx & _); [by rewrite Hq|].
      rewrite (bind_run _ _ _ _ _ (get_te_run _ _ _ Hx)). specialize (HR n HR0).
      rewrite (expo_at _ _ _ Hx) in HR. by rewrite (proj2 (Z.ltb_lt _ _) HR).
    + split; try done. by intros ? ? ?%elem_of_nil.
  - destruct (expire_step time q n E R s) as (s1 & R1 & Hr & Hi1 & Hq1 & HR1 & HE1 & HL1 & Ht1 & Hp); [done..|].
    destruct (IH fuel R1 R s1) as (s' & Hrun & Hi' & Hpost & Hq' & Hlate); try done.
    { intros m Hm%head_Some_elem_of. rewrite HR1. destruct q; [done|]. by right. }
    { cbn in Hl. lia. }
    exists s'. split_and!; [|done|by apply Hp| |done].
    + destruct (ti_on _ _ Hi q n) as (x & Hx & _); [rewrite Hq; left|].
      cbn [expiration_loop app head]. rewrite (bind_run _ _ _ _ _ (get_te_run _ _ _ Hx)).
      specialize (HE n ltac:(left)). rewrite (expo_at _ _ _ Hx) in HE.
      rewrite (proj2 (Z.ltb_ge _ _) HE), (bind_run _ _ _ _ _ Hr). done.
    + rewrite Hq'. destruct q; [done|]. rewrite HR1. by rewrite <- Permutation_middle.
Qed.

(** The structures of a list that are due. *)
Definition due (time : Z) (q : queue) (s : tstate) : list nat :=
  filter (λ n, expo s n ≤ time) (queue_of q s).

Lemma sorted_split s time l : sorted s l →
  l = filter (λ n, expo s n ≤ time) l ++ filter (λ n, ¬ expo s n ≤ time) l.
Proof.
  induction 1 as [|a l Hs IH Ha]; [done|]. rewrite !filter_cons.
  destruct (decide (expo s a ≤ time)) as [Hle|Hgt].
  - rewrite decide_False by auto. cbn. by f_equal.
  - rewrite decide_True by auto.
    assert (Hno : filter (λ n, expo s n ≤ time) l = []); [|by rewrite Hno in *; cbn in *; f_equal].
    clear Hs IH. induction Ha as [|b l Hb _ IHa]; [done|]. rewrite filter_cons_False; [done|lia].
Qed.

Lemma enough_fuel time q s : tinv s → (length (due time q s) < expire_fuel time q s)%nat.
Proof.
  intros Hi. unfold due, expire_fuel.
  assert (Hq : ∀ n, n ∈ queue_of q s → is_Some (ts_te s !! n)).
  { intros n Hn. destruct (ti_on _ _ Hi q n Hn) as (x & Hx & _). by exists x. }
  induction (queue_of q s) as [|n l IH]; [cbn; lia|]. rewrite filter_cons. cbn [sum_list_with].
  specialize (IH ltac:(intros m Hm; apply Hq; by right)).
  destruct (Hq n ltac:(left)) as [x Hx]. rewrite Hx. case_decide as Hle; [|lia].
  rewrite (expo_at _ _ _ Hx) in Hle. cbn [length]. lia.
Qed.

Lemma expiration_run time q s :
  tinv s → time ≠ TIMER_NO_EVENTS → timely time q s (due time q s) →
  ∃ s', event_expiration_ time q s = Done tt s' ∧ tinv s' ∧
    expiration_post q (due time q s) s s' ∧
    queue_of q s' ≡ₚ (match q with Events => filter (λ n, ¬ expo s n ≤ time) (queue_of q s)
                                 | Periodic => queue_of q s end) ∧
    (∀ n, n ∈ queue_of q s' → time < expo s' n).
Proof.
  intros Hi Ht Hty. pose proof (sorted_split s time _ (ti_sorted _ _ Hi q)) as Hsp.
  set (R := filter (λ n, ¬ expo s n ≤ time) (queue_of q s)) in *.
  change (queue_of q s = due time q s ++ R) in Hsp.
  destruct (expiration_loop_run time q (due time q s) (expire_fuel time q s) R R s) as (s' & Hr & Hi' & Hp & Hq & Hl).
  - done.
  - exact Hsp.
  - by intros n [? _]%list_elem_of_filter.
  - intros n [? _]%list_elem_of_filter. lia.
  - intros n. apply head_Some_elem_of.
  - done.
  - by apply enough_fuel.
  - exists s'. split_and!; [|done..| |done].
    + unfold event_expiration_. rewrite (proj2 (Z.eqb_neq _ _) Ht). cbn [negb]. mrun. by rewrite <- Hsp in Hr.
    + rewrite Hq. destruct q; [done|]. by rewrite <- Hsp.
Qed.

(** ** The next event *)

(** No event is at the time that stands for no event. *)
Definition in_range (s : tstate) : Prop := ∀ q n, n ∈ queue_of q s → expo s n < TIMER_NO_EVENTS.

Lemma first_run q s : tinv s → in_range s →
  ∃ t, first_expiration q s = Done t s ∧ t ≤ TIMER_NO_EVENTS ∧
    (∀ n, n ∈ queue_of q s → t ≤ expo s n) ∧
    (t < TIMER_NO_EVENTS → ∃ n, n ∈ queue_of q s ∧ expo s n = t).
Proof.
  intros Hi Hr. unfold first_expiration. mrun. pose proof (ti_sorted _ _ Hi q) as Hs.
  pose proof (λ n, Hr q n) as Hr'. pose proof (λ n, ti_on _ _ Hi q n) as Ho.
  destruct (queue_of q s) as [|n l]; cbn [head].
  { exists TIMER_NO_EVENTS. split_and!; [done..| |lia]. by intros n ?%elem_of_nil. }
  destruct (Ho n ltac:(left)) as (x & Hx & _). exists (expo s n).
  rewrite (bind_run _ _ _ _ _ (get_te_run _ _ _ Hx)), (expo_at _ _ _ Hx). split_and!.
  - done.
  - specialize (Hr' n ltac:(left)). rewrite (expo_at _ _ _ Hx) in Hr'. lia.
  - intros m [->|Hm]%elem_of_cons; [by rewrite (expo_at _ _ _ Hx)|].
    rewrite <- (expo_at _ _ _ Hx). apply StronglySorted_inv in Hs as [_ Hs].
    by apply (proj1 (Forall_forall _ _) Hs).
  - intros _. exists n. split; [left|by rewrite (expo_at _ _ _ Hx)].
Qed.

(** The earliest event of both lists. *)
Lemma next_event_run s : tinv s → in_range s →
  ∃ t, next_event_time s = Done t s ∧ t ≤ TIMER_NO_EVENTS ∧
    (∀ q n, n ∈ queue_of q s → t ≤ expo s n) ∧
    (t < TIMER_NO_EVENTS → ∃ q n, n ∈ queue_of q s ∧ expo s n = t).
Proof.
  intros Hi Hr. destruct (first_run Events s Hi Hr) as (e & He & Hem & Hel & Hee).
  destruct (first_run Periodic s Hi Hr) as (p & Hp & Hpm & Hpl & Hpe).
  exists (Z.min e p). unfold next_event_time.
  rewrite (bind_run _ _ _ _ _ He), (bind_run _ _ _ _ _ Hp). split_and!; [done|lia|..].
  - intros [] n Hn; [specialize (Hel n Hn)|specialize (Hpl n Hn)]; lia.
  - intros Ht. destruct (Z.min_spec e p) as [[? Hm]|[? Hm]]; rewrite Hm in *.
    + destruct Hee as (n & ?); [done|]. by exists Events, n.
    + destruct Hpe as (n & ?); [done|]. by exists Periodic, n.
Qed.

(** ** The round *)

(** The timer thread is less than a period late, and the times are far from
    the end of the clock. *)
Definition on_time (now : Z) (s : tstate) : Prop :=
  0 ≤ now < TIMER_NO_EVENTS ∧ in_range s ∧
  ∀ n x, n ∈ ts_periodic s → ts_te s !! n = Some x → te_event_expiration x ≤ now →
    accounted (ts_cyc_per_tick s) (blocked x) x = true ∧
    now < te_event_expiration x + te_period x < TIMER_NO_EVENTS.

Lemma on_time_timely now s : tinv s → on_time now s → timely now Periodic s (due now Periodic s).
Proof.
  intros Hi (Hn & Hr & Hp) n x [Hle Hin]%list_elem_of_filter Hx. rewrite (expo_at _ _ _ Hx) in Hle.
  destruct (Hp n x Hin Hx Hle) as [Ha Hb]. unfold TIMER_NO_EVENTS in *.
  cbn [fine next_due]. rewrite u64_id by lia. rewrite Ha. split; [|lia].
  apply negb_true_iff, Z.eqb_neq. lia.
Qed.

Lemma sleepers_app s l1 l2 : sleepers s (l1 ++ l2) = sleepers s l1 ++ sleepers s l2.
Proof. apply omap_app. Qed.

Lemma post_expo q E s s' n : expiration_post q E s s' → n ∉ E → expo s' n = expo s n.
Proof. intros Hp Hn. unfold expo. by rewrite (ep_rest _ _ _ _ Hp). Qed.

(** What a round does to the lists and the structures. *)
Record round_post (now : Z) (s s' : tstate) : Prop := {
  rp_tinv : tinv s';
  rp_woken : ts_woken s' = reverse (sleepers s (due now Periodic s ++ due now Events s)) ++ ts_woken s;
  rp_due : ∀ q n x, n ∈ due now q s → ts_te s !! n = Some x → ∃ x', ts_te s' !! n = Some x' ∧
    core x' = (next_due q x, te_thread_id x, expired_flags (te_flags x), te_period x);
  rp_rest : ∀ n, n ∉ due now Periodic s → n ∉ due now Events s → ts_te s' !! n = ts_te s !! n;
  rp_events : ts_events s' ≡ₚ filter (λ n, ¬ expo s n ≤ now) (ts_events s);
  rp_periodic : ts_periodic s' ≡ₚ ts_periodic s;
  rp_later : ∀ q n, n ∈ queue_of q s' → now < expo s' n
}.

Lemma filter_ext_in (P Q : nat → Prop) `{!∀ n, Decision (P n)} `{!∀ n, Decision (Q n)} (l : list nat) :
  (∀ n, n ∈ l → P n ↔ Q n) → filter P l = filter Q l.
Proof.
  induction l as [|a l IH]; intros HPQ; [done|]. rewrite !filter_cons, IH by (intros; apply HPQ; by right).
  specialize (HPQ a ltac:(left)). repeat case_decide; tauto.
Qed.

(** The two passes of a round: the periodic threads, then the others. *)
Lemma round_compose now s s1 s2 :
  tinv s → tinv s2 → expiration_post Periodic (due now Periodic s) s s1 →
  expiration_post Events (due now Events s1) s1 s2 →
  ts_periodic s1 ≡ₚ ts_periodic s → (∀ n, n ∈ ts_periodic s1 → now < expo s1 n) →
  ts_events s2 ≡ₚ filter (λ n, ¬ expo s1 n ≤ now) (ts_events s1) →
  (∀ n, n ∈ ts_events s2 → now < expo s2 n) → round_post now s s2.
Proof.
  intros Hi Hi2 Hp1 Hp2 Hq1 Hl1 Hq2 Hl2.
  assert (Hev : ts_events s1 = ts_events s) by (by apply (ep_other _ _ _ _ Hp1 Events)).
  assert (Hpe : ts_periodic s2 = ts_periodic s1) by (by apply (ep_other _ _ _ _ Hp2 Periodic)).
  assert (Hap : ∀ n, n ∈ ts_events s → n ∈ ts_periodic s → False)
    by (intros n; apply queues_apart, Hi).
  assert (Hne : ∀ n, n ∈ ts_events s → n ∉ due now Periodic s).
  { intros n Hn [_ Hn']%list_elem_of_filter. by apply (Hap n). }
  assert (Hex : ∀ n, n ∈ ts_events s → expo s1 n = expo s n).
  { intros n Hn. apply (post_expo _ _ _ _ _ Hp1). by apply Hne. }
  assert (Hdue : due now Events s1 = due now Events s).
  { unfold due. cbn [queue_of]. rewrite Hev. apply filter_ext_in. intros n Hn. by rewrite Hex. }
  assert (Hin : ∀ n, n ∈ due now Events s → n ∈ ts_events s) by (by intros n [_ ?]%list_elem_of_filter).
  rewrite Hdue in Hp2. split; [done|..].
  - rewrite (ep_woken _ _ _ _ Hp2), (ep_woken _ _ _ _ Hp1), sleepers_app, reverse_app, app_assoc.
    do 3 f_equal. apply list_omap_ext, Forall_Forall2_diag, Forall_forall. intros n Hn.
    rewrite (ep_rest _ _ _ _ Hp1); [done|]. auto.
  - intros [] n x Hn Hx.
    + apply (ep_due _ _ _ _ Hp2 n x Hn). rewrite (ep_rest _ _ _ _ Hp1); auto.
    + destruct (ep_due _ _ _ _ Hp1 n x Hn Hx) as (x' & Hx' & Hc). exists x'. split; [|done].
      rewrite (ep_rest _ _ _ _ Hp2); [done|]. intros Hn'%Hin. by apply (Hne n).
  - intros n Hn1 Hn2. by rewrite (ep_rest _ _ _ _ Hp2), (ep_rest _ _ _ _ Hp1).
  - rewrite Hq2, Hev. erewrite filter_ext_in; [done|]. intros n Hn. cbn. by rewrite Hex.
  - by rewrite Hpe.
  - intros [] n Hn; [by apply Hl2|]. cbn in Hn. rewrite Hpe in Hn.
    rewrite (post_expo _ _ _ _ _ Hp2); [by apply Hl1|]. intros Hn'%Hin. apply (Hap n Hn'). by rewrite <- Hq1.
Qed.

Lemma event_expiration_run now s :
  tinv s → on_time now s →
  ∃ s', event_expiration now s = Done tt s' ∧ round_post now s s' ∧ ts_timeouts s' = ts_timeouts s ∧
    ts_ticks s' = ts_ticks s.
Proof.
  intros Hi Ho. pose proof (on_time_timely now s Hi Ho) as Ht.
  assert (Hnow : now ≠ TIMER_NO_EVENTS) by (destruct Ho as [? _]; lia).
  destruct (expiration_run now Periodic s Hi Hnow Ht) as (s1 & Hr1 & Hi1 & Hp1 & Hq1 & Hl1).
  destruct (expiration_run now Events s1 Hi1 Hnow) as (s2 & Hr2 & Hi2 & Hp2 & Hq2 & Hl2); [done|].
  exists s2. split_and!.
  - unfold event_expiration. by rewrite (bind_run _ _ _ _ _ Hr1).
  - by eapply round_compose.
  - by rewrite (ep_timeouts _ _ _ _ Hp2), (ep_timeouts _ _ _ _ Hp1).
  - by rewrite (ep_ticks _ _ _ _ Hp2), (ep_ticks _ _ _ _ Hp1).
Qed.

(** The clock and the requested timeouts do not matter to it. *)
Lemma round_post_outside now s s' t l :
  round_post now (set_ts_ticks t s) s' → round_post now s (set_ts_timeouts l s').
Proof.
  intros [Hi Hw Hd Hr He Hp Hl]. split; [by apply tinv_outside|exact Hw|..|exact Hr|exact He|exact Hp|].
  - intros []; [exact (Hd Events)|exact (Hd Periodic)].
  - intros []; [exact (Hl Events)|exact (Hl Periodic)].
Qed.

Lemma round_in_range now s s' : tinv s → on_time now s → round_post now s s' → in_range s'.
Proof.
  intros Hi (Hn & Hr & Hot) Hp q n Hq.
  assert (Hold : n ∈ queue_of q s).
  { destruct q; cbn in Hq |- *.
    - rewrite (rp_events _ _ _ Hp) in Hq. by apply list_elem_of_filter in Hq as [_ ?].
    - by rewrite (rp_periodic _ _ _ Hp) in Hq. }
  destruct (ti_on _ _ Hi q n Hold) as (x & Hx & _). specialize (Hr q n Hold).
  destruct (decide (n ∈ due now q s)) as [Hdue|Hnd].
  - destruct (rp_due _ _ _ Hp q n x Hdue Hx) as (x' & Hx' & Hc). injection Hc as Hex _ _ _.
    rewrite (expo_at _ _ _ Hx'), Hex. destruct q; cbn [next_due].
    + by rewrite (expo_at _ _ _ Hx) in Hr.
    + apply list_elem_of_filter in Hdue as [Hle _]. rewrite (expo_at _ _ _ Hx) in Hle.
      destruct (Hot n x Hold Hx Hle) as [_ Hb]. unfold TIMER_NO_EVENTS in *. rewrite u64_id; lia.
  - unfold expo. rewrite (rp_rest _ _ _ Hp); [by destruct q| |]; intros Hd; destruct q; try done;
      apply list_elem_of_filter in Hd as [_ Hd]; by eapply queues_apart; [apply Hi|..].
Qed.

Definition earliest (s : tstate) (n : nat) : Prop :=
  (∃ q, n ∈ queue_of q s) ∧ ∀ q m, m ∈ queue_of q s → expo s n ≤ expo s m.

(** A round that is on time, with the timeout that it asks for. *)
Lemma round_run now s :
  tinv s → on_time now s →
  ∃ b s', timer_round now s = Done b s' ∧ round_post now s s' ∧ in_range s' ∧
    if b : bool then ts_timeouts s' = ts_timeouts s ∧ ts_events s' = [] ∧ ts_periodic s' = []
    else ∃ n, earliest s' n ∧ ts_timeouts s' = u32 (expo s' n - now) :: ts_timeouts s.
Proof.
  intros Hi Ho. assert (Hi0 : tinv (set_ts_ticks now s)) by (by apply tinv_outside).
  assert (Ho0 : on_time now (set_ts_ticks now s)) by (destruct Ho as (H1 & Hr & H2);
    split; [exact H1|split; [|exact H2]]; intros []; [exact (Hr Events)|exact (Hr Periodic)]).
  destruct (event_expiration_run now _ Hi0 Ho0) as (s1 & Hr & Hp & Hto & Hti).
  pose proof (round_in_range _ _ _ Hi0 Ho0 Hp) as Hir.
  destruct (next_event_run s1 (rp_tinv _ _ _ Hp) Hir) as (t & Ht & Hle & Hmin & Hex).
  unfold timer_round. mrun. rewrite (bind_run _ _ _ _ _ Hr). cbv beta. rewrite (bind_run _ _ _ _ _ Ht).
  destruct (Z.eqb_spec t TIMER_NO_EVENTS) as [->|Hne].
  - exists true, s1. split_and!; try done.
    + replace s1 with (set_ts_timeouts (ts_timeouts s1) s1) by (by destruct s1). by eapply round_post_outside.
    + apply elem_of_nil_inv. intros n Hn. specialize (Hmin Events n Hn). specialize (Hir Events n Hn). lia.
    + apply elem_of_nil_inv. intros n Hn. specialize (Hmin Periodic n Hn). specialize (Hir Periodic n Hn). lia.
  - destruct Hex as (q & n & Hn & Hex); [lia|]. pose proof (rp_later _ _ _ Hp q n Hn) as Hlt.
    rewrite (proj2 (Z.ltb_lt now t)) by lia. unfold sched_timeout. mrun.
    eexists false, _. split_and!; [done|by eapply round_post_outside|intros []; [exact (Hir Events)|exact (Hir Periodic)]|].
    exists n. split; [split; [by exists q; destruct q|]|].
    + intros q' m Hm. change (expo s1 n ≤ expo s1 m). rewrite Hex. apply (Hmin q'). by destruct q'.
    + cbn. rewrite Hto. change (expo (set_ts_timeouts _ s1) n) with (expo s1 n). by rewrite Hex.
Qed.

(** ** Sleeping *)

(** The structure of a thread, when there is memory for a new one. *)
Lemma te_get_run tid q s : tinv s →
  ∃ n x s0, te_get_ true true tid q s = Done (Some n) s0 ∧ tinv s0 ∧ vect_of q s0 !! tid = Some n ∧
    ts_te s0 !! n = Some x ∧ ts_events s0 = ts_events s ∧ ts_periodic s0 = ts_periodic s ∧
    ts_timeouts s0 = ts_timeouts s ∧ ts_woken s0 = ts_woken s ∧
    (∀ m, is_Some (ts_te s !! m) → ts_te s0 !! m = ts_te s !! m) ∧
    (vect_of q s !! tid = Some n ∨ ts_te s !! n = None).
Proof.
  intros Hi.
  assert (Hr : ∃ n s0, te_get_ true true tid q s = Done (Some n) s0 ∧
            ts_timeouts s0 = ts_timeouts s ∧ ts_woken s0 = ts_woken s ∧
            (∀ m, is_Some (ts_te s !! m) → ts_te s0 !! m = ts_te s !! m) ∧
            (vect_of q s !! tid = Some n ∨ ts_te s !! n = None)).
  { unfold te_get_. mrun. destruct (vect_of q s !! tid) as [n|]; [by exists n, s; auto 6|]. cbn [negb]. mrun.
    eexists _, _. split; [done|]. split_and!; [by destruct q..| |by right; apply lookup_ge_None].
    intros m [y Hy]. rewrite Hy. destruct q; cbn; by apply lookup_app_l_Some. }
  destruct Hr as (n & s0 & Hr & ? & ? & ? & ?).
  destruct (te_get_tinv _ _ _ _ _ _ _ Hi Hr) as (Hi0 & ? & ? & Hv). specialize (Hv n eq_refl).
  destruct (ti_vect _ _ Hi0 _ _ _ Hv) as (x & Hx & _). exists n, x, s0. by split_and!.
Qed.

(** A thread that goes to sleep: its structure [n] is queued for the time after
    [amnt] full ticks. *)
Record asleep (n : nat) (tid now amnt : Z) (s s' : tstate) : Prop := {
  as_tinv : tinv s';
  as_vect : ts_thd_evts s' !! tid = Some n;
  as_te : ∃ x, ts_te s' !! n = Some x ∧ te_thread_id x = tid ∧ blocked x = true ∧
    has (te_flags x) TE_TIMED_OUT = false ∧ te_event_expiration x = now + amnt + 1;
  as_rest : ∀ q m, m ∈ queue_of q s → m ≠ n ∧ ts_te s' !! m = ts_te s !! m;
  as_events : ts_events s' ≡ₚ n :: ts_events s;
  as_periodic : ts_periodic s' = ts_periodic s;
  as_woken : ts_woken s' = ts_woken s;
  as_timeouts :
    (∀ q m, m ∈ queue_of q s → now + amnt + 1 < expo s m) ∧
      ts_timeouts s' = amnt + 1 :: ts_timeouts s ∨
    (∃ q m, m ∈ queue_of q s ∧ expo s m ≤ now + amnt + 1) ∧ ts_timeouts s' = ts_timeouts s
}.

(** The structure that [timed_event_block] fills in. *)
Definition sleep_te (tid e : Z) (x : thread_event) : thread_event :=
  set_te_event_expiration e
    (set_te_flags (bset (bclr (te_flags x) TE_TIMED_OUT) TE_BLOCKED) (set_te_thread_id tid x)).

Lemma sleep_te_periodic tid e x : is_periodic (sleep_te tid e x) = is_periodic x.
Proof.
  unfold is_periodic. cbn [te_flags sleep_te set_te_flags set_te_event_expiration].
  by rewrite has_bset, has_bclr_other, orb_false_r by done.
Qed.

(** The state with the thread on the list of events. *)
Lemma sleep_queued tid now e n x s s0 :
  tinv s → in_range s → tinv s0 → vect_of Events s0 !! tid = Some n → ts_te s0 !! n = Some x →
  ts_events s0 = ts_events s → ts_periodic s0 = ts_periodic s →
  (∀ m, is_Some (ts_te s !! m) → ts_te s0 !! m = ts_te s !! m) → n ∉ ts_events s →
  0 < e < TIMER_NO_EVENTS →
  let s1 := put n (sleep_te tid e x) (set_ts_ticks now s0) in
  let s2 := set_ts_events (place s1 n (ts_events s1)) s1 in
  tinv s1 ∧ in_range s1 ∧ insert_event n s1 = Done 0 s2 ∧ tinv s2 ∧ in_range s2 ∧
  (∀ q m, m ∈ queue_of q s → m ≠ n ∧ ts_te s1 !! m = ts_te s !! m) ∧ off_list n s0 = true.
Proof.
  intros Hi Hr Hi0 Hv Hx Hev Hpe Hte Hn He s1 s2.
  destruct (ti_vect _ _ Hi0 _ _ _ Hv) as (y & Hy & Ht & Hp). simplify_eq.
  assert (Hnp : is_periodic x = false) by (destruct (is_periodic x); [by destruct Hp|done]).
  assert (Hpn : n ∉ ts_periodic s0).
  { intros Hin. destruct (ti_on _ _ Hi0 Periodic n Hin) as (y & Hy' & _ & _ & Hpy). simplify_eq. by rewrite Hnp in Hpy. }
  assert (Hen : n ∉ ts_events s0) by (by rewrite Hev).
  assert (Hx1 : ts_te s1 !! n = Some (sleep_te (te_thread_id x) e x)) by (by eapply (put_lookup n x)).
  assert (Hi1 : tinv s1).
  { apply (tinv_put None (set_ts_ticks now s0) n x); [by apply tinv_outside|done..|tauto|].
    by rewrite sleep_te_periodic, Hnp. }
  assert (Hrest : ∀ q m, m ∈ queue_of q s → m ≠ n ∧ ts_te s1 !! m = ts_te s !! m).
  { intros q m Hm. assert (Hne : m ≠ n) by (intros ->; destruct q; cbn in Hm; congruence).
    split; [done|]. unfold s1. rewrite put_other by done. apply Hte.
    destruct (ti_on _ _ Hi q m Hm) as (y & -> & _). eauto. }
  assert (Hq1 : ∀ q, queue_of q s1 = queue_of q s) by (by intros []).
  assert (Hr1 : in_range s1).
  { intros q m Hm. rewrite Hq1 in Hm. unfold expo. rewrite (proj2 (Hrest q m Hm)). exact (Hr q m Hm). }
  assert (Hi2 : tinv s2).
  { apply (tinv_placed n Events s1 (sleep_te (te_thread_id x) e x)); try done; [by apply tinv_open|cbn; lia|].
    by rewrite sleep_te_periodic, Hnp. }
  split_and!; try done.
  - apply (insert_run s1 n Events _ Hx1); try done; [cbn; lia|]. apply Forall_forall. intros m Hm.
    destruct (ti_on _ _ Hi1 Events m Hm) as (y & Hy' & _). eauto.
  - intros [] m Hm; [|exact (Hr1 Periodic m Hm)]. cbn in Hm. rewrite place_perm in Hm.
    change (expo s2 m) with (expo s1 m). apply elem_of_cons in Hm as [->|Hm]; [|exact (Hr1 Events m Hm)].
    rewrite (expo_at _ _ _ Hx1). cbn. lia.
  - unfold off_list. by rewrite !bool_decide_eq_true_2.
Qed.

(** The times of the next event before and after the thread is queued. *)
Lemma sleep_timeout s s1 s2 n e t t' (amnt : Z) (l : list Z) :
  (∀ q m, m ∈ queue_of q s2 ↔ m = n ∧ q = Events ∨ m ∈ queue_of q s) →
  (∀ q m, m ∈ queue_of q s1 ↔ m ∈ queue_of q s) →
  (∀ q m, m ∈ queue_of q s → expo s1 m = expo s m ∧ expo s2 m = expo s m) → expo s2 n = e →
  e < TIMER_NO_EVENTS → t ≤ TIMER_NO_EVENTS →
  (∀ q m, m ∈ queue_of q s1 → t ≤ expo s1 m) →
  (t < TIMER_NO_EVENTS → ∃ q m, m ∈ queue_of q s1 ∧ expo s1 m = t) →
  (∀ q m, m ∈ queue_of q s2 → t' ≤ expo s2 m) →
  (t' < TIMER_NO_EVENTS → ∃ q m, m ∈ queue_of q s2 ∧ expo s2 m = t') →
  let l' := if negb (t =? t') then amnt :: l else l in
  (∀ q m, m ∈ queue_of q s → e < expo s m) ∧ l' = amnt :: l ∨
  (∃ q m, m ∈ queue_of q s ∧ expo s m ≤ e) ∧ l' = l.
Proof.
  intros H2 H1 Hex Hn He Ht Htm Hte Htm' Hte' l'.
  assert (Hle : t' ≤ e) by (rewrite <- Hn; apply (Htm' Events), H2; auto).
  assert (Hall : ∀ q m, m ∈ queue_of q s → t ≤ expo s m ∧ t' ≤ expo s m).
  { intros q m Hm. destruct (Hex q m Hm) as [E1 E2]. split.
    - rewrite <- E1. by apply (Htm q), H1.
    - rewrite <- E2. apply (Htm' q), H2. auto. }
  destruct Hte' as (q & m & Hm & Em); [lia|]. unfold l'. destruct (Z.eqb_spec t t') as [->|Hne]; cbn [negb].
  - right. split; [|done]. destruct Hte as (q1 & m1 & Hm1%H1 & Em1); [lia|].
    exists q1, m1. split; [done|]. destruct (Hex q1 m1 Hm1) as [E1 _]. lia.
  - left. split; [|done]. apply H2 in Hm as [[-> ->]|Hm].
    + intros q m Hm. destruct (Hall q m Hm). assert (e < t); [|lia]. destruct (decide (e < t)); [done|].
      assert (Hlt : t < TIMER_NO_EVENTS) by lia. destruct (Hte Hlt) as (q1 & m1 & Hm1%H1 & Em1).
      destruct (Hex q1 m1 Hm1) as [E1 _]. destruct (Hall q1 m1 Hm1). lia.
    + destruct (Hex q m Hm) as [_ E2]. destruct (Hall q m Hm).
      assert (Hlt : t < TIMER_NO_EVENTS ∨ t = TIMER_NO_EVENTS) by lia. destruct Hlt as [Hlt|Hlt].
      * destruct (Hte Hlt) as (q1 & m1 & Hm1%H1 & Em1). destruct (Hex q1 m1 Hm1). destruct (Hall q1 m1 Hm1). lia.
      * lia.
Qed.

Lemma te_block_run tid now amnt s :
  tinv s → in_range s → 0 < amnt < 2 ^ 32 - 1 → 0 ≤ now → now + amnt + 1 < TIMER_NO_EVENTS →
  (∀ n, ts_thd_evts s !! tid = Some n → n ∉ ts_events s) →
  ∃ n s', timed_event_block true true tid now amnt s = Done (Some (n, s32 now)) s' ∧
    asleep n tid now amnt s s'.
Proof.
  intros Hi Hr Ha Hnow Hmax Hoff.
  destruct (te_get_run tid Events s Hi) as (n & x & s0 & Hg & Hi0 & Hv & Hx & Hev & Hpe & Hto & Hw & Hte & Hnew).
  assert (Hn : n ∉ ts_events s).
  { destruct Hnew as [Hnew|Hnew]; [by apply Hoff|]. intros Hin.
    destruct (ti_on _ _ Hi Events n Hin) as (y & Hy & _). congruence. }
  set (e := now + amnt + 1).
  destruct (sleep_queued tid now e n x s s0) as (Hi1 & Hr1 & Hins & Hi2 & Hr2 & Hrest & Hol); try done; [lia|].
  set (s1 := put n (sleep_te tid e x) (set_ts_ticks now s0)) in *.
  set (s2 := set_ts_events (place s1 n (ts_events s1)) s1) in *.
  destruct (next_event_run s1 Hi1 Hr1) as (t & Ht & Htl & Htm & Hte1).
  destruct (next_event_run s2 Hi2 Hr2) as (t' & Ht' & Htl' & Htm' & Hte2).
  assert (Hx' : ts_te (set_ts_ticks now s0) !! n = Some x) by done.
  set (l' := if negb (t =? t') then amnt + 1 :: ts_timeouts s else ts_timeouts s).
  exists n, (set_ts_timeouts l' s2). split.
  - unfold timed_event_block. rewrite (proj2 (Z.eqb_neq amnt 0)) by lia. unfold te_get.
    rewrite (bind_run _ _ _ _ _ Hg). cbv beta zeta. rewrite bool_decide_eq_true_2 by done. mrun.
    rewrite Hol. mrun. rewrite (bind_run _ _ _ _ _ (upd_te_run _ _ _ _ Hx)). trun.
    match goal with |- context [set_ts_ticks now (put n ?y s0)] =>
      change (set_ts_ticks now (put n y s0)) with (put n y (set_ts_ticks now s0)) end. trun.
    rewrite (u32_id (amnt + 1)) by lia. unfold TIMER_NO_EVENTS in *.
    rewrite (u64_id (now + (amnt + 1))) by lia. replace (now + (amnt + 1)) with e by lia.
    change (set_te_event_expiration e _) with (sleep_te tid e x). fold s1.
    cbn [te_event_expiration sleep_te set_te_event_expiration].
    rewrite (proj2 (Z.ltb_lt now e)) by lia. mrun.
    rewrite (bind_run _ _ _ _ _ Ht), (bind_run _ _ _ _ _ Hins). mrun.
    assert (Hon : off_list n s2 = false).
    { unfold off_list. rewrite bool_decide_eq_false_2; [done|]. intros Hno. apply Hno. cbn.
      rewrite place_perm. left. }
    rewrite Hon. cbn [negb]. mrun. rewrite (bind_run _ _ _ _ _ Ht'). unfold l', sched_timeout.
    destruct (negb _); cbn [when]; mrun; [|by rewrite <- Hto].
    change (ts_timeouts s2) with (ts_timeouts s0). by rewrite Hto.
  - assert (Hx1 : ts_te s1 !! n = Some (sleep_te tid e x)) by (by eapply (put_lookup n x)).
    split; try done.
    + by apply tinv_outside.
    + exists (sleep_te tid e x). split_and!; [exact Hx1|done|..].
      * unfold blocked. cbn [te_flags sleep_te set_te_flags set_te_event_expiration].
        by rewrite has_bset, orb_true_r.
      * cbn [te_flags sleep_te set_te_flags set_te_event_expiration].
        by rewrite has_bset, has_bclr_same.
      * done.
    + cbn. by rewrite place_perm, Hev.
    + apply (sleep_timeout s s1 s2 n e t t' (amnt + 1) (ts_timeouts s)); try done.
      * intros [] m; cbn; [rewrite place_perm, Hev, elem_of_cons|rewrite Hpe]; naive_solver.
      * intros [] m; cbn; [by rewrite Hev|by rewrite Hpe].
      * intros q m Hm. change (expo s2 m) with (expo s1 m). unfold expo. by rewrite (proj2 (Hrest q m Hm)).
      * change (expo s2 n) with (expo s1 n). by rewrite (expo_at _ _ _ Hx1).
Qed.

Lemma asleep_round n tid now amnt s s1 now' s2 :
  asleep n tid now amnt s s1 → round_post now' s1 s2 →
  (now' ≤ now + amnt → n ∈ ts_events s2 ∧ ts_te s2 !! n = ts_te s1 !! n) ∧
  (now + amnt < now' → (∃ w, ts_woken s2 = w ++ ts_woken s ∧ tid ∈ w) ∧
     timed_event_block_return n (s32 now) s2 = Done TIMER_EXPIRED s2).
Proof.
  intros Has Hp. pose proof (as_tinv _ _ _ _ _ _ Has) as Hi1.
  destruct (as_te _ _ _ _ _ _ Has) as (x & Hx & Ht & Hb & Hto & He).
  assert (Hn : n ∈ ts_events s1) by (rewrite (as_events _ _ _ _ _ _ Has); left).
  assert (Hnp : n ∉ ts_periodic s1) by (intros ?; by eapply queues_apart; [apply Hi1|..]).
  split.
  - intros Hle. assert (Hnd : ∀ q, n ∉ due now' q s1).
    { intros q [Hd _]%list_elem_of_filter. rewrite (expo_at _ _ _ Hx) in Hd. lia. }
    split; [|apply (rp_rest _ _ _ Hp); apply Hnd].
    rewrite (rp_events _ _ _ Hp). apply list_elem_of_filter. split; [|done].
    rewrite (expo_at _ _ _ Hx). lia.
  - intros Hgt. assert (Hd : n ∈ due now' Events s1).
    { apply list_elem_of_filter. rewrite (expo_at _ _ _ Hx). split; [lia|done]. }
    split.
    + eexists. split; [by rewrite (rp_woken _ _ _ Hp), (as_woken _ _ _ _ _ _ Has)|].
      rewrite elem_of_reverse. apply list_elem_of_omap. exists n. split; [apply elem_of_app; by right|].
      rewrite Hx. cbn. by rewrite Hb, Ht.
    + destruct (rp_due _ _ _ Hp Events n x Hd Hx) as (x' & Hx' & Hc). injection Hc as _ _ Hfl _.
      unfold timed_event_block_return. mrun.
      assert (Hol : off_list n s2 = true).
      { unfold off_list. rewrite !bool_decide_eq_true_2; [done|..].
        - by rewrite (rp_periodic _ _ _ Hp).
        - rewrite (rp_events _ _ _ Hp). intros [Hc _]%list_elem_of_filter.
          apply Hc. rewrite (expo_at _ _ _ Hx). lia. }
      rewrite Hol. mrun. rewrite (bind_run _ _ _ _ _ (get_te_run _ _ _ Hx')), Hfl.
      unfold expired_flags. rewrite has_bclr_other, has_bset by done. by rewrite orb_true_r.
Qed.

(** C18. A thread that sleeps for [amnt] ticks sleeps at least that long and is
    woken by the first round of the timer thread after that.  Its structure is
    queued for the tick after [amnt] full ones, and a timeout is requested exactly
    when nothing is due earlier.  A round up to then leaves the structure as it
    is; a later round wakes the thread, and [timed_event_block] reports that the
    time expired. *)
Theorem sleep_lasts tid now amnt s :
  tinv s → in_range s → 0 < amnt < 2 ^ 32 - 1 → 0 ≤ now → now + amnt + 1 < TIMER_NO_EVENTS →
  (∀ n, ts_thd_evts s !! tid = Some n → n ∉ ts_events s) →
  ∃ n s1, timed_event_block true true tid now amnt s = Done (Some (n, s32 now)) s1 ∧
    asleep n tid now amnt s s1 ∧
    ∀ now', on_time now' s1 → ∃ b s2, timer_round now' s1 = Done b s2 ∧
      (now' ≤ now + amnt → n ∈ ts_events s2 ∧ ts_te s2 !! n = ts_te s1 !! n) ∧
      (now + amnt < now' → (∃ w, ts_woken s2 = w ++ ts_woken s ∧ tid ∈ w) ∧
         timed_event_block_return n (s32 now) s2 = Done TIMER_EXPIRED s2).
Proof.
  intros Hi Hr Ha Hnow Hmax Hoff.
  destruct (te_block_run tid now amnt s) as (n & s1 & Hb & Has); [done..|]. exists n, s1. split_and!; [done..|].
  intros now' Ho. destruct (round_run now' s1 (as_tinv _ _ _ _ _ _ Has) Ho) as (b & s2 & Hrun & Hp & _).
  exists b, s2. split; [done|]. by apply (asleep_round n tid now amnt s s1).
Qed.


(** C19. The invariant of the timed events holds after every sequence of
    operations: the two lists are sorted by the time of expiration, no structure
    is on both or twice on one, each belongs to the thread whose vector it is in,
    and a thread is on the periodic list exactly when its flag says so. *)
Theorem timed_events_invariant now freq cyc os te tsc u s' :
  (timer_init now freq cyc;; top_runs os) (init_ts te tsc) = Done u s' → tinv s'.
Proof. intros H. minv. apply init_tinv in Hm. by eapply runs_tinv. Qed.

(** ** Concrete runs *)

Definition ts_run (m : M tstate unit) (s : tstate) : tstate :=
  match m s with Done _ s' => s' | Fault _ => s end.

(** Thread 3 is periodic with a period of 5 ticks and waits; thread 4 sleeps for
    3 ticks; both are due at tick 15. *)
Definition demo_ops : list top := [TCreate true true 3 10 5; TWait true true 3; TBlock true true 4 11 3].
Definition demo : tstate := ts_run (timer_init 10 100 1000;; top_runs demo_ops) (init_ts [] [70; 80]).

Lemma demo_tinv : tinv demo.
Proof.
  assert (H : (timer_init 10 100 1000;; top_runs demo_ops) (init_ts [] [70; 80]) = Done tt demo)
    by (by vm_compute).
  apply bind_Done in H as (? & s & H1 & H2). eapply runs_tinv; [|exact H2]. by eapply init_tinv.
Qed.

Lemma demo_range : in_range demo.
Proof.
  intros q n Hn.
  assert (Hc : forallb (λ n, expo demo n <? TIMER_NO_EVENTS) (queue_of q demo) = true)
    by (destruct q; vm_compute; exact eq_refl).
  apply Z.ltb_lt. apply forallb_forall with (x := n) in Hc; [exact Hc|]. by apply list_elem_of_In.
Qed.

(** [on_time] of a state that can be computed. *)
Lemma on_time_check now s : in_range s → 0 ≤ now < TIMER_NO_EVENTS →
  forallb (λ n, match ts_te s !! n with
                | Some x => accounted (ts_cyc_per_tick s) (blocked x) x &&
                    (now <? te_event_expiration x + te_period x) &&
                    (te_event_expiration x + te_period x <? TIMER_NO_EVENTS)
                | None => true end) (ts_periodic s) = true → on_time now s.
Proof.
  intros Hr Hnow Hc. split; [done|]. split; [done|]. intros n x Hn Hx _.
  apply forallb_forall with (x := n) in Hc; [|by apply list_elem_of_In].
  rewrite Hx, !andb_true_iff, !Z.ltb_lt in Hc. tauto.
Qed.

Lemma demo_on_time : on_time 15 demo.
Proof. apply on_time_check; [exact demo_range|split; [discriminate|exact eq_refl]|by vm_compute]. Qed.


(** A timer thread that comes a full period late stops: the structure that it
    puts back is due already, and the loop has passed it. *)
Lemma late_round_stops :
  timer_round 20 (ts_run (timer_init 10 100 1000;; top_runs [TCreate true true 3 10 5]) (init_ts [] [70; 80])) =
  Fault AssertFail.
Proof. by vm_compute. Qed.

(** A thread of period 1 that misses two deadlines stops the component. *)
Lemma short_period_stops :
  timer_round 12 (ts_run (timer_init 10 100 1000;; top_runs [TCreate true true 3 10 1; TRound 11])
                    (init_ts [] [70; 80])) = Fault AssertFail.
Proof. by vm_compute. Qed.

(** To sleep without an end stops it, too: the time is one that has passed. *)
Lemma block_forever_stops :
  timed_event_block true true 4 11 (2 ^ 32 - 1) demo = Fault AssertFail.
Proof. by vm_compute. Qed.

(** A thread that waits and is removed is not woken any more. *)
Lemma remove_leaves_blocked :
  ts_woken (ts_run (top_runs [TRemove true true 3; TRound 15; TRound 100]) demo) = [4].
Proof. by vm_compute. Qed.

Lemma timed_events_invariant_witness :
  ∃ s', (timer_init 10 100 1000;; top_runs demo_ops) (init_ts [] [70; 80]) = Done tt s' ∧ tinv s' ∧
    ts_events s' = [1%nat] ∧ ts_periodic s' = [0%nat].
Proof.
  exists demo. split; [by vm_compute|]. split; [|by vm_compute].
  apply (timed_events_invariant 10 100 1000 demo_ops [] [70; 80] tt). by vm_compute.
Defined.

Lemma sleep_lasts_witness :
  ∃ n s1, timed_event_block true true 5 12 2 demo = Done (Some (n, s32 12)) s1 ∧
    asleep n 5 12 2 demo s1 ∧
    ∀ now', on_time now' s1 → ∃ b s2, timer_round now' s1 = Done b s2 ∧
      (now' ≤ 12 + 2 → n ∈ ts_events s2 ∧ ts_te s2 !! n = ts_te s1 !! n) ∧
      (12 + 2 < now' → (∃ w, ts_woken s2 = w ++ ts_woken demo ∧ 5 ∈ w) ∧
         timed_event_block_return n (s32 12) s2 = Done TIMER_EXPIRED s2).
Proof.
  assert (Hnone : ts_thd_evts demo !! 5 = None) by (vm_compute; exact eq_refl).
  apply (sleep_lasts 5 12 2 demo demo_tinv demo_range); try lia; [unfold TIMER_NO_EVENTS; lia|].
  intros n Hn. rewrite Hnone in Hn. discriminate Hn.
Defined.

(** The rounds after it can be on time. *)
Lemma sleep_can_be_on_time : on_time 15 (ts_run (timed_event_block true true 5 12 2;; mret tt) demo).
Proof.
  apply on_time_check; [|split; [discriminate|exact eq_refl]|by vm_compute].
  intros q n Hn.
  assert (Hc : forallb (λ n, expo (ts_run (timed_event_block true true 5 12 2;; mret tt) demo) n <? TIMER_NO_EVENTS)
                 (queue_of q (ts_run (timed_event_block true true 5 12 2;; mret tt) demo)) = true)
    by (destruct q; vm_compute; exact eq_refl).
  apply Z.ltb_lt. apply forallb_forall with (x := n) in Hc; [exact Hc|]. by apply list_elem_of_In.
Qed.
