(* ===== verification/MemMan.v ===== *)
(** * The memory manager

    Model of [components/implementation/mem_mgr/naive/mem_man.c]: the component
    that hands out the physical pages.  A cell stands for one page; its entries
    are the places (component and address) where the page is mapped, each with
    the entry it is an alias of.

    The manager changes mappings by the system call [cos_mmap_cntl].  Here the
    system call is a parameter with its own state; MemManInv.v states what the
    manager relies on as a class and MemManKern.v proves it of the kernel. *)

From stdpp Require Import base list numbers option.
From S2P Require Import Prelude.
Local Open Scope Z_scope.

Definition MAX_ALIASES : Z := 32.
Definition MEM_MARKED : Z := 1.
Definition COS_MAX_MEMORY : Z := 2048.
Definition COS_MMAP_GRANT : Z := 0.
Definition COS_MMAP_REVOKE : Z := 1.

(** [struct mapping_info]. *)
Record mapping_info : Type := MkMi {
  mi_owner_spd : Z;
  mi_flags : Z;
  mi_addr : Z;
  mi_parent : Z;
}.

(** [struct mem_cell]. *)
Record mem_cell : Type := MkCell {
  mc_naliases : Z;
  mc_map : list mapping_info;
}.

(** The variable [cells], and the state of the kernel. *)
Record mmstate (K : Type) : Type := MkMm {
  mm_cells : list mem_cell;
  mm_kern : K;
}.
Arguments MkMm {K}.
Arguments mm_cells {K}.
Arguments mm_kern {K}.

Section Manager.
Context {K : Type}.
(** [cos_mmap_cntl(op, flags, dest_spd, dest_addr, mem_id)]. *)
Context (cos_mmap_cntl : Z → Z → Z → Z → Z → M K Z).

#[local] Abbreviation MM := (M (mmstate K)).

Definition set_cells (l : list mem_cell) (s : mmstate K) : mmstate K := MkMm l (mm_kern s).

(** A system call. *)
Definition syscall {A} (o : M K A) : MM A := λ s,
  match o (mm_kern s) with
  | Done a k => Done a (MkMm (mm_cells s) k)
  | Fault f => Fault f
  end.

Definition get_cell (i : Z) : MM mem_cell := l ← gets mm_cells; bound (l.[i]).
Definition put_cell (i : Z) (c : mem_cell) : MM unit :=
  get_cell i;; modify (λ s, set_cells ((mm_cells s).[i := c]) s).

Definition get_mi (i j : Z) : MM mapping_info := c ← get_cell i; bound ((mc_map c).[j]).
Definition upd_mi (i j : Z) (f : mapping_info → mapping_info) : MM unit :=
  c ← get_cell i;
  m ← bound ((mc_map c).[j]);
  put_cell i (MkCell (mc_naliases c) ((mc_map c).[j := f m])).
Definition upd_naliases (i d : Z) : MM unit :=
  c ← get_cell i; put_cell i (MkCell (s32 (mc_naliases c + d)) (mc_map c)).

(** The loops that look for a cell; a cell is its index. *)
Fixpoint unused_scan (l : list mem_cell) (i : Z) : option Z :=
  match l with
  | [] => None
  | c :: l => if mc_naliases c =? 0 then Some i else unused_scan l (i + 1)
  end.

Definition find_unused : MM (option Z) := l ← gets mm_cells; mret (unused_scan l 0).

Fixpoint alias_scan (spd addr : Z) (l : list mapping_info) (j : Z) : option Z :=
  match l with
  | [] => None
  | m :: l =>
      if (mi_owner_spd m =? spd) && (mi_addr m =? addr) then Some j
      else alias_scan spd addr l (j + 1)
  end.

Fixpoint cell_scan (spd addr : Z) (l : list mem_cell) (i : Z) : option (Z * Z) :=
  match l with
  | [] => None
  | c :: l =>
      match alias_scan spd addr (mc_map c) 0 with
      | Some j => Some (i, j)
      | None => cell_scan spd addr l (i + 1)
      end
  end.

(** The cell, and the index of the entry in it. *)
Definition find_cell (spd addr : Z) : MM (option (Z * Z)) :=
  l ← gets mm_cells; mret (cell_scan spd addr l 0).

Definition mman_get_page (spd addr flags : Z) : MM Z :=
  c ← find_unused;
  match c with
  | None => mret 0
  | Some c =>
      upd_naliases c 1;;
      upd_mi c 0 (λ m, MkMi spd (mi_flags m) addr (-1));;
      r ← syscall (cos_mmap_cntl COS_MMAP_GRANT 0 spd addr c);
      if negb (r =? 0) then
        upd_mi c 0 (λ m, MkMi 0 (mi_flags m) 0 (mi_parent m));;
        mret 0
      else mret addr
  end.

(** The first entry that is free and not [alias]. *)
Fixpoint slot_scan (alias : Z) (l : list mapping_info) (i : Z) : option Z :=
  match l with
  | [] => None
  | m :: l =>
      if (alias =? i) || negb (mi_owner_spd m =? 0) || negb (mi_addr m =? 0)
      then slot_scan alias l (i + 1) else Some i
  end.

Definition mman_alias_page (s_spd s_addr d_spd d_addr : Z) : MM Z :=
  f ← find_cell s_spd s_addr;
  match f with
  | None => mret 0
  | Some (c, alias) =>
      assert ((0 <=? alias) && (alias <? MAX_ALIASES));;
      x ← get_cell c;
      match slot_scan alias (mc_map x) 0 with
      | None => mret 0
      | Some i =>
          r ← syscall (cos_mmap_cntl COS_MMAP_GRANT 0 d_spd d_addr c);
          if negb (r =? 0) then mret 0
          else
            upd_mi c i (λ m, MkMi d_spd (mi_flags m) d_addr alias);;
            upd_naliases c 1;;
            mret d_addr
      end
  end.

(** The loop of [is_descendent] on the entries of cell [c]; the parents lead to
    an entry that is no alias, so the number of entries is enough fuel. *)
Fixpoint descendent_loop (fuel : nat) (c parent child : Z) : MM bool :=
  match fuel with
  | O => fail NoFuel
  | S fuel =>
      m ← get_mi c child;
      if mi_parent m =? -1 then mret false
      else
        assert ((mi_parent m <? MAX_ALIASES) && (0 <=? mi_parent m));;
        if mi_parent m =? parent then mret true
        else descendent_loop fuel c parent (mi_parent m)
  end.

Definition is_descendent (c parent child : Z) : MM bool :=
  assert ((child <? MAX_ALIASES) && (0 <=? child));;
  descendent_loop (Z.to_nat MAX_ALIASES) c parent child.

(** The bodies of the two loops of [mman_revoke_page]. *)
Definition revoke_one (c alias i : Z) : MM unit :=
  m ← get_mi c i;
  if (i =? alias) || (mi_owner_spd m =? 0) then mret tt
  else
    d ← is_descendent c alias i;
    when d (
      idx ← syscall (cos_mmap_cntl COS_MMAP_REVOKE 0 (mi_owner_spd m) (mi_addr m) 0);
      assert (idx =? c);;
      upd_mi c i (λ m, MkMi (mi_owner_spd m) (mi_flags m) 0 (mi_parent m));;
      upd_naliases c (-1)).

Definition sweep_one (c i : Z) : MM unit :=
  m ← get_mi c i;
  when ((mi_addr m =? 0) && negb (mi_owner_spd m =? 0))
    (upd_mi c i (λ m, MkMi 0 (mi_flags m) (mi_addr m) 0)).

Definition mman_revoke_page (spd addr flags : Z) : MM unit :=
  f ← find_cell spd addr;
  match f with
  | None => mret tt
  | Some (c, alias) =>
      for_range 0 MAX_ALIASES (revoke_one c alias);;
      for_range 0 MAX_ALIASES (sweep_one c)
  end.

Definition mman_release_page (spd addr flags : Z) : MM unit :=
  mman_revoke_page spd addr flags;;
  f ← find_cell spd addr;
  match f with
  | None => mret tt
  | Some (c, alias) =>
      m ← get_mi c alias;
      idx ← syscall (cos_mmap_cntl COS_MMAP_REVOKE 0 (mi_owner_spd m) (mi_addr m) 0);
      assert (idx =? c);;
      upd_mi c alias (λ m, MkMi 0 (mi_flags m) 0 0);;
      upd_naliases c (-1)
  end.

(** The loops of [mman_print_stats] that count and mark the entries of [curr]. *)
Fixpoint count_map (curr : Z) (l : list mapping_info) (n : Z) : list mapping_info * Z :=
  match l with
  | [] => ([], n)
  | m :: l =>
      let hit := (mi_owner_spd m =? curr) && negb (has (mi_flags m) MEM_MARKED) in
      let (l', n') := count_map curr l (if hit then n + 1 else n) in
      ((if hit then MkMi (mi_owner_spd m) (bset (mi_flags m) MEM_MARKED) (mi_addr m) (mi_parent m) else m) :: l', n')
  end.

Fixpoint count_cells (curr : Z) (cs : list mem_cell) (n : Z) : list mem_cell * Z :=
  match cs with
  | [] => ([], n)
  | c :: cs =>
      let (l, n1) := count_map curr (mc_map c) n in
      let (cs', n2) := count_cells curr cs n1 in
      (MkCell (mc_naliases c) l :: cs', n2)
  end.

Definition count_from (k curr n : Z) : MM Z :=
  cs ← gets mm_cells;
  let (cs', n') := count_cells curr (drop (Z.to_nat k) cs) n in
  modify (set_cells (take (Z.to_nat k) cs ++ cs'));;
  mret n'.

(** The outer loops; what is printed is the result. *)
Fixpoint stats_row (fuel : nat) (k l : Z) : MM (list (Z * Z)) :=
  match fuel with
  | O => mret []
  | S fuel =>
      m ← get_mi k l;
      if has (mi_flags m) MEM_MARKED then stats_row fuel k (l + 1)
      else
        upd_mi k l (λ m, MkMi (mi_owner_spd m) (bset (mi_flags m) MEM_MARKED) (mi_addr m) (mi_parent m));;
        n ← count_from k (mi_owner_spd m) 1;
        out ← stats_row fuel k (l + 1);
        mret ((mi_owner_spd m, n) :: out)
  end.

Fixpoint stats_rows (fuel : nat) (k : Z) : MM (list (Z * Z)) :=
  match fuel with
  | O => mret []
  | S fuel =>
      row ← stats_row (Z.to_nat MAX_ALIASES) k 0;
      rows ← stats_rows fuel (k + 1);
      mret (row ++ rows)
  end.

Definition mman_print_stats : MM (list (Z * Z)) := stats_rows (Z.to_nat COS_MAX_MEMORY) 0.
End Manager.
