(* ===== verification/MemManInv.v ===== *)
(** * Correctness of the memory manager

    What the manager relies on of the kernel is the class [MmapKernel].  Against
    it: the manager refines a forest of places, in which every place has its
    page and the places it is derived from, and the mappings of the kernel are
    the ones of the forest. *)

From stdpp Require Import base list numbers option gmap.
From S2P Require Import Prelude MemMan.
Local Open Scope Z_scope.

(** ** What the kernel promises *)

(** [mk_maps k spd addr] is the memory page that component [spd] sees at [addr],
    for the places that can be mapped at all. *)
Class MmapKernel {K : Type} (cntl : Z → Z → Z → Z → Z → M K Z) := {
  mk_inv : K → Prop;
  mk_usable : Z → Z → Prop;
  mk_maps : K → Z → Z → option Z;
  mk_nonzero spd addr : mk_usable spd addr → spd ≠ 0 ∧ addr ≠ 0;
  mk_grant k spd addr c :
    mk_inv k → mk_usable spd addr → mk_maps k spd addr = None → 0 ≤ c < COS_MAX_MEMORY →
    ∃ k', cntl COS_MMAP_GRANT 0 spd addr c k = Done 0 k' ∧ mk_inv k' ∧
      ∀ spd' addr', mk_usable spd' addr' → mk_maps k' spd' addr' =
        if decide ((spd', addr') = (spd, addr)) then Some c else mk_maps k spd' addr';
  mk_grant_taken k spd addr c d :
    mk_inv k → mk_usable spd addr → mk_maps k spd addr = Some d → 0 ≤ c < COS_MAX_MEMORY →
    ∃ k', cntl COS_MMAP_GRANT 0 spd addr c k = Done (-1) k' ∧ mk_inv k' ∧
      ∀ spd' addr', mk_usable spd' addr' → mk_maps k' spd' addr' = mk_maps k spd' addr';
  mk_revoke k spd addr c :
    mk_inv k → mk_usable spd addr → mk_maps k spd addr = Some c →
    ∃ k', cntl COS_MMAP_REVOKE 0 spd addr 0 k = Done c k' ∧ mk_inv k' ∧
      ∀ spd' addr', mk_usable spd' addr' → mk_maps k' spd' addr' =
        if decide ((spd', addr') = (spd, addr)) then None else mk_maps k spd' addr'
}.

(** ** Entries of a cell *)

Abbreviation place := (Z * Z)%type.
Definition key (m : mapping_info) : place := (mi_owner_spd m, mi_addr m).
Definition used (m : mapping_info) : Prop := mi_owner_spd m ≠ 0.

(** [l] are the entries above entry [j], the parent first. *)
Inductive chain (mp : list mapping_info) : Z → list Z → Prop :=
| chain_root j m : mp.[j] = Some m → used m → mi_parent m = -1 → chain mp j []
| chain_step j m l : mp.[j] = Some m → used m → 0 ≤ mi_parent m < MAX_ALIASES →
    chain mp (mi_parent m) l → chain mp j (mi_parent m :: l).

Lemma chain_fun mp j l l' : chain mp j l → chain mp j l' → l = l'.
Proof.
  intros H. revert l'. induction H as [j m Hm Hu Hp|j m l Hm Hu Hp Hc IH]; intros l'; inversion 1; simplify_eq.
  - done.
  - lia.
  - lia.
  - f_equal. by apply IH.
Qed.

(** Every entry above has its own chain, the rest of the list. *)
Lemma chain_above mp j l k : chain mp j l → k ∈ l → ∃ l1 l2, l = l1 ++ k :: l2 ∧ chain mp k l2.
Proof.
  induction 1 as [j m Hm Hu Hp|j m l Hm Hu Hp Hc IH]; [by intros ?%elem_of_nil|].
  intros [->|Hk]%elem_of_cons; [by exists [], l|].
  destruct (IH Hk) as (l1 & l2 & -> & Hk2). by exists (mi_parent m :: l1), l2.
Qed.

Lemma chain_nodup mp j l : chain mp j l → NoDup (j :: l).
Proof.
  induction 1 as [j m Hm Hu Hp|j m l Hm Hu Hp Hc IH]; [repeat constructor; by intros ?%elem_of_nil|].
  constructor; [|done]. intros Hin.
  assert (Hch : chain mp j (mi_parent m :: l)) by (by econstructor).
  destruct (chain_above _ _ _ _ Hch Hin) as (l1 & l2 & Hl & H2).
  pose proof (chain_fun _ _ _ _ Hch H2) as He. apply (f_equal length) in Hl. rewrite He in Hl.
  rewrite length_app in Hl. cbn in Hl. lia.
Qed.

Lemma chain_used mp j l k : chain mp j l → k ∈ j :: l → ∃ m, mp.[k] = Some m ∧ used m.
Proof.
  induction 1 as [j m Hm Hu Hp|j m l Hm Hu Hp Hc IH]; intros [->|Hk]%elem_of_cons; eauto.
  by apply elem_of_nil in Hk.
Qed.

Lemma chain_short mp j l : length mp = Z.to_nat MAX_ALIASES → chain mp j l → (length l < Z.to_nat MAX_ALIASES)%nat.
Proof.
  intros Hlen Hc. pose proof (chain_nodup _ _ _ Hc) as Hnd.
  assert (Hsub : j :: l ⊆+ seqZ 0 MAX_ALIASES).
  { apply NoDup_submseteq; [done|]. intros k Hk. destruct (chain_used _ _ _ _ Hc Hk) as (m & Hm & _).
    apply zlookup_lt in Hm. rewrite Hlen in Hm. apply elem_of_seqZ. unfold MAX_ALIASES in *. lia. }
  apply submseteq_length in Hsub. rewrite length_seqZ in Hsub. cbn [length] in Hsub. lia.
Qed.

(** The chains depend on the owners and parents only. *)
Lemma chain_same mp mp' j l :
  (∀ k m, k ∈ j :: l → mp.[k] = Some m → ∃ m', mp'.[k] = Some m' ∧
     mi_owner_spd m' = mi_owner_spd m ∧ mi_parent m' = mi_parent m) →
  chain mp j l → chain mp' j l.
Proof.
  intros He Hc. induction Hc as [j m Hm Hu Hp|j m l Hm Hu Hp Hc IH].
  - destruct (He j m ltac:(left) Hm) as (m' & Hm' & Ho & Hp'). econstructor; [done|by unfold used; rewrite Ho|congruence].
  - destruct (He j m ltac:(left) Hm) as (m' & Hm' & Ho & Hp').
    rewrite <- Hp'. econstructor; [done|by unfold used; rewrite Ho|lia|]. rewrite Hp'. apply IH.
    intros k m2 Hk. apply He. by right.
Qed.

(** The entries in use of a cell are the ones with an address. *)
Definition live (m : mapping_info) : bool := negb (mi_addr m =? 0).
Definition nlive (mp : list mapping_info) : Z := Z.of_nat (length (filter (λ m, live m = true) mp)).

Lemma nlive_insert mp j m m' : mp.[j] = Some m →
  nlive (mp.[j := m']) = nlive mp - (if live m then 1 else 0) + (if live m' then 1 else 0).
Proof.
  intros Hj. apply zlookup_Some in Hj as [Hz Hj].
  assert (He : ∃ a b, mp = a ++ m :: b ∧ mp.[j := m'] = a ++ m' :: b).
  { exists (take (Z.to_nat j) mp), (drop (S (Z.to_nat j)) mp). split; [by rewrite take_drop_middle|].
    unfold zinsert. destruct (Z.ltb_spec j 0); [lia|]. by rewrite insert_take_drop by (by eapply lookup_lt_Some). }
  destruct He as (a & b & -> & ->). unfold nlive. rewrite !filter_app, !filter_cons, !length_app.
  repeat case_decide; destruct (live m), (live m'); try done; cbn [length]; lia.
Qed.

Lemma nlive_pos mp j m : mp.[j] = Some m → live m = true → 1 ≤ nlive mp.
Proof.
  intros [_ Hj]%zlookup_Some Hl. unfold nlive.
  assert (Hin : m ∈ filter (λ m, live m = true) mp).
  { apply list_elem_of_filter. split; [done|]. by eapply list_elem_of_lookup_2. }
  destruct (filter _ mp); [by apply elem_of_nil in Hin|cbn; lia].
Qed.

Lemma nlive_entry mp : nlive mp ≠ 0 → ∃ j m, mp.[j] = Some m ∧ live m = true.
Proof.
  unfold nlive. intros Hn. destruct (filter (λ m, live m = true) mp) as [|m l] eqn:Hf; [done|].
  assert (Hin : m ∈ filter (λ m, live m = true) mp) by (rewrite Hf; left).
  apply list_elem_of_filter in Hin as [Hl [n Hm]%list_elem_of_lookup_1].
  exists (Z.of_nat n), m. split; [|done]. apply zlookup_Some. split; [lia|]. by rewrite Nat2Z.id.
Qed.

Lemma nlive_le mp : nlive mp ≤ Z.of_nat (length mp).
Proof. unfold nlive. pose proof (length_filter (λ m, live m = true) mp). lia. Qed.

(** A cell is well formed; [mc_naliases] counts the entries in use, or is 1 for
    a cell that a failed request left behind. *)
Record cell_ok (c : mem_cell) : Prop := {
  co_len : length (mc_map c) = Z.to_nat MAX_ALIASES;
  co_live : ∀ j m, (mc_map c).[j] = Some m → used m ↔ live m = true;
  co_chain : ∀ j m, (mc_map c).[j] = Some m → used m → ∃ l, chain (mc_map c) j l;
  co_uniq : ∀ i j m n, (mc_map c).[i] = Some m → (mc_map c).[j] = Some n → used m → key m = key n → i = j;
  co_count : mc_naliases c = nlive (mc_map c) ∨ nlive (mc_map c) = 0 ∧ mc_naliases c = 1
}.

(** ** The forest *)

(** Where pages are mapped: a place has its page and the places it is derived
    from, the closest first. *)
Abbreviation forest := (gmap place (Z * list place)).

(** A page is taken when it is mapped or lost; the manager hands out the first
    one that is not. *)
Definition taken (f : forest) (L : gset Z) (i : Z) : Prop := i ∈ L ∨ ∃ k p, f !! k = Some (i, p).
Definition first_free (f : forest) (L : gset Z) (i : Z) : Prop :=
  0 ≤ i < COS_MAX_MEMORY ∧ ¬ taken f L i ∧ ∀ j, 0 ≤ j < i → taken f L j.

(** The places where a page is mapped. *)
Definition places (f : forest) (i : Z) : forest := filter (λ v, v.2.1 = i) f.

Definition key_at (mp : list mapping_info) (j : Z) : place := default (0, 0) (key <$> mp.[j]).

Section Refinement.
Context {K : Type} {cntl : Z → Z → Z → Z → Z → M K Z} `{MK : !MmapKernel cntl}.

Record mrel (L : gset Z) (f : forest) (s : mmstate K) : Prop := {
  mr_len : length (mm_cells s) = Z.to_nat COS_MAX_MEMORY;
  mr_cells : ∀ i c, (mm_cells s).[i] = Some c → cell_ok c;
  mr_fwd : ∀ i c j m l, (mm_cells s).[i] = Some c → (mc_map c).[j] = Some m → used m →
    chain (mc_map c) j l → f !! key m = Some (i, key_at (mc_map c) <$> l);
  mr_bwd : ∀ k i p, f !! k = Some (i, p) → ∃ c j m, (mm_cells s).[i] = Some c ∧
    (mc_map c).[j] = Some m ∧ used m ∧ key m = k;
  mr_usable : ∀ spd addr v, f !! (spd, addr) = Some v → mk_usable spd addr;
  mr_inv : mk_inv (mm_kern s);
  mr_maps : ∀ spd addr, mk_usable spd addr → mk_maps (mm_kern s) spd addr = fst <$> f !! (spd, addr);
  mr_lost : ∀ i c, (mm_cells s).[i] = Some c → i ∈ L ↔ mc_naliases c = 1 ∧ nlive (mc_map c) = 0;
  mr_lost_range : ∀ i, i ∈ L → is_Some ((mm_cells s).[i])
}.

(** ** Steps of the manager *)

Implicit Types (s : mmstate K) (c : mem_cell).

Definition at_ (s : mmstate K) (i : Z) (c : mem_cell) : mmstate K := set_cells ((mm_cells s).[i := c]) s.

Lemma get_cell_run s i c : (mm_cells s).[i] = Some c → get_cell i s = Done c s.
Proof. intros Hc. unfold get_cell. mrun. by rewrite Hc. Qed.

Lemma put_cell_run s i c c' : (mm_cells s).[i] = Some c → put_cell i c' s = Done tt (at_ s i c').
Proof. intros Hc. unfold put_cell. by rewrite (bind_run _ _ _ _ _ (get_cell_run _ _ _ Hc)). Qed.

Lemma upd_mi_run s i j f c m :
  (mm_cells s).[i] = Some c → (mc_map c).[j] = Some m →
  upd_mi i j f s = Done tt (at_ s i (MkCell (mc_naliases c) ((mc_map c).[j := f m]))).
Proof.
  intros Hc Hm. unfold upd_mi. rewrite (bind_run _ _ _ _ _ (get_cell_run _ _ _ Hc)), Hm. mrun.
  by eapply put_cell_run.
Qed.

Lemma upd_naliases_run s i d c :
  (mm_cells s).[i] = Some c →
  upd_naliases i d s = Done tt (at_ s i (MkCell (s32 (mc_naliases c + d)) (mc_map c))).
Proof.
  intros Hc. unfold upd_naliases. rewrite (bind_run _ _ _ _ _ (get_cell_run _ _ _ Hc)).
  by eapply put_cell_run.
Qed.

Lemma get_mi_run s i j c m :
  (mm_cells s).[i] = Some c → (mc_map c).[j] = Some m → get_mi i j s = Done m s.
Proof. intros Hc Hm. unfold get_mi. rewrite (bind_run _ _ _ _ _ (get_cell_run _ _ _ Hc)). by rewrite Hm. Qed.

Lemma at_cell s i c c0 : (mm_cells s).[i] = Some c0 → (mm_cells (at_ s i c)).[i] = Some c.
Proof. intros H. cbn. by eapply zlookup_zinsert_eq. Qed.

Lemma at_at s i c c' : at_ (at_ s i c) i c' = at_ s i c'.
Proof. unfold at_. cbn. by rewrite zinsert_zinsert. Qed.

(** ** Looking for cells *)

Lemma unused_scan_some l i k : unused_scan l i = Some k →
  ∃ c, i ≤ k ∧ l.[k - i] = Some c ∧ mc_naliases c = 0.
Proof.
  revert i. induction l as [|c l IH]; intros i; cbn; [done|].
  destruct (Z.eqb_spec (mc_naliases c) 0) as [Hz|Hz].
  - intros [= ->]. exists c. split_and!; [lia| |done]. by rewrite Z.sub_diag.
  - intros (c' & Hle & Hl & Hn)%IH. exists c'. split_and!; [lia| |done].
    apply zlookup_Some in Hl as [? Hl]. apply zlookup_Some. split; [lia|].
    replace (Z.to_nat (k - i)) with (S (Z.to_nat (k - (i + 1)))) by lia. done.
Qed.

Lemma unused_scan_before l i j c : l.[j] = Some c → mc_naliases c = 0 →
  ∃ k, unused_scan l i = Some k ∧ k ≤ i + j.
Proof.
  intros [Hj Hl]%zlookup_Some Hz. revert i j Hj Hl. induction l as [|x l IH]; intros i j Hj; cbn; [done|].
  destruct (Z.eqb_spec (mc_naliases x) 0) as [Hx|Hx]; [exists i; split; [done|lia]|].
  destruct (Z.to_nat j) as [|n] eqn:Hn; [by intros [= ->]|]. cbn. intros Hl.
  destruct (IH (i + 1) (j - 1)) as (k & Hk & Hle); [lia|by replace (Z.to_nat (j - 1)) with n by lia|].
  exists k. split; [done|lia].
Qed.

Lemma alias_scan_some spd addr l i k : alias_scan spd addr l i = Some k →
  ∃ m, i ≤ k ∧ l.[k - i] = Some m ∧ key m = (spd, addr).
Proof.
  revert i. induction l as [|m l IH]; intros i; cbn; [done|].
  destruct (_ && _) eqn:Hb.
  - intros [= ->]. exists m. apply andb_true_iff in Hb as [Hs%Z.eqb_eq Ha%Z.eqb_eq].
    split_and!; [lia|by rewrite Z.sub_diag|]. unfold key. by subst.
  - intros (m' & Hle & Hl & Hn)%IH. exists m'. split_and!; [lia| |done].
    apply zlookup_Some in Hl as [? Hl]. apply zlookup_Some. split; [lia|].
    replace (Z.to_nat (k - i)) with (S (Z.to_nat (k - (i + 1)))) by lia. done.
Qed.

Lemma alias_scan_none spd addr l i : alias_scan spd addr l i = None →
  ∀ j m, l.[j] = Some m → key m ≠ (spd, addr).
Proof.
  intros Hs j m [_ Hj]%zlookup_Some. revert i Hs Hj. generalize (Z.to_nat j) as n. clear j.
  induction l as [|x l IH]; intros n i; cbn; [done|]. destruct (_ && _) eqn:Hb; [done|].
  intros Hs. destruct n as [|n]; [|by eapply IH]. intros [= ->] [= H1 H2].
  by rewrite H1, H2, !Z.eqb_refl in Hb.
Qed.

Lemma cell_scan_some spd addr l i k j : cell_scan spd addr l i = Some (k, j) →
  ∃ c m, i ≤ k ∧ l.[k - i] = Some c ∧ (mc_map c).[j] = Some m ∧ key m = (spd, addr).
Proof.
  revert i. induction l as [|c l IH]; intros i; cbn; [done|].
  destruct (alias_scan spd addr (mc_map c) 0) as [j'|] eqn:Hs.
  - intros [= -> ->]. apply alias_scan_some in Hs as (m & _ & Hm & Hk). rewrite Z.sub_0_r in Hm.
    exists c, m. split_and!; [lia|by rewrite Z.sub_diag|done..].
  - intros (c' & m & Hle & Hl & Hn)%IH. exists c', m. split_and!; [lia| |apply Hn..].
    apply zlookup_Some in Hl as [? Hl]. apply zlookup_Some. split; [lia|].
    replace (Z.to_nat (k - i)) with (S (Z.to_nat (k - (i + 1)))) by lia. done.
Qed.

Lemma cell_scan_none spd addr l i : cell_scan spd addr l i = None →
  ∀ k c j m, l.[k] = Some c → (mc_map c).[j] = Some m → key m ≠ (spd, addr).
Proof.
  intros Hs k c j m [_ Hk]%zlookup_Some. revert i Hs Hk. generalize (Z.to_nat k) as n. clear k.
  induction l as [|x l IH]; intros n i; cbn; [done|].
  destruct (alias_scan spd addr (mc_map x) 0) eqn:Hx; [done|]. intros Hs.
  destruct n as [|n]; [|by eapply IH]. intros [= ->]. by eapply alias_scan_none.
Qed.

Lemma find_mapped {L} f s spd addr i p :
  mrel L f s → f !! (spd, addr) = Some (i, p) →
  ∃ c j m l, find_cell spd addr s = Done (Some (i, j)) s ∧ (mm_cells s).[i] = Some c ∧
    (mc_map c).[j] = Some m ∧ used m ∧ key m = (spd, addr) ∧ chain (mc_map c) j l ∧
    p = key_at (mc_map c) <$> l.
Proof.
  intros Hr Hf. destruct (mr_bwd _ _ _ Hr _ _ _ Hf) as (c & j & m & Hc & Hm & Hu & Hk).
  unfold find_cell. mrun. destruct (cell_scan spd addr (mm_cells s) 0) as [[i' j']|] eqn:Hs.
  2: { exfalso. by eapply cell_scan_none. }
  apply cell_scan_some in Hs as (c' & m' & _ & Hc' & Hm' & Hk'). rewrite Z.sub_0_r in Hc'.
  assert (Hu' : used m') by (unfold used, key in *; congruence).
  destruct (co_chain _ (mr_cells _ _ _ Hr _ _ Hc') _ _ Hm' Hu') as [l Hl].
  pose proof (mr_fwd _ _ _ Hr _ _ _ _ _ Hc' Hm' Hu' Hl) as Hf'. rewrite Hk', Hf in Hf'. simplify_eq.
  eexists _, _, _, l. by split_and!.
Qed.

Lemma find_unmapped {L} f s spd addr :
  mrel L f s → spd ≠ 0 → f !! (spd, addr) = None → find_cell spd addr s = Done None s.
Proof.
  intros Hr Hspd Hf. unfold find_cell. mrun.
  destruct (cell_scan spd addr (mm_cells s) 0) as [[i j]|] eqn:Hs; [|done].
  apply cell_scan_some in Hs as (c & m & _ & Hc & Hm & Hk). rewrite Z.sub_0_r in Hc.
  assert (Hu : used m) by (unfold used, key in *; congruence).
  destruct (co_chain _ (mr_cells _ _ _ Hr _ _ Hc) _ _ Hm Hu) as [l Hl].
  pose proof (mr_fwd _ _ _ Hr _ _ _ _ _ Hc Hm Hu Hl) as Hf'. congruence.
Qed.

(** ** Changes of one cell *)

Lemma mrel_cell (L L' : gset Z) f f' s i c c' k' :
  mrel L f s → (mm_cells s).[i] = Some c → cell_ok c' →
  (∀ x, x ≠ i → x ∈ L' ↔ x ∈ L) → (i ∈ L' ↔ mc_naliases c' = 1 ∧ nlive (mc_map c') = 0) →
  (∀ k x p, x ≠ i → f' !! k = Some (x, p) ↔ f !! k = Some (x, p)) →
  (∀ j m l, (mc_map c').[j] = Some m → used m → chain (mc_map c') j l →
     f' !! key m = Some (i, key_at (mc_map c') <$> l)) →
  (∀ k p, f' !! k = Some (i, p) → ∃ j m, (mc_map c').[j] = Some m ∧ used m ∧ key m = k) →
  (∀ spd addr v, f' !! (spd, addr) = Some v → mk_usable spd addr) → mk_inv k' →
  (∀ spd addr, mk_usable spd addr → mk_maps k' spd addr = fst <$> f' !! (spd, addr)) →
  mrel L' f' (MkMm ((mm_cells s).[i := c']) k').
Proof.
  intros [Hlen Hcs Hfw Hbw Hus Hi Hm Hlo Hlr] Hc Hok HL HLi Hoth Hfw' Hbw' Hus' Hi' Hm'. split; cbn; try done.
  - by rewrite length_zinsert.
  - intros x d. rewrite (zlookup_zinsert _ _ _ _ _ Hc). case_decide; [by intros [= <-]|apply Hcs].
  - intros x d j m l. rewrite (zlookup_zinsert _ _ _ _ _ Hc). case_decide as Hx.
    + intros [= <-]. subst. apply Hfw'.
    + intros Hd Hj Hu Hl. apply Hoth; [done|]. by eapply Hfw.
  - intros k x p Hk. destruct (decide (x = i)) as [->|Hne].
    + destruct (Hbw' _ _ Hk) as (j & m & ?). exists c', j, m. split; [by eapply zlookup_zinsert_eq|done].
    + destruct (Hbw k x p) as (d & j & m & Hd & ?); [by apply Hoth|]. exists d, j, m.
      split; [|done]. rewrite (zlookup_zinsert _ _ _ _ _ Hc). by rewrite decide_False.
  - intros x d. rewrite (zlookup_zinsert _ _ _ _ _ Hc). case_decide as Hx; [by intros [= <-]; subst|].
    intros Hd. rewrite HL by done. by apply Hlo.
  - intros x Hx. rewrite (zlookup_zinsert _ _ _ _ _ Hc). case_decide as Hxi; [by eexists|].
    apply Hlr. by apply HL.
Qed.

(** The forest entries of a cell are its used ones. *)
Lemma mrel_of_cell {L} f s i c k p :
  mrel L f s → (mm_cells s).[i] = Some c → f !! k = Some (i, p) →
  ∃ j m l, (mc_map c).[j] = Some m ∧ used m ∧ key m = k ∧ chain (mc_map c) j l ∧
    p = key_at (mc_map c) <$> l.
Proof.
  intros Hr Hc Hk. destruct (mr_bwd _ _ _ Hr _ _ _ Hk) as (c' & j & m & Hc' & Hm & Hu & Hkm). simplify_eq.
  destruct (co_chain _ (mr_cells _ _ _ Hr _ _ Hc) _ _ Hm Hu) as [l Hl].
  pose proof (mr_fwd _ _ _ Hr _ _ _ _ _ Hc Hm Hu Hl). exists j, m, l. by simplify_eq.
Qed.

Lemma used_not_lost {L} f s i c j m : mrel L f s → (mm_cells s).[i] = Some c → (mc_map c).[j] = Some m →
  used m → i ∉ L.
Proof.
  intros Hr Hc Hm Hu HL. apply (mr_lost _ _ _ Hr _ _ Hc) in HL as [_ Hz].
  apply (co_live _ (mr_cells _ _ _ Hr _ _ Hc) _ _ Hm) in Hu. pose proof (nlive_pos _ _ _ Hm Hu). lia.
Qed.

(** Entries of the set [X] are given up; no other entry is derived from them. *)
Definition gone (c : mem_cell) (i : Z) (X : Z → bool) (k : place) (v : Z * list place) : Prop :=
  v.1 = i ∧ ∃ j m, (mc_map c).[j] = Some m ∧ X j = true ∧ key m = k.

Lemma mrel_remove (L : gset Z) f f' s i c c' k' (X : Z → bool) :
  mrel L f s → (mm_cells s).[i] = Some c → i ∉ L →
  length (mc_map c') = length (mc_map c) →
  (∀ j m, (mc_map c).[j] = Some m → X j = false → (mc_map c').[j] = Some m) →
  (∀ j m, (mc_map c).[j] = Some m → X j = true → used m ∧ ∃ m', (mc_map c').[j] = Some m' ∧
     mi_owner_spd m' = 0 ∧ mi_addr m' = 0) →
  (∀ j l x, chain (mc_map c) j l → X j = false → x ∈ l → X x = false) →
  mc_naliases c' = nlive (mc_map c') → mk_inv k' →
  (∀ k v, f' !! k = Some v ↔ f !! k = Some v ∧ ¬ gone c i X k v) →
  (∀ spd addr, mk_usable spd addr → mk_maps k' spd addr = fst <$> f' !! (spd, addr)) →
  mrel L f' (MkMm ((mm_cells s).[i := c']) k').
Proof.
  intros Hr Hc HiL Hlen Hkeep Hdrop Hclosed Hcnt Hi' Hf' Hm'.
  pose proof (mr_cells _ _ _ Hr _ _ Hc) as [Hl0 Hlive Hch Huq _].
  assert (Hold : ∀ j m, (mc_map c').[j] = Some m → used m → (mc_map c).[j] = Some m ∧ X j = false).
  { intros j m Hm Hu. assert (Hex : is_Some ((mc_map c).[j])) by (apply zlookup_is_Some; apply zlookup_lt in Hm; lia).
    destruct Hex as [m0 Hm0].
    destruct (X j) eqn:HX; [|pose proof (Hkeep _ _ Hm0 HX); by simplify_eq].
    destruct (Hdrop _ _ Hm0 HX) as (_ & m' & Hm2 & Ho & _). simplify_eq. by destruct Hu. }
  assert (Hchain : ∀ j l, chain (mc_map c) j l → X j = false → chain (mc_map c') j l).
  { intros j l Hcl HX. eapply chain_same; [|exact Hcl]. intros k m Hk Hm. exists m. split; [|done].
    apply Hkeep; [done|]. apply elem_of_cons in Hk as [->|Hk]; [done|]. by eapply Hclosed. }
  assert (Hka : ∀ j l, chain (mc_map c) j l → X j = false →
            key_at (mc_map c') <$> l = key_at (mc_map c) <$> l).
  { intros j l Hcl HX. apply list_fmap_ext. intros n x Hx. apply list_elem_of_lookup_2 in Hx.
    destruct (chain_used _ _ _ x Hcl) as (m & Hm & _); [by right|].
    unfold key_at. rewrite Hm. rewrite (Hkeep _ _ Hm); [done|]. by eapply Hclosed. }
  apply (mrel_cell L L f f' s i c); try done.
  - split; [by rewrite Hlen| | | |by left].
    + intros j m Hm. assert (Hex : is_Some ((mc_map c).[j])) by (apply zlookup_is_Some; apply zlookup_lt in Hm; lia).
      destruct Hex as [m0 Hm0]. destruct (X j) eqn:HX.
      * destruct (Hdrop _ _ Hm0 HX) as (_ & m' & Hm2 & Ho & Ha). simplify_eq.
        unfold used, live. rewrite Ho, Ha. done.
      * pose proof (Hkeep _ _ Hm0 HX). simplify_eq. by eapply Hlive.
    + intros j m Hm Hu. destruct (Hold _ _ Hm Hu) as [Hm0 HX]. destruct (Hch _ _ Hm0 Hu) as [l Hl]. eauto.
    + intros a b m n Hm Hn Hu Hk. assert (Hun : used n) by (unfold used, key in *; congruence).
      destruct (Hold _ _ Hm Hu), (Hold _ _ Hn Hun). by eapply Huq.
  - split; [done|]. intros [Ha Hb]. lia.
  - intros k x p Hx. rewrite Hf'. split; [by intros [? _]|]. intros Hk. split; [done|]. by intros [? _].
  - intros j m l Hm Hu Hcl. destruct (Hold _ _ Hm Hu) as [Hm0 HX]. destruct (Hch _ _ Hm0 Hu) as [l0 Hl0'].
    assert (l = l0) as -> by (eapply chain_fun; [exact Hcl|by apply Hchain]).
    rewrite (Hka j l0) by done. apply Hf'. split; [by eapply (mr_fwd _ _ _ Hr)|].
    intros (_ & j' & m' & Hmj & HX' & Hk). assert (j' = j); [|congruence].
    eapply Huq; try done. by apply (Hdrop _ _ Hmj HX').
  - intros k p Hk. apply Hf' in Hk as [Hk Hng].
    destruct (mrel_of_cell _ _ _ _ _ _ Hr Hc Hk) as (j & m & l & Hm & Hu & Hkm & _).
    exists j, m. split; [|done]. apply Hkeep; [done|]. destruct (X j) eqn:HX; [|done].
    exfalso. apply Hng. split; [done|]. by exists j, m.
  - intros spd addr v Hv. apply Hf' in Hv as [Hv _]. by eapply (mr_usable _ _ _ Hr).
Qed.

Lemma syscall_run {A} (o : M K A) s a k' :
  o (mm_kern s) = Done a k' → syscall o s = Done a (MkMm (mm_cells s) k').
Proof. unfold syscall. by intros ->. Qed.

(** ** Getting a page *)

(** An unused cell has no entry in use. *)
Lemma unused_cell c j m : cell_ok c → mc_naliases c = 0 → (mc_map c).[j] = Some m → ¬ used m.
Proof.
  intros Hok Hz Hm Hu. apply (co_live _ Hok _ _ Hm) in Hu. pose proof (nlive_pos _ _ _ Hm Hu).
  destruct (co_count _ Hok) as [|[]]; lia.
Qed.

(** The first entry of an unused cell is filled. *)
Lemma first_cell_ok c m0 m1 n : cell_ok c → mc_naliases c = 0 → (mc_map c).[0] = Some m0 →
  (used m1 ↔ live m1 = true) → mi_parent m1 = -1 → (n = 1 ∨ used m1 ∧ n = 1) →
  cell_ok (MkCell n ((mc_map c).[0 := m1])) ∧
  (∀ j m l, ((mc_map c).[0 := m1]).[j] = Some m → used m → chain ((mc_map c).[0 := m1]) j l →
     j = 0 ∧ m = m1 ∧ l = []) ∧
  nlive ((mc_map c).[0 := m1]) = if live m1 then 1 else 0.
Proof.
  intros Hok Hz H0 Hul Hp Hn.
  assert (Hn0 : nlive (mc_map c) = 0) by (destruct (co_count _ Hok) as [|[]]; lia).
  assert (Hl0 : live m0 = false).
  { destruct (live m0) eqn:El; [|done]. apply (co_live _ Hok _ _ H0) in El. by destruct (unused_cell c 0 m0). }
  assert (Hn1 : nlive ((mc_map c).[0 := m1]) = if live m1 then 1 else 0).
  { rewrite (nlive_insert _ _ _ _ H0), Hn0, Hl0. destruct (live m1); lia. }
  assert (Hget : ∀ j m, ((mc_map c).[0 := m1]).[j] = Some m → used m → j = 0 ∧ m = m1).
  { intros j m. rewrite (zlookup_zinsert _ _ _ _ _ H0). case_decide as Hj; [by intros [= ->]|].
    intros Hm Hu. by destruct (unused_cell c j m). }
  assert (Hroot : used m1 → chain ((mc_map c).[0 := m1]) 0 []).
  { intros Hu. eapply chain_root; [by eapply zlookup_zinsert_eq|done|done]. }
  split; [split|split; [|done]]; cbn.
  - rewrite length_zinsert. apply Hok.
  - intros j m. rewrite (zlookup_zinsert _ _ _ _ _ H0). case_decide; [by intros [= <-]|apply Hok].
  - intros j m Hm Hu. destruct (Hget _ _ Hm Hu) as [-> ->]. exists []. by apply Hroot.
  - intros i j m m' Hm Hm' Hu Hk. assert (used m') as Hu' by (unfold used, key in *; congruence).
    destruct (Hget _ _ Hm Hu), (Hget _ _ Hm' Hu'). by subst.
  - rewrite Hn1. destruct (live m1); [left|right]; lia.
  - intros j m l Hm Hu Hc. destruct (Hget _ _ Hm Hu) as [-> ->]. split_and!; [done..|].
    eapply chain_fun; [exact Hc|by apply Hroot].
Qed.

(** A cell that counts aliases is taken. *)
Lemma cell_taken {L} f s i c : mrel L f s → (mm_cells s).[i] = Some c → mc_naliases c ≠ 0 → taken f L i.
Proof.
  intros Hr Hc Hz. pose proof (mr_cells _ _ _ Hr _ _ Hc) as Hok.
  destruct (co_count _ Hok) as [Hn|[Hn1 Hn2]]; [right|left; by apply (mr_lost _ _ _ Hr _ _ Hc)].
  rewrite Hn in Hz. destruct (nlive_entry _ Hz) as (j & m & Hm & Hl).
  assert (Hu : used m) by (by apply (co_live _ Hok _ _ Hm)). destruct (co_chain _ Hok _ _ Hm Hu) as [l Hch].
  eexists _, _. exact (mr_fwd _ _ _ Hr _ _ _ _ _ Hc Hm Hu Hch).
Qed.

Lemma cell_exists {L} f s i : mrel L f s → 0 ≤ i < COS_MAX_MEMORY → is_Some ((mm_cells s).[i]).
Proof. intros Hr Hi. apply zlookup_is_Some. rewrite (mr_len _ _ _ Hr). lia. Qed.

Lemma find_unused_run {L} f s : mrel L f s →
  (find_unused s = Done None s ∧ ∀ i, 0 ≤ i < COS_MAX_MEMORY → taken f L i) ∨
  ∃ i c m, find_unused s = Done (Some i) s ∧ (mm_cells s).[i] = Some c ∧ mc_naliases c = 0 ∧
    (mc_map c).[0] = Some m ∧ first_free f L i.
Proof.
  intros Hr. unfold find_unused. mrun.
  destruct (unused_scan (mm_cells s) 0) as [i|] eqn:Hs; [right|left].
  - pose proof Hs as Hs'. apply unused_scan_some in Hs as (c & Hi & Hc & Hz). rewrite Z.sub_0_r in Hc.
    pose proof (mr_cells _ _ _ Hr _ _ Hc) as Hok.
    assert (Hex : is_Some ((mc_map c).[0])).
    { apply zlookup_is_Some. rewrite (co_len _ Hok). unfold MAX_ALIASES. lia. }
    destruct Hex as [m Hm]. exists i, c, m. split_and!; try done.
    assert (Hi2 : 0 ≤ i < COS_MAX_MEMORY).
    { apply zlookup_lt in Hc. rewrite (mr_len _ _ _ Hr) in Hc. unfold COS_MAX_MEMORY in *. lia. }
    split_and!; [lia..| |].
    + intros [HL|(k & p & Hk)]; [apply (mr_lost _ _ _ Hr _ _ Hc) in HL as [? _]; lia|].
      destruct (mrel_of_cell _ _ _ _ _ _ Hr Hc Hk) as (j & m' & l & Hm' & Hu & _).
      by destruct (unused_cell c j m').
    + intros j Hj. destruct (cell_exists f s j Hr) as [cj Hcj]; [lia|]. apply (cell_taken f s j cj Hr Hcj).
      intros Hzj. destruct (unused_scan_before _ 0 _ _ Hcj Hzj) as (k & Hk & Hle). rewrite Hs' in Hk. simplify_eq. lia.
  - split; [done|]. intros i Hi. destruct (cell_exists f s i Hr Hi) as [c Hc]. apply (cell_taken f s i c Hr Hc).
    intros Hz. destruct (unused_scan_before _ 0 _ _ Hc Hz) as (k & Hk & _). congruence.
Qed.

(** The state of [mman_get_page] before the system call. *)
Lemma get_page_start s i c m spd addr :
  (mm_cells s).[i] = Some c → mc_naliases c = 0 → (mc_map c).[0] = Some m →
  ∀ flags, find_unused s = Done (Some i) s →
  let c1 := MkCell 1 ((mc_map c).[0 := MkMi spd (mi_flags m) addr (-1)]) in
  mman_get_page cntl spd addr flags s =
  (r ← syscall (cntl COS_MMAP_GRANT 0 spd addr i);
   if negb (r =? 0) then upd_mi i 0 (λ m, MkMi 0 (mi_flags m) 0 (mi_parent m));; mret 0
   else mret addr) (at_ s i c1).
Proof.
  intros Hc Hz Hm flags Hf c1. unfold mman_get_page. rewrite (bind_run _ _ _ _ _ Hf).
  rewrite (bind_run _ _ _ _ _ (upd_naliases_run _ _ _ _ Hc)), Hz.
  change (s32 (0 + 1)) with 1.
  erewrite bind_run; [|eapply upd_mi_run; [by eapply at_cell|exact Hm]].
  by rewrite at_at.
Qed.

Lemma mm_get_page_run {L} f s spd addr flags :
  mrel L f s → mk_usable spd addr →
  (mman_get_page cntl spd addr flags s = Done 0 s ∧ ∀ i, 0 ≤ i < COS_MAX_MEMORY → taken f L i) ∨
  (∃ v i s', f !! (spd, addr) = Some v ∧ first_free f L i ∧
     mman_get_page cntl spd addr flags s = Done 0 s' ∧ mrel ({[i]} ∪ L) f s') ∨
  (∃ i s', f !! (spd, addr) = None ∧ first_free f L i ∧
     mman_get_page cntl spd addr flags s = Done addr s' ∧ mrel L (<[(spd, addr) := (i, [])]> f) s').
Proof.
  intros Hr Hus. destruct (mk_nonzero spd addr Hus) as [Hspd Haddr].
  destruct (find_unused_run f s Hr) as [[Hf Hall]|(i & c & m & Hf & Hc & Hz & Hm & Hff)].
  { left. split; [|done]. unfold mman_get_page. by rewrite (bind_run _ _ _ _ _ Hf). }
  pose proof Hff as (Hi & Hnt & _).
  assert (HiL : i ∉ L) by (intros ?; apply Hnt; by left).
  assert (Hno : ∀ k p, f !! k ≠ Some (i, p)) by (intros k p ?; apply Hnt; right; eauto).
  right. pose proof (mr_cells _ _ _ Hr _ _ Hc) as Hok.
  rewrite !(get_page_start s i c m spd addr Hc Hz Hm flags Hf).
  set (m1 := MkMi spd (mi_flags m) addr (-1)).
  destruct (f !! (spd, addr)) as [v|] eqn:Hv; [left|right].
  - pose proof (mr_maps _ _ _ Hr _ _ Hus) as Hmap. rewrite Hv in Hmap. cbn in Hmap.
    destruct (mk_grant_taken (mm_kern s) spd addr i _ (mr_inv _ _ _ Hr) Hus Hmap Hi) as (k' & Hk & Hik & Hmk).
    eexists v, i, _. split; [done|]. split; [done|]. split.
    + erewrite bind_run; [|apply syscall_run, Hk]. change (negb (-1 =? 0)) with true. cbn iota.
      erewrite bind_run; [done|]. eapply upd_mi_run; [by eapply at_cell|by eapply zlookup_zinsert_eq].
    + set (m2 := MkMi 0 (mi_flags m1) 0 (mi_parent m1)). unfold at_. cbn -[m2]. rewrite !zinsert_zinsert.
      change (mrel ({[i]} ∪ L) f (MkMm ((mm_cells s).[i := MkCell 1 ((mc_map c).[0 := m2])]) k')).
      destruct (first_cell_ok c m m2 1 Hok Hz Hm) as (Hok1 & Hget & Hnl); [by split|done|by left|].
      apply (mrel_cell L ({[i]} ∪ L) f f s i c); try done.
      * set_solver.
      * cbn. rewrite Hnl. set_solver.
      * intros j x l Hx Hux Hl. by destruct (Hget _ _ _ Hx Hux Hl) as (_ & -> & _).
      * intros k p Hk'. by destruct (Hno k p).
      * apply Hr.
      * intros sp ad Hu'. rewrite Hmk by done. by apply (mr_maps _ _ _ Hr).
  - pose proof (mr_maps _ _ _ Hr _ _ Hus) as Hmap. rewrite Hv in Hmap. cbn in Hmap.
    destruct (mk_grant (mm_kern s) spd addr i (mr_inv _ _ _ Hr) Hus Hmap Hi) as (k' & Hk & Hik & Hmk).
    eexists i, _. split; [done|]. split; [done|]. split.
    + erewrite bind_run; [|apply syscall_run, Hk]. done.
    + cbn. destruct (first_cell_ok c m m1 1 Hok Hz Hm) as (Hok1 & Hget & Hnl); [|done|by left|].
      { unfold used, live, m1. cbn. destruct (Z.eqb_spec addr 0); done. }
      assert (Hm1 : used m1) by done.
      assert (Hl1 : live m1 = true) by (unfold live, m1; cbn; by destruct (Z.eqb_spec addr 0)).
      apply (mrel_cell L L f _ s i c); try done.
      * cbn. rewrite Hnl, Hl1. split; [done|]. intros [_ ?]. lia.
      * intros k x p Hx. rewrite lookup_insert_Some. split; [intros [[_ ?]|[_ ?]]; congruence|].
        intros Hkx. right. split; [|done]. intros <-. congruence.
      * intros j x l Hx Hux Hl. destruct (Hget _ _ _ Hx Hux Hl) as (_ & -> & ->). by apply lookup_insert_eq.
      * intros k p Hk'. apply lookup_insert_Some in Hk' as [[<- _]|[_ Hk']]; [|by destruct (Hno k p)].
        exists 0, m1. split; [by eapply zlookup_zinsert_eq|done].
      * intros sp ad v Hv'. apply lookup_insert_Some in Hv' as [[[= <- <-] _]|[_ Hv']]; [done|].
        by eapply (mr_usable _ _ _ Hr).
      * intros sp ad Hu'. rewrite Hmk, lookup_insert by done.
        case_decide; [by rewrite decide_True by congruence|]. rewrite decide_False by congruence.
        by apply (mr_maps _ _ _ Hr).
Qed.

(** ** Making an alias *)

Lemma slot_scan_some alias l i k : slot_scan alias l i = Some k →
  ∃ m, i ≤ k ∧ l.[k - i] = Some m ∧ k ≠ alias ∧ ¬ used m ∧ mi_addr m = 0.
Proof.
  revert i. induction l as [|m l IH]; intros i; cbn; [done|]. destruct (_ || _) eqn:Hb.
  - intros (m' & Hle & Hl & Hn)%IH. exists m'. split_and!; [lia| |apply Hn..].
    apply zlookup_Some in Hl as [? Hl]. apply zlookup_Some. split; [lia|].
    replace (Z.to_nat (k - i)) with (S (Z.to_nat (k - (i + 1)))) by lia. done.
  - intros [= ->]. rewrite !orb_false_iff, !negb_false_iff, !Z.eqb_eq, Z.eqb_neq in Hb.
    destruct Hb as [[Hne Ho] Ha]. exists m. split_and!; [lia|by rewrite Z.sub_diag|done| |done].
    unfold used. tauto.
Qed.

(** The entries of a cell with one more. *)
Lemma slot_scan_none alias l i : slot_scan alias l i = None →
  ∀ j m, l.[j] = Some m → i + j = alias ∨ used m ∨ live m = true.
Proof.
  intros Hs j m [Hz Hj]%zlookup_Some. revert i j Hs Hz Hj.
  induction l as [|x l IH]; intros i j; cbn; [done|].
  destruct (Z.eqb_spec alias i) as [->|Hi]; cbn.
  - intros Hs Hz. destruct (Z.to_nat j) as [|n] eqn:Hn; [left; lia|]. cbn. intros Hj.
    destruct (IH (i + 1) (j - 1) Hs) as [?|?]; [lia|by replace (Z.to_nat (j - 1)) with n by lia|lia|by right].
  - destruct (_ || _) eqn:Hb; [|done]. intros Hs Hz. destruct (Z.to_nat j) as [|n] eqn:Hn; cbn.
    + intros [= ->]. right. unfold used, live. destruct (Z.eqb_spec (mi_owner_spd m) 0); [right; by destruct (mi_addr m =? 0)|by left].
    + intros Hj. destruct (IH (i + 1) (j - 1) Hs) as [?|?]; [lia|by replace (Z.to_nat (j - 1)) with n by lia|lia|by right].
Qed.

Lemma nodup_filter_fmap {A B} (P : A → Prop) `{!∀ x, Decision (P x)} (g : A → B) (l : list A) :
  (∀ i j m n, l !! i = Some m → l !! j = Some n → P m → P n → g m = g n → i = j) → NoDup (g <$> filter P l).
Proof.
  induction l as [|x l IH]; intros Hinj; [constructor|]. rewrite filter_cons. case_decide as Hx.
  - cbn. constructor; [|apply IH; intros i j m n Hm Hn Hp Hq Hg; specialize (Hinj (S i) (S j) m n Hm Hn Hp Hq Hg); lia].
    intros (y & Hy & [Hpy [n Hn]%list_elem_of_lookup_1]%list_elem_of_filter)%list_elem_of_fmap.
    by specialize (Hinj 0%nat (S n) x y eq_refl Hn Hx Hpy Hy).
  - apply IH. intros i j m n Hm Hn Hp Hq Hg. specialize (Hinj (S i) (S j) m n Hm Hn Hp Hq Hg). lia.
Qed.

(** The cell of a page counts the places of the page. *)
Lemma places_count {L} f s i c : mrel L f s → (mm_cells s).[i] = Some c →
  Z.of_nat (size (places f i)) = nlive (mc_map c).
Proof.
  intros Hr Hc. pose proof (mr_cells _ _ _ Hr _ _ Hc) as Hok. rewrite <- size_dom.
  assert (Hdom : dom (places f i) = list_to_set (C := gset place) (key <$> filter (λ m, live m = true) (mc_map c))).
  { apply set_eq. intros k. rewrite elem_of_dom, elem_of_list_to_set, list_elem_of_fmap. split.
    - intros [[i' p] [Hk Hi]%map_lookup_filter_Some]. cbn in Hi. subst i'.
      destruct (mrel_of_cell _ _ _ _ _ _ Hr Hc Hk) as (j & m & l & Hm & Hu & Hkm & _). exists m. split; [done|].
      apply list_elem_of_filter. split; [by apply (co_live _ Hok _ _ Hm)|].
      apply zlookup_Some in Hm as [_ Hm]. by eapply list_elem_of_lookup_2.
    - intros (m & -> & [Hl [n Hm]%list_elem_of_lookup_1]%list_elem_of_filter).
      assert (Hmz : (mc_map c).[Z.of_nat n] = Some m) by (apply zlookup_Some; split; [lia|by rewrite Nat2Z.id]).
      assert (Hu : used m) by (by apply (co_live _ Hok _ _ Hmz)). destruct (co_chain _ Hok _ _ Hmz Hu) as [l Hch].
      eexists. apply map_lookup_filter_Some. split; [exact (mr_fwd _ _ _ Hr _ _ _ _ _ Hc Hmz Hu Hch)|done]. }
  rewrite Hdom, size_list_to_set; [by rewrite length_fmap|]. apply nodup_filter_fmap.
  intros a b m n Hm Hn Hlm _ Hk.
  assert (Hz : ∀ x y, mc_map c !! x = Some y → (mc_map c).[Z.of_nat x] = Some y).
  { intros x y Hx. apply zlookup_Some. split; [lia|by rewrite Nat2Z.id]. }
  assert (Z.of_nat a = Z.of_nat b); [|lia]. eapply (co_uniq _ Hok); [by apply Hz..| |done].
  by apply (co_live _ Hok _ _ (Hz _ _ Hm)).
Qed.

Lemma nlive_all mp : (∀ j m, mp.[j] = Some m → live m = true) → nlive mp = Z.of_nat (length mp).
Proof.
  intros Hall. assert (Hf : Forall (λ m, live m = true) mp).
  { apply Forall_lookup_2. intros k m Hm. apply (Hall (Z.of_nat k)). apply zlookup_Some.
    split; [lia|by rewrite Nat2Z.id]. }
  unfold nlive. f_equal. induction Hf as [|m l Hm Hl IH]; [done|]. rewrite filter_cons_True by done.
  cbn. f_equal. apply IH. intros j n [_ Hn]%zlookup_Some. rewrite Forall_lookup in Hl. by eapply Hl.
Qed.

Lemma nlive_lt mp j m : mp.[j] = Some m → live m = false → nlive mp < Z.of_nat (length mp).
Proof.
  intros [_ Hm]%zlookup_Some Hl. unfold nlive.
  apply Nat2Z.inj_lt, (length_filter_lt _ _ m); [by eapply list_elem_of_lookup_2|by rewrite Hl].
Qed.

Lemma alias_chain mp x m m' : mp.[x] = Some m → ¬ used m → ∀ j l, chain mp j l → chain (mp.[x := m']) j l.
Proof.
  intros Hx Hu j l Hc. eapply chain_same; [|exact Hc]. intros k n Hk Hn. exists n. split; [|done].
  rewrite (zlookup_zinsert _ _ _ _ _ Hx). rewrite decide_False; [done|]. intros ->.
  destruct (chain_used _ _ _ _ Hc Hk) as (n' & Hn' & Hu'). by simplify_eq.
Qed.

Lemma alias_keys mp x m m' : mp.[x] = Some m → ¬ used m → ∀ j l, chain mp j l →
  key_at (mp.[x := m']) <$> l = key_at mp <$> l.
Proof.
  intros Hx Hu j l Hc. apply list_fmap_ext. intros n k Hk. apply list_elem_of_lookup_2 in Hk.
  destruct (chain_used _ _ _ k Hc) as (y & Hy & Huy); [by right|].
  unfold key_at. rewrite (zlookup_zinsert _ _ _ _ _ Hx). rewrite decide_False; [done|]. intros ->. by simplify_eq.
Qed.

Lemma alias_cell_ok c a l x m m' : cell_ok c → chain (mc_map c) a l →
  (mc_map c).[x] = Some m → ¬ used m → mi_parent m' = a → used m' → live m' = true →
  (∀ j n, (mc_map c).[j] = Some n → used n → key n ≠ key m') → 0 ≤ a < MAX_ALIASES →
  let mp' := (mc_map c).[x := m'] in
  cell_ok (MkCell (s32 (mc_naliases c + 1)) mp') ∧ chain mp' x (a :: l).
Proof.
  intros Hok Hal Hx Hnu Hp Hu' Hl' Hkey Ha mp'.
  assert (Hnew : mp'.[x] = Some m') by (by eapply zlookup_zinsert_eq).
  assert (Hch : chain mp' x (a :: l)).
  { rewrite <- Hp. eapply chain_step; [done|done|lia|]. rewrite Hp. by eapply alias_chain. }
  split; [|done].
  assert (Hlm : live m = false).
  { destruct (live m) eqn:E; [|done]. by apply (co_live _ Hok _ _ Hx) in E. }
  assert (Hcnt : mc_naliases c = nlive (mc_map c)).
  { destruct (chain_used _ _ _ a Hal ltac:(left)) as (n & Hn & Hun).
    apply (co_live _ Hok _ _ Hn) in Hun. pose proof (nlive_pos _ _ _ Hn Hun).
    destruct (co_count _ Hok) as [|[]]; lia. }
  split; cbn.
  - unfold mp'. rewrite length_zinsert. apply Hok.
  - intros j n. unfold mp'. rewrite (zlookup_zinsert _ _ _ _ _ Hx). case_decide; [by intros [= <-]|apply Hok].
  - intros j n. unfold mp'. rewrite (zlookup_zinsert _ _ _ _ _ Hx). case_decide as Hj; [by intros _ _; subst; eauto|].
    intros Hn Hun. destruct (co_chain _ Hok _ _ Hn Hun) as [l' Hl'c]. exists l'. by eapply alias_chain.
  - intros i j n n'. unfold mp'. rewrite !(zlookup_zinsert _ _ _ _ _ Hx).
    repeat case_decide; intros [= Hn] [= Hn'] Hun Hk; subst; try done.
    + by destruct (Hkey j n' Hn'); [unfold used, key in *; congruence|].
    + by destruct (Hkey i n Hn Hun).
    + by eapply (co_uniq _ Hok).
  - left. unfold mp'. rewrite (nlive_insert _ _ _ _ Hx), Hlm, Hl', Hcnt.
    pose proof (nlive_le (mc_map c)) as Hle. rewrite (co_len _ Hok) in Hle. unfold MAX_ALIASES in Hle.
    assert (0 ≤ nlive (mc_map c)) by (unfold nlive; lia). rewrite s32_id; lia.
Qed.

Lemma alias_start {L} f s s_spd s_addr i c j l :
  mrel L f s → find_cell s_spd s_addr s = Done (Some (i, j)) s → (mm_cells s).[i] = Some c →
  chain (mc_map c) j l → ∀ d_spd d_addr,
  mman_alias_page cntl s_spd s_addr d_spd d_addr s =
  (match slot_scan j (mc_map c) 0 with
   | None => mret 0
   | Some x =>
       r ← syscall (cntl COS_MMAP_GRANT 0 d_spd d_addr i);
       if negb (r =? 0) then mret 0
       else upd_mi i x (λ m, MkMi d_spd (mi_flags m) d_addr j);; upd_naliases i 1;; mret d_addr
   end) s ∧ 0 ≤ j < MAX_ALIASES.
Proof.
  intros Hr Hf Hc Hl d_spd d_addr. destruct (chain_used _ _ _ j Hl ltac:(left)) as (m & Hm & _).
  assert (Hj : 0 ≤ j < MAX_ALIASES).
  { apply zlookup_lt in Hm. rewrite (co_len _ (mr_cells _ _ _ Hr _ _ Hc)) in Hm. unfold MAX_ALIASES in *. lia. }
  split; [|done]. unfold mman_alias_page. rewrite (bind_run _ _ _ _ _ Hf).
  rewrite (proj2 (Z.leb_le 0 j)), (proj2 (Z.ltb_lt j MAX_ALIASES)) by lia. mrun.
  by rewrite (bind_run _ _ _ _ _ (get_cell_run _ _ _ Hc)).
Qed.

Lemma alias_done {L} f s i c x m a l d_spd d_addr k' :
  mrel L f s → (mm_cells s).[i] = Some c → chain (mc_map c) a l →
  (mc_map c).[x] = Some m → ¬ used m → 0 ≤ a < MAX_ALIASES → mk_usable d_spd d_addr →
  f !! (d_spd, d_addr) = None → mk_inv k' →
  (∀ spd' addr', mk_usable spd' addr' → mk_maps k' spd' addr' =
     if decide ((spd', addr') = (d_spd, d_addr)) then Some i else mk_maps (mm_kern s) spd' addr') →
  let m' := MkMi d_spd (mi_flags m) d_addr a in
  mrel L (<[(d_spd, d_addr) := (i, key_at (mc_map c) <$> a :: l)]> f)
    (MkMm ((mm_cells s).[i := MkCell (s32 (mc_naliases c + 1)) ((mc_map c).[x := m'])]) k').
Proof.
  intros Hr Hc Hl Hm Hnu Ha Hus Hd Hik Hmk m'.
  destruct (mk_nonzero _ _ Hus) as [Hspd Haddr]. pose proof (mr_cells _ _ _ Hr _ _ Hc) as Hok.
  assert (Hkey : ∀ j n, (mc_map c).[j] = Some n → used n → key n ≠ key m').
  { intros j n Hn Hun Hk. destruct (co_chain _ Hok _ _ Hn Hun) as [ln Hln].
    pose proof (mr_fwd _ _ _ Hr _ _ _ _ _ Hc Hn Hun Hln) as Hfn. rewrite Hk in Hfn. cbn in Hfn.
    unfold m', key in Hfn. cbn in Hfn. congruence. }
  destruct (alias_cell_ok c a l x m m') as [Hok' Hch]; try done.
  { unfold live. cbn. by destruct (Z.eqb_spec d_addr 0). }
  destruct (chain_used _ _ _ a Hl ltac:(left)) as (ma & Hma & Huma).
  pose proof (used_not_lost _ _ _ _ _ _ Hr Hc Hma Huma) as HiL.
  assert (Hpos : 1 ≤ nlive ((mc_map c).[x := m'])).
  { apply (nlive_pos _ x m'); [by eapply zlookup_zinsert_eq|]. unfold live, m'. cbn. by destruct (Z.eqb_spec d_addr 0). }
  apply (mrel_cell L L f _ s i c); try done.
  - split; [done|]. cbn [mc_map]. intros [_ ?]. lia.
  - intros k y q Hy. rewrite lookup_insert_Some. split; [intros [[_ ?]|[_ ?]]; congruence|].
    intros Hky. right. split; [|done]. intros <-. congruence.
  - cbn [mc_map]. intros j n ln Hn Hun Hln. rewrite (zlookup_zinsert _ _ _ _ _ Hm) in Hn. case_decide as Hj.
    + injection Hn as <-. subst j. rewrite (chain_fun _ _ _ _ Hln Hch).
      rewrite lookup_insert_eq. do 2 f_equal. cbn [fmap list_fmap]. f_equal.
      * destruct (chain_used _ _ _ a Hl ltac:(left)) as (na & Hna & Huna). unfold key_at.
        rewrite (zlookup_zinsert _ _ _ _ _ Hm), decide_False; [done|]. intros ->. by simplify_eq.
      * symmetry. by eapply alias_keys.
    + destruct (co_chain _ Hok _ _ Hn Hun) as [l0 Hl0].
      rewrite (chain_fun _ _ _ _ Hln (alias_chain _ _ _ m' Hm Hnu _ _ Hl0)), (alias_keys _ _ _ m' Hm Hnu _ _ Hl0).
      rewrite lookup_insert_ne; [by eapply (mr_fwd _ _ _ Hr)|]. intros E. by destruct (Hkey j n Hn Hun).
  - cbn [mc_map]. intros k q Hk. apply lookup_insert_Some in Hk as [[<- _]|[_ Hk]].
    + exists x, m'. split; [by eapply zlookup_zinsert_eq|done].
    + destruct (mrel_of_cell _ _ _ _ _ _ Hr Hc Hk) as (j & n & ln & Hn & Hun & Hkn & _). exists j, n.
      split; [|done]. rewrite (zlookup_zinsert _ _ _ _ _ Hm), decide_False; [done|]. intros ->. by simplify_eq.
  - intros sp ad v Hv. apply lookup_insert_Some in Hv as [[[= <- <-] _]|[_ Hv]]; [done|].
    by eapply (mr_usable _ _ _ Hr).
  - intros sp ad Hu'. rewrite Hmk, lookup_insert by done.
    case_decide; [by rewrite decide_True by congruence|]. rewrite decide_False by congruence.
    by apply (mr_maps _ _ _ Hr).
Qed.

Lemma alias_run {L} f s s_spd s_addr d_spd d_addr :
  mrel L f s → s_spd ≠ 0 → mk_usable d_spd d_addr →
  (f !! (s_spd, s_addr) = None ∧ mman_alias_page cntl s_spd s_addr d_spd d_addr s = Done 0 s) ∨
  ∃ i p, f !! (s_spd, s_addr) = Some (i, p) ∧
    (MAX_ALIASES ≤ Z.of_nat (size (places f i)) ∧
     mman_alias_page cntl s_spd s_addr d_spd d_addr s = Done 0 s ∨
     Z.of_nat (size (places f i)) < MAX_ALIASES ∧
     ((∃ v s', f !! (d_spd, d_addr) = Some v ∧
        mman_alias_page cntl s_spd s_addr d_spd d_addr s = Done 0 s' ∧ mrel L f s') ∨
      (∃ s', f !! (d_spd, d_addr) = None ∧
        mman_alias_page cntl s_spd s_addr d_spd d_addr s = Done d_addr s' ∧
        mrel L (<[(d_spd, d_addr) := (i, (s_spd, s_addr) :: p)]> f) s'))).
Proof.
  intros Hr Hspd Hus. destruct (f !! (s_spd, s_addr)) as [[i p]|] eqn:Hsrc.
  2: { left. split; [done|]. unfold mman_alias_page. by rewrite (bind_run _ _ _ _ _ (find_unmapped _ _ _ _ Hr Hspd Hsrc)). }
  right. exists i, p. split; [done|].
  destruct (find_mapped _ _ _ _ _ _ Hr Hsrc) as (c & j & m & l & Hf & Hc & Hm & Hu & Hk & Hl & ->).
  destruct (alias_start f s s_spd s_addr i c j l Hr Hf Hc Hl d_spd d_addr) as [-> Hj].
  rewrite (places_count f s i c Hr Hc). pose proof (mr_cells _ _ _ Hr _ _ Hc) as Hok.
  destruct (slot_scan j (mc_map c) 0) as [x|] eqn:Hx; [right|left].
  2: { split; [|done]. rewrite nlive_all; [rewrite (co_len _ Hok); unfold MAX_ALIASES; lia|].
       intros a n Hn. destruct (slot_scan_none _ _ _ Hx _ _ Hn) as [Ha|[Hun|?]]; [|by apply (co_live _ Hok _ _ Hn)|done].
       replace a with j in Hn by lia. simplify_eq. by apply (co_live _ Hok _ _ Hm). }
  apply slot_scan_some in Hx as (n & _ & Hn & _ & Hnu & Hna). rewrite Z.sub_0_r in Hn.
  split.
  { pose proof (nlive_lt _ _ n Hn) as Hlt. rewrite (co_len _ Hok) in Hlt. unfold live in Hlt. rewrite Hna in Hlt.
    specialize (Hlt eq_refl). unfold MAX_ALIASES in *. lia. }
  assert (Hi : 0 ≤ i < COS_MAX_MEMORY).
  { apply zlookup_lt in Hc. rewrite (mr_len _ _ _ Hr) in Hc. unfold COS_MAX_MEMORY in *. lia. }
  pose proof (mr_maps _ _ _ Hr _ _ Hus) as Hmap.
  destruct (f !! (d_spd, d_addr)) as [v|] eqn:Hd; [left|right]; cbn in Hmap.
  - destruct (mk_grant_taken (mm_kern s) d_spd d_addr i _ (mr_inv _ _ _ Hr) Hus Hmap Hi) as (k' & Hg & Hik & Hmk).
    eexists v, _. split; [done|]. split; [by erewrite bind_run; [|apply syscall_run, Hg]|].
    destruct Hr as [? ? ? ? ? ? Hmr ? ?]. split; try done. cbn. intros sp ad Hu'. rewrite Hmk by done. by apply Hmr.
  - destruct (mk_grant (mm_kern s) d_spd d_addr i (mr_inv _ _ _ Hr) Hus Hmap Hi) as (k' & Hg & Hik & Hmk).
    eexists _. split; [done|]. split.
    + erewrite bind_run; [|apply syscall_run, Hg]. cbn [Z.eqb negb].
      erewrite bind_run; [|by eapply upd_mi_run].
      erewrite bind_run; [|eapply upd_naliases_run; by eapply at_cell]. done.
    + rewrite at_at. pose proof (alias_done f s i c x n j l d_spd d_addr k' Hr Hc Hl Hn Hnu Hj Hus Hd Hik Hmk) as Hres.
      cbn [fmap list_fmap] in Hres. replace (key_at (mc_map c) j) with (s_spd, s_addr) in Hres; [exact Hres|].
      unfold key_at. rewrite Hm. cbn. by rewrite Hk.
Qed.

(** ** Revoking *)

Lemma descendent_run fuel s i c a j l :
  (mm_cells s).[i] = Some c → chain (mc_map c) j l → (length l < fuel)%nat →
  descendent_loop fuel i a j s = Done (bool_decide (a ∈ l)) s.
Proof.
  intros Hc Hl. revert fuel. induction Hl as [j m Hm Hu Hp|j m l Hm Hu Hp Hl IH];
    intros [|fuel] Hf; cbn in Hf; try lia; cbn [descendent_loop];
    rewrite (bind_run _ _ _ _ _ (get_mi_run _ _ _ _ _ Hc Hm)).
  - rewrite Hp, Z.eqb_refl, bool_decide_eq_false_2; [done|]. by intros ?%elem_of_nil.
  - rewrite (proj2 (Z.eqb_neq (mi_parent m) (-1))) by lia.
    rewrite (proj2 (Z.ltb_lt _ _)), (proj2 (Z.leb_le _ _)) by lia. mrun.
    destruct (Z.eqb_spec (mi_parent m) a) as [->|Hne].
    + rewrite bool_decide_eq_true_2; [done|]. left.
    + rewrite IH by lia. f_equal. apply bool_decide_ext. rewrite elem_of_cons. naive_solver.
Qed.

(** The entries above one, as a function. *)
Fixpoint ancestors (fuel : nat) (mp : list mapping_info) (j : Z) : list Z :=
  match fuel, mp.[j] with
  | S fuel, Some m =>
      if (mi_owner_spd m =? 0) || (mi_parent m =? -1) then []
      else mi_parent m :: ancestors fuel mp (mi_parent m)
  | _, _ => []
  end.

Lemma ancestors_chain fuel mp j l : chain mp j l → (length l ≤ fuel)%nat → ancestors fuel mp j = l.
Proof.
  intros Hl. revert fuel. induction Hl as [j m Hm Hu Hp|j m l Hm Hu Hp Hl IH]; intros [|fuel] Hf; cbn in Hf |- *; try done.
  - rewrite Hm. by rewrite Hp, orb_true_r.
  - lia.
  - rewrite Hm. rewrite (proj2 (Z.eqb_neq (mi_owner_spd m) 0) Hu), (proj2 (Z.eqb_neq (mi_parent m) (-1))) by lia.
    cbn. f_equal. apply IH. lia.
Qed.

(** The entries derived from entry [a]. *)
Definition derived (mp : list mapping_info) (a j : Z) : bool :=
  match mp.[j] with
  | Some m => negb (mi_owner_spd m =? 0) && bool_decide (a ∈ ancestors (Z.to_nat MAX_ALIASES) mp j)
  | None => false
  end.

Lemma derived_chain mp a j l : length mp = Z.to_nat MAX_ALIASES → chain mp j l →
  derived mp a j = bool_decide (a ∈ l).
Proof.
  intros Hlen Hl. destruct (chain_used _ _ _ j Hl ltac:(left)) as (m & Hm & Hu). unfold derived. rewrite Hm.
  rewrite (proj2 (Z.eqb_neq (mi_owner_spd m) 0) Hu). cbn.
  rewrite (ancestors_chain _ _ _ l Hl); [done|]. pose proof (chain_short _ _ _ Hlen Hl). lia.
Qed.

Lemma derived_used c a j m : (mc_map c).[j] = Some m → derived (mc_map c) a j = true → used m.
Proof. intros Hm. unfold derived. rewrite Hm. unfold used. destruct (Z.eqb_spec (mi_owner_spd m) 0); done. Qed.

Lemma derived_closed c a j l x : cell_ok c → chain (mc_map c) j l →
  derived (mc_map c) a j = false → x ∈ l → derived (mc_map c) a x = false.
Proof.
  intros Hok Hl. rewrite (derived_chain _ _ _ _ (co_len _ Hok) Hl). intros Ha%bool_decide_eq_false Hx.
  destruct (chain_above _ _ _ _ Hl Hx) as (l1 & l2 & -> & Hl2).
  rewrite (derived_chain _ _ _ _ (co_len _ Hok) Hl2). apply bool_decide_eq_false. intros Ha2. apply Ha.
  apply elem_of_app. right. by right.
Qed.

(** The places of the entries [j < i] in [X]. *)
Definition removed (mp : list mapping_info) (X : Z → bool) (i : Z) (k : place) : bool :=
  existsb (λ j, (j <? i) && X j && bool_decide (key_at mp j = k)) (seqZ 0 MAX_ALIASES).

Lemma removed_spec mp X i k : removed mp X i k = true ↔
  ∃ j, 0 ≤ j < MAX_ALIASES ∧ j < i ∧ X j = true ∧ key_at mp j = k.
Proof.
  unfold removed. rewrite existsb_exists. split.
  - intros (j & Hj%list_elem_of_In%elem_of_seqZ & H).
    rewrite !andb_true_iff, Z.ltb_lt, bool_decide_eq_true in H. exists j. split_and!; tauto || lia.
  - intros (j & Hj & Hi & HX & Hk). exists j. split; [apply list_elem_of_In, elem_of_seqZ; lia|].
    rewrite !andb_true_iff, Z.ltb_lt, bool_decide_eq_true. done.
Qed.

Lemma removed_step mp X i k : 0 ≤ i < MAX_ALIASES →
  removed mp X (i + 1) k = removed mp X i k || X i && bool_decide (key_at mp i = k).
Proof.
  intros Hi. apply eq_true_iff_eq. rewrite orb_true_iff, andb_true_iff, !removed_spec, bool_decide_eq_true. split.
  - intros (j & Hj & Hlt & HX & Hk). destruct (decide (j = i)) as [->|]; [by right|]. left. exists j. split_and!; done || lia.
  - intros [(j & Hj & Hlt & HX & Hk)|[HX Hk]]; [exists j|exists i]; split_and!; done || lia.
Qed.

Lemma removed_zero mp X k : removed mp X 0 k = false.
Proof. apply not_true_iff_false. rewrite removed_spec. intros (j & ? & ? & _). lia. Qed.

(** The first loop has passed entry [i]: the derived ones are marked and their
    mappings are gone. *)
Definition mark (m : mapping_info) : mapping_info := MkMi (mi_owner_spd m) (mi_flags m) 0 (mi_parent m).

Record marked (g : mapping_info → mapping_info) (X : Z → bool) (i : Z) (c0 c : mem_cell) : Prop := {
  mk_len : length (mc_map c) = length (mc_map c0);
  mk_count : mc_naliases c = nlive (mc_map c);
  mk_at : ∀ j m, (mc_map c0).[j] = Some m → (mc_map c).[j] = Some (if (j <? i) && X j then g m else m)
}.

Definition revoking (f : forest) (s0 : mmstate K) (ci : Z) (c0 : mem_cell) (X : Z → bool) (i : Z) s : Prop :=
  ∃ c k, s = MkMm ((mm_cells s0).[ci := c]) k ∧ marked mark X i c0 c ∧ mk_inv k ∧
    ∀ spd addr, mk_usable spd addr → mk_maps k spd addr =
      if removed (mc_map c0) X i (spd, addr) then None else fst <$> f !! (spd, addr).

(** An entry that stays as it is. *)
Lemma marked_skip g X i c0 c : X i = false → marked g X i c0 c → marked g X (i + 1) c0 c.
Proof.
  intros HX [Hl Hn Ha]. split; [done..|]. intros j m Hm. rewrite (Ha j m Hm). do 2 f_equal.
  destruct (decide (j = i)) as [->|]; [by rewrite HX, !andb_false_r|]. f_equal.
  destruct (Z.ltb_spec j i), (Z.ltb_spec j (i + 1)); lia || done.
Qed.

Lemma marked_next g X i c0 c m n : X i = true → marked g X i c0 c → (mc_map c0).[i] = Some m →
  n = nlive (mc_map c) - (if live m then 1 else 0) + (if live (g m) then 1 else 0) →
  marked g X (i + 1) c0 (MkCell n ((mc_map c).[i := g m])).
Proof.
  intros HX [Hl Hn Ha] Hm ->. pose proof (Ha i m Hm) as Hi. rewrite Z.ltb_irrefl in Hi. cbn in Hi.
  split; cbn.
  - by rewrite length_zinsert.
  - by rewrite (nlive_insert _ _ _ _ Hi).
  - intros j m' Hm'. rewrite (zlookup_zinsert _ _ _ _ _ Hi). case_decide as Hj.
    + subst. simplify_eq. rewrite HX, andb_true_r. by rewrite (proj2 (Z.ltb_lt _ _)) by lia.
    + rewrite (Ha _ _ Hm'). do 3 f_equal. destruct (Z.ltb_spec j i), (Z.ltb_spec j (i + 1)); lia || done.
Qed.

Lemma removed_key {L} f s ci c0 a i m :
  mrel L f s → (mm_cells s).[ci] = Some c0 → (mc_map c0).[i] = Some m → used m →
  removed (mc_map c0) (derived (mc_map c0) a) i (key m) = false.
Proof.
  intros Hr Hc Hm Hu. apply not_true_iff_false. rewrite removed_spec. intros (j & Hj & Hlt & HX & Hk).
  pose proof (mr_cells _ _ _ Hr _ _ Hc) as Hok.
  assert (Hex : is_Some ((mc_map c0).[j])).
  { apply zlookup_is_Some. rewrite (co_len _ Hok). unfold MAX_ALIASES in *. lia. }
  destruct Hex as [n Hn]. unfold key_at in Hk. rewrite Hn in Hk. cbn in Hk.
  assert (j = i); [|lia]. eapply (co_uniq _ Hok); try done. by eapply derived_used.
Qed.

Lemma revoke_one_wp {L} f s0 ci c0 a la i s :
  mrel L f s0 → (mm_cells s0).[ci] = Some c0 → chain (mc_map c0) a la → 0 ≤ i < MAX_ALIASES →
  let X := derived (mc_map c0) a in
  revoking f s0 ci c0 X i s → wp (revoke_one cntl ci a i) (λ _, revoking f s0 ci c0 X (i + 1)) s.
Proof.
  intros Hr Hc0 Hla Hi X (c & k & -> & Hmk & Hik & Hmaps). pose proof (mr_cells _ _ _ Hr _ _ Hc0) as Hok.
  assert (Hex : is_Some ((mc_map c0).[i])).
  { apply zlookup_is_Some. rewrite (co_len _ Hok). unfold MAX_ALIASES in *. lia. }
  destruct Hex as [m Hm]. set (s := MkMm _ k).
  assert (Hc : (mm_cells s).[ci] = Some c) by (by eapply zlookup_zinsert_eq).
  pose proof (mk_at _ _ _ _ _ Hmk i m Hm) as Hci. rewrite Z.ltb_irrefl in Hci. cbn in Hci.
  assert (Hskip : X i = false → revoking f s0 ci c0 X (i + 1) s).
  { intros HX. exists c, k. split_and!; [done|by apply marked_skip|done|].
    intros sp ad Hu. rewrite Hmaps, removed_step by done. by rewrite HX, orb_false_r. }
  apply wp_Done. unfold revoke_one. rewrite (bind_run _ _ _ _ _ (get_mi_run _ _ _ _ _ Hc Hci)).
  destruct (Z.eqb_spec i a) as [->|Hne]; cbn [orb].
  { eexists _, s. split; [done|]. apply Hskip. unfold X. rewrite (derived_chain _ _ _ _ (co_len _ Hok) Hla).
    apply bool_decide_eq_false. by apply chain_nodup, NoDup_cons in Hla as [? _]. }
  destruct (Z.eqb_spec (mi_owner_spd m) 0) as [Hz|Hu].
  { eexists _, s. split; [done|]. apply Hskip. unfold X, derived. rewrite Hm, Hz. done. }
  destruct (co_chain _ Hok _ _ Hm Hu) as [l Hl]. pose proof (chain_short _ _ _ (co_len _ Hok) Hl) as Hsh.
  assert (HX : X i = bool_decide (a ∈ l)) by (by apply derived_chain; [apply Hok|]).
  assert (Hl' : chain (mc_map c) i l).
  { eapply chain_same; [|exact Hl]. intros j n Hj Hn. eexists. split; [by eapply (mk_at _ _ _ _ _ Hmk)|].
    by destruct (_ && _). }
  unfold is_descendent. rewrite (proj2 (Z.ltb_lt i MAX_ALIASES)), (proj2 (Z.leb_le 0 i)) by lia. mrun.
  rewrite (bind_run _ _ _ _ _ (descendent_run _ _ _ _ a _ _ Hc Hl' Hsh)). rewrite <- HX.
  destruct (X i) eqn:HXi; cbn [when]; [|by eexists _, s; split; [|apply Hskip]].
  pose proof (mr_fwd _ _ _ Hr _ _ _ _ _ Hc0 Hm Hu Hl) as Hf.
  assert (Hus : mk_usable (mi_owner_spd m) (mi_addr m)) by (by eapply (mr_usable _ _ _ Hr)).
  assert (Hmap : mk_maps k (mi_owner_spd m) (mi_addr m) = Some ci).
  { rewrite Hmaps by done. change (mi_owner_spd m, mi_addr m) with (key m).
    unfold X. by rewrite (removed_key f s0 ci c0 a i m), Hf by done. }
  destruct (mk_revoke k _ _ _ Hik Hus Hmap) as (k' & Hrv & Hik' & Hmk').
  erewrite bind_run; [|apply syscall_run, Hrv]. rewrite Z.eqb_refl. mrun.
  erewrite bind_run; [|by eapply upd_mi_run].
  eexists _, _. split; [eapply upd_naliases_run; by eapply at_cell|]. rewrite at_at. unfold at_. cbn.
  eexists _, k'. rewrite zinsert_zinsert. split_and!; [done| |done|].
  - apply (marked_next mark X i c0 c m); try done. cbn.
    assert (live m = true) as -> by (by apply (co_live _ Hok _ _ Hm)).
    rewrite (mk_count _ _ _ _ _ Hmk). pose proof (nlive_le (mc_map c)) as Hle.
    rewrite (mk_len _ _ _ _ _ Hmk), (co_len _ Hok) in Hle. unfold MAX_ALIASES in Hle.
    assert (0 ≤ nlive (mc_map c)) by (unfold nlive; lia). rewrite s32_id; lia.
  - intros sp ad Hu'. rewrite Hmk', Hmaps, removed_step, HXi by done. cbn.
    assert (Hka : key_at (mc_map c0) i = key m) by (unfold key_at; by rewrite Hm).
    rewrite Hka. unfold key. destruct (decide ((sp, ad) = (mi_owner_spd m, mi_addr m))) as [Hd|Hd].
    + rewrite bool_decide_eq_true_2 by done. by rewrite orb_true_r.
    + rewrite bool_decide_eq_false_2 by congruence. by rewrite orb_false_r.
Qed.

(** The second loop clears the marked entries. *)
Definition clear (m : mapping_info) : mapping_info := MkMi 0 (mi_flags m) (mi_addr m) 0.

Definition sweeping (s0 : mmstate K) (ci : Z) (k : K) (X : Z → bool) (c1 : mem_cell) (i : Z) s : Prop :=
  ∃ c, s = MkMm ((mm_cells s0).[ci := c]) k ∧ marked clear X i c1 c.

Lemma sweep_one_wp s0 ci c0 k X c1 i s :
  (mm_cells s0).[ci] = Some c0 → 0 ≤ i < Z.of_nat (length (mc_map c1)) →
  (∀ j m, (mc_map c1).[j] = Some m → X j = (mi_addr m =? 0) && negb (mi_owner_spd m =? 0)) →
  sweeping s0 ci k X c1 i s → wp (sweep_one ci i) (λ _, sweeping s0 ci k X c1 (i + 1)) s.
Proof.
  intros Hc0 Hi HX (c & -> & Hmk). set (s := MkMm _ k).
  assert (Hc : (mm_cells s).[ci] = Some c) by (by eapply zlookup_zinsert_eq).
  assert (Hex : is_Some ((mc_map c1).[i])) by (by apply zlookup_is_Some). destruct Hex as [m Hm].
  pose proof (mk_at _ _ _ _ _ Hmk i m Hm) as Hci. rewrite Z.ltb_irrefl in Hci. cbn in Hci.
  apply wp_Done. unfold sweep_one. rewrite (bind_run _ _ _ _ _ (get_mi_run _ _ _ _ _ Hc Hci)).
  rewrite <- (HX _ _ Hm). destruct (X i) eqn:HXi; cbn [when].
  - eexists _, _. split; [by eapply upd_mi_run|]. unfold at_. cbn.
    eexists. rewrite zinsert_zinsert. split; [done|]. apply (marked_next clear X i c1 c m); try done.
    rewrite (mk_count _ _ _ _ _ Hmk). change (live (clear m)) with (live m). destruct (live m); lia.
  - eexists _, s. split; [done|]. exists c. split; [done|]. by apply marked_skip.
Qed.

(** The forest without what is derived from a place. *)
Definition prune (k : place) (f : forest) : forest := filter (λ v, k ∉ v.2.2) f.

(** Derived places are the places of derived entries. *)
Lemma derived_place {L} f s ci c0 a m la k v :
  mrel L f s → (mm_cells s).[ci] = Some c0 → (mc_map c0).[a] = Some m → used m → chain (mc_map c0) a la →
  f !! k = Some v →
  key m ∈ v.2 ↔ gone c0 ci (derived (mc_map c0) a) k v.
Proof.
  intros Hr Hc Hm Hu Hla Hk. destruct v as [x p]. cbn.
  pose proof (mr_cells _ _ _ Hr _ _ Hc) as Hok.
  destruct (mr_bwd _ _ _ Hr _ _ _ Hk) as (cx & j & mj & Hcx & Hmj & Huj & Hkj).
  pose proof (mr_cells _ _ _ Hr _ _ Hcx) as Hokx. destruct (co_chain _ Hokx _ _ Hmj Huj) as [l Hl].
  pose proof (mr_fwd _ _ _ Hr _ _ _ _ _ Hcx Hmj Huj Hl) as Hfk. rewrite Hkj, Hk in Hfk. injection Hfk as ->.
  assert (Hka : ∀ y, y ∈ l → ∃ my, (mc_map cx).[y] = Some my ∧ used my ∧ key_at (mc_map cx) y = key my).
  { intros y Hy. destruct (chain_used _ _ _ y Hl) as (my & Hmy & Huy); [by right|].
    exists my. split_and!; [done..|]. unfold key_at. by rewrite Hmy. }
  split.
  - intros (y & Hy & Hyl)%list_elem_of_fmap. destruct (Hka y Hyl) as (my & Hmy & Huy & Hky).
    rewrite Hky in Hy. destruct (co_chain _ Hokx _ _ Hmy Huy) as [ly Hly].
    pose proof (mr_fwd _ _ _ Hr _ _ _ _ _ Hcx Hmy Huy Hly) as H1.
    pose proof (mr_fwd _ _ _ Hr _ _ _ _ _ Hc Hm Hu Hla) as H2. rewrite <- Hy in H1.
    assert (x = ci) as -> by congruence. simplify_eq. split; [done|].
    assert (y = a) as -> by (apply (co_uniq _ Hok y a my m); [done..|unfold key; congruence]).
    exists j, mj. split_and!; [done| |done]. rewrite (derived_chain _ _ _ _ (co_len _ Hok) Hl).
    by apply bool_decide_eq_true.
  - intros [Hx (j' & m' & Hm' & HX & Hk')]. cbn in Hx. subst x. simplify_eq.
    assert (j' = j) as ->.
    { apply (co_uniq _ Hok j' j m' mj); [done|done|by eapply derived_used|unfold key in *; congruence]. }
    rewrite (derived_chain _ _ _ _ (co_len _ Hok) Hl) in HX. apply bool_decide_eq_true in HX.
    apply list_elem_of_fmap. exists a. split; [|done]. destruct (Hka a HX) as (ma & Hma & _ & ->). by simplify_eq.
Qed.

(** The state between the two loops and the one after them. *)
Lemma revoke_loops {L} f s i c0 a m la :
  mrel L f s → (mm_cells s).[i] = Some c0 → (mc_map c0).[a] = Some m → used m → chain (mc_map c0) a la →
  let X := derived (mc_map c0) a in
  ∃ c1 c2 k, (for_range 0 MAX_ALIASES (revoke_one cntl i a);; for_range 0 MAX_ALIASES (sweep_one i)) s =
      Done tt (MkMm ((mm_cells s).[i := c2]) k) ∧
    marked mark X MAX_ALIASES c0 c1 ∧ marked clear X MAX_ALIASES c1 c2 ∧ mk_inv k ∧
    ∀ spd addr, mk_usable spd addr → mk_maps k spd addr =
      if removed (mc_map c0) X MAX_ALIASES (spd, addr) then None else fst <$> f !! (spd, addr).
Proof.
  intros Hr Hc Hm Hu Hla X. pose proof (mr_cells _ _ _ Hr _ _ Hc) as Hok.
  assert (Hcnt : mc_naliases c0 = nlive (mc_map c0)).
  { apply (co_live _ Hok _ _ Hm) in Hu. pose proof (nlive_pos _ _ _ Hm Hu). destruct (co_count _ Hok) as [|[]]; lia. }
  assert (Hfirst : ∀ g j n, (mc_map c0).[j] = Some n → Some n = Some (if (j <? 0) && X j then g n else n)).
  { intros g j n Hn. destruct (Z.ltb_spec j 0); [apply zlookup_lt in Hn; lia|done]. }
  assert (H1 : wp (for_range 0 MAX_ALIASES (revoke_one cntl i a)) (λ _, revoking f s i c0 X MAX_ALIASES) s).
  { apply for_range_wp; [done| |intros j s' Hj; by eapply revoke_one_wp].
    exists c0, (mm_kern s). split_and!; [|split; try done| |].
    - rewrite zinsert_id by done. by destruct s.
    - intros j n Hn. rewrite Hn. by apply Hfirst.
    - apply Hr.
    - intros sp ad Hus. rewrite removed_zero. by apply (mr_maps _ _ _ Hr). }
  apply wp_Done in H1 as (u1 & s1 & Hrun1 & c1 & k & -> & Hmk1 & Hik & Hmaps).
  assert (HX : ∀ j n, (mc_map c1).[j] = Some n → X j = (mi_addr n =? 0) && negb (mi_owner_spd n =? 0)).
  { intros j n Hn. assert (Hex : is_Some ((mc_map c0).[j])).
    { apply zlookup_is_Some. apply zlookup_lt in Hn. rewrite (mk_len _ _ _ _ _ Hmk1) in Hn. done. }
    destruct Hex as [n0 Hn0]. pose proof (zlookup_lt _ _ _ Hn0) as Hlt. rewrite (co_len _ Hok) in Hlt.
    rewrite (mk_at _ _ _ _ _ Hmk1 _ _ Hn0), (proj2 (Z.ltb_lt j MAX_ALIASES)) in Hn by (unfold MAX_ALIASES in *; lia).
    cbn [andb] in Hn. destruct (X j) eqn:HXj; injection Hn as <-.
    - pose proof (derived_used _ _ _ _ Hn0 HXj) as Hun. cbn. by rewrite (proj2 (Z.eqb_neq _ _) Hun).
    - pose proof (co_live _ Hok _ _ Hn0) as Hl. unfold used, live in Hl.
      destruct (Z.eqb_spec (mi_addr n0) 0), (Z.eqb_spec (mi_owner_spd n0) 0); cbn in *; naive_solver. }
  assert (H2 : wp (for_range 0 MAX_ALIASES (sweep_one i)) (λ _, sweeping s i k X c1 MAX_ALIASES)
                 (MkMm ((mm_cells s).[i := c1]) k)).
  { apply for_range_wp; [done| |].
    - exists c1. split; [done|]. split; [done|apply Hmk1|]. intros j n Hn. rewrite Hn.
      destruct (Z.ltb_spec j 0); [apply zlookup_lt in Hn; lia|done].
    - intros j s' Hj. apply (sweep_one_wp _ _ c0); try done.
      rewrite (mk_len _ _ _ _ _ Hmk1), (co_len _ Hok). unfold MAX_ALIASES in *. lia. }
  apply wp_Done in H2 as (u2 & s2 & Hrun2 & c2 & -> & Hmk2). destruct u1, u2.
  exists c1, c2, k. split_and!; try done. by rewrite (bind_run _ _ _ _ _ Hrun1).
Qed.

Lemma marked_all g X c0 c j m : cell_ok c0 → marked g X MAX_ALIASES c0 c → (mc_map c0).[j] = Some m →
  (mc_map c).[j] = Some (if X j then g m else m).
Proof.
  intros Hok Hmk Hm. rewrite (mk_at _ _ _ _ _ Hmk _ _ Hm). pose proof (zlookup_lt _ _ _ Hm) as Hlt.
  rewrite (co_len _ Hok) in Hlt. rewrite (proj2 (Z.ltb_lt j MAX_ALIASES)); [done|unfold MAX_ALIASES in *; lia].
Qed.

Lemma removed_gone {L} f s i c0 X k v : mrel L f s → (mm_cells s).[i] = Some c0 → f !! k = Some v →
  (∀ j m, (mc_map c0).[j] = Some m → X j = true → used m) → (∀ j, X j = true → is_Some ((mc_map c0).[j])) →
  removed (mc_map c0) X MAX_ALIASES k = true ↔ gone c0 i X k v.
Proof.
  intros Hr Hc Hk HX Hex. pose proof (mr_cells _ _ _ Hr _ _ Hc) as Hok. rewrite removed_spec. split.
  - intros (j & Hj & _ & HXj & Hkj). destruct (Hex j HXj) as [m Hm]. unfold key_at in Hkj. rewrite Hm in Hkj. cbn in Hkj.
    pose proof (HX _ _ Hm HXj) as Hu. destruct (co_chain _ Hok _ _ Hm Hu) as [l Hl].
    pose proof (mr_fwd _ _ _ Hr _ _ _ _ _ Hc Hm Hu Hl) as Hf. rewrite Hkj, Hk in Hf. injection Hf as ->.
    split; [done|]. by exists j, m.
  - intros [_ (j & m & Hm & HXj & Hkm)]. exists j. pose proof (zlookup_lt _ _ _ Hm) as Hlt.
    rewrite (co_len _ Hok) in Hlt. unfold key_at. rewrite Hm. unfold MAX_ALIASES in *. split_and!; done || lia.
Qed.

Lemma revoke_run {L} f s spd addr flags i p :
  mrel L f s → f !! (spd, addr) = Some (i, p) →
  ∃ s', mman_revoke_page cntl spd addr flags s = Done tt s' ∧ mrel L (prune (spd, addr) f) s'.
Proof.
  intros Hr Hf. destruct (find_mapped _ _ _ _ _ _ Hr Hf) as (c0 & a & m & la & Hfc & Hc & Hm & Hu & Hk & Hla & _).
  pose proof (mr_cells _ _ _ Hr _ _ Hc) as Hok.
  destruct (revoke_loops f s i c0 a m la Hr Hc Hm Hu Hla) as (c1 & c2 & k & Hrun & Hmk1 & Hmk2 & Hik & Hmaps).
  set (X := derived (mc_map c0) a) in *.
  assert (HXu : ∀ j n, (mc_map c0).[j] = Some n → X j = true → used n) by (intros j n Hn; by apply derived_used).
  assert (HXs : ∀ j, X j = true → is_Some ((mc_map c0).[j])).
  { intros j. unfold X, derived. destruct ((mc_map c0).[j]); [by eexists|done]. }
  assert (Hc2 : ∀ j n, (mc_map c0).[j] = Some n → (mc_map c2).[j] = Some (if X j then clear (mark n) else n)).
  { intros j n Hn. pose proof (marked_all _ _ _ _ _ _ Hok Hmk1 Hn) as H1.
    rewrite (mk_at _ _ _ _ _ Hmk2 _ _ H1). pose proof (zlookup_lt _ _ _ Hn) as Hlt. rewrite (co_len _ Hok) in Hlt.
    rewrite (proj2 (Z.ltb_lt j MAX_ALIASES)) by (unfold MAX_ALIASES in *; lia). cbn. by destruct (X j). }
  assert (Hpr : ∀ q v, prune (spd, addr) f !! q = Some v ↔ f !! q = Some v ∧ ¬ gone c0 i X q v).
  { intros q v. unfold prune. rewrite map_lookup_filter_Some. cbn.
    split; intros [Hq Hn]; (split; [done|]); rewrite <- Hk in *; by rewrite (derived_place f s i c0 a m la q v Hr Hc Hm Hu Hla Hq) in *. }
  eexists. split; [unfold mman_revoke_page; by rewrite (bind_run _ _ _ _ _ Hfc)|].
  apply (mrel_remove L f _ s i c0 c2 k X); try done.
  - by eapply used_not_lost.
  - by rewrite (mk_len _ _ _ _ _ Hmk2), (mk_len _ _ _ _ _ Hmk1).
  - intros j n Hn HX. by rewrite (Hc2 _ _ Hn), HX.
  - intros j n Hn HX. split; [by eapply HXu|]. eexists. by rewrite (Hc2 _ _ Hn), HX.
  - intros j l x Hl HX Hx. by eapply derived_closed.
  - apply Hmk2.
  - intros sp ad Hus. rewrite Hmaps by done. destruct (f !! (sp, ad)) as [v|] eqn:Hv.
    + pose proof (removed_gone f s i c0 X (sp, ad) v Hr Hc Hv HXu HXs) as Hg.
      destruct (removed _ _ _ _); destruct (prune (spd, addr) f !! (sp, ad)) as [v'|] eqn:Hv'; try done.
      * apply Hpr in Hv' as [Hv' Hn]. simplify_eq. by destruct Hn; apply Hg.
      * apply Hpr in Hv' as [Hv' _]. by simplify_eq.
      * exfalso. assert (prune (spd, addr) f !! (sp, ad) = Some v); [|congruence]. apply Hpr. split; [done|].
        intros Hgn. by apply Hg in Hgn.
    + destruct (prune (spd, addr) f !! (sp, ad)) as [v'|] eqn:Hv'; [|by destruct (removed _ _ _ _)].
      apply Hpr in Hv' as [Hv' _]. congruence.
Qed.

(** A place is not derived from itself. *)
Lemma path_irrefl {L} f s k i p : mrel L f s → f !! k = Some (i, p) → k ∉ p.
Proof.
  intros Hr Hf. destruct (mr_bwd _ _ _ Hr _ _ _ Hf) as (c & a & m & Hc & Hm & Hu & Hk).
  pose proof (mr_cells _ _ _ Hr _ _ Hc) as Hok. destruct (co_chain _ Hok _ _ Hm Hu) as [l Hl].
  pose proof (mr_fwd _ _ _ Hr _ _ _ _ _ Hc Hm Hu Hl) as Hfk. rewrite Hk, Hf in Hfk. injection Hfk as ->.
  intros (y & Hy & Hyl)%list_elem_of_fmap. destruct (chain_used _ _ _ y Hl) as (n & Hn & Hun); [by right|].
  unfold key_at in Hy. rewrite Hn in Hy. change (k = key n) in Hy.
  assert (y = a) as -> by (apply (co_uniq _ Hok y a n m); [done..|congruence]).
  by apply chain_nodup, NoDup_cons in Hl as [? _].
Qed.

(** The entry of a place from which nothing is derived is given up. *)
Lemma drop_entry {L} f s i c a m p k' :
  mrel L f s → (mm_cells s).[i] = Some c → (mc_map c).[a] = Some m → used m → f !! key m = Some (i, p) →
  (∀ q v, f !! q = Some v → key m ∉ v.2) → mk_inv k' →
  (∀ spd' addr', mk_usable spd' addr' → mk_maps k' spd' addr' =
     if decide ((spd', addr') = key m) then None else mk_maps (mm_kern s) spd' addr') →
  mrel L (delete (key m) f)
    (MkMm ((mm_cells s).[i := MkCell (s32 (mc_naliases c + -1)) ((mc_map c).[a := MkMi 0 (mi_flags m) 0 0])]) k').
Proof.
  intros Hr Hc Hm Hu Hf Hleaf Hik Hmk. pose proof (mr_cells _ _ _ Hr _ _ Hc) as Hok.
  assert (Hgone : ∀ q v, f !! q = Some v → gone c i (λ j, j =? a) q v ↔ q = key m).
  { intros q v Hq. split.
    - intros [_ (j & n & Hn & ->%Z.eqb_eq & <-)]. by simplify_eq.
    - intros ->. simplify_eq. split; [done|]. exists a, m. by rewrite Z.eqb_refl. }
  apply (mrel_remove L f _ s i c _ k' (λ j, j =? a)); try done; cbn.
  - by eapply used_not_lost.
  - by rewrite length_zinsert.
  - intros j n Hn Hj%Z.eqb_neq. rewrite (zlookup_zinsert _ _ _ _ _ Hm), decide_False; [done|congruence].
  - intros j n Hn ->%Z.eqb_eq. simplify_eq. split; [done|]. eexists. split; [by eapply zlookup_zinsert_eq|done].
  - intros j l x Hl Hj%Z.eqb_neq Hx. apply Z.eqb_neq. intros ->.
    destruct (chain_used _ _ _ j Hl ltac:(left)) as (n & Hn & Hun).
    apply (Hleaf _ _ (mr_fwd _ _ _ Hr _ _ _ _ _ Hc Hn Hun Hl)). apply list_elem_of_fmap. exists a.
    split; [|done]. unfold key_at. by rewrite Hm.
  - assert (Hl : live m = true) by (by apply (co_live _ Hok _ _ Hm)). pose proof (nlive_pos _ _ _ Hm Hl).
    rewrite (nlive_insert _ _ _ _ Hm), Hl. cbn. pose proof (nlive_le (mc_map c)) as Hle.
    rewrite (co_len _ Hok) in Hle. unfold MAX_ALIASES in Hle.
    destruct (co_count _ Hok) as [->|[? _]]; [|lia]. rewrite s32_id; lia.
  - intros q v. rewrite lookup_delete_Some. split.
    + intros [Hne Hq]. split; [done|]. rewrite (Hgone _ _ Hq). congruence.
    + intros [Hq Hn]. rewrite (Hgone _ _ Hq) in Hn. split; [congruence|done].
  - intros sp ad Hus. rewrite Hmk, lookup_delete by done. destruct (decide ((sp, ad) = key m)) as [E|E].
    + by rewrite decide_True.
    + rewrite decide_False by congruence. by apply (mr_maps _ _ _ Hr).
Qed.

Lemma release_page_run {L} f s spd addr flags i p :
  mrel L f s → f !! (spd, addr) = Some (i, p) →
  ∃ s', mman_release_page cntl spd addr flags s = Done tt s' ∧ mrel L (delete (spd, addr) (prune (spd, addr) f)) s'.
Proof.
  intros Hr Hf. destruct (revoke_run f s spd addr flags i p Hr Hf) as (s1 & Hrv & Hr1).
  assert (Hf1 : prune (spd, addr) f !! (spd, addr) = Some (i, p)).
  { apply map_lookup_filter_Some. split; [done|]. exact (path_irrefl f s _ i p Hr Hf). }
  destruct (find_mapped _ _ _ _ _ _ Hr1 Hf1) as (c & a & m & la & Hfc & Hc & Hm & Hu & Hk & _).
  assert (Hus : mk_usable spd addr) by (by eapply (mr_usable _ _ _ Hr)).
  pose proof (mr_maps _ _ _ Hr1 _ _ Hus) as Hmap. rewrite Hf1 in Hmap. cbn in Hmap.
  destruct (mk_revoke _ _ _ _ (mr_inv _ _ _ Hr1) Hus Hmap) as (k' & Hrk & Hik & Hmk).
  unfold key in Hk. injection Hk as <- <-. eexists. split.
  - unfold mman_release_page. rewrite (bind_run _ _ _ _ _ Hrv), (bind_run _ _ _ _ _ Hfc).
    rewrite (bind_run _ _ _ _ _ (get_mi_run _ _ _ _ _ Hc Hm)).
    erewrite bind_run; [|apply syscall_run, Hrk]. rewrite Z.eqb_refl. mrun.
    erewrite bind_run; [|by eapply upd_mi_run]. eapply upd_naliases_run. by eapply at_cell.
  - rewrite at_at. cbn [mc_naliases mc_map].
    apply (drop_entry _ s1 i c a m p k' Hr1 Hc Hm Hu Hf1); try done.
    intros q v [_ Hq]%map_lookup_filter_Some. exact Hq.
Qed.

(** ** Sequences of requests *)

Inductive mop : Type :=
| MGet (spd addr : Z)
| MAlias (s_spd s_addr d_spd d_addr : Z)
| MRevoke (spd addr : Z)
| MRelease (spd addr : Z).

Definition mop_run (o : mop) : M (mmstate K) Z :=
  match o with
  | MGet spd addr => mman_get_page cntl spd addr 0
  | MAlias s_spd s_addr d_spd d_addr => mman_alias_page cntl s_spd s_addr d_spd d_addr
  | MRevoke spd addr => mman_revoke_page cntl spd addr 0;; mret 0
  | MRelease spd addr => mman_release_page cntl spd addr 0;; mret 0
  end.

(** The places of a request can be mapped. *)
Definition mop_ok (o : mop) : Prop :=
  match o with
  | MGet spd addr => mk_usable spd addr
  | MAlias s_spd _ d_spd d_addr => s_spd ≠ 0 ∧ mk_usable d_spd d_addr
  | MRevoke spd _ | MRelease spd _ => spd ≠ 0
  end.

(** What a request does to the forest and to the pages that are lost, with the
    result it returns. *)
Inductive fstep (f : forest) (L : gset Z) : mop → Z → forest → gset Z → Prop :=
| f_get spd addr i : f !! (spd, addr) = None → first_free f L i →
    fstep f L (MGet spd addr) addr (<[(spd, addr) := (i, [])]> f) L
| f_get_taken spd addr i v : f !! (spd, addr) = Some v → first_free f L i →
    fstep f L (MGet spd addr) 0 f ({[i]} ∪ L)
| f_get_full spd addr : (∀ i, 0 ≤ i < COS_MAX_MEMORY → taken f L i) →
    fstep f L (MGet spd addr) 0 f L
| f_alias s_spd s_addr d_spd d_addr i p : f !! (s_spd, s_addr) = Some (i, p) → f !! (d_spd, d_addr) = None →
    Z.of_nat (size (places f i)) < MAX_ALIASES →
    fstep f L (MAlias s_spd s_addr d_spd d_addr) d_addr (<[(d_spd, d_addr) := (i, (s_spd, s_addr) :: p)]> f) L
| f_alias_none s_spd s_addr d_spd d_addr : f !! (s_spd, s_addr) = None →
    fstep f L (MAlias s_spd s_addr d_spd d_addr) 0 f L
| f_alias_taken s_spd s_addr d_spd d_addr v : f !! (d_spd, d_addr) = Some v →
    fstep f L (MAlias s_spd s_addr d_spd d_addr) 0 f L
| f_alias_full s_spd s_addr d_spd d_addr i p : f !! (s_spd, s_addr) = Some (i, p) →
    MAX_ALIASES ≤ Z.of_nat (size (places f i)) →
    fstep f L (MAlias s_spd s_addr d_spd d_addr) 0 f L
| f_revoke spd addr : fstep f L (MRevoke spd addr) 0 (prune (spd, addr) f) L
| f_release spd addr : fstep f L (MRelease spd addr) 0 (delete (spd, addr) (prune (spd, addr) f)) L.

(** The places that a place is derived from are mapped themselves. *)
Lemma path_mapped {L} f s k i p q : mrel L f s → f !! k = Some (i, p) → q ∈ p →
  ∃ p', f !! q = Some (i, p').
Proof.
  intros Hr Hf Hq. destruct (mr_bwd _ _ _ Hr _ _ _ Hf) as (c & a & m & Hc & Hm & Hu & Hk).
  pose proof (mr_cells _ _ _ Hr _ _ Hc) as Hok. destruct (co_chain _ Hok _ _ Hm Hu) as [l Hl].
  pose proof (mr_fwd _ _ _ Hr _ _ _ _ _ Hc Hm Hu Hl) as Hfk. rewrite Hk, Hf in Hfk. injection Hfk as ->.
  apply list_elem_of_fmap in Hq as (y & -> & Hy). destruct (chain_above _ _ _ _ Hl Hy) as (l1 & l2 & _ & Hl2).
  destruct (chain_used _ _ _ y Hl2 ltac:(left)) as (n & Hn & Hun). unfold key_at at 1. rewrite Hn.
  eexists. exact (mr_fwd _ _ _ Hr _ _ _ _ _ Hc Hn Hun Hl2).
Qed.

Lemma prune_unmapped {L} f s k : mrel L f s → f !! k = None → prune k f = f.
Proof.
  intros Hr Hk. apply map_filter_id. intros q [i p] Hq Hin. cbn in Hin.
  destruct (path_mapped _ _ _ _ _ _ Hr Hq Hin) as [p' Hp']. congruence.
Qed.

Lemma mop_refines {L} f s o : mrel L f s → mop_ok o →
  ∃ r s' f' L', mop_run o s = Done r s' ∧ fstep f L o r f' L' ∧ mrel L' f' s'.
Proof.
  intros Hr. destruct o as [spd addr|s_spd s_addr d_spd d_addr|spd addr|spd addr]; cbn [mop_ok mop_run].
  - intros Hus. destruct (mm_get_page_run f s spd addr 0 Hr Hus)
      as [[Hg Hall]|[(v & i & s' & Hv & Hff & Hg & Hr')|(i & s' & Hv & Hff & Hg & Hr')]];
      eexists _, _, _, _; (split; [exact Hg|]); (split; [by econstructor|done]).
  - intros [Hspd Hus]. destruct (alias_run f s s_spd s_addr d_spd d_addr Hr Hspd Hus)
      as [[Hn Hg]|(i & p & Hi & [[Hsz Hg]|[Hsz [(v & s' & Hv & Hg & Hr')|(s' & Hv & Hg & Hr')]]])];
      eexists _, _, _, _; (split; [exact Hg|]); (split; [by econstructor|done]).
  - intros Hspd. destruct (f !! (spd, addr)) as [[i p]|] eqn:Hv.
    + destruct (revoke_run f s spd addr 0 i p Hr Hv) as (s' & Hg & Hr').
      eexists _, _, _, _. split; [by rewrite (bind_run _ _ _ _ _ Hg)|]. split; [by constructor|done].
    + eexists _, _, _, _. split.
      * unfold mman_revoke_page. erewrite bind_run; [|by rewrite (bind_run _ _ _ _ _ (find_unmapped _ _ _ _ Hr Hspd Hv))]. done.
      * split; [by constructor|]. by rewrite (prune_unmapped f s _ Hr Hv).
  - intros Hspd. destruct (f !! (spd, addr)) as [[i p]|] eqn:Hv.
    + destruct (release_page_run f s spd addr 0 i p Hr Hv) as (s' & Hg & Hr').
      eexists _, _, _, _. split; [by rewrite (bind_run _ _ _ _ _ Hg)|]. split; [by constructor|done].
    + pose proof (find_unmapped _ _ _ _ Hr Hspd Hv) as Hfu. eexists _, _, _, _. split.
      * unfold mman_release_page, mman_revoke_page. erewrite bind_run; [done|].
        erewrite bind_run; [|by rewrite (bind_run _ _ _ _ _ Hfu)]. by rewrite (bind_run _ _ _ _ _ Hfu).
      * split; [by constructor|]. by rewrite (prune_unmapped f s _ Hr Hv), delete_id.
Qed.

Fixpoint mops_run (ops : list mop) : M (mmstate K) (list Z) :=
  match ops with
  | [] => mret []
  | o :: ops => r ← mop_run o; rs ← mops_run ops; mret (r :: rs)
  end.

Inductive fsteps : forest → gset Z → list mop → list Z → forest → gset Z → Prop :=
| fsteps_nil f L : fsteps f L [] [] f L
| fsteps_cons f L o r f1 L1 ops rs f' L' : fstep f L o r f1 L1 → fsteps f1 L1 ops rs f' L' →
    fsteps f L (o :: ops) (r :: rs) f' L'.

Lemma mops_refine ops {L} f s : mrel L f s → Forall mop_ok ops →
  ∃ rs s' f' L', mops_run ops s = Done rs s' ∧ fsteps f L ops rs f' L' ∧ mrel L' f' s'.
Proof.
  intros Hr Hops. revert L f s Hr. induction Hops as [|o ops Ho Hops IH]; intros L f s Hr.
  - eexists _, _, _, _. split; [done|]. split; [constructor|done].
  - destruct (mop_refines f s o Hr Ho) as (r & s1 & f1 & L1 & Hrun & Hst & Hr1).
    destruct (IH _ _ _ Hr1) as (rs & s' & f' & L' & Hruns & Hsts & Hr').
    eexists _, _, _, _. split; [cbn; rewrite (bind_run _ _ _ _ _ Hrun), (bind_run _ _ _ _ _ Hruns); done|].
    split; [by econstructor|done].
Qed.

(** ** The start *)

(** The array [cells] is static, so it is zero before the first request. *)
Definition cells_init : list mem_cell :=
  replicate (Z.to_nat COS_MAX_MEMORY) (MkCell 0 (replicate (Z.to_nat MAX_ALIASES) (MkMi 0 0 0 0))).

Lemma mrel_init k : mk_inv k → (∀ spd addr, mk_usable spd addr → mk_maps k spd addr = None) →
  mrel ∅ ∅ (MkMm cells_init k).
Proof.
  intros Hk Hm. set (c0 := MkCell 0 (replicate (Z.to_nat MAX_ALIASES) (MkMi 0 0 0 0))).
  assert (Hc : ∀ i c, cells_init.[i] = Some c → c = c0).
  { intros i c [_ Hc]%zlookup_Some. by apply lookup_replicate in Hc as [-> _]. }
  assert (Hmi : ∀ j m, (mc_map c0).[j] = Some m → m = MkMi 0 0 0 0).
  { intros j m [_ Hj]%zlookup_Some. by apply lookup_replicate in Hj as [-> _]. }
  split; cbn [mm_cells mm_kern]; try done.
  - intros i c ->%Hc. split.
    + apply length_replicate.
    + by intros j m ->%Hmi.
    + by intros j m ->%Hmi.
    + by intros i' j m n ->%Hmi _ [].
    + by left.
  - by intros i c j m l ->%Hc ->%Hmi.
  - intros i c ->%Hc. cbn [mc_naliases]. set_solver.
Qed.

(** ** Where pages come from *)

(** Every place with an alias above it got it by a request, and a page has one
    root. *)
Record sourced (ops : list mop) (f : forest) : Prop := {
  so_edge : ∀ k i q p, f !! k = Some (i, q :: p) → f !! q = Some (i, p) ∧ MAlias q.1 q.2 k.1 k.2 ∈ ops;
  so_get : ∀ k i, f !! k = Some (i, []) → MGet k.1 k.2 ∈ ops;
  so_root : ∀ k k' i, f !! k = Some (i, []) → f !! k' = Some (i, []) → k = k'
}.

Lemma sourced_prune ops f k : sourced ops f → sourced ops (prune k f).
Proof.
  intros [He Hg Hr]. split.
  - intros q i x p [Hq Hn]%map_lookup_filter_Some. destruct (He _ _ _ _ Hq) as [Hx Ho]. split; [|done].
    apply map_lookup_filter_Some. split; [done|]. cbn in *. set_solver.
  - intros q i [Hq _]%map_lookup_filter_Some. by eapply Hg.
  - intros q q' i [Hq _]%map_lookup_filter_Some [Hq' _]%map_lookup_filter_Some. by eapply Hr.
Qed.

Lemma sourced_delete ops f k : (∀ q v, f !! q = Some v → k ∉ v.2) → sourced ops f → sourced ops (delete k f).
Proof.
  intros Hk [He Hg Hr]. split.
  - intros q i x p [_ Hq]%lookup_delete_Some. destruct (He _ _ _ _ Hq) as [Hx Ho]. split; [|done].
    apply lookup_delete_Some. split; [|done]. apply Hk in Hq. cbn in Hq. set_solver.
  - intros q i [_ Hq]%lookup_delete_Some. by eapply Hg.
  - intros q q' i [_ Hq]%lookup_delete_Some [_ Hq']%lookup_delete_Some. by eapply Hr.
Qed.

Lemma sourced_more ops ops' f : sourced ops f → sourced (ops ++ ops') f.
Proof.
  intros [He Hg Hr]. split; [| |done].
  - intros k i q p Hk. destruct (He _ _ _ _ Hk). split; [done|]. apply elem_of_app. by left.
  - intros k i Hk. apply elem_of_app. left. by eapply Hg.
Qed.

Lemma sourced_step ops f L o r f' L' : sourced ops f → fstep f L o r f' L' → sourced (ops ++ [o]) f'.
Proof.
  intros Hso Hst. pose proof (sourced_more _ [o] _ Hso) as [He Hg Hr].
  assert (Ho : o ∈ ops ++ [o]) by (apply elem_of_app; right; left).
  inversion Hst; subst; clear Hst; try (by split); try (by apply sourced_prune).
  - destruct H0 as (_ & Hnt & _).
    assert (Hfree : ∀ k p, f !! k ≠ Some (i, p)) by (intros k p ?; apply Hnt; right; eauto).
    split.
    + intros k j q p [[_ [=]]|[Hne Hk]]%lookup_insert_Some. destruct (He _ _ _ _ Hk) as [Hq ?]. split; [|done].
      rewrite lookup_insert_ne; [done|congruence].
    + intros k j [[<- _]|[_ Hk]]%lookup_insert_Some; [done|by eapply Hg].
    + intros k k' j [[<- Hj]|[_ Hk]]%lookup_insert_Some [[<- Hj']|[_ Hk']]%lookup_insert_Some; simplify_eq;
        [done|by destruct (Hfree _ _ Hk')|by destruct (Hfree _ _ Hk)|by eapply Hr].
  - split.
    + intros k j q p' [[<- [= <- <- <-]]|[Hne Hk]]%lookup_insert_Some.
      * split; [|done]. rewrite lookup_insert_ne; [done|congruence].
      * destruct (He _ _ _ _ Hk) as [Hq ?]. split; [|done]. rewrite lookup_insert_ne; [done|congruence].
    + intros k j [[_ [=]]|[_ Hk]]%lookup_insert_Some. by eapply Hg.
    + intros k k' j [[_ [=]]|[_ Hk]]%lookup_insert_Some [[_ [=]]|[_ Hk']]%lookup_insert_Some. by eapply Hr.
  - apply sourced_delete; [|by apply sourced_prune]. intros q v [_ Hq]%map_lookup_filter_Some. exact Hq.
Qed.

Lemma sourced_steps ops0 ops f L rs f' L' :
  sourced ops0 f → fsteps f L ops rs f' L' → sourced (ops0 ++ ops) f'.
Proof.
  intros Hso Hst. revert ops0 Hso. induction Hst as [|f L o r f1 L1 ops rs f' L' Ho Hst IH]; intros ops0 Hso.
  - by rewrite app_nil_r.
  - rewrite cons_middle, app_assoc. by eapply IH, sourced_step.
Qed.

(** The requests that make one place an alias of another. *)
Definition alias_of (ops : list mop) (k k' : place) : Prop := MAlias k.1 k.2 k'.1 k'.2 ∈ ops.

Lemma sourced_root ops f k i p : sourced ops f → f !! k = Some (i, p) →
  ∃ root, MGet root.1 root.2 ∈ ops ∧ f !! root = Some (i, []) ∧ rtc (alias_of ops) root k.
Proof.
  intros Hso. revert k. induction p as [|q p IH]; intros k Hk.
  - exists k. split; [by eapply (so_get _ _ Hso)|]. split; [done|constructor].
  - destruct (so_edge _ _ Hso _ _ _ _ Hk) as [Hq Ho]. destruct (IH q Hq) as (root & Hg & Hr & Hs).
    exists root. split; [done|]. split; [done|]. by eapply rtc_r.
Qed.

(** Two places with the same page have a common source. *)
Lemma sourced_common ops f k k' i p p' : sourced ops f → f !! k = Some (i, p) → f !! k' = Some (i, p') →
  ∃ root, MGet root.1 root.2 ∈ ops ∧ rtc (alias_of ops) root k ∧ rtc (alias_of ops) root k'.
Proof.
  intros Hso Hk Hk'. destruct (sourced_root _ _ _ _ _ Hso Hk) as (r & Hg & Hr & Hs).
  destruct (sourced_root _ _ _ _ _ Hso Hk') as (r' & _ & Hr' & Hs').
  rewrite (so_root _ _ Hso _ _ _ Hr' Hr) in Hs'. by exists r.
Qed.

Lemma sourced_init : sourced [] ∅.
Proof. by split. Qed.

(** ** What the requests achieve together *)

Lemma memman_run k ops : mk_inv k → (∀ spd addr, mk_usable spd addr → mk_maps k spd addr = None) →
  Forall mop_ok ops →
  ∃ rs s f L, mops_run ops (MkMm cells_init k) = Done rs s ∧ fsteps ∅ ∅ ops rs f L ∧ mk_inv (mm_kern s) ∧
    ∀ spd addr, mk_usable spd addr → mk_maps (mm_kern s) spd addr = fst <$> f !! (spd, addr).
Proof.
  intros Hk Hm Hops. destruct (mops_refine ops ∅ _ (mrel_init k Hk Hm) Hops) as (rs & s & f & L & Hrun & Hst & Hr).
  exists rs, s, f, L. split; [done|]. split; [done|]. split; apply Hr.
Qed.

Lemma memman_shared k ops rs s spd addr spd' addr' (c : Z) :
  mk_inv k → (∀ spd addr, mk_usable spd addr → mk_maps k spd addr = None) → Forall mop_ok ops →
  mops_run ops (MkMm cells_init k) = Done rs s → mk_usable spd addr → mk_usable spd' addr' →
  mk_maps (mm_kern s) spd addr = Some c → mk_maps (mm_kern s) spd' addr' = Some c →
  ∃ root, MGet root.1 root.2 ∈ ops ∧ rtc (alias_of ops) root (spd, addr) ∧ rtc (alias_of ops) root (spd', addr').
Proof.
  intros Hk Hm Hops Hrun Hu Hu' Hc Hc'.
  destruct (memman_run k ops Hk Hm Hops) as (rs' & s' & f & L & Hrun' & Hst & _ & Hmap).
  rewrite Hrun in Hrun'. injection Hrun' as <- <-.
  rewrite Hmap in Hc, Hc' by done. pose proof (sourced_steps [] _ _ _ _ _ _ sourced_init Hst) as Hso.
  destruct (f !! (spd, addr)) as [[i p]|] eqn:Hf; [|done]. destruct (f !! (spd', addr')) as [[i' p']|] eqn:Hf'; [|done].
  cbn in Hc, Hc'. simplify_eq. by eapply sourced_common.
Qed.

(** The specification leaves nothing open. *)
Lemma first_free_fun f L i j : first_free f L i → first_free f L j → i = j.
Proof.
  intros (Hi & Hni & Hbi) (Hj & Hnj & Hbj). destruct (decide (i < j)) as [Hlt|]; [by destruct Hni; apply Hbj; lia|].
  destruct (decide (j < i)) as [Hlt|]; [by destruct Hnj; apply Hbi; lia|lia].
Qed.

Lemma fstep_fun f L o r f1 L1 r' f1' L1' :
  fstep f L o r f1 L1 → fstep f L o r' f1' L1' → r = r' ∧ f1 = f1' ∧ L1 = L1'.
Proof.
  destruct 1 as [spd addr i Hv Hi|spd addr i v Hv Hi|spd addr Hall| | | | | |]; inversion 1; simplify_eq; try done; try lia.
  all: repeat match goal with
    | Hi : first_free _ _ ?i, Hj : first_free _ _ ?j |- _ =>
        assert_fails (constr_eq i j); pose proof (first_free_fun _ _ _ _ Hi Hj); subst
    | Hi : first_free _ _ ?i, Hall : ∀ i, _ → taken _ _ i |- _ =>
        destruct Hi as (? & [] & _); by apply Hall
    end; done.
Qed.

(** The places above a place. *)
Definition above (f : forest) (k : place) : list place := from_option snd [] (f !! k).

Lemma release_effect k ops rs s1 spd addr :
  mk_inv k → (∀ spd addr, mk_usable spd addr → mk_maps k spd addr = None) → Forall mop_ok ops →
  mops_run ops (MkMm cells_init k) = Done rs s1 → spd ≠ 0 →
  ∃ f L s2, fsteps ∅ ∅ ops rs f L ∧ mop_run (MRelease spd addr) s1 = Done 0 s2 ∧
    ∀ spd' addr', mk_usable spd' addr' → mk_maps (mm_kern s2) spd' addr' =
      if decide ((spd', addr') = (spd, addr) ∨ (spd, addr) ∈ above f (spd', addr'))
      then None else mk_maps (mm_kern s1) spd' addr'.
Proof.
  intros Hk Hm Hops Hrun Hspd.
  destruct (mops_refine ops ∅ _ (mrel_init k Hk Hm) Hops) as (rs' & s' & f & L & Hrun' & Hst & Hr).
  rewrite Hrun in Hrun'. injection Hrun' as <- <-.
  destruct (mop_refines f s1 (MRelease spd addr) Hr Hspd) as (r & s2 & f2 & L2 & Hrel & Hf2 & Hr2).
  inversion Hf2; subst. exists f, L2, s2. split; [done|]. split; [done|]. intros sp ad Hus.
  rewrite (mr_maps _ _ _ Hr2 _ _ Hus), (mr_maps _ _ _ Hr _ _ Hus), lookup_delete. unfold above, prune.
  rewrite map_lookup_filter. case_decide as Heq.
  - by rewrite decide_True by auto.
  - destruct (f !! (sp, ad)) as [v|]; cbn.
    + case_guard; cbn.
      * rewrite decide_False; [done|]. cbn in *. naive_solver.
      * rewrite decide_True; [done|]. right. by destruct (decide ((spd, addr) ∈ v.2)).
    + by case_decide.
Qed.

(** ** What the manager gets wrong *)

(** A request for a place that is taken keeps a page for good: nothing is mapped
    and no later request gets it. *)
Lemma failed_get_loses {L} f s spd addr v : mrel L f s → mk_usable spd addr → f !! (spd, addr) = Some v →
  (∀ i, 0 ≤ i < COS_MAX_MEMORY → taken f L i) ∨
  ∃ i s', first_free f L i ∧ mop_run (MGet spd addr) s = Done 0 s' ∧ mrel ({[i]} ∪ L) f s'.
Proof.
  intros Hr Hus Hv. destruct (mm_get_page_run f s spd addr 0 Hr Hus) as [[_ ?]|[(w & i & s' & _ & Hi & Hg & Hr')|(i & s' & ? & _)]];
    [by left|right; by exists i, s'|congruence].
Qed.

(** The unused entries look like a mapping of component 0 at address 0: an alias
    of that place hands out page 0, which nobody has asked for. *)
Lemma alias_of_nothing k spd addr : mk_inv k → mk_usable spd addr → mk_maps k spd addr = None →
  ∃ s', mman_alias_page cntl 0 0 spd addr (MkMm cells_init k) = Done addr s' ∧
    mk_maps (mm_kern s') spd addr = Some 0.
Proof.
  intros Hk Hus Hm. destruct (mk_grant k spd addr 0 Hk Hus Hm ltac:(done)) as (k' & Hg & _ & Hmk).
  eexists (MkMm _ k'). split; [|cbn [mm_kern]; rewrite Hmk by done; by rewrite decide_True].
  unfold mman_alias_page. erewrite bind_run; [|reflexivity]. cbn [mm_cells].
  replace (cell_scan 0 0 cells_init 0) with (Some (0, 0)) by (by vm_compute). cbn iota.
  set (s := MkMm cells_init k). set (c0 := MkCell 0 (replicate (Z.to_nat MAX_ALIASES) (MkMi 0 0 0 0))).
  assert (Hc : (mm_cells s).[0] = Some c0) by (by vm_compute).
  erewrite bind_run; [|reflexivity]. rewrite (bind_run _ _ _ _ _ (get_cell_run _ _ _ Hc)).
  replace (slot_scan 0 (mc_map c0) 0) with (Some 1) by (by vm_compute). cbn iota. erewrite bind_run; [|apply syscall_run, Hg].
  change (negb (0 =? 0)) with false. cbn iota.
  assert (Hm1 : (mc_map c0).[1] = Some (MkMi 0 0 0 0)) by (by vm_compute).
  erewrite bind_run; [|by eapply upd_mi_run]. erewrite bind_run; [|eapply upd_naliases_run; by eapply at_cell].
  reflexivity.
Qed.

(** The marks of [mman_print_stats] are never taken away: when all entries are
    marked, as a call leaves them, it prints nothing. *)
Lemma stats_row_marked fuel s k l c : (mm_cells s).[k] = Some c →
  (∀ j m, (mc_map c).[j] = Some m → has (mi_flags m) MEM_MARKED = true) →
  0 ≤ l → l + Z.of_nat fuel ≤ Z.of_nat (length (mc_map c)) → stats_row fuel k l s = Done [] s.
Proof.
  intros Hc Hall. revert l. induction fuel as [|fuel IH]; intros l Hl Hf; [done|]. cbn [stats_row].
  destruct (zlookup_is_Some (mc_map c) l) as [m Hm]; [lia|].
  rewrite (bind_run _ _ _ _ _ (get_mi_run _ _ _ _ _ Hc Hm)), (Hall _ _ Hm). apply IH; lia.
Qed.

Lemma stats_marked s :
  length (mm_cells s) = Z.to_nat COS_MAX_MEMORY →
  (∀ i c, (mm_cells s).[i] = Some c → length (mc_map c) = Z.to_nat MAX_ALIASES ∧
     ∀ j m, (mc_map c).[j] = Some m → has (mi_flags m) MEM_MARKED = true) →
  mman_print_stats s = Done [] s.
Proof.
  intros Hlen Hall. unfold mman_print_stats. set (n := Z.to_nat COS_MAX_MEMORY) in *.
  assert (Hk : ∀ fuel k, 0 ≤ k → k + Z.of_nat fuel ≤ Z.of_nat n → stats_rows fuel k s = Done [] s).
  { induction fuel as [|fuel IH]; intros k Hk Hf; [done|]. cbn [stats_rows].
    destruct (zlookup_is_Some (mm_cells s) k) as [c Hc]; [lia|]. destruct (Hall _ _ Hc) as [Hm Hmk].
    rewrite (bind_run _ _ _ _ _ (stats_row_marked (Z.to_nat MAX_ALIASES) _ _ 0 _ Hc Hmk ltac:(lia) ltac:(rewrite Hm; lia))).
    erewrite bind_run; [|apply IH; lia]. done. }
  apply Hk; lia.
Qed.
End Refinement.
