(* ===== verification/MemManKern.v ===== *)
(** * The memory manager on the kernel

    The system call of Syscall.v keeps what the class [MmapKernel] of
    MemManInv.v asks for, so the theorems on the manager hold with the page
    tables of the kernel below it: what a component sees at an address is found
    by walking its page table. *)

From stdpp Require Import base list numbers option gmap.
From S2P Require Import Prelude Kern PageMem Vas Mpd Thread Ipc Sched Syscall SyscallInv MemMan MemManInv.

(** ** The stub *)

(** [cos_mmap_cntl] packs its arguments into the three of the system call of
    component [me]. *)
Definition cos_mmap_cntl (me op flags dest_spd dest_addr mem_id : Z) : K Z :=
  cos_syscall_mmap_cntl me
    (Z.lor (Z.lor (Z.shiftl op 24) (Z.shiftl flags 16)) dest_spd) dest_addr mem_id.

Lemma stub_arg op i : (0 ≤ op)%Z → i < MAX_NUM_SPDS →
  Z.lor (Z.lor (Z.shiftl op 24) (Z.shiftl 0 16)) (Z.of_nat i) = mmap_arg op i.
Proof.
  intros Hop Hi. unfold MAX_NUM_SPDS in Hi. rewrite Z.shiftl_0_l, Z.lor_0_r. unfold mmap_arg.
  rewrite <- Z.shiftl_mul_pow2 by lia.
  assert (Hl : Z.land (Z.shiftl op 24) (Z.of_nat i) = 0%Z).
  { apply Z.bits_inj'. intros n Hn. rewrite Z.land_spec, Z.bits_0.
    destruct (decide (n < 24)%Z) as [Hlt|Hge]; [by rewrite Z.shiftl_spec_low|].
    rewrite andb_comm. replace (Z.of_nat i) with (Z.of_nat i mod 2 ^ 24)%Z by (apply Z.mod_small; lia).
    by rewrite Z.mod_pow2_bits_high by lia. }
  by rewrite Z.add_nocarry_lxor, Z.lxor_lor.
Qed.

(** ** What a component sees *)

(** The frame at an address of a component, through its page table. *)
Definition walk (s : kstate) (spd addr : Z) : option Z :=
  x ← k_spds s !! Z.to_nat spd;
  match pgtbl_lookup_address (p_pg_tbl (s_info x)) addr s with
  | Done (Some (t, e)) _ =>
      p ← k_mem s !! t;
      w ← p.[e];
      if has w PG_PRESENT then Some (PTE_MASK w) else None
  | _ => None
  end.

(** The number of the memory page there. *)
Definition sees (s : kstate) (spd addr : Z) : option Z :=
  paddr_scan (k_pages s) 0 <$> walk s spd addr.

(** ** The places that can be mapped *)

(** A place has its component and the table page and entry that its address
    leads to. *)
Abbreviation slots := (gmap (Z * Z) (nat * spd * Z * Z)).

Section Kernel.
Variable E : slots.

Definition dir_entry (m : gmap Z (list Z)) (pt addr t : Z) : Prop :=
  ∃ d w, m !! pt = Some d ∧ d.[pgd_index addr] = Some w ∧ w ≠ 0%Z ∧
    has w PG_PSE && has w PG_PRESENT = false ∧ PTE_MASK w = t.

(** A table entry is empty or maps a memory page. *)
Definition entry_of (pages : list Z) (w : Z) : Prop :=
  w = 0%Z ∨ ∃ c pa, pages.[c] = Some pa ∧ pa ≠ 0%Z ∧ w = Z.lor pa PG_USER_RW.

Definition unnamed (pages : list Z) : nat := length (filter (λ pa, pa = 0%Z) pages).

Record kinv (s : kstate) : Prop := {
  ki_own : ∀ spd addr i x t e, E !! (spd, addr) = Some (i, x, t, e) →
    spd = Z.of_nat i ∧ owns_addr s i x addr;
  ki_dir : ∀ spd addr i x t e, E !! (spd, addr) = Some (i, x, t, e) →
    dir_entry (k_mem s) (p_pg_tbl (s_info x)) addr t ∧ e = pte_index addr;
  ki_tab : ∀ spd addr i x t e, E !! (spd, addr) = Some (i, x, t, e) →
    ∃ p w, k_mem s !! t = Some p ∧ p.[e] = Some w ∧ entry_of (k_pages s) w;
  ki_inj : ∀ k k' i i' x x' t e, E !! k = Some (i, x, t, e) → E !! k' = Some (i', x', t, e) → k = k';
  ki_sep : ∀ k k' i i' x x' t t' e e', E !! k = Some (i, x, t, e) → E !! k' = Some (i', x', t', e') →
    t ≠ p_pg_tbl (s_info x');
  ki_kern : ∀ k i x t e page, E !! k = Some (i, x, t, e) → page ∈ k_host_free s →
    va_to_pa page ≠ t ∧ va_to_pa page ≠ p_pg_tbl (s_info x);
  ki_user : ∀ k i x t e c pa, E !! k = Some (i, x, t, e) → (k_pages s).[c] = Some pa → pa ≠ 0%Z →
    pa ≠ t ∧ pa ≠ p_pg_tbl (s_info x);
  ki_pages : pages_ok s;
  ki_frames : ∀ c pa, (k_pages s).[c] = Some pa → PTE_MASK pa = pa;
  ki_host : ∀ page, page ∈ k_host_free s → PTE_MASK (va_to_pa page) = va_to_pa page;
  ki_supply : unnamed (k_pages s) ≤ length (k_host_free s)
}.

Lemma dir_lookup s pt addr t :
  dir_entry (k_mem s) pt addr t → pgtbl_lookup_address pt addr s = Done (Some (t, pte_index addr)) s.
Proof.
  intros (d & w & Hd & Hw & Hnz & Hps & <-). unfold pgtbl_lookup_address.
  rewrite (bind_run _ _ _ _ _ (get_word_run _ _ _ _ _ Hd Hw)).
  by rewrite (proj2 (Z.eqb_neq _ _) Hnz), Hps.
Qed.

Lemma walk_place s spd addr i x t e p w :
  kinv s → E !! (spd, addr) = Some (i, x, t, e) → k_mem s !! t = Some p → p.[e] = Some w →
  walk s spd addr = if has w PG_PRESENT then Some (PTE_MASK w) else None.
Proof.
  intros Hk He Hp Hw. destruct (ki_own _ Hk _ _ _ _ _ _ He) as (-> & Hown).
  destruct (ki_dir _ Hk _ _ _ _ _ _ He) as [Hd ->]. unfold walk. rewrite Nat2Z.id, (oa_spd _ _ _ _ Hown). cbn.
  rewrite (dir_lookup _ _ _ _ Hd). rewrite Hp. cbn. by rewrite Hw.
Qed.

Lemma sees_empty s spd addr i x t e p :
  kinv s → E !! (spd, addr) = Some (i, x, t, e) → k_mem s !! t = Some p → p.[e] = Some 0%Z →
  sees s spd addr = None.
Proof. intros Hk He Hp Hw. unfold sees. by rewrite (walk_place _ _ _ _ _ _ _ _ _ Hk He Hp Hw). Qed.

Lemma frame_mask s c pa : kinv s → (k_pages s).[c] = Some pa → PTE_MASK (Z.lor pa PG_USER_RW) = pa.
Proof. intros Hk Hc. apply PTE_MASK_low; [unfold PG_USER_RW; lia|]. by eapply (ki_frames _ Hk). Qed.

Lemma sees_page s spd addr i x t e p c pa :
  kinv s → E !! (spd, addr) = Some (i, x, t, e) → k_mem s !! t = Some p → p.[e] = Some (Z.lor pa PG_USER_RW) →
  (k_pages s).[c] = Some pa → pa ≠ 0%Z → sees s spd addr = Some c ∧ walk s spd addr = Some pa.
Proof.
  intros Hk He Hp Hw Hc Hnz. unfold sees. rewrite (walk_place _ _ _ _ _ _ _ _ _ Hk He Hp Hw).
  rewrite has_present_lor, (frame_mask _ _ _ Hk Hc). split; [|done]. cbn. f_equal.
  rewrite (paddr_scan_spec _ 0 _ c Hc); [lia|]. intros d Hd. by eapply (pg_inj _ (ki_pages _ Hk)).
Qed.

(** The entry of a place, by what is seen there. *)
Lemma sees_entry s spd addr i x t e :
  kinv s → E !! (spd, addr) = Some (i, x, t, e) → ∃ p w, k_mem s !! t = Some p ∧ p.[e] = Some w ∧
    match sees s spd addr with
    | None => w = 0%Z
    | Some c => ∃ pa, (k_pages s).[c] = Some pa ∧ pa ≠ 0%Z ∧ w = Z.lor pa PG_USER_RW
    end.
Proof.
  intros Hk He. destruct (ki_tab _ Hk _ _ _ _ _ _ He) as (p & w & Hp & Hw & [->|(c & pa & Hc & Hnz & ->)]);
    eexists p, _; (split; [done|]); (split; [done|]).
  - by rewrite (sees_empty _ _ _ _ _ _ _ _ Hk He Hp Hw).
  - destruct (sees_page _ _ _ _ _ _ _ _ _ _ Hk He Hp Hw Hc Hnz) as [-> _]. by exists pa.
Qed.

(** The same entry shows the same page. *)
Lemma sees_ext s s' spd addr i x t e p p' :
  kinv s → kinv s' → E !! (spd, addr) = Some (i, x, t, e) →
  (∀ c pa, (k_pages s).[c] = Some pa → pa ≠ 0%Z → (k_pages s').[c] = Some pa) →
  k_mem s !! t = Some p → k_mem s' !! t = Some p' → p'.[e] = p.[e] → sees s' spd addr = sees s spd addr.
Proof.
  intros Hk Hk' He Hpg Hp Hp' Hpe. destruct (sees_entry _ _ _ _ _ _ _ Hk He) as (q & w & Hq & Hw & Hs). simplify_eq.
  rewrite Hw in Hpe. destruct (sees s spd addr) as [c|].
  - destruct Hs as (pa & Hc & Hnz & ->). by apply (sees_page _ _ _ _ _ _ _ _ _ _ Hk' He Hp' Hpe (Hpg _ _ Hc Hnz)).
  - subst w. by apply (sees_empty _ _ _ _ _ _ _ _ Hk' He Hp' Hpe).
Qed.

(** Writing an entry. *)
Lemma kinv_word s spd addr i x t e p w0 w :
  kinv s → E !! (spd, addr) = Some (i, x, t, e) → k_mem s !! t = Some p → p.[e] = Some w0 →
  entry_of (k_pages s) w → kinv (word_set t e w p s).
Proof.
  intros Hk He Hp Hw Hof. pose proof Hk as [Ho Hd Ht Hi Hse Hke Hus Hpg Hfr Hh Hsu]. split; try done.
  - intros spd' addr' i' x' t' e' He'. destruct (Ho _ _ _ _ _ _ He') as (-> & Hown). split; [done|by destruct Hown].
  - intros spd' addr' i' x' t' e' He'. destruct (Hd _ _ _ _ _ _ He') as [(d & v & Hdd & Hdw) ->]. split; [|done].
    exists d, v. split; [|done]. cbn. rewrite lookup_insert_ne; [done|]. by eapply Hse.
  - intros spd' addr' i' x' t' e' He'. destruct (Ht _ _ _ _ _ _ He') as (q & v & Hq & Hv & Hov). cbn.
    destruct (decide (t' = t)) as [->|Hne]; [|exists q, v; by rewrite lookup_insert_ne].
    rewrite lookup_insert_eq. simplify_eq.
    exists (p.[e := w]). rewrite (zlookup_zinsert _ _ _ _ _ Hw). case_decide; eauto.
  - destruct Hpg. by split.
Qed.

Lemma sees_word s spd addr i x t e p w0 w spd' addr' :
  kinv s → E !! (spd, addr) = Some (i, x, t, e) → k_mem s !! t = Some p → p.[e] = Some w0 →
  entry_of (k_pages s) w → is_Some (E !! (spd', addr')) → (spd', addr') ≠ (spd, addr) →
  sees (word_set t e w p s) spd' addr' = sees s spd' addr'.
Proof.
  intros Hk He Hp Hw Hof [[[[i' x'] t'] e'] He'] Hne.
  pose proof (kinv_word _ _ _ _ _ _ _ _ _ _ Hk He Hp Hw Hof) as Hk'.
  destruct (ki_tab _ Hk _ _ _ _ _ _ He') as (q & v & Hq & Hv & _). destruct (decide (t' = t)) as [->|Ht].
  - simplify_eq. apply (sees_ext s _ _ _ _ _ _ _ _ (p.[e := w]) Hk Hk' He' ltac:(done) Hp); [by apply lookup_insert_eq|].
    rewrite zlookup_zinsert_ne; [done|]. intros ->. apply Hne. by eapply (ki_inj _ Hk).
  - apply (sees_ext s _ _ _ _ _ _ _ _ q Hk Hk' He' ltac:(done) Hq); [|done]. cbn. by rewrite lookup_insert_ne.
Qed.

(** Naming a page. *)
Lemma unnamed_insert l c pa : l.[c] = Some 0%Z → pa ≠ 0%Z → S (unnamed (l.[c := pa])) = unnamed l.
Proof.
  intros [Hz Hc]%zlookup_Some Hpa. unfold unnamed, zinsert. destruct (Z.ltb_spec c 0); [lia|].
  revert Hc. generalize (Z.to_nat c). induction l as [|a l IH]; intros n; [done|].
  destruct n as [|n]; cbn [lookup list_lookup insert list_insert].
  - intros [= ->]. rewrite filter_cons_False by done. by rewrite filter_cons_True.
  - intros Hc. specialize (IH _ Hc). rewrite !filter_cons. case_decide; [cbn [length]; by rewrite <- IH|done].
Qed.

Lemma access_miss_run s c page rest :
  (c < Z.of_nat Kern.COS_MAX_MEMORY)%Z → (k_pages s).[c] = Some 0%Z → k_host_free s = page :: rest →
  cos_access_page c s = Done (va_to_pa page)
    (set_k_pages ((k_pages s).[c := va_to_pa page])
      (set_k_mem (<[va_to_pa page := replicate PGD_PER_PTBL 0%Z]> (k_mem s)) (set_k_host_free rest s))).
Proof.
  intros Hlt Hc Hh. unfold cos_access_page.
  destruct (Z.ltb_spec (Z.of_nat Kern.COS_MAX_MEMORY) c); [lia|].
  erewrite bind_run by reflexivity. rewrite Hc. erewrite bind_run by reflexivity. cbn [Z.eqb].
  erewrite bind_run; [|unfold cos_alloc_page; erewrite bind_run by reflexivity; rewrite Hh; reflexivity]. done.
Qed.

Lemma kinv_miss s c page rest :
  kinv s → (k_pages s).[c] = Some 0%Z → k_host_free s = page :: rest →
  let s' := set_k_pages ((k_pages s).[c := va_to_pa page])
    (set_k_mem (<[va_to_pa page := replicate PGD_PER_PTBL 0%Z]> (k_mem s)) (set_k_host_free rest s)) in
  va_to_pa page ≠ 0%Z ∧ kinv s' ∧ ∀ spd addr, is_Some (E !! (spd, addr)) → sees s' spd addr = sees s spd addr.
Proof.
  intros Hk Hc Hh s'. pose proof Hk as [Ho Hd Ht Hi Hse Hke Hus Hpg Hfr Hho Hsu].
  assert (Hin : page ∈ k_host_free s) by (rewrite Hh; left).
  assert (Hrest : ∀ q, q ∈ rest → q ∈ k_host_free s) by (intros q ?; rewrite Hh; by right).
  assert (Hnz : va_to_pa page ≠ 0%Z) by (by apply (pg_fresh _ Hpg c _ page Hc)).
  assert (Hnew : ∀ d pa, (k_pages s).[d] = Some pa → pa ≠ 0%Z → (k_pages s').[d] = Some pa).
  { intros d pa Hdp Hpn. cbn. rewrite zlookup_zinsert_ne; [done|]. intros ->. congruence. }
  assert (Hk' : kinv s').
  { split; try done; cbn.
    - intros spd' addr' i' x' t' e' He'. destruct (Ho _ _ _ _ _ _ He') as (-> & Hown). split; [done|by destruct Hown].
    - intros spd' addr' i' x' t' e' He'. destruct (Hd _ _ _ _ _ _ He') as [(d & v & Hdd & Hdw) ->]. split; [|done].
      exists d, v. split; [|done]. rewrite lookup_insert_ne; [done|]. by eapply Hke.
    - intros spd' addr' i' x' t' e' He'. destruct (Ht _ _ _ _ _ _ He') as (q & v & Hq & Hv & Hov). exists q, v.
      rewrite lookup_insert_ne by (by eapply Hke). split_and!; try done.
      destruct Hov as [->|(d & pa & Hdp & Hpn & ->)]; [by left|right]. exists d, pa. split_and!; try done. by apply Hnew.
    - intros k i x t e q He Hq. eapply Hke; eauto.
    - intros k i x t e d pa He. rewrite (zlookup_zinsert _ _ _ _ _ Hc). case_decide.
      + intros [= <-] _. by eapply Hke.
      + by eapply Hus.
    - by eapply (pages_ok_named s).
    - intros d pa. rewrite (zlookup_zinsert _ _ _ _ _ Hc). case_decide; [intros [= <-]; by apply Hho|apply Hfr].
    - intros q Hq. apply Hho. eauto.
    - rewrite Hh in Hsu. cbn [length] in Hsu. pose proof (unnamed_insert _ _ _ Hc Hnz) as Hun.
      change (unnamed ((k_pages s).[c := va_to_pa page]) ≤ length rest). lia. }
  split; [done|]. split; [done|]. intros spd addr [[[[i x] t] e] He].
  destruct (Ht _ _ _ _ _ _ He) as (q & v & Hq & Hv & _).
  apply (sees_ext s s' _ _ _ _ _ _ q q Hk Hk' He Hnew Hq); [|done]. cbn. rewrite lookup_insert_ne; [done|]. by eapply Hke.
Qed.

Lemma kinv_access s c : kinv s → (0 ≤ c < COS_MAX_MEMORY)%Z →
  ∃ pa s1, cos_access_page c s = Done pa s1 ∧ kinv s1 ∧ (k_pages s1).[c] = Some pa ∧ pa ≠ 0%Z ∧
    ∀ spd addr, is_Some (E !! (spd, addr)) → sees s1 spd addr = sees s spd addr.
Proof.
  intros Hk Hc. change COS_MAX_MEMORY with (Z.of_nat Kern.COS_MAX_MEMORY) in Hc.
  assert (Hex : is_Some ((k_pages s).[c])).
  { apply zlookup_is_Some. rewrite (pg_size _ (ki_pages _ Hk)). lia. }
  destruct Hex as [pa Hpa]. destruct (decide (pa = 0%Z)) as [->|Hnz].
  - destruct (k_host_free s) as [|page rest] eqn:Hh.
    { pose proof (ki_supply _ Hk) as Hs. rewrite Hh in Hs.
      pose proof (unnamed_insert _ _ 1 Hpa ltac:(done)) as Hu. cbn [length] in Hs. lia. }
    destruct (kinv_miss s c page rest Hk Hpa Hh) as (Hnz & Hk' & Hsee).
    eexists _, _. split; [by apply access_miss_run; [lia| |]|]. split; [done|].
    split; [by eapply zlookup_zinsert_eq|done].
  - exists pa, s. split; [by apply access_page_hit; [lia| |]|done].
Qed.

Context (me : Z).

(** [cos_mmap_cntl] up to the operation. *)
Lemma stub_start s spd addr i x t e op m :
  kinv s → E !! (spd, addr) = Some (i, x, t, e) → (0 ≤ op < 128)%Z →
  cos_mmap_cntl me op 0 spd addr m s = cos_syscall_mmap_cntl me (mmap_arg op i) addr m s ∧
  owns_addr s i x addr.
Proof.
  intros Hk He Hop. destruct (ki_own _ Hk _ _ _ _ _ _ He) as (-> & Hown).
  split; [|done]. unfold cos_mmap_cntl. rewrite stub_arg; [done|lia|apply Hown].
Qed.

Lemma place_entry s spd addr i x t e p w :
  kinv s → E !! (spd, addr) = Some (i, x, t, e) → k_mem s !! t = Some p → p.[e] = Some w →
  pgtbl_lookup_address (p_pg_tbl (s_info x)) addr s = Done (Some (t, e)) s ∧ get_word t e s = Done w s.
Proof.
  intros Hk He Hp Hw. destruct (ki_dir _ Hk _ _ _ _ _ _ He) as [Hd ->].
  split; [by apply dir_lookup|by eapply get_word_run].
Qed.

Lemma grant_empty s spd addr c :
  kinv s → is_Some (E !! (spd, addr)) → sees s spd addr = None → (0 ≤ c < COS_MAX_MEMORY)%Z →
  ∃ s', cos_mmap_cntl me MemMan.COS_MMAP_GRANT 0 spd addr c s = Done 0%Z s' ∧ kinv s' ∧
    ∀ spd' addr', is_Some (E !! (spd', addr')) →
      sees s' spd' addr' = if decide ((spd', addr') = (spd, addr)) then Some c else sees s spd' addr'.
Proof.
  intros Hk [[[[i x] t] e] He] Hno Hc.
  destruct (stub_start s spd addr i x t e MemMan.COS_MMAP_GRANT c Hk He ltac:(unfold MemMan.COS_MMAP_GRANT; lia)) as [-> Hown].
  rewrite (mmap_start _ _ _ _ _ _ _ Hown) by (unfold MemMan.COS_MMAP_GRANT; lia). cbn [Z.eqb MemMan.COS_MMAP_GRANT Syscall.COS_MMAP_GRANT].
  destruct (kinv_access s c Hk Hc) as (pa & s1 & Hacc & Hk1 & Hpa & Hnz & Hsee).
  rewrite (bind_run _ _ _ _ _ Hacc), (proj2 (Z.eqb_neq pa 0) Hnz).
  destruct (sees_entry _ _ _ _ _ _ _ Hk1 He) as (p & w & Hp & Hw & Hs). rewrite Hsee, Hno in Hs by (by eexists). subst w.
  destruct (place_entry _ _ _ _ _ _ _ _ _ Hk1 He Hp Hw) as [Hlk Hgw].
  assert (Hof : entry_of (k_pages s1) (Z.lor pa PG_USER_RW)) by (right; eauto).
  exists (word_set t e (Z.lor pa PG_USER_RW) p s1). split.
  - unfold pgtbl_add_entry. erewrite bind_run.
    2: { rewrite (bind_run _ _ _ _ _ Hlk), (bind_run _ _ _ _ _ Hgw). change (has 0 PG_PRESENT) with false. cbn iota.
         by rewrite (bind_run _ _ _ _ _ (put_word_run _ _ _ _ _ _ Hp Hw)). }
    done.
  - pose proof (kinv_word _ _ _ _ _ _ _ _ _ _ Hk1 He Hp Hw Hof) as Hk2. split; [done|].
    intros spd' addr' Hu. case_decide as Heq.
    + injection Heq as -> ->. apply (sees_page _ _ _ _ _ _ _ (p.[e := Z.lor pa PG_USER_RW]) c pa Hk2 He); try done.
      * by apply lookup_insert_eq.
      * by eapply zlookup_zinsert_eq.
    + rewrite <- Hsee by done. by eapply sees_word.
Qed.

Lemma grant_mapped s spd addr c d :
  kinv s → is_Some (E !! (spd, addr)) → sees s spd addr = Some d → (0 ≤ c < COS_MAX_MEMORY)%Z →
  ∃ s', cos_mmap_cntl me MemMan.COS_MMAP_GRANT 0 spd addr c s = Done (-1)%Z s' ∧ kinv s' ∧
    ∀ spd' addr', is_Some (E !! (spd', addr')) → sees s' spd' addr' = sees s spd' addr'.
Proof.
  intros Hk [[[[i x] t] e] He] Hd Hc.
  destruct (stub_start s spd addr i x t e MemMan.COS_MMAP_GRANT c Hk He ltac:(unfold MemMan.COS_MMAP_GRANT; lia)) as [-> Hown].
  rewrite (mmap_start _ _ _ _ _ _ _ Hown) by (unfold MemMan.COS_MMAP_GRANT; lia). cbn [Z.eqb MemMan.COS_MMAP_GRANT Syscall.COS_MMAP_GRANT].
  destruct (kinv_access s c Hk Hc) as (pa & s1 & Hacc & Hk1 & Hpa & Hnz & Hsee).
  rewrite (bind_run _ _ _ _ _ Hacc), (proj2 (Z.eqb_neq pa 0) Hnz).
  destruct (sees_entry _ _ _ _ _ _ _ Hk1 He) as (p & w & Hp & Hw & Hs). rewrite Hsee, Hd in Hs by (by eexists).
  destruct Hs as (pa' & _ & _ & ->). destruct (place_entry _ _ _ _ _ _ _ _ _ Hk1 He Hp Hw) as [Hlk Hgw].
  exists s1. split; [|done]. unfold pgtbl_add_entry. erewrite bind_run.
  2: { by rewrite (bind_run _ _ _ _ _ Hlk), (bind_run _ _ _ _ _ Hgw), has_present_lor. }
  done.
Qed.

Lemma revoke_mapped s spd addr c :
  kinv s → is_Some (E !! (spd, addr)) → sees s spd addr = Some c →
  ∃ s', cos_mmap_cntl me MemMan.COS_MMAP_REVOKE 0 spd addr 0 s = Done c s' ∧ kinv s' ∧
    ∀ spd' addr', is_Some (E !! (spd', addr')) →
      sees s' spd' addr' = if decide ((spd', addr') = (spd, addr)) then None else sees s spd' addr'.
Proof.
  intros Hk [[[[i x] t] e] He] Hc.
  destruct (stub_start s spd addr i x t e MemMan.COS_MMAP_REVOKE 0 Hk He ltac:(unfold MemMan.COS_MMAP_REVOKE; lia)) as [-> Hown].
  rewrite (mmap_start _ _ _ _ _ _ _ Hown) by (unfold MemMan.COS_MMAP_REVOKE; lia).
  cbn [Z.eqb Pos.eqb MemMan.COS_MMAP_REVOKE Syscall.COS_MMAP_GRANT Syscall.COS_MMAP_REVOKE].
  destruct (sees_entry _ _ _ _ _ _ _ Hk He) as (p & w & Hp & Hw & Hs). rewrite Hc in Hs.
  destruct Hs as (pa & Hpa & Hnz & ->). destruct (place_entry _ _ _ _ _ _ _ _ _ Hk He Hp Hw) as [Hlk Hgw].
  assert (Hof : entry_of (k_pages s) 0) by (by left).
  pose proof (kinv_word _ _ _ _ _ _ _ _ _ _ Hk He Hp Hw Hof) as Hk2.
  exists (word_set t e 0 p s). split.
  - unfold pgtbl_rem_ret. erewrite bind_run.
    2: { rewrite (bind_run _ _ _ _ _ Hlk), (bind_run _ _ _ _ _ Hgw), has_present_lor. cbn [negb].
         rewrite (bind_run _ _ _ _ _ (put_word_run _ _ _ _ _ _ Hp Hw)). reflexivity. }
    rewrite (frame_mask _ _ _ Hk Hpa), (proj2 (Z.eqb_neq pa 0) Hnz).
    exact (paddr_to_cap_of (word_set t e 0 p s) c pa (ki_pages _ Hk2) Hpa Hnz).
  - split; [done|]. intros spd' addr' Hu. case_decide as Heq; [|by eapply sees_word].
    injection Heq as -> ->. apply (sees_empty _ _ _ _ _ _ _ (p.[e := 0%Z]) Hk2 He); [by apply lookup_insert_eq|].
    by eapply zlookup_zinsert_eq.
Qed.

Definition mappable (spd addr : Z) : Prop := is_Some (E !! (spd, addr)) ∧ spd ≠ 0%Z ∧ addr ≠ 0%Z.

#[export] Instance kernel_mmap : MmapKernel (cos_mmap_cntl me).
Proof.
  refine {| mk_inv := kinv; mk_maps := sees;
    mk_usable := mappable |}.
  - by intros spd addr [_ ?].
  - intros s spd addr c Hk [Hu _] Hno Hc. destruct (grant_empty s spd addr c Hk Hu Hno Hc) as (s' & ? & ? & Hs).
    exists s'. split_and!; try done. intros spd' addr' [? _]. by apply Hs.
  - intros s spd addr c d Hk [Hu _] Hd Hc. destruct (grant_mapped s spd addr c d Hk Hu Hd Hc) as (s' & ? & ? & Hs).
    exists s'. split_and!; try done. intros spd' addr' [? _]. by apply Hs.
  - intros s spd addr c Hk [Hu _] Hc. destruct (revoke_mapped s spd addr c Hk Hu Hc) as (s' & ? & ? & Hs).
    exists s'. split_and!; try done. intros spd' addr' [? _]. by apply Hs.
Defined.

(** ** The manager above the kernel *)

(** Nothing is mapped yet at the places of the manager. *)
Definition unmapped (s : kstate) : Prop := ∀ spd addr, mappable spd addr → walk s spd addr = None.

Lemma unmapped_sees s : unmapped s → ∀ spd addr, mappable spd addr → sees s spd addr = None.
Proof. intros Hn spd addr Hu. unfold sees. by rewrite Hn. Qed.

Lemma run_total s ops : kinv s → unmapped s → Forall (mop_ok (MK := kernel_mmap)) ops →
  ∃ rs s', mops_run (cntl := cos_mmap_cntl me) ops (MkMm cells_init s) = Done rs s' ∧ kinv (mm_kern s').
Proof.
  intros Hk Hn Hops. destruct (memman_run (MK := kernel_mmap) s ops Hk (unmapped_sees _ Hn) Hops)
    as (rs & s' & f & L & Hrun & _ & Hk' & _). by exists rs, s'.
Qed.

(** A frame that is seen is a named page, so no table. *)
Lemma walk_no_table s spd addr pa k i x t e :
  kinv s → mappable spd addr → walk s spd addr = Some pa → E !! k = Some (i, x, t, e) →
  pa ≠ t ∧ pa ≠ p_pg_tbl (s_info x).
Proof.
  intros Hk [[[[[j y] t'] e'] Hy] _] Hw He.
  destruct (ki_tab _ Hk _ _ _ _ _ _ Hy) as (p & w & Hp & Hpw & [->|(c & pa' & Hc & Hnz & ->)]).
  - by rewrite (walk_place _ _ _ _ _ _ _ _ _ Hk Hy Hp Hpw) in Hw.
  - rewrite (walk_place _ _ _ _ _ _ _ _ _ Hk Hy Hp Hpw), has_present_lor, (frame_mask _ _ _ Hk Hc) in Hw.
    injection Hw as <-. by eapply (ki_user _ Hk).
Qed.
End Kernel.

(** C2. The memory manager and the kernel below it: every sequence of requests
    runs without a failing assertion, each request does to the forest of places
    what [fstep] says (with the reasons for every refusal), and at the end each
    component sees, through its page table, exactly the pages of the forest. *)
Theorem memman_refines E me s ops : kinv E s → unmapped E s → Forall (mop_ok (MK := kernel_mmap E me)) ops →
  ∃ rs s' f L, mops_run (cntl := cos_mmap_cntl me) ops (MkMm cells_init s) = Done rs s' ∧
    fsteps ∅ ∅ ops rs f L ∧ kinv E (mm_kern s') ∧
    ∀ spd addr, mappable E spd addr → sees (mm_kern s') spd addr = fst <$> f !! (spd, addr).
Proof. intros Hk Hn Hops. by apply (memman_run (MK := kernel_mmap E me)), Hops; [|apply unmapped_sees]. Qed.

(** C1. Isolation: when two components see the same frame, both places got it by
    requests, through aliases of one page that was asked for; and no component
    sees the frame of a page table or directory. *)
Theorem memman_isolation E me s ops : kinv E s → unmapped E s → Forall (mop_ok (MK := kernel_mmap E me)) ops →
  ∃ rs s', mops_run (cntl := cos_mmap_cntl me) ops (MkMm cells_init s) = Done rs s' ∧
    ∀ spd addr spd' addr' pa, mappable E spd addr → mappable E spd' addr' →
      walk (mm_kern s') spd addr = Some pa → walk (mm_kern s') spd' addr' = Some pa →
      (∃ root, MGet root.1 root.2 ∈ ops ∧ rtc (alias_of ops) root (spd, addr) ∧
         rtc (alias_of ops) root (spd', addr')) ∧
      ∀ k i x t e, E !! k = Some (i, x, t, e) → pa ≠ t ∧ pa ≠ p_pg_tbl (s_info x).
Proof.
  intros Hk Hn Hops. destruct (run_total E me s ops Hk Hn Hops) as (rs & s' & Hrun & Hk').
  exists rs, s'. split; [done|]. intros spd addr spd' addr' pa Hu Hu' Hw Hw'. split.
  - apply (memman_shared (MK := kernel_mmap E me) s ops rs s' spd addr spd' addr' (paddr_scan (k_pages (mm_kern s')) 0 pa));
      try done; [by apply unmapped_sees| |]; cbn; unfold sees; by rewrite ?Hw, ?Hw'.
  - intros k i x t e. by eapply walk_no_table.
Qed.

(** C7. Releasing a page after any requests succeeds, and takes the page away at
    that place and at every place derived from it; what is seen at all the
    others stays. *)
Theorem memman_release E me s ops spd addr :
  kinv E s → unmapped E s → Forall (mop_ok (MK := kernel_mmap E me)) ops → spd ≠ 0%Z →
  ∃ rs s1 f L s2, mops_run (cntl := cos_mmap_cntl me) ops (MkMm cells_init s) = Done rs s1 ∧
    fsteps ∅ ∅ ops rs f L ∧ mop_run (cntl := cos_mmap_cntl me) (MRelease spd addr) s1 = Done 0%Z s2 ∧
    ∀ spd' addr', mappable E spd' addr' → sees (mm_kern s2) spd' addr' =
      if decide ((spd', addr') = (spd, addr) ∨ (spd, addr) ∈ above f (spd', addr'))
      then None else sees (mm_kern s1) spd' addr'.
Proof.
  intros Hk Hn Hops Hspd. destruct (run_total E me s ops Hk Hn Hops) as (rs & s1 & Hrun & _).
  destruct (release_effect (MK := kernel_mmap E me) s ops rs s1 spd addr Hk (unmapped_sees _ _ Hn) Hops Hrun Hspd)
    as (f & L & s2 & Hf & Hrel & Hs). by exists rs, s1, f, L, s2.
Qed.

(** ** An example

    Components 3 and 4 own the addresses from 20 MB and from 24 MB on; their
    page directories at 4096 and 20480 have a page table each. *)

Definition mm_spd (pt : Z) : spd := set_s_info (MkPoly 0 0 pt) (set_s_composite_vas (Some 0%Z) spd0).
Definition mm_vas : vas := MkVas ((replicate PGD_PER_PTBL None).[5 := Some 3].[6 := Some 4]) 0 0.
Definition mm_host : list Z := (λ i, pa_to_va (4096 * (16 + i))) <$> seqZ 0 2048.
Definition mm_demo : kstate :=
  set_k_spds (<[3 := mm_spd 4096]> (<[4 := mm_spd 20480]> (k_spds k_zero)))
    (set_k_vas_list ((k_vas_list k_zero).[0 := mm_vas])
      (set_k_host_free mm_host
        (set_k_mem {[ 4096%Z := (replicate PGD_PER_PTBL 0%Z).[5 := Z.lor 8192 PG_USER_RW];
          8192%Z := replicate PGD_PER_PTBL 0%Z;
          20480%Z := (replicate PGD_PER_PTBL 0%Z).[6 := Z.lor 24576 PG_USER_RW];
          24576%Z := replicate PGD_PER_PTBL 0%Z ]} k_zero))).
Definition mm_slots : slots :=
  {[ (3, 20975616)%Z := (3%nat, mm_spd 4096, 8192, 1)%Z; (3, 20979712)%Z := (3%nat, mm_spd 4096, 8192, 2)%Z;
     (4, 25169920)%Z := (4%nat, mm_spd 20480, 24576, 1)%Z ]}.

Lemma mm_slots_cases k i x t e : mm_slots !! k = Some (i, x, t, e) →
  (k = (3, 20975616)%Z ∧ i = 3 ∧ x = mm_spd 4096 ∧ t = 8192%Z ∧ e = 1%Z) ∨
  (k = (3, 20979712)%Z ∧ i = 3 ∧ x = mm_spd 4096 ∧ t = 8192%Z ∧ e = 2%Z) ∨
  (k = (4, 25169920)%Z ∧ i = 4 ∧ x = mm_spd 20480 ∧ t = 24576%Z ∧ e = 1%Z).
Proof.
  unfold mm_slots. rewrite !lookup_insert_Some, lookup_singleton_Some. naive_solver.
Qed.

Lemma page_mask n : PTE_MASK (4096 * n) = (4096 * n)%Z.
Proof.
  unfold PTE_MASK. change 4095%Z with (Z.ones 12). rewrite Z.ldiff_ones_r by lia.
  rewrite Z.shiftr_div_pow2, Z.shiftl_mul_pow2 by lia. replace (4096 * n)%Z with (n * 2 ^ 12)%Z by lia.
  by rewrite Z.div_mul.
Qed.

Lemma mm_host_page page : page ∈ mm_host → ∃ i, (0 ≤ i < 2048)%Z ∧ va_to_pa page = (4096 * (16 + i))%Z.
Proof.
  intros (i & -> & Hi%elem_of_seqZ)%list_elem_of_fmap. exists i. split; [lia|]. apply pa_va_id. lia.
Qed.

Lemma mm_pages_zero c pa : (k_pages mm_demo).[c] = Some pa → pa = 0%Z.
Proof. intros [_ Hc]%zlookup_Some. by apply lookup_replicate in Hc as [-> _]. Qed.

Lemma mm_pages_ok : pages_ok mm_demo.
Proof.
  split; [done| | |].
  - by intros c d pa ->%mm_pages_zero.
  - intros c pa page ->%mm_pages_zero (i & Hi & ->)%mm_host_page. lia.
  - cbn [k_host_free mm_demo]. change (NoDup (va_to_pa <$> mm_host)). apply NoDup_fmap_2_strong.
    + intros a b Ha Hb. unfold mm_host in *.
      apply list_elem_of_fmap in Ha as (i & -> & Hi%elem_of_seqZ), Hb as (j & -> & Hj%elem_of_seqZ).
      rewrite !pa_va_id by lia. intros. do 2 f_equal. lia.
    + apply NoDup_fmap_2_strong; [|apply NoDup_seqZ]. intros i j Hi%elem_of_seqZ Hj%elem_of_seqZ He.
      apply (f_equal va_to_pa) in He. rewrite !pa_va_id in He by lia. lia.
Qed.

Lemma mm_kinv : kinv mm_slots mm_demo.
Proof.
  split.
  - intros spd addr i x t e [(E & -> & -> & -> & ->)|[(E & -> & -> & -> & ->)|(E & -> & -> & -> & ->)]]%mm_slots_cases;
      injection E as -> ->; (split; [done|]); (split; [unfold MAX_NUM_SPDS; lia|done|done|by exists 0%Z, mm_vas]).
  - intros spd addr i x t e [(E & -> & -> & -> & ->)|[(E & -> & -> & -> & ->)|(E & -> & -> & -> & ->)]]%mm_slots_cases;
      injection E as -> ->; (split; [|done]); eexists _, _; split_and!; reflexivity || done.
  - intros spd addr i x t e [(E & -> & -> & -> & ->)|[(E & -> & -> & -> & ->)|(E & -> & -> & -> & ->)]]%mm_slots_cases;
      injection E as -> ->; eexists _, _; split_and!; reflexivity || by left.
  - intros k k' i i' x x' t e H1%mm_slots_cases H2%mm_slots_cases. naive_solver.
  - intros k k' i i' x x' t t' e e' H1%mm_slots_cases H2%mm_slots_cases. naive_solver.
  - intros k i x t e page H%mm_slots_cases (j & Hj & ->)%mm_host_page. naive_solver lia.
  - by intros k i x t e c pa _ ->%mm_pages_zero.
  - apply mm_pages_ok.
  - by intros c pa ->%mm_pages_zero.
  - intros page (j & Hj & ->)%mm_host_page. apply page_mask.
  - apply Nat.leb_le. by vm_compute.
Qed.

Lemma mm_unmapped : unmapped mm_slots mm_demo.
Proof.
  intros spd addr [[[[[i x] t] e] [(E & _)|[(E & _)|(E & _)]]%mm_slots_cases] _]; injection E as -> ->; by vm_compute.
Qed.

(** Component 3 gets a page, gives component 4 an alias, asks again for the
    same place in vain, and releases the page. *)
Definition mm_ops : list mop :=
  [MGet 3 20975616; MAlias 3 20975616 4 25169920; MGet 3 20975616; MGet 3 20979712; MRelease 3 20975616].

Lemma mm_ops_ok me : Forall (mop_ok (MK := kernel_mmap mm_slots me)) mm_ops.
Proof. repeat constructor; try done; by eexists. Qed.

Lemma memman_refines_witness :
  ∃ rs s' f L, mops_run (cntl := cos_mmap_cntl 1) mm_ops (MkMm cells_init mm_demo) = Done rs s' ∧
    fsteps ∅ ∅ mm_ops rs f L ∧ kinv mm_slots (mm_kern s') ∧
    ∀ spd addr, mappable mm_slots spd addr → sees (mm_kern s') spd addr = fst <$> f !! (spd, addr).
Proof. apply (memman_refines mm_slots 1 mm_demo mm_ops); [apply mm_kinv|apply mm_unmapped|apply mm_ops_ok]. Defined.

Lemma memman_isolation_witness :
  ∃ rs s', mops_run (cntl := cos_mmap_cntl 1) mm_ops (MkMm cells_init mm_demo) = Done rs s' ∧
    ∀ spd addr spd' addr' pa, mappable mm_slots spd addr → mappable mm_slots spd' addr' →
      walk (mm_kern s') spd addr = Some pa → walk (mm_kern s') spd' addr' = Some pa →
      (∃ root, MGet root.1 root.2 ∈ mm_ops ∧ rtc (alias_of mm_ops) root (spd, addr) ∧
         rtc (alias_of mm_ops) root (spd', addr')) ∧
      ∀ k i x t e, mm_slots !! k = Some (i, x, t, e) → pa ≠ t ∧ pa ≠ p_pg_tbl (s_info x).
Proof. apply (memman_isolation mm_slots 1 mm_demo mm_ops); [apply mm_kinv|apply mm_unmapped|apply mm_ops_ok]. Defined.

Lemma memman_release_witness :
  ∃ rs s1 f L s2, mops_run (cntl := cos_mmap_cntl 1) mm_ops (MkMm cells_init mm_demo) = Done rs s1 ∧
    fsteps ∅ ∅ mm_ops rs f L ∧
    mop_run (cntl := cos_mmap_cntl 1) (MRelease 3 20979712) s1 = Done 0%Z s2 ∧
    ∀ spd' addr', mappable mm_slots spd' addr' → sees (mm_kern s2) spd' addr' =
      if decide ((spd', addr') = (3, 20979712)%Z ∨ (3, 20979712)%Z ∈ above f (spd', addr'))
      then None else sees (mm_kern s1) spd' addr'.
Proof.
  apply (memman_release mm_slots 1 mm_demo mm_ops 3 20979712);
    [apply mm_kinv|apply mm_unmapped|apply mm_ops_ok|done].
Defined.

(** What these requests return, and the frames seen in between. *)
Lemma mm_example :
  match mops_run (cntl := cos_mmap_cntl 1) mm_ops (MkMm cells_init mm_demo) with
  | Done rs s => rs = [20975616; 25169920; 0; 20979712; 0]%Z ∧ walk (mm_kern s) 4 25169920 = None ∧
      walk (mm_kern s) 3 20979712 = Some 73728%Z
  | Fault _ => False
  end.
Proof. by vm_compute. Qed.
