(* ===== verification/Cobj.v ===== *)
(** * The format of component objects

    Model of [components/include/cobj_format.h] and [lib/cobj_format.c]: a
    header, the descriptors of sections, symbols and capabilities, and the
    contents of the sections, one after the other.  The loader writes objects
    in this format and the component that boots the system reads them.

    The object is the list of its words; all structures are packed and made of
    words.  A pointer is its distance in bytes from the header, and [None] is
    [NULL].  Sizes and offsets wrap around as [u32_t] does. *)

From stdpp Require Import base list numbers option.
From S2P Require Import Prelude.
Local Open Scope Z_scope.

Definition COBJ_SECT_UNINIT : Z := 0.
Definition COBJ_SECT_ZEROS : Z := 8.
Definition COS_NUM_FAULTS : Z := 1.

Record cobj_header : Type := MkCh {
  h_id : Z;
  h_nsect : Z;
  h_nsymb : Z;
  h_ncap : Z;
  h_size : Z;
}.

Record cobj_sect : Type := MkCs {
  cs_flags : Z;
  cs_offset : Z;
  cs_vaddr : Z;
  cs_bytes : Z;
}.

Record cobj_symb : Type := MkCy {
  cy_type : Z;
  cy_vaddr : Z;
}.

Record cobj_cap : Type := MkCc {
  cc_cap_off : Z;
  cc_dest_id : Z;
  cc_fault_num : Z;
  cc_sfn : Z;
  cc_cstub : Z;
  cc_sstub : Z;
}.

(** [sizeof] of the structures. *)
Definition header_sz : Z := 20.
Definition sect_sz : Z := 16.
Definition symb_sz : Z := 8.
Definition cap_sz : Z := 24.

#[local] Abbreviation C := (M (list Z)).

(** The word at a place, and the fields of a structure there. *)
Definition ld (p : Z) : C Z := m ← gets (λ m, m); bound (m.[p / 4]).
Definition st (p v : Z) : C unit := _ ← ld p; modify (λ m, m.[p / 4 := v]).

Definition get_header : C cobj_header :=
  a ← ld 0; b ← ld 4; c ← ld 8; d ← ld 12; e ← ld 16; mret (MkCh a b c d e).
Definition get_sect (p : Z) : C cobj_sect :=
  a ← ld p; b ← ld (p + 4); c ← ld (p + 8); d ← ld (p + 12); mret (MkCs a b c d).
Definition get_symb (p : Z) : C cobj_symb :=
  a ← ld p; b ← ld (p + 4); mret (MkCy a b).
Definition get_cap (p : Z) : C cobj_cap :=
  a ← ld p; b ← ld (p + 4); c ← ld (p + 8); d ← ld (p + 12); e ← ld (p + 16); f ← ld (p + 20);
  mret (MkCc a b c d e f).

(** ** Access *)

Definition cobj_sect_get (sect_id : Z) : C (option Z) :=
  nsect ← ld 4;
  if nsect <=? sect_id then mret None
  else mret (Some (u32 (header_sz + sect_sz * sect_id))).

Definition cobj_symb_get (symb_id : Z) : C (option Z) :=
  nsymb ← ld 8;
  if nsymb <=? symb_id then mret None
  else
    nsect ← ld 4;
    mret (Some (u32 (header_sz + sect_sz * nsect + symb_sz * symb_id))).

Definition cobj_cap_get (cap_id : Z) : C (option Z) :=
  ncap ← ld 12;
  if ncap <=? cap_id then mret None
  else
    nsect ← ld 4; nsymb ← ld 8;
    mret (Some (u32 (header_sz + sect_sz * nsect + symb_sz * nsymb + cap_sz * cap_id))).

Definition cobj_sect_empty (sect_id : Z) : C Z :=
  s ← cobj_sect_get sect_id;
  match s with
  | None => mret (-1)
  | Some p =>
      flags ← ld p;
      if negb (Z.land flags COBJ_SECT_UNINIT =? 0) then mret (-1)
      else mret (Z.land flags COBJ_SECT_ZEROS)
  end.

Definition cobj_sect_content_offset : C Z :=
  nsect ← ld 4; nsymb ← ld 8; ncap ← ld 12;
  mret (u32 (header_sz + sect_sz * nsect + symb_sz * nsymb + cap_sz * ncap)).

Definition cobj_sect_contents (sect_id : Z) : C (option Z) :=
  e ← cobj_sect_empty sect_id;
  if negb (e =? 0) then mret None
  else
    s ← cobj_sect_get sect_id;
    match s with
    | None => mret None
    | Some p =>
        flags ← ld p;
        if negb (Z.land flags COBJ_SECT_UNINIT =? 0) then mret None
        else o ← ld (p + 4); mret (Some o)
    end.

(** The size or address of a section. *)
Definition sect_field (sect_id off : Z) : C Z :=
  s ← cobj_sect_get sect_id;
  match s with
  | None => mret 0
  | Some p =>
      flags ← ld p;
      if negb (Z.land flags COBJ_SECT_UNINIT =? 0) then mret 0 else ld (p + off)
  end.

Definition cobj_sect_size (sect_id : Z) : C Z := sect_field sect_id 12.
Definition cobj_sect_addr (sect_id : Z) : C Z := sect_field sect_id 8.

(** ** Creation *)

Definition cobj_size_req (nsect contents nsymb ncap : Z) : Z :=
  u32 (contents + header_sz + u32 (nsect * sect_sz) + u32 (nsymb * symb_sz) + u32 (ncap * cap_sz)).

(** [memset] of [n] words. *)
Definition zero (p n : Z) : C unit := for_range 0 n (λ i, st (p + 4 * i) 0).

(** [sz] are the bytes at [space]; whether [space] is [NULL] is an argument. *)
Definition cobj_create (id nsect contents nsymb ncap : Z) (space : bool) (sz : Z) : C (option Z) :=
  let sect_symb_cap_sz := u32 (nsect * sect_sz + nsymb * symb_sz + ncap * cap_sz) in
  if negb space then mret None
  else
    let tot_sz := u32 (contents + header_sz + sect_symb_cap_sz) in
    if sz <? tot_sz then mret None
    else
      st 0 id;; st 4 nsect;; st 8 nsymb;; st 12 ncap;; st 16 tot_sz;;
      zero header_sz (sect_symb_cap_sz / 4);;
      mret (Some 0).

(** Where the contents of a section go. *)
Definition next_offset (sect_idx : Z) : C (option Z) :=
  if sect_idx =? 0 then o ← cobj_sect_content_offset; mret (Some o)
  else
    s ← cobj_sect_get (sect_idx - 1);
    p ← deref s;
    s ← get_sect p;
    if negb (Z.land (cs_flags s) COBJ_SECT_UNINIT =? 0) then mret None
    else if negb (Z.land (cs_flags s) COBJ_SECT_ZEROS =? 0) then mret (Some (cs_offset s))
    else mret (Some (u32 (cs_offset s + cs_bytes s))).

Definition cobj_sect_init (sect_idx flags vaddr size : Z) : C Z :=
  nsect ← ld 4;
  if nsect <=? sect_idx then mret (-1)
  else
    o ← next_offset sect_idx;
    match o with
    | None => mret (-1)
    | Some offset =>
        hsize ← ld 16;
        if (Z.land flags COBJ_SECT_ZEROS =? 0) && (hsize <? u32 (offset + size)) then mret (-1)
        else
          s ← cobj_sect_get sect_idx;
          p ← deref s;
          st (p + 4) offset;; st (p + 12) size;; st (p + 8) vaddr;; st p flags;;
          mret 0
    end.

Definition cobj_symb_init (symb_idx type vaddr : Z) : C Z :=
  s ← cobj_symb_get symb_idx;
  match s with
  | None => mret (-1)
  | Some p => st p type;; st (p + 4) vaddr;; mret 0
  end.

Definition cobj_cap_init (cap_idx cap_off dest_id sfn cstub sstub fault_num : Z) : C Z :=
  c ← cobj_cap_get cap_idx;
  match c with
  | None => mret (-1)
  | Some p =>
      st (p + 4) dest_id;; st (p + 12) sfn;; st (p + 16) cstub;; st (p + 20) sstub;;
      st p cap_off;; st (p + 8) fault_num;;
      mret 0
  end.

Definition cobj_cap_is_fault (c : cobj_cap) : bool := cc_fault_num c <=? COS_NUM_FAULTS.
Definition cobj_cap_undef (c : cobj_cap) : bool := 0 =? cc_sfn c.
