(* ===== verification/CobjInv.v ===== *)
(** * Correctness of the format of component objects

    The words of an object represent its sections, symbols and capabilities:
    what is written to one is read back, and nothing else changes.  Sections
    that are set up in order have disjoint contents behind the descriptors and
    inside of the object. *)

From stdpp Require Import base list numbers option.
From S2P Require Import Prelude Cobj.
Local Open Scope Z_scope.

(** ** The representation *)

Record cobj : Type := MkO {
  o_id : Z;
  o_sects : list cobj_sect;
  o_symbs : list cobj_symb;
  o_caps : list cobj_cap;
  o_size : Z;
}.

Definition set_sects (l : list cobj_sect) (o : cobj) : cobj := MkO (o_id o) l (o_symbs o) (o_caps o) (o_size o).
Definition set_symbs (l : list cobj_symb) (o : cobj) : cobj := MkO (o_id o) (o_sects o) l (o_caps o) (o_size o).
Definition set_caps (l : list cobj_cap) (o : cobj) : cobj := MkO (o_id o) (o_sects o) (o_symbs o) l (o_size o).

Definition sect_words (s : cobj_sect) : list Z := [cs_flags s; cs_offset s; cs_vaddr s; cs_bytes s].
Definition symb_words (s : cobj_symb) : list Z := [cy_type s; cy_vaddr s].
Definition cap_words (c : cobj_cap) : list Z :=
  [cc_cap_off c; cc_dest_id c; cc_fault_num c; cc_sfn c; cc_cstub c; cc_sstub c].

#[local] Abbreviation len l := (Z.of_nat (length l)).

Definition header_words (o : cobj) : list Z := [o_id o; len (o_sects o); len (o_symbs o); len (o_caps o); o_size o].

Definition content_offset (o : cobj) : Z :=
  header_sz + sect_sz * len (o_sects o) + symb_sz * len (o_symbs o) + cap_sz * len (o_caps o).

Definition crep (o : cobj) (m : list Z) : Prop := content_offset o < 2 ^ 32 ∧ ∃ rest,
  m = header_words o ++ (o_sects o ≫= sect_words) ++ (o_symbs o ≫= symb_words) ++ (o_caps o ≫= cap_words) ++ rest.

(** ** Words *)

Section Words.
Implicit Types (m pre w post : list Z).

Lemma word_index pre (j : nat) p : p = 4 * (len pre + Z.of_nat j) → p / 4 = Z.of_nat (length pre + j).
Proof. intros ->. rewrite Z.mul_comm, Z.div_mul by lia. lia. Qed.

Lemma zlookup_nat {A} (l : list A) (i : nat) : l.[Z.of_nat i] = l !! i.
Proof. unfold zlookup. rewrite (proj2 (Z.ltb_ge _ _)) by lia. by rewrite Nat2Z.id. Qed.

Lemma zinsert_nat {A} (l : list A) (i : nat) v : l.[Z.of_nat i := v] = <[i := v]> l.
Proof. unfold zinsert. rewrite (proj2 (Z.ltb_ge _ _)) by lia. by rewrite Nat2Z.id. Qed.

Lemma ld_run pre w post (j : nat) p v : w !! j = Some v → p = 4 * (len pre + Z.of_nat j) →
  ld p (pre ++ w ++ post) = Done v (pre ++ w ++ post).
Proof.
  intros Hv Hp. unfold ld. mrun. rewrite (word_index _ _ _ Hp), zlookup_nat, lookup_app_r by lia.
  replace (length pre + j - length pre)%nat with j by lia. rewrite lookup_app_l by (by eapply lookup_lt_Some). by rewrite Hv.
Qed.

Lemma st_run pre w post (j : nat) p v : (j < length w)%nat → p = 4 * (len pre + Z.of_nat j) →
  st p v (pre ++ w ++ post) = Done tt (pre ++ <[j := v]> w ++ post).
Proof.
  intros Hj Hp. destruct (lookup_lt_is_Some_2 w j Hj) as [x Hx]. unfold st. rewrite (bind_run _ _ _ _ _ (ld_run _ _ _ _ _ _ Hx Hp)).
  unfold modify. rewrite (word_index _ _ _ Hp), zinsert_nat, insert_app_r, insert_app_l by done. done.
Qed.

Lemma length_bind {A} (f : A → list Z) k (l : list A) : (∀ a, length (f a) = k) → length (l ≫= f) = (k * length l)%nat.
Proof. intros Hf. induction l as [|a l IH]; cbn; [lia|]. rewrite length_app, Hf, IH. lia. Qed.

Lemma bind_split {A} (f : A → list Z) (l : list A) i a : l !! i = Some a →
  l ≫= f = (take i l ≫= f) ++ f a ++ (drop (S i) l ≫= f).
Proof. intros Hi. rewrite <- (take_drop_middle l i a Hi) at 1. by rewrite bind_app, bind_cons. Qed.

Lemma bind_insert {A} (f : A → list Z) (l : list A) i a : (i < length l)%nat →
  <[i := a]> l ≫= f = (take i l ≫= f) ++ f a ++ (drop (S i) l ≫= f).
Proof. intros Hi. rewrite insert_take_drop by done. by rewrite bind_app, bind_cons. Qed.
End Words.

(** ** The descriptors *)

Section Descriptors.
Implicit Types (o : cobj) (m : list Z).

Lemma header_run o m (j : nat) v : crep o m → header_words o !! j = Some v → ld (4 * Z.of_nat j) m = Done v m.
Proof. intros (_ & rest & ->) Hv. apply (ld_run [] _ _ j); [done|]. cbn. lia. Qed.

Lemma nsect_run o m : crep o m → ld 4 m = Done (len (o_sects o)) m.
Proof. intros Hr. by apply (header_run o m 1). Qed.
Lemma nsymb_run o m : crep o m → ld 8 m = Done (len (o_symbs o)) m.
Proof. intros Hr. by apply (header_run o m 2). Qed.
Lemma ncap_run o m : crep o m → ld 12 m = Done (len (o_caps o)) m.
Proof. intros Hr. by apply (header_run o m 3). Qed.
Lemma size_run o m : crep o m → ld 16 m = Done (o_size o) m.
Proof. intros Hr. by apply (header_run o m 4). Qed.

(** The words of a descriptor, and the object with other words there. *)
Lemma sect_at o m i a : crep o m → o_sects o !! i = Some a → ∃ pre post,
  m = pre ++ sect_words a ++ post ∧ 4 * len pre = header_sz + sect_sz * Z.of_nat i ∧
  ∀ a', crep (set_sects (<[i := a']> (o_sects o)) o) (pre ++ sect_words a' ++ post).
Proof.
  intros (Hs & rest & ->) Hi. pose proof (lookup_lt_Some _ _ _ Hi) as Hlt.
  exists (header_words o ++ (take i (o_sects o) ≫= sect_words)). eexists.
  rewrite (bind_split _ _ _ _ Hi), <- !app_assoc. split; [reflexivity|]. split.
  - rewrite length_app, (length_bind sect_words 4) by done. rewrite length_take. cbn [length header_words]. unfold header_sz, sect_sz. lia.
  - intros a'. split; [unfold content_offset in *; cbn; by rewrite length_insert|]. exists rest. cbn [o_sects o_symbs o_caps set_sects].
    rewrite bind_insert by done. unfold header_words. cbn [o_id o_sects o_symbs o_caps o_size set_sects]. by rewrite length_insert, <- !app_assoc.
Qed.

Lemma symb_at o m i a : crep o m → o_symbs o !! i = Some a → ∃ pre post,
  m = pre ++ symb_words a ++ post ∧ 4 * len pre = header_sz + sect_sz * len (o_sects o) + symb_sz * Z.of_nat i ∧
  ∀ a', crep (set_symbs (<[i := a']> (o_symbs o)) o) (pre ++ symb_words a' ++ post).
Proof.
  intros (Hs & rest & ->) Hi. pose proof (lookup_lt_Some _ _ _ Hi) as Hlt.
  exists (header_words o ++ (o_sects o ≫= sect_words) ++ (take i (o_symbs o) ≫= symb_words)). eexists.
  rewrite (bind_split _ _ _ _ Hi), <- !app_assoc. split; [reflexivity|]. split.
  - rewrite !length_app, (length_bind sect_words 4), (length_bind symb_words 2) by done. rewrite length_take.
    cbn [length header_words]. unfold header_sz, sect_sz, symb_sz. lia.
  - intros a'. split; [unfold content_offset in *; cbn; by rewrite length_insert|]. exists rest. cbn [o_sects o_symbs o_caps set_symbs].
    rewrite bind_insert by done. unfold header_words. cbn [o_id o_sects o_symbs o_caps o_size set_symbs]. by rewrite length_insert, <- !app_assoc.
Qed.

Lemma cap_at o m i a : crep o m → o_caps o !! i = Some a → ∃ pre post,
  m = pre ++ cap_words a ++ post ∧
  4 * len pre = header_sz + sect_sz * len (o_sects o) + symb_sz * len (o_symbs o) + cap_sz * Z.of_nat i ∧
  ∀ a', crep (set_caps (<[i := a']> (o_caps o)) o) (pre ++ cap_words a' ++ post).
Proof.
  intros (Hs & rest & ->) Hi. pose proof (lookup_lt_Some _ _ _ Hi) as Hlt.
  exists (header_words o ++ (o_sects o ≫= sect_words) ++ (o_symbs o ≫= symb_words) ++ (take i (o_caps o) ≫= cap_words)). eexists.
  rewrite (bind_split _ _ _ _ Hi), <- !app_assoc. split; [reflexivity|]. split.
  - rewrite !length_app, (length_bind sect_words 4), (length_bind symb_words 2), (length_bind cap_words 6) by done. rewrite length_take.
    cbn [length header_words]. unfold header_sz, sect_sz, symb_sz, cap_sz. lia.
  - intros a'. split; [unfold content_offset in *; cbn; by rewrite length_insert|]. exists rest. cbn [o_sects o_symbs o_caps set_caps].
    rewrite bind_insert by done. unfold header_words. cbn [o_id o_sects o_symbs o_caps o_size set_caps]. by rewrite length_insert, <- !app_assoc.
Qed.

(** Where the descriptors are. *)
Definition sect_ptr (i : Z) : Z := header_sz + sect_sz * i.
Definition symb_ptr o (i : Z) : Z := header_sz + sect_sz * len (o_sects o) + symb_sz * i.
Definition cap_ptr o (i : Z) : Z := header_sz + sect_sz * len (o_sects o) + symb_sz * len (o_symbs o) + cap_sz * i.

Lemma u32_small z : 0 ≤ z < 2 ^ 32 → u32 z = z.
Proof. intros H. unfold u32. by apply Z.mod_small. Qed.

Ltac sizes := unfold sect_ptr, symb_ptr, cap_ptr, content_offset, header_sz, sect_sz, symb_sz, cap_sz in *.

Lemma sect_get_run o m i : crep o m → 0 ≤ i →
  cobj_sect_get i m = Done (if bool_decide (i < len (o_sects o)) then Some (sect_ptr i) else None) m.
Proof.
  intros Hr Hi. unfold cobj_sect_get. rewrite (bind_run _ _ _ _ _ (nsect_run _ _ Hr)).
  destruct (Z.leb_spec (len (o_sects o)) i); case_bool_decide; try lia; [done|].
  rewrite u32_small; [done|]. destruct Hr as [Hs _]. sizes. lia.
Qed.

Lemma symb_get_run o m i : crep o m → 0 ≤ i →
  cobj_symb_get i m = Done (if bool_decide (i < len (o_symbs o)) then Some (symb_ptr o i) else None) m.
Proof.
  intros Hr Hi. unfold cobj_symb_get. rewrite (bind_run _ _ _ _ _ (nsymb_run _ _ Hr)).
  destruct (Z.leb_spec (len (o_symbs o)) i); case_bool_decide; try lia; [done|].
  rewrite (bind_run _ _ _ _ _ (nsect_run _ _ Hr)). rewrite u32_small; [done|]. destruct Hr as [Hs _]. sizes. lia.
Qed.

Lemma cap_get_run o m i : crep o m → 0 ≤ i →
  cobj_cap_get i m = Done (if bool_decide (i < len (o_caps o)) then Some (cap_ptr o i) else None) m.
Proof.
  intros Hr Hi. unfold cobj_cap_get. rewrite (bind_run _ _ _ _ _ (ncap_run _ _ Hr)).
  destruct (Z.leb_spec (len (o_caps o)) i); case_bool_decide; try lia; [done|].
  rewrite (bind_run _ _ _ _ _ (nsect_run _ _ Hr)), (bind_run _ _ _ _ _ (nsymb_run _ _ Hr)).
  rewrite u32_small; [done|]. destruct Hr as [Hs _]. sizes. lia.
Qed.

Lemma content_offset_run o m : crep o m → cobj_sect_content_offset m = Done (content_offset o) m.
Proof.
  intros Hr. unfold cobj_sect_content_offset.
  rewrite (bind_run _ _ _ _ _ (nsect_run _ _ Hr)), (bind_run _ _ _ _ _ (nsymb_run _ _ Hr)), (bind_run _ _ _ _ _ (ncap_run _ _ Hr)).
  rewrite u32_small; [done|]. destruct Hr as [Hs _]. sizes. lia.
Qed.

(** Reading a descriptor. *)
Lemma sect_read o m (i : nat) a : crep o m → o_sects o !! i = Some a →
  get_sect (sect_ptr (Z.of_nat i)) m = Done a m ∧ ld (sect_ptr (Z.of_nat i)) m = Done (cs_flags a) m ∧
  ld (sect_ptr (Z.of_nat i) + 4) m = Done (cs_offset a) m ∧ ld (sect_ptr (Z.of_nat i) + 8) m = Done (cs_vaddr a) m ∧
  ld (sect_ptr (Z.of_nat i) + 12) m = Done (cs_bytes a) m.
Proof.
  intros Hr Hi. destruct (sect_at _ _ _ _ Hr Hi) as (pre & post & -> & Hp & _).
  assert (H0 : ld (sect_ptr (Z.of_nat i)) (pre ++ sect_words a ++ post) = Done (cs_flags a) (pre ++ sect_words a ++ post)) by (apply (ld_run _ _ _ 0); [done|sizes; lia]).
  assert (H1 : ld (sect_ptr (Z.of_nat i) + 4) (pre ++ sect_words a ++ post) = Done (cs_offset a) (pre ++ sect_words a ++ post)) by (apply (ld_run _ _ _ 1); [done|sizes; lia]).
  assert (H2 : ld (sect_ptr (Z.of_nat i) + 8) (pre ++ sect_words a ++ post) = Done (cs_vaddr a) (pre ++ sect_words a ++ post)) by (apply (ld_run _ _ _ 2); [done|sizes; lia]).
  assert (H3 : ld (sect_ptr (Z.of_nat i) + 12) (pre ++ sect_words a ++ post) = Done (cs_bytes a) (pre ++ sect_words a ++ post)) by (apply (ld_run _ _ _ 3); [done|sizes; lia]).
  split; [|done]. unfold get_sect.
  rewrite (bind_run _ _ _ _ _ H0), (bind_run _ _ _ _ _ H1), (bind_run _ _ _ _ _ H2), (bind_run _ _ _ _ _ H3). by destruct a.
Qed.

Lemma symb_read o m (i : nat) a : crep o m → o_symbs o !! i = Some a → get_symb (symb_ptr o (Z.of_nat i)) m = Done a m.
Proof.
  intros Hr Hi. destruct (symb_at _ _ _ _ Hr Hi) as (pre & post & -> & Hp & _). unfold get_symb.
  erewrite bind_run; [|apply (ld_run _ _ _ 0); [reflexivity|sizes; lia]].
  erewrite bind_run; [|apply (ld_run _ _ _ 1); [reflexivity|sizes; lia]]. by destruct a.
Qed.

Lemma cap_read o m (i : nat) a : crep o m → o_caps o !! i = Some a → get_cap (cap_ptr o (Z.of_nat i)) m = Done a m.
Proof.
  intros Hr Hi. destruct (cap_at _ _ _ _ Hr Hi) as (pre & post & -> & Hp & _). unfold get_cap.
  erewrite bind_run; [|apply (ld_run _ _ _ 0); [reflexivity|sizes; lia]].
  erewrite bind_run; [|apply (ld_run _ _ _ 1); [reflexivity|sizes; lia]].
  erewrite bind_run; [|apply (ld_run _ _ _ 2); [reflexivity|sizes; lia]].
  erewrite bind_run; [|apply (ld_run _ _ _ 3); [reflexivity|sizes; lia]].
  erewrite bind_run; [|apply (ld_run _ _ _ 4); [reflexivity|sizes; lia]].
  erewrite bind_run; [|apply (ld_run _ _ _ 5); [reflexivity|sizes; lia]]. by destruct a.
Qed.

(** ** Writing *)

Lemma symb_init_run o m (i : nat) t v : crep o m → (i < length (o_symbs o))%nat →
  ∃ m', cobj_symb_init (Z.of_nat i) t v m = Done 0 m' ∧ crep (set_symbs (<[i := MkCy t v]> (o_symbs o)) o) m'.
Proof.
  intros Hr Hi. destruct (lookup_lt_is_Some_2 _ _ Hi) as [a Ha].
  destruct (symb_at _ _ _ _ Hr Ha) as (pre & post & Hm & Hp & Hr'). exists (pre ++ symb_words (MkCy t v) ++ post). split; [|apply Hr'].
  unfold cobj_symb_init. rewrite (bind_run _ _ _ _ _ (symb_get_run _ _ _ Hr (Nat2Z.is_nonneg i))), bool_decide_true by lia. rewrite Hm.
  erewrite bind_run; [|apply (st_run _ _ _ 0); [cbn; lia|sizes; lia]].
  erewrite bind_run; [|apply (st_run _ _ _ 1); [cbn; lia|sizes; lia]]. done.
Qed.

Lemma cap_init_run o m (i : nat) off dest sfn cstub sstub flt : crep o m → (i < length (o_caps o))%nat →
  ∃ m', cobj_cap_init (Z.of_nat i) off dest sfn cstub sstub flt m = Done 0 m' ∧
    crep (set_caps (<[i := MkCc off dest flt sfn cstub sstub]> (o_caps o)) o) m'.
Proof.
  intros Hr Hi. destruct (lookup_lt_is_Some_2 _ _ Hi) as [a Ha].
  destruct (cap_at _ _ _ _ Hr Ha) as (pre & post & Hm & Hp & Hr').
  exists (pre ++ cap_words (MkCc off dest flt sfn cstub sstub) ++ post). split; [|apply Hr'].
  unfold cobj_cap_init. rewrite (bind_run _ _ _ _ _ (cap_get_run _ _ _ Hr (Nat2Z.is_nonneg i))), bool_decide_true by lia. rewrite Hm.
  erewrite bind_run; [|apply (st_run _ _ _ 1); [cbn; lia|sizes; lia]].
  erewrite bind_run; [|apply (st_run _ _ _ 3); [cbn; lia|sizes; lia]].
  erewrite bind_run; [|apply (st_run _ _ _ 4); [cbn; lia|sizes; lia]].
  erewrite bind_run; [|apply (st_run _ _ _ 5); [cbn; lia|sizes; lia]].
  erewrite bind_run; [|apply (st_run _ _ _ 0); [cbn; lia|sizes; lia]].
  erewrite bind_run; [|apply (st_run _ _ _ 2); [cbn; lia|sizes; lia]]. done.
Qed.

(** The section has no contents in the object. *)
Definition zeros (flags : Z) : bool := negb (Z.land flags COBJ_SECT_ZEROS =? 0).

(** The end of the contents of a section. *)
Definition sect_end (s : cobj_sect) : Z := if zeros (cs_flags s) then cs_offset s else cs_offset s + cs_bytes s.

(** Where the contents of section [i] go. *)
Definition sect_off o (i : nat) : option Z :=
  match i with O => Some (content_offset o) | S j => sect_end <$> o_sects o !! j end.

Lemma uninit_never flags : (Z.land flags COBJ_SECT_UNINIT =? 0) = true.
Proof. unfold COBJ_SECT_UNINIT. by rewrite Z.land_0_r. Qed.

Lemma next_offset_run o m (i : nat) off : crep o m → (i ≤ length (o_sects o))%nat → sect_off o i = Some off → 0 ≤ off < 2 ^ 32 →
  next_offset (Z.of_nat i) m = Done (Some off) m.
Proof.
  intros Hr Hi Ho Hlt. unfold next_offset. destruct i as [|j].
  - change (Z.of_nat 0 =? 0) with true. cbv match. rewrite (bind_run _ _ _ _ _ (content_offset_run _ _ Hr)). by injection Ho as <-.
  - destruct (Z.eqb_spec (Z.of_nat (S j)) 0) as [|_]; [lia|]. replace (Z.of_nat (S j) - 1) with (Z.of_nat j) by lia.
    cbn in Ho. apply fmap_Some in Ho as (a & Ha & ->).
    rewrite (bind_run _ _ _ _ _ (sect_get_run _ _ _ Hr (Nat2Z.is_nonneg j))), bool_decide_true by lia. mrun.
    rewrite (bind_run _ _ _ _ _ (proj1 (sect_read _ _ _ _ Hr Ha))), uninit_never. cbn [negb]. fold (zeros (cs_flags a)).
    unfold sect_end in *. destruct (zeros (cs_flags a)); [done|]. by rewrite u32_small.
Qed.

Lemma sect_init_run o m (i : nat) flags vaddr size off :
  crep o m → (i < length (o_sects o))%nat → sect_off o i = Some off → 0 ≤ off → 0 ≤ size → off + size < 2 ^ 32 →
  if zeros flags || (off + size <=? o_size o)
  then ∃ m', cobj_sect_init (Z.of_nat i) flags vaddr size m = Done 0 m' ∧
    crep (set_sects (<[i := MkCs flags off vaddr size]> (o_sects o)) o) m'
  else cobj_sect_init (Z.of_nat i) flags vaddr size m = Done (-1) m.
Proof.
  intros Hr Hi Ho H0 Hsz Hlt. destruct (lookup_lt_is_Some_2 _ _ Hi) as [a Ha].
  assert (Hrun : cobj_sect_init (Z.of_nat i) flags vaddr size m =
    (if zeros flags || (off + size <=? o_size o) then
       let p := sect_ptr (Z.of_nat i) in st (p + 4) off;; st (p + 12) size;; st (p + 8) vaddr;; st p flags;; mret 0
     else mret (-1)) m).
  { unfold cobj_sect_init. rewrite (bind_run _ _ _ _ _ (nsect_run _ _ Hr)). destruct (Z.leb_spec (len (o_sects o)) (Z.of_nat i)); [lia|].
    assert (Hle : (i ≤ length (o_sects o))%nat) by lia. assert (Hob : 0 ≤ off < 2 ^ 32) by lia.
    rewrite (bind_run _ _ _ _ _ (next_offset_run _ _ _ _ Hr Hle Ho Hob)), (bind_run _ _ _ _ _ (size_run _ _ Hr)).
    rewrite u32_small by lia. unfold zeros. rewrite Z.ltb_antisym. destruct (Z.land flags COBJ_SECT_ZEROS =? 0), (off + size <=? o_size o); cbn; try done;
      rewrite (bind_run _ _ _ _ _ (sect_get_run _ _ _ Hr (Nat2Z.is_nonneg i))), bool_decide_true by lia; by mrun. }
  rewrite Hrun. destruct (_ || _); [|done].
  destruct (sect_at _ _ _ _ Hr Ha) as (pre & post & Hm & Hp & Hr'). exists (pre ++ sect_words (MkCs flags off vaddr size) ++ post).
  split; [|apply Hr']. cbv zeta. rewrite Hm.
  erewrite bind_run; [|apply (st_run _ _ _ 1); [cbn; lia|sizes; lia]].
  erewrite bind_run; [|apply (st_run _ _ _ 3); [cbn; lia|sizes; lia]].
  erewrite bind_run; [|apply (st_run _ _ _ 2); [cbn; lia|sizes; lia]].
  erewrite bind_run; [|apply (st_run _ _ _ 0); [cbn; lia|sizes; lia]]. done.
Qed.

(** Reading the contents, the size and the address of a section. *)
Lemma sect_info_run o m (i : nat) a : crep o m → o_sects o !! i = Some a →
  cobj_sect_contents (Z.of_nat i) m = Done (if zeros (cs_flags a) then None else Some (cs_offset a)) m ∧
  cobj_sect_size (Z.of_nat i) m = Done (cs_bytes a) m ∧ cobj_sect_addr (Z.of_nat i) m = Done (cs_vaddr a) m.
Proof.
  intros Hr Hi. pose proof (lookup_lt_Some _ _ _ Hi) as Hlt. destruct (sect_read _ _ _ _ Hr Hi) as (_ & Hf & Ho & Hv & Hb).
  pose proof (sect_get_run _ _ _ Hr (Nat2Z.is_nonneg i)) as Hg. rewrite bool_decide_true in Hg by lia.
  assert (He : cobj_sect_empty (Z.of_nat i) m = Done (Z.land (cs_flags a) COBJ_SECT_ZEROS) m).
  { unfold cobj_sect_empty. by rewrite (bind_run _ _ _ _ _ Hg), (bind_run _ _ _ _ _ Hf), uninit_never. }
  split_and!.
  - unfold cobj_sect_contents. rewrite (bind_run _ _ _ _ _ He). fold (zeros (cs_flags a)). destruct (zeros (cs_flags a)); [done|].
    by rewrite (bind_run _ _ _ _ _ Hg), (bind_run _ _ _ _ _ Hf), uninit_never; cbn [negb]; rewrite (bind_run _ _ _ _ _ Ho).
  - unfold cobj_sect_size, sect_field. by rewrite (bind_run _ _ _ _ _ Hg), (bind_run _ _ _ _ _ Hf), uninit_never.
  - unfold cobj_sect_addr, sect_field. by rewrite (bind_run _ _ _ _ _ Hg), (bind_run _ _ _ _ _ Hf), uninit_never.
Qed.
End Descriptors.

(** ** A new object *)

Lemma zero_run pre w post p : p = 4 * len pre → zero p (len w) (pre ++ w ++ post) = Done tt (pre ++ replicate (length w) 0 ++ post).
Proof.
  intros ->. unfold zero. set (body := λ i, st _ 0).
  assert (Hwp : wp (for_range 0 (len w) body)
    (λ _ m, m = pre ++ replicate (Z.to_nat (len w)) 0 ++ drop (Z.to_nat (len w)) w ++ post) (pre ++ w ++ post)).
  { apply (for_range_wp (λ i m, m = pre ++ replicate (Z.to_nat i) 0 ++ drop (Z.to_nat i) w ++ post)); [lia|done|].
    intros i m Hi ->. unfold wp, body. set (k := Z.to_nat i).
    destruct (drop k w) as [|x l] eqn:Ed; [apply (f_equal length) in Ed; rewrite length_drop in Ed; cbn in Ed; lia|].
    rewrite (app_assoc pre). change ((x :: l) ++ post) with ([x] ++ l ++ post).
    rewrite (st_run (pre ++ replicate k 0) [x] (l ++ post) 0); [|cbn; lia|rewrite length_app, length_replicate; lia].
    cbn [insert list_insert app]. replace (Z.to_nat (i + 1)) with (S k) by lia.
    rewrite replicate_S_end, <- !app_assoc. cbn [app]. do 3 f_equal.
    replace (S k) with (k + 1)%nat by lia. rewrite <- drop_drop, Ed. done. }
  apply wp_Done in Hwp as ([] & m' & E & ->). rewrite E, Nat2Z.id, drop_all. done.
Qed.

Lemma bind_replicate {A} (f : A → list Z) a k n : f a = replicate k 0 → replicate n a ≫= f = replicate (n * k) 0.
Proof. intros Hf. induction n as [|n IH]; [done|]. cbn. rewrite Hf. rewrite replicate_add. f_equal. exact IH. Qed.

Definition sect0 : cobj_sect := MkCs 0 0 0 0.
Definition symb0 : cobj_symb := MkCy 0 0.
Definition cap0 : cobj_cap := MkCc 0 0 0 0 0 0.

(** The bytes of an object with [contents] bytes in its sections. *)
Definition total (ns ny nc : nat) (contents : Z) : Z :=
  contents + header_sz + sect_sz * Z.of_nat ns + symb_sz * Z.of_nat ny + cap_sz * Z.of_nat nc.

Definition new_cobj (id : Z) (ns ny nc : nat) (contents : Z) : cobj :=
  MkO id (replicate ns sect0) (replicate ny symb0) (replicate nc cap0) (total ns ny nc contents).

Lemma total_run (ns ny nc : nat) contents : 0 ≤ contents → total ns ny nc contents < 2 ^ 32 →
  u32 (Z.of_nat ns * sect_sz + Z.of_nat ny * symb_sz + Z.of_nat nc * cap_sz) = 4 * Z.of_nat (4 * ns + 2 * ny + 6 * nc) ∧
  u32 (contents + header_sz + 4 * Z.of_nat (4 * ns + 2 * ny + 6 * nc)) = total ns ny nc contents.
Proof.
  unfold total, header_sz, sect_sz, symb_sz, cap_sz. intros H0 Hlt. split; rewrite u32_small by lia; lia.
Qed.

Lemma cobj_create_run id (ns ny nc : nat) contents sz m :
  0 ≤ contents → total ns ny nc contents < 2 ^ 32 → sz ≤ 4 * len m →
  if total ns ny nc contents <=? sz
  then ∃ m', cobj_create id (Z.of_nat ns) contents (Z.of_nat ny) (Z.of_nat nc) true sz m = Done (Some 0) m' ∧
    crep (new_cobj id ns ny nc contents) m'
  else cobj_create id (Z.of_nat ns) contents (Z.of_nat ny) (Z.of_nat nc) true sz m = Done None m.
Proof.
  intros H0 Hlt Hsz. destruct (total_run _ _ _ _ H0 Hlt) as [Hd Ht]. unfold cobj_create. rewrite Hd, Ht. cbn [negb].
  rewrite Z.ltb_antisym. destruct (Z.leb_spec (total ns ny nc contents) sz) as [Hle|]; cbn [negb]; [|done].
  set (k := (4 * ns + 2 * ny + 6 * nc)%nat) in *.
  assert (Hk : (5 + k ≤ length m)%nat) by (unfold total, header_sz, sect_sz, symb_sz, cap_sz in *; lia).
  do 5 (destruct m as [|? m]; [cbn in Hk; lia|]). cbn [length] in Hk.
  rewrite <- (take_drop k m). set (w := take k m). set (rest := drop k m).
  assert (Hw : length w = k) by (unfold w; rewrite length_take; lia).
  change (z :: z0 :: z1 :: z2 :: z3 :: w ++ rest) with ([] ++ [z; z0; z1; z2; z3] ++ w ++ rest).
  do 5 (erewrite bind_run; [|first [apply (st_run _ _ _ 0); [cbn; lia|done]|apply (st_run _ _ _ 1); [cbn; lia|done]
    |apply (st_run _ _ _ 2); [cbn; lia|done]|apply (st_run _ _ _ 3); [cbn; lia|done]|apply (st_run _ _ _ 4); [cbn; lia|done]]]).
  eexists. split.
  - erewrite bind_run; [done|]. rewrite app_nil_l. replace (4 * Z.of_nat k / 4) with (len w) by (rewrite Hw, Z.mul_comm, Z.div_mul; lia).
    apply zero_run. done.
  - split; [unfold content_offset, new_cobj, total in *; cbn; rewrite !length_replicate; unfold header_sz, sect_sz, symb_sz, cap_sz in *; lia|].
    exists rest. rewrite Hw. unfold new_cobj, header_words. cbn [o_sects o_symbs o_caps o_id o_size].
    rewrite (bind_replicate sect_words _ 4), (bind_replicate symb_words _ 2), (bind_replicate cap_words _ 6) by done.
    rewrite !length_replicate. cbn [insert list_insert app]. do 5 f_equal.
    unfold k. replace (4 * ns + 2 * ny + 6 * nc)%nat with (ns * 4 + (ny * 2 + nc * 6))%nat by lia. by rewrite !replicate_add, <- !app_assoc.
Qed.

(** ** Sections in order *)

(** A section to set up: flags, address, bytes. *)
Record sreq : Set := MkReq { rq_flags : Z; rq_vaddr : Z; rq_size : Z }.

Fixpoint init_sects (i : Z) (rs : list sreq) : M (list Z) (list Z) :=
  match rs with
  | [] => mret []
  | r :: rs =>
      x ← cobj_sect_init i (rq_flags r) (rq_vaddr r) (rq_size r);
      l ← init_sects (i + 1) rs;
      mret (x :: l)
  end.

(** The bytes a section takes in the object. *)
Definition body (r : sreq) : Z := if zeros (rq_flags r) then 0 else rq_size r.
Definition bodies (rs : list sreq) : Z := foldr (λ r n, body r + n) 0 rs.
Definition placed (off : Z) (r : sreq) : cobj_sect := MkCs (rq_flags r) off (rq_vaddr r) (rq_size r).

Fixpoint layout (off : Z) (rs : list sreq) : list cobj_sect :=
  match rs with
  | [] => []
  | r :: rs => placed off r :: layout (off + body r) rs
  end.

Lemma length_layout rs : ∀ off, length (layout off rs) = length rs.
Proof. induction rs as [|r rs IH]; intros off; cbn; [done|]. by rewrite IH. Qed.

Lemma body_bounds r : 0 ≤ rq_size r → 0 ≤ body r ≤ rq_size r.
Proof. unfold body. destruct (zeros _); lia. Qed.

Lemma bodies_nonneg rs : Forall (λ r, 0 ≤ rq_size r) rs → 0 ≤ bodies rs.
Proof. induction 1 as [|r rs Hr _ IH]; cbn; [lia|]. pose proof (body_bounds r Hr). fold (bodies rs). lia. Qed.

Lemma placed_end off r : sect_end (placed off r) = off + body r.
Proof. unfold sect_end, body. cbn. destruct (zeros _); lia. Qed.

(** The sections before [i] are set up and end at [off]. *)
Lemma init_sects_run o rs : ∀ m done_ rest off,
  crep (set_sects (done_ ++ rest) o) m → sect_off (set_sects (done_ ++ rest) o) (length done_) = Some off → 0 ≤ off →
  (length rs ≤ length rest)%nat → Forall (λ r, 0 ≤ rq_size r ∧ off + bodies rs + rq_size r < 2 ^ 32) rs → off + bodies rs ≤ o_size o →
  ∃ m', init_sects (Z.of_nat (length done_)) rs m = Done (replicate (length rs) 0) m' ∧
    crep (set_sects (done_ ++ layout off rs ++ drop (length rs) rest) o) m'.
Proof.
  induction rs as [|r rs IH]; intros m dn rest off Hr Ho H0 Hlen Hsz Htot; [by exists m|].
  destruct rest as [|s rest]; [cbn in Hlen; lia|]. apply Forall_cons_1 in Hsz as [[Hs Hlt] Hsz]. cbn [bodies foldr] in *. fold (bodies rs) in *.
  pose proof (body_bounds r Hs) as Hb.
  assert (Hbs : 0 ≤ bodies rs) by (apply bodies_nonneg; eapply Forall_impl; [|exact Hsz]; by intros r' [? _]).
  pose proof (sect_init_run _ m (length dn) (rq_flags r) (rq_vaddr r) (rq_size r) off Hr) as Hinit.
  cbn [o_sects set_sects o_size] in Hinit. rewrite length_app in Hinit. cbn [length] in Hinit.
  specialize (Hinit ltac:(lia) Ho H0 Hs ltac:(lia)).
  assert (Hok : zeros (rq_flags r) || (off + rq_size r <=? o_size o) = true).
  { unfold body in *. destruct (zeros (rq_flags r)); [done|]. cbn. apply Z.leb_le. lia. }
  rewrite Hok in Hinit. destruct Hinit as (m1 & E1 & Hr1).
  rewrite insert_app_r_alt, Nat.sub_diag in Hr1 by lia. cbn [insert list_insert] in Hr1. fold (placed off r) in Hr1.
  destruct (IH m1 (dn ++ [placed off r]) rest (off + body r)) as (m2 & E2 & Hr2).
  - by rewrite <- app_assoc.
  - rewrite length_app, Nat.add_1_r. cbn [sect_off o_sects set_sects].
    rewrite <- app_assoc. cbn [app]. rewrite list_lookup_middle by done. cbn. by rewrite placed_end.
  - lia.
  - cbn in Hlen. lia.
  - eapply Forall_impl; [|exact Hsz]. intros r' [Hr' Hl']. split; [done|lia].
  - lia.
  - exists m2. split.
    + cbn [init_sects]. rewrite (bind_run _ _ _ _ _ E1). rewrite length_app in E2. cbn [length] in E2.
      replace (Z.of_nat (length dn) + 1) with (Z.of_nat (length dn + 1)) by lia. by rewrite (bind_run _ _ _ _ _ E2).
    + cbn [layout length drop]. by rewrite <- app_assoc in Hr2.
Qed.

Lemma layout_lookup rs : ∀ off i r, layout off rs !! i = placed (off + bodies (take i rs)) <$> rs !! i ∧
  (rs !! i = Some r → Forall (λ r, 0 ≤ rq_size r) rs → bodies (take i rs) + body r ≤ bodies rs ∧ 0 ≤ bodies (take i rs)).
Proof.
  induction rs as [|r0 rs IH]; intros off i r; [by destruct i|]. destruct i as [|i].
  - cbn. rewrite Z.add_0_r. split; [done|]. intros [= <-] [H0 Hs]%Forall_cons_1. fold (bodies rs).
    pose proof (bodies_nonneg rs Hs). lia.
  - destruct (IH (off + body r0) i r) as [IH1 IH2]. split.
    + change (layout (off + body r0) rs !! i = placed (off + (body r0 + bodies (take i rs))) <$> rs !! i).
      by rewrite IH1, Z.add_assoc.
    + intros Hi [H0 Hs]%Forall_cons_1. destruct (IH2 Hi Hs). pose proof (body_bounds r0 H0).
      cbn. fold (bodies (take i rs)) (bodies rs). lia.
Qed.

(** The contents of an earlier section end before a later one begins. *)
Lemma layout_order rs : ∀ i j r, (i < j)%nat → rs !! i = Some r → (j ≤ length rs)%nat → Forall (λ r, 0 ≤ rq_size r) rs →
  bodies (take i rs) + body r ≤ bodies (take j rs).
Proof.
  intros i j r Hij Hi Hj Hs. destruct (layout_lookup (take j rs) 0 i r) as [_ H].
  rewrite take_take, Nat.min_l in H by lia. apply H; [|by apply Forall_take]. by rewrite lookup_take_lt.
Qed.

(** The object with the sections of [rs] in its first descriptors. *)
Definition with_sects (o : cobj) (rs : list sreq) : cobj :=
  set_sects (layout (content_offset o) rs ++ drop (length rs) (o_sects o)) o.

Lemma sections_run o m rs : crep o m → (length rs ≤ length (o_sects o))%nat → Forall (λ r, 0 ≤ rq_size r) rs →
  Forall (λ r, o_size o + rq_size r < 2 ^ 32) rs → content_offset o + bodies rs ≤ o_size o →
  ∃ m', init_sects 0 rs m = Done (replicate (length rs) 0) m' ∧ crep (with_sects o rs) m'.
Proof.
  intros Hr Hlen Hs Hlt Htot. apply (init_sects_run o rs m [] (o_sects o)); [by destruct o|done| |done| |done].
  - unfold content_offset, header_sz, sect_sz, symb_sz, cap_sz. lia.
  - apply Forall_forall. intros r Hin. rewrite Forall_forall in Hs, Hlt. split; [by apply Hs|]. specialize (Hlt r Hin). cbn in Hlt. lia.
Qed.

(** ** Theorems *)

(** C27. An object that was created and whose sections were set up in order reads
    back as it was asked for: each section has its address and its size, and
    the contents of the sections that are not all zeros lie behind all
    descriptors and inside of the object, no two of them overlapping. *)
Theorem cobj_sections_disjoint id (ns ny nc : nat) contents sz m rs :
  0 ≤ contents → total ns ny nc contents ≤ sz ≤ 4 * Z.of_nat (length m) → (length rs ≤ ns)%nat →
  Forall (λ r, 0 ≤ rq_size r) rs → Forall (λ r, total ns ny nc contents + rq_size r < 2 ^ 32) rs →
  bodies rs ≤ contents → total ns ny nc contents < 2 ^ 32 →
  ∃ m1 m2, cobj_create id (Z.of_nat ns) contents (Z.of_nat ny) (Z.of_nat nc) true sz m = Done (Some 0) m1 ∧
    init_sects 0 rs m1 = Done (replicate (length rs) 0) m2 ∧
    ∀ (i : nat) r, rs !! i = Some r →
      cobj_sect_size (Z.of_nat i) m2 = Done (rq_size r) m2 ∧ cobj_sect_addr (Z.of_nat i) m2 = Done (rq_vaddr r) m2 ∧
      if zeros (rq_flags r) then cobj_sect_contents (Z.of_nat i) m2 = Done None m2
      else ∃ off, cobj_sect_contents (Z.of_nat i) m2 = Done (Some off) m2 ∧
        total ns ny nc 0 ≤ off ∧ off + rq_size r ≤ total ns ny nc contents ∧
        ∀ (j : nat) r' off', i ≠ j → rs !! j = Some r' → cobj_sect_contents (Z.of_nat j) m2 = Done (Some off') m2 →
          off + rq_size r ≤ off' ∨ off' + rq_size r' ≤ off.
Proof.
  intros H0 [Hle Hsz] Hlen Hs Hlt Hb Ht. pose proof (cobj_create_run id ns ny nc contents sz m H0 Ht Hsz) as Hc.
  rewrite (proj2 (Z.leb_le _ _)) in Hc by done. destruct Hc as (m1 & E1 & Hr1). set (o := new_cobj id ns ny nc contents) in *.
  assert (Hco : content_offset o = total ns ny nc 0) by (unfold content_offset, total, o, new_cobj; cbn; rewrite !length_replicate; lia).
  assert (Hcb : content_offset o + bodies rs ≤ o_size o) by (rewrite Hco; unfold total, o, new_cobj in *; cbn; unfold total; lia).
  destruct (sections_run o m1 rs Hr1) as (m2 & E2 & Hr2); [unfold o; cbn; by rewrite length_replicate|done|done|done|].
  exists m1, m2. do 2 (split; [done|]).
  assert (Hat : ∀ i r, rs !! i = Some r → o_sects (with_sects o rs) !! i = Some (placed (content_offset o + bodies (take i rs)) r)).
  { intros i r Hi. cbn. rewrite lookup_app_l by (rewrite length_layout; by eapply lookup_lt_Some).
    rewrite (proj1 (layout_lookup rs (content_offset o) i r)), Hi. done. }
  intros i r Hi. destruct (sect_info_run _ _ _ _ Hr2 (Hat i r Hi)) as (Hcn & Hss & Hsa). cbn in Hcn, Hss, Hsa. do 2 (split; [done|]).
  destruct (zeros (rq_flags r)) eqn:Hz; [done|]. eexists. split; [exact Hcn|].
  destruct (proj2 (layout_lookup rs 0 i r) Hi Hs) as [Hbi Hbn].
  assert (Hbody : body r = rq_size r) by (unfold body; by rewrite Hz). split; [lia|].
  split; [unfold o in Hcb; cbn in Hcb; unfold o; lia|].
  intros j r' off' Hne Hj Hc'. destruct (sect_info_run _ _ _ _ Hr2 (Hat j r' Hj)) as (Hcn' & _). cbn in Hcn'. rewrite Hcn' in Hc'.
  destruct (zeros (rq_flags r')) eqn:Hz'; [done|]. injection Hc' as <-.
  assert (Hbody' : body r' = rq_size r') by (unfold body; by rewrite Hz'). pose proof (lookup_lt_Some _ _ _ Hi). pose proof (lookup_lt_Some _ _ _ Hj).
  destruct (decide (i < j)%nat).
  - left. pose proof (layout_order rs i j r ltac:(lia) Hi ltac:(lia) Hs). lia.
  - right. pose proof (layout_order rs j i r' ltac:(lia) Hj ltac:(lia) Hs). lia.
Qed.

(** What is written to a descriptor is read back, and nothing else of the
    object changes: for an object with the symbols, capabilities and sections of
    [o], an index in range finds its descriptor, setting up a symbol or a
    capability changes that one only, and an index out of range is refused
    without a change. *)
Theorem cobj_descriptors_roundtrip o m : crep o m →
  (∀ (i : nat) s, o_sects o !! i = Some s → ∃ p, cobj_sect_get (Z.of_nat i) m = Done (Some p) m ∧ get_sect p m = Done s m) ∧
  (∀ (i : nat) s, o_symbs o !! i = Some s → ∃ p, cobj_symb_get (Z.of_nat i) m = Done (Some p) m ∧ get_symb p m = Done s m) ∧
  (∀ (i : nat) c, o_caps o !! i = Some c → ∃ p, cobj_cap_get (Z.of_nat i) m = Done (Some p) m ∧ get_cap p m = Done c m) ∧
  (∀ (i : nat) t v, if decide (i < length (o_symbs o))%nat
     then ∃ m', cobj_symb_init (Z.of_nat i) t v m = Done 0 m' ∧ crep (set_symbs (<[i := MkCy t v]> (o_symbs o)) o) m'
     else cobj_symb_init (Z.of_nat i) t v m = Done (-1) m) ∧
  (∀ (i : nat) off dest sfn cstub sstub flt, if decide (i < length (o_caps o))%nat
     then ∃ m', cobj_cap_init (Z.of_nat i) off dest sfn cstub sstub flt m = Done 0 m' ∧
       crep (set_caps (<[i := MkCc off dest flt sfn cstub sstub]> (o_caps o)) o) m'
     else cobj_cap_init (Z.of_nat i) off dest sfn cstub sstub flt m = Done (-1) m).
Proof.
  intros Hr. assert (Hlt : ∀ A (l : list A) (i : nat) x, l !! i = Some x → Z.of_nat i < len l) by (intros A l i x H; apply lookup_lt_Some in H; lia).
  split_and!.
  - intros i s Hi. eexists. rewrite (sect_get_run _ _ _ Hr (Nat2Z.is_nonneg i)), bool_decide_true by eauto. split; [done|]. by apply (sect_read o).
  - intros i s Hi. eexists. rewrite (symb_get_run _ _ _ Hr (Nat2Z.is_nonneg i)), bool_decide_true by eauto. split; [done|]. by apply (symb_read o).
  - intros i c Hi. eexists. rewrite (cap_get_run _ _ _ Hr (Nat2Z.is_nonneg i)), bool_decide_true by eauto. split; [done|]. by apply (cap_read o).
  - intros i t v. case_decide as Hi; [by apply symb_init_run|]. unfold cobj_symb_init.
    by rewrite (bind_run _ _ _ _ _ (symb_get_run _ _ _ Hr (Nat2Z.is_nonneg i))), bool_decide_false by lia.
  - intros i off dest sfn cstub sstub flt. case_decide as Hi; [by apply cap_init_run|]. unfold cobj_cap_init.
    by rewrite (bind_run _ _ _ _ _ (cap_get_run _ _ _ Hr (Nat2Z.is_nonneg i))), bool_decide_false by lia.
Qed.

(** ** Examples *)

Lemma cobj_sections_disjoint_witness :
  ∃ m1 m2, cobj_create 0 3 20 1 1 true 120 (replicate 40 7) = Done (Some 0) m1 ∧
    init_sects 0 [MkReq 1 8 15; MkReq 8 36 5; MkReq 3 128 5] m1 = Done [0; 0; 0] m2.
Proof.
  destruct (cobj_sections_disjoint 0 3 1 1 20 120 (replicate 40 7) [MkReq 1 8 15; MkReq 8 36 5; MkReq 3 128 5])
    as (m1 & m2 & E1 & E2 & _); [lia|unfold total, header_sz, sect_sz, symb_sz, cap_sz; cbn; lia|cbn; lia| | |vm_compute; congruence|done|by exists m1, m2].
  - repeat constructor; cbn; lia.
  - repeat constructor; vm_compute; done.
Defined.

Definition cobj_example : cobj := MkO 0 [MkCs 1 68 4096 16] [MkCy 2 4100] [MkCc 0 1 2 4200 4300 4400] 84.

Lemma cobj_descriptors_roundtrip_witness : let o := cobj_example in
  let m := header_words o ++ sect_words (MkCs 1 68 4096 16) ++ [2; 4100] ++ cap_words (MkCc 0 1 2 4200 4300 4400) ++ [0; 0; 0; 0] in
  crep o m ∧ ∃ p, cobj_symb_get 0 m = Done (Some p) m ∧ get_symb p m = Done (MkCy 2 4100) m.
Proof.
  assert (Hr : crep cobj_example (header_words cobj_example ++ sect_words (MkCs 1 68 4096 16) ++ [2; 4100] ++
    cap_words (MkCc 0 1 2 4200 4300 4400) ++ [0; 0; 0; 0])) by (split; [done|by exists [0; 0; 0; 0]]).
  split; [exact Hr|]. apply (proj1 (proj2 (cobj_descriptors_roundtrip _ _ Hr)) 0%nat). done.
Defined.

(** Since [COBJ_SECT_UNINIT] is 0, a section is set up although the one before it
    was not: its contents are the header. *)
Lemma sect_init_unordered :
  ∃ m1 m2, cobj_create 0 2 20 0 0 true 72 (replicate 18 7) = Done (Some 0) m1 ∧
    cobj_sect_init 1 1 4096 8 m1 = Done 0 m2 ∧ cobj_sect_contents 1 m2 = Done (Some 0) m2.
Proof. do 2 eexists. split; [vm_compute; reflexivity|]. split; vm_compute; reflexivity. Qed.

(** The size wraps around: an object with far more sections than the space has
    room for is accepted. *)
Lemma create_wraps : cobj_create 0 (2 ^ 28) 0 0 0 true 20 (replicate 5 7) = Done (Some 0) [0; 2 ^ 28; 0; 0; 20].
Proof. vm_compute. reflexivity. Qed.
