(* ===== verification/Fs.v ===== *)
(** * The file system library

    Model of [components/include/fs.h]: a tree of directories and files.  An
    object points to its first child and to its parent, and the children of a
    directory are linked in a ring without a head.

    Objects are numbered, and freed objects are no longer there, so that
    touching one is a fault.  A string is the list of its characters without
    the final 0; a pointer into a path is the rest of the path from there. *)

From stdpp Require Import base list numbers option gmap.
From S2P Require Import Prelude CosList.
Local Open Scope Z_scope.

Inductive fsobj_type_t : Set := FSOBJ_FILE | FSOBJ_DIR | FSOBJ_ROOT.
#[export] Instance fsobj_type_eq_dec : EqDecision fsobj_type_t.
Proof. solve_decision. Defined.

(** [struct fsobj] without its links. *)
Record fsobj : Type := MkFso {
  fo_name : list Z;
  fo_type : fsobj_type_t;
  fo_size : Z;
  fo_allocated : Z;
  fo_refcnt : Z;
  fo_flags : Z;
  fo_data : option (list Z);
  fo_child : option nat;
  fo_parent : option nat;
}.

Definition set_fo_refcnt (v : Z) (o : fsobj) : fsobj :=
  MkFso (fo_name o) (fo_type o) (fo_size o) (fo_allocated o) v (fo_flags o) (fo_data o) (fo_child o) (fo_parent o).
Definition set_fo_flags (v : Z) (o : fsobj) : fsobj :=
  MkFso (fo_name o) (fo_type o) (fo_size o) (fo_allocated o) (fo_refcnt o) v (fo_data o) (fo_child o) (fo_parent o).
Definition set_fo_child (v : option nat) (o : fsobj) : fsobj :=
  MkFso (fo_name o) (fo_type o) (fo_size o) (fo_allocated o) (fo_refcnt o) (fo_flags o) (fo_data o) v (fo_parent o).
Definition set_fo_parent (v : option nat) (o : fsobj) : fsobj :=
  MkFso (fo_name o) (fo_type o) (fo_size o) (fo_allocated o) (fo_refcnt o) (fo_flags o) (fo_data o) (fo_child o) v.
Definition set_fo_content (size allocated : Z) (data : option (list Z)) (o : fsobj) : fsobj :=
  MkFso (fo_name o) (fo_type o) size allocated (fo_refcnt o) (fo_flags o) data (fo_child o) (fo_parent o).

(** The memory of the objects.  [fs_mem] says whether the next calls of [malloc]
    succeed (all of them at its end). *)
Record fstate : Type := MkFs {
  fs_links : gmap nat (nat * nat);
  fs_objs : gmap nat fsobj;
  fs_mem : list bool;
}.

Definition set_fs_links (v : gmap nat (nat * nat)) (s : fstate) : fstate := MkFs v (fs_objs s) (fs_mem s).
Definition set_fs_objs (v : gmap nat fsobj) (s : fstate) : fstate := MkFs (fs_links s) v (fs_mem s).
Definition set_fs_mem (v : list bool) (s : fstate) : fstate := MkFs (fs_links s) (fs_objs s) v.

#[export] Instance fs_store : LinkStore fstate nat.
Proof. refine {| ls_get := fs_links; ls_set := set_fs_links |}; [done..|by intros []]. Defined.

#[local] Abbreviation F := (M fstate).
#[local] Abbreviation FIRST_LIST := (FIRST_LIST (S := fstate)).
#[local] Abbreviation EMPTY_LIST := (EMPTY_LIST (S := fstate)).

Definition get_obj (o : nat) : F fsobj := m ← gets fs_objs; bound (m !! o).
Definition upd_obj (o : nat) (f : fsobj → fsobj) : F unit :=
  x ← get_obj o; modify (λ s, set_fs_objs (<[o := f x]> (fs_objs s)) s).

(** Whether [FS_ALLOC] finds memory. *)
Definition fs_avail : F bool :=
  l ← gets fs_mem;
  match l with
  | [] => mret true
  | b :: l => modify (set_fs_mem l);; mret b
  end.

Definition fs_init_root (o : nat) : F unit :=
  upd_obj o (λ x, MkFso [] FSOBJ_DIR 0 0 1 (fo_flags x) None (fo_child x) (fo_parent x));;
  INIT_LIST o;;
  upd_obj o (λ x, set_fo_child None (set_fo_parent None x)).

Definition fsobj_child_add (child parent : nat) : F Z :=
  p ← get_obj parent;
  if negb (bool_decide (fo_type p = FSOBJ_DIR)) then mret (-1)
  else
    match fo_child p with
    | None => upd_obj parent (set_fo_child (Some child))
    | Some h => ADD_LIST (mret h) child
    end;;
    upd_obj child (set_fo_parent (Some parent));;
    mret 0.

Definition fsobj_cons (o parent : nat) (name : list Z) (t : fsobj_type_t) (sz : Z) (data : option (list Z)) : F Z :=
  assert (negb (negb (sz =? 0) && bool_decide (t = FSOBJ_DIR)));;
  upd_obj o (λ x, MkFso name t sz sz 1 (fo_flags x) data (fo_child x) (fo_parent x));;
  INIT_LIST o;;
  upd_obj o (set_fo_child None);;
  fsobj_child_add o parent.

(** The character ['/'], and the part of a string before and after it. *)
Definition SLASH : Z := 47.

Fixpoint strchr (s : list Z) : list Z * option (list Z) :=
  match s with
  | [] => ([], None)
  | c :: s => if c =? SLASH then ([], Some s) else let '(a, r) := strchr s in (c :: a, r)
  end.

(** The name and the type that [name] asks for. *)
Definition name_type (name : list Z) : option (list Z * fsobj_type_t) :=
  match strchr name with
  | (a, Some []) => Some (a, FSOBJ_DIR)
  | (a, Some (_ :: _)) => None
  | (a, None) => Some (a, FSOBJ_FILE)
  end.

Definition free_obj (o : nat) : F unit :=
  modify (λ s, set_fs_links (delete o (fs_links s)) (set_fs_objs (delete o (fs_objs s)) s)).

(** New memory holds anything; the flags are the client's to set. *)
Definition fsobj_alloc (name : list Z) (parent : nat) : F (option nat) :=
  match name_type name with
  | None => mret None
  | Some (chld_name, t) =>
      b ← fs_avail;
      if negb b then mret None
      else
        m ← gets fs_objs;
        let chld := fresh (dom m : gset nat) in
        modify (λ s, set_fs_links (<[chld := (chld, chld)]> (fs_links s))
                       (set_fs_objs (<[chld := MkFso [] FSOBJ_FILE 0 0 0 0 None None None]> (fs_objs s)) s));;
        b ← fs_avail;
        if negb b then free_obj chld;; mret None
        else
          r ← fsobj_cons chld parent chld_name t 0 None;
          if negb (r =? 0) then free_obj chld;; mret None
          else mret (Some chld)
  end.

Definition fsobj_take (o : nat) : F unit :=
  x ← get_obj o;
  assert (negb (fo_refcnt x =? 0));;
  upd_obj o (set_fo_refcnt (u32 (fo_refcnt x + 1))).

(** The loop over the siblings from [sibling] on; the fuel is the number of
    objects. *)
Fixpoint find_loop (fuel : nat) (name : list Z) (first sibling : nat) : F (option nat) :=
  match fuel with
  | O => fail NoFuel
  | S fuel =>
      x ← get_obj sibling;
      if bool_decide (fo_name x = name) then mret (Some sibling)
      else
        n ← FIRST_LIST sibling;
        if bool_decide (n = first) then mret None else find_loop fuel name first n
  end.

Definition fsobj_find_child (name : list Z) (dir : nat) : F (option nat) :=
  d ← get_obj dir;
  assert (bool_decide (fo_type d = FSOBJ_DIR));;
  match fo_child d with
  | None => mret None
  | Some first => m ← gets fs_objs; find_loop (size m) name first first
  end.

Definition fsobj_rem (o : nat) (parent : option nat) : F unit :=
  x ← get_obj o;
  assert (bool_decide (parent ≠ None) || bool_decide (fo_parent x = None));;
  match parent with
  | None => mret tt
  | Some p =>
      y ← get_obj p;
      if bool_decide (fo_child y = Some o) then
        sibling ← FIRST_LIST o;
        b ← EMPTY_LIST sibling;
        upd_obj p (set_fo_child (if (b : bool) then None else Some sibling))
      else mret tt
  end;;
  REM_LIST o;;
  upd_obj o (set_fo_parent None).

Definition fsobj_free (o : nat) : F unit :=
  x ← get_obj o;
  assert (bool_decide (fo_parent x = None) && bool_decide (fo_child x = None));;
  free_obj o.

(** The first object below [curr] without children. *)
Fixpoint leaf_loop (fuel : nat) (curr : nat) : F nat :=
  x ← get_obj curr;
  match fo_child x with
  | Some c =>
      if 1 <=? fo_refcnt x then
        match fuel with O => fail NoFuel | S fuel => leaf_loop fuel c end
      else mret curr
  | None => mret curr
  end.

(** [fsobj_release], and the loop of [__fsobj_free_hier] over the tree below [o]
    from [next] on. *)
Fixpoint fsobj_release (fuel : nat) (o : nat) : F unit :=
  match fuel with
  | O => fail NoFuel
  | S fuel =>
      x ← get_obj o;
      assert (negb (fo_refcnt x =? 0));;
      upd_obj o (set_fo_refcnt (fo_refcnt x - 1));;
      if fo_refcnt x - 1 =? 0 then
        when (bool_decide (fo_child x ≠ None))
          (assert (bool_decide (fo_parent x = None));;
           hier_loop fuel o (fo_child x);;
           fsobj_rem o None);;
        fsobj_free o
      else mret tt
  end
with hier_loop (fuel : nat) (o : nat) (next : option nat) : F unit :=
  match fuel with
  | O => fail NoFuel
  | S fuel =>
      x ← get_obj o;
      if bool_decide (fo_child x = None) then mret tt
      else
        curr ← deref next;
        m ← gets fs_objs;
        curr ← leaf_loop (size m) curr;
        next ← FIRST_LIST curr;
        b ← EMPTY_LIST curr;
        c ← get_obj curr;
        let next := if (b : bool) then fo_parent c else Some next in
        assert (bool_decide (next ≠ None));;
        fsobj_rem curr (fo_parent c);;
        fsobj_release fuel curr;;
        hier_loop fuel o next
  end.

(** [__fsobj_free_hier] and [fsobj_free_hier]. *)
Definition fsobj_free_hier_ (fuel : nat) (o : nat) : F unit :=
  x ← get_obj o;
  assert (bool_decide (fo_parent x = None));;
  hier_loop fuel o (fo_child x);;
  fsobj_rem o None.

Definition fsobj_free_hier (fuel : nat) (o : nat) : F unit :=
  fsobj_free_hier_ fuel o;; fsobj_release fuel o.

Fixpoint skip_slashes (path : list Z) : list Z :=
  match path with
  | [] => []
  | c :: p => if c =? SLASH then skip_slashes p else path
  end.

(** The loop of [fsobj_path2obj]; the fuel is the length of the path.  The
    result is the object, its parent and the rest of the path that was looked
    up last. *)
Fixpoint path_loop (fuel : nat) (path : list Z) (dir : nat) (parent : option nat) : F (option nat * option nat * list Z) :=
  match skip_slashes path with
  | [] => mret (Some dir, parent, [])
  | (_ :: _) as path =>
      match fuel with
      | O => fail NoFuel
      | S fuel =>
          let '(name, next) := strchr path in
          d ← fsobj_find_child name dir;
          match d with
          | None => mret (None, Some dir, path)
          | Some d =>
              match next with
              | None => mret (Some d, Some dir, path)
              | Some rest => path_loop fuel rest d (Some dir)
              end
          end
      end
  end.

Definition fsobj_path2obj (path : list Z) (root : nat) : F (option nat * option nat * list Z) :=
  path_loop (length path) path root None.

Definition fsobj_dir_next (dir : nat) (child : option nat) : F (option nat) :=
  d ← get_obj dir;
  match child with
  | None => mret (fo_child d)
  | Some c =>
      x ← get_obj c;
      if negb (bool_decide (fo_parent x = Some dir)) then mret None
      else
        next ← FIRST_LIST c;
        if bool_decide (fo_child d = Some next) then mret None else mret (Some next)
  end.
