(* ===== verification/FsInv.v ===== *)
(** * Correctness of the file system library

    The objects form a tree: [K] gives the children of each object in the order
    of their ring.  Looking up a path walks the components between its slashes;
    a new object joins the children of its directory. *)

From stdpp Require Import base list numbers option gmap.
From S2P Require Import Prelude Ring CosList Fs.
Local Open Scope Z_scope.

(** ** Paths *)

(** The parts between the slashes, and those that are not empty. *)
Fixpoint segments (p : list Z) : list (list Z) :=
  match p with
  | [] => [[]]
  | c :: p =>
      if c =? SLASH then [] :: segments p
      else match segments p with s :: ss => (c :: s) :: ss | [] => [[c]] end
  end.
Definition components (p : list Z) : list (list Z) := filter (λ s, s ≠ []) (segments p).

Lemma segments_strchr p : ∀ a r, strchr p = (a, r) →
  segments p = match r with None => [a] | Some q => a :: segments q end ∧
  (length p = length a + match r with None => 0 | Some q => S (length q) end)%nat ∧
  p = a ++ match r with None => [] | Some q => SLASH :: q end.
Proof.
  induction p as [|c p IH]; intros a r; cbn; [by intros [= <- <-]|].
  destruct (Z.eqb_spec c SLASH) as [->|]; [by intros [= <- <-]|].
  destruct (strchr p) as [a' r'] eqn:E. intros [= <- <-]. destruct (IH _ _ eq_refl) as (Hs & Hl & Hp). rewrite Hs.
  destruct r'; cbn; split_and!; [done|lia|by f_equal|done|lia|by f_equal].
Qed.

Lemma components_skip p : components (skip_slashes p) = components p ∧ (length (skip_slashes p) ≤ length p)%nat ∧
  match skip_slashes p with [] => True | c :: _ => c ≠ SLASH end.
Proof.
  induction p as [|c p (IH1 & IH2 & IH3)]; cbn [skip_slashes]; [done|]. destruct (Z.eqb_spec c SLASH) as [->|Hne]; [|split_and!; [done|cbn; lia|done]].
  split; [by rewrite IH1|split; [cbn; lia|done]].
Qed.

Lemma components_cons p a r c q : p = c :: q → c ≠ SLASH → strchr p = (a, r) →
  components p = a :: match r with None => [] | Some q => components q end ∧ a ≠ [].
Proof.
  intros -> Hc E. destruct (segments_strchr _ _ _ E) as (Hs & _ & _).
  assert (Ha : a ≠ []).
  { cbn in E. destruct (Z.eqb_spec c SLASH); [done|]. destruct (strchr q). by injection E as <- _. }
  split; [|done]. unfold components. rewrite Hs. destruct r as [q'|]; [by rewrite filter_cons_True|].
  by rewrite filter_cons_True, filter_nil.
Qed.

(** ** Trees *)

Section Tree.
Implicit Types (K : gmap nat (list nat)) (s : fstate) (objs : gmap nat fsobj).

Record frel K s : Prop := {
  fr_dom : ∀ d, is_Some (K !! d) ↔ is_Some (fs_objs s !! d);
  fr_child : ∀ d l o, K !! d = Some l → fs_objs s !! d = Some o → fo_child o = head l;
  fr_dir : ∀ d l o, K !! d = Some l → fs_objs s !! d = Some o → l ≠ [] → fo_type o = FSOBJ_DIR;
  fr_kids : ∀ d l c, K !! d = Some l → c ∈ l → ∃ o, fs_objs s !! c = Some o ∧ fo_parent o = Some d;
  fr_parent : ∀ c o d, fs_objs s !! c = Some o → fo_parent o = Some d → ∃ l, K !! d = Some l ∧ c ∈ l;
  fr_names : ∀ d l c c' o o', K !! d = Some l → c ∈ l → c' ∈ l → fs_objs s !! c = Some o → fs_objs s !! c' = Some o' →
    fo_name o = fo_name o' → c = c';
  fr_fam : ∃ F, fam (fs_links s) F ∧ ∀ h l, F !! h = Some l ↔
    (∃ d, K !! d = Some (h :: l)) ∨ (l = [] ∧ ∃ o, fs_objs s !! h = Some o ∧ fo_parent o = None)
}.

(** The child of that name. *)
Fixpoint named objs (l : list nat) (name : list Z) : option nat :=
  match l with
  | [] => None
  | c :: l => match objs !! c with
              | Some o => if bool_decide (fo_name o = name) then Some c else named objs l name
              | None => named objs l name
              end
  end.

Definition child_of K objs (d : nat) (name : list Z) : option nat :=
  match K !! d with Some l => named objs l name | None => None end.

Lemma named_Some objs l name c : named objs l name = Some c → c ∈ l ∧ ∃ o, objs !! c = Some o ∧ fo_name o = name.
Proof.
  induction l as [|x l IH]; cbn; [done|]. destruct (objs !! x) as [o|] eqn:Ho.
  - case_bool_decide; [intros [= <-]; split; [left|eauto]|]. intros H1. destruct (IH H1). split; [by right|done].
  - intros H1. destruct (IH H1). split; [by right|done].
Qed.

Lemma named_None objs l name c o : named objs l name = None → c ∈ l → objs !! c = Some o → fo_name o ≠ name.
Proof.
  induction l as [|x l IH]; cbn; intros Hn Hc Ho; [by apply elem_of_nil in Hc|].
  apply elem_of_cons in Hc as [<-|Hc].
  - rewrite Ho in Hn. by case_bool_decide.
  - destruct (objs !! x); [case_bool_decide|]; by apply IH.
Qed.

Lemma get_obj_run s o x : fs_objs s !! o = Some x → get_obj o s = Done x s.
Proof. intros H. unfold get_obj. mrun. by rewrite H. Qed.

Lemma upd_obj_run s o f x : fs_objs s !! o = Some x →
  upd_obj o f s = Done tt (set_fs_objs (<[o := f x]> (fs_objs s)) s).
Proof. intros H. unfold upd_obj. by rewrite (bind_run _ _ _ _ _ (get_obj_run _ _ _ H)). Qed.

Lemma fs_FIRST s (F : gmap nat (list nat)) h l : fam (fs_links s) F → F !! h = Some l → FIRST_LIST h s = Done (default h (head l)) s.
Proof. exact (fam_FIRST s F h l). Qed.
Lemma fs_next s (F : gmap nat (list nat)) h l1 x l2 : fam (fs_links s) F → F !! h = Some (l1 ++ x :: l2) →
  FIRST_LIST x s = Done (default h (head l2)) s.
Proof. exact (fam_next s F h l1 x l2). Qed.
Lemma fs_INIT s (F : gmap nat (list nat)) x : fam (fs_links s) F → outside F x → is_Some (fs_links s !! x) →
  ∃ m', INIT_LIST x s = Done tt (set_fs_links m' s) ∧ fam m' (<[x := []]> F) ∧ dom m' = dom (fs_links s).
Proof. exact (fam_INIT s F x). Qed.
Lemma fs_ADD s (F : gmap nat (list nat)) h l x : fam (fs_links s) F → F !! h = Some l → outside F x → is_Some (fs_links s !! x) →
  ∃ m', ADD_LIST (mret h) x s = Done tt (set_fs_links m' s) ∧ fam m' (<[h := x :: l]> F) ∧ dom m' = dom (fs_links s).
Proof. exact (fam_ADD s F h l x). Qed.

(** The children of a directory are a ring. *)
Lemma kids_fam K s d h l : frel K s → K !! d = Some (h :: l) → ∃ F, fam (fs_links s) F ∧ F !! h = Some l ∧ NoDup (h :: l).
Proof.
  intros Hr Hd. destruct (fr_fam _ _ Hr) as (F & Hf & HF). exists F. split; [done|].
  assert (HFh : F !! h = Some l) by (apply HF; left; by exists d). split; [done|]. by apply (fam_nodup _ _ _ _ Hf).
Qed.

Lemma kids_nodup K s d l : frel K s → K !! d = Some l → NoDup l ∧ (length l ≤ size (fs_objs s))%nat.
Proof.
  intros Hr Hd. assert (Hnd : NoDup l).
  { destruct l as [|h l]; [constructor|]. by destruct (kids_fam _ _ _ _ _ Hr Hd) as (F & _ & _ & ?). }
  split; [done|]. rewrite <- (size_list_to_set (C := gset nat) l) by done. rewrite <- size_dom. apply subseteq_size.
  intros c Hc%elem_of_list_to_set. destruct (fr_kids _ _ Hr _ _ _ Hd Hc) as (o & Ho & _). apply elem_of_dom. by eexists.
Qed.

Lemma sibling_loop_run K s d name h l : frel K s → K !! d = Some (h :: l) → ∀ l2 l1 c fuel, h :: l = l1 ++ c :: l2 →
  (length l2 < fuel)%nat → find_loop fuel name h c s = Done (named (fs_objs s) (c :: l2) name) s.
Proof.
  intros Hr Hd. destruct (kids_fam _ _ _ _ _ Hr Hd) as (F & Hf & HF & Hnd).
  induction l2 as [|c' l2 IH]; intros l1 c fuel El Hfuel; (destruct fuel as [|fuel]; [cbn in Hfuel; lia|]).
  all: destruct (fr_kids _ _ Hr _ _ c Hd) as (o & Ho & _); [rewrite El; apply elem_of_app; right; left|].
  all: cbn [find_loop named]; rewrite (bind_run _ _ _ _ _ (get_obj_run _ _ _ Ho)), Ho; case_bool_decide as Hn; [done|].
  all: assert (Hnext : ∀ t, h :: l = l1 ++ c :: t → FIRST_LIST c s = Done (default h (head t)) s)
    by (intros t Et; destruct l1 as [|x l1]; [injection Et as <- ->; by eapply fs_FIRST|injection Et as <- ->; by eapply fs_next]).
  - rewrite (bind_run _ _ _ _ _ (Hnext [] El)). cbn. by rewrite bool_decide_true.
  - rewrite (bind_run _ _ _ _ _ (Hnext _ El)). cbn [default head from_option Datatypes.id]. rewrite bool_decide_false.
    + apply (IH (l1 ++ [c])); [by rewrite <- app_assoc|cbn in Hfuel; lia].
    + intros <-. destruct l1 as [|x l1]; injection El as -> ->; apply NoDup_cons in Hnd as [Hnh _]; apply Hnh; set_solver.
Qed.

Lemma find_child_run K s d o name : frel K s → fs_objs s !! d = Some o → fo_type o = FSOBJ_DIR →
  fsobj_find_child name d s = Done (child_of K (fs_objs s) d name) s.
Proof.
  intros Hr Ho Ht. unfold fsobj_find_child, child_of. rewrite (bind_run _ _ _ _ _ (get_obj_run _ _ _ Ho)).
  rewrite bool_decide_true by done. mrun. destruct (proj2 (fr_dom _ _ Hr d)) as [l Hl]; [by eexists|].
  rewrite Hl, (fr_child _ _ Hr _ _ _ Hl Ho). destruct l as [|h l]; [done|]. cbn [head]. mrun.
  apply (sibling_loop_run K s d name h l Hr Hl l []); [done|]. destruct (kids_nodup _ _ _ _ Hr Hl) as [_ Hn]. cbn in Hn. lia.
Qed.

(** ** Walking along a path *)

(** The object was found below [parent]; the first of [cs] is missing in [dir];
    the path leads through a file. *)
Inductive walked : Set :=
| WFound (d : nat) (parent : option nat)
| WMissing (dir : nat) (cs : list (list Z))
| WNotDir.

Definition is_dir objs (d : nat) : bool :=
  match objs !! d with Some o => bool_decide (fo_type o = FSOBJ_DIR) | None => false end.

Fixpoint walk K objs (dir : nat) (parent : option nat) (cs : list (list Z)) : walked :=
  match cs with
  | [] => WFound dir parent
  | c :: cs' =>
      if is_dir objs dir then
        match child_of K objs dir c with
        | None => WMissing dir cs
        | Some d => walk K objs d (Some dir) cs'
        end
      else WNotDir
  end.

(** What the lookup of a path returns. *)
Definition path_result (path : list Z) (w : walked) (s : fstate) (r : outcome fstate (option nat * option nat * list Z)) : Prop :=
  match w with
  | WFound d parent => ∃ sub, r = Done (Some d, parent, sub) s
  | WMissing dir cs => ∃ sub c q, r = Done (None, Some dir, sub) s ∧ components sub = cs ∧ sub = c :: q ∧ c ≠ SLASH ∧
      sub `suffix_of` path
  | WNotDir => r = Fault AssertFail
  end.

Lemma child_of_obj K s d name c : frel K s → child_of K (fs_objs s) d name = Some c → is_Some (fs_objs s !! c).
Proof.
  intros Hr. unfold child_of. destruct (K !! d) as [l|]; [|done]. intros (_ & o & Ho & _)%named_Some. by eexists.
Qed.

Lemma skip_suffix p : skip_slashes p `suffix_of` p.
Proof. induction p as [|c p IH]; cbn; [done|]. destruct (c =? SLASH); [by apply suffix_cons_r|done]. Qed.

Lemma path_result_suffix path path' w s r : path' `suffix_of` path → path_result path' w s r → path_result path w s r.
Proof. intros Hs. destruct w; cbn; [done| |done]. intros (sub & c & q & ? & ? & ? & ? & ?). exists sub, c, q. split_and!; try done. by etrans. Qed.

Lemma path_loop_run K s fuel : frel K s → ∀ path dir parent, (length path ≤ fuel)%nat → is_Some (fs_objs s !! dir) →
  path_result path (walk K (fs_objs s) dir parent (components path)) s (path_loop fuel path dir parent s).
Proof.
  intros Hr. induction fuel as [|fuel IH]; intros path dir parent Hlen [o Ho];
    destruct (components_skip path) as (Hc & Hl & Hns); rewrite <- Hc; cbn [path_loop];
    (destruct (skip_slashes path) as [|c q] eqn:Eq; [by exists []|]); [cbn in Hl; lia|].
  destruct (strchr (c :: q)) as [a r] eqn:Es. destruct (components_cons _ _ _ _ _ eq_refl Hns Es) as [Hcs Ha].
  destruct (segments_strchr _ _ _ Es) as (_ & Hlr & Hsp). rewrite Hcs. cbn [walk]. unfold is_dir. rewrite Ho. case_bool_decide as Ht.
  - rewrite (bind_run _ _ _ _ _ (find_child_run _ _ _ _ a Hr Ho Ht)).
    destruct (child_of K (fs_objs s) dir a) as [d|] eqn:Ed; [|exists (c :: q), c, q; rewrite Hcs; split_and!; try done; rewrite <- Eq; apply skip_suffix].
    destruct r as [rest|]; [|by exists (c :: q)].
    assert (Hsuf : rest `suffix_of` path).
    { etrans; [|apply skip_suffix]. rewrite Eq, Hsp. exists (a ++ [SLASH]). by rewrite <- app_assoc. }
    eapply path_result_suffix; [exact Hsuf|]. apply IH; [cbn in Hlr, Hl; lia|]. by eapply child_of_obj.
  - unfold fsobj_find_child, path_result. unfold get_obj. mrun. rewrite Ho. mrun. by rewrite bool_decide_false.
Qed.

Lemma path2obj_run K s path root : frel K s → is_Some (fs_objs s !! root) →
  path_result path (walk K (fs_objs s) root None (components path)) s (fsobj_path2obj path root s).
Proof. intros Hr Ho. by apply path_loop_run. Qed.

(** ** A new object *)

(** A child joins behind the first one. *)
Definition join (c : nat) (l : list nat) : list nat := match l with [] => [c] | h :: l => h :: c :: l end.
Definition add_kid K (d c : nat) : gmap nat (list nat) := <[c := []]> (<[d := join c (default [] (K !! d))]> K).
Definition new_obj (name : list Z) (t : fsobj_type_t) (parent : nat) : fsobj := MkFso name t 0 0 1 0 None None (Some parent).

Lemma elem_of_join x c l : x ∈ join c l ↔ x = c ∨ x ∈ l.
Proof. destruct l; cbn; set_solver. Qed.

Lemma head_join c l : head (join c l) = Some (default c (head l)).
Proof. by destruct l. Qed.

Lemma frel_outside K s F c : frel K s → (∀ h l, F !! h = Some l ↔
    (∃ d, K !! d = Some (h :: l)) ∨ (l = [] ∧ ∃ o, fs_objs s !! h = Some o ∧ fo_parent o = None)) →
  fs_objs s !! c = None → outside F c.
Proof.
  intros Hr HF Hc h l [(d & Hd)|(-> & o & Ho & _)]%HF Hin.
  - destruct (fr_kids _ _ Hr _ _ _ Hd Hin) as (o & Ho & _). congruence.
  - apply list_elem_of_singleton in Hin as <-. congruence.
Qed.

(** The tree with the new child. *)
Lemma frel_add K s s' d l p c name t F : frel K s → K !! d = Some l → fs_objs s !! d = Some p → fo_type p = FSOBJ_DIR →
  fs_objs s !! c = None → named (fs_objs s) l name = None →
  fs_objs s' = <[c := new_obj name t d]> (<[d := set_fo_child (head (join c l)) p]> (fs_objs s)) →
  fam (fs_links s') F → (∀ h k, F !! h = Some k ↔ (∃ d', add_kid K d c !! d' = Some (h :: k)) ∨
    (k = [] ∧ ∃ o, fs_objs s !! h = Some o ∧ fo_parent o = None)) →
  frel (add_kid K d c) s'.
Proof.
  intros Hr Hd Hp Ht Hc Hn Hobjs Hf HF. assert (Hdc : d ≠ c) by congruence.
  assert (HK : ∀ x k, add_kid K d c !! x = Some k ↔ x = c ∧ k = [] ∨ x = d ∧ k = join c l ∨ x ≠ c ∧ x ≠ d ∧ K !! x = Some k).
  { intros x k. unfold add_kid. rewrite Hd. cbn. rewrite !lookup_insert. repeat case_decide; naive_solver. }
  assert (HO : ∀ x o, fs_objs s' !! x = Some o ↔ x = c ∧ o = new_obj name t d ∨ x = d ∧ o = set_fo_child (head (join c l)) p ∨
    x ≠ c ∧ x ≠ d ∧ fs_objs s !! x = Some o).
  { intros x o. rewrite Hobjs, !lookup_insert. repeat case_decide; naive_solver. }
  assert (Hold : ∀ x o, fs_objs s !! x = Some o → ∃ o', fs_objs s' !! x = Some o' ∧ fo_name o' = fo_name o ∧ fo_parent o' = fo_parent o).
  { intros x o Hx. destruct (decide (x = d)) as [->|]; [|exists o; rewrite HO; naive_solver congruence].
    eexists. split; [apply HO; right; left; done|]. by assert (o = p) as -> by congruence. }
  assert (Hcn : ∀ x k, K !! x = Some k → c ∉ k).
  { intros x k Hx Hin. destruct (fr_kids _ _ Hr _ _ _ Hx Hin) as (? & ? & _). congruence. }
  assert (HcK : K !! c = None).
  { destruct (K !! c) eqn:E; [|done]. destruct (proj1 (fr_dom _ _ Hr c)); [by eexists|congruence]. }
  split.
  - intros x. split.
    + intros [k [[-> _]|[[-> _]|(? & ? & Hx)]]%HK]; [eexists; apply HO; by left|eexists; apply HO; right; by left|].
      destruct (proj1 (fr_dom _ _ Hr x)) as [o Ho]; [by eexists|]. exists o. apply HO. by right; right.
    + intros [o [[-> _]|[[-> _]|(? & ? & Hx)]]%HO]; [eexists; apply HK; by left|eexists; apply HK; right; by left|].
      destruct (proj2 (fr_dom _ _ Hr x)) as [k Hk]; [by eexists|]. exists k. apply HK. by right; right.
  - intros x k o [[-> ->]|[[-> ->]|(? & ? & Hx)]]%HK [[? ->]|[[? ->]|(? & ? & Ho)]]%HO; try done. by eapply (fr_child _ _ Hr).
  - intros x k o [[-> ->]|[[-> ->]|(? & ? & Hx)]]%HK [[? ->]|[[? ->]|(? & ? & Ho)]]%HO; try done. by eapply (fr_dir _ _ Hr).
  - intros x k y [[-> ->]|[[-> ->]|(? & ? & Hx)]]%HK Hy; [by apply elem_of_nil in Hy| |].
    + apply elem_of_join in Hy as [->|Hy]; [eexists; split; [apply HO; by left|done]|].
      destruct (fr_kids _ _ Hr _ _ _ Hd Hy) as (o & Ho & Hop). destruct (Hold _ _ Ho) as (o' & Ho' & _ & Hpo). exists o'. split; [done|congruence].
    + destruct (fr_kids _ _ Hr _ _ _ Hx Hy) as (o & Ho & Hop). destruct (Hold _ _ Ho) as (o' & Ho' & _ & Hpo). exists o'. split; [done|congruence].
  - intros y o x [[-> ->]|Hy]%HO Hox.
    { injection Hox as <-. eexists. split; [apply HK; right; by left|]. apply elem_of_join. by left. }
    assert (∃ o0, fs_objs s !! y = Some o0 ∧ fo_parent o0 = Some x) as (o0 & Ho0 & Hp0) by naive_solver.
    destruct (fr_parent _ _ Hr _ _ _ Ho0 Hp0) as (k & Hk & Hin). destruct (decide (x = d)) as [->|].
    + eexists. split; [apply HK; right; by left|]. apply elem_of_join. right. by assert (k = l) as -> by congruence.
    + exists k. split; [|done]. apply HK. right. right. naive_solver congruence.
  - intros x k y y' o o' Hk Hy Hy' Ho Ho' Hname.
    assert (Hnm : ∀ y o, fs_objs s' !! y = Some o → y ≠ c → ∃ o0, fs_objs s !! y = Some o0 ∧ fo_name o0 = fo_name o).
    { intros z oz Hz Hzc. apply HO in Hz. naive_solver. }
    assert (HNew : ∀ o, fs_objs s' !! c = Some o → fo_name o = name) by (intros oz Hz; apply HO in Hz; naive_solver).
    apply HK in Hk as [[-> ->]|[[-> ->]|(? & ? & Hk)]]; [by apply elem_of_nil in Hy| |].
    + apply elem_of_join in Hy, Hy'. destruct (decide (y = c)) as [->|Hyc], (decide (y' = c)) as [->|Hyc']; [done| | |].
      * destruct Hy' as [|Hy']; [done|]. destruct (Hnm _ _ Ho' Hyc') as (o0 & Ho0 & Hn0).
        destruct (named_None _ _ _ _ _ Hn Hy' Ho0). rewrite Hn0, <- Hname. by apply HNew.
      * destruct Hy as [|Hy]; [done|]. destruct (Hnm _ _ Ho Hyc) as (o0 & Ho0 & Hn0).
        destruct (named_None _ _ _ _ _ Hn Hy Ho0). rewrite Hn0, Hname. by apply HNew.
      * destruct Hy as [|Hy], Hy' as [|Hy']; try done. destruct (Hnm _ _ Ho Hyc) as (o0 & Ho0 & Hn0), (Hnm _ _ Ho' Hyc') as (o1 & Ho1 & Hn1).
        eapply (fr_names _ _ Hr d l); eauto. congruence.
    + assert (y ≠ c ∧ y' ≠ c) as [Hyc Hyc'] by (split; intros ->; by eapply Hcn).
      destruct (Hnm _ _ Ho Hyc) as (o0 & Ho0 & Hn0), (Hnm _ _ Ho' Hyc') as (o1 & Ho1 & Hn1). eapply (fr_names _ _ Hr x k); eauto. congruence.
  - exists F. split; [done|]. intros h k. rewrite HF. split; (intros [?|(-> & o & Ho & Hop)]; [by left|right; split; [done|]]).
    + destruct (Hold _ _ Ho) as (o' & Ho' & _ & Hpo). exists o'. split; [done|congruence].
    + apply HO in Ho as [[-> ->]|[[-> ->]|(? & ? & Ho)]]; [done|by exists p|by exists o].
Qed.

Lemma fs_avail_run s : ∃ b mem', fs_avail s = Done b (set_fs_mem mem' s) ∧ (b = false → false ∈ fs_mem s) ∧
  ∀ x, x ∈ mem' → x ∈ fs_mem s.
Proof.
  unfold fs_avail. mrun. destruct (fs_mem s) as [|b l] eqn:E.
  - exists true, []. split; [rewrite <- E; by destruct s|]. split; [done|]. by intros x ?%elem_of_nil.
  - exists b, l. split; [done|]. split; [intros ->; left|]. intros x Hx. by right.
Qed.

(** Linking the new object below its directory. *)
Lemma cons_run K s d l p c name t F : frel K s → K !! d = Some l → fs_objs s !! d = Some p → fo_type p = FSOBJ_DIR →
  fs_objs s !! c = None → named (fs_objs s) l name = None →
  fam (fs_links s) F → (∀ h k, F !! h = Some k ↔ (∃ d', K !! d' = Some (h :: k)) ∨
    (k = [] ∧ ∃ o, fs_objs s !! h = Some o ∧ fo_parent o = None)) →
  let s1 := set_fs_links (<[c := (c, c)]> (fs_links s)) (set_fs_objs (<[c := MkFso [] FSOBJ_FILE 0 0 0 0 None None None]> (fs_objs s)) s) in
  ∃ s', fsobj_cons c d name t 0 None s1 = Done 0 s' ∧ fs_mem s' = fs_mem s ∧ frel (add_kid K d c) s' ∧
    fs_objs s' = <[c := new_obj name t d]> (<[d := set_fo_child (head (join c l)) p]> (fs_objs s)).
Proof.
  intros Hr Hd Hp Ht Hc Hn Hf HF s1. assert (Hdc : d ≠ c) by congruence.
  pose proof (frel_outside _ _ _ _ Hr HF Hc) as Ho.
  set (x := MkFso name t 0 0 1 0 None None None). set (s2 := set_fs_objs (<[c := x]> (fs_objs s)) s1).
  destruct (fs_INIT s2 F c) as (m1 & E1 & Hf1 & D1); [by apply fam_alloc|done|by cbn; rewrite lookup_insert_eq; eexists|].
  set (s3 := set_fs_links m1 s2).
  assert (Hrun : fsobj_cons c d name t 0 None s1 = fsobj_child_add c d s3).
  { unfold fsobj_cons. cbn [Z.eqb negb andb]. mrun. erewrite bind_run; [|apply upd_obj_run; cbn; apply lookup_insert_eq].
    cbn [fo_flags fo_child fo_parent fs_objs set_fs_objs set_fs_links s1]. rewrite insert_insert_eq. rewrite (bind_run _ _ _ _ _ E1).
    erewrite bind_run; [|apply upd_obj_run; cbn; apply lookup_insert_eq]. cbn. by rewrite insert_insert_eq. }
  rewrite Hrun. unfold fsobj_child_add.
  assert (Hp3 : fs_objs s3 !! d = Some p) by (cbn; by rewrite lookup_insert_ne). assert (Hc3 : fs_objs s3 !! c = Some x) by (cbn; by rewrite lookup_insert_eq).
  rewrite (bind_run _ _ _ _ _ (get_obj_run _ _ _ Hp3)), (bool_decide_true (fo_type p = FSOBJ_DIR)) by done. cbn [negb].
  rewrite (fr_child _ _ Hr _ _ _ Hd Hp). assert (HFc : F !! c = None).
  { destruct (F !! c) as [k|] eqn:E; [|done]. exfalso. by eapply (Ho c k); [|left]. }
  assert (HK : ∀ y k, add_kid K d c !! y = Some k ↔ y = c ∧ k = [] ∨ y = d ∧ k = join c l ∨ y ≠ c ∧ y ≠ d ∧ K !! y = Some k).
  { intros y k. unfold add_kid. rewrite Hd. cbn. rewrite !lookup_insert. repeat case_decide; naive_solver. }
  assert (HcK : K !! c = None).
  { destruct (K !! c) eqn:E; [|done]. destruct (proj1 (fr_dom _ _ Hr c)); [by eexists|congruence]. }
  destruct l as [|h l]; cbn [head].
  - erewrite bind_run; [|apply upd_obj_run; exact Hp3].
    erewrite bind_run; [|apply upd_obj_run; cbn; rewrite lookup_insert_ne by done; by rewrite lookup_insert_eq].
    eexists. split; [reflexivity|]. split; [done|].
    assert (Hobjs : ∀ a b, <[c := a]> (<[d := b]> (<[c := x]> (fs_objs s))) = <[c := a]> (<[d := b]> (fs_objs s))).
    { intros a b. rewrite (insert_insert_ne _ d c) by done. by rewrite insert_insert_eq. }
    split; [|cbn; by rewrite Hobjs]. eapply (frel_add K s _ d [] p c name t (<[c := []]> F)); try done; [cbn; by rewrite Hobjs|].
    intros h k. rewrite lookup_insert. case_decide as E.
    + subst h. split; [intros [= <-]; left; exists d; apply HK; auto|]. intros [[d' [[_ ?]|[[-> [= <-]]|(_ & _ & Hx)]]%HK]|(_ & o & ? & _)]; [done|done| |congruence].
      destruct (fr_kids _ _ Hr _ _ c Hx) as (? & ? & _); [left|congruence].
    + rewrite HF. split; (intros [[d' Hx]|?]; [left|by right]).
      * exists d'. apply HK. right. right. split_and!; [congruence|congruence|done].
      * apply HK in Hx as [[_ ?]|[[_ [= <- _]]|(_ & _ & Hx)]]; [done|done|by exists d'].
  - assert (Hf2 : fam m1 F) by (apply (fam_drop _ _ c) in Hf1; by rewrite delete_insert_id in Hf1).
    destruct (fs_ADD s3 F h l c Hf2) as (m2 & E2 & Hf3 & _); [apply HF; left; by exists d|done| |].
    { apply elem_of_dom. cbn. rewrite D1. apply elem_of_dom. cbn. rewrite lookup_insert_eq. by eexists. }
    rewrite (bind_run _ _ _ _ _ E2). erewrite bind_run; [|apply upd_obj_run; exact Hc3].
    assert (Hid : <[d := set_fo_child (Some h) p]> (fs_objs s) = fs_objs s).
    { apply insert_id. rewrite Hp. f_equal. pose proof (fr_child _ _ Hr _ _ _ Hd Hp) as Hch. cbn in Hch. destruct p; cbn in *. by subst. }
    eexists. split; [reflexivity|]. split; [done|]. split; [|cbn; by rewrite Hid, insert_insert_eq].
    eapply (frel_add K s _ d (h :: l) p c name t (<[h := c :: l]> F)); try done; [cbn; by rewrite Hid, insert_insert_eq|].
    assert (HFh : F !! h = Some l) by (apply HF; left; by exists d).
    intros h' k. rewrite lookup_insert. case_decide as E.
    + subst h'. split; [intros [= <-]; left; exists d; apply HK; auto|].
      intros [[d' [[_ ?]|[[-> [= <-]]|(_ & Hne & Hx)]]%HK]|(_ & o & Ho1 & Ho2)]; [done|done| |].
      * destruct (fr_kids _ _ Hr _ _ h Hx) as (o1 & Ho1 & Hp1); [left|]. destruct (fr_kids _ _ Hr _ _ h Hd) as (o2 & Ho2 & Hp2); [left|congruence].
      * destruct (fr_kids _ _ Hr _ _ h Hd) as (o2 & ? & Hp2); [left|congruence].
    + rewrite HF. split; (intros [[d' Hx]|?]; [left|by right]).
      * exists d'. apply HK. right. right. split_and!; [congruence|congruence|done].
      * apply HK in Hx as [[_ ?]|[[_ [= <- _]]|(_ & _ & Hx)]]; [done|done|by exists d'].
Qed.

(** An object changes but for its place in the tree. *)
Lemma frel_upd K s s' o x x' : frel K s → fs_objs s !! o = Some x → fs_objs s' = <[o := x']> (fs_objs s) → fs_links s' = fs_links s →
  fo_name x' = fo_name x → fo_type x' = fo_type x → fo_child x' = fo_child x → fo_parent x' = fo_parent x → frel K s'.
Proof.
  intros Hr Hx Ho Hl Hn Ht Hc Hp.
  assert (Hb : ∀ y z, fs_objs s' !! y = Some z → ∃ z0, fs_objs s !! y = Some z0 ∧ fo_name z = fo_name z0 ∧ fo_type z = fo_type z0 ∧
    fo_child z = fo_child z0 ∧ fo_parent z = fo_parent z0).
  { intros y z. rewrite Ho, lookup_insert. case_decide; [intros [= <-]; subst; by exists x|intros ?; by exists z]. }
  assert (Hf : ∀ y z, fs_objs s !! y = Some z → ∃ z0, fs_objs s' !! y = Some z0 ∧ fo_parent z0 = fo_parent z).
  { intros y z Hy. rewrite Ho, lookup_insert. case_decide; [subst; exists x'; split; [done|congruence]|by exists z]. }
  split.
  - intros d. rewrite (fr_dom _ _ Hr). rewrite Ho, lookup_insert. case_decide; [subst; rewrite Hx; split; by eexists|done].
  - intros d l z Hd Hz. destruct (Hb _ _ Hz) as (z0 & Hz0 & _ & _ & -> & _). by eapply (fr_child _ _ Hr).
  - intros d l z Hd Hz. destruct (Hb _ _ Hz) as (z0 & Hz0 & _ & -> & _). by eapply (fr_dir _ _ Hr).
  - intros d l c Hd Hin. destruct (fr_kids _ _ Hr _ _ _ Hd Hin) as (z & Hz & Hzp). destruct (Hf _ _ Hz) as (z0 & Hz0 & E).
    exists z0. split; [done|congruence].
  - intros c z d Hz Hzp. destruct (Hb _ _ Hz) as (z0 & Hz0 & _ & _ & _ & E). eapply (fr_parent _ _ Hr); [done|congruence].
  - intros d l c c' z z' Hd Hin Hin' Hz Hz' E. destruct (Hb _ _ Hz) as (z0 & Hz0 & En & _), (Hb _ _ Hz') as (z1 & Hz1 & En' & _).
    eapply (fr_names _ _ Hr d l c c' z0 z1); try done. congruence.
  - destruct (fr_fam _ _ Hr) as (F & Hfam & HF). exists F. rewrite Hl. split; [done|]. intros h l. rewrite HF.
    split; (intros [?|(-> & z & Hz & Hzp)]; [by left|right; split; [done|]]).
    + destruct (Hf _ _ Hz) as (z0 & Hz0 & E). exists z0. split; [done|congruence].
    + destruct (Hb _ _ Hz) as (z0 & Hz0 & _ & _ & _ & E). exists z0. split; [done|congruence].
Qed.

Lemma frel_mem K s mem : frel K s → frel K (set_fs_mem mem s).
Proof. intros [? ? ? ? ? ? ?]. by split. Qed.

Lemma frel_free K s s' c : frel K s → fs_objs s !! c = None → fs_objs s' = fs_objs s →
  fs_links s' = delete c (fs_links s) → frel K s'.
Proof.
  intros Hr Hc Ho Hl. destruct (fr_fam _ _ Hr) as (F & Hf & HF). pose proof (frel_outside _ _ _ _ Hr HF Hc) as Hout.
  destruct Hr. split; rewrite ?Ho; try done. exists F. rewrite Hl. split; [by apply fam_free|]. done.
Qed.

Lemma alloc_run K s d l p name a t : frel K s → K !! d = Some l → fs_objs s !! d = Some p → fo_type p = FSOBJ_DIR →
  name_type name = Some (a, t) → named (fs_objs s) l a = None →
  ∃ s', (∀ b, b ∈ fs_mem s' → b ∈ fs_mem s) ∧
  ((false ∈ fs_mem s ∧ fsobj_alloc name d s = Done None s' ∧ frel K s' ∧ fs_objs s' = fs_objs s) ∨
   ∃ c, fs_objs s !! c = None ∧ fsobj_alloc name d s = Done (Some c) s' ∧ frel (add_kid K d c) s' ∧
     fs_objs s' = <[c := new_obj a t d]> (<[d := set_fo_child (head (join c l)) p]> (fs_objs s))).
Proof.
  intros Hr Hd Hp Ht Hnt Hn. unfold fsobj_alloc. rewrite Hnt.
  destruct (fs_avail_run s) as ([] & mem1 & E1 & Hb1 & Hm1); rewrite (bind_run _ _ _ _ _ E1); cbn [negb]; [|exists (set_fs_mem mem1 s); split; [exact Hm1|left; split_and!; [auto|done|by apply frel_mem|done]]].
  mrun. cbn [fs_objs set_fs_mem]. set (c := fresh _). assert (Hc : c ∉ (dom (fs_objs s) : gset nat)) by apply is_fresh.
  apply not_elem_of_dom in Hc. clearbody c. set (s1 := set_fs_links _ _).
  destruct (fs_avail_run s1) as ([] & mem2 & E2 & Hb2 & Hm2); rewrite (bind_run _ _ _ _ _ E2); cbn [negb].
  - destruct (fr_fam _ _ Hr) as (F & Hf & HF).
    destruct (cons_run K (set_fs_mem mem2 s) d l p c a t F (frel_mem _ _ _ Hr) Hd Hp Ht Hc Hn Hf HF) as (s' & E & Hm' & Hr' & Hobjs).
    exists s'. rewrite Hm'. split; [intros b Hb; apply Hm1, Hm2, Hb|]. right. exists c. split; [done|]. split; [|done].
    by rewrite (bind_run _ _ _ _ _ E).
  - eexists. split; [|left; split; [apply Hm1; auto|]; split; [reflexivity|]]; [intros b Hb; apply Hm1, Hm2, Hb|].
    cbn [fs_objs fs_links set_fs_objs set_fs_links set_fs_mem s1]. rewrite delete_insert_eq, delete_insert_id by done.
    split; [|done]. by apply (frel_free _ s _ c).
Qed.

(** The tree of the root alone. *)
Lemma init_root_run s o x : fs_objs s = {[o := x]} → is_Some (fs_links s !! o) →
  ∃ s', fs_init_root o s = Done tt s' ∧ frel {[o := []]} s' ∧ fs_mem s' = fs_mem s ∧
    fs_objs s' = {[o := MkFso [] FSOBJ_DIR 0 0 1 (fo_flags x) None None None]}.
Proof.
  intros Ho Hl. assert (Hx : fs_objs s !! o = Some x) by (rewrite Ho; apply lookup_singleton_eq).
  unfold fs_init_root. rewrite (bind_run _ _ _ _ _ (upd_obj_run _ _ _ _ Hx)). set (s1 := set_fs_objs _ s).
  destruct (fs_INIT s1 ∅ o) as (m1 & E1 & Hf1 & _); [|done|done|].
  { split; rewrite map_to_list_empty; constructor. }
  rewrite (bind_run _ _ _ _ _ E1). erewrite upd_obj_run; [|cbn; apply lookup_insert_eq]. eexists. split; [reflexivity|].
  assert (Hobjs : ∀ y z : fsobj, <[o := y]> (<[o := z]> (fs_objs s)) = {[o := y]}) by (intros y z; rewrite Ho, insert_insert_eq; apply insert_singleton_eq).
  cbn [fs_objs fs_mem set_fs_objs set_fs_links s1]. rewrite Hobjs. split; [|done].
  split; cbn [fs_objs fs_links set_fs_objs set_fs_links]; rewrite ?Hobjs.
  - intros d. rewrite !lookup_singleton. case_decide; [split; by eexists|split; by intros []].
  - intros d l y [<- <-]%lookup_singleton_Some [_ <-]%lookup_singleton_Some. done.
  - intros d l y [<- <-]%lookup_singleton_Some. done.
  - intros d l c [<- <-]%lookup_singleton_Some ?%elem_of_nil. done.
  - intros c y d [_ <-]%lookup_singleton_Some. done.
  - intros d l c c' y y' [<- <-]%lookup_singleton_Some ?%elem_of_nil. done.
  - exists {[o := []]}. split; [exact Hf1|]. intros h l. rewrite lookup_singleton_Some. split.
    + intros [<- <-]. right. split; [done|]. eexists. rewrite lookup_singleton_eq. done.
    + intros [[d [_ ?]%lookup_singleton_Some]|(-> & y & [<- _]%lookup_singleton_Some & _)]; done.
Qed.
End Tree.

(** C26. Looking up a path walks its components, the parts between the slashes
    that are not empty, from the children of one directory to the next: the
    lookup returns the object with its parent; or the directory in which the
    first component is missing and the rest of the path from there on, which
    is what a new object is named by; or it fails the assertion that it only
    looks into directories, exactly when the path leads through a file.  It
    ends, and changes nothing. *)
Theorem fs_path_lookup K s path root : frel K s → is_Some (fs_objs s !! root) →
  path_result path (walk K (fs_objs s) root None (components path)) s (fsobj_path2obj path root s).
Proof. apply path2obj_run. Qed.

(** ** Examples *)

Definition fs0 : fstate := MkFs {[0%nat := (0%nat, 0%nat)]} {[0%nat := MkFso [] FSOBJ_FILE 0 0 0 0 None None None]} [].

Lemma fs_path_lookup_witness : ∃ s, fs_init_root 0 fs0 = Done tt s ∧
  path_result [47; 97] (walk {[0%nat := []]} (fs_objs s) 0 None [[97]]) s (fsobj_path2obj [47; 97] 0 s).
Proof.
  destruct (init_root_run fs0 0 _ eq_refl) as (s & E & Hr & _ & Ho); [by eexists|]. exists s. split; [exact E|].
  apply (fs_path_lookup _ s [47; 97] 0 Hr). rewrite Ho. by eexists.
Defined.
