(* ===== verification/Ramfs.v ===== *)
(** * Torrents and the file system in memory

    Model of [components/implementation/torrent/torlib.c], [torlib.h] and
    [ramfs/ramfs.c]: a client splits descriptors off the root descriptor by
    paths, creates files and directories on the way, and reads and writes at
    the offset of a descriptor.

    The objects are those of Fs.v and the descriptors are found with the map of
    Vect.v.  The lock makes each operation atomic.  Buffers shared with the
    client are arguments and results; what the memory of a new file holds is a
    parameter. *)

From stdpp Require Import base list numbers option gmap.
From S2P Require Import Prelude Vect Fs.
Local Open Scope Z_scope.

Definition EACCES : Z := 13.
Definition EINVAL : Z := 22.
Definition ENOMEM : Z := 12.
Definition td_null : Z := 0.
Definition td_root : Z := 1.
Definition TOR_WRITE : Z := 1.
Definition TOR_READ : Z := 2.
Definition TOR_SPLIT : Z := 4.
Definition MIN_DATA_SZ : Z := 256.

Record torrent : Type := MkTor {
  t_td : Z;
  t_offset : Z;
  t_flags : Z;
  t_data : option nat;
}.

Definition set_t_offset (v : Z) (t : torrent) : torrent := MkTor (t_td t) v (t_flags t) (t_data t).
Definition set_t_td (v : Z) (t : torrent) : torrent := MkTor v (t_offset t) (t_flags t) (t_data t).
Definition set_t_data (v : option nat) (t : torrent) : torrent := MkTor (t_td t) (t_offset t) (t_flags t) v.

(** The descriptors and the root directory that are variables. *)
Definition null_torrent : nat := 1.
Definition root_torrent : nat := 2.
Definition root : nat := 0.

Record rstate : Type := MkRs {
  rs_fs : fstate;
  rs_tors : gmap nat torrent;
  rs_map : mstate;
}.

Definition set_rs_fs (v : fstate) (s : rstate) : rstate := MkRs v (rs_tors s) (rs_map s).
Definition set_rs_tors (v : gmap nat torrent) (s : rstate) : rstate := MkRs (rs_fs s) v (rs_map s).
Definition set_rs_map (v : mstate) (s : rstate) : rstate := MkRs (rs_fs s) (rs_tors s) v.

#[local] Abbreviation R := (M rstate).

Definition on_fs {A} (o : M fstate A) : R A := λ s,
  match o (rs_fs s) with Done a f => Done a (set_rs_fs f s) | Fault f => Fault f end.
Definition on_tmap {A} (o : M mstate A) : R A := λ s,
  match o (rs_map s) with Done a m => Done a (set_rs_map m s) | Fault f => Fault f end.

Definition get_tor (t : nat) : R torrent := m ← gets rs_tors; bound (m !! t).
Definition upd_tor (t : nat) (f : torrent → torrent) : R unit :=
  x ← get_tor t; modify (λ s, set_rs_tors (<[t := f x]> (rs_tors s)) s).

(** ** torlib *)

Section Torrents.
(** The pages that the map grows by. *)
Context (alloc_page : gmap Z (list Z) → option (Z * list Z)).

Definition tor_lookup (td : Z) : R (option nat) :=
  v ← on_tmap (cos_map_lookup td);
  if v =? 0 then mret None
  else
    x ← get_tor (Z.to_nat v);
    assert (t_td x =? td);;
    mret (Some (Z.to_nat v)).

Definition tor_isnull (td : Z) : bool := td =? td_null.
Definition tor_is_usrdef (td : Z) : bool := negb ((td =? td_null) || (td =? td_root)).

Definition tor_cons (t data : nat) (flags : Z) : R Z :=
  td ← on_tmap (cos_map_add 0 alloc_page (Z.of_nat t));
  if td =? -1 then mret (-1)
  else upd_tor t (λ _, MkTor td 0 flags (Some data));; mret 0.

Definition tor_alloc (data : nat) (flags : Z) : R (option nat) :=
  b ← on_fs fs_avail;
  if negb b then mret None
  else
    m ← gets rs_tors;
    let t := fresh ({[0%nat; null_torrent; root_torrent]} ∪ dom m : gset nat) in
    modify (λ s, set_rs_tors (<[t := MkTor 0 0 0 None]> (rs_tors s)) s);;
    r ← tor_cons t data flags;
    if negb (r =? 0) then modify (λ s, set_rs_tors (delete t (rs_tors s)) s);; mret None
    else mret (Some t).

Definition tor_free (t : nat) : R unit :=
  x ← get_tor t;
  r ← on_tmap (cos_map_del 0 (t_td x));
  assert (r =? 0);;
  modify (λ s, set_rs_tors (delete t (rs_tors s)) s).

Definition torlib_init : R unit :=
  on_tmap (cos_map_init_static 0);;
  upd_tor null_torrent (set_t_td td_null);;
  r ← on_tmap (cos_map_add 0 alloc_page (Z.of_nat null_torrent));
  assert (r =? td_null);;
  upd_tor root_torrent (set_t_td td_root);;
  r ← on_tmap (cos_map_add 0 alloc_page (Z.of_nat root_torrent));
  assert (r =? td_root).

(** ** ramfs *)

(** A C string: the characters before the first 0. *)
Fixpoint cstr (s : list Z) : list Z :=
  match s with [] => [] | c :: s => if c =? 0 then [] else c :: cstr s end.

(** The object for the path, made if it is missing; or the error. *)
Definition split_obj (fso : nat) (p : list Z) (tflags : Z) : R (nat + Z) :=
  r ← on_fs (fsobj_path2obj p fso);
  let '(fsc, parent, subpath) := (r : option nat * option nat * list Z) in
  match fsc with
  | None =>
      assert (bool_decide (parent ≠ None));;
      parent ← deref parent;
      x ← on_fs (get_obj parent);
      if Z.land (fo_flags x) TOR_SPLIT =? 0 then mret (inr (- EACCES))
      else
        c ← on_fs (fsobj_alloc subpath parent);
        match c with
        | None => mret (inr (- EINVAL))
        | Some c => on_fs (upd_obj c (set_fo_flags tflags));; mret (inl c)
        end
  | Some c =>
      x ← on_fs (get_obj c);
      if negb (Z.land (Z.lnot (fo_flags x)) tflags =? 0) then mret (inr (- EACCES))
      else mret (inl c)
  end.

(** [param] is what is at the pointer, up to a 0; a negative [len] writes before
    the copy of it. *)
Definition tsplit (td : Z) (param : list Z) (len tflags : Z) : R Z :=
  if tor_isnull td then mret (- EINVAL)
  else
    t ← tor_lookup td;
    match t with
    | None => mret (- EINVAL)
    | Some t =>
        x ← get_tor t;
        b ← on_fs fs_avail;
        if negb b then mret (- ENOMEM)
        else
          bound (if 0 <=? len then Some tt else None);;
          assert (bool_decide (t_data x ≠ None));;
          fso ← deref (t_data x);
          r ← split_obj fso (cstr (take (Z.to_nat len) param)) tflags;
          match r with
          | inr err => mret err
          | inl fsc =>
              on_fs (fsobj_take fsc);;
              nt ← tor_alloc fsc tflags;
              match nt with
              | None => mret (- ENOMEM)
              | Some nt => y ← get_tor nt; mret (t_td y)
              end
          end
    end.

Definition tmerge (td td_into : Z) : R Z :=
  if negb (tor_is_usrdef td) then mret (-1)
  else
    t ← tor_lookup td;
    match t with
    | None => mret (- EINVAL)
    | Some t => if negb (td_into =? td_null) then mret (- EINVAL) else tor_free t;; mret 0
    end.

Definition trelease (td : Z) : R unit :=
  if negb (tor_is_usrdef td) then mret tt
  else
    t ← tor_lookup td;
    match t with
    | None => mret tt
    | Some t =>
        x ← get_tor t;
        o ← deref (t_data x);
        m ← gets (λ s, fs_objs (rs_fs s));
        on_fs (fsobj_release (size m + 3) o);;
        tor_free t
    end.

(** [memcpy] out of and into an array of bytes. *)
Definition copy_from (data : list Z) (off n : Z) : R (list Z) :=
  if (0 <=? off) && (0 <=? n) && (off + n <=? Z.of_nat (length data))
  then mret (take (Z.to_nat n) (drop (Z.to_nat off) data)) else fail OutOfBounds.
Definition copy_to (data : list Z) (off n : Z) (buf : list Z) : R (list Z) :=
  if (0 <=? off) && (0 <=? n) && (off + n <=? Z.of_nat (length data)) && (n <=? Z.of_nat (length buf))
  then mret (take (Z.to_nat off) data ++ take (Z.to_nat n) buf ++ drop (Z.to_nat (off + n)) data) else fail OutOfBounds.

(** [cbuf] says whether [cbuf2buf] finds the buffer; the result is the number
    of bytes or the error, and the bytes that were copied. *)
Definition tread (td : Z) (cbuf : bool) (sz : Z) : R (Z * list Z) :=
  if tor_isnull td then mret (- EINVAL, [])
  else
    t ← tor_lookup td;
    match t with
    | None => mret (- EINVAL, [])
    | Some t =>
        x ← get_tor t;
        assert (negb (tor_is_usrdef td) || bool_decide (t_data x ≠ None));;
        if Z.land (t_flags x) TOR_READ =? 0 then mret (- EACCES, [])
        else
          fso ← deref (t_data x);
          o ← on_fs (get_obj fso);
          assert (fo_size o <=? fo_allocated o);;
          assert (t_offset x <=? fo_size o);;
          if fo_size o =? 0 then mret (0, [])
          else if negb cbuf then mret (-1, [])
          else
            let left := s32 (fo_size o - t_offset x) in
            let ret := if sz <? left then sz else left in
            assert (bool_decide (fo_data o ≠ None));;
            data ← deref (fo_data o);
            bytes ← copy_from data (t_offset x) ret;
            upd_tor t (set_t_offset (u32 (t_offset x + ret)));;
            mret (ret, bytes)
    end.

(** What new memory of a size holds. *)
Context (new_mem : Z → list Z).

(** Room for more bytes: the size, the array and the number of bytes to write,
    or [None] without memory. *)
Definition write_room (o : fsobj) (offset sz : Z) : R (option (fsobj * Z)) :=
  let left := s32 (fo_allocated o - offset) in
  if sz <=? left then
    mret (Some (set_fo_content (if fo_size o <? u32 (offset + sz) then u32 (offset + sz) else fo_size o)
                  (fo_allocated o) (fo_data o) o, sz))
  else
    let new_sz := if fo_allocated o =? 0 then MIN_DATA_SZ else s32 (fo_allocated o * 2) in
    b ← on_fs fs_avail;
    if negb b then mret None
    else
      new ← match fo_data o with
            | None => mret (new_mem new_sz)
            | Some d => old ← copy_from d 0 (fo_size o); copy_to (new_mem new_sz) 0 (fo_size o) old
            end;
      let left := s32 (new_sz - offset) in
      let ret := if sz <? left then sz else left in
      mret (Some (set_fo_content (u32 (offset + ret)) new_sz (Some new) o, ret)).

(** [buf] is what [cbuf2buf] returns. *)
Definition twrite (td : Z) (buf : option (list Z)) (sz : Z) : R Z :=
  if tor_isnull td then mret (- EINVAL)
  else
    t ← tor_lookup td;
    match t with
    | None => mret (- EINVAL)
    | Some t =>
        x ← get_tor t;
        assert (bool_decide (t_data x ≠ None));;
        if Z.land (t_flags x) TOR_WRITE =? 0 then mret (- EACCES)
        else
          fso ← deref (t_data x);
          o ← on_fs (get_obj fso);
          assert (fo_size o <=? fo_allocated o);;
          assert (t_offset x <=? fo_size o);;
          match buf with
          | None => mret (- EINVAL)
          | Some buf =>
              r ← write_room o (t_offset x) sz;
              match r with
              | None => mret (- ENOMEM)
              | Some (o', ret) =>
                  data ← match fo_data o' with
                         | Some d => copy_to d (t_offset x) ret buf
                         | None => if ret =? 0 then mret [] else fail NullDeref
                         end;
                  on_fs (upd_obj fso (λ _, set_fo_content (fo_size o') (fo_allocated o')
                           (if bool_decide (fo_data o' = None) then None else Some data) o'));;
                  upd_tor t (set_t_offset (u32 (t_offset x + ret)));;
                  mret ret
              end
          end
    end.

Definition cos_init : R unit :=
  torlib_init;;
  on_fs (fs_init_root root);;
  upd_tor root_torrent (set_t_data (Some root));;
  on_fs (upd_obj root (set_fo_flags (Z.lor TOR_READ TOR_SPLIT))).
End Torrents.
