(* ===== verification/RamfsInv.v ===== *)
(** * Correctness of the file system in memory

    The component refines a set of files in directories with descriptors: the
    content of a file is a sequence of bytes, a read takes the bytes behind the
    offset of the descriptor, a write replaces or appends them. *)

From stdpp Require Import base list numbers option gmap.
From S2P Require Import Prelude Ring CosList Vect VectInv Fs FsInv Ramfs.
Local Open Scope Z_scope.

(** ** The specification *)

(** A file or directory.  [ao_refs] counts the descriptors that were split off
    and not released, and the place in the tree. *)
Record aobj : Type := MkAo {
  ao_name : list Z;
  ao_dir : bool;
  ao_flags : Z;
  ao_parent : option nat;
  ao_content : list Z;
  ao_refs : Z;
}.

Record atd : Type := MkAt {
  at_obj : nat;
  at_off : Z;
  at_flags : Z;
}.

Record afs : Type := MkAf {
  a_objs : gmap nat aobj;
  a_tds : gmap Z atd;
}.

Definition set_refs (n : Z) (o : aobj) : aobj := MkAo (ao_name o) (ao_dir o) (ao_flags o) (ao_parent o) (ao_content o) n.
Definition set_content (c : list Z) (o : aobj) : aobj := MkAo (ao_name o) (ao_dir o) (ao_flags o) (ao_parent o) c (ao_refs o).
Definition put_obj (i : nat) (o : aobj) (a : afs) : afs := MkAf (<[i := o]> (a_objs a)) (a_tds a).
Definition put_td (td : Z) (t : atd) (a : afs) : afs := MkAf (a_objs a) (<[td := t]> (a_tds a)).
Definition del_td (td : Z) (a : afs) : afs := MkAf (a_objs a) (delete td (a_tds a)).

(** The component after [cos_init]. *)
Definition empty_fs : afs :=
  MkAf {[root := MkAo [] true (Z.lor TOR_READ TOR_SPLIT) None [] 1]} {[td_root := MkAt root 0 0]}.

Definition achild (a : afs) (d : nat) (n : list Z) (c : nat) : Prop :=
  ∃ o, a_objs a !! c = Some o ∧ ao_parent o = Some d ∧ ao_name o = n.
Definition adir (a : afs) (d : nat) : Prop := ∃ o, a_objs a !! d = Some o ∧ ao_dir o = true.

(** Following names from a directory. *)
Inductive awres : Set :=
| AFound (c : nat)
| AMissing (d : nat) (cs : list (list Z))
| ANotDir.

Inductive awalk (a : afs) : nat → list (list Z) → awres → Prop :=
| aw_found d : awalk a d [] (AFound d)
| aw_step d n cs c w : adir a d → achild a d n c → awalk a c cs w → awalk a d (n :: cs) w
| aw_missing d n cs : adir a d → (∀ c, ¬ achild a d n c) → awalk a d (n :: cs) (AMissing d (n :: cs))
| aw_notdir d n cs : ¬ adir a d → awalk a d (n :: cs) ANotDir.

Inductive rop : Type :=
| OSplit (td : Z) (param : list Z) (len tflags : Z)
| OMerge (td into : Z)
| ORelease (td : Z)
| ORead (td : Z) (cbuf : bool) (sz : Z)
| OWrite (td : Z) (buf : option (list Z)) (sz : Z).

Definition the_path (param : list Z) (len : Z) : list Z := cstr (take (Z.to_nat len) param).

Definition td_ok (td : Z) : Prop := - 2 ^ 30 ≤ td < 2 ^ 30.

(** What a caller has to see to: descriptors can be doubled, no length is
    negative, paths do not lead through files, no object has been split off
    2^32 - 2 times, files are smaller than 2^28 bytes, and the buffer holds what
    is to be written. *)
Definition rop_ok (a : afs) (o : rop) : Prop :=
  match o with
  | OSplit td param len _ => td_ok td ∧ 0 ≤ len ∧ (∀ i x, a_objs a !! i = Some x → ao_refs x < 2 ^ 32 - 1) ∧
      ∀ t, a_tds a !! td = Some t → ¬ awalk a (at_obj t) (components (the_path param len)) ANotDir
  | OMerge td _ | ORelease td => td_ok td
  | ORead td _ sz => td_ok td ∧ 0 ≤ sz
  | OWrite td buf sz => td_ok td ∧ 0 ≤ sz < 2 ^ 28 ∧ (∀ b, buf = Some b → sz ≤ Z.of_nat (length b)) ∧
      ∀ t x, a_tds a !! td = Some t → a_objs a !! at_obj t = Some x → Z.of_nat (length (ao_content x)) < 2 ^ 28
  end.

(** Bytes [b] written over [c] at [off]. *)
Definition overwrite (c b : list Z) (off : nat) : list Z := take off c ++ b ++ drop (off + length b) c.

Section Spec.
Context (alloc_page : gmap Z (list Z) → option (Z * list Z)) (new_mem : Z → list Z) (mem0 : list bool).

Definition rop_run (o : rop) : M rstate (Z * list Z) :=
  match o with
  | OSplit td param len tflags => r ← tsplit alloc_page td param len tflags; mret (r, [])
  | OMerge td into => r ← tmerge td into; mret (r, [])
  | ORelease td => trelease td;; mret (0, [])
  | ORead td cbuf sz => tread td cbuf sz
  | OWrite td buf sz => r ← twrite new_mem td buf sz; mret (r, [])
  end.

(** The memory that may run out. *)
Definition no_room (a : afs) : Prop :=
  false ∈ mem0 ∨ out_of_pages alloc_page ∨ ∀ td, 0 < td < 2 ^ 19 → is_Some (a_tds a !! td).

(** The object that a split ends at, and what was made on the way. *)
Inductive atarget (a : afs) (d : nat) (p : list Z) (tflags : Z) : nat + Z → afs → Prop :=
| at_found c o : awalk a d (components p) (AFound c) → a_objs a !! c = Some o →
    Z.land (Z.lnot (ao_flags o)) tflags = 0 → atarget a d p tflags (inl c) a
| at_found_denied c o : awalk a d (components p) (AFound c) → a_objs a !! c = Some o →
    Z.land (Z.lnot (ao_flags o)) tflags ≠ 0 → atarget a d p tflags (inr (- EACCES)) a
| at_create d' x sub n t c : awalk a d (components p) (AMissing d' [n]) → a_objs a !! d' = Some x →
    Z.land (ao_flags x) TOR_SPLIT ≠ 0 → sub `suffix_of` p → name_type sub = Some (n, t) → a_objs a !! c = None →
    atarget a d p tflags (inl c) (put_obj c (MkAo n (bool_decide (t = FSOBJ_DIR)) tflags (Some d') [] 1) a)
| at_create_denied d' x cs : awalk a d (components p) (AMissing d' cs) → a_objs a !! d' = Some x →
    Z.land (ao_flags x) TOR_SPLIT = 0 → atarget a d p tflags (inr (- EACCES)) a
| at_create_bad d' x cs sub : awalk a d (components p) (AMissing d' cs) → a_objs a !! d' = Some x →
    Z.land (ao_flags x) TOR_SPLIT ≠ 0 → sub `suffix_of` p → components sub = cs →
    name_type sub = None ∨ false ∈ mem0 → atarget a d p tflags (inr (- EINVAL)) a.

Inductive rstep (a : afs) : rop → Z * list Z → afs → Prop :=
| rs_split td param len tflags t c a1 o td' : td ≠ td_null → a_tds a !! td = Some t →
    atarget a (at_obj t) (the_path param len) tflags (inl c) a1 → a_objs a1 !! c = Some o →
    a_tds a !! td' = None → 1 < td' < 2 ^ 19 →
    rstep a (OSplit td param len tflags) (td', []) (put_td td' (MkAt c 0 tflags) (put_obj c (set_refs (ao_refs o + 1) o) a1))
| rs_split_err td param len tflags t e a1 : td ≠ td_null → a_tds a !! td = Some t →
    atarget a (at_obj t) (the_path param len) tflags (inr e) a1 → rstep a (OSplit td param len tflags) (e, []) a1
| rs_split_mem td param len tflags t : td ≠ td_null → a_tds a !! td = Some t → false ∈ mem0 → rstep a (OSplit td param len tflags) (- ENOMEM, []) a
| rs_split_full td param len tflags t c a1 o : td ≠ td_null → a_tds a !! td = Some t → no_room a →
    atarget a (at_obj t) (the_path param len) tflags (inl c) a1 → a_objs a1 !! c = Some o →
    rstep a (OSplit td param len tflags) (- ENOMEM, []) (put_obj c (set_refs (ao_refs o + 1) o) a1)
| rs_split_none td param len tflags : td = td_null ∨ a_tds a !! td = None → rstep a (OSplit td param len tflags) (- EINVAL, []) a
| rs_merge td t : tor_is_usrdef td = true → a_tds a !! td = Some t → rstep a (OMerge td td_null) (0, []) (del_td td a)
| rs_merge_fixed td into : tor_is_usrdef td = false → rstep a (OMerge td into) (-1, []) a
| rs_merge_err td into : tor_is_usrdef td = true → a_tds a !! td = None ∨ into ≠ td_null → rstep a (OMerge td into) (- EINVAL, []) a
| rs_release td t o : tor_is_usrdef td = true → a_tds a !! td = Some t → a_objs a !! at_obj t = Some o →
    rstep a (ORelease td) (0, []) (del_td td (put_obj (at_obj t) (set_refs (ao_refs o - 1) o) a))
| rs_release_none td : tor_is_usrdef td = false ∨ a_tds a !! td = None → rstep a (ORelease td) (0, []) a
| rs_read td sz t o bytes : td ≠ td_null → a_tds a !! td = Some t → a_objs a !! at_obj t = Some o →
    Z.land (at_flags t) TOR_READ ≠ 0 → bytes = take (Z.to_nat sz) (drop (Z.to_nat (at_off t)) (ao_content o)) →
    rstep a (ORead td true sz) (Z.of_nat (length bytes), bytes)
      (put_td td (MkAt (at_obj t) (at_off t + Z.of_nat (length bytes)) (at_flags t)) a)
| rs_read_empty td cbuf sz t o : td ≠ td_null → a_tds a !! td = Some t → a_objs a !! at_obj t = Some o →
    Z.land (at_flags t) TOR_READ ≠ 0 → ao_content o = [] → rstep a (ORead td cbuf sz) (0, []) a
| rs_read_nobuf td sz t : td ≠ td_null → a_tds a !! td = Some t → Z.land (at_flags t) TOR_READ ≠ 0 →
    rstep a (ORead td false sz) (-1, []) a
| rs_read_denied td cbuf sz t : td ≠ td_null → a_tds a !! td = Some t → Z.land (at_flags t) TOR_READ = 0 →
    rstep a (ORead td cbuf sz) (- EACCES, []) a
| rs_read_none td cbuf sz : td = td_null ∨ a_tds a !! td = None → rstep a (ORead td cbuf sz) (- EINVAL, []) a
| rs_write td buf sz t o n : td ≠ td_null → a_tds a !! td = Some t → a_objs a !! at_obj t = Some o →
    Z.land (at_flags t) TOR_WRITE ≠ 0 → 0 ≤ n ≤ sz → (n = 0 → sz = 0) →
    rstep a (OWrite td (Some buf) sz) (n, [])
      (put_td td (MkAt (at_obj t) (at_off t + n) (at_flags t))
        (put_obj (at_obj t) (set_content (overwrite (ao_content o) (take (Z.to_nat n) buf) (Z.to_nat (at_off t))) o) a))
| rs_write_mem td buf sz t : td ≠ td_null → a_tds a !! td = Some t → Z.land (at_flags t) TOR_WRITE ≠ 0 → false ∈ mem0 →
    rstep a (OWrite td buf sz) (- ENOMEM, []) a
| rs_write_nobuf td sz t : td ≠ td_null → a_tds a !! td = Some t → Z.land (at_flags t) TOR_WRITE ≠ 0 →
    rstep a (OWrite td None sz) (- EINVAL, []) a
| rs_write_denied td buf sz t : td ≠ td_null → a_tds a !! td = Some t → Z.land (at_flags t) TOR_WRITE = 0 →
    rstep a (OWrite td buf sz) (- EACCES, []) a
| rs_write_none td buf sz : td = td_null ∨ a_tds a !! td = None → rstep a (OWrite td buf sz) (- EINVAL, []) a.

(** ** The representation *)

Record obj_rep (f : fsobj) (x : aobj) : Prop := {
  or_name : fo_name f = ao_name x;
  or_type : fo_type f = if ao_dir x then FSOBJ_DIR else FSOBJ_FILE;
  or_flags : fo_flags f = ao_flags x;
  or_parent : fo_parent f = ao_parent x;
  or_refs : fo_refcnt f = ao_refs x;
  or_size : fo_size f = Z.of_nat (length (ao_content x));
  or_small : fo_size f < 2 ^ 30;
  or_alloc : fo_size f ≤ fo_allocated f ≤ Z.max MIN_DATA_SZ (2 * fo_size f);
  or_data : match fo_data f with
            | None => fo_allocated f = 0
            | Some d => Z.of_nat (length d) = fo_allocated f ∧ take (length (ao_content x)) d = ao_content x ∧ 0 < fo_allocated f
            end
}.

(** The descriptors of an object that can be released. *)
Definition users (a : afs) (i : nat) : nat :=
  size (filter (λ p : Z * atd, p.1 ≠ td_root ∧ at_obj p.2 = i) (a_tds a)).

(** [X] numbers the descriptors. *)
Record rrel (X : gmap Z nat) (K : gmap nat (list nat)) (a : afs) (s : rstate) : Prop := {
  q_map : mrep 0 (rs_map s) (<[0 := 1]> (Z.of_nat <$> X));
  q_X0 : X !! 0 = None;
  q_Xpos : ∀ td t, X !! td = Some t → t ≠ 0%nat ∧ t ≠ null_torrent;
  q_Xinj : ∀ i j t, X !! i = Some t → X !! j = Some t → i = j;
  q_Xroot : X !! td_root = Some root_torrent;
  q_Xdom : ∀ td, is_Some (X !! td) ↔ is_Some (a_tds a !! td);
  q_null : ∃ x, rs_tors s !! null_torrent = Some x ∧ t_td x = 0;
  q_tor : ∀ td t x, X !! td = Some t → a_tds a !! td = Some x →
    rs_tors s !! t = Some (MkTor td (at_off x) (at_flags x) (Some (at_obj x)));
  q_fs : frel K (rs_fs s);
  q_objs : ∀ i, option_Forall2 obj_rep (fs_objs (rs_fs s) !! i) (a_objs a !! i);
  q_td : ∀ td x, a_tds a !! td = Some x → ∃ o, a_objs a !! at_obj x = Some o ∧ 0 ≤ at_off x ≤ Z.of_nat (length (ao_content o));
  q_refs : ∀ i o, a_objs a !! i = Some o → 1 + Z.of_nat (users a i) ≤ ao_refs o < 2 ^ 32;
  q_mem : ∀ b, b ∈ fs_mem (rs_fs s) → b ∈ mem0
}.

Implicit Types (s : rstate) (a : afs) (X : gmap Z nat) (K : gmap nat (list nat)).

(** ** Running the parts *)

Lemma on_fs_run {A} (o : M fstate A) s r f : o (rs_fs s) = Done r f → on_fs o s = Done r (set_rs_fs f s).
Proof. intros E. unfold on_fs. by rewrite E. Qed.

Lemma on_fs_same {A} (o : M fstate A) s r : o (rs_fs s) = Done r (rs_fs s) → on_fs o s = Done r s.
Proof. intros E. rewrite (on_fs_run _ _ _ _ E). by destruct s. Qed.

Lemma on_tmap_run {A} (o : M mstate A) s r m : o (rs_map s) = Done r m → on_tmap o s = Done r (set_rs_map m s).
Proof. intros E. unfold on_tmap. by rewrite E. Qed.

Lemma get_tor_run s t x : rs_tors s !! t = Some x → get_tor t s = Done x s.
Proof. intros H. unfold get_tor. mrun. by rewrite H. Qed.

Lemma upd_tor_run s t f x : rs_tors s !! t = Some x → upd_tor t f s = Done tt (set_rs_tors (<[t := f x]> (rs_tors s)) s).
Proof. intros H. unfold upd_tor. by rewrite (bind_run _ _ _ _ _ (get_tor_run _ _ _ H)). Qed.

Lemma tor_lookup_run X K a s td : rrel X K a s → td ≠ td_null → td_ok td → tor_lookup td s = Done (X !! td) s.
Proof.
  intros Hr H0 Htd. unfold tor_lookup.
  destruct (map_lookup_step 0 alloc_page _ _ td (q_map _ _ _ _ Hr) Htd) as (r & Hrun & Hst).
  rewrite (bind_run _ _ _ _ _ (on_tmap_run _ _ _ _ Hrun)). replace (set_rs_map (rs_map s) s) with s by (by destruct s).
  inversion Hst as [| | |? v Hu|? v Hu Hv]; subst; rewrite lookup_insert_ne, lookup_fmap in Hu by done.
  - destruct (X !! td) as [t|] eqn:Ht; [|done]. cbn in Hu. injection Hu as <-. destruct (q_Xpos _ _ _ _ Hr _ _ Ht) as [Hpos _].
    destruct (Z.eqb_spec (Z.of_nat t) 0) as [|_]; [lia|]. rewrite Nat2Z.id.
    destruct (proj1 (q_Xdom _ _ _ _ Hr td)) as [x Hx]; [by eexists|].
    rewrite (bind_run _ _ _ _ _ (get_tor_run _ _ _ (q_tor _ _ _ _ Hr _ _ _ Ht Hx))). cbn [t_td]. by rewrite Z.eqb_refl.
  - assert (r = 0) as -> by (by destruct Hv). destruct (X !! td); done.
Qed.

(** What is known of a descriptor. *)
Lemma td_at X K a s td x : rrel X K a s → a_tds a !! td = Some x → ∃ t o f, X !! td = Some t ∧
  rs_tors s !! t = Some (MkTor td (at_off x) (at_flags x) (Some (at_obj x))) ∧ a_objs a !! at_obj x = Some o ∧
  fs_objs (rs_fs s) !! at_obj x = Some f ∧ obj_rep f o ∧ 0 ≤ at_off x ≤ Z.of_nat (length (ao_content o)).
Proof.
  intros Hr Hx. destruct (proj2 (q_Xdom _ _ _ _ Hr td)) as [t Ht]; [by eexists|].
  destruct (q_td _ _ _ _ Hr _ _ Hx) as (o & Ho & Hoff). pose proof (q_objs _ _ _ _ Hr (at_obj x)) as Hf. rewrite Ho in Hf.
  inversion Hf as [f o' Hrep Ef|]; subst. exists t, o, f. split_and!; try done; [by apply (q_tor _ _ _ _ Hr)|lia|lia].
Qed.

Lemma td_none X K a s td : rrel X K a s → a_tds a !! td = None → X !! td = None.
Proof. intros Hr Hn. destruct (X !! td) eqn:E; [|done]. destruct (proj1 (q_Xdom _ _ _ _ Hr td)); [by eexists|congruence]. Qed.

Lemma objs_at X K a s i f : rrel X K a s → fs_objs (rs_fs s) !! i = Some f → ∃ o, a_objs a !! i = Some o ∧ obj_rep f o.
Proof. intros Hr Hf. pose proof (q_objs _ _ _ _ Hr i) as H. rewrite Hf in H. inversion H as [? o Hrep|]; subst. by exists o. Qed.

Lemma objs_at' X K a s i o : rrel X K a s → a_objs a !! i = Some o → ∃ f, fs_objs (rs_fs s) !! i = Some f ∧ obj_rep f o.
Proof. intros Hr Ho. pose proof (q_objs _ _ _ _ Hr i) as H. rewrite Ho in H. inversion H as [f ? Hrep|]; subst. by exists f. Qed.

Lemma objs_none X K a s i : rrel X K a s → fs_objs (rs_fs s) !! i = None ↔ a_objs a !! i = None.
Proof. intros Hr. pose proof (q_objs _ _ _ _ Hr i) as H. by inversion H. Qed.

(** ** Walking *)

Lemma child_iff X K a s d n c : rrel X K a s → child_of K (fs_objs (rs_fs s)) d n = Some c ↔ achild a d n c.
Proof.
  intros Hr. pose proof (q_fs _ _ _ _ Hr) as Hf. unfold child_of, achild. split.
  - destruct (K !! d) as [l|] eqn:Hl; [|done]. intros (Hin & f & Hfo & Hn)%named_Some.
    destruct (fr_kids _ _ Hf _ _ _ Hl Hin) as (f' & Hf' & Hp). assert (f' = f) as -> by congruence.
    destruct (objs_at _ _ _ _ _ _ Hr Hfo) as (o & Ho & Hrep). exists o. split; [done|]. destruct Hrep. split; congruence.
  - intros (o & Ho & Hp & Hn). destruct (objs_at' _ _ _ _ _ _ Hr Ho) as (f & Hfo & Hrep). pose proof Hrep as [En _ _ Ep _ _ _ _ _].
    destruct (fr_parent _ _ Hf c f d Hfo) as (l & Hl & Hin); [congruence|]. rewrite Hl.
    destruct (named (fs_objs (rs_fs s)) l n) as [c'|] eqn:E.
    + apply named_Some in E as (Hin' & f' & Hf' & Hn'). f_equal. eapply (fr_names _ _ Hf d l c' c); eauto. congruence.
    + destruct (named_None _ _ _ _ _ E Hin Hfo). congruence.
Qed.

Lemma dir_iff X K a s d : rrel X K a s → is_dir (fs_objs (rs_fs s)) d = true ↔ adir a d.
Proof.
  intros Hr. unfold is_dir, adir. split.
  - destruct (fs_objs (rs_fs s) !! d) as [f|] eqn:Hf; [|done]. intros Ht%bool_decide_eq_true.
    destruct (objs_at _ _ _ _ _ _ Hr Hf) as (o & Ho & Hrep). exists o. split; [done|]. pose proof (or_type _ _ Hrep) as E.
    rewrite Ht in E. by destruct (ao_dir o).
  - intros (o & Ho & Hd). destruct (objs_at' _ _ _ _ _ _ Hr Ho) as (f & Hf & Hrep). rewrite Hf. apply bool_decide_eq_true.
    rewrite (or_type _ _ Hrep). by rewrite Hd.
Qed.

Definition awres_of (w : walked) : awres :=
  match w with WFound c _ => AFound c | WMissing d cs => AMissing d cs | WNotDir => ANotDir end.

Lemma walk_awalk X K a s : rrel X K a s → ∀ cs d par, awalk a d cs (awres_of (walk K (fs_objs (rs_fs s)) d par cs)).
Proof.
  intros Hr. induction cs as [|n cs IH]; intros d par; cbn [walk]; [constructor|].
  destruct (is_dir (fs_objs (rs_fs s)) d) eqn:Hd.
  - apply (dir_iff _ _ _ _ _ Hr) in Hd. destruct (child_of K (fs_objs (rs_fs s)) d n) as [c|] eqn:Hc.
    + apply (child_iff _ _ _ _ _ _ _ Hr) in Hc. by eapply aw_step.
    + apply aw_missing; [done|]. intros c Hc'. apply (child_iff _ _ _ _ _ _ _ Hr) in Hc'. congruence.
  - apply aw_notdir. intros Ha. apply (dir_iff _ _ _ _ _ Hr) in Ha. congruence.
Qed.

Lemma missing_dir K objs cs : ∀ d par d' cs', walk K objs d par cs = WMissing d' cs' → is_dir objs d' = true ∧
  ∃ n cs0, cs' = n :: cs0 ∧ child_of K objs d' n = None.
Proof.
  induction cs as [|n cs IH]; intros d par d' cs'; cbn; [done|]. destruct (is_dir objs d) eqn:Hd; [|done].
  destruct (child_of K objs d n) eqn:Hc; [apply IH|]. intros [= <- <-]. split; [done|]. by exists n, cs.
Qed.

Lemma found_obj K (f : fstate) cs : frel K f → ∀ d par c par', is_Some (fs_objs f !! d) →
  walk K (fs_objs f) d par cs = WFound c par' → is_Some (fs_objs f !! c).
Proof.
  intros Hr. induction cs as [|n cs IH]; intros d par c par' Hd; cbn; [by intros [= <- _]|].
  destruct (is_dir (fs_objs f) d); [|done]. destruct (child_of K (fs_objs f) d n) as [e|] eqn:Hc; [|done].
  apply IH. by eapply child_of_obj.
Qed.

(** ** The objects change *)

Lemma rrel_fs X K K' a a' s f : rrel X K a s → frel K' f → a_tds a' = a_tds a →
  (∀ i, option_Forall2 obj_rep (fs_objs f !! i) (a_objs a' !! i)) →
  (∀ i o, a_objs a !! i = Some o → ∃ o', a_objs a' !! i = Some o' ∧ (length (ao_content o) ≤ length (ao_content o'))%nat) →
  (∀ i o, a_objs a' !! i = Some o → 1 + Z.of_nat (users a i) ≤ ao_refs o < 2 ^ 32) →
  (∀ b, b ∈ fs_mem f → b ∈ mem0) → rrel X K' a' (set_rs_fs f s).
Proof.
  intros Hr Hf Ht Ho Hc Hrf Hm. split; cbn; rewrite ?Ht; try done; try apply Hr.
  - intros td x Hx. destruct (q_td _ _ _ _ Hr _ _ Hx) as (o & Hoo & Hoff). destruct (Hc _ _ Hoo) as (o' & Ho' & Hl).
    exists o'. split; [done|lia].
  - intros i o Hi. unfold users. rewrite Ht. by apply Hrf.
Qed.

(** One object changes. *)
Lemma rrel_obj X K a s i f f' o o' : rrel X K a s → fs_objs (rs_fs s) !! i = Some f → a_objs a !! i = Some o → obj_rep f' o' →
  fo_name f' = fo_name f → fo_type f' = fo_type f → fo_child f' = fo_child f → fo_parent f' = fo_parent f →
  (length (ao_content o) ≤ length (ao_content o'))%nat → 1 + Z.of_nat (users a i) ≤ ao_refs o' < 2 ^ 32 →
  rrel X K (put_obj i o' a) (set_rs_fs (set_fs_objs (<[i := f']> (fs_objs (rs_fs s))) (rs_fs s)) s).
Proof.
  intros Hr Hf Ho Hrep E1 E2 E3 E4 Hl Hrf. eapply (rrel_fs X K K a); try done.
  - by eapply (frel_upd K (rs_fs s) _ i f f'); [apply Hr|..].
  - intros j. cbn. rewrite !lookup_insert. case_decide; [by constructor|apply Hr].
  - intros j x Hx. cbn. rewrite lookup_insert. case_decide; [subst; exists o'; split; [done|congruence]|by exists x].
  - intros j x. cbn. rewrite lookup_insert. case_decide; [subst; by intros [= <-]|apply Hr].
  - apply Hr.
Qed.

Lemma users_new X K a s c : rrel X K a s → a_objs a !! c = None → users a c = 0%nat.
Proof.
  intros Hr Hc. unfold users. apply map_size_empty_iff, map_empty_filter_2. intros td x Hx [_ E]. cbn in E. subst c.
  destruct (q_td _ _ _ _ Hr _ _ Hx) as (o & Ho & _). congruence.
Qed.

Lemma name_type_components sub n t c q : sub = c :: q → c ≠ SLASH → name_type sub = Some (n, t) → components sub = [n].
Proof.
  intros -> Hc. unfold name_type. destruct (strchr (c :: q)) as [x r] eqn:E.
  destruct (components_cons _ _ _ _ _ eq_refl Hc E) as [-> _]. destruct r as [[|? ?]|]; intros [=]; by subst.
Qed.

Lemma mem_rrel X K a s mem : rrel X K a s → (∀ b, b ∈ mem → b ∈ mem0) → rrel X K a (set_rs_fs (set_fs_mem mem (rs_fs s)) s).
Proof. intros Hr Hm. eapply (rrel_fs X K K a); try done; [apply frel_mem, Hr|apply Hr|by intros i o Ho; exists o|apply Hr]. Qed.

(** ** The object that a path ends at *)

Lemma make_run X K a s d x cs sub c q tflags : rrel X K a s → a_objs a !! d = Some x → ao_dir x = true →
  sub = c :: q → c ≠ SLASH → components sub = cs → (∀ n cs0, cs = n :: cs0 → child_of K (fs_objs (rs_fs s)) d n = None) →
  ∃ r s' K', (c ← on_fs (fsobj_alloc sub d);
     match c with
     | None => mret (inr (- EINVAL))
     | Some c => on_fs (upd_obj c (set_fo_flags tflags));; mret (inl c)
     end) s = Done (r : nat + Z) s' ∧
   ((r = inr (- EINVAL) ∧ (name_type sub = None ∨ false ∈ mem0) ∧ rrel X K a s' ∧ K' = K) ∨
    ∃ n t c, r = inl c ∧ name_type sub = Some (n, t) ∧ cs = [n] ∧ a_objs a !! c = None ∧
      rrel X K' (put_obj c (MkAo n (bool_decide (t = FSOBJ_DIR)) tflags (Some d) [] 1) a) s').
Proof.
  intros Hr Hx Hd Hsub Hc Hcs Hn. destruct (name_type sub) as [[n t]|] eqn:Ent.
  2: { exists (inr (- EINVAL)), s, K. split; [|left; by auto]. erewrite bind_run; [|apply on_fs_same; unfold fsobj_alloc; by rewrite Ent]. done. }
  pose proof (name_type_components _ _ _ _ _ Hsub Hc Ent) as Hcn. rewrite Hcn in Hcs. subst cs.
  destruct (objs_at' _ _ _ _ _ _ Hr Hx) as (f & Hf & Hrep). assert (Hft : fo_type f = FSOBJ_DIR) by (rewrite (or_type _ _ Hrep); by rewrite Hd).
  destruct (proj2 (fr_dom _ _ (q_fs _ _ _ _ Hr) d)) as [l Hl]; [by eexists|].
  assert (Hnamed : named (fs_objs (rs_fs s)) l n = None) by (specialize (Hn n [] eq_refl); unfold child_of in Hn; by rewrite Hl in Hn).
  destruct (alloc_run K (rs_fs s) d l f sub n t (q_fs _ _ _ _ Hr) Hl Hf Hft Ent Hnamed)
    as (f1 & Hm1 & [(Hno & E & Hf1 & Ho1)|(e & He & E & Hf1 & Ho1)]);
    (erewrite bind_run; [|apply on_fs_run; exact E]).
  - exists (inr (- EINVAL)), (set_rs_fs f1 s), K. split; [done|]. left. split; [done|]. split; [right; by apply (q_mem _ _ _ _ Hr)|]. split; [|done].
    eapply (rrel_fs X K K a); try done; [rewrite Ho1; apply Hr|by intros i o Ho; exists o|apply Hr|intros b Hb; apply (q_mem _ _ _ _ Hr); auto].
  - pose proof (proj1 (objs_none _ _ _ _ _ Hr) He) as Hea. assert (Hde : d ≠ e) by congruence.
    assert (He1 : fs_objs f1 !! e = Some (new_obj n t d)) by (rewrite Ho1; apply lookup_insert_eq).
    eexists _, _, (add_kid K d e). split; [cbn match; erewrite bind_run; [|apply on_fs_run; apply upd_obj_run; exact He1]; reflexivity|].
    right. exists n, t, e. do 4 (split; [done|]).
    set (f2 := set_fs_objs (<[e := set_fo_flags tflags (new_obj n t d)]> (fs_objs f1)) f1). change (rrel X (add_kid K d e) (put_obj e (MkAo n (bool_decide (t = FSOBJ_DIR)) tflags (Some d) [] 1) a) (set_rs_fs f2 s)).
    assert (Ht : t = FSOBJ_DIR ∨ t = FSOBJ_FILE).
    { unfold name_type in Ent. destruct (strchr sub) as [y [[|? ?]|]]; naive_solver. }
    eapply (rrel_fs X K _ a); try done.
    + by eapply (frel_upd _ f1 _ e).
    + intros i. unfold f2. cbn [fs_objs set_fs_objs a_objs put_obj]. rewrite Ho1, insert_insert_eq, !lookup_insert. case_decide as Ei; [subst i|].
      * constructor. unfold set_fo_flags, new_obj. split; cbn; try done; by destruct Ht as [-> | ->].
      * case_decide as Ed; [subst i|apply Hr]. rewrite Hx. constructor. destruct Hrep. by split.
    + intros i o Ho. cbn. exists o. rewrite lookup_insert_ne by congruence. split; [done|lia].
    + intros i o. cbn. rewrite lookup_insert. case_decide as Ei; [|apply Hr]. subst i. intros [= <-]. cbn.
      rewrite (users_new _ _ _ _ _ Hr Hea). lia.
    + intros b Hb. apply (q_mem _ _ _ _ Hr). by apply Hm1.
Qed.

Lemma split_obj_run X K a s d p tflags : rrel X K a s → is_Some (a_objs a !! d) → ¬ awalk a d (components p) ANotDir →
  ∃ r s' a' K', split_obj d p tflags s = Done r s' ∧ atarget a d p tflags r a' ∧ rrel X K' a' s' ∧ a_tds a' = a_tds a ∧
    (∀ c, r = inl c → is_Some (a_objs a' !! c)) ∧ (∀ i o, a_objs a' !! i = Some o → ao_refs o = 1 ∨ a_objs a !! i = Some o).
Proof.
  intros Hr [od Hd] Hnd. destruct (objs_at' _ _ _ _ _ _ Hr Hd) as (fd & Hfd & _). pose proof (q_fs _ _ _ _ Hr) as Hfr.
  assert (Hsd : is_Some (fs_objs (rs_fs s) !! d)) by (by eexists).
  pose proof (path2obj_run K (rs_fs s) p d Hfr Hsd) as Hpath.
  pose proof (walk_awalk _ _ _ _ Hr (components p) d None) as Hw. unfold split_obj.
  destruct (walk K (fs_objs (rs_fs s)) d None (components p)) as [c par|d' cs|] eqn:Ew; cbn [awres_of path_result] in Hw, Hpath; [| |done].
  - destruct Hpath as (sub & E). rewrite (bind_run _ _ _ _ _ (on_fs_same _ _ _ E)).
    destruct (found_obj _ _ _ Hfr _ _ _ _ Hsd Ew) as [f Hf]. destruct (objs_at _ _ _ _ _ _ Hr Hf) as (o & Ho & Hrep).
    rewrite (bind_run _ _ _ _ _ (on_fs_same _ _ _ (get_obj_run _ _ _ Hf))), (or_flags _ _ Hrep).
    destruct (Z.eqb_spec (Z.land (Z.lnot (ao_flags o)) tflags) 0) as [Hz|Hz]; cbn [negb].
    + exists (inl c), s, a, K. split; [done|]. split; [by eapply at_found|]. do 2 (split; [done|]). split; [intros ? [= <-]; by eexists|by right].
    + exists (inr (- EACCES)), s, a, K. split; [done|]. split; [by eapply at_found_denied|]. do 3 (split; [done|]). by right.
  - destruct Hpath as (sub & ch & q & E & Hcs & Hsub & Hch & Hsuf). rewrite (bind_run _ _ _ _ _ (on_fs_same _ _ _ E)).
    rewrite bool_decide_true by done. mrun. destruct (missing_dir _ _ _ _ _ _ _ Ew) as (Hdir & n0 & cs0 & Hcs0 & Hch0).
    apply (dir_iff _ _ _ _ _ Hr) in Hdir as (x & Hx & Hxd). destruct (objs_at' _ _ _ _ _ _ Hr Hx) as (fx & Hfx & Hrepx).
    rewrite (bind_run _ _ _ _ _ (on_fs_same _ _ _ (get_obj_run _ _ _ Hfx))), (or_flags _ _ Hrepx).
    destruct (Z.eqb_spec (Z.land (ao_flags x) TOR_SPLIT) 0) as [Hz|Hz].
    { exists (inr (- EACCES)), s, a, K. split; [done|]. split; [by eapply at_create_denied|]. do 3 (split; [done|]). by right. }
    destruct (make_run X K a s d' x cs sub ch q tflags Hr Hx Hxd Hsub Hch Hcs) as (r & s' & K' & Em & Hcase).
    { intros n cs1 E1. rewrite Hcs0 in E1. by injection E1 as <- _. }
    destruct Hcase as [(-> & Hbad & Hr' & ->)|(n & t & c & -> & Hnt & -> & Hc & Hr')].
    + exists (inr (- EINVAL)), s', a, K. split; [exact Em|]. split; [by eapply at_create_bad|]. do 3 (split; [done|]). by right.
    + exists (inl c), s'. eexists _, K'. split; [exact Em|]. split; [by eapply at_create|]. do 2 (split; [done|]). split.
      * intros ? [= <-]. cbn. rewrite lookup_insert_eq. by eexists.
      * intros i o. cbn. intros [[_ <-]|[_ Hi]]%lookup_insert_Some; [by left|by right].
Qed.

(** ** Descriptors come and go *)

Lemma users_insert a td x i : a_tds a !! td = None → (users (put_td td x a) i ≤ users a i + (if decide (at_obj x = i) then 1 else 0))%nat.
Proof.
  intros Hn. unfold users, put_td. cbn. rewrite map_filter_insert. case_decide as Hp; cbn in Hp.
  - rewrite map_size_insert_None by (apply map_lookup_filter_None; by left). rewrite decide_True by apply Hp. lia.
  - rewrite delete_id by done. lia.
Qed.

Lemma users_delete a td x : a_tds a !! td = Some x → td ≠ td_root → users a (at_obj x) = S (users (del_td td a) (at_obj x)).
Proof.
  intros Hx Hne. unfold users, del_td. cbn. rewrite map_filter_delete.
  rewrite map_size_delete_Some by (exists x; by apply map_lookup_filter_Some_2).
  destruct (size _) eqn:E; [|done]. apply map_size_empty_iff in E. exfalso.
  by eapply (map_filter_empty_not_lookup _ (a_tds a) td x).
Qed.

Lemma users_delete_le a td i : (users (del_td td a) i ≤ users a i)%nat.
Proof.
  unfold users, del_td. cbn. rewrite map_filter_delete. rewrite map_size_delete.
  destruct (filter _ (a_tds a) !! td); cbn; lia.
Qed.

Lemma users_same a td x y i : a_tds a !! td = Some x → at_obj y = at_obj x → users (put_td td y a) i = users a i.
Proof.
  intros Hx Hy. unfold users, put_td. cbn. rewrite <- !size_dom. f_equal. apply set_eq. intros j. rewrite !elem_of_dom.
  split; intros [z Hz].
  - apply map_lookup_filter_Some in Hz as [Hz HP]. cbn in HP. rewrite lookup_insert in Hz. case_decide; [subst|].
    + injection Hz as <-. exists x. apply map_lookup_filter_Some. cbn. rewrite <- Hy. done.
    + exists z. by apply map_lookup_filter_Some.
  - apply map_lookup_filter_Some in Hz as [Hz HP]. cbn in HP. destruct (decide (td = j)); [subst|].
    + exists y. apply map_lookup_filter_Some. rewrite lookup_insert_eq. cbn. rewrite Hy. by assert (z = x) as -> by congruence.
    + exists z. apply map_lookup_filter_Some. by rewrite lookup_insert_ne.
Qed.

Lemma obj_take_run X K a s c o : rrel X K a s → a_objs a !! c = Some o → ao_refs o < 2 ^ 32 - 1 →
  ∃ s', on_fs (fsobj_take c) s = Done tt s' ∧ rrel X K (put_obj c (set_refs (ao_refs o + 1) o) a) s'.
Proof.
  intros Hr Ho Hlt. destruct (objs_at' _ _ _ _ _ _ Hr Ho) as (f & Hf & Hrep). pose proof (q_refs _ _ _ _ Hr _ _ Ho) as Hrf.
  eexists. split.
  - apply on_fs_run. unfold fsobj_take. rewrite (bind_run _ _ _ _ _ (get_obj_run _ _ _ Hf)), (or_refs _ _ Hrep).
    destruct (Z.eqb_spec (ao_refs o) 0); [lia|]. mrun. by apply upd_obj_run.
  - eapply rrel_obj; try done; [|cbn; lia].
    destruct Hrep as [? ? ? ? E ? ? ? ?]. split; cbn; try done. unfold u32. apply Z.mod_small. lia.
Qed.

(** The torrents change, and with them the map. *)
Lemma rrel_new_td X K a s s' c o fl t td : rrel X K a s → a_objs a !! c = Some o → 2 + Z.of_nat (users a c) ≤ ao_refs o →
  X !! td = None → td ≠ 0 → t ≠ 0%nat → rs_tors s !! t = None → rs_fs s' = rs_fs s →
  rs_tors s' = <[t := MkTor td 0 fl (Some c)]> (rs_tors s) → mrep 0 (rs_map s') (<[0 := 1]> (Z.of_nat <$> <[td := t]> X)) →
  rrel (<[td := t]> X) K (put_td td (MkAt c 0 fl) a) s'.
Proof.
  intros Hr Ho Hrf Htd Htd0 Ht0 Ht Hfs Htors Hmap.
  assert (Ha : a_tds a !! td = None).
  { destruct (a_tds a !! td) eqn:E; [|done]. destruct (proj2 (q_Xdom _ _ _ _ Hr td)); [by eexists|congruence]. }
  assert (Htn : t ≠ null_torrent). { intros ->. destruct (q_null _ _ _ _ Hr) as (? & ? & _). congruence. }
  assert (Hfr : ∀ j u, X !! j = Some u → u ≠ t).
  { intros j u Hj ->. destruct (proj1 (q_Xdom _ _ _ _ Hr j)) as [x Hx]; [by eexists|]. pose proof (q_tor _ _ _ _ Hr _ _ _ Hj Hx). congruence. }
  split; cbn; rewrite ?Hfs; try done; try apply Hr.
  - by rewrite lookup_insert_ne, (q_X0 _ _ _ _ Hr).
  - intros j u [[_ <-]|[_ Hj]]%lookup_insert_Some; [done|]. by eapply (q_Xpos _ _ _ _ Hr).
  - intros j k u [[<- <-]|[_ Hj]]%lookup_insert_Some [[<- E]|[_ Hk]]%lookup_insert_Some; try done.
    + by destruct (Hfr _ _ Hk). + subst. by destruct (Hfr _ _ Hj). + by eapply (q_Xinj _ _ _ _ Hr).
  - rewrite lookup_insert_ne, (q_Xroot _ _ _ _ Hr); [done|]. intros ->. pose proof (q_Xroot _ _ _ _ Hr). congruence.
  - intros j. rewrite !lookup_insert. case_decide; [split; by eexists|apply Hr].
  - rewrite Htors, lookup_insert_ne by done. apply Hr.
  - intros j u x Hj Hx. rewrite Htors. rewrite lookup_insert in Hj. rewrite lookup_insert in Hx. case_decide.
    + subst. injection Hj as <-. injection Hx as <-. by rewrite lookup_insert_eq.
    + rewrite lookup_insert_ne by (intros <-; by destruct (Hfr _ _ Hj)). by apply (q_tor _ _ _ _ Hr).
  - intros j x Hx. rewrite lookup_insert in Hx. case_decide; [injection Hx as <-; exists o; cbn; split; [done|lia]|by apply (q_td _ _ _ _ Hr j)].
  - intros i x Hi. pose proof (users_insert a td (MkAt c 0 fl) i Ha) as Hu. cbn in Hu. pose proof (q_refs _ _ _ _ Hr _ _ Hi) as Hq.
    case_decide; [subst; assert (x = o) as -> by congruence|]; lia.
Qed.

Lemma tor_alloc_run X K a s c o fl : fresh_pages alloc_page → rrel X K a s → a_objs a !! c = Some o → 2 + Z.of_nat (users a c) ≤ ao_refs o →
  ∃ s', (tor_alloc alloc_page c fl s = Done None s' ∧ no_room a ∧ rrel X K a s') ∨
   ∃ t td X', tor_alloc alloc_page c fl s = Done (Some t) s' ∧ rs_tors s' !! t = Some (MkTor td 0 fl (Some c)) ∧
     a_tds a !! td = None ∧ 1 < td < 2 ^ 19 ∧ rrel X' K (put_td td (MkAt c 0 fl) a) s'.
Proof.
  intros Hfp Hr Ho Hrf. unfold tor_alloc. destruct (fs_avail_run (rs_fs s)) as (b & mem1 & E1 & Hb & Hm).
  rewrite (bind_run _ _ _ _ _ (on_fs_run _ _ _ _ E1)).
  assert (Hr1 : rrel X K a (set_rs_fs (set_fs_mem mem1 (rs_fs s)) s)).
  { apply mem_rrel; [done|]. intros x Hx. apply (q_mem _ _ _ _ Hr). auto. }
  set (s1 := set_rs_fs _ s) in *. destruct b; cbn [negb].
  2: { exists s1. left. split; [done|]. split; [left; apply (q_mem _ _ _ _ Hr); auto|done]. }
  mrun. set (t := fresh _). assert (Hf : t ∉ ({[0%nat; null_torrent; root_torrent]} ∪ dom (rs_tors s1) : gset nat)) by apply is_fresh.
  clearbody t. apply not_elem_of_union in Hf as [Hf0 Hft]. apply not_elem_of_dom in Hft. assert (Ht0 : t ≠ 0%nat) by set_solver.
  set (s2 := set_rs_tors _ s1). unfold tor_cons.
  destruct (map_add_step 0 alloc_page Hfp (rs_map s2) _ (Z.of_nat t) (q_map _ _ _ _ Hr1)) as (r & ms' & used & E & Hst & Hrep'); [lia|].
  inversion Hst as [? id Hu Hid|? Hfull| | |]; subst.
  - apply lookup_insert_None in Hu as [Hu Hr0]. rewrite lookup_fmap, fmap_None in Hu.
    assert (Hr1' : r ≠ 1) by (intros ->; pose proof (q_Xroot _ _ _ _ Hr) as Hx; unfold td_root in Hx; congruence).
    eexists. right. exists t, r, (<[r := t]> X). split; [|split; [|split; [|split; [lia|]]]].
    + erewrite bind_run; [|rewrite (bind_run _ _ _ _ _ (on_tmap_run _ _ _ _ E)); destruct (Z.eqb_spec r (-1)); [lia|];
        erewrite bind_run; [reflexivity|apply upd_tor_run; cbn; apply lookup_insert_eq]]. done.
    + cbn. apply lookup_insert_eq.
    + destruct (a_tds a !! r) eqn:Ea; [|done]. destruct (proj2 (q_Xdom _ _ _ _ Hr r)); [by eexists|congruence].
    + eapply (rrel_new_td X K a s1); try done; [cbn; by rewrite insert_insert_eq|].
      cbn. rewrite fmap_insert, insert_insert_ne by congruence. done.
  - eexists. left. split; [|split].
    + erewrite bind_run; [|rewrite (bind_run _ _ _ _ _ (on_tmap_run _ _ _ _ E)); reflexivity]. cbn. reflexivity.
    + right. destruct Hfull as [|Hall]; [by left|right]. intros td Htd. apply (q_Xdom _ _ _ _ Hr).
      destruct (Hall td) as [v Hv]; [lia|]. rewrite lookup_insert_ne, lookup_fmap in Hv by lia. destruct (X !! td); [by eexists|done].
    + cbn. rewrite delete_insert_id by done. destruct Hr1. by split.
Qed.

Definition sim a s (o : rop) : Prop := ∃ r s' a' X K, rop_run o s = Done r s' ∧ rstep a o r a' ∧ rrel X K a' s'.

Lemma stays X K a s o r : rrel X K a s → rop_run o s = Done r s → rstep a o r a → sim a s o.
Proof. intros Hr E Hs. by exists r, s, a, X, K. Qed.

Lemma lookup_case X K a s td : rrel X K a s → td_ok td →
  td = td_null ∨ td ≠ td_null ∧ (a_tds a !! td = None ∧ tor_lookup td s = Done None s ∨
    ∃ x t o f, a_tds a !! td = Some x ∧ tor_lookup td s = Done (Some t) s ∧ X !! td = Some t ∧
      rs_tors s !! t = Some (MkTor td (at_off x) (at_flags x) (Some (at_obj x))) ∧ a_objs a !! at_obj x = Some o ∧
      fs_objs (rs_fs s) !! at_obj x = Some f ∧ obj_rep f o ∧ 0 ≤ at_off x ≤ Z.of_nat (length (ao_content o))).
Proof.
  intros Hr Htd. destruct (decide (td = td_null)) as [|Hne]; [by left|right]. split; [done|].
  pose proof (tor_lookup_run _ _ _ _ _ Hr Hne Htd) as E. destruct (a_tds a !! td) as [x|] eqn:Hx.
  - right. destruct (td_at _ _ _ _ _ _ Hr Hx) as (t & o & f & Ht & H). rewrite Ht in E. exists x, t, o, f. by split_and!; try apply H.
  - left. rewrite (td_none _ _ _ _ _ Hr Hx) in E. done.
Qed.

Lemma split_sim X K a s td param len tflags : fresh_pages alloc_page → rrel X K a s → rop_ok a (OSplit td param len tflags) →
  sim a s (OSplit td param len tflags).
Proof.
  intros Hfp Hr (Htd & Hlen & Hrefs & Hnd).
  destruct (lookup_case _ _ _ _ _ Hr Htd) as [->|(Hne & [[Hn E]|(x & t & o & f & Hx & E & Ht & Htor & Ho & Hf & Hrep & Hoff)])].
  { eapply stays; [done|done|constructor; by left]. }
  { eapply stays; [done| |constructor; by right]. cbn. unfold tsplit, tor_isnull. rewrite (proj2 (Z.eqb_neq _ _)) by done.
    erewrite bind_run; [|by rewrite (bind_run _ _ _ _ _ E)]. done. }
  assert (Hrun : ∀ r s', (b ← on_fs fs_avail;
      if negb b then mret (- ENOMEM)
      else r ← split_obj (at_obj x) (the_path param len) tflags;
        match r with
        | inr err => mret err
        | inl fsc => on_fs (fsobj_take fsc);; nt ← tor_alloc alloc_page fsc tflags;
            match nt with None => mret (- ENOMEM) | Some nt => y ← get_tor nt; mret (t_td y) end
        end) s = Done r s' → rop_run (OSplit td param len tflags) s = Done (r, []) s').
  { intros r s' Er. cbn. erewrite bind_run; [reflexivity|]. unfold tsplit, tor_isnull. rewrite (proj2 (Z.eqb_neq _ _)) by done.
    rewrite (bind_run _ _ _ _ _ E), (bind_run _ _ _ _ _ (get_tor_run _ _ _ Htor)). cbn [t_data]. rewrite <- Er. rewrite (proj2 (Z.leb_le 0 len)) by done. unfold mbind, M_bind.
    destruct (on_fs fs_avail s) as [[] ?|]; done. }
  destruct (fs_avail_run (rs_fs s)) as (b & mem1 & E1 & Hb & Hm).
  assert (Hr1 : rrel X K a (set_rs_fs (set_fs_mem mem1 (rs_fs s)) s)).
  { apply mem_rrel; [done|]. intros y Hy. apply (q_mem _ _ _ _ Hr). auto. }
  set (s1 := set_rs_fs _ s) in *. destruct b.
  2: { exists (- ENOMEM, []), s1, a, X, K. split; [apply Hrun; by rewrite (bind_run _ _ _ _ _ (on_fs_run _ _ _ _ E1))|].
       split; [|done]. eapply rs_split_mem; try done. apply (q_mem _ _ _ _ Hr). auto. }
  destruct (split_obj_run X K a s1 (at_obj x) (the_path param len) tflags Hr1 (ex_intro _ o Ho) (Hnd x Hx))
    as (r & s2 & a2 & K2 & E2 & Htgt & Hr2 & Htds & Hsome & Hnew).
  destruct r as [c|err].
  2: { exists (err, []), s2, a2, X, K2. split; [apply Hrun; by rewrite (bind_run _ _ _ _ _ (on_fs_run _ _ _ _ E1)); cbn [negb]; rewrite (bind_run _ _ _ _ _ E2)|].
       split; [by eapply rs_split_err|done]. }
  destruct (Hsome c eq_refl) as [oc Hoc].
  assert (Hlt : ao_refs oc < 2 ^ 32 - 1) by (destruct (Hnew _ _ Hoc) as [->|Hold]; [lia|by eapply Hrefs]).
  destruct (obj_take_run _ _ _ _ _ _ Hr2 Hoc Hlt) as (s3 & E3 & Hr3). set (a3 := put_obj c _ a2) in *.
  destruct (tor_alloc_run X K2 a3 s3 c (set_refs (ao_refs oc + 1) oc) tflags Hfp Hr3) as (s4 & Hcase).
  { cbn. apply lookup_insert_eq. }
  { cbn. pose proof (q_refs _ _ _ _ Hr2 _ _ Hoc) as Hq. change (users a3 c) with (users a2 c). lia. }
  assert (Hpre : ∀ r s', (nt ← tor_alloc alloc_page c tflags;
      match nt with None => mret (- ENOMEM) | Some nt => y ← get_tor nt; mret (t_td y) end) s3 = Done r s' →
    rop_run (OSplit td param len tflags) s = Done (r, []) s').
  { intros r s' Er. apply Hrun. rewrite (bind_run _ _ _ _ _ (on_fs_run _ _ _ _ E1)). cbn [negb].
    by rewrite (bind_run _ _ _ _ _ E2), (bind_run _ _ _ _ _ E3). }
  destruct Hcase as [(E4 & Hno & Hr4)|(nt & td' & X' & E4 & Hnt & Hfree & Hb' & Hr4)].
  - exists (- ENOMEM, []), s4, a3, X, K2. split; [apply Hpre; by rewrite (bind_run _ _ _ _ _ E4)|]. split; [|done].
    eapply rs_split_full; try done. unfold no_room in *. cbn in Hno. by rewrite Htds in Hno.
  - exists (td', []), s4, (put_td td' (MkAt c 0 tflags) a3), X', K2. split.
    + apply Hpre. by rewrite (bind_run _ _ _ _ _ E4), (bind_run _ _ _ _ _ (get_tor_run _ _ _ Hnt)).
    + split; [|done]. eapply rs_split; try done. cbn in Hfree. by rewrite Htds in Hfree.
Qed.

Lemma usrdef td : tor_is_usrdef td = true → td ≠ td_null ∧ td ≠ td_root.
Proof. unfold tor_is_usrdef, td_null, td_root. intros H. split; intros ->; done. Qed.

Lemma tor_free_run X K a s td x t : rrel X K a s → td ≠ td_null → td ≠ td_root → a_tds a !! td = Some x → X !! td = Some t →
  ∃ s', (∀ f, tor_free t (set_rs_fs f s) = Done tt (set_rs_fs f s')) ∧ rs_fs s' = rs_fs s ∧ rrel (delete td X) K (del_td td a) s'.
Proof.
  intros Hr H0 H1 Hx Ht. pose proof (q_tor _ _ _ _ Hr _ _ _ Ht Hx) as Htor. destruct (q_map _ _ _ _ Hr) as [fl Hmap].
  destruct (del_run 0 (rs_map s) _ fl td (Z.of_nat t) Hmap) as (ms' & Hdel & Hmap').
  { by rewrite lookup_insert_ne, lookup_fmap, Ht. }
  exists (set_rs_tors (delete t (rs_tors s)) (set_rs_map ms' s)). split; [|split; [done|]].
  - intros f. unfold tor_free. erewrite bind_run; [|apply get_tor_run; exact Htor]. cbn [t_td].
    erewrite bind_run; [|apply on_tmap_run; exact Hdel]. cbn [Z.eqb]. by mrun.
  - split; cbn; try done; try apply Hr.
    + rewrite fmap_delete, <- delete_insert_ne by done. by eexists.
    + rewrite lookup_delete_ne by done. apply Hr.
    + intros j u [_ Hj]%lookup_delete_Some. by eapply (q_Xpos _ _ _ _ Hr).
    + intros j k u [_ Hj]%lookup_delete_Some [_ Hk]%lookup_delete_Some. by eapply (q_Xinj _ _ _ _ Hr).
    + rewrite lookup_delete_ne by done. apply Hr.
    + intros j. rewrite !lookup_delete. case_decide; [done|apply Hr].
    + rewrite lookup_delete_ne by (by destruct (q_Xpos _ _ _ _ Hr _ _ Ht)). apply Hr.
    + intros j u y [Hne Hj]%lookup_delete_Some [_ Hy]%lookup_delete_Some. rewrite lookup_delete_ne; [by apply (q_tor _ _ _ _ Hr)|].
      intros <-. apply Hne. by eapply (q_Xinj _ _ _ _ Hr).
    + intros j y [_ Hy]%lookup_delete_Some. by eapply (q_td _ _ _ _ Hr).
    + intros j o Hj. pose proof (q_refs _ _ _ _ Hr _ _ Hj). pose proof (users_delete_le a td j). lia.
Qed.

Lemma merge_sim X K a s td into : rrel X K a s → td_ok td → sim a s (OMerge td into).
Proof.
  intros Hr Htd. destruct (tor_is_usrdef td) eqn:Hu.
  2: { eapply stays; [done| |by constructor]. cbn. unfold tmerge. by rewrite Hu. }
  destruct (usrdef _ Hu) as [Hn0 Hn1].
  destruct (lookup_case _ _ _ _ _ Hr Htd) as [->|(_ & [[Hn E]|(x & t & o & f & Hx & E & Ht & _)])]; [done| |].
  { eapply stays; [done| |apply rs_merge_err; [done|by left]]. cbn. unfold tmerge. rewrite Hu. cbn [negb].
    erewrite bind_run; [|by rewrite (bind_run _ _ _ _ _ E)]. done. }
  destruct (Z.eqb_spec into td_null) as [->|Hi].
  - destruct (tor_free_run _ _ _ _ _ _ _ Hr Hn0 Hn1 Hx Ht) as (s' & E' & Hfs & Hr').
    specialize (E' (rs_fs s)). rewrite <- Hfs in E' at 2. replace (set_rs_fs (rs_fs s) s) with s in E' by (by destruct s).
    replace (set_rs_fs (rs_fs s') s') with s' in E' by (by destruct s'). eexists _, s', _, _, K. split; [|split; [by eapply rs_merge|exact Hr']].
    cbn. unfold tmerge. rewrite Hu. cbn [negb]. erewrite bind_run; [|rewrite (bind_run _ _ _ _ _ E); cbn; by rewrite (bind_run _ _ _ _ _ E')]. done.
  - eapply stays; [done| |apply rs_merge_err; [done|by right]]. cbn. unfold tmerge. rewrite Hu. cbn [negb].
    erewrite bind_run; [|rewrite (bind_run _ _ _ _ _ E), (proj2 (Z.eqb_neq _ _)) by done; reflexivity]. done.
Qed.

Lemma release_sim X K a s td : rrel X K a s → td_ok td → sim a s (ORelease td).
Proof.
  intros Hr Htd. destruct (tor_is_usrdef td) eqn:Hu.
  2: { eapply stays; [done| |constructor; by left]. cbn. unfold trelease. by rewrite Hu. }
  destruct (usrdef _ Hu) as [Hn0 Hn1].
  destruct (lookup_case _ _ _ _ _ Hr Htd) as [->|(_ & [[Hn E]|(x & t & o & f & Hx & E & Ht & Htor & Ho & Hf & Hrep & _)])]; [done| |].
  { eapply stays; [done| |constructor; by right]. cbn. unfold trelease. rewrite Hu. cbn [negb].
    erewrite bind_run; [|by rewrite (bind_run _ _ _ _ _ E)]. done. }
  pose proof (q_refs _ _ _ _ Hr _ _ Ho) as Hq. pose proof (users_delete a td x Hx Hn1) as Hud.
  set (s1 := set_rs_fs (set_fs_objs (<[at_obj x := set_fo_refcnt (ao_refs o - 1) f]> (fs_objs (rs_fs s))) (rs_fs s)) s).
  assert (Er : ∀ n, on_fs (fsobj_release (S n) (at_obj x)) s = Done tt s1).
  { intros n. apply on_fs_run. cbn [fsobj_release]. rewrite (bind_run _ _ _ _ _ (get_obj_run _ _ _ Hf)), (or_refs _ _ Hrep).
    destruct (Z.eqb_spec (ao_refs o) 0); [lia|]. mrun. rewrite (bind_run _ _ _ _ _ (upd_obj_run _ _ _ _ Hf)).
    destruct (Z.eqb_spec (ao_refs o - 1) 0); [lia|]. done. }
  destruct (tor_free_run X K a s td x t Hr Hn0 Hn1 Hx Ht) as (s0 & E0 & Hfs & Hr0).
  eexists (0, []), _, _, _, K. split; [|split; [by eapply (rs_release a td x o)|]].
  - cbn. unfold trelease. rewrite Hu. cbn [negb]. erewrite bind_run; [|rewrite (bind_run _ _ _ _ _ E), (bind_run _ _ _ _ _ (get_tor_run _ _ _ Htor));
      cbn [t_data]; mrun; rewrite Nat.add_comm; cbn [Nat.add]; rewrite (bind_run _ _ _ _ _ (Er _)); apply E0]. done.
  - rewrite <- Hfs in Hf |- *. eapply (rrel_obj (delete td X) K (del_td td a) s0 (at_obj x) f); try done; [|cbn; lia].
    destruct Hrep. by split.
Qed.

(** ** Reading and writing *)

Lemma rrel_off X K a s td x t o off : rrel X K a s → a_tds a !! td = Some x → X !! td = Some t → a_objs a !! at_obj x = Some o →
  0 ≤ off ≤ Z.of_nat (length (ao_content o)) →
  rrel X K (put_td td (MkAt (at_obj x) off (at_flags x)) a)
    (set_rs_tors (<[t := MkTor td off (at_flags x) (Some (at_obj x))]> (rs_tors s)) s).
Proof.
  intros Hr Hx Ht Ho Hoff. split; cbn; try apply Hr.
  - intros j. rewrite (q_Xdom _ _ _ _ Hr), lookup_insert. case_decide; [subst; rewrite Hx; split; by eexists|done].
  - rewrite lookup_insert_ne by (by destruct (q_Xpos _ _ _ _ Hr _ _ Ht)). apply Hr.
  - intros j u y Hj Hy. rewrite lookup_insert in Hy. case_decide.
    + subst j. injection Hy as <-. assert (u = t) as -> by congruence. by rewrite lookup_insert_eq.
    + rewrite lookup_insert_ne; [by apply (q_tor _ _ _ _ Hr)|]. intros <-. by assert (td = j) by (by eapply (q_Xinj _ _ _ _ Hr)).
  - intros j y Hy. rewrite lookup_insert in Hy. case_decide; [injection Hy as <-; by exists o|by eapply (q_td _ _ _ _ Hr)].
  - intros i y Hi. rewrite (users_same a td x) by done. by apply (q_refs _ _ _ _ Hr).
Qed.

Lemma read_bytes (d c : list Z) (off n : nat) : take (length c) d = c → (off + n ≤ length c)%nat →
  take n (drop off d) = take n (drop off c).
Proof.
  intros Hd Hn. rewrite <- Hd. rewrite skipn_firstn_comm. rewrite take_take. by rewrite Nat.min_l by lia.
Qed.

Lemma copy_from_run d off n s : 0 ≤ off → 0 ≤ n → off + n ≤ Z.of_nat (length d) →
  copy_from d off n s = Done (take (Z.to_nat n) (drop (Z.to_nat off) d)) s.
Proof.
  intros H1 H2 H3. unfold copy_from. rewrite (proj2 (Z.leb_le 0 off)), (proj2 (Z.leb_le 0 n)), (proj2 (Z.leb_le (off + n) _)) by done. done.
Qed.

Lemma s32_small z : 0 ≤ z < 2 ^ 31 → s32 z = z.
Proof. intros H. unfold s32. rewrite Z.mod_small by lia. lia. Qed.

Lemma u32_fits z : 0 ≤ z < 2 ^ 32 → u32 z = z.
Proof. intros H. unfold u32. by rewrite Z.mod_small. Qed.

Lemma read_sim X K a s td cbuf sz : rrel X K a s → td_ok td → 0 ≤ sz → sim a s (ORead td cbuf sz).
Proof.
  intros Hr Htd Hsz.
  destruct (lookup_case _ _ _ _ _ Hr Htd) as [->|(Hne & [[Hn E]|(x & t & o & f & Hx & E & Ht & Htor & Ho & Hf & Hrep & Hoff)])].
  { eapply stays; [done|done|constructor; by left]. }
  { eapply stays; [done| |constructor; by right]. cbn. unfold tread, tor_isnull. rewrite (proj2 (Z.eqb_neq _ _)) by done.
    by rewrite (bind_run _ _ _ _ _ E). }
  assert (Hrun : rop_run (ORead td cbuf sz) s = (if Z.land (at_flags x) TOR_READ =? 0 then mret (- EACCES, [])
    else if fo_size f =? 0 then mret (0, []) else if negb cbuf then mret (-1, [])
    else let ret := Z.min sz (fo_size f - at_off x) in
      assert (bool_decide (fo_data f ≠ None));; data ← deref (fo_data f); bytes ← copy_from data (at_off x) ret;
      upd_tor t (set_t_offset (u32 (at_off x + ret)));; mret (ret, bytes)) s).
  { cbn. unfold tread, tor_isnull. rewrite (proj2 (Z.eqb_neq _ _)) by done.
    rewrite (bind_run _ _ _ _ _ E), (bind_run _ _ _ _ _ (get_tor_run _ _ _ Htor)). cbn [t_data t_flags t_offset].
    rewrite bool_decide_true by done. rewrite orb_true_r. mrun. destruct (Z.land (at_flags x) TOR_READ =? 0); [done|]. mrun.
    rewrite (bind_run _ _ _ _ _ (on_fs_same _ _ _ (get_obj_run _ _ _ Hf))). destruct Hrep as [_ _ _ _ _ Hs Hsm Hal _].
    rewrite (proj2 (Z.leb_le (fo_size f) _)) by lia. mrun. rewrite (proj2 (Z.leb_le (at_off x) _)) by lia. mrun. destruct (fo_size f =? 0); [done|].
    destruct cbuf; [|done]. cbn [negb]. rewrite s32_small by lia.
    replace (if sz <? fo_size f - at_off x then sz else fo_size f - at_off x) with (Z.min sz (fo_size f - at_off x)) by (destruct (Z.ltb_spec sz (fo_size f - at_off x)); lia).
    done. }
  destruct (Z.eqb_spec (Z.land (at_flags x) TOR_READ) 0) as [Hz|Hz].
  { eapply stays; [done|by rewrite Hrun|by eapply rs_read_denied]. }
  pose proof Hrep as [_ _ _ _ _ Hs Hsm Hal Hd]. destruct (Z.eqb_spec (fo_size f) 0) as [H0|H0].
  { eapply stays; [done|by rewrite Hrun|eapply rs_read_empty; try done]. apply length_zero_iff_nil. lia. }
  destruct cbuf; [|by eapply stays; [done|by rewrite Hrun|by eapply rs_read_nobuf]].
  destruct (fo_data f) as [d|] eqn:Hfd; [|lia]. destruct Hd as (Hdl & Hdc & _).
  set (ret := Z.min sz (fo_size f - at_off x)) in *. assert (Hret : 0 ≤ ret ≤ fo_size f - at_off x) by lia.
  set (bytes := take (Z.to_nat sz) (drop (Z.to_nat (at_off x)) (ao_content o))).
  assert (Hbl : Z.of_nat (length bytes) = ret) by (unfold bytes; rewrite length_take, length_drop; lia).
  assert (Hb : take (Z.to_nat ret) (drop (Z.to_nat (at_off x)) d) = bytes).
  { rewrite (read_bytes d (ao_content o)) by (done || lia). unfold bytes. destruct (decide (sz ≤ fo_size f - at_off x)).
    - by replace ret with sz by lia. - rewrite !take_ge; [done|rewrite length_drop; lia..]. }
  exists (ret, bytes). eexists _, _, X, K. split; [|split; [rewrite <- Hbl; by eapply (rs_read a td sz x o bytes)|]].
  - rewrite Hrun. cbn [negb]. cbv zeta. rewrite bool_decide_true by done. mrun.
    rewrite (bind_run _ _ _ _ _ (copy_from_run d (at_off x) ret s ltac:(lia) ltac:(lia) ltac:(lia))), Hb.
    erewrite bind_run; [reflexivity|]. by apply upd_tor_run.
  - cbn. rewrite u32_fits by lia. rewrite Hbl. eapply (rrel_off X K a s td x t o); try done. lia.
Qed.

Lemma copy_to_run d off n b s : 0 ≤ off → 0 ≤ n → off + n ≤ Z.of_nat (length d) → n ≤ Z.of_nat (length b) →
  copy_to d off n b s = Done (take (Z.to_nat off) d ++ take (Z.to_nat n) b ++ drop (Z.to_nat (off + n)) d) s.
Proof.
  intros H1 H2 H3 H4. unfold copy_to. rewrite (proj2 (Z.leb_le 0 off)), (proj2 (Z.leb_le 0 n)), (proj2 (Z.leb_le (off + n) _)), (proj2 (Z.leb_le n _)) by done. done.
Qed.

Lemma length_overwrite c b off : (off ≤ length c)%nat → length (overwrite c b off) = Nat.max (length c) (off + length b).
Proof. intros H. unfold overwrite. rewrite !length_app, length_take, length_drop. lia. Qed.

(** The array after a copy holds the content after the write. *)
Lemma overwrite_rep (d c b : list Z) (off : nat) : take (length c) d = c → (off ≤ length c)%nat → (off + length b ≤ length d)%nat →
  let d' := take off d ++ b ++ drop (off + length b) d in
  length d' = length d ∧ take (length (overwrite c b off)) d' = overwrite c b off.
Proof.
  intros Hc Ho Hl d'. assert (Hcd : (length c ≤ length d)%nat) by (rewrite <- Hc, length_take; lia).
  split; [unfold d'; rewrite !length_app, length_take, length_drop; lia|].
  rewrite length_overwrite by done. unfold d', overwrite.
  assert (Hoff : take off d = take off c) by (rewrite <- Hc, take_take; by rewrite Nat.min_l by lia).
  assert (Hdr : drop (off + length b) c = take (length c - (off + length b)) (drop (off + length b) d)).
  { rewrite <- Hc at 1. by rewrite skipn_firstn_comm. }
  rewrite Hoff, Hdr. rewrite take_app_ge by (rewrite length_take; lia). f_equal. rewrite length_take.
  rewrite take_app_ge by lia. f_equal. f_equal. lia.
Qed.

(** What the write needs of the object with room for it. *)
Record room (f : fsobj) (c : list Z) (off sz : Z) (f' : fsobj) (n : Z) : Prop := {
  rm_n : 0 ≤ n ≤ sz ∧ (n = 0 → sz = 0);
  rm_same : ∃ v, f' = set_fo_content (Z.max (fo_size f) (off + n)) v (fo_data f') f;
  rm_alloc : Z.max (fo_size f) (off + n) ≤ fo_allocated f' ≤ Z.max MIN_DATA_SZ (2 * Z.max (fo_size f) (off + n));
  rm_data : match fo_data f' with
            | None => fo_allocated f' = 0
            | Some d => Z.of_nat (length d) = fo_allocated f' ∧ take (length c) d = c ∧ 0 < fo_allocated f'
            end
}.

Lemma write_room_run X K a s f o off sz : (∀ n, 0 ≤ n → Z.of_nat (length (new_mem n)) = n) → rrel X K a s → obj_rep f o →
  0 ≤ off ≤ fo_size f → 0 ≤ sz < 2 ^ 28 → fo_size f < 2 ^ 28 →
  ∃ r s', write_room new_mem f off sz s = Done r s' ∧ rrel X K a s' ∧ fs_objs (rs_fs s') = fs_objs (rs_fs s) ∧ rs_tors s' = rs_tors s ∧
    match r with
    | None => false ∈ mem0
    | Some (f', n) => room f (ao_content o) off sz f' n
    end.
Proof.
  intros Hnew Hr [_ _ _ _ _ Hs _ Hal Hd] Hoff Hsz Hsm. unfold write_room. unfold MIN_DATA_SZ in *. rewrite s32_small by lia.
  destruct (Z.leb_spec sz (fo_allocated f - off)) as [Hle|Hgt].
  - eexists _, s. split; [reflexivity|]. do 3 (split; [done|]). rewrite u32_fits by lia.
    assert (Hm : (if fo_size f <? off + sz then off + sz else fo_size f) = Z.max (fo_size f) (off + sz)) by (destruct (Z.ltb_spec (fo_size f) (off + sz)); lia).
    rewrite Hm. split; cbn; [lia|by eexists|unfold MIN_DATA_SZ; lia|done].
  - set (new_sz := if fo_allocated f =? 0 then 256 else s32 (fo_allocated f * 2)).
    assert (Hns : new_sz = if fo_allocated f =? 0 then 256 else 2 * fo_allocated f).
    { unfold new_sz. destruct (fo_allocated f =? 0) eqn:E; [done|]. rewrite s32_small by lia. lia. }
    assert (Hns2 : fo_allocated f < new_sz ≤ 2 ^ 30 ∧ (0 < fo_allocated f → new_sz = 2 * fo_allocated f) ∧ (fo_allocated f = 0 → new_sz = 256)).
    { rewrite Hns. destruct (Z.eqb_spec (fo_allocated f) 0); lia. }
    clearbody new_sz. destruct (fs_avail_run (rs_fs s)) as (b & mem1 & E1 & Hb & Hm).
    rewrite (bind_run _ _ _ _ _ (on_fs_run _ _ _ _ E1)).
    assert (Hr1 : rrel X K a (set_rs_fs (set_fs_mem mem1 (rs_fs s)) s)).
    { apply mem_rrel; [done|]. intros y Hy. apply (q_mem _ _ _ _ Hr). auto. }
    set (s1 := set_rs_fs _ s) in *. destruct b; cbn [negb].
    2: { exists None, s1. split; [done|]. do 3 (split; [done|]). apply (q_mem _ _ _ _ Hr). auto. }
    assert (Hnd : ∃ nd, (match fo_data f with
        | None => mret (new_mem new_sz)
        | Some d => old ← copy_from d 0 (fo_size f); copy_to (new_mem new_sz) 0 (fo_size f) old end) s1 = Done nd s1 ∧
      Z.of_nat (length nd) = new_sz ∧ take (length (ao_content o)) nd = ao_content o).
    { specialize (Hnew new_sz ltac:(lia)). destruct (fo_data f) as [d|].
      - destruct Hd as (Hdl & Hdc & _). rewrite (bind_run _ _ _ _ _ (copy_from_run d 0 (fo_size f) s1 ltac:(lia) ltac:(lia) ltac:(lia))).
        rewrite drop_0. eexists. split; [apply copy_to_run; rewrite ?length_take; lia|].
        replace (Z.to_nat (fo_size f)) with (length (ao_content o)) by lia. rewrite Hdc, (take_ge (ao_content o)) by lia. change (Z.to_nat 0) with 0%nat. rewrite take_0, app_nil_l. split.
        + rewrite length_app, length_drop. lia.
        + by rewrite take_app_length.
      - exists (new_mem new_sz). split; [done|]. split; [done|]. assert (ao_content o = []) as -> by (apply length_zero_iff_nil; lia). done. }
    destruct Hnd as (nd & End & Hndl & Hndc). rewrite (bind_run _ _ _ _ _ End). eexists _, s1. split; [reflexivity|]. do 3 (split; [done|]).
    rewrite s32_small by lia. set (n := if sz <? new_sz - off then sz else new_sz - off).
    assert (Hn : n = Z.min sz (new_sz - off)) by (unfold n; destruct (Z.ltb_spec sz (new_sz - off)); lia). clearbody n.
    rewrite u32_fits by lia. split; cbn; [lia| |unfold MIN_DATA_SZ; lia|split_and!; [done|done|lia]].
    exists new_sz. replace (Z.max (fo_size f) (off + n)) with (off + n) by lia. done.
Qed.

(** The object after the copy. *)
Lemma room_rep f o off sz f' n b : obj_rep f o → 0 ≤ off ≤ fo_size f → 0 ≤ sz < 2 ^ 28 → fo_size f < 2 ^ 28 → sz ≤ Z.of_nat (length b) →
  room f (ao_content o) off sz f' n →
  ∃ data, (∀ s, (match fo_data f' with Some d => copy_to d off n b | None => if n =? 0 then mret [] else fail NullDeref end) s = Done data s) ∧
    obj_rep (set_fo_content (fo_size f') (fo_allocated f') (if bool_decide (fo_data f' = None) then None else Some data) f')
      (set_content (overwrite (ao_content o) (take (Z.to_nat n) b) (Z.to_nat off)) o).
Proof.
  intros [Hnm Hty Hfl Hpa Hrc Hs _ Hal Hd] Hoff Hsz Hsm Hb [[Hn Hn0] [v Hf'] Hal' Hd'].
  assert (Hlen : length (overwrite (ao_content o) (take (Z.to_nat n) b) (Z.to_nat off)) = Z.to_nat (Z.max (fo_size f) (off + n))).
  { rewrite length_overwrite by lia. rewrite length_take. lia. }
  assert (Hsz' : fo_size f' = Z.max (fo_size f) (off + n)) by (by rewrite Hf').
  destruct (fo_data f') as [d|] eqn:Ed.
  - destruct Hd' as (Hdl & Hdc & Hpos). destruct (overwrite_rep d (ao_content o) (take (Z.to_nat n) b) (Z.to_nat off)) as [Hl1 Hl2]; [done|lia|rewrite length_take; lia|].
    eexists. split; [intros s; apply copy_to_run; lia|]. rewrite bool_decide_false by done.
    rewrite length_take, Nat.min_l in Hl1, Hl2 by lia. rewrite <- Z2Nat.inj_add in Hl1, Hl2 by lia.
    split; cbn; rewrite ?Hsz'; try lia; try (rewrite Hf'; done). split_and!; [by rewrite Hl1|exact Hl2|done].
  - assert (n = 0 ∧ ao_content o = [] ∧ off = 0) as (-> & Hc & ->).
    { assert (fo_size f = 0) by lia. split_and!; [lia|apply length_zero_iff_nil; lia|lia]. }
    exists []. split; [done|]. rewrite bool_decide_true by done. split; cbn; rewrite ?Hsz'; try lia; try (rewrite Hf'; done).
Qed.

Lemma write_sim X K a s td buf sz : (∀ n, 0 ≤ n → Z.of_nat (length (new_mem n)) = n) → rrel X K a s → rop_ok a (OWrite td buf sz) →
  sim a s (OWrite td buf sz).
Proof.
  intros Hnew Hr (Htd & Hsz & Hbuf & Hsm).
  destruct (lookup_case _ _ _ _ _ Hr Htd) as [->|(Hne & [[Hn E]|(x & t & o & f & Hx & E & Ht & Htor & Ho & Hf & Hrep & Hoff)])].
  { eapply stays; [done|done|constructor; by left]. }
  { eapply stays; [done| |constructor; by right]. cbn. unfold twrite, tor_isnull. rewrite (proj2 (Z.eqb_neq _ _)) by done.
    erewrite bind_run; [|by rewrite (bind_run _ _ _ _ _ E)]. done. }
  specialize (Hsm x o Hx Ho). pose proof Hrep as [_ _ _ _ _ Hs _ Hal _].
  assert (Hrun : ∀ r s', (if Z.land (at_flags x) TOR_WRITE =? 0 then mret (- EACCES)
    else match buf with None => mret (- EINVAL) | Some buf =>
      r ← write_room new_mem f (at_off x) sz;
      match r with None => mret (- ENOMEM) | Some (o', ret) =>
        data ← match fo_data o' with Some d => copy_to d (at_off x) ret buf | None => if ret =? 0 then mret [] else fail NullDeref end;
        on_fs (upd_obj (at_obj x) (λ _, set_fo_content (fo_size o') (fo_allocated o') (if bool_decide (fo_data o' = None) then None else Some data) o'));;
        upd_tor t (set_t_offset (u32 (at_off x + ret)));; mret ret
      end end) s = Done r s' → rop_run (OWrite td buf sz) s = Done (r, []) s').
  { intros r s' Er. cbn. erewrite bind_run; [reflexivity|]. unfold twrite, tor_isnull. rewrite (proj2 (Z.eqb_neq _ _)) by done.
    rewrite (bind_run _ _ _ _ _ E), (bind_run _ _ _ _ _ (get_tor_run _ _ _ Htor)). cbn [t_data t_flags t_offset].
    rewrite bool_decide_true by done. mrun. destruct (Z.land (at_flags x) TOR_WRITE =? 0); [done|]. mrun.
    rewrite (bind_run _ _ _ _ _ (on_fs_same _ _ _ (get_obj_run _ _ _ Hf))).
    rewrite (proj2 (Z.leb_le (fo_size f) _)) by lia. mrun. rewrite (proj2 (Z.leb_le (at_off x) _)) by lia. mrun. done. }
  destruct (Z.eqb_spec (Z.land (at_flags x) TOR_WRITE) 0) as [Hz|Hz].
  { eapply stays; [done|by apply Hrun|by eapply rs_write_denied]. }
  destruct buf as [b|]; [|by eapply stays; [done|by apply Hrun|by eapply rs_write_nobuf]].
  specialize (Hbuf b eq_refl).
  destruct (write_room_run X K a s f o (at_off x) sz Hnew Hr Hrep) as (r & s1 & E1 & Hr1 & Hobj1 & Htor1 & Hcase); [lia..|].
  destruct r as [[f' n]|].
  2: { exists (- ENOMEM, []), s1, a, X, K. split; [apply Hrun; by rewrite (bind_run _ _ _ _ _ E1)|]. split; [by eapply rs_write_mem|done]. }
  destruct (room_rep f o (at_off x) sz f' n b Hrep) as (data & E2 & Hrep'); [lia..|done|].
  set (f2 := set_fo_content _ _ _ f') in *. set (o2 := set_content _ o) in *.
  assert (Hf1 : fs_objs (rs_fs s1) !! at_obj x = Some f) by congruence.
  pose proof Hcase as [[Hn Hn0] [v Hf'] _ _].
  assert (Hlen : Z.of_nat (length (ao_content o2)) = Z.max (fo_size f) (at_off x + n)).
  { cbn. rewrite length_overwrite, length_take by lia. lia. }
  assert (Hr2 : rrel X K (put_obj (at_obj x) o2 a) (set_rs_fs (set_fs_objs (<[at_obj x := f2]> (fs_objs (rs_fs s1))) (rs_fs s1)) s1)).
  { eapply (rrel_obj X K a s1 (at_obj x) f f2 o o2); try done; [unfold f2; rewrite Hf'; done..|lia|exact (q_refs _ _ _ _ Hr _ _ Ho)]. }
  eexists (n, []), _, _, X, K. split; [|split; [by eapply (rs_write a td b sz x o n)|]].
  - apply Hrun. rewrite (bind_run _ _ _ _ _ E1), (bind_run _ _ _ _ _ (E2 _)), (bind_run _ _ _ _ _ (on_fs_run _ _ _ _ (upd_obj_run _ _ _ _ Hf1))).
    erewrite bind_run; [reflexivity|]. apply upd_tor_run. cbn. by rewrite Htor1.
  - cbn [set_t_offset t_td t_flags t_data]. rewrite u32_fits by lia.
    eapply (rrel_off X K (put_obj (at_obj x) o2 a) _ td x t o2); try done; [cbn; apply lookup_insert_eq|lia].
Qed.

(** ** Initialisation *)

(** The variables of the component before it runs. *)
Record boot s : Prop := {
  bt_tors : rs_tors s = {[null_torrent := MkTor 0 0 0 None; root_torrent := MkTor 0 0 0 None]};
  bt_objs : ∃ x, fs_objs (rs_fs s) = {[root := x]};
  bt_link : is_Some (fs_links (rs_fs s) !! root);
  bt_page : is_page (vs_mem (ms_data (rs_map s))) (v_vect (vs_v (ms_data (rs_map s))));
  bt_mem : ∀ b, b ∈ fs_mem (rs_fs s) → b ∈ mem0
}.

Lemma torlib_init_run s : fresh_pages alloc_page → boot s → ∃ m, torlib_init alloc_page s =
    Done tt (MkRs (rs_fs s) {[null_torrent := MkTor 0 0 0 None; root_torrent := MkTor 1 0 0 None]} m) ∧
  mrep 0 m {[0 := 1; 1 := 2]}.
Proof.
  intros Hfp [Ht _ _ Hp _]. destruct (map_init_free 0 (rs_map s) Hp) as (m0 & E0 & H0).
  change (seqZ 0 512) with (0 :: 1 :: seqZ 2 510) in H0.
  destruct (map_add_free 0 alloc_page _ _ _ _ 1 H0) as (m1 & E1 & H1 & _).
  destruct (map_add_free 0 alloc_page _ _ _ _ 2 H1) as (m2 & E2 & H2 & _).
  exists m2. split; [|eexists; by rewrite insert_insert_ne in H2].
  unfold torlib_init. erewrite bind_run; [|apply on_tmap_run; exact E0].
  erewrite bind_run; [|apply upd_tor_run; cbn; rewrite Ht; reflexivity].
  erewrite bind_run; [|apply on_tmap_run; exact E1]. cbn [Z.eqb td_null]. mrun.
  erewrite bind_run; [|apply upd_tor_run; cbn; rewrite Ht; reflexivity].
  erewrite bind_run; [|apply on_tmap_run; exact E2]. mrun. cbn. rewrite Ht. reflexivity.
Qed.

Lemma init_sim s : fresh_pages alloc_page → boot s → ∃ s', cos_init alloc_page s = Done tt s' ∧
  rrel {[td_root := root_torrent]} {[root := []]} empty_fs s'.
Proof.
  intros Hfp Hb. destruct (torlib_init_run s Hfp Hb) as (m & E & Hm). destruct (bt_objs _ Hb) as [x Hx].
  destruct (init_root_run (rs_fs s) root x Hx (bt_link _ Hb)) as (f & E1 & Hf & Hmem & Hfo).
  unfold cos_init. rewrite (bind_run _ _ _ _ _ E). erewrite bind_run; [|apply on_fs_run; exact E1].
  erewrite bind_run; [|apply upd_tor_run; cbn; reflexivity]. eexists. split; [apply on_fs_run; apply upd_obj_run; cbn; rewrite Hfo; reflexivity|].
  split; try (cbn; done).
  - by intros td t [_ <-]%lookup_singleton_Some.
  - by intros i j t [<- _]%lookup_singleton_Some [<- _]%lookup_singleton_Some.
  - intros td. unfold empty_fs. cbn [a_tds]. rewrite !lookup_singleton. case_decide; split; intros []; try done; by eexists.
  - eexists. cbn. split; reflexivity.
  - intros td t y [<- <-]%lookup_singleton_Some [= <-]. reflexivity.
  - cbn [rs_fs set_rs_tors set_rs_fs]. eapply frel_upd; [exact Hf|cbn; rewrite Hfo; apply lookup_singleton_eq|done..].
  - intros i. unfold empty_fs. cbn [rs_fs set_rs_tors set_rs_fs fs_objs set_fs_objs a_objs]. rewrite Hfo, insert_singleton_eq, !lookup_singleton. case_decide; constructor. by split.
  - unfold empty_fs. cbn [a_tds a_objs]. intros td y [_ <-]%lookup_singleton_Some. cbn. eexists. split; [reflexivity|]. cbn. lia.
  - unfold users, empty_fs. cbn [a_tds a_objs]. intros i o [<- <-]%lookup_singleton_Some. cbn [ao_refs]. rewrite map_filter_singleton_False by (by intros []). done.
  - intros b. cbn. rewrite Hmem. apply (bt_mem _ Hb).
Qed.

Lemma rop_sim X K a s o : fresh_pages alloc_page → (∀ n, 0 ≤ n → Z.of_nat (length (new_mem n)) = n) → rrel X K a s → rop_ok a o → sim a s o.
Proof.
  intros Hfp Hnew Hr. destruct o; [by eapply split_sim|by eapply merge_sim|by eapply release_sim|intros []; by eapply read_sim|by eapply write_sim].
Qed.
End Spec.

(** A state of the component stands for files and descriptors. *)
Definition stands_for (mem0 : list bool) (a : afs) (s : rstate) : Prop := ∃ X K, rrel mem0 X K a s.


(** ** What was written can be read *)

Lemma overwrite_read c b off : (off ≤ length c)%nat → take (length b) (drop off (overwrite c b off)) = b.
Proof.
  intros H. unfold overwrite. rewrite drop_app_ge by (rewrite length_take; lia).
  replace (off - length (take off c))%nat with 0%nat by (rewrite length_take; lia). by rewrite drop_0, take_app_length.
Qed.

Lemma td_used mem0 a s td t : stands_for mem0 a s → a_tds a !! td = Some t → td ≠ td_null ∧
  ∃ o, a_objs a !! at_obj t = Some o ∧ 0 ≤ at_off t ≤ Z.of_nat (length (ao_content o)).
Proof.
  intros (X & K & Hr) Ht. split; [|exact (q_td _ _ _ _ _ Hr _ _ Ht)]. intros ->.
  destruct (proj2 (q_Xdom _ _ _ _ _ Hr td_null)) as [u Hu]; [by eexists|]. pose proof (q_X0 _ _ _ _ _ Hr). unfold td_null in Hu. congruence.
Qed.

(** A write that has a buffer and may write. *)
Lemma write_outcome alloc_page mem0 a td t o b sz r a' : rstep alloc_page mem0 a (OWrite td (Some b) sz) r a' →
  td ≠ td_null → a_tds a !! td = Some t → a_objs a !! at_obj t = Some o → Z.land (at_flags t) TOR_WRITE ≠ 0 → 0 < sz →
  r = (- ENOMEM, []) ∧ false ∈ mem0 ∨ ∃ n, r = (n, []) ∧ 0 < n ≤ sz ∧
    a' = put_td td (MkAt (at_obj t) (at_off t + n) (at_flags t))
      (put_obj (at_obj t) (set_content (overwrite (ao_content o) (take (Z.to_nat n) b) (Z.to_nat (at_off t))) o) a).
Proof.
  intros Hst H0 Ht Ho Hfl Hsz. inversion Hst as [| | | | | | | | | | | | | | |? ? ? t' o' n _ Ht' Ho' _ Hn Hn0| | | |]; subst; try naive_solver.
  assert (t' = t) as -> by congruence. assert (o' = o) as -> by congruence. right. exists n. split; [done|]. split; [|done].
  destruct (decide (n = 0)); lia.
Qed.

Lemma read_outcome alloc_page mem0 a td t o sz r a' : rstep alloc_page mem0 a (ORead td true sz) r a' →
  td ≠ td_null → a_tds a !! td = Some t → a_objs a !! at_obj t = Some o → Z.land (at_flags t) TOR_READ ≠ 0 →
  let bytes := take (Z.to_nat sz) (drop (Z.to_nat (at_off t)) (ao_content o)) in
  r = (Z.of_nat (length bytes), bytes).
Proof.
  intros Hst H0 Ht Ho Hfl. cbn zeta. inversion Hst; subst; try naive_solver.
  assert (t0 = t) as -> by congruence. assert (o0 = o) as -> by congruence.
  match goal with H : ao_content o = [] |- _ => rewrite H end. by rewrite drop_nil, take_nil.
Qed.

(** C13. Bytes that were written are read back: where a write through one
    descriptor does not run out of memory, it writes some of the bytes, and a
    read of as many through another descriptor of the same file, at the same
    offset, returns them, whatever the files and the two descriptors are. *)
Theorem ramfs_write_read alloc_page new_mem mem0 a s td1 td2 t1 t2 b sz :
  fresh_pages alloc_page → (∀ n, 0 ≤ n → Z.of_nat (length (new_mem n)) = n) → stands_for mem0 a s →
  rop_ok a (OWrite td1 (Some b) sz) → td_ok td2 → 0 < sz → td1 ≠ td2 → a_tds a !! td1 = Some t1 → a_tds a !! td2 = Some t2 →
  at_obj t2 = at_obj t1 → at_off t2 = at_off t1 → Z.land (at_flags t1) TOR_WRITE ≠ 0 → Z.land (at_flags t2) TOR_READ ≠ 0 →
  ∃ n s1, twrite new_mem td1 (Some b) sz s = Done n s1 ∧
    (n = - ENOMEM ∧ false ∈ mem0 ∨ 0 < n ≤ sz ∧ ∃ s2, tread td2 true n s1 = Done (n, take (Z.to_nat n) b) s2).
Proof.
  intros Hfp Hnew Hs Hok Htd2 Hsz Hne H1 H2 Eo Eoff Hw Hrd. destruct (td_used _ _ _ _ _ Hs H1) as [N1 (o & Ho & Hoff)].
  destruct (td_used _ _ _ _ _ Hs H2) as [N2 _]. destruct Hs as (X & K & Hr).
  destruct (rop_sim alloc_page new_mem mem0 X K a s _ Hfp Hnew Hr Hok) as (r & s1 & a1 & X1 & K1 & E1 & Hst1 & Hr1).
  assert (Hrun : ∃ n, twrite new_mem td1 (Some b) sz s = Done n s1 ∧ r = (n, [])).
  { cbn in E1. apply bind_Done in E1 as (n & s' & En & E'). injection E' as <- <-. by exists n. }
  destruct Hrun as (n & En & ->). exists n, s1. split; [done|].
  destruct (write_outcome _ _ _ _ _ _ _ _ _ _ Hst1 N1 H1 Ho Hw Hsz) as [[[= ->] Hm]|(n' & [= <-] & Hn & ->)]; [by left|right]. split; [done|].
  destruct (read_sim alloc_page new_mem mem0 X1 K1 _ s1 td2 true n Hr1 Htd2 ltac:(lia)) as (r & s2 & a2 & X2 & K2 & E2 & Hst2 & _).
  exists s2. cbn in E2. rewrite E2. f_equal. destruct Hok as (_ & _ & Hb & _). specialize (Hb b eq_refl).
  assert (Hlb : length (take (Z.to_nat n) b) = Z.to_nat n) by (rewrite length_take; lia).
  rewrite (read_outcome _ _ _ _ t2 (set_content (overwrite (ao_content o) (take (Z.to_nat n) b) (Z.to_nat (at_off t1))) o) _ _ _ Hst2 N2).
  - cbn [ao_content set_content]. pose proof (overwrite_read (ao_content o) (take (Z.to_nat n) b) (Z.to_nat (at_off t1)) ltac:(lia)) as Hor.
    rewrite Hlb in Hor. rewrite Eoff, Hor, Hlb. f_equal. lia.
  - cbn. by rewrite lookup_insert_ne.
  - cbn. rewrite Eo. apply lookup_insert_eq.
  - done.
Qed.

(** ** An instance *)

Lemma split_outcome alloc_page mem0 a td param len fl r a' t : rstep alloc_page mem0 a (OSplit td param len fl) (r, []) a' → 0 < r →
  a_tds a !! td = Some t → ∃ c a1 o, atarget mem0 a (at_obj t) (the_path param len) fl (inl c) a1 ∧ a_objs a1 !! c = Some o ∧
    a_tds a !! r = None ∧ a' = put_td r (MkAt c 0 fl) (put_obj c (set_refs (ao_refs o + 1) o) a1).
Proof.
  intros Hst Hr Ht. inversion Hst as [? ? ? ? t' c a1 o td' _ Ht'|? ? ? ? ? ? ? _ _ Hat| | | | | | | | | | | | | | | | | |]; subst; try (by cbv in Hr).
  - assert (t' = t) as -> by congruence. by exists c, a1, o.
  - inversion Hat; subst; by cbv in Hr.
Qed.

Definition zeros (n : Z) : list Z := replicate (Z.to_nat n) 0.

Lemma zeros_length n : 0 ≤ n → Z.of_nat (length (zeros n)) = n.
Proof. intros H. unfold zeros. rewrite length_replicate. lia. Qed.

Definition rs0 : rstate := MkRs fs0 {[null_torrent := MkTor 0 0 0 None; root_torrent := MkTor 0 0 0 None]} (MkMap static_vect 0 0).

Lemma rs0_boot : boot [] rs0.
Proof. split; [done|by eexists|by eexists|apply static_page|done]. Qed.

(** A file "a", and the file of descriptor 2 again. *)
Definition open_a : rop := OSplit td_root [97] 1 (Z.lor TOR_READ TOR_WRITE).
Definition open_same : rop := OSplit 2 [] 0 (Z.lor TOR_READ TOR_WRITE).

Lemma empty_objs i o : a_objs empty_fs !! i = Some o → i = root ∧ ao_content o = [] ∧ ao_refs o = 1 ∧ ao_parent o = None.
Proof. unfold empty_fs. cbn [a_objs]. by intros [<- <-]%lookup_singleton_Some. Qed.

Lemma open_a_ok : rop_ok empty_fs open_a.
Proof.
  split; [by split|]. split; [done|]. split; [by intros i x (_ & _ & -> & _)%empty_objs|].
  intros t [= <-] Hw. change (components _) with [[97]] in Hw. cbn in Hw.
  inversion Hw as [|? ? ? c ? _ (o & (_ & _ & _ & Ho)%empty_objs & Hp & _)| |? ? ? Hd]; subst; [congruence|].
  apply Hd. by eexists.
Qed.

Definition returned {S A} (o : outcome S A) : option A := match o with Done r _ => Some r | Fault _ => None end.

Lemma returned_pair {S A B} (x : A) (m : M S B) (s : S) r : returned ((y ← m; mret (x, y)) s) = Some r → x = r.1 ∧ ∃ s', m s = Done r.2 s'.
Proof. unfold mbind, M_bind, returned. destruct (m s) as [y s'|]; [|done]. intros [= <-]. by split; [|exists s']. Qed.

Lemma opened_run : returned ((cos_init any_page;; x ← rop_run any_page zeros open_a; y ← rop_run any_page zeros open_same; mret (x, y)) rs0)
  = Some ((2, []), (3, [])).
Proof. vm_compute. reflexivity. Qed.

Lemma opened_twice : ∃ a s c o, stands_for [] a s ∧ a_tds a !! 2 = Some (MkAt c 0 3) ∧ a_tds a !! 3 = Some (MkAt c 0 3) ∧
  a_objs a !! c = Some o ∧ ao_content o = [].
Proof.
  pose proof opened_run as Hrun. destruct (init_sim any_page [] rs0 any_page_fresh rs0_boot) as (s0 & E0 & Hr0).
  rewrite (bind_run _ _ _ _ _ E0) in Hrun.
  destruct (rop_sim any_page zeros [] _ _ _ s0 open_a any_page_fresh zeros_length Hr0 open_a_ok) as (r1 & s1 & a1 & X1 & K1 & E1 & Hst1 & Hr1).
  rewrite (bind_run _ _ _ _ _ E1) in Hrun.
  destruct (returned_pair _ _ _ _ Hrun) as (-> & s2 & E2). clear Hrun E0 E1 Hr0. cbn [fst snd] in *.
  destruct (split_outcome _ _ _ _ _ _ _ _ _ (MkAt root 0 0) Hst1 ltac:(done) eq_refl) as (c & b & o & Hat & Ho & _ & ->).
  assert (Hc : ao_content o = [] ∧ ao_refs o = 1 ∧ ∀ i x, a_objs b !! i = Some x → ao_refs x = 1).
  { inversion Hat as [? o' _ Ho'| |? ? ? ? ? ? ? ? ? ? ? ?| |]; subst.
    - apply empty_objs in Ho as (_ & ? & ? & _). split_and!; try done. by intros i x (_ & _ & -> & _)%empty_objs.
    - cbn in Ho. rewrite lookup_insert_eq in Ho. injection Ho as <-. split_and!; try done.
      cbn. intros i y [[_ <-]|[_ (_ & _ & -> & _)%empty_objs]]%lookup_insert_Some; done. }
  set (a1 := put_td _ _ _) in *. destruct Hc as (Hc & Hrc & Hall).
  assert (Ht1 : a_tds a1 !! 2 = Some (MkAt c 0 3)) by apply lookup_insert_eq.
  assert (Hok : rop_ok a1 open_same).
  { split; [by split|]. split; [done|]. split.
    - cbn. intros i x [[_ <-]|[_ Hi]]%lookup_insert_Some; [cbn; lia|]. rewrite (Hall _ _ Hi). lia.
    - intros t _ Hw. inversion Hw. }
  destruct (rop_sim any_page zeros [] _ _ _ s1 open_same any_page_fresh zeros_length Hr1 Hok) as (r & s3 & a2 & X2 & K2 & E3 & Hst2 & Hr2).
  rewrite E2 in E3. injection E3 as <- <-.
  destruct (split_outcome _ _ _ _ _ _ _ _ _ _ Hst2 ltac:(done) Ht1) as (c' & b' & o' & Hat' & Ho' & _ & ->).
  inversion Hat' as [? x Hw _ _| |? ? ? ? ? ? Hw| |]; subst; [|by inversion Hw]. inversion Hw; subst. cbn [at_obj] in *.
  cbn in Ho'. rewrite lookup_insert_eq in Ho'. injection Ho' as <-.
  eexists _, s2, _, _. split; [by eexists _, _|]. split; [cbn; rewrite lookup_insert_ne by done; apply lookup_insert_eq|]. split; [apply lookup_insert_eq|]. split; [apply lookup_insert_eq|]. done.
Qed.


Lemma ramfs_write_read_witness : ∃ s n s1, twrite zeros 2 (Some [5; 6; 7]) 3 s = Done n s1 ∧ 0 < n ≤ 3 ∧
  ∃ s2, tread 3 true n s1 = Done (n, take (Z.to_nat n) [5; 6; 7]) s2.
Proof.
  destruct opened_twice as (a & s & c & o & Hs & H2 & H3 & Ho & Hc).
  assert (Hok : rop_ok a (OWrite 2 (Some [5; 6; 7]) 3)).
  { split; [by split|]. split; [done|]. split; [by intros b [= <-]|]. intros t x Ht Hx. assert (t = MkAt c 0 3) as -> by congruence.
    cbn in Hx. assert (x = o) as -> by congruence. by rewrite Hc. }
  assert (Htd : td_ok 3) by (by split).
  destruct (ramfs_write_read any_page zeros [] a s 2 3 _ _ [5; 6; 7] 3 any_page_fresh zeros_length Hs Hok Htd eq_refl
    ltac:(lia) H2 H3 eq_refl eq_refl ltac:(done) ltac:(done)) as (n & s1 & E1 & [[_ Hm]|[Hn H]]); [by apply elem_of_nil in Hm|].
  exists s, n, s1. exact (conj E1 (conj Hn H)).
Defined.
